(* ===== verification/_CoqProject ===== *)
-Q . S2P
Prelude.v
Regex.v
Locator.v
Kahn.v
StateMachine.v
Json.v
Task.v
PlanValidator.v
Waves.v
Policy.v
Lease.v
Budget.v
ResourceLocks.v
Projection.v
Readiness.v
AgentPool.v
Capability.v
OperationDag.v
DagEngine.v
Compiler.v
Grant.v
Evaluator.v
Tdd.v
Blockers.v
WorkingState.v
LoopPolicy.v
TaskEnvelope.v
Secrets.v
ToolDefinition.v
ToolRegistry.v
ActionIntent.v
Invocation.v
Governance.v
Gates.v
GateSuite.v
Loop.v
JsonText.v
Schema.v
Transaction.v
Store.v
Repository.v
Commit.v
CrashSafety.v
Lock.v
Checkpoint.v
Workflow.v
Vouched.v
WorkflowLedger.v
LedgerChecks.v
WorkflowRefinement.v
TddPatch.v
TddCycle.v
TddWorkspace.v
TddRunner.v
