(* ===== verification/Prelude.v ===== *)
(** * The scheduling and workflow core of the universal harness

    A verification library for the TypeScript monorepo under [src/]. It models
    the pure core that decides what an agent operation may do: how a plan is
    checked and laid out in waves, how tasks are leased, budgeted, locked and
    selected, how an operation moves through its states, and how its DAG runs
    and resumes. The model is a shallow embedding: one Rocq function per
    function of the source, with the source's names.

    ** The program and the files that model it

    - [Prelude]: the result type of fallible code, loops over it, JavaScript
      numbers, [Array.prototype.sort], insertion-ordered maps, strings; the
      tactics [inv_result] and [bool_hyps] and the lemmas every file shares.
    - [Regex]: regular expressions as data with a matcher by derivatives; the
      patterns of the source are written in it.
    - [Locator]: core/src/identity/locator.ts, project-relative paths and
      qualified locators: parse, print, canonicalize.
    - [Kahn]: the worklist topological sort that planning/waves.ts,
      planning/validator.ts, workflow/dag-engine.ts and capability/dag.ts each
      write out; generic in the queue discipline, proved once.
    - [StateMachine]: runtime/src/workflow/state-machine.ts and the state
      fields of the operation records of workflow/operation.ts and resume.ts,
      without the ledger ([Workflow] has it).
    - [Json]: core/src/identity/canonical-json.ts, digest.ts, canonical-set.ts
      and the record envelopes of schema/envelope.ts and protocol.ts.
    - [Task], [PlanValidator]: runtime/src/planning/task.ts and validator.ts,
      from an untrusted JSON proposal to a list of task specifications.
    - [Waves]: runtime/src/planning/waves.ts, the layout of tasks in waves.
    - [Lease], [Budget], [ResourceLocks]: runtime/src/scheduling/lease.ts,
      budget.ts and resource-locks.ts, over the records of
      core/src/scheduling/records.ts and schema/scheduling.ts.
    - [Projection], [Readiness], [AgentPool]: runtime/src/scheduling/
      projection.ts, readiness.ts and agent-pool.ts.
    - [Capability], [OperationDag]: core/src/capability/registry.ts and dag.ts.
    - [DagEngine]: runtime/src/workflow/dag.ts and dag-engine.ts.
    - [Compiler]: core/src/capability/compiler.ts with profile/definitions.ts
      and profile/model-slots.ts, from a profile and a policy to a capability
      plan, and the invalidation of its capabilities.
    - [Policy], [Grant], [Evaluator]: runtime/src/policy/action.ts,
      decision.ts, path-boundary.ts, capability-grant.ts and evaluator.ts: the
      reading of an action, the merge of policy layers, capability grants and
      the decision on an action.
    - [Tdd], [TddPatch], [TddCycle], [TddWorkspace], [TddRunner]: the files of
      runtime/src/tdd/, the grants of the phases of a strict TDD cycle and the
      intersection of write scopes; test patches and their digests; the state
      machine of an attempt, the evidence that moves it, the record that seals it
      and the verdict on a task; isolated workspaces with their in-memory adapter;
      and the run of a task, as a state monad whose statements go on, leave with
      an outcome or throw, over ports for workspaces, gate, executor and evidence.
    - [Blockers], [WorkingState]: runtime/src/workflow/blockers.ts and
      working-state.ts, the state a checkpoint holds, the proposals that change
      it and its validation.
    - [Secrets]: runtime/src/secrets/environment-reference.ts, references to
      environment secrets in tool parameters and the redaction of their values.
    - [ToolDefinition], [ToolRegistry], [ActionIntent], [Invocation]: the files of
      runtime/src/tools/, tool descriptors and versions, their registry and
      quotas, the journal of external actions and its reconciliation, and the
      pipeline of a call, alone and interleaved with others.
    - [Governance]: runtime/src/finding/governance.ts, the metadata findings are
      grouped by; [Gates], [GateSuite]: the files of runtime/src/gates/, a gate as
      a call of a tool, the evidence of its outcome and its freshness, and the
      suite that decides whether an iteration may complete.
    - [LoopPolicy], [TaskEnvelope], [Loop]: runtime/src/loop/policy.ts,
      repeat-detector.ts, outcome.ts, task-envelope.ts and controller.ts: the
      managed loop of an agent, as a state and exception monad over ports.
    - [JsonText]: [JSON.parse], which the ledger applies to what
      [canonicalizeJson] wrote. [Schema]: core/src/schema/common.ts, operation.ts,
      edge.ts, event.ts, runtime.ts and registry.ts with version.ts and
      protocol.ts, as predicates on JSON values.
    - [Transaction], [Store], [Repository]: the files of core/src/ledger/, the
      paths, manifests and checks of layout.ts and transaction.ts, the readers of
      event-store.ts over a disk, and the commit of repository.ts as effects
      between which the process may be killed. [Commit]: a logic for such runs,
      with a crash condition, and the invariant of a commit; [CrashSafety]: what
      it gives for commits, histories and recovery. [Lock]: lock.ts, the write lock
      as a state machine whose steps interleave with those of other writers.
    - [Checkpoint], [Workflow]: runtime/src/workflow/checkpoint.ts and
      operation.ts, the checkpoints an operation keeps in the ledger and the
      methods of the engine, each of which reads the disk, prepares a
      transaction and commits it. [Vouched]: what a commit does to the
      artifacts the manifests vouch for; [WorkflowLedger]: the records of an
      operation on the disk and what a method adds to them; [LedgerChecks]:
      decision procedures for the conditions of those lemmas, for examples;
      [WorkflowRefinement]: the theorems, that the engine over the ledger
      implements [StateMachine].

    ** How they interact

    An accepted proposal ([PlanValidator]) is a DAG of tasks ([Task]) whose
    claims [Waves] lays out so that no two tasks of a wave conflict;
    [ResourceLocks] holds the same claims at run time, with
    [wave_mates_lock_together] as the agreement of the two. The lease ledger
    ([Lease]) is the authority: [Budget] and [ResourceLocks] are restored from
    it, [Projection] reads each task's status from it, and [Readiness] combines
    projection, locks, budget and chain into the tasks to dispatch next;
    [selection_dispatches] is the agreement of selection and accounting.
    [Capability] closes a set of modules under their dependencies,
    [OperationDag] builds and validates the DAG of an operation from it,
    [Compiler] composes the two into the plan of an operation, and [DagEngine]
    runs its DAG with a journal of checkpoints. [Policy] merges the layers of a
    policy into one, [Grant] narrows it to the grant of a task, and [Evaluator]
    decides each action against both; a lease is granted on its decision
    ([lease_drops_the_approval] is the composition). A dispatched task runs under
    a [TaskEnvelope] in the managed [Loop], which applies the model's proposals to
    the [WorkingState] and narrows the [Grant] after each step. Its tools are
    called through [Invocation]: a descriptor of the [ToolRegistry] and the [Grant]
    admit the call, [Secrets] resolves and redacts, and [ActionIntent] keeps what
    happened outside. A gate ([Gates]) is such a call in the verification phase,
    and [GateSuite] composes the gates of an iteration into its verdict and the
    findings, labelled by [Governance], that block it. Under strict TDD
    [TddRunner] moves a [TddCycle] with what it observes in the workspaces of
    [TddWorkspace], under grants of [Tdd]; the laws of a workspace port are a
    class the in-memory adapter implements. An operation moves through the states
    of [StateMachine] by methods of [Workflow], which commit its record, its
    [Checkpoint] with the [WorkingState] in it, and its events as one transaction.
    What is accepted is kept in the ledger: an input of [Transaction] is checked with [Schema], written with
    [Json], published by [Repository] on the disk of [Store], and read back with
    [JsonText].

    ** What the theorems show

    - Safety of scheduling: waves respect dependencies and are free of
      conflicts; locks are mutually exclusive; the budget is never overspent;
      fencing tokens never regress; at most one run per pool slot.
    - Authority: an accepted plan widens no capability, tool or gate and stays
      inside the repository; a lease needs a matching decision; the layer merge
      is exact, an allowed action is inside every layer's scopes and inside its
      grant, an approval lifts no refusal, and a narrowed grant admits no more,
      apart from the tool bounds it drops.
    - The managed loop: it always ends, within its steps and with one terminal
      decision; success needs a completion signal and, if the policy asks for it,
      the verification made after the last step; the grant never grows; the working state stays valid and accounts
      the steps; the policy it runs under is bounded.
    - External effects: the handler of a tool is reached exactly when every check
      admits the call; however calls, answers and reconciliations interleave, an
      external effect is executed once per idempotency key and once more for every
      release, or for every record a stale reconciliation makes the journal lose
      ([stale_release_reopens]); when every reconciliation works on the record the
      journal holds and on no call in flight, a completed effect stays completed
      and is not repeated; secrets enter only declared parameters.
    - Verification: a gate passes exactly when its tool reports success, and only
      a tool without external effect can make it pass; the digest of an evidence
      record determines what was observed; evidence closes a finding exactly while
      every digest it binds holds; completion is allowed exactly when every
      mandatory gate passed with final evidence.
    - Strict TDD: evidence is accepted exactly when it proves what its phase asks
      for; a completed record, and the verdict on a task, rest on a baseline, a red
      and a green run that belong together; a run completes only along observations
      that establish them, works on production code only after accepted red
      evidence, and leaves no workspace behind but those whose destruction failed.
      The scopes of a phase are checked for the files an executor declares.
    - Recovery: budget, locks and task states rebuilt from the ledger are the
      live ones; a DAG run interrupted anywhere resumes, when its runners answer a
      context as before, to the same journal: it keeps what the checkpoints
      allow to replay and runs the rest again; a rewired DAG keeps exactly the
      common prefix.
    - Operations: a call of the engine does to the ledger what the state machine
      says, or nothing, wherever it is killed; the history of an operation is a
      run of the machine, as long as its calls do not overlap.
    - The ledger: a commit is atomic for its readers wherever the process is
      killed and whatever a torn write leaves; the history only grows, one
      sequence number at a time, however many processes commit, retry and die; a
      commit that was killed any number of times is completed by the next run,
      and its records are then replayed once, after all the others. These hold of
      transactions the schema of manifests admits, whose paths do not get in each
      other's way, from a disk with nothing else staged, and recovery also of
      records that can be replayed; [CrashSafety] shows what happens without.
      Histories of
      two branches merge exactly when they agree; canonical JSON is read back as
      the value written. The write lock excludes as long as no two writers reclaim a
      dead lock at once, and an undisturbed attempt to take it ends.
    - Exactness: the checks of plans, DAGs, module graphs and wave layouts
      accept exactly what they should, and every loop terminates on every
      input.
    - Identity: canonical JSON, digests and locators determine their content up
      to the order that does not matter, or exhibit a hash collision.

    ** Conventions

    A thrown error is a value of [result], its kind a constructor; messages are
    dropped. A [number] is a [Z]; where the source tests [Number.isInteger] it
    is a [jsnum]. A [Map] whose iteration order is observable is an association
    list in insertion order, any other is a [gmap]; a [Set] that is only tested
    is a list or a [gset]. Strings are sequences of code units below U+0100,
    where Unicode normalization is the identity.

    Code outside [src/] is a parameter with its documented laws: SHA-256
    ([Hash], no law), [localeCompare] ([Collation], a total preorder), the file
    system ([FileSystem]), [Date] ([Clock], printing and parsing are inverse),
    the JSON-schema format date-time ([DateTime]), the schema compiler
    ([SchemaCompiler], no law), the handlers of tools and the provider probe,
    the order in which a directory is listed ([Readdir], every name once) and what
    a killed write or removal leaves ([Crash], no law); for strict TDD the gate, the
    executor, the store and the texts of caught errors. The disk of the ledger is
    a map from paths, as lists of segments below .harness, to entries; an effect
    is complete on the disk before the next one begins.

    ** Fuel

    Recursion that is not structural takes fuel, with a theorem that it is
    enough: Kahn's loop runs once per node ([kahn_loop]), the waves at most the
    number of tasks deep ([waves_total]), the depth-first visit at most one
    level per module ([dependency_closure_exact]), the invalidation loop at
    most one pass more than there are active capabilities
    ([invalidation_exact]), the managed loop one iteration per step and one more
    ([managed_loop_ends]), the attempts of a call as its descriptor allows
    ([invocation_calls_bounded]), the attempts at the write lock as its options allow
    ([acquisition_ends]), the retries of a tool call as the policy allows, the
    ancestor search of a write path at most its
    length; the walk along the checkpoints one per file of the disk and one more
    ([checkpoint_chain_ends]); the JSON parser runs with the length of its text, enough for every text
    that [canonicalizeJson] writes ([parse_canonical]).

    ** Not modelled

    The schedulers, orchestration and collaboration drivers are asynchronous
    compositions of the modelled parts over the file system, Git and the
    ledger; process, network and terminal I/O, the dashboard, the graph index,
    adapters and test kits are left out as I/O. TypeBox schemas are modelled
    where a modelled operation reads them. Approvals, execution preflight,
    the authorization records of policy/ and the resumption of a blocked operation over
    the ledger (workflow/resume.ts) are not modelled yet. The live observations of the agent
    pool and of tool calls, the writer token of checkpoints and the message
    texts of errors are left out: none of them feeds back into the modelled
    state. The git adapter of the TDD workspaces runs child processes; a call of a
    port is one step, so the calls in flight while a blocked run destroys its
    workspaces are not interleaved. Of the ledger, a commit takes what other writers do until it holds the
    write lock as a parameter; the hooks at the durable
    boundaries, the bounded retries of a rename, symbolic links and the order in
    which a device makes completed writes durable are left out. *)

From Stdlib Require Export Ascii.
From stdpp Require Export prelude gmap strings sorting pretty.

(* ------------------------------------------------------------------ *)
(** ** The error monad of fallible code *)

(** A TypeScript function that may [throw] is a function into [result E A],
    [E] being the typed error kinds of its module. *)
Inductive result (E A : Type) : Type :=
| Ok (a : A)
| Err (e : E).
Arguments Ok {E A} a.
Arguments Err {E A} e.

#[export] Instance result_ret {E} : MRet (result E) := fun A a => Ok a.
#[export] Instance result_bind {E} : MBind (result E) := fun A B f m =>
  match m with Ok a => f a | Err e => Err e end.
#[export] Instance result_fmap {E} : FMap (result E) := fun A B f m =>
  match m with Ok a => Ok (f a) | Err e => Err e end.
#[export] Instance result_eq_dec {E A} `{EqDecision E} `{EqDecision A} :
  EqDecision (result E A).
Proof. solve_decision. Defined.

#[export] Instance Ok_inj {E A} : Inj (=) (=) (@Ok E A).
Proof. by intros x y [= ->]. Qed.
#[export] Instance Err_inj {E A} : Inj (=) (=) (@Err E A).
Proof. by intros x y [= ->]. Qed.

(** Changing the error type: [try { .. } catch (e) { throw f(e) }]. *)
Definition map_err {E E' A} (f : E -> E') (m : result E A) : result E' A :=
  match m with Ok a => Ok a | Err e => Err (f e) end.

Definition is_ok {E A} (m : result E A) : bool :=
  match m with Ok _ => true | Err _ => false end.

Definition to_option {E A} (m : result E A) : option A :=
  match m with Ok a => Some a | Err _ => None end.

(** [if (b) throw e;] *)
Definition reject_if {E} (b : bool) (e : E) : result E unit :=
  if b then Err e else Ok tt.

(** [for (const x of l) s = f(s, x);] with early exit on [throw]. *)
Fixpoint foldM {E A B} (f : B -> A -> result E B) (b : B) (l : list A) : result E B :=
  match l with
  | [] => Ok b
  | x :: l' => b' ← f b x; foldM f b' l'
  end.

(** [for (const x of l) check(x);] *)
Fixpoint forM_ {E A} (f : A -> result E unit) (l : list A) : result E unit :=
  match l with
  | [] => Ok tt
  | x :: l' => _ ← f x; forM_ f l'
  end.

(* ------------------------------------------------------------------ *)
(** ** Numbers *)

(** A value of type [number] that code tests with [Number.isInteger]:
    [JNonInt] stands for every non-integer (fractions, NaN, infinities). *)
Inductive jsnum : Type :=
| JInt (z : Z)
| JNonInt.

#[export] Instance jsnum_eq_dec : EqDecision jsnum.
Proof. solve_decision. Defined.

(* ------------------------------------------------------------------ *)
(** ** Sorting: [Array.prototype.sort] with a comparator *)

(** The specification of [sort] asks for a stable sort; a stable insertion
    sort is the reference definition. The comparator answers a number of
    which only the sign matters. *)
Section js_sort.
Context {A : Type} (cmp : A -> A -> Z).

Fixpoint sort_insert (x : A) (l : list A) : list A :=
  match l with
  | [] => [x]
  | y :: l' => if (cmp x y <=? 0)%Z then x :: l else y :: sort_insert x l'
  end.

Definition js_sort (l : list A) : list A := foldr sort_insert [] l.

(** What ECMAScript calls a consistent comparator, as far as it is used. *)
Definition cmp_flip : Prop := forall x y, Z.sgn (cmp y x) = (- Z.sgn (cmp x y))%Z.
Definition cmp_total : Prop := forall x y, (0 < cmp x y)%Z -> (cmp y x <= 0)%Z.
Definition cmp_trans : Prop :=
  forall x y z, (cmp x y <= 0)%Z -> (cmp y z <= 0)%Z -> (cmp x z <= 0)%Z.
Definition cmp_le (x y : A) : Prop := (cmp x y <= 0)%Z.
End js_sort.

(** [c1(x, y) || c2(x, y)] *)
Definition then_cmp {A} (c1 c2 : A -> A -> Z) (x y : A) : Z :=
  if (c1 x y =? 0)%Z then c2 x y else c1 x y.

(** Comparison of strings by code unit, as [<], [>] and the default [sort]. *)
Definition str_cmp (a b : string) : Z :=
  match String.compare a b with Lt => -1 | Eq => 0 | Gt => 1 end.
Definition str_lt (a b : string) : bool := bool_decide (str_cmp a b < 0)%Z.

(** [[...values].sort()] *)
Definition sort_strings (l : list string) : list string := js_sort str_cmp l.

(* ------------------------------------------------------------------ *)
(** ** Insertion-ordered maps and sets: the [Map] and [Set] classes *)

(** Where code iterates a [Map], the order of insertion matters: an
    association list in which [omap_set] keeps the place of a known key. *)
Section omap.
Context {K V : Type} `{EqDecision K}.

Fixpoint omap_get (m : list (K * V)) (k : K) : option V :=
  match m with
  | [] => None
  | (k', v) :: m' => if decide (k = k') then Some v else omap_get m' k
  end.

Fixpoint omap_set (m : list (K * V)) (k : K) (v : V) : list (K * V) :=
  match m with
  | [] => [(k, v)]
  | (k', v') :: m' => if decide (k = k') then (k', v) :: m' else (k', v') :: omap_set m' k v
  end.
End omap.

(** [new Set(l)], in order of first occurrence. *)
Section dedup.
Context {A : Type} `{EqDecision A}.

Fixpoint dedup_from (seen l : list A) : list A :=
  match l with
  | [] => []
  | x :: l' => if decide (x ∈ seen) then dedup_from seen l' else x :: dedup_from (x :: seen) l'
  end.

Definition dedup (l : list A) : list A := dedup_from [] l.

(** [new Set(l).size !== l.length] *)
Definition has_duplicates (l : list A) : bool :=
  negb (length (dedup l) =? length l)%nat.
End dedup.

Definition mem {A} `{EqDecision A} (x : A) (l : list A) : bool := bool_decide (x ∈ l).

(** [for (const x of l) { g = map.get(key(x)) ?? []; g.push(x); map.set(key(x), g); }] *)
Definition group_by {A K} `{EqDecision K} (key : A -> K) (l : list A) : list (K * list A) :=
  foldl (fun m x => omap_set m (key x) (default [] (omap_get m (key x)) ++ [x])) [] l.

(** [l.findIndex(p)] *)
Fixpoint find_index {A} (p : A -> bool) (l : list A) : option nat :=
  match l with
  | [] => None
  | x :: l' => if p x then Some 0 else S <$> find_index p l'
  end.

(** [l.find(p)] *)
Fixpoint find_first {A} (p : A -> bool) (l : list A) : option A :=
  match l with
  | [] => None
  | x :: l' => if p x then Some x else find_first p l'
  end.

(** [l.indexOf(x)] *)
Definition index_of {A} `{EqDecision A} (x : A) (l : list A) : Z :=
  match find_index (fun y => bool_decide (x = y)) l with Some n => Z.of_nat n | None => -1 end.

(* ------------------------------------------------------------------ *)
(** ** Strings *)

#[global] Arguments String.append !_ _ / : simpl nomatch.

(** A string is a sequence of UTF-16 code units; the model ranges over the
    units 0..255. Text in that range is its own NFC normal form (Unicode
    Standard, annex 15), so [s.normalize("NFC")] is the identity on it. *)
Definition nfc (s : string) : string := s.

Fixpoint split_on (c : ascii) (s : string) : list string :=
  match s with
  | EmptyString => [""]
  | String a s' =>
      if decide (a = c) then "" :: split_on c s'
      else match split_on c s' with
           | [] => [String a ""]
           | x :: xs => String a x :: xs
           end
  end.

Fixpoint join (sep : string) (l : list string) : string :=
  match l with
  | [] => ""
  | [x] => x
  | x :: l' => x +:+ sep +:+ join sep l'
  end.

Definition starts_with (s p : string) : bool := String.prefix p s.

Fixpoint str_forallb (p : ascii -> bool) (s : string) : bool :=
  match s with EmptyString => true | String a s' => p a && str_forallb p s' end.

Definition str_existsb (p : ascii -> bool) (s : string) : bool :=
  negb (str_forallb (fun a => negb (p a)) s).

(** [s.indexOf(c)] for a one-character [c]. *)
Fixpoint str_index (c : ascii) (s : string) : option nat :=
  match s with
  | EmptyString => None
  | String a s' => if decide (a = c) then Some 0 else S <$> str_index c s'
  end.

(** [s.slice(0, n)] and [s.slice(n)] for [0 <= n]. *)
Fixpoint str_take (n : nat) (s : string) : string :=
  match n, s with
  | S n', String a s' => String a (str_take n' s')
  | _, _ => ""
  end.
Fixpoint str_drop (n : nat) (s : string) : string :=
  match n, s with
  | S n', String _ s' => str_drop n' s'
  | 0, _ => s
  | S _, EmptyString => ""
  end.

(** [s.replaceAll(c, d)] for one-character [c] and [d]. *)
Fixpoint str_replace_all (c d : ascii) (s : string) : string :=
  match s with
  | EmptyString => ""
  | String a s' => String (if decide (a = c) then d else a) (str_replace_all c d s')
  end.

Definition code (a : ascii) : N := N_of_ascii a.
Definition in_range (lo hi : ascii) (a : ascii) : bool :=
  (code lo <=? code a)%N && (code a <=? code hi)%N.

(** The white space and line terminators of ECMAScript below U+0100. *)
Definition is_space (a : ascii) : bool :=
  mem (code a) [9; 10; 11; 12; 13; 32; 160]%N.

Fixpoint trim_start (s : string) : string :=
  match s with
  | String a s' => if is_space a then trim_start s' else s
  | EmptyString => ""
  end.
Fixpoint trim_end (s : string) : string :=
  match s with
  | String a s' =>
      let t := trim_end s' in
      if is_space a && bool_decide (t = "") then "" else String a t
  | EmptyString => ""
  end.
(** [s.trim()] *)
Definition trim (s : string) : string := trim_end (trim_start s).

(* ------------------------------------------------------------------ *)
(** ** Tactics and hints *)

Create HintDb harness discriminated.

(** Take apart hypotheses about computations in [result] that succeed. *)
Ltac inv_result :=
  repeat match goal with
  | H : mbind _ ?m = Ok _ |- _ =>
      let E := fresh "E" in destruct m eqn:E; simpl in H; [|discriminate H]
  | H : Ok ?a = Ok ?b |- _ =>
      let H' := fresh "E" in assert (a = b) as H' by congruence; clear H;
      first [subst b | subst a | idtac]
  | H : mret _ = Ok _ |- _ => unfold mret, result_ret in H
  | H : Err _ = Ok _ |- _ => discriminate H
  | H : Ok _ = Err _ |- _ => discriminate H
  | H : (if ?b then Err _ else _) = Ok _ |- _ =>
      let E := fresh "E" in destruct b eqn:E; [discriminate H|]
  | H : reject_if ?b _ = Ok _ |- _ =>
      let E := fresh "E" in unfold reject_if in H; destruct b eqn:E; [discriminate H|]
  end.

(** Split boolean conjunctions and disjunctions in the context. *)
Ltac bool_hyps :=
  repeat match goal with
  | H : _ && _ = true |- _ => apply andb_true_iff in H; destruct H
  | H : _ || _ = false |- _ => apply orb_false_iff in H; destruct H
  | H : negb _ = true |- _ => apply negb_true_iff in H
  | H : negb _ = false |- _ => apply negb_false_iff in H
  | H : bool_decide _ = true |- _ => apply bool_decide_eq_true in H
  | H : bool_decide _ = false |- _ => apply bool_decide_eq_false in H
  | H : (_ <? _)%Z = true |- _ => apply Z.ltb_lt in H
  | H : (_ <? _)%Z = false |- _ => apply Z.ltb_ge in H
  | H : (_ <=? _)%Z = true |- _ => apply Z.leb_le in H
  | H : (_ <=? _)%Z = false |- _ => apply Z.leb_gt in H
  | H : (_ =? _)%Z = true |- _ => apply Z.eqb_eq in H
  | H : (_ =? _)%Z = false |- _ => apply Z.eqb_neq in H
  | H : (_ =? _)%nat = true |- _ => apply Nat.eqb_eq in H
  | H : (_ =? _)%nat = false |- _ => apply Nat.eqb_neq in H
  end.

(* ------------------------------------------------------------------ *)
(** ** Lemmas on the monad *)

Lemma bind_Ok {E A B} (m : result E A) (f : A -> result E B) b :
  mbind f m = Ok b <-> exists a, m = Ok a /\ f a = Ok b.
Proof.
  destruct m as [a|e]; simpl; split.
  - eauto.
  - by intros (? & [= ->] & ?).
  - discriminate.
  - by intros (? & ? & ?).
Qed.

Lemma bind_Err {E A B} (m : result E A) (f : A -> result E B) e :
  mbind f m = Err e <-> m = Err e \/ exists a, m = Ok a /\ f a = Err e.
Proof.
  destruct m as [a|e']; simpl; split.
  - eauto.
  - by intros [?|(? & [= ->] & ?)].
  - intros [= ->]. by left.
  - by intros [[= ->]|(? & ? & ?)].
Qed.

Lemma map_err_Err {E E' A} (f : E -> E') (m : result E A) e :
  map_err f m = Err e <-> exists e', m = Err e' /\ e = f e'.
Proof.
  destruct m as [a|e']; simpl; split; [done|by intros (? & ? & ?)|intros [= <-]; eauto|by intros (? & [= <-] & ->)].
Qed.

Lemma forM_Err {E A} (f : A -> result E unit) l e : forM_ f l = Err e -> exists x, x ∈ l /\ f x = Err e.
Proof.
  induction l as [|x l IH]; simpl; [done|]. intros [Hx|(? & _ & (y & ? & ?)%IH)]%bind_Err.
  - exists x. split; [left|done].
  - exists y. split; [by right|done].
Qed.

Lemma reject_if_Ok {E} (b : bool) (e : E) u : reject_if b e = Ok u <-> b = false.
Proof. destruct b, u; simpl; split; congruence. Qed.

Lemma reject_bind_Ok {E A} (b : bool) (e : E) (m : result E A) r :
  (_ ← reject_if b e; m) = Ok r <-> b = false /\ m = Ok r.
Proof. destruct b; simpl; split; [done|by intros []|done|by intros []]. Qed.

Lemma map_err_Ok {E E' A} (f : E -> E') (m : result E A) a :
  map_err f m = Ok a <-> m = Ok a.
Proof. destruct m; simpl; split; congruence. Qed.

Lemma foldM_app {E A B} (f : B -> A -> result E B) l1 l2 b :
  foldM f b (l1 ++ l2) = (b' ← foldM f b l1; foldM f b' l2).
Proof.
  revert b; induction l1 as [|x l1 IH]; intros b; simpl; [done|].
  destruct (f b x); simpl; [apply IH | done].
Qed.

(** A property of the accumulator and the elements already visited. *)
Lemma foldM_inv {E A B} (P : list A -> B -> Prop) (f : B -> A -> result E B) l :
  forall b b',
  P [] b ->
  (forall done x todo acc acc', l = done ++ x :: todo ->
     P done acc -> f acc x = Ok acc' -> P (done ++ [x]) acc') ->
  foldM f b l = Ok b' -> P l b'.
Proof.
  intros b b' H0 Hstep.
  cut (forall todo done acc, l = done ++ todo -> P done acc ->
         foldM f acc todo = Ok b' -> P l b').
  { intros Hc; apply (Hc l [] b); auto. }
  induction todo as [|x todo IH]; intros done acc Hl Hacc Hf; simpl in Hf.
  - inv_result. by rewrite app_nil_r in Hl; subst.
  - inv_result. apply (IH (done ++ [x]) a); [by rewrite <- app_assoc | | done].
    by eapply Hstep.
Qed.

Lemma forM_Ok {E A} (f : A -> result E unit) l :
  forM_ f l = Ok tt <-> Forall (fun x => f x = Ok tt) l.
Proof.
  induction l as [|x l IH]; simpl; [split; auto|].
  rewrite Forall_cons, <- IH. destruct (f x) as [[]|]; simpl; [tauto|].
  split; [discriminate | intros [? ?]; discriminate].
Qed.

Lemma forM_Ok_u {E A} (f : A -> result E unit) l u :
  forM_ f l = Ok u -> Forall (fun x => f x = Ok tt) l.
Proof. destruct u. apply forM_Ok. Qed.

Lemma mapM_cons {E A B} (f : A -> result E B) x l :
  mapM f (x :: l) = (y ← f x; k ← mapM f l; mret (y :: k)).
Proof. reflexivity. Qed.

Lemma mapM_Ok {E A B} (f : A -> result E B) l k :
  mapM f l = Ok k <-> Forall2 (fun x y => f x = Ok y) l k.
Proof.
  revert k; induction l as [|x l IH]; intros k.
  - split; [intros [= <-]; auto | intros H; inversion H; done].
  - rewrite mapM_cons. split.
    + intros H. inv_result. constructor; [done|]. by apply IH.
    + intros (y & k' & Hx & Hl & ->)%Forall2_cons_inv_l.
      apply IH in Hl. rewrite Hx; simpl. by rewrite Hl.
Qed.

Lemma elem_of_mapM {E A B} (f : A -> result E B) l k y :
  mapM f l = Ok k -> y ∈ k <-> exists x, x ∈ l /\ f x = Ok y.
Proof.
  intros Hk%mapM_Ok. setoid_rewrite list_elem_of_lookup. split.
  - intros (i & Hy). destruct (Forall2_lookup_r _ _ _ _ _ Hk Hy) as (x & ? & ?). eauto.
  - intros (x & (i & Hx) & Hf). destruct (Forall2_lookup_l _ _ _ _ _ Hk Hx) as (y' & ? & ?). exists i. congruence.
Qed.

Lemma mapM_id {E A} (f : A -> result E A) l :
  Forall (fun x => f x = Ok x) l -> mapM f l = Ok l.
Proof. intros H. apply mapM_Ok. by induction H; constructor. Qed.

Lemma foldM_pure {E A B} (f : B -> A -> result E B) (g : B -> A -> B) b l :
  (forall b x, x ∈ l -> f b x = Ok (g b x)) -> foldM f b l = Ok (foldl g b l).
Proof.
  revert b; induction l as [|x l IH]; intros b H; simpl; [done|].
  rewrite H by left. simpl. apply IH. intros. apply H. by right.
Qed.

Lemma foldM_fmap {E A B C} (f : B -> A -> result E B) (g : C -> A) b l :
  foldM f b (g <$> l) = foldM (fun b x => f b (g x)) b l.
Proof.
  revert b; induction l as [|x l IH]; intros b; csimpl; [done|]. destruct (f b (g x)); simpl; auto.
Qed.

Lemma foldM_mapM {E A B C} (f : A -> result E C) (g : B -> C -> result E B) l k b :
  mapM f l = Ok k -> foldM (fun b x => y ← f x; g b y) b l = foldM g b k.
Proof.
  intros Hm%mapM_Ok. revert b. induction Hm as [|x y l k Hx _ IH]; intros b; simpl; [done|].
  rewrite Hx; simpl. destruct (g b y); simpl; auto.
Qed.

Lemma foldM_ext {E A B} (f g : B -> A -> result E B) b l :
  (forall b x, x ∈ l -> f b x = g b x) -> foldM f b l = foldM g b l.
Proof.
  revert b; induction l as [|x l IH]; intros b Hfg; simpl; [done|]. rewrite Hfg by left.
  destruct (g b x); simpl; [|done]. apply IH. intros. apply Hfg. by right.
Qed.

(** A loop in a loop is a loop over the pairs. *)
Lemma foldM_concat {E A B C} (g : A -> B -> C -> result E B) (h : A -> list C) b l :
  foldM (fun b x => foldM (g x) b (h x)) b l =
    foldM (fun b p => g p.1 b p.2) b (l ≫= fun x => pair x <$> h x).
Proof.
  revert b; induction l as [|x l IH]; intros b; [done|]. csimpl. rewrite foldM_app, foldM_fmap. simpl.
  destruct (foldM (g x) b (h x)) as [b'|e]; [apply IH|done].
Qed.

Lemma list_filter_ext {A} (P Q : A -> Prop) `{!forall x, Decision (P x), !forall x, Decision (Q x)} (l : list A) :
  (forall x, x ∈ l -> P x <-> Q x) -> filter P l = filter Q l.
Proof.
  induction l as [|x l IH]; intros HPQ; [done|]. rewrite !filter_cons.
  rewrite IH by (intros; apply HPQ; by right). assert (P x <-> Q x) by (apply HPQ; left).
  repeat case_decide; tauto.
Qed.

(* ------------------------------------------------------------------ *)
(** ** Lemmas on sorting *)

Lemma StronglySorted_snoc {A} (R : A -> A -> Prop) `{!Transitive R} l y :
  StronglySorted R l -> (forall p, last l = Some p -> R p y) -> StronglySorted R (l ++ [y]).
Proof.
  induction 1 as [|x l Hl IH Hx]; intros Hy; simpl; [by repeat constructor|].
  assert (forall p, last l = Some p -> R p y) as Hy'.
  { intros p Hp. apply Hy. rewrite last_cons, Hp. done. }
  constructor; [by apply IH|]. apply Forall_app. split; [done|]. constructor; [|done].
  destruct (last l) as [p|] eqn:E.
  - transitivity p; [|by apply Hy']. rewrite Forall_forall in Hx. by apply Hx, last_Some_elem_of.
  - apply last_None in E. subst. by apply Hy.
Qed.

Lemma StronglySorted_last {A} (R : A -> A -> Prop) l y x :
  StronglySorted R l -> last l = Some y -> x ∈ l -> x = y \/ R x y.
Proof.
  induction 1 as [|z l Hl IH Hz]; intros Hy Hx; [done|].
  rewrite last_cons in Hy. apply elem_of_cons in Hx as [->|Hx].
  - destruct (last l) as [w|] eqn:E; [|left; congruence]. injection Hy as ->. right.
    rewrite Forall_forall in Hz. by apply Hz, last_Some_elem_of.
  - destruct (last l) as [w|] eqn:E; [injection Hy as ->; auto|].
    apply last_None in E. subst. by apply elem_of_nil in Hx.
Qed.

Section js_sort_lemmas.
Context {A : Type} (cmp : A -> A -> Z).

Lemma sort_insert_Permutation x l : sort_insert cmp x l ≡ₚ x :: l.
Proof.
  induction l as [|y l IH]; simpl; [done|].
  destruct (_ <=? _)%Z; [done|]. rewrite IH. apply Permutation_swap.
Qed.

Lemma js_sort_Permutation l : js_sort cmp l ≡ₚ l.
Proof.
  induction l as [|x l IH]; simpl; [done|].
  rewrite sort_insert_Permutation. by constructor.
Qed.

Lemma sort_insert_StronglySorted x l :
  cmp_total cmp -> cmp_trans cmp ->
  StronglySorted (cmp_le cmp) l -> StronglySorted (cmp_le cmp) (sort_insert cmp x l).
Proof.
  intros Ht Htr. induction 1 as [|y l Hl IH Hy]; simpl.
  - by repeat constructor.
  - destruct (cmp x y <=? 0)%Z eqn:E.
    + apply Z.leb_le in E. constructor; [by constructor|].
      constructor; [done|]. eapply Forall_impl; [done|]. intros z Hz. by eapply Htr.
    + apply Z.leb_gt in E. constructor; [done|].
      rewrite sort_insert_Permutation. constructor; [by apply Ht|done].
Qed.

Lemma js_sort_StronglySorted l :
  cmp_total cmp -> cmp_trans cmp -> StronglySorted (cmp_le cmp) (js_sort cmp l).
Proof.
  intros ? ?. induction l as [|x l IH]; simpl; [constructor|].
  by apply sort_insert_StronglySorted.
Qed.

(** Two permutations of one list sort to the same list when the comparator
    answers zero on equal elements only. *)
Lemma js_sort_unique l l' :
  cmp_total cmp -> cmp_trans cmp ->
  (forall x y, x ∈ l -> y ∈ l -> (cmp x y <= 0)%Z -> (cmp y x <= 0)%Z -> x = y) ->
  l ≡ₚ l' -> js_sort cmp l = js_sort cmp l'.
Proof.
  intros Ht Htr Ha Hp.
  apply (StronglySorted_unique_strong (cmp_le cmp)).
  - intros x y Hx Hy. rewrite js_sort_Permutation in Hx, Hy. rewrite <- Hp in Hy. by apply Ha.
  - by apply js_sort_StronglySorted.
  - by apply js_sort_StronglySorted.
  - by rewrite !js_sort_Permutation.
Qed.

Lemma sort_insert_le x l :
  Forall (fun y => (cmp x y <= 0)%Z) l -> sort_insert cmp x l = x :: l.
Proof.
  destruct 1 as [|y l Hy _]; simpl; [done|].
  by rewrite (proj2 (Z.leb_le _ _) Hy).
Qed.

(** Sorting a sorted list changes nothing. *)
Lemma js_sort_id l : StronglySorted (cmp_le cmp) l -> js_sort cmp l = l.
Proof.
  induction 1 as [|x l Hl IH Hx]; simpl; [done|].
  rewrite IH. by apply sort_insert_le.
Qed.

(** Only comparisons between elements at different places matter. *)
Lemma js_sort_ext (cmp' : A -> A -> Z) l :
  (forall pre x post y, l = pre ++ x :: post -> y ∈ post -> (cmp x y <=? 0)%Z = (cmp' x y <=? 0)%Z) ->
  js_sort cmp l = js_sort cmp' l.
Proof.
  induction l as [|x l IH]; intros H; simpl; [done|].
  rewrite <- IH by (intros pre z post y -> Hy; by apply (H (x :: pre) z post y)).
  assert (forall y, y ∈ js_sort cmp l -> (cmp x y <=? 0)%Z = (cmp' x y <=? 0)%Z) as Hx.
  { intros y Hy. rewrite js_sort_Permutation in Hy. by apply (H [] x l y). }
  clear H IH. induction (js_sort cmp l) as [|y k IH]; simpl; [done|].
  rewrite Hx by left. destruct (_ <=? _)%Z; [done|]. rewrite IH; [done|].
  intros z Hz. apply Hx. by right.
Qed.

Lemma elem_of_js_sort x l : x ∈ js_sort cmp l <-> x ∈ l.
Proof. by rewrite js_sort_Permutation. Qed.

Lemma length_js_sort l : length (js_sort cmp l) = length l.
Proof. by rewrite js_sort_Permutation. Qed.
End js_sort_lemmas.

Lemma cmp_flip_total {A} (cmp : A -> A -> Z) : cmp_flip cmp -> cmp_total cmp.
Proof. intros Hf x y Hxy. specialize (Hf x y). lia. Qed.

Lemma then_cmp_flip {A} (c1 c2 : A -> A -> Z) : cmp_flip c1 -> cmp_flip c2 -> cmp_flip (then_cmp c1 c2).
Proof.
  intros H1 H2 x y. specialize (H1 x y). specialize (H2 x y). unfold then_cmp.
  destruct (Z.eqb_spec (c1 x y) 0), (Z.eqb_spec (c1 y x) 0); lia.
Qed.

Lemma then_cmp_trans {A} (c1 c2 : A -> A -> Z) :
  cmp_flip c1 -> cmp_trans c1 -> cmp_trans c2 -> cmp_trans (then_cmp c1 c2).
Proof.
  intros Hf H1 H2 x y z. unfold then_cmp. pose proof (Hf x y). pose proof (Hf y z). pose proof (Hf x z).
  pose proof (H1 x y z). pose proof (H1 y z x). pose proof (H1 z x y). pose proof (H2 x y z).
  pose proof (H1 z y x). destruct (Z.eqb_spec (c1 x y) 0), (Z.eqb_spec (c1 y z) 0), (Z.eqb_spec (c1 x z) 0); lia.
Qed.

Lemma StronglySorted_filter {A} (R : A -> A -> Prop) (P : A -> Prop) `{!forall x, Decision (P x)} l :
  StronglySorted R l -> StronglySorted R (filter P l).
Proof.
  induction 1 as [|x l Hl IH Hx]; [constructor|]. rewrite filter_cons. case_decide; [|done].
  constructor; [done|]. rewrite Forall_forall in *. intros y [_ Hy]%list_elem_of_filter. auto.
Qed.

Lemma StronglySorted_list_filter {A} (R : A -> A -> Prop) (p : A -> bool) l :
  StronglySorted R l -> StronglySorted R (List.filter p l).
Proof.
  induction 1 as [|x l Hl IH Hx]; cbn; [constructor|]. destruct (p x); [|done]. constructor; [done|].
  rewrite Forall_forall in *. intros y. rewrite list_elem_of_In, filter_In, <- list_elem_of_In. intros [Hy _]. auto.
Qed.

(** Sorting is stable: it commutes with any filter. *)
Lemma filter_js_sort {A} (cmp : A -> A -> Z) (P : A -> Prop) `{!forall x, Decision (P x)} l :
  cmp_total cmp -> cmp_trans cmp -> filter P (js_sort cmp l) = js_sort cmp (filter P l).
Proof.
  intros Ht Htr. induction l as [|x l IH]; [done|]. rewrite filter_cons. simpl.
  assert (filter P (sort_insert cmp x (js_sort cmp l)) =
    if decide (P x) then sort_insert cmp x (filter P (js_sort cmp l)) else filter P (js_sort cmp l)) as ->.
  { pose proof (js_sort_StronglySorted cmp l Ht Htr) as Hs. clear IH.
    induction Hs as [|y k Hk IHk Hy]; simpl; [rewrite filter_cons; by case_decide|].
    destruct (Z.leb_spec (cmp x y) 0) as [Hxy|Hxy].
    - rewrite (filter_cons P x). case_decide; [|done]. rewrite sort_insert_le; [done|].
      rewrite Forall_forall in *. intros z [_ Hz]%list_elem_of_filter.
      apply elem_of_cons in Hz as [->|Hz]; [done|]. eapply Htr; [exact Hxy|]. by apply Hy.
    - rewrite !(filter_cons P y), IHk. destruct (decide (P y)), (decide (P x)); try done.
      simpl. by rewrite (proj2 (Z.leb_gt _ _) Hxy). }
  rewrite IH. by case_decide.
Qed.

(** Pairs of a list at different places, for a symmetric relation. *)
Lemma ForallOrdPairs_Permutation {A} (R : A -> A -> Prop) l l' :
  (forall x y, R x y -> R y x) -> l ≡ₚ l' -> ForallOrdPairs R l -> ForallOrdPairs R l'.
Proof.
  intros Hs. induction 1 as [|x l l' Hp IH|x y l|l l' l'' _ IH1 _ IH2]; [done| | |auto].
  - inversion 1; subst. constructor; [by rewrite <- Hp|auto].
  - inversion 1 as [|? ? Hy Hl]; subst. inversion Hl; subst. apply Forall_cons in Hy as [? ?].
    repeat constructor; auto.
Qed.

Lemma ForallOrdPairs_filter {A} (R : A -> A -> Prop) (P : A -> Prop) `{!forall x, Decision (P x)} l :
  ForallOrdPairs R l -> ForallOrdPairs R (filter P l).
Proof.
  induction 1 as [|x l Hx Hl IH]; [constructor|]. rewrite filter_cons. case_decide; [|done].
  constructor; [|done]. rewrite Forall_forall in *. intros y [_ Hy]%list_elem_of_filter. auto.
Qed.

Lemma str_cmp_le a b : (str_cmp a b <= 0)%Z <-> String.le a b.
Proof.
  unfold str_cmp, String.le, String.leb.
  destruct (String.compare a b); simpl; split; try lia; done.
Qed.
Lemma str_cmp_total : cmp_total str_cmp.
Proof.
  intros x y Hxy. apply str_cmp_le. destruct (total String.le x y) as [H|H]; [|done].
  apply str_cmp_le in H. lia.
Qed.
Lemma str_cmp_trans : cmp_trans str_cmp.
Proof. intros x y z. rewrite !str_cmp_le. apply transitivity. Qed.
Lemma str_cmp_antisym x y : (str_cmp x y <= 0)%Z -> (str_cmp y x <= 0)%Z -> x = y.
Proof. rewrite !str_cmp_le. apply (anti_symm String.le). Qed.

Lemma str_cmp_eq x y : str_cmp x y = 0%Z <-> x = y.
Proof.
  split; [intros H; apply str_cmp_antisym|intros ->].
  - lia.
  - apply str_cmp_le. unfold str_cmp in H. unfold String.le, String.leb.
    rewrite String.compare_antisym. by destruct (String.compare x y).
  - unfold str_cmp. pose proof (String.compare_antisym y y) as H.
    by destruct (String.compare y y).
Qed.

Lemma str_cmp_flip x y : Z.sgn (str_cmp y x) = (- Z.sgn (str_cmp x y))%Z.
Proof. unfold str_cmp. rewrite String.compare_antisym. by destruct (String.compare x y). Qed.

Lemma sort_strings_unique l l' : l ≡ₚ l' -> sort_strings l = sort_strings l'.
Proof.
  intros. apply js_sort_unique; auto using str_cmp_total, str_cmp_trans, str_cmp_antisym.
Qed.
Lemma sort_strings_Permutation l : sort_strings l ≡ₚ l.
Proof. apply js_sort_Permutation. Qed.
Lemma sort_strings_sorted l : StronglySorted (cmp_le str_cmp) (sort_strings l).
Proof. apply js_sort_StronglySorted; auto using str_cmp_total, str_cmp_trans. Qed.
Lemma sort_strings_idem l : sort_strings (sort_strings l) = sort_strings l.
Proof. apply js_sort_id, sort_strings_sorted. Qed.
Lemma elem_of_sort_strings x l : x ∈ sort_strings l <-> x ∈ l.
Proof. apply elem_of_js_sort. Qed.

(* ------------------------------------------------------------------ *)
(** ** Lemmas on insertion-ordered maps and on sets *)

Section omap_lemmas.
Context {K V : Type} `{EqDecision K}.
Implicit Types m : list (K * V).

Lemma omap_get_set_eq m k v : omap_get (omap_set m k v) k = Some v.
Proof.
  induction m as [|[k' v'] m IH]; simpl; [by rewrite decide_True|].
  destruct (decide (k = k')); simpl; [by rewrite decide_True | by rewrite decide_False].
Qed.

Lemma omap_get_set_ne m k k' v : k <> k' -> omap_get (omap_set m k v) k' = omap_get m k'.
Proof.
  intros Hk. induction m as [|[k'' v'] m IH]; simpl; [by rewrite decide_False|].
  destruct (decide (k = k'')) as [->|]; simpl; repeat case_decide; congruence.
Qed.

Lemma omap_get_set m k k' v :
  omap_get (omap_set m k v) k' = if decide (k = k') then Some v else omap_get m k'.
Proof. case_decide; subst; auto using omap_get_set_eq, omap_get_set_ne. Qed.

Lemma omap_get_None m k : omap_get m k = None <-> k ∉ m.*1.
Proof.
  induction m as [|[k' v'] m IH]; simpl; [split; [intros _; apply not_elem_of_nil|done]|].
  rewrite not_elem_of_cons, <- IH. case_decide as Hk; subst; simpl.
  - split; [discriminate | intros [? _]; done].
  - tauto.
Qed.

Lemma omap_get_elem m k v : omap_get m k = Some v -> (k, v) ∈ m.
Proof.
  induction m as [|[k' v'] m IH]; simpl; [done|].
  case_decide; [intros [= <-]; subst; left | right; auto].
Qed.

Lemma elem_omap_get m k v : NoDup m.*1 -> (k, v) ∈ m -> omap_get m k = Some v.
Proof.
  induction m as [|[k' v'] m IH]; simpl; [set_solver|].
  rewrite NoDup_cons, elem_of_cons. intros [Hn Hd] [[= <- <-]|Hin].
  - by rewrite decide_True.
  - rewrite decide_False; [auto|]. intros ->. apply Hn, list_elem_of_fmap. by exists (k', v).
Qed.

Lemma omap_set_keys m k v :
  (omap_set m k v).*1 = if decide (k ∈ m.*1) then m.*1 else m.*1 ++ [k].
Proof.
  induction m as [|[k' v'] m IH]; simpl.
  - done.
  - destruct (decide (k = k')) as [->|Hk]; csimpl.
    + rewrite decide_True; [done|]. left.
    + rewrite IH. destruct (decide (k ∈ m.*1)); destruct (decide (k ∈ k' :: m.*1)) as [Hin|Hin];
        try done; exfalso; [apply Hin; by right|]. by apply elem_of_cons in Hin as [?|?].
Qed.

Lemma omap_set_NoDup m k v : NoDup m.*1 -> NoDup (omap_set m k v).*1.
Proof.
  intros H. rewrite omap_set_keys. case_decide; [done|].
  apply NoDup_app. split; [done|]. split; [set_solver | apply NoDup_singleton].
Qed.
End omap_lemmas.

Section dedup_lemmas.
Context {A : Type} `{EqDecision A}.

Lemma dedup_from_spec seen (l : list A) x : x ∈ dedup_from seen l <-> x ∈ l /\ x ∉ seen.
Proof.
  revert seen; induction l as [|y l IH]; intros seen; simpl; [set_solver|].
  case_decide; [rewrite IH; set_solver|].
  rewrite elem_of_cons, IH. destruct (decide (x = y)); set_solver.
Qed.
Lemma elem_of_dedup (l : list A) x : x ∈ dedup l <-> x ∈ l.
Proof. unfold dedup. rewrite dedup_from_spec. set_solver. Qed.

Lemma NoDup_dedup_from seen (l : list A) : NoDup (dedup_from seen l).
Proof.
  revert seen; induction l as [|y l IH]; intros seen; simpl; [constructor|].
  case_decide; [auto|]. constructor; [|auto]. rewrite dedup_from_spec. set_solver.
Qed.
Lemma NoDup_dedup (l : list A) : NoDup (dedup l).
Proof. apply NoDup_dedup_from. Qed.

Lemma dedup_from_length seen (l : list A) : length (dedup_from seen l) <= length l.
Proof.
  revert seen; induction l as [|y l IH]; intros seen; simpl; [done|].
  case_decide; simpl; [specialize (IH seen)|specialize (IH (y :: seen))]; lia.
Qed.

Lemma dedup_from_id seen (l : list A) :
  NoDup l -> (forall x, x ∈ l -> x ∉ seen) -> dedup_from seen l = l.
Proof.
  intros H; revert seen; induction H as [|y l Hy Hl IH]; intros seen Hs; simpl; [done|].
  rewrite decide_False by (apply Hs; left). f_equal. apply IH.
  intros x Hx. specialize (Hs x). set_solver.
Qed.

Lemma dedup_id (l : list A) : NoDup l -> dedup l = l.
Proof. intros. apply dedup_from_id; set_solver. Qed.

Lemma dedup_from_length_NoDup seen (l : list A) :
  length (dedup_from seen l) = length l -> NoDup l /\ (forall x, x ∈ l -> x ∉ seen).
Proof.
  revert seen; induction l as [|y l IH]; intros seen; simpl.
  - split; [constructor | set_solver].
  - case_decide; simpl; intros Hl.
    + pose proof (dedup_from_length seen l). lia.
    + injection Hl as [Hd Hs]%IH. split; [|set_solver].
      constructor; [|done]. intros Hy. apply (Hs y Hy). left.
Qed.

Lemma has_duplicates_NoDup (l : list A) : has_duplicates l = false <-> NoDup l.
Proof.
  unfold has_duplicates. rewrite negb_false_iff, Nat.eqb_eq. split.
  - intros H. by apply (dedup_from_length_NoDup [] l).
  - intros. by rewrite dedup_id.
Qed.

Lemma mem_spec (x : A) l : mem x l = true <-> x ∈ l.
Proof. apply bool_decide_eq_true. Qed.
Lemma mem_false (x : A) l : mem x l = false <-> x ∉ l.
Proof. apply bool_decide_eq_false. Qed.
End dedup_lemmas.

Lemma mem_ext {A} `{EqDecision A} (x : A) l l' : (x ∈ l <-> x ∈ l') -> mem x l = mem x l'.
Proof. apply bool_decide_ext. Qed.

Lemma existsb_Exists {A} (p : A -> bool) l : existsb p l = true <-> exists x, x ∈ l /\ p x = true.
Proof. rewrite existsb_exists. by setoid_rewrite list_elem_of_In. Qed.

Lemma existsb_Permutation {A} (p : A -> bool) l l' : l ≡ₚ l' -> existsb p l = existsb p l'.
Proof. intros Hl. apply eq_true_iff_eq. rewrite !existsb_Exists. by setoid_rewrite Hl. Qed.

Lemma existsb_ext {A} (p q : A -> bool) l : (forall x, x ∈ l -> p x = q x) -> existsb p l = existsb q l.
Proof.
  induction l as [|x l IH]; intros Hpq; simpl; [done|]. rewrite Hpq by left. f_equal.
  apply IH. intros. apply Hpq. by right.
Qed.

Lemma forallb_Forall {A} (p : A -> bool) l : forallb p l = true <-> forall x, x ∈ l -> p x = true.
Proof. rewrite forallb_forall. by setoid_rewrite list_elem_of_In. Qed.

(** Keys identify the elements of a list without duplicate keys. *)
Lemma NoDup_keys_inj {A K} (key : A -> K) (l : list A) :
  NoDup (key <$> l) -> forall x y, x ∈ l -> y ∈ l -> key x = key y -> x = y.
Proof.
  induction l as [|n l IH]; [set_solver|]. csimpl. rewrite NoDup_cons. intros [Hn Hd] x y.
  rewrite !elem_of_cons. intros [->|Hx] [->|Hy] E; auto;
    exfalso; apply Hn; [rewrite E|rewrite <- E]; by apply list_elem_of_fmap_2.
Qed.

Lemma list_filter_nil {A} (P : A -> Prop) `{!forall x, Decision (P x)} (l : list A) :
  (forall x, x ∈ l -> ~ P x) -> filter P l = [].
Proof.
  induction l as [|x l IH]; intros Hl; [done|]. rewrite filter_cons, decide_False by (apply Hl; left).
  apply IH. intros. apply Hl. by right.
Qed.

Lemma list_insert_alter {A} (f : A -> A) (l : list A) i x :
  l !! i = Some x -> alter f i l = <[i := f x]> l.
Proof.
  revert i; induction l as [|y l IH]; intros [|i] Hl; simplify_eq/=; [done|].
  change (alter f (S i) (y :: l)) with (y :: alter f i l). by rewrite (IH i).
Qed.

Lemma list_filter_all {A} (P : A -> Prop) `{!forall x, Decision (P x)} (l : list A) :
  (forall x, x ∈ l -> P x) -> filter P l = l.
Proof.
  induction l as [|x l IH]; intros Hl; [done|]. rewrite filter_cons, decide_True by (apply Hl; left).
  f_equal. apply IH. intros. apply Hl. by right.
Qed.

Lemma StronglySorted_app_2 {A} (R : A -> A -> Prop) l k :
  StronglySorted R l -> StronglySorted R k -> (forall x y, x ∈ l -> y ∈ k -> R x y) ->
  StronglySorted R (l ++ k).
Proof.
  induction 1 as [|x l Hl IH Hx]; intros Hk Hc; simpl; [done|].
  constructor; [apply IH; [done|]; intros; apply Hc; [by right|done]|].
  apply Forall_app. split; [done|]. apply Forall_forall. intros y Hy. apply Hc; [left|done].
Qed.

(** Grouping keeps the keys in order of first occurrence, and each group is
    the sublist of its key. *)
Section group_by.
Context {A K : Type} `{EqDecision K}.
Variable key : A -> K.

Lemma dedup_from_snoc {B} `{EqDecision B} (seen l : list B) x :
  dedup_from seen (l ++ [x]) =
    dedup_from seen l ++ (if decide (x ∈ seen \/ x ∈ l) then [] else [x]).
Proof.
  revert seen; induction l as [|y l IH]; intros seen; simpl.
  - apply decide_ext. rewrite elem_of_nil. tauto.
  - destruct (decide (y ∈ seen)) as [Hy|Hy]; rewrite IH; [|simpl; f_equal]; f_equal; apply decide_ext;
      rewrite ?elem_of_cons; destruct (decide (x = y)); naive_solver.
Qed.
Lemma dedup_snoc {B} `{EqDecision B} (l : list B) x :
  dedup (l ++ [x]) = dedup l ++ (if decide (x ∈ l) then [] else [x]).
Proof.
  unfold dedup. rewrite dedup_from_snoc. f_equal. apply decide_ext. rewrite elem_of_nil. tauto.
Qed.

Lemma group_by_snoc l x :
  group_by key (l ++ [x]) =
    omap_set (group_by key l) (key x) (default [] (omap_get (group_by key l) (key x)) ++ [x]).
Proof. unfold group_by. by rewrite foldl_app. Qed.

Lemma group_by_keys l : (group_by key l).*1 = dedup (map key l).
Proof.
  induction l as [|x l IH] using rev_ind; [done|].
  rewrite group_by_snoc, map_app, omap_set_keys, IH. simpl. rewrite dedup_snoc.
  destruct (decide (key x ∈ map key l)).
  - rewrite decide_True by (by apply elem_of_dedup). by rewrite app_nil_r.
  - by rewrite decide_False by (by rewrite elem_of_dedup).
Qed.

Lemma group_by_get l k :
  omap_get (group_by key l) k =
    if decide (k ∈ map key l) then Some (filter (fun x => key x = k) l) else None.
Proof.
  induction l as [|x l IH] using rev_ind; [done|].
  rewrite group_by_snoc, omap_get_set, map_app, filter_app, filter_cons. simpl.
  destruct (decide (key x = k)) as [->|Hk].
  - rewrite decide_True by (apply elem_of_app; right; left). f_equal. f_equal. rewrite IH.
    case_decide as Hin; [done|]. simpl. symmetry. apply list_filter_nil. intros y Hy E.
    apply Hin. rewrite <- E. by apply (list_elem_of_fmap_2 key).
  - rewrite IH, app_nil_r. apply decide_ext. rewrite elem_of_app, list_elem_of_singleton. naive_solver.
Qed.

Lemma group_by_spec l :
  group_by key l = map (fun k => (k, filter (fun x => key x = k) l)) (dedup (map key l)).
Proof.
  rewrite <- group_by_keys.
  assert (NoDup (group_by key l).*1) as Hnd by (rewrite group_by_keys; apply NoDup_dedup).
  assert (forall e, e ∈ group_by key l -> e.2 = filter (fun x => key x = e.1) l) as He.
  { intros [k g] Hin. apply (elem_omap_get _ _ _ Hnd) in Hin. rewrite group_by_get in Hin.
    case_decide; [|done]. by injection Hin. }
  clear Hnd. induction (group_by key l) as [|[k g] m IH]; [done|]. csimpl.
  rewrite <- IH by (intros; apply He; by right). f_equal. f_equal. by apply (He (k, g)), list_elem_of_here.
Qed.

Lemma omap_set_concat (m : list (K * list A)) k x :
  concat (omap_set m k (default [] (omap_get m k) ++ [x])).*2 ≡ₚ x :: concat m.*2.
Proof.
  induction m as [|[k' g] m IH]; simpl; [done|]. case_decide as Hk; simpl.
  - rewrite <- app_assoc. simpl. by rewrite <- Permutation_middle.
  - rewrite IH. by rewrite Permutation_middle.
Qed.

Lemma group_by_concat l : concat (group_by key l).*2 ≡ₚ l.
Proof.
  induction l as [|x l IH] using rev_ind; [done|].
  rewrite group_by_snoc, omap_set_concat, IH. by rewrite Permutation_app_comm.
Qed.
End group_by.

Lemma find_first_Some {A} (p : A -> bool) l x :
  find_first p l = Some x -> x ∈ l /\ p x = true.
Proof.
  induction l as [|y l IH]; simpl; [done|].
  destruct (p y) eqn:E; [intros [= <-]; split; [left|done]|].
  intros [? ?]%IH. split; [by right|done].
Qed.

Lemma find_first_snoc {A} (p : A -> bool) l x :
  find_first p (l ++ [x]) = match find_first p l with Some y => Some y | None => if p x then Some x else None end.
Proof. induction l as [|y l IH]; simpl; [done|]. by destruct (p y). Qed.

Lemma find_first_None {A} (p : A -> bool) l :
  find_first p l = None <-> Forall (fun x => p x = false) l.
Proof.
  induction l as [|y l IH]; simpl; [split; auto|].
  rewrite Forall_cons, <- IH. destruct (p y); split; (tauto || naive_solver).
Qed.

(* ------------------------------------------------------------------ *)
(** ** Lemmas on strings *)

Lemma split_on_nonnil c s : split_on c s <> [].
Proof.
  destruct s as [|a s]; simpl; [done|]. case_decide; [done|]. by destruct (split_on c s).
Qed.

Lemma join_cons sep x l : l <> [] -> join sep (x :: l) = x +:+ sep +:+ join sep l.
Proof. by destruct l. Qed.

Lemma string_app_assoc (a b c : string) : a +:+ (b +:+ c) = (a +:+ b) +:+ c.
Proof. induction a as [|x a IH]; simpl; [done|]. by rewrite IH. Qed.
Lemma string_app_nil_r (a : string) : a +:+ "" = a.
Proof. induction a as [|x a IH]; simpl; [done|]. by rewrite IH. Qed.

Lemma join_split_on c s : join (String c "") (split_on c s) = s.
Proof.
  induction s as [|a s IH]; simpl; [done|]. case_decide as Ha.
  - subst. rewrite join_cons by apply split_on_nonnil. by rewrite IH.
  - destruct (split_on c s) as [|x l] eqn:E; [by apply split_on_nonnil in E|].
    rewrite <- IH. by destruct l.
Qed.

(** No character of [s] is [c]. *)
Definition no_char (c : ascii) (s : string) : bool :=
  str_forallb (fun a => negb (bool_decide (a = c))) s.

Lemma split_on_no_char c s : no_char c s = true -> split_on c s = [s].
Proof.
  induction s as [|a s IH]; simpl; [done|].
  unfold no_char; simpl. intros H. bool_hyps. rewrite decide_False by done.
  by rewrite IH.
Qed.

Lemma split_on_app c x s :
  no_char c x = true -> split_on c (x +:+ String c s) = x :: split_on c s.
Proof.
  induction x as [|a x IH]; intros H.
  - simpl. by rewrite decide_True.
  - unfold no_char in H; simpl in H. bool_hyps. simpl. rewrite decide_False by done.
    change (String.append x (String c s)) with (x +:+ String c s). by rewrite IH.
Qed.

Lemma split_on_join c l :
  l <> [] -> Forall (fun x => no_char c x = true) l -> split_on c (join (String c "") l) = l.
Proof.
  intros Hl H. induction H as [|x l Hx H IH]; [done|].
  destruct l as [|y l]; [by apply split_on_no_char|].
  rewrite join_cons by done.
  change (x +:+ String c "" +:+ ?z) with (x +:+ String c z).
  change (String c "" +:+ join (String c "") (y :: l)) with (String c (join (String c "") (y :: l))).
  rewrite split_on_app by done. by rewrite IH.
Qed.

Lemma split_on_all_no_char c s : Forall (fun x => no_char c x = true) (split_on c s).
Proof.
  induction s as [|a s IH]; simpl; [by repeat constructor|]. case_decide as Ha.
  - by constructor.
  - destruct (split_on c s) as [|x l]; simpl.
    + constructor; [|done]. unfold no_char; simpl. by rewrite bool_decide_false.
    + inversion IH; subst. constructor; [|done].
      unfold no_char; simpl. by rewrite bool_decide_false.
Qed.

Lemma str_forallb_app p a b : str_forallb p (a +:+ b) = str_forallb p a && str_forallb p b.
Proof. induction a as [|x a IH]; simpl; [done|]. rewrite <- andb_assoc. by f_equal. Qed.

Lemma str_forallb_impl (p q : ascii -> bool) s :
  (forall a, p a = true -> q a = true) -> str_forallb p s = true -> str_forallb q s = true.
Proof.
  intros Hpq. induction s as [|a s IH]; simpl; [done|]. intros H. bool_hyps.
  apply andb_true_iff; auto.
Qed.

Lemma starts_with_app p s : starts_with (p +:+ s) p = true.
Proof.
  unfold starts_with. induction p as [|a p IH]; simpl; [by destruct s|].
  destruct (ascii_dec a a); done.
Qed.

Lemma starts_with_spec s p : starts_with s p = true <-> exists t, s = p +:+ t.
Proof.
  split; [|intros [t ->]; apply starts_with_app].
  unfold starts_with. revert s. induction p as [|a p IH]; intros s H; [by exists s|].
  destruct s as [|b s]; simpl in H; [done|].
  destruct (ascii_dec a b) as [->|]; [|done]. destruct (IH _ H) as [t ->]. by exists t.
Qed.

Lemma no_char_cons c a s : no_char c (String a s) = true <-> a <> c /\ no_char c s = true.
Proof. unfold no_char; simpl. rewrite andb_true_iff, negb_true_iff, bool_decide_eq_false. done. Qed.

Lemma no_char_app c a b : no_char c (a +:+ b) = no_char c a && no_char c b.
Proof. apply str_forallb_app. Qed.

Lemma no_char_join c sep l :
  no_char c sep = true -> Forall (fun x => no_char c x = true) l -> no_char c (join sep l) = true.
Proof.
  intros Hs H. induction H as [|x l Hx H IH]; [done|].
  destruct l; [done|]. rewrite join_cons, !no_char_app, Hx, Hs by done. done.
Qed.

Lemma str_index_app c x s :
  no_char c x = true -> str_index c (x +:+ String c s) = Some (String.length x).
Proof.
  induction x as [|a x IH]; simpl; [by rewrite decide_True|].
  intros [Ha Hx]%no_char_cons. by rewrite decide_False, IH.
Qed.

Lemma str_index_None c x : str_index c x = None <-> no_char c x = true.
Proof.
  induction x as [|a x IH]; simpl; [done|]. rewrite no_char_cons, <- IH.
  case_decide; subst; [split; [done | by intros []]|].
  destruct (str_index c x); simpl; split; (done || tauto || by intros []).
Qed.

Lemma str_index_Some c x i :
  str_index c x = Some i ->
  x = str_take i x +:+ String c (str_drop (S i) x) /\ no_char c (str_take i x) = true /\
  String.length (str_take i x) = i.
Proof.
  revert i; induction x as [|a x IH]; simpl; [done|]. intros i.
  case_decide as Ha; [intros [= <-]; by subst|].
  destruct (str_index c x) as [j|]; simpl; [|done]. intros [= <-].
  destruct (IH j) as (E & Hn & Hl); [done|]. simpl. split; [by f_equal|].
  split; [by apply no_char_cons | by f_equal].
Qed.

Lemma str_take_app x y : str_take (String.length x) (x +:+ y) = x.
Proof. induction x as [|a x IH]; simpl; [by destruct y|]. by f_equal. Qed.
Lemma str_drop_app x y : str_drop (String.length x) (x +:+ y) = y.
Proof. induction x as [|a x IH]; simpl; [by destruct y|]. done. Qed.
Lemma str_drop_app_S x c y : str_drop (S (String.length x)) (x +:+ String c y) = y.
Proof. induction x as [|a x IH]; [by destruct y|]. exact IH. Qed.

(** A test on every code unit, by computation. *)
Lemma all_ascii (P : ascii -> bool) :
  forallb (fun n => P (ascii_of_nat n)) (seq 0 256) = true -> forall a, P a = true.
Proof.
  rewrite forallb_forall. intros H a. rewrite <- (ascii_nat_embedding a). apply H.
  apply in_seq. pose proof (nat_ascii_bounded a). lia.
Qed.

Lemma all_ascii_impl (p q : ascii -> bool) :
  forallb (fun n => implb (p (ascii_of_nat n)) (q (ascii_of_nat n))) (seq 0 256) = true ->
  forall a, p a = true -> q a = true.
Proof.
  intros H a Hp. pose proof (all_ascii (fun a => implb (p a) (q a)) H a) as Ha.
  simpl in Ha. by rewrite Hp in Ha.
Qed.
