(* ===== verification/Regex.v ===== *)
(** * Regular expressions

    The source checks identifiers, resource keys, digests and locators with
    anchored [RegExp] literals. They are translated term by term to the
    expressions below and matched by derivatives; [re_match_spec] shows the
    matcher decides the usual language semantics, so facts about a pattern
    are proved on [re_lang] and its uses stay executable. *)

From S2P Require Import Prelude.

(** Character classes are boolean tests; [^...$] anchors the whole string. *)
Inductive re : Type :=
| RNone
| REps
| RCls (p : ascii -> bool)
| RCat (r1 r2 : re)
| RAlt (r1 r2 : re)
| RStar (r : re).

Definition RPlus (r : re) : re := RCat r (RStar r).
Definition ROpt (r : re) : re := RAlt REps r.
Definition RChr (c : ascii) : re := RCls (fun a => bool_decide (a = c)).

(** A literal string, [RLit "repo"] for [/repo/]. *)
Fixpoint RLit (s : string) : re :=
  match s with EmptyString => REps | String a s' => RCat (RChr a) (RLit s') end.

(** [r{n}] and [r{0,n}]. *)
Fixpoint RRep (r : re) (n : nat) : re :=
  match n with 0 => REps | S n' => RCat r (RRep r n') end.
Fixpoint RUpto (r : re) (n : nat) : re :=
  match n with 0 => REps | S n' => ROpt (RCat r (RUpto r n')) end.

Fixpoint re_nullable (r : re) : bool :=
  match r with
  | RNone => false
  | REps => true
  | RCls _ => false
  | RCat r1 r2 => re_nullable r1 && re_nullable r2
  | RAlt r1 r2 => re_nullable r1 || re_nullable r2
  | RStar _ => true
  end.

(** [RCat] and [RAlt], simplified where one side is trivial, so that the
    derivatives of a pattern stay small. *)
Definition mk_cat (r1 r2 : re) : re :=
  match r1 with RNone => RNone | REps => r2 | _ => RCat r1 r2 end.
Definition mk_alt (r1 r2 : re) : re :=
  match r1, r2 with RNone, _ => r2 | _, RNone => r1 | _, _ => RAlt r1 r2 end.

Fixpoint re_deriv (a : ascii) (r : re) : re :=
  match r with
  | RNone => RNone
  | REps => RNone
  | RCls p => if p a then REps else RNone
  | RCat r1 r2 =>
      let d := mk_cat (re_deriv a r1) r2 in
      if re_nullable r1 then mk_alt d (re_deriv a r2) else d
  | RAlt r1 r2 => mk_alt (re_deriv a r1) (re_deriv a r2)
  | RStar r1 => mk_cat (re_deriv a r1) (RStar r1)
  end.

(** [RegExp.prototype.test] for an anchored pattern. *)
Fixpoint re_match (r : re) (s : string) : bool :=
  match s with
  | EmptyString => re_nullable r
  | String a s' => re_match (re_deriv a r) s'
  end.

Inductive re_lang : re -> string -> Prop :=
| lang_eps : re_lang REps ""
| lang_cls p a : p a = true -> re_lang (RCls p) (String a "")
| lang_cat r1 r2 s1 s2 : re_lang r1 s1 -> re_lang r2 s2 -> re_lang (RCat r1 r2) (s1 +:+ s2)
| lang_alt_l r1 r2 s : re_lang r1 s -> re_lang (RAlt r1 r2) s
| lang_alt_r r1 r2 s : re_lang r2 s -> re_lang (RAlt r1 r2) s
| lang_star_nil r : re_lang (RStar r) ""
| lang_star_cons r s1 s2 :
    re_lang r s1 -> re_lang (RStar r) s2 -> re_lang (RStar r) (s1 +:+ s2).
#[export] Hint Constructors re_lang : harness.

Lemma re_cat_inv r1 r2 w :
  re_lang (RCat r1 r2) w -> exists s1 s2, w = s1 +:+ s2 /\ re_lang r1 s1 /\ re_lang r2 s2.
Proof. inversion 1; subst. eauto. Qed.

Lemma mk_cat_lang r1 r2 s : re_lang (mk_cat r1 r2) s <-> re_lang (RCat r1 r2) s.
Proof.
  destruct r1; simpl; try done.
  - split; [inversion 1|]. intros (s1 & s2 & _ & Hn & _)%re_cat_inv. inversion Hn.
  - split; [intros Hr; change s with ("" +:+ s); constructor; [constructor|done]|].
    intros (s1 & s2 & -> & He & Hr)%re_cat_inv. inversion He; by subst.
Qed.

Lemma mk_alt_lang r1 r2 s : re_lang (mk_alt r1 r2) s <-> re_lang (RAlt r1 r2) s.
Proof.
  unfold mk_alt. destruct r1, r2; try done; split; intros Hm;
    try (by apply lang_alt_l); try (by apply lang_alt_r);
    inversion Hm as [| | |? ? ? Hx|? ? ? Hx| |]; subst; try done; inversion Hx.
Qed.

Lemma re_nullable_spec r : re_nullable r = true <-> re_lang r "".
Proof.
  induction r as [| |p|r1 IH1 r2 IH2|r1 IH1 r2 IH2|r IH]; simpl.
  - split; [done | inversion 1].
  - split; auto with harness.
  - split; [done | inversion 1].
  - rewrite andb_true_iff, IH1, IH2. split.
    + intros [? ?]. change "" with ("" +:+ ""). by constructor.
    + intros (s1 & s2 & E & ? & ?)%re_cat_inv. destruct s1; [|done]. simpl in *; subst. done.
  - rewrite orb_true_iff, IH1, IH2. split.
    + intros [?|?]; auto with harness.
    + inversion 1; auto.
  - split; auto with harness.
Qed.

(** A non-empty word of a star starts with a non-empty word of its body. *)
Lemma re_star_cons r a s :
  re_lang (RStar r) (String a s) ->
  exists s1 s2, s = s1 +:+ s2 /\ re_lang r (String a s1) /\ re_lang (RStar r) s2.
Proof.
  intros H. remember (RStar r) as r' eqn:Er. remember (String a s) as w eqn:Ew.
  revert a s Ew; induction H; intros b t Ew; try discriminate.
  injection Er as ->. destruct s1 as [|c s1]; simpl in Ew; [by apply IHre_lang2|].
  injection Ew as -> <-. by exists s1, s2.
Qed.

Lemma re_deriv_spec a r s : re_lang (re_deriv a r) s <-> re_lang r (String a s).
Proof.
  revert s; induction r as [| |p|r1 IH1 r2 IH2|r1 IH1 r2 IH2|r IH]; intros s; simpl; rewrite ?mk_cat_lang, ?mk_alt_lang.
  - split; inversion 1.
  - split; inversion 1.
  - destruct (p a) eqn:Ep; split; inversion 1; subst; try congruence; auto with harness.
  - assert (re_lang (mk_cat (re_deriv a r1) r2) s <->
      exists s1 s2, s = s1 +:+ s2 /\ re_lang r1 (String a s1) /\ re_lang r2 s2) as Hd.
    { rewrite mk_cat_lang. split.
      - intros (s1 & s2 & -> & H1 & H2)%re_cat_inv. exists s1, s2. by rewrite <- IH1.
      - intros (s1 & s2 & -> & H1 & H2). constructor; [by apply IH1|done]. }
    assert (re_lang (RCat r1 r2) (String a s) <->
      (exists s1 s2, s = s1 +:+ s2 /\ re_lang r1 (String a s1) /\ re_lang r2 s2) \/
      (re_lang r1 "" /\ re_lang r2 (String a s))) as Hc.
    { split.
      - intros (s1 & s2 & E & H1 & H2)%re_cat_inv. destruct s1 as [|b s1]; simpl in *; subst.
        + by right.
        + injection E as -> ->. left. by exists s1, s2.
      - intros [(s1 & s2 & -> & H1 & H2)|[H1 H2]].
        + change (String a (s1 +:+ s2)) with (String a s1 +:+ s2). by constructor.
        + change (String a s) with ("" +:+ String a s). by constructor. }
    rewrite Hc, <- Hd. pose proof (re_nullable_spec r1) as Hn.
    destruct (re_nullable r1).
    + rewrite mk_alt_lang. split.
      * inversion 1; subst; [by left|right]. rewrite <- IH2. by rewrite <- Hn.
      * intros [?|[_ ?]]; [by apply lang_alt_l | apply lang_alt_r; by apply IH2].
    + split; [by left|]. intros [?|[?%Hn ?]]; done.
  - split.
    + inversion 1; subst; [apply lang_alt_l; by apply IH1 | apply lang_alt_r; by apply IH2].
    + inversion 1; subst; [apply lang_alt_l; by apply IH1 | apply lang_alt_r; by apply IH2].
  - split.
    + intros (s1 & s2 & -> & H1 & H2)%re_cat_inv.
      change (String a (s1 +:+ s2)) with (String a s1 +:+ s2). constructor; [by apply IH|done].
    + intros (s1 & s2 & -> & H1 & H2)%re_star_cons. constructor; [by apply IH|done].
Qed.

Theorem re_match_spec r s : re_match r s = true <-> re_lang r s.
Proof.
  revert r; induction s as [|a s IH]; intros r; simpl.
  - apply re_nullable_spec.
  - rewrite IH. apply re_deriv_spec.
Qed.

(** A test every character class of a pattern implies holds of every
    character of the words it matches. *)
Fixpoint re_all (q : ascii -> bool) (r : re) : Prop :=
  match r with
  | RNone | REps => True
  | RCls p => forall a, p a = true -> q a = true
  | RCat r1 r2 | RAlt r1 r2 => re_all q r1 /\ re_all q r2
  | RStar r1 => re_all q r1
  end.

Lemma re_all_forallb (q : ascii -> bool) r s :
  re_all q r -> re_match r s = true -> str_forallb q s = true.
Proof.
  rewrite re_match_spec. intros Hq H. induction H; simpl in *.
  - done.
  - by rewrite Hq.
  - rewrite str_forallb_app, IHre_lang1, IHre_lang2 by tauto. done.
  - tauto.
  - tauto.
  - done.
  - by rewrite str_forallb_app, IHre_lang1, IHre_lang2.
Qed.

(** ** The character classes the patterns use *)

Definition is_lower : ascii -> bool := in_range "a" "z".
Definition is_upper : ascii -> bool := in_range "A" "Z".
Definition is_digit : ascii -> bool := in_range "0" "9".
Definition is_alpha (a : ascii) : bool := is_lower a || is_upper a.
Definition is_alnum (a : ascii) : bool := is_alpha a || is_digit a.
Definition is_one_of (s : string) (a : ascii) : bool :=
  str_existsb (fun b => bool_decide (a = b)) s.
Definition is_hex_lower (a : ascii) : bool := is_digit a || in_range "a" "f" a.

(** [/^[a-f0-9]{64}$/] *)
Definition digest_regex : re := RRep (RCls is_hex_lower) 64.
