(* ===== verification/Locator.v ===== *)
(** * Repository locators ([packages/core/src/identity/locator.ts])

    [normalizeLocatorPath], [parseLocator], [buildLocator] and
    [canonicalizeLocator] as functions into [result locator_error], one
    constructor of [locator_error] per [throw] of the file. [LTypeError] is
    the [TypeError] JavaScript itself raises when the qualifier table is
    indexed with a name every object inherits. *)

From S2P Require Import Prelude Regex.

Inductive locator_error : Type :=
| LEmptyPath
| LAbsolutePath
| LDrivePrefix
| LEmptySegment
| LTraversal
| LIllegalCharacter
| LOutsideBoundary
| LMissingScheme
| LMultipleFragments
| LInvalidRepository
| LFragmentForm
| LUnknownQualifier
| LIllegalQualifierValue
| LTypeError.

#[export] Instance locator_error_eq_dec : EqDecision locator_error.
Proof. solve_decision. Defined.

(** [^[a-z][a-z0-9-]*_[A-Za-z0-9_-]+$] *)
Definition IDENTIFIER_REGEX : re :=
  RCat (RCls is_lower)
    (RCat (RStar (RCls (fun a => is_lower a || is_digit a || is_one_of "-" a)))
      (RCat (RChr "_") (RPlus (RCls (fun a => is_alnum a || is_one_of "_-" a))))).

Inductive LocatorQualifierKind : Type := symbol | api | migration.

Definition identifier_word : re :=
  RCat (RCls (fun a => is_alpha a || is_one_of "_$" a))
       (RStar (RCls (fun a => is_alnum a || is_one_of "_$" a))).

Definition QUALIFIER_VALUE_PATTERNS (k : LocatorQualifierKind) : re :=
  match k with
  | symbol => RCat identifier_word (RStar (RCat (RChr ".") identifier_word))
  | api =>
      RCat (RAlt (RLit "get") (RAlt (RLit "post") (RAlt (RLit "put") (RAlt (RLit "patch")
             (RAlt (RLit "delete") (RAlt (RLit "head") (RLit "options")))))))
        (RCat (RLit ":/") (RPlus (RCls (fun a => is_alnum a || is_one_of "_./{}-" a))))
  | migration => RCat (RCls is_alnum) (RStar (RCls (fun a => is_alnum a || is_one_of "._-" a)))
  end.

(** [RESERVED_PATH_CHARACTER.test(segment)] and the control characters. *)
Definition illegal_path_char (a : ascii) : bool :=
  is_one_of "?#%:" a || (code a <? 32)%N || (code a =? 127)%N.
Definition hasIllegalPathCharacter (segment : string) : bool :=
  str_existsb illegal_path_char segment.

Record LocatorQualifier : Type := { lq_kind : LocatorQualifierKind; lq_value : string }.
Record ParsedLocator : Type := {
  pl_repository_id : string;
  pl_path : option string;
  pl_qualifier : option LocatorQualifier
}.

Definition is_slash (a : ascii) : bool := is_one_of "/\" a.

(** [/^[/\\]/.test(s)] *)
Definition has_root_prefix (s : string) : bool :=
  match s with String a _ => is_slash a | EmptyString => false end.
(** [/^[A-Za-z]:/.test(s)] *)
Definition has_drive_prefix (s : string) : bool :=
  match s with String a (String b _) => is_alpha a && bool_decide (b = ":"%char) | _ => false end.

(** The loop over the segments, [canonical] accumulating. *)
Fixpoint canonical_segments (segments : list string) : result locator_error (list string) :=
  match segments with
  | [] => Ok []
  | segment :: rest =>
      if decide (segment = "") then Err LEmptySegment
      else if decide (segment = "..") then Err LTraversal
      else if hasIllegalPathCharacter segment then Err LIllegalCharacter
      else
        canonical ← canonical_segments rest;
        if decide (segment = ".") then Ok canonical else Ok (segment :: canonical)
  end.

Definition normalizeLocatorPath (input : string) : result locator_error string :=
  let normalized := nfc input in
  if decide (normalized = "") then Err LEmptyPath
  else if has_root_prefix normalized then Err LAbsolutePath
  else if has_drive_prefix normalized then Err LDrivePrefix
  else
    canonical ← canonical_segments (split_on "/" (str_replace_all "\" "/" normalized));
    if decide (canonical = []) then Err LOutsideBoundary else Ok (join "/" canonical).

(** Names every object literal inherits from [Object.prototype]. *)
Definition inherited_names : list string :=
  ["constructor"; "toString"; "toLocaleString"; "valueOf"; "hasOwnProperty"; "isPrototypeOf";
   "propertyIsEnumerable"; "__proto__"; "__defineGetter__"; "__defineSetter__";
   "__lookupGetter__"; "__lookupSetter__"].

Definition parse_kind (s : string) : option LocatorQualifierKind :=
  if decide (s = "symbol") then Some symbol
  else if decide (s = "api") then Some api
  else if decide (s = "migration") then Some migration
  else None.
Definition print_kind (k : LocatorQualifierKind) : string :=
  match k with symbol => "symbol" | api => "api" | migration => "migration" end.

Definition parseQualifier (fragment : string) : result locator_error LocatorQualifier :=
  match str_index "=" fragment with
  | None => Err LFragmentForm
  | Some equalsIndex =>
      let kind := str_take equalsIndex fragment in
      let value := str_drop (S equalsIndex) fragment in
      match parse_kind kind with
      | None => if mem kind inherited_names then Err LTypeError else Err LUnknownQualifier
      | Some k =>
          if re_match (QUALIFIER_VALUE_PATTERNS k) value
          then Ok {| lq_kind := k; lq_value := value |}
          else Err LIllegalQualifierValue
      end
  end.

Definition formatQualifier (q : LocatorQualifier) : result locator_error string :=
  if re_match (QUALIFIER_VALUE_PATTERNS (lq_kind q)) (lq_value q)
  then Ok (print_kind (lq_kind q) +:+ "=" +:+ lq_value q)
  else Err LIllegalQualifierValue.

Definition scheme : string := "repo://".

Definition parseLocator (locator : string) : result locator_error ParsedLocator :=
  let normalized := nfc locator in
  if negb (starts_with normalized scheme) then Err LMissingScheme
  else
    let body := str_drop (String.length scheme) normalized in
    let fragmentIndex := str_index "#" body in
    let authorityAndPath :=
      match fragmentIndex with None => body | Some i => str_take i body end in
    let fragment :=
      match fragmentIndex with None => None | Some i => Some (str_drop (S i) body) end in
    if match fragment with Some f => negb (no_char "#" f) | None => false end
    then Err LMultipleFragments
    else
      let slashIndex := str_index "/" authorityAndPath in
      let repositoryId :=
        match slashIndex with None => authorityAndPath | Some i => str_take i authorityAndPath end in
      let rawPath :=
        match slashIndex with None => None | Some i => Some (str_drop (S i) authorityAndPath) end in
      if negb (re_match IDENTIFIER_REGEX repositoryId) then Err LInvalidRepository
      else
        path ← match rawPath with
               | None => Ok None
               | Some p => Some <$> normalizeLocatorPath p
               end;
        qualifier ← match fragment with
                    | None => Ok None
                    | Some f => Some <$> parseQualifier f
                    end;
        Ok {| pl_repository_id := repositoryId; pl_path := path; pl_qualifier := qualifier |}.

Definition buildLocator (parts : ParsedLocator) : result locator_error string :=
  if negb (re_match IDENTIFIER_REGEX (pl_repository_id parts)) then Err LInvalidRepository
  else
    let base := scheme +:+ pl_repository_id parts in
    withPath ← match pl_path parts with
               | None => Ok base
               | Some p => q ← normalizeLocatorPath p; Ok (base +:+ "/" +:+ q)
               end;
    match pl_qualifier parts with
    | None => Ok withPath
    | Some q => f ← formatQualifier q; Ok (withPath +:+ "#" +:+ f)
    end.

Definition canonicalizeLocator (locator : string) : result locator_error string :=
  parts ← parseLocator locator; buildLocator parts.

(* ------------------------------------------------------------------ *)
(** ** Canonical paths *)

Definition legal_segment (s : string) : Prop :=
  s <> "" /\ s <> "." /\ s <> ".." /\ hasIllegalPathCharacter s = false /\
  no_char "/" s = true /\ no_char "\" s = true.

(** The paths the normal form consists of: one or more legal segments
    joined by [/]; in particular relative, without dot segments. *)
Definition canonical_path (q : string) : Prop :=
  exists segments, segments <> [] /\ Forall legal_segment segments /\ q = join "/" segments.

Lemma str_replace_all_no_char c d s : c <> d -> no_char c (str_replace_all c d s) = true.
Proof.
  intros Hcd. induction s as [|a s IH]; simpl; [done|].
  apply no_char_cons. split; [case_decide; congruence | done].
Qed.

Lemma str_replace_all_id c d s : no_char c s = true -> str_replace_all c d s = s.
Proof.
  induction s as [|a s IH]; simpl; [done|]. intros [Ha Hs]%no_char_cons.
  by rewrite decide_False, IH.
Qed.

Lemma split_on_sub c d s :
  no_char d s = true -> Forall (fun x => no_char d x = true) (split_on c s).
Proof.
  induction s as [|a s IH]; simpl; [by repeat constructor|]. intros [Ha Hs]%no_char_cons.
  specialize (IH Hs). case_decide; [by constructor|].
  destruct (split_on c s) as [|x l].
  - constructor; [|done]. by apply no_char_cons.
  - inversion IH; subst. constructor; [|done]. by apply no_char_cons.
Qed.

Lemma canonical_segments_legal segments canonical :
  canonical_segments segments = Ok canonical ->
  Forall (fun x => no_char "/" x = true) segments ->
  Forall (fun x => no_char "\" x = true) segments ->
  Forall legal_segment canonical.
Proof.
  revert canonical; induction segments as [|s l IH]; intros canonical; simpl.
  - by intros [= <-].
  - intros H [Hs Hl]%Forall_cons [Hb Hlb]%Forall_cons.
    destruct (decide (s = "")); [done|]. destruct (decide (s = "..")); [done|].
    inv_result. destruct (decide (s = ".")); inv_result; [by apply IH|].
    constructor; [|by apply IH]. by repeat split.
Qed.

Lemma canonical_segments_id l : Forall legal_segment l -> canonical_segments l = Ok l.
Proof.
  induction 1 as [|s l (H1 & H2 & H3 & H4 & _) _ IH]; simpl; [done|].
  rewrite !decide_False by done. rewrite H4, IH; simpl. by rewrite decide_False.
Qed.

Lemma normalizeLocatorPath_canonical p q : normalizeLocatorPath p = Ok q -> canonical_path q.
Proof.
  unfold normalizeLocatorPath, nfc. intros H.
  destruct (decide (p = "")); [done|]. inv_result.
  destruct (decide _); [done|]. inv_result. eexists; split; [done|]. split; [|done].
  eapply canonical_segments_legal; [done | apply split_on_all_no_char |].
  apply split_on_sub, str_replace_all_no_char. done.
Qed.

Lemma illegal_no_char c s :
  illegal_path_char c = true -> hasIllegalPathCharacter s = false -> no_char c s = true.
Proof.
  intros Hc. unfold hasIllegalPathCharacter, str_existsb. rewrite negb_false_iff.
  apply str_forallb_impl. intros a Ha. apply negb_true_iff in Ha.
  apply negb_true_iff, bool_decide_eq_false. congruence.
Qed.

Lemma canonical_path_chars q :
  canonical_path q ->
  q <> "" /\ has_root_prefix q = false /\
  no_char "\" q = true /\ no_char ":" q = true /\ no_char "#" q = true.
Proof.
  intros (l & Hl & Hf & ->).
  assert (forall c, no_char c "/" = true -> (forall s, legal_segment s -> no_char c s = true) ->
            no_char c (join "/" l) = true) as Hno.
  { intros c Hc Hs. apply no_char_join; [done|]. by eapply Forall_impl. }
  assert (exists a s, join "/" l = String a s /\ is_slash a = false) as (a & s & E & Ha).
  { destruct l as [|x l]; [done|]. apply Forall_cons in Hf as [(Hx & _ & _ & _ & H1 & H2) _].
    destruct x as [|a x]; [done|]. exists a, (x +:+ match l with [] => "" | _ => "/" +:+ join "/" l end).
    apply no_char_cons in H1 as [H1 _], H2 as [H2 _]. split.
    - destruct l; simpl; [by rewrite string_app_nil_r | done].
    - unfold is_slash, is_one_of, str_existsb; simpl. by rewrite !bool_decide_false. }
  split; [by rewrite E|]. split; [by rewrite E|].
  split; [|split]; apply Hno; try done; intros t (_ & _ & _ & Hi & _ & Hb); [done|..];
    by apply illegal_no_char.
Qed.

Lemma drive_prefix_no_colon s : no_char ":" s = true -> has_drive_prefix s = false.
Proof.
  destruct s as [|a [|b s]]; [done..|]. intros [_ [Hb _]%no_char_cons]%no_char_cons. simpl.
  by rewrite bool_decide_false, andb_false_r.
Qed.

Lemma normalizeLocatorPath_fixed q : canonical_path q -> normalizeLocatorPath q = Ok q.
Proof.
  intros Hq. destruct (canonical_path_chars q Hq) as (Hne & Hr & Hb & Hc & _).
  destruct Hq as (l & Hl & Hf & ->). unfold normalizeLocatorPath, nfc.
  rewrite decide_False, Hr, drive_prefix_no_colon, str_replace_all_id by done.
  rewrite split_on_join; [|done|].
  - rewrite canonical_segments_id by done. simpl. by rewrite decide_False.
  - eapply Forall_impl; [done|]. by intros x (_ & _ & _ & _ & ? & _).
Qed.

(* ------------------------------------------------------------------ *)
(** ** Parsing and printing *)

Ltac all_chars := refine (all_ascii_impl _ _ _); vm_compute; reflexivity.

Lemma identifier_no_char s :
  re_match IDENTIFIER_REGEX s = true -> no_char "/" s = true /\ no_char "#" s = true.
Proof.
  intros H. split; (eapply re_all_forallb; [|exact H]); repeat split; all_chars.
Qed.

Lemma qualifier_no_hash k s :
  re_match (QUALIFIER_VALUE_PATTERNS k) s = true -> no_char "#" s = true.
Proof.
  intros H. eapply re_all_forallb; [|exact H]. destruct k; simpl; repeat split; all_chars.
Qed.

Lemma parse_print_kind k : parse_kind (print_kind k) = Some k.
Proof. by destruct k. Qed.

Lemma parse_format_qualifier q f :
  formatQualifier q = Ok f -> parseQualifier f = Ok q /\ no_char "#" f = true.
Proof.
  unfold formatQualifier. destruct (re_match _ _) eqn:E; [|done]. intros [= <-].
  split.
  - unfold parseQualifier. change ("=" +:+ lq_value q) with (String "=" (lq_value q)).
    rewrite str_index_app by by destruct (lq_kind q).
    rewrite str_take_app, parse_print_kind.
    rewrite str_drop_app_S, E. by destruct q.
  - rewrite no_char_app. apply andb_true_iff. split; [by destruct (lq_kind q)|].
    simpl. apply no_char_cons. split; [done|]. by eapply qualifier_no_hash.
Qed.

Lemma format_parsed_qualifier f q : parseQualifier f = Ok q -> formatQualifier q = Ok f.
Proof.
  unfold parseQualifier, formatQualifier.
  destruct (str_index "=" f) as [i|] eqn:Ei; [|done]. apply str_index_Some in Ei as (Ef & _ & _).
  destruct (parse_kind _) as [k|] eqn:Ek; [|by destruct (mem _ _)].
  destruct (re_match _ _) eqn:Em; [|done]. intros E.
  apply (inj Ok) in E; subst q. cbn [lq_kind lq_value]. rewrite Em.
  assert (print_kind k = str_take i f) as ->.
  { unfold parse_kind in Ek. repeat case_decide; simplify_eq/=; congruence. }
  by f_equal.
Qed.

(** What [parseLocator] returns: a legal identifier, a canonical path and a
    qualifier that prints back. *)
Definition wf_locator (p : ParsedLocator) : Prop :=
  re_match IDENTIFIER_REGEX (pl_repository_id p) = true /\
  (forall q, pl_path p = Some q -> canonical_path q) /\
  (forall q, pl_qualifier p = Some q -> exists f, formatQualifier q = Ok f).

Lemma parseLocator_wf l p : parseLocator l = Ok p -> wf_locator p.
Proof.
  unfold parseLocator, nfc. intros H. inv_result. split; simpl; [by bool_hyps|]. split.
  - intros q ->. destruct (str_index "/" _); simpl in *; [|done].
    destruct (normalizeLocatorPath _) eqn:En; simplify_eq/=.
    by eapply normalizeLocatorPath_canonical.
  - intros q ->. destruct (str_index "#" _); simpl in *; [|done].
    destruct (parseQualifier _) eqn:En; simplify_eq/=.
    eexists. by apply format_parsed_qualifier.
Qed.

(** The printed form, when every part is already canonical. *)
Lemma buildLocator_wf p :
  wf_locator p ->
  exists tail,
    (pl_qualifier p = None /\ tail = None \/
     exists q f, pl_qualifier p = Some q /\ formatQualifier q = Ok f /\ tail = Some f) /\
    buildLocator p = Ok (scheme +:+ pl_repository_id p +:+
      match pl_path p with Some q => "/" +:+ q | None => "" end +:+
      match tail with Some f => "#" +:+ f | None => "" end).
Proof.
  intros (Hid & Hp & Hq). unfold buildLocator. rewrite Hid; simpl.
  destruct (pl_path p) as [q|]; destruct (pl_qualifier p) as [k|]; simpl.
  - destruct (Hq k) as [f Hf]; [done|]. rewrite normalizeLocatorPath_fixed, Hf by eauto. simpl.
    exists (Some f). split; [right; eauto|]. by rewrite <- !string_app_assoc.
  - rewrite normalizeLocatorPath_fixed by eauto. simpl. exists None. split; [by left|].
    by rewrite string_app_nil_r.
  - destruct (Hq k) as [f Hf]; [done|]. rewrite Hf; simpl.
    exists (Some f). split; [right; eauto|]. done.
  - exists None. split; [by left|]. by rewrite string_app_nil_r.
Qed.

Lemma append_nonempty_tail (a : string) : a +:+ "" = a.
Proof. apply string_app_nil_r. Qed.

(** Reading back the printed form of a well-formed locator. *)
Lemma parse_printed p tail :
  wf_locator p ->
  (pl_qualifier p = None /\ tail = None \/
   exists q f, pl_qualifier p = Some q /\ formatQualifier q = Ok f /\ tail = Some f) ->
  parseLocator (scheme +:+ pl_repository_id p +:+
      match pl_path p with Some q => "/" +:+ q | None => "" end +:+
      match tail with Some f => "#" +:+ f | None => "" end) = Ok p.
Proof.
  intros (Hid & Hp & Hq) Ht. unfold parseLocator, nfc.
  rewrite starts_with_app. cbn [negb]. rewrite str_drop_app.
  destruct (identifier_no_char _ Hid) as [Hs Hh].
  set (authority := pl_repository_id p +:+ match pl_path p with Some q => "/" +:+ q | None => "" end).
  rewrite string_app_assoc. fold authority.
  assert (no_char "#" authority = true) as Ha.
  { unfold authority. rewrite no_char_app, Hh. destruct (pl_path p) as [q|]; [|done].
    simpl. apply no_char_cons. split; [done|]. by apply canonical_path_chars, Hp. }
  assert (str_index "/" authority =
            match pl_path p with Some _ => Some (String.length (pl_repository_id p)) | None => None end)
    as Hi.
  { unfold authority. destruct (pl_path p) as [q|].
    - by apply str_index_app.
    - rewrite string_app_nil_r. by apply str_index_None. }
  assert (match str_index "/" authority with None => authority
          | Some i => str_take i authority end = pl_repository_id p) as Hr.
  { rewrite Hi. unfold authority. destruct (pl_path p); [apply str_take_app|apply string_app_nil_r]. }
  assert (match str_index "/" authority with None => Ok None
          | Some i => Some <$> normalizeLocatorPath (str_drop (S i) authority) end = Ok (pl_path p)) as Hpath.
  { rewrite Hi. unfold authority. destruct (pl_path p) as [q|]; [|done].
    change ("/" +:+ q) with (String "/" q). rewrite str_drop_app_S.
    by rewrite normalizeLocatorPath_fixed by auto. }
  destruct Ht as [[Eq ->]|(q & f & Eq & Ef & ->)].
  - rewrite string_app_nil_r, (proj2 (str_index_None _ _) Ha), Hr, Hid. cbn [negb].
    destruct (str_index "/" authority); rewrite Hpath; simpl; rewrite <- Eq; by destruct p.
  - destruct (parse_format_qualifier _ _ Ef) as [Epq Hhf].
    change ("#" +:+ f) with (String "#" f).
    rewrite str_index_app, str_take_app, str_drop_app_S, Hhf, Hr, Hid by done. cbn [negb].
    destruct (str_index "/" authority); rewrite Hpath; simpl; rewrite Epq; simpl;
      rewrite <- Eq; by destruct p.
Qed.

(* ------------------------------------------------------------------ *)
(** ** Properties *)

(** A path [normalizeLocatorPath] accepts becomes a relative path of legal
    segments (no dot segments, no backslash, no reserved or control
    character), and normalization leaves exactly those paths unchanged. *)
Theorem normalize_path_canonical p :
  (forall q, normalizeLocatorPath p = Ok q -> canonical_path q) /\
  (normalizeLocatorPath p = Ok p <-> canonical_path p).
Proof.
  split; [apply normalizeLocatorPath_canonical|].
  split; [apply normalizeLocatorPath_canonical | apply normalizeLocatorPath_fixed].
Qed.

(** C36. Every parsed locator prints, and its printed form parses to the same
    parts: [canonicalizeLocator] is idempotent. *)
Theorem parse_build_roundtrip l p :
  parseLocator l = Ok p ->
  exists l', buildLocator p = Ok l' /\ parseLocator l' = Ok p /\ canonicalizeLocator l' = Ok l'.
Proof.
  intros Hp. apply parseLocator_wf in Hp. destruct (buildLocator_wf p Hp) as (tail & Ht & Hb).
  exists (scheme +:+ pl_repository_id p +:+
      match pl_path p with Some q => "/" +:+ q | None => "" end +:+
      match tail with Some f => "#" +:+ f | None => "" end).
  pose proof (parse_printed p tail Hp Ht) as Hpp. unfold canonicalizeLocator.
  rewrite Hpp; simpl. auto.
Qed.

Lemma parse_build_roundtrip_witness :
  parseLocator "repo://repo_main/src\a/./b.ts#symbol=Foo.bar" =
    Ok {| pl_repository_id := "repo_main"; pl_path := Some "src/a/b.ts";
          pl_qualifier := Some {| lq_kind := symbol; lq_value := "Foo.bar" |} |} /\
  exists l', buildLocator {| pl_repository_id := "repo_main"; pl_path := Some "src/a/b.ts";
          pl_qualifier := Some {| lq_kind := symbol; lq_value := "Foo.bar" |} |} = Ok l'.
Proof.
  split; [vm_compute; reflexivity|].
  destruct (parse_build_roundtrip "repo://repo_main/src\a/./b.ts#symbol=Foo.bar"
    {| pl_repository_id := "repo_main"; pl_path := Some "src/a/b.ts";
       pl_qualifier := Some {| lq_kind := symbol; lq_value := "Foo.bar" |} |}) as (l' & H & _).
  - vm_compute. reflexivity.
  - exists l'. exact H.
Defined.
