(* ===== verification/Kahn.v ===== *)
(** * Kahn's algorithm

    Four places of the source run the same worklist over a dependency graph:
    [stableTopologicalOrder] (planning/waves.ts), [assertAcyclic]
    (planning/validator.ts), [topologicalOrder] (workflow/dag-engine.ts) and
    [validateOperationDag] (capability/dag.ts). They differ in what the
    worklist holds and in where a node that becomes ready is inserted. This
    file has the loop with those as parameters and its correctness once;
    each of the four instantiates it. *)

From S2P Require Import Prelude.

Section kahn.
Context {A K : Type} `{EqDecision A} `{Countable K}.
Variable key : A -> K.
(** The nodes to revisit when a node is emitted, one entry per edge. *)
Variable dependents : K -> list A.
(** Where the worklist takes a node that became ready. *)
Variable ins : list A -> A -> list A.

Implicit Types deg : gmap K Z.

Definition deg_of (deg : gmap K Z) (k : K) : Z := default 0%Z (deg !! k).

(** [const remaining = indegree.get(d) - 1; indegree.set(d, remaining);
    if (remaining === 0) insert(d)] *)
Definition relax (st : gmap K Z * list A) (d : A) : gmap K Z * list A :=
  let remaining := (deg_of st.1 (key d) - 1)%Z in
  (<[key d := remaining]> st.1, if (remaining =? 0)%Z then ins st.2 d else st.2).

(** [while (ready.length > 0) { const current = ready.shift(); .. }]; the
    result is the emission order, [None] when the fuel runs out. *)
Fixpoint kahn (fuel : nat) (deg : gmap K Z) (ready : list A) : option (list A) :=
  match ready with
  | [] => Some []
  | current :: ready' =>
      match fuel with
      | 0 => None
      | S fuel' =>
          let st := foldl relax (deg, ready') (dependents (key current)) in
          (current ::.) <$> kahn fuel' st.1 st.2
      end
  end.

Definition occurrences (k : K) (l : list K) : nat := length (filter (fun d => d = k) l).
Definition key_count (k : K) (l : list A) : nat := length (filter (fun n => key n = k) l).

(* ---- one relaxation pass ---- *)

Lemma key_count_cons k n l :
  key_count k (n :: l) = ((if decide (key n = k) then 1 else 0) + key_count k l)%nat.
Proof. unfold key_count. rewrite filter_cons. by case_decide. Qed.

Lemma key_count_elem n l : n ∈ l -> (0 < key_count (key n) l)%nat.
Proof.
  induction 1; rewrite key_count_cons; [rewrite decide_True by done|]; lia.
Qed.

Lemma deg_of_insert deg k k' z :
  deg_of (<[k := z]> deg) k' = if decide (k = k') then z else deg_of deg k'.
Proof. unfold deg_of. rewrite lookup_insert. by case_decide. Qed.

Hypothesis ins_perm : forall l x, ins l x ≡ₚ x :: l.

Lemma relax_all_deg D deg ready k :
  deg_of (foldl relax (deg, ready) D).1 k = (deg_of deg k - Z.of_nat (key_count k D))%Z.
Proof.
  revert deg ready; induction D as [|d D IH]; intros deg ready; simpl; [by rewrite Z.sub_0_r|].
  unfold relax at 2; simpl. rewrite IH, deg_of_insert, key_count_cons.
  repeat case_decide; subst; try lia.
Qed.

(** Given that no count drops below zero, exactly the nodes of the pass
    whose count reaches zero enter the worklist, once each. *)
Lemma relax_all_ready D : forall deg ready,
  (forall x y, x ∈ D -> y ∈ D -> key x = key y -> x = y) ->
  (forall x, x ∈ D -> (Z.of_nat (key_count (key x) D) <= deg_of deg (key x))%Z) ->
  (forall x, x ∈ D -> x ∉ ready) -> NoDup ready ->
  let ready' := (foldl relax (deg, ready) D).2 in
  NoDup ready' /\
  forall x, x ∈ ready' <-> x ∈ ready \/
    (x ∈ D /\ (deg_of deg (key x) = Z.of_nat (key_count (key x) D))%Z).
Proof.
  induction D as [|d D IH]; intros deg ready Hinj Hcnt Hfresh Hnd; simpl.
  { split; [done|]. intros x. set_solver. }
  unfold relax at 2 4; simpl.
  set (deg' := <[key d := (deg_of deg (key d) - 1)%Z]> deg).
  set (ready1 := if (deg_of deg (key d) - 1 =? 0)%Z then ins ready d else ready).
  assert (Hd : (1 + Z.of_nat (key_count (key d) D) <= deg_of deg (key d))%Z).
  { specialize (Hcnt d (list_elem_of_here _ _)). rewrite key_count_cons, decide_True in Hcnt by done. lia. }
  assert (Hc' : forall x, deg_of deg' (key x) = if decide (key d = key x) then (deg_of deg (key x) - 1)%Z
                          else deg_of deg (key x)).
  { intros x. unfold deg'. rewrite deg_of_insert. case_decide as E; [by rewrite E|done]. }
  assert (Hready1 : forall x, x ∈ ready1 <-> x ∈ ready \/ (x = d /\ deg_of deg (key d) = 1%Z)).
  { intros x. unfold ready1. destruct (_ =? 0)%Z eqn:E; bool_hyps.
    - rewrite ins_perm, elem_of_cons. split; [intros [->|?]; [right; split; [done|lia]|by left]|].
      intros [?|[-> _]]; auto.
    - split; [by left|]. intros [?|[_ ?]]; [done|lia]. }
  destruct (IH deg' ready1) as [Hnd' Hin'].
  - intros x y ? ?. apply Hinj; by right.
  - intros x Hx. specialize (Hcnt x (list_elem_of_further _ _ _ Hx)).
    rewrite key_count_cons in Hcnt. rewrite Hc'. case_decide; lia.
  - intros x Hx [Hr|[-> E]]%Hready1; [by apply (Hfresh x); [right|]|].
    pose proof (key_count_elem d D Hx). lia.
  - unfold ready1. destruct (_ =? 0)%Z; [|done]. rewrite ins_perm. constructor; [|done].
    apply Hfresh. left.
  - split; [done|]. intros x. rewrite Hin', Hready1, Hc', key_count_cons, elem_of_cons.
    split.
    + intros [[?|[-> E]]|[Hx E]]; [by left|right|right].
      * split; [by left|]. rewrite decide_True by done. lia.
      * split; [by right|]. case_decide; lia.
    + intros [?|[[->|Hx] E]]; [by left; left|..].
      * rewrite decide_True in E by done. rewrite decide_True by done.
        destruct (decide (d ∈ D)); [right; split; [done|lia]|]. left; right. split; [done|].
        assert (key_count (key d) D = 0%nat) as E0; [|lia].
        unfold key_count. apply length_zero_iff_nil.
        destruct (filter (fun n => key n = key d) D) as [|y l] eqn:Ef; [done|].
        assert (y ∈ filter (fun n => key n = key d) D) as Hy by (rewrite Ef; left).
        apply list_elem_of_filter in Hy as [Hk Hy].
        rewrite (Hinj d y) in n; [done|left|by right|done].
      * right. split; [done|]. case_decide; lia.
Qed.

(* ---- the loop ---- *)

Section correctness.
Variable deps : A -> list K.
Variable nodes : list A.
Hypothesis key_inj : forall x y, x ∈ nodes -> y ∈ nodes -> key x = key y -> x = y.
Hypothesis nodes_NoDup : NoDup nodes.
Hypothesis dependents_nodes : forall k x, x ∈ dependents k -> x ∈ nodes.
Hypothesis dependents_count : forall k n,
  n ∈ nodes -> key_count (key n) (dependents k) = occurrences k (deps n).

(** Edges of [n] whose source has not been emitted. *)
Definition pending (out : list A) (n : A) : nat :=
  length (filter (fun d => d ∉ key <$> out) (deps n)).

(** Every dependency of an emitted node was emitted before it. *)
Definition ordered (out : list A) : Prop :=
  forall pre n post, out = pre ++ n :: post -> deps n ⊆ key <$> pre.

Record kahn_inv (deg : gmap K Z) (ready out : list A) : Prop := {
  inv_nodup : NoDup (out ++ ready);
  inv_nodes : out ++ ready ⊆ nodes;
  inv_deg : forall n, n ∈ nodes -> deg_of deg (key n) = Z.of_nat (pending out n);
  inv_ready : forall n, n ∈ nodes -> n ∈ out ++ ready <-> pending out n = 0%nat;
  inv_ordered : ordered out
}.

Lemma pending_zero out n : pending out n = 0%nat <-> deps n ⊆ key <$> out.
Proof.
  unfold pending. rewrite length_zero_iff_nil. split.
  - intros Hf d Hd. destruct (decide (d ∈ key <$> out)) as [|Hn]; [done|].
    assert (d ∈ filter (fun d => d ∉ key <$> out) (deps n)) as Hin by (by apply list_elem_of_filter).
    rewrite Hf in Hin. by apply not_elem_of_nil in Hin.
  - intros Hs. destruct (filter _ _) as [|d l] eqn:E; [done|].
    assert (d ∈ filter (fun d => d ∉ key <$> out) (deps n)) as [Hd1 Hd2]%list_elem_of_filter
      by (rewrite E; left).
    by apply Hs in Hd2.
Qed.

Lemma pending_snoc out c n :
  key c ∉ key <$> out ->
  (pending (out ++ [c]) n + occurrences (key c) (deps n))%nat = pending out n.
Proof.
  intros Hc. unfold pending, occurrences. induction (deps n) as [|d l IH]; simpl; [done|].
  rewrite !filter_cons, fmap_app. simpl. rewrite fmap_app in IH; simpl in IH.
  repeat case_decide; simpl; subst; set_solver by lia.
Qed.

Lemma ordered_snoc out c : ordered out -> deps c ⊆ key <$> out -> ordered (out ++ [c]).
Proof.
  intros Ho Hc pre n post E.
  destruct post as [|p post] using rev_ind.
  - apply app_inj_tail in E as [-> ->]. done.
  - clear IHpost. rewrite app_comm_cons, app_assoc in E. apply app_inj_tail in E as [E _].
    by apply (Ho pre n post).
Qed.

Lemma kahn_step deg c ready out :
  kahn_inv deg (c :: ready) out ->
  let st := foldl relax (deg, ready) (dependents (key c)) in
  kahn_inv st.1 st.2 (out ++ [c]).
Proof.
  intros [Hnd Hns Hdeg Hrdy Hord]. set (D := dependents (key c)).
  apply NoDup_app in Hnd as (Hout & Hdisj & Hcr). apply NoDup_cons in Hcr as [Hcr Hr].
  assert (c ∈ nodes) as Hcn by set_solver.
  assert (c ∉ out) as Hco by (intros ?; eapply Hdisj; [done|left]).
  assert (key c ∉ key <$> out) as Hkc.
  { intros (x & Ex & Hx)%list_elem_of_fmap. apply Hco. rewrite (key_inj c x); set_solver. }
  assert (pending out c = 0%nat) as Hpc by (apply Hrdy; set_solver).
  assert (forall x, x ∈ D -> x ∉ out ++ c :: ready) as HD.
  { intros x Hx Hin. pose proof (key_count_elem x D Hx) as Hk.
    assert (x ∈ nodes) as Hxn by (by eapply dependents_nodes).
    unfold D in Hk. rewrite dependents_count in Hk by done.
    apply Hrdy in Hin; [|done]. pose proof (pending_snoc out c x Hkc). lia. }
  destruct (relax_all_ready D deg ready) as [Hnd' Hin'].
  - intros x y Hx Hy. apply key_inj; by eapply dependents_nodes.
  - intros x Hx. assert (x ∈ nodes) as Hxn by (by eapply dependents_nodes).
    rewrite Hdeg by done. unfold D. rewrite dependents_count by done.
    pose proof (pending_snoc out c x Hkc). lia.
  - intros x Hx ?. apply (HD x Hx). set_solver.
  - done.
  - set (st := foldl relax (deg, ready) D) in *.
    assert (forall n, n ∈ nodes -> deg_of st.1 (key n) = Z.of_nat (pending (out ++ [c]) n)) as Hdeg'.
    { intros n Hn. unfold st. rewrite relax_all_deg, Hdeg by done. unfold D.
      rewrite dependents_count by done. pose proof (pending_snoc out c n Hkc). lia. }
    assert (forall x, x ∈ st.2 -> x ∈ nodes) as Hsn.
    { intros x [Hx|[Hx _]]%Hin'; [set_solver | by eapply dependents_nodes]. }
    split.
    + rewrite <- app_assoc. apply NoDup_app. split; [done|]. split.
      * intros x Hx [->|Hx']%elem_of_cons; [done|].
        apply Hin' in Hx' as [?|[HxD _]]; [eapply Hdisj; [done|by right]|].
        apply (HD x HxD). set_solver.
      * apply NoDup_cons. split; [|done]. intros [?|[HcD _]]%Hin'; [done|].
        apply (HD c HcD). set_solver.
    + intros x. rewrite !elem_of_app, list_elem_of_singleton. set_solver.
    + done.
    + intros n Hn. rewrite !elem_of_app, list_elem_of_singleton, Hin'.
      rewrite (Hdeg n Hn). pose proof (pending_snoc out c n Hkc) as Hps.
      specialize (Hrdy n Hn). rewrite elem_of_app, elem_of_cons in Hrdy.
      unfold D. rewrite dependents_count by done. split.
      * intros [Hx|[Hx|[_ ?]]]; [..|lia];
          assert (pending out n = 0%nat) by (apply Hrdy; tauto); lia.
      * intros Hz. destruct (decide (occurrences (key c) (deps n) = 0%nat)) as [E|E].
        -- assert (pending out n = 0%nat) as Hp0 by lia. apply Hrdy in Hp0. tauto.
        -- right; right. split; [|lia].
           destruct (decide (n ∈ dependents (key c))); [done|]. exfalso. apply E.
           rewrite <- dependents_count by done. unfold key_count.
           apply length_zero_iff_nil. destruct (filter _ _) as [|y l] eqn:Ef; [done|].
           assert (y ∈ filter (fun m => key m = key n) (dependents (key c))) as Hy
             by (rewrite Ef; left).
           apply list_elem_of_filter in Hy as [Hk Hy].
           exfalso. apply n0. by assert (n = y) as -> by (apply key_inj; eauto).
    + apply ordered_snoc; [done|]. by apply pending_zero.
Qed.

Lemma kahn_inv_bound deg ready out : kahn_inv deg ready out -> length (out ++ ready) <= length nodes.
Proof. intros [Hnd Hns _ _ _]. by apply submseteq_length, NoDup_submseteq. Qed.

(** What a finished run emitted. *)
Record kahn_result (out : list A) : Prop := {
  kr_nodup : NoDup out;
  kr_nodes : out ⊆ nodes;
  kr_ordered : ordered out;
  kr_closed : forall n, n ∈ nodes -> deps n ⊆ key <$> out -> n ∈ out
}.

Lemma kahn_loop fuel : forall deg ready out,
  kahn_inv deg ready out -> length nodes <= fuel + length out ->
  exists rest, kahn fuel deg ready = Some rest /\ kahn_result (out ++ rest).
Proof.
  induction fuel as [|fuel IH]; intros deg ready out Hinv Hfuel.
  all: destruct ready as [|c ready]; simpl.
  1, 3: exists []; split; [done|]; destruct Hinv as [Hnd Hns Hdeg Hrdy Hord];
    rewrite app_nil_r in *; split; auto; intros n Hn Hd; apply Hrdy; [done|];
    by apply pending_zero.
  - apply kahn_inv_bound in Hinv. rewrite length_app in Hinv. simpl in *. lia.
  - apply kahn_step in Hinv. destruct (IH _ _ _ Hinv) as (rest & -> & Hr).
    + rewrite length_app; simpl. lia.
    + exists (c :: rest). split; [done|]. by rewrite <- app_assoc in Hr.
Qed.

(** The state the four callers start from. *)
Definition kahn_start (deg : gmap K Z) (ready : list A) : Prop :=
  (forall n, n ∈ nodes -> deg_of deg (key n) = Z.of_nat (length (deps n))) /\
  ready ≡ₚ filter (fun n => deps n = []) nodes.

Lemma pending_nil n : pending [] n = length (deps n).
Proof.
  unfold pending. induction (deps n) as [|d l IH]; [done|].
  rewrite filter_cons, decide_True by (apply not_elem_of_nil). simpl. by f_equal.
Qed.

Lemma kahn_start_inv deg ready : kahn_start deg ready -> kahn_inv deg ready [].
Proof.
  intros [Hdeg Hp]. split; simpl.
  - rewrite Hp. by apply NoDup_filter.
  - intros x Hx. rewrite Hp in Hx. by apply list_elem_of_filter in Hx as [_ ?].
  - intros n Hn. by rewrite pending_nil, Hdeg.
  - intros n Hn. rewrite Hp, list_elem_of_filter, pending_nil, length_zero_iff_nil. tauto.
  - intros pre n post E. by destruct pre.
Qed.

Theorem kahn_correct deg ready :
  kahn_start deg ready ->
  exists out, kahn (length nodes) deg ready = Some out /\ kahn_result out.
Proof.
  intros Hs. apply (kahn_loop (length nodes) deg _ []); [by apply kahn_start_inv|simpl; lia].
Qed.

(** The graph has no cycle: its nodes can be numbered along the edges. *)
Definition acyclic : Prop :=
  exists rank : K -> nat, forall n d, n ∈ nodes -> d ∈ deps n -> rank d < rank (key n).

Hypothesis deps_known : forall n d, n ∈ nodes -> d ∈ deps n -> d ∈ key <$> nodes.

Lemma acyclic_complete out : kahn_result out -> acyclic -> out ≡ₚ nodes.
Proof.
  intros [Hnd Hns _ Hcl] [rank Hrank].
  assert (forall r n, n ∈ nodes -> rank (key n) < r -> n ∈ out) as Hall.
  { induction r as [|r IH]; intros n Hn Hr; [lia|]. apply Hcl; [done|].
    intros d Hd. destruct (list_elem_of_fmap_1 _ _ _ (deps_known n d Hn Hd)) as (m & -> & Hm).
    apply list_elem_of_fmap_2, IH; [done|]. pose proof (Hrank n (key m) Hn Hd). lia. }
  apply NoDup_Permutation; [done..|]. intros n. split; [by apply Hns|].
  intros Hn. by apply (Hall (S (rank (key n)))); [|lia].
Qed.

Definition index_in (out : list A) (k : K) : nat :=
  default 0%nat (find_index (fun n => bool_decide (key n = k)) out).

Lemma index_in_app pre n post :
  key n ∉ key <$> pre -> index_in (pre ++ n :: post) (key n) = length pre.
Proof.
  unfold index_in. induction pre as [|m pre IH]; simpl; intros Hn.
  - by rewrite bool_decide_true.
  - rewrite bool_decide_false by set_solver.
    destruct (find_index _ _) eqn:E; simpl in *.
    + f_equal. apply IH. set_solver.
    + exfalso. specialize (IH ltac:(set_solver)). clear Hn.
      induction pre as [|p pre IHp]; simpl in E.
      * by rewrite bool_decide_true in E.
      * simpl in IH. lia.
Qed.

Lemma index_in_lt pre k : k ∈ key <$> pre -> forall l, index_in (pre ++ l) k < length pre.
Proof.
  unfold index_in. induction pre as [|m pre IH]; simpl; [set_solver|].
  intros Hk l. case_bool_decide as E; simpl; [lia|].
  assert (k ∈ key <$> pre) as Hk' by set_solver. specialize (IH Hk' l).
  destruct (find_index _ _); simpl in *; lia.
Qed.

Lemma complete_acyclic out : kahn_result out -> out ≡ₚ nodes -> acyclic.
Proof.
  intros [Hnd _ Hord _] Hp. exists (index_in out). intros n d Hn Hd.
  rewrite <- Hp in Hn. apply list_elem_of_split in Hn as (pre & post & Eo).
  assert (key n ∉ key <$> pre) as Hk.
  { intros (m & Em & Hm)%list_elem_of_fmap.
    assert (n = m) as <-.
    { apply key_inj; [..|done]; rewrite <- Hp, Eo; set_solver. }
    rewrite Eo in Hnd. apply NoDup_app in Hnd as (_ & Hdis & _). apply (Hdis n Hm). left. }
  rewrite Eo, index_in_app by done. apply index_in_lt. by apply (Hord pre n post).
Qed.

(** All nodes are emitted exactly when the graph has no cycle. *)
Theorem kahn_complete_iff out :
  kahn_result out -> (length out = length nodes <-> acyclic).
Proof.
  intros Hr. split.
  - intros Hl. apply (complete_acyclic out Hr). destruct Hr as [Hnd Hns _ _].
    apply submseteq_length_Permutation; [by apply NoDup_submseteq|lia].
  - intros Ha. by rewrite (acyclic_complete out).
Qed.

(* ---- the worklist in declaration order ---- *)

(** The reference order: always emit the first node, in declaration order,
    that is not emitted and has all its dependencies emitted. *)
Definition available (out : list A) (n : A) : bool :=
  bool_decide (n ∉ out) && bool_decide (deps n ⊆ key <$> out).

Fixpoint greedy (fuel : nat) (out : list A) : list A :=
  match fuel with
  | 0 => []
  | S fuel' =>
      match find_first (available out) nodes with
      | None => []
      | Some n => n :: greedy fuel' (out ++ [n])
      end
  end.

Variable pos : A -> nat.
Definition pos_le (x y : A) : Prop := pos x <= pos y.
Hypothesis nodes_sorted : StronglySorted (fun x y => pos x < pos y) nodes.
Hypothesis ins_sorted : forall l x, StronglySorted pos_le l -> StronglySorted pos_le (ins l x).

Lemma relax_all_sorted D : forall deg ready,
  StronglySorted pos_le ready -> StronglySorted pos_le (foldl relax (deg, ready) D).2.
Proof.
  induction D as [|d D IH]; intros deg ready Hs; simpl; [done|].
  unfold relax at 2; simpl. apply IH. destruct (_ =? 0)%Z; auto.
Qed.

Lemma find_first_least p c :
  c ∈ nodes -> p c = true -> (forall x, x ∈ nodes -> p x = true -> pos c <= pos x) ->
  find_first p nodes = Some c.
Proof.
  clear -nodes_sorted. induction nodes_sorted as [|n l Hl IH Hn]; [set_solver|].
  simpl. rewrite Forall_forall in Hn. intros Hc Hp Hmin. destruct (p n) eqn:En.
  - apply elem_of_cons in Hc as [->|Hc]; [done|]. specialize (Hn c Hc).
    specialize (Hmin n (list_elem_of_here _ _) En). lia.
  - apply elem_of_cons in Hc as [->|Hc]; [congruence|]. apply IH; [done..|].
    intros x Hx. apply Hmin. by right.
Qed.

Lemma available_ready deg ready out n :
  kahn_inv deg ready out -> n ∈ nodes -> (available out n = true <-> n ∈ ready).
Proof.
  intros [Hnd Hns _ Hrdy _] Hn. unfold available.
  rewrite andb_true_iff, !bool_decide_eq_true, <- pending_zero, <- Hrdy, elem_of_app by done.
  apply NoDup_app in Hnd as (_ & Hd & _). specialize (Hd n). tauto.
Qed.

Lemma kahn_greedy_loop fuel : forall deg ready out rest,
  kahn_inv deg ready out -> StronglySorted pos_le ready ->
  kahn fuel deg ready = Some rest -> rest = greedy fuel out.
Proof.
  induction fuel as [|fuel IH]; intros deg ready out rest Hinv Hs;
    destruct ready as [|c ready]; simpl.
  - by intros [= <-].
  - discriminate.
  - intros [= <-]. destruct (find_first _ _) as [n|] eqn:E; [|done].
    apply find_first_Some in E as [Hn Ha]. apply (available_ready _ _ _ _ Hinv Hn) in Ha.
    by apply not_elem_of_nil in Ha.
  - intros (rest' & Hk & ->)%fmap_Some. pose proof Hinv as [Hnd Hns _ _ _].
    rewrite (find_first_least (available out) c).
    + f_equal. eapply IH; [by apply kahn_step | | done]. apply relax_all_sorted.
      by apply StronglySorted_inv in Hs as [? _].
    + set_solver.
    + apply (available_ready _ _ _ _ Hinv); [set_solver|left].
    + intros x Hx Ha. apply (available_ready _ _ _ _ Hinv Hx) in Ha.
      apply elem_of_cons in Ha as [->|Ha]; [done|].
      apply StronglySorted_inv in Hs as [_ Hc]. rewrite Forall_forall in Hc. by apply Hc.
Qed.

Theorem kahn_greedy deg ready out :
  kahn_start deg ready -> ready = filter (fun n => deps n = []) nodes ->
  kahn (length nodes) deg ready = Some out ->
  out = greedy (length nodes) [].
Proof.
  intros Hs ->. apply kahn_greedy_loop; [by apply kahn_start_inv|]. clear Hs.
  clear -nodes_sorted. induction nodes_sorted as [|n l Hl IH Hn]; [constructor|].
  specialize (IH Hl). rewrite filter_cons. case_decide; [|exact IH]. constructor; [exact IH|].
  rewrite Forall_forall in *. intros x Hx. apply list_elem_of_filter in Hx as [_ Hx].
  unfold pos_le. specialize (Hn x Hx). lia.
Qed.
End correctness.

(* ---- building the in-degrees and the dependents ---- *)

Section build.
Variable deps : A -> list K.

Definition dependents_of (table : gmap K (list A)) (k : K) : list A := default [] (table !! k).

(** [indegree.set(n, indegree.get(n) + 1); dependents.get(d).push(n)] *)
Definition link (n : A) (st : gmap K Z * gmap K (list A)) (d : K) : gmap K Z * gmap K (list A) :=
  (<[key n := (deg_of st.1 (key n) + 1)%Z]> st.1,
   <[d := dependents_of st.2 d ++ [n]]> st.2).

(** [new Map(nodes.map((n) => [key(n), 0]))] and the same with [[]]. *)
Definition no_links (nodes : list A) : gmap K Z * gmap K (list A) :=
  (list_to_map (map (fun n => (key n, 0%Z)) nodes),
   list_to_map (map (fun n => (key n, [])) nodes)).

Definition link_node (st : gmap K Z * gmap K (list A)) (n : A) : gmap K Z * gmap K (list A) :=
  foldl (link n) st (deps n).
Definition link_all (nodes : list A) : gmap K Z * gmap K (list A) :=
  foldl link_node (no_links nodes) nodes.

Lemma no_links_deg nodes k : deg_of (no_links nodes).1 k = 0%Z.
Proof.
  unfold deg_of. destruct (_ !! k) as [z|] eqn:E; [|done]. simpl in *.
  apply elem_of_list_to_map_2, list_elem_of_fmap in E as (n & [= -> ->] & _). done.
Qed.
Lemma no_links_dependents nodes k : dependents_of (no_links nodes).2 k = [].
Proof.
  unfold dependents_of. destruct (_ !! k) as [l|] eqn:E; [|done]. simpl in *.
  apply elem_of_list_to_map_2, list_elem_of_fmap in E as (n & [= -> ->] & _). done.
Qed.

Lemma link_list_deg n ds st k :
  deg_of (foldl (link n) st ds).1 k =
    (deg_of st.1 k + if decide (key n = k) then Z.of_nat (length ds) else 0)%Z.
Proof.
  revert st; induction ds as [|d ds IH]; intros st; simpl; [case_decide; lia|].
  rewrite IH. unfold link at 1; simpl. rewrite deg_of_insert. repeat case_decide; subst; try lia; done.
Qed.

Lemma link_list_dependents n ds st k :
  dependents_of (foldl (link n) st ds).2 k = dependents_of st.2 k ++ repeat n (occurrences k ds).
Proof.
  revert st; induction ds as [|d ds IH]; intros st; simpl; [by rewrite app_nil_r|].
  rewrite IH. unfold occurrences. rewrite filter_cons. unfold dependents_of at 1. simpl.
  rewrite lookup_insert. destruct (decide (d = k)) as [->|]; simpl; [by rewrite <- app_assoc|done].
Qed.

Lemma link_fold_deg l st k :
  (deg_of (foldl link_node st l).1 k =
   deg_of st.1 k + Z.of_nat (sum_list_with (fun n => if decide (key n = k) then length (deps n) else 0%nat) l))%Z.
Proof.
  revert st; induction l as [|n l IH]; intros st; simpl; [lia|].
  rewrite IH. unfold link_node. rewrite link_list_deg. case_decide; lia.
Qed.

Lemma link_fold_dependents l st k :
  dependents_of (foldl link_node st l).2 k =
  dependents_of st.2 k ++ concat (map (fun n => repeat n (occurrences k (deps n))) l).
Proof.
  revert st; induction l as [|n l IH]; intros st; simpl; [by rewrite app_nil_r|].
  rewrite IH. unfold link_node. by rewrite link_list_dependents, <- app_assoc.
Qed.

Lemma link_all_deg nodes n :
  NoDup (key <$> nodes) -> n ∈ nodes -> deg_of (link_all nodes).1 (key n) = Z.of_nat (length (deps n)).
Proof.
  intros Hnd Hn. unfold link_all. rewrite link_fold_deg, no_links_deg. rewrite Z.add_0_l. f_equal.
  clear -Hnd Hn. induction nodes as [|m l IH]; [by apply elem_of_nil in Hn|].
  csimpl in *. apply NoDup_cons in Hnd as [Hm Hnd].
  assert (forall l, key n ∉ key <$> l ->
    sum_list_with (fun n0 => if decide (key n0 = key n) then length (deps n0) else 0%nat) l = 0%nat) as H0.
  { clear. induction l as [|m l IH]; [done|]. csimpl. intros H. rewrite decide_False by set_solver.
    simpl. apply IH. set_solver. }
  apply elem_of_cons in Hn as [->|Hn].
  - rewrite decide_True, H0 by done. lia.
  - rewrite decide_False; [by apply IH|]. intros E. apply Hm. rewrite E. by apply list_elem_of_fmap_2.
Qed.

Lemma key_count_repeat k n i : key_count k (repeat n i) = if decide (key n = k) then i else 0%nat.
Proof.
  induction i as [|i IH]; simpl; [by case_decide|]. rewrite key_count_cons, IH. by case_decide.
Qed.
Lemma key_count_app k l l' : key_count k (l ++ l') = (key_count k l + key_count k l')%nat.
Proof. unfold key_count. by rewrite filter_app, length_app. Qed.

Lemma link_all_count nodes k n :
  NoDup (key <$> nodes) -> n ∈ nodes ->
  key_count (key n) (dependents_of (link_all nodes).2 k) = occurrences k (deps n).
Proof.
  intros Hnd Hn. unfold link_all. rewrite link_fold_dependents, no_links_dependents. simpl.
  induction nodes as [|m l IH]; [by apply elem_of_nil in Hn|]. csimpl in *.
  apply NoDup_cons in Hnd as [Hm Hnd]. rewrite key_count_app, key_count_repeat.
  assert (forall l, key n ∉ key <$> l ->
    key_count (key n) (concat (map (fun n => repeat n (occurrences k (deps n))) l)) = 0%nat) as H0.
  { clear. induction l as [|m l IH]; [done|]. csimpl. intros H. rewrite key_count_app, key_count_repeat.
    rewrite decide_False by set_solver. apply IH. set_solver. }
  apply elem_of_cons in Hn as [->|Hn].
  - rewrite decide_True, H0 by done. lia.
  - rewrite decide_False; [by apply IH|]. intros E. apply Hm. rewrite E. by apply list_elem_of_fmap_2.
Qed.

Lemma link_all_nodes nodes k x : x ∈ dependents_of (link_all nodes).2 k -> x ∈ nodes.
Proof.
  unfold link_all. rewrite link_fold_dependents, no_links_dependents. simpl.
  intros Hx. apply list_elem_of_In, in_concat in Hx as (l & Hl & Hx).
  apply in_map_iff in Hl as (n & <- & Hn). apply repeat_spec in Hx as ->. by apply list_elem_of_In.
Qed.
End build.
End kahn.

(** [ready.push(x)]: the worklist as a queue. *)
Definition push {A} (ready : list A) (x : A) : list A := ready ++ [x].

Lemma push_perm {A} (l : list A) x : push l x ≡ₚ x :: l.
Proof. unfold push. by rewrite Permutation_app_comm. Qed.

(** The whole algorithm: tables built by [link_all], each dependents list
    taken in any order, the worklist fed in any order. *)
Section graph.
Context {A K : Type} `{EqDecision A} `{Countable K}.
Variables (key : A -> K) (deps : A -> list K) (ins : list A -> A -> list A).
Variable order : list A -> list A.
Hypothesis ins_perm : forall l x, ins l x ≡ₚ x :: l.
Hypothesis order_perm : forall l, order l ≡ₚ l.

Definition kahn_on (nodes ready : list A) : option (list A) :=
  let st := link_all key deps nodes in
  kahn key (fun k => order (dependents_of st.2 k)) ins (length nodes) st.1 ready.

(** Zero in-degree means no dependency. *)
Lemma ready_filter nodes :
  NoDup (key <$> nodes) ->
  filter (fun n => deg_of (link_all key deps nodes).1 (key n) = 0%Z) nodes =
  filter (fun n => deps n = []) nodes.
Proof.
  intros Hnd. apply list_filter_ext. intros n Hn. rewrite link_all_deg by done.
  rewrite <- length_zero_iff_nil. lia.
Qed.

Section on_nodes.
Variables nodes ready : list A.
Hypothesis keys_NoDup : NoDup (key <$> nodes).
Hypothesis known : forall n d, n ∈ nodes -> d ∈ deps n -> d ∈ key <$> nodes.
Hypothesis ready_perm : ready ≡ₚ filter (fun n => deps n = []) nodes.

Lemma kahn_on_start : kahn_start key deps nodes (link_all key deps nodes).1 ready.
Proof. split; [|done]. intros n Hn. by apply link_all_deg. Qed.

Lemma kahn_on_dependents k x :
  x ∈ order (dependents_of (link_all key deps nodes).2 k) -> x ∈ nodes.
Proof. rewrite order_perm. apply link_all_nodes. Qed.

Lemma kahn_on_count k n :
  n ∈ nodes ->
  key_count key (key n) (order (dependents_of (link_all key deps nodes).2 k)) = occurrences k (deps n).
Proof.
  intros Hn. rewrite <- (link_all_count key deps nodes k n) by done.
  unfold key_count. by rewrite order_perm.
Qed.

Lemma kahn_on_correct :
  exists out, kahn_on nodes ready = Some out /\ kahn_result key deps nodes out /\
    (length out = length nodes <-> acyclic key deps nodes).
Proof.
  pose proof (NoDup_keys_inj key nodes keys_NoDup) as Hinj.
  destruct (kahn_correct key (fun k => order (dependents_of (link_all key deps nodes).2 k)) ins ins_perm
    deps nodes Hinj (NoDup_fmap_1 _ _ keys_NoDup) kahn_on_dependents kahn_on_count
    (link_all key deps nodes).1 ready kahn_on_start) as (out & Ho & Hr).
  exists out. split; [done|]. split; [done|].
  apply (kahn_complete_iff key (fun k => order (dependents_of (link_all key deps nodes).2 k)) ins);
    eauto using NoDup_fmap_1, kahn_on_dependents, kahn_on_count.
Qed.

Lemma kahn_on_greedy (pos : A -> nat) out :
  StronglySorted (fun x y => pos x < pos y) nodes ->
  (forall l x, StronglySorted (pos_le pos) l -> StronglySorted (pos_le pos) (ins l x)) ->
  ready = filter (fun n => deps n = []) nodes ->
  kahn_on nodes ready = Some out -> out = greedy key deps nodes (length nodes) [].
Proof.
  intros Hs Hi Hr Ho. pose proof (NoDup_keys_inj key nodes keys_NoDup) as Hinj.
  eapply (kahn_greedy key (fun k => order (dependents_of (link_all key deps nodes).2 k)) ins ins_perm
    deps nodes Hinj); eauto using NoDup_fmap_1, kahn_on_dependents, kahn_on_count, kahn_on_start.
Qed.
End on_nodes.
End graph.
