(* ===== verification/StateMachine.v ===== *)
(** * Workflow state machine

    [packages/runtime/src/workflow/state-machine.ts], the state vocabulary of
    [packages/core/src/schema/operation.ts] and the guards of the four
    operations of [WorkflowEngine] (workflow/operation.ts, workflow/resume.ts)
    that move an operation: [advance], [block], [abort] and resume. The
    ledger commit those operations perform is not part of this file; what a
    commit changes of an operation record is its [state] and [resume_state]. *)

From S2P Require Import Prelude.

Inductive OperationState : Type :=
| OpCreated | OpAwaitingInput | OpAwaitingApproval | OpPlanned | OpRunning | OpVerifying
| OpRepairing | OpBlocked | OpCompleted | OpAborted.
#[export] Instance OperationState_eq_dec : EqDecision OperationState.
Proof. solve_decision. Defined.

Inductive IterationState : Type :=
| ItDraft | ItPlanned | ItRunning | ItVerifying | ItBlocked | ItCompleted | ItAborted.
#[export] Instance IterationState_eq_dec : EqDecision IterationState.
Proof. solve_decision. Defined.

Definition RESUMABLE_OPERATION_STATES : list OperationState :=
  [OpCreated; OpAwaitingInput; OpAwaitingApproval; OpPlanned; OpRunning; OpVerifying; OpRepairing].

Definition iterationStateForOperation (s : OperationState) : IterationState :=
  match s with
  | OpCreated | OpAwaitingInput | OpAwaitingApproval => ItDraft
  | OpPlanned => ItPlanned
  | OpRunning => ItRunning
  | OpVerifying => ItVerifying
  | OpRepairing => ItRunning
  | OpBlocked => ItBlocked
  | OpCompleted => ItCompleted
  | OpAborted => ItAborted
  end.

(** The reasons are enumerations, so the membership tests of [blockTargetFor]
    and [abortTargetFor] on them always succeed. *)
Inductive RecoverableBlockReason : Type :=
| missing_input | awaiting_approval | stale_evidence | uncertain_external_action
| repairable_gate_failure | budget_ceiling | transient_environment_failure | git_drift.
Inductive AbortReason : Type :=
| user_cancellation | policy_violation | schema_validation_failure.

Inductive transition_error : Type := InvalidStateTransition.

Definition isTerminalOperationState (s : OperationState) : bool :=
  bool_decide (s = OpCompleted) || bool_decide (s = OpAborted).
Definition isResumableOperationState (s : OperationState) : bool :=
  mem s RESUMABLE_OPERATION_STATES.

Definition OPERATION_CHAIN : list OperationState :=
  [OpCreated; OpAwaitingInput; OpAwaitingApproval; OpPlanned; OpRunning; OpVerifying; OpCompleted].

Definition canTransitionOperation (from to : OperationState) : bool :=
  if bool_decide (from = to) || isTerminalOperationState from || bool_decide (from = OpBlocked)
  then false
  else if bool_decide (to = OpBlocked) || bool_decide (to = OpAborted) then true
  else if decide (from = OpRepairing) then bool_decide (to = OpRunning)
  else if decide (to = OpRepairing)
  then bool_decide (from = OpRunning) || bool_decide (from = OpVerifying)
  else if decide (to = OpCompleted) then bool_decide (from = OpVerifying)
  else
    let fromIndex := index_of from OPERATION_CHAIN in
    let toIndex := index_of to OPERATION_CHAIN in
    (0 <=? fromIndex)%Z && (fromIndex <? toIndex)%Z.

Definition assertOperationTransition (from to : OperationState) : result transition_error unit :=
  if negb (canTransitionOperation from to) then Err InvalidStateTransition else Ok tt.

(** [{ state: "blocked", resume_state }]: the second component. *)
Definition blockTargetFor (current : OperationState) (reason : RecoverableBlockReason) :
  result transition_error (OperationState * OperationState) :=
  if negb (isResumableOperationState current) then Err InvalidStateTransition
  else Ok (OpBlocked, current).

Definition resumeTargetFor (current : OperationState) (resumeState : option OperationState) :
  result transition_error OperationState :=
  match resumeState with
  | Some r => if decide (current <> OpBlocked) then Err InvalidStateTransition else Ok r
  | None => Err InvalidStateTransition
  end.

Definition abortTargetFor (current : OperationState) (reason : AbortReason) :
  result transition_error OperationState :=
  if isTerminalOperationState current then Err InvalidStateTransition else Ok OpAborted.

Definition isTerminalIterationState (s : IterationState) : bool :=
  bool_decide (s = ItCompleted) || bool_decide (s = ItAborted).

Definition ITERATION_CHAIN : list IterationState :=
  [ItDraft; ItPlanned; ItRunning; ItVerifying; ItCompleted].

Definition canTransitionIteration (from to : IterationState) : bool :=
  if bool_decide (from = to) || isTerminalIterationState from then false
  else if bool_decide (to = ItBlocked) || bool_decide (to = ItAborted) then true
  else if decide (from = ItBlocked) then bool_decide (to <> ItCompleted)
  else if decide (to = ItCompleted) then bool_decide (from = ItVerifying)
  else
    let fromIndex := index_of from ITERATION_CHAIN in
    let toIndex := index_of to ITERATION_CHAIN in
    (0 <=? fromIndex)%Z && (fromIndex <? toIndex)%Z.

Definition assertIterationTransition (from to : IterationState) : result transition_error unit :=
  if negb (canTransitionIteration from to) then Err InvalidStateTransition else Ok tt.

Definition ITERATION_ACTIVE_ORDER : list IterationState :=
  [ItDraft; ItPlanned; ItRunning; ItVerifying].

(** One turn of the loop over the states. *)
Definition aggregate_step (aggregate : IterationState) (s : OperationState) : IterationState :=
  if decide (s = OpCompleted) then aggregate
  else
    let mapped := iterationStateForOperation s in
    if (index_of aggregate ITERATION_ACTIVE_ORDER <? index_of mapped ITERATION_ACTIVE_ORDER)%Z
    then mapped else aggregate.

Definition aggregateIterationState (states : list OperationState) : IterationState :=
  if decide (states = []) then ItDraft
  else if forallb (fun s => bool_decide (s = OpCompleted)) states then ItCompleted
  else if existsb (fun s => bool_decide (s = OpBlocked)) states then ItBlocked
  else if existsb (fun s => bool_decide (s = OpAborted)) states then ItAborted
  else foldl aggregate_step ItDraft states.

(* ------------------------------------------------------------------ *)
(** ** The operation record under the engine's operations *)

Record WorkflowOperation : Type := {
  wo_state : OperationState;
  wo_resume_state : option OperationState
}.
#[export] Instance WorkflowOperation_eq_dec : EqDecision WorkflowOperation.
Proof. solve_decision. Defined.

(** The part of [buildOperationRecord] that decides the two fields. *)
Definition buildOperationRecord (state : OperationState) (resumeState : option OperationState) :
  WorkflowOperation :=
  {| wo_state := state;
     wo_resume_state := if decide (state = OpBlocked) then resumeState else None |}.

Definition startOperation : WorkflowOperation := buildOperationRecord OpCreated None.

Definition advance (current : WorkflowOperation) (to : OperationState) :
  result transition_error WorkflowOperation :=
  if bool_decide (to = OpBlocked) || bool_decide (to = OpAborted) then Err InvalidStateTransition
  else
    _ ← assertOperationTransition (wo_state current) to;
    Ok (buildOperationRecord to None).

Definition block (current : WorkflowOperation) (reason : RecoverableBlockReason) :
  result transition_error WorkflowOperation :=
  target ← blockTargetFor (wo_state current) reason;
  Ok (buildOperationRecord target.1 (Some target.2)).

Definition abort (current : WorkflowOperation) (reason : AbortReason) :
  result transition_error WorkflowOperation :=
  s ← abortTargetFor (wo_state current) reason;
  Ok (buildOperationRecord s None).

Definition resumeWorkflowOperation (current : WorkflowOperation) :
  result transition_error WorkflowOperation :=
  if bool_decide (wo_state current = OpCompleted) || bool_decide (wo_state current = OpAborted)
  then Err InvalidStateTransition
  else
    s ← resumeTargetFor (wo_state current) (wo_resume_state current);
    Ok (buildOperationRecord s None).

(** What the engine can do to an operation. *)
Inductive op_step : WorkflowOperation -> WorkflowOperation -> Prop :=
| step_advance o to o' : advance o to = Ok o' -> op_step o o'
| step_block o r o' : block o r = Ok o' -> op_step o o'
| step_abort o r o' : abort o r = Ok o' -> op_step o o'
| step_resume o o' : resumeWorkflowOperation o = Ok o' -> op_step o o'.
#[export] Hint Constructors op_step : harness.

Definition op_reachable (o : WorkflowOperation) : Prop := rtc op_step startOperation o.

(** The record invariant the schema states: [resume_state] is there exactly
    when the operation is blocked, and then names a resumable state. *)
Definition op_wf (o : WorkflowOperation) : Prop :=
  match wo_resume_state o with
  | Some r => wo_state o = OpBlocked /\ r ∈ RESUMABLE_OPERATION_STATES
  | None => wo_state o <> OpBlocked
  end.

(* ------------------------------------------------------------------ *)
(** ** Lemmas *)

Ltac op_cases := repeat match goal with s : OperationState |- _ => destruct s end;
  repeat match goal with s : RecoverableBlockReason |- _ => destruct s end;
  repeat match goal with s : AbortReason |- _ => destruct s end.

Lemma advance_Ok o to o' :
  advance o to = Ok o' <->
  canTransitionOperation (wo_state o) to = true /\ to <> OpBlocked /\ to <> OpAborted /\
  o' = {| wo_state := to; wo_resume_state := None |}.
Proof.
  unfold advance, assertOperationTransition, buildOperationRecord.
  destruct (bool_decide (to = OpBlocked) || bool_decide (to = OpAborted)) eqn:E.
  - split; [done|]. intros (_ & ? & ? & _). apply orb_true_iff in E as [E|E]; bool_hyps; done.
  - bool_hyps. destruct (canTransitionOperation _ to); simpl.
    + rewrite decide_False by done. split; [intros [= <-]; auto | by intros (_ & _ & _ & ->)].
    + split; [done | by intros [? _]].
Qed.

Lemma block_Ok o r o' :
  block o r = Ok o' <->
  wo_state o ∈ RESUMABLE_OPERATION_STATES /\
  o' = {| wo_state := OpBlocked; wo_resume_state := Some (wo_state o) |}.
Proof.
  unfold block, blockTargetFor, isResumableOperationState, buildOperationRecord.
  destruct (mem _ _) eqn:E; simpl.
  - apply mem_spec in E. split; [intros [= <-]; auto | by intros [_ ->]].
  - apply mem_false in E. split; [done | by intros [? _]].
Qed.

Lemma abort_Ok o r o' :
  abort o r = Ok o' <->
  isTerminalOperationState (wo_state o) = false /\
  o' = {| wo_state := OpAborted; wo_resume_state := None |}.
Proof.
  unfold abort, abortTargetFor, buildOperationRecord.
  destruct (isTerminalOperationState _); simpl; split; try done.
  - by intros [? _].
  - by intros [= <-].
  - by intros [_ ->].
Qed.

Lemma resume_Ok o o' :
  resumeWorkflowOperation o = Ok o' <->
  exists r, wo_state o = OpBlocked /\ wo_resume_state o = Some r /\ o' = buildOperationRecord r None.
Proof.
  unfold resumeWorkflowOperation, resumeTargetFor.
  destruct (bool_decide (wo_state o = OpCompleted) || bool_decide (wo_state o = OpAborted)) eqn:E.
  - split; [done|]. intros (r & Hb & _). rewrite Hb in E. done.
  - destruct (wo_resume_state o) as [r|]; simpl; [|split; [done|by intros (? & ? & ? & ?)]].
    destruct (decide (wo_state o <> OpBlocked)) as [Hb|Hb]; simpl.
    + split; [done|]. by intros (? & ? & _).
    + apply dec_stable in Hb. split; [intros [= <-]; eauto|]. by intros (? & ? & [= ->] & ->).
Qed.

Lemma op_step_wf o o' : op_wf o -> op_step o o' -> op_wf o'.
Proof.
  intros Hwf Hs. destruct Hs as [o to o' H|o r o' H|o r o' H|o o' H].
  - apply advance_Ok in H as (_ & ? & _ & ->). done.
  - by apply block_Ok in H as (? & ->).
  - by apply abort_Ok in H as (_ & ->).
  - apply resume_Ok in H as (r & Hb & Hr & ->). unfold op_wf in Hwf. rewrite Hr in Hwf.
    destruct Hwf as [_ Hin]. unfold buildOperationRecord, op_wf; simpl.
    case_decide; simpl; [|done]. subst. by apply mem_spec in Hin.
Qed.

Lemma op_reachable_inv o : op_reachable o -> op_wf o.
Proof.
  unfold op_reachable. intros H. revert o H. apply (rtc_ind_r (R := op_step)); [done|].
  intros y z _ Hs Hw. by eapply op_step_wf.
Qed.

(** [advance] paths to [verifying] and [completed] from a resumable state. *)
Lemma resumable_completes o :
  wo_state o ∈ RESUMABLE_OPERATION_STATES ->
  rtc op_step o {| wo_state := OpCompleted; wo_resume_state := None |}.
Proof.
  intros Hr.
  assert (forall s to rs, canTransitionOperation s to = true -> to <> OpBlocked -> to <> OpAborted ->
    op_step {| wo_state := s; wo_resume_state := rs |} {| wo_state := to; wo_resume_state := None |})
    as Hadv.
  { intros s to rs ? ? ?. apply (step_advance _ to). by apply advance_Ok. }
  destruct o as [s rs]; simpl in Hr. destruct (decide (s = OpVerifying)) as [->|Hv].
  - apply rtc_once, Hadv; done.
  - transitivity {| wo_state := OpVerifying; wo_resume_state := None |}; [|by apply rtc_once, Hadv].
    destruct (decide (s = OpRepairing)) as [->|Hp].
    + transitivity {| wo_state := OpRunning; wo_resume_state := None |}; apply rtc_once, Hadv; done.
    + apply rtc_once, Hadv; [|done..].
      apply mem_spec in Hr. destruct s; done.
Qed.

(* ------------------------------------------------------------------ *)
(** ** Properties *)

(** In every state the engine can bring an operation to, [resume_state] is
    present exactly when the operation is blocked, and names a nonterminal
    state other than [blocked]. *)
Theorem op_reachable_wf o : op_reachable o -> op_wf o.
Proof. apply op_reachable_inv. Qed.

Lemma op_reachable_wf_witness :
  op_wf {| wo_state := OpBlocked; wo_resume_state := Some OpRunning |}.
Proof.
  apply op_reachable_wf.
  eapply rtc_l; [eapply (step_advance _ OpRunning); reflexivity|].
  eapply rtc_l; [eapply (step_block _ git_drift); reflexivity|]. apply rtc_refl.
Defined.

(** [completed] and [aborted] are final; an operation completes only out of
    [verifying]; and a block is undone exactly by the resume that follows. *)
Theorem op_terminal_and_completion o o' :
  op_reachable o -> op_step o o' ->
  isTerminalOperationState (wo_state o) = false /\
  (wo_state o' = OpCompleted -> wo_state o = OpVerifying) /\
  (forall r, block o r = Ok o' -> resumeWorkflowOperation o' = Ok o).
Proof.
  intros Hwf%op_reachable_inv Hs. split; [|split].
  - destruct Hs as [o to o' H|o r o' H|o r o' H|o o' H].
    + apply advance_Ok in H as (H & _). unfold canTransitionOperation in H.
      destruct (isTerminalOperationState _); [|done]. by rewrite orb_true_r in H.
    + apply block_Ok in H as (H & _). apply mem_spec in H. by destruct (wo_state o).
    + by apply abort_Ok in H as (? & _).
    + apply resume_Ok in H as (r & -> & _). done.
  - destruct Hs as [o to o' H|o r o' H|o r o' H|o o' H]; intros Hc.
    + apply advance_Ok in H as (H & _ & _ & ->). simpl in Hc. subst to. by destruct (wo_state o).
    + by apply block_Ok in H as (_ & ->).
    + by apply abort_Ok in H as (_ & ->).
    + apply resume_Ok in H as (r & _ & Hrs & ->). simpl in Hc. subst r.
      unfold op_wf in Hwf. rewrite Hrs in Hwf. destruct Hwf as [_ Hin]. by apply mem_spec in Hin.
  - clear Hs. intros r Hb. apply block_Ok in Hb as (Hin & ->). apply resume_Ok.
    exists (wo_state o). split; [done|]. split; [done|]. unfold buildOperationRecord.
    destruct o as [s [rs|]]; unfold op_wf in Hwf; simpl in *.
    + destruct Hwf as [-> _]. by apply mem_spec in Hin.
    + by rewrite decide_False.
Qed.

Lemma op_terminal_and_completion_witness :
  resumeWorkflowOperation {| wo_state := OpBlocked; wo_resume_state := Some OpCreated |} =
  Ok startOperation.
Proof.
  refine (proj2 (proj2 (op_terminal_and_completion startOperation
    {| wo_state := OpBlocked; wo_resume_state := Some OpCreated |} _ _)) git_drift _).
  - apply rtc_refl.
  - by apply (step_block _ git_drift).
  - reflexivity.
Defined.

(** No reachable operation is stuck: one that is not terminal can still be
    brought to [completed] and, in one step, to [aborted]. *)
Theorem op_never_stuck o :
  op_reachable o -> isTerminalOperationState (wo_state o) = false ->
  rtc op_step o {| wo_state := OpCompleted; wo_resume_state := None |} /\
  op_step o {| wo_state := OpAborted; wo_resume_state := None |}.
Proof.
  intros Hr Ht. split; [|apply (step_abort _ user_cancellation); by apply abort_Ok].
  assert (op_wf o) as Hwf by (by apply op_reachable_inv).
  unfold op_wf in Hwf. destruct (wo_resume_state o) as [r|] eqn:Er.
  - destruct Hwf as [Hb Hin].
    apply rtc_l with (buildOperationRecord r None).
    + apply step_resume, resume_Ok. eauto.
    + by apply resumable_completes.
  - apply resumable_completes. apply mem_spec. by destruct (wo_state o).
Qed.

Lemma op_never_stuck_witness :
  op_step startOperation {| wo_state := OpAborted; wo_resume_state := None |}.
Proof. apply op_never_stuck; [apply rtc_refl | reflexivity]. Defined.

(** The pure transition test admits [blocked] as a direct target from every
    nonterminal state, against the doc comment above it; only the engine's
    [advance] refuses it. *)
Theorem blocked_is_a_direct_target s :
  s <> OpBlocked -> isTerminalOperationState s = false ->
  canTransitionOperation s OpBlocked = true /\
  forall rs, advance {| wo_state := s; wo_resume_state := rs |} OpBlocked = Err InvalidStateTransition.
Proof. intros ? ?. split; [by destruct s|done]. Qed.

Lemma blocked_is_a_direct_target_witness : canTransitionOperation OpRunning OpBlocked = true.
Proof. apply blocked_is_a_direct_target; [discriminate | reflexivity]. Defined.

Lemma aggregate_fold_spec states : forall a0,
  (0 <= index_of a0 ITERATION_ACTIVE_ORDER)%Z -> OpBlocked ∉ states -> OpAborted ∉ states ->
  let a := foldl aggregate_step a0 states in
  (index_of a0 ITERATION_ACTIVE_ORDER <= index_of a ITERATION_ACTIVE_ORDER)%Z /\
  (forall s, s ∈ states -> s <> OpCompleted ->
    index_of (iterationStateForOperation s) ITERATION_ACTIVE_ORDER
      <= index_of a ITERATION_ACTIVE_ORDER)%Z /\
  (a = a0 \/ exists s, s ∈ states /\ s <> OpCompleted /\ a = iterationStateForOperation s).
Proof.
  induction states as [|s l IH]; intros a0 Ha0 Hb Hab; simpl.
  { split; [done|]. split; [|by left]. intros s Hs. by apply not_elem_of_nil in Hs. }
  apply not_elem_of_cons in Hb as [Hb1 Hb], Hab as [Hab1 Hab].
  assert (Hstep : (index_of a0 ITERATION_ACTIVE_ORDER
            <= index_of (aggregate_step a0 s) ITERATION_ACTIVE_ORDER)%Z /\
          (s <> OpCompleted -> (index_of (iterationStateForOperation s) ITERATION_ACTIVE_ORDER
            <= index_of (aggregate_step a0 s) ITERATION_ACTIVE_ORDER)%Z) /\
          (aggregate_step a0 s = a0 \/
           s <> OpCompleted /\ aggregate_step a0 s = iterationStateForOperation s)).
  { unfold aggregate_step. case_decide; [split; [lia|]; split; [done|by left]|].
    destruct (_ <? _)%Z eqn:E; bool_hyps; (split; [lia|]; split; [intros; lia|]); auto. }
  destruct Hstep as (H1 & H2 & H3).
  destruct (IH (aggregate_step a0 s)) as (I1 & I2 & I3); [lia|done|done|].
  split; [lia|]. split.
  - intros t [->|Ht]%elem_of_cons Hc; [specialize (H2 Hc); lia|by apply I2].
  - destruct I3 as [->|(t & Ht & Hc & ->)].
    + destruct H3 as [->|[Hc ->]]; [by left|]. right. exists s. split; [left|done].
    + right. exists t. split; [by right|done].
Qed.

(** The iteration state of several operations, whatever their order:
    completed when all are, else blocked when one is, else aborted when one
    is, else the most advanced delivery state among the unfinished ones. *)
Theorem aggregate_iteration_spec states :
  states <> [] ->
  let a := aggregateIterationState states in
  (a = ItCompleted <-> forall s, s ∈ states -> s = OpCompleted) /\
  (OpBlocked ∈ states -> a = ItBlocked) /\
  (OpAborted ∈ states -> OpBlocked ∉ states -> a = ItAborted) /\
  (OpAborted ∉ states -> OpBlocked ∉ states -> (exists s, s ∈ states /\ s <> OpCompleted) ->
    (exists s, s ∈ states /\ s <> OpCompleted /\ a = iterationStateForOperation s) /\
    forall s, s ∈ states -> s <> OpCompleted ->
      (index_of (iterationStateForOperation s) ITERATION_ACTIVE_ORDER
        <= index_of a ITERATION_ACTIVE_ORDER)%Z).
Proof.
  intros Hne. unfold aggregateIterationState. rewrite decide_False by done.
  assert (forall p, forallb (fun s => bool_decide (s = p)) states = true <->
            forall s, s ∈ states -> s = p) as Hall.
  { intros p. rewrite forallb_forall. setoid_rewrite <- list_elem_of_In.
    by setoid_rewrite bool_decide_eq_true. }
  assert (forall p, existsb (fun s => bool_decide (s = p)) states = true <-> p ∈ states) as Hex.
  { intros p. rewrite existsb_exists. setoid_rewrite <- list_elem_of_In.
    setoid_rewrite bool_decide_eq_true. split; [by intros (? & ? & ->)|eauto]. }
  destruct (forallb _ _) eqn:E1.
  { pose proof (proj1 (Hall _) E1) as Hc. simpl. split; [done|].
    split; [by intros H; apply Hc in H|]. split; [by intros H; apply Hc in H|].
    intros _ _ (s & Hs & Hn). by apply Hc in Hs. }
  assert (~ forall s, s ∈ states -> s = OpCompleted) as Hnc by (rewrite <- Hall, E1; done).
  destruct (existsb (fun s => bool_decide (s = OpBlocked)) states) eqn:E2.
  { apply Hex in E2. simpl. repeat split; try done. }
  assert (OpBlocked ∉ states) as Hnb by (rewrite <- Hex, E2; done).
  destruct (existsb (fun s => bool_decide (s = OpAborted)) states) eqn:E3.
  { apply Hex in E3. simpl. repeat split; try done. }
  assert (OpAborted ∉ states) as Hna by (rewrite <- Hex, E3; done).
  destruct (aggregate_fold_spec states ItDraft) as (_ & H2 & H3); [done..|]. simpl.
  split; [|split; [done|split; [done|]]].
  - split; [|done]. intros Ha. exfalso.
    destruct H3 as [H3|(s & Hs & Hc & H3)]; rewrite Ha in H3; [done|]. by destruct s.
  - intros _ _ (s & Hs & Hc). split; [|done].
    destruct H3 as [H3|H3]; [|done]. exists s. split; [done|]. split; [done|].
    specialize (H2 s Hs Hc). rewrite H3 in *. by destruct s.
Qed.

Lemma aggregate_iteration_spec_witness :
  aggregateIterationState [OpCompleted; OpRepairing; OpPlanned] = ItRunning /\
  (OpBlocked ∈ [OpAborted; OpBlocked] ->
   aggregateIterationState [OpAborted; OpBlocked] = ItBlocked).
Proof.
  split; [reflexivity|]. apply aggregate_iteration_spec. discriminate.
Defined.
