(* ===== verification/Json.v ===== *)
(** * Canonical JSON, content digests and sealed records

    [packages/core/src/identity/canonical-json.ts], [canonical-set.ts],
    [digest.ts], the envelope functions of [packages/core/src/schema/envelope.ts]
    and the protocol registry lookup of [packages/core/src/protocol.ts].
    SHA-256 is [node:crypto]'s and stays a parameter ([Hash]). *)

From Stdlib Require Import DecimalString DecimalZ.
From S2P Require Import Prelude Regex.

(** A [number]: an integer; a finite non-integer, given by the literal
    [JSON.stringify] prints for it; or NaN and the infinities. *)
Inductive number : Type :=
| NInt (z : Z)
| NDec (literal : string)
| NNonFinite.

(** A value of type [unknown]. [JUndefined] stands for everything
    [canonicalizeJson] refuses by type: undefined, functions, symbols. *)
Inductive jsval : Type :=
| JUndefined
| JNull
| JBool (b : bool)
| JNum (n : number)
| JStr (s : string)
| JArr (values : list jsval)
| JObj (fields : list (string * jsval)).

(** [record[key]] *)
Definition jfield (fields : list (string * jsval)) (key : string) : jsval :=
  default JUndefined (omap_get fields key).

Inductive canonical_error : Type :=
| non_finite_number
| unsupported_type
| duplicate_key.
#[export] Instance canonical_error_eq_dec : EqDecision canonical_error.
Proof. solve_decision. Defined.

Definition hex_digit (n : N) : ascii :=
  ascii_of_N (if (n <? 10)%N then 48 + n else 87 + n)%N.

(** [JSON.stringify] on one code unit below U+0100. *)
Definition esc_char (a : ascii) : string :=
  if decide (code a = 34%N) then String "\" (String a "")
  else if decide (a = "\"%char) then "\\"
  else if decide (code a = 8%N) then "\b"
  else if decide (code a = 12%N) then "\f"
  else if decide (code a = 10%N) then "\n"
  else if decide (code a = 13%N) then "\r"
  else if decide (code a = 9%N) then "\t"
  else if (code a <? 32)%N
  then "\u00" +:+ String (hex_digit (code a / 16)) (String (hex_digit (code a mod 16)) "")
  else String a "".

Fixpoint esc (s : string) : string :=
  match s with EmptyString => "" | String a s' => esc_char a +:+ esc s' end.

Definition dquote : ascii := ascii_of_nat 34.

(** [JSON.stringify(s)] *)
Definition quote (s : string) : string := String dquote (esc s +:+ String dquote "").

#[global] Arguments quote : simpl never.

(** [JSON.stringify(z)] for an integer. *)
Definition dec (z : Z) : string := NilEmpty.string_of_int (Z.to_int z).

Definition writeNumber (n : number) : result canonical_error string :=
  match n with
  | NInt z => Ok (dec z)
  | NDec literal => Ok literal
  | NNonFinite => Err non_finite_number
  end.

Definition key_cmp {A} (x y : string * A) : Z := str_cmp x.1 y.1.

(** [entries[index][0] === entries[index - 1][0]] for some index. *)
Fixpoint adjacent_duplicate {A} (entries : list (string * A)) : bool :=
  match entries with
  | x :: (y :: _) as l => bool_decide (y.1 = x.1) || adjacent_duplicate l
  | _ => false
  end.

(** The body of [writeObject], the values already written. *)
Definition write_entries (entries : list (string * result canonical_error string)) :
  result canonical_error string :=
  let sorted := js_sort key_cmp entries in
  if adjacent_duplicate sorted then Err duplicate_key
  else
    body ← mapM (fun e => v ← e.2; Ok (quote e.1 +:+ ":" +:+ v)) sorted;
    Ok ("{" +:+ join "," body +:+ "}").

Fixpoint writeValue (value : jsval) : result canonical_error string :=
  match value with
  | JNull => Ok "null"
  | JBool b => Ok (if b then "true" else "false")
  | JStr s => Ok (quote (nfc s))
  | JNum n => writeNumber n
  | JArr values => items ← mapM writeValue values; Ok ("[" +:+ join "," items +:+ "]")
  | JObj fields => write_entries (map (fun e => (nfc e.1, writeValue e.2)) fields)
  | JUndefined => Err unsupported_type
  end.

Definition canonicalizeJson (value : jsval) : result canonical_error string := writeValue value.

(** [canonicalStringSet] on strings. *)
Definition canonicalStringSet (values : list string) : list string :=
  sort_strings (dedup (map nfc values)).

(** A JSON array of strings. *)
Definition strings (l : list string) : jsval := JArr (map JStr l).
#[global] Arguments strings : simpl never.

(** The hash of [node:crypto]: [createHash("sha256").update(s).digest("hex")]. *)
Class Hash : Type := { sha256 : string -> string }.

Section digests.
Context `{Hash}.

Definition contentDigest (value : jsval) : result canonical_error string :=
  s ← canonicalizeJson value; Ok (sha256 s).

Definition canonicalSetDigest (values : list string) : result canonical_error string :=
  contentDigest (JArr (map JStr (canonicalStringSet values))).

Definition RECORD_DIGEST_FIELD : string := "record_digest".

Definition without_field (key : string) (fields : list (string * jsval)) : list (string * jsval) :=
  filter (fun e => e.1 <> key) fields.

Definition recordDigestOf (fields : list (string * jsval)) : result canonical_error string :=
  contentDigest (JObj (without_field RECORD_DIGEST_FIELD fields)).

(** [{ ...record, record_digest: recordDigestOf(record) }] *)
Definition sealRecordEnvelope (fields : list (string * jsval)) :
  result canonical_error (list (string * jsval)) :=
  d ← recordDigestOf fields; Ok (omap_set fields RECORD_DIGEST_FIELD (JStr d)).

(** [^[a-z][a-z0-9]*(?:_[a-z0-9]+)*$] *)
Definition RECORD_KIND_REGEX : re :=
  let word := RCls (fun a => is_lower a || is_digit a) in
  RCat (RCls is_lower) (RCat (RStar word) (RStar (RCat (RChr "_") (RPlus word)))).

Definition PROTOCOL_VERSION : string := "1.0.0".
Definition PROTOCOL_1_1_VERSION : string := "1.1.0".
Definition PROTOCOL_1_2_VERSION : string := "1.2.0".
Definition PROTOCOL_1_3_VERSION : string := "1.3.0".
Definition PROTOCOL_1_4_VERSION : string := "1.4.0".
Definition PROTOCOL_REGISTRY : list string :=
  [PROTOCOL_VERSION; PROTOCOL_1_1_VERSION; PROTOCOL_1_2_VERSION; PROTOCOL_1_3_VERSION;
   PROTOCOL_1_4_VERSION].
Definition isKnownProtocol (version : string) : bool := mem version PROTOCOL_REGISTRY.

(** The [catch] of the source turns a canonicalization error into [false]. *)
Definition verifyRecordEnvelope (fields : list (string * jsval)) : bool :=
  match jfield fields "protocol_version", jfield fields "record_kind",
        jfield fields RECORD_DIGEST_FIELD with
  | JStr version, JStr kind, JStr digest =>
      isKnownProtocol version && re_match RECORD_KIND_REGEX kind &&
      re_match digest_regex digest &&
      bool_decide (recordDigestOf fields = Ok digest)
  | _, _, _ => false
  end.
End digests.

(* ------------------------------------------------------------------ *)
(** ** Canonical values and their text *)

Section jsval_induction.
Variable P : jsval -> Prop.
Hypothesis Hundef : P JUndefined.
Hypothesis Hnull : P JNull.
Hypothesis Hbool : forall b, P (JBool b).
Hypothesis Hnum : forall n, P (JNum n).
Hypothesis Hstr : forall s, P (JStr s).
Hypothesis Harr : forall l, Forall P l -> P (JArr l).
Hypothesis Hobj : forall l, Forall (fun e => P e.2) l -> P (JObj l).

Fixpoint jsval_rect' (v : jsval) : P v :=
  match v with
  | JUndefined => Hundef
  | JNull => Hnull
  | JBool b => Hbool b
  | JNum n => Hnum n
  | JStr s => Hstr s
  | JArr l => Harr l ((fix go l : Forall P l :=
      match l with [] => Forall_nil_2 _ | x :: l' => Forall_cons_2 _ _ _ (jsval_rect' x) (go l') end) l)
  | JObj l => Hobj l ((fix go l : Forall (fun e => P e.2) l :=
      match l with
      | [] => Forall_nil_2 _
      | e :: l' => Forall_cons_2 _ _ _ (jsval_rect' e.2) (go l')
      end) l)
  end.
End jsval_induction.

(** The value with every object's fields in key order. *)
Fixpoint canon (v : jsval) : jsval :=
  match v with
  | JArr l => JArr (map canon l)
  | JObj fields => JObj (js_sort key_cmp (map (fun e => (e.1, canon e.2)) fields))
  | _ => v
  end.

Definition print_number (n : number) : string :=
  match n with NInt z => dec z | NDec s => s | NNonFinite => "" end.

(** Its text, without the checks of [writeValue]. *)
Fixpoint print (v : jsval) : string :=
  match v with
  | JUndefined => ""
  | JNull => "null"
  | JBool b => if b then "true" else "false"
  | JNum n => print_number n
  | JStr s => quote s
  | JArr l => "[" +:+ join "," (map print l) +:+ "]"
  | JObj l => "{" +:+ join "," (map (fun e => quote e.1 +:+ ":" +:+ print e.2) l) +:+ "}"
  end.

Definition num_char (a : ascii) : bool := is_digit a || is_one_of "+-.eE" a.

(** A literal of a non-integer: number characters, with a point or an
    exponent. This is how ECMAScript prints every finite non-integer. *)
Definition dec_literal (s : string) : bool :=
  str_forallb num_char s && str_existsb (is_one_of ".eE") s.

Definition number_ok (n : number) : bool :=
  match n with NInt _ => true | NDec s => dec_literal s | NNonFinite => false end.

Fixpoint json_ok (v : jsval) : bool :=
  match v with
  | JUndefined => false
  | JNum n => number_ok n
  | JArr l => forallb json_ok l
  | JObj l => forallb (fun e => json_ok e.2) l
  | _ => true
  end.

(** Every non-integer number of the value is given by a proper literal. *)
Fixpoint literals_ok (v : jsval) : bool :=
  match v with
  | JNum (NDec s) => dec_literal s
  | JArr l => forallb literals_ok l
  | JObj l => forallb (fun e => literals_ok e.2) l
  | _ => true
  end.

(* ---- sorting commutes with mapping the values ---- *)

Lemma sort_insert_map {A B} (cA : A -> A -> Z) (cB : B -> B -> Z) (g : A -> B) x l :
  (forall x y, cB (g x) (g y) = cA x y) ->
  sort_insert cB (g x) (map g l) = map g (sort_insert cA x l).
Proof.
  intros Hc. induction l as [|y l IH]; simpl; [done|]. rewrite Hc.
  destruct (_ <=? _)%Z; simpl; [done|]. by rewrite IH.
Qed.

Lemma js_sort_map {A B} (cA : A -> A -> Z) (cB : B -> B -> Z) (g : A -> B) l :
  (forall x y, cB (g x) (g y) = cA x y) ->
  js_sort cB (map g l) = map g (js_sort cA l).
Proof.
  intros Hc. induction l as [|x l IH]; simpl; [done|].
  rewrite IH. by apply sort_insert_map.
Qed.

Lemma mapM_map {E A B C} (f : B -> result E C) (g : A -> B) l :
  mapM f (map g l) = mapM (fun x => f (g x)) l.
Proof. induction l as [|x l IH]; [done|]. cbn [map]. by rewrite !mapM_cons, IH. Qed.

Lemma mapM_pure {E A B} (f : A -> result E B) (g : A -> B) l k :
  mapM f l = Ok k -> Forall (fun x => forall y, f x = Ok y -> y = g x) l -> k = map g l.
Proof.
  rewrite mapM_Ok. induction 1 as [|x y l k Hx Hl IH]; simpl; [done|].
  intros [H1 H2]%Forall_cons. by rewrite (H1 y), IH.
Qed.

Lemma forallb_Forall' {A} (p : A -> bool) l : forallb p l = true <-> Forall (fun x => p x = true) l.
Proof. rewrite forallb_forall, Forall_forall. by setoid_rewrite list_elem_of_In. Qed.

(** [writeValue] prints the canonical value, and only values without
    undefined or non-finite parts. *)
Lemma writeValue_print v : forall s,
  literals_ok v = true -> writeValue v = Ok s -> s = print (canon v) /\ json_ok (canon v) = true.
Proof.
  induction v as [| |b|n|t|l IH|l IH] using jsval_rect'; intros s Hlit; simpl.
  - done.
  - by intros [= <-].
  - by intros [= <-].
  - destruct n; simpl in *; intros H; [by injection H as <- | by injection H as <- | done].
  - by intros [= <-].
  - intros H. inv_result. simpl in Hlit. apply forallb_Forall' in Hlit.
    assert (Forall (fun v => forall y, writeValue v = Ok y ->
              y = print (canon v) /\ json_ok (canon v) = true) l) as Hall.
    { rewrite Forall_forall in *. eauto. }
    split.
    + rewrite map_map. do 3 f_equal. eapply mapM_pure; [done|].
      eapply Forall_impl; [done|]. intros v Hv y Hy. by apply Hv.
    + apply forallb_Forall'. apply Forall_forall. intros w Hw.
      apply list_elem_of_In, in_map_iff in Hw as (v & <- & Hv%list_elem_of_In).
      rewrite Forall_forall in Hall. apply mapM_Ok in E.
      apply list_elem_of_lookup in Hv as [i Hi].
      destruct (Forall2_lookup_l _ _ _ _ _ E Hi) as (y & _ & Hy).
      eapply Hall; [by eapply list_elem_of_lookup_2 | done].
  - unfold write_entries. intros H. inv_result.
    rewrite (js_sort_map key_cmp key_cmp (fun e : string * jsval => (nfc e.1, writeValue e.2))) in E0 by done.
    simpl in Hlit. apply forallb_Forall' in Hlit.
    rewrite mapM_map in E0.
    assert (Forall (fun e : string * jsval => forall y, writeValue e.2 = Ok y ->
              y = print (canon e.2) /\ json_ok (canon e.2) = true) (js_sort key_cmp l)) as Hall.
    { rewrite js_sort_Permutation. rewrite Forall_forall in *. eauto. }
    rewrite (js_sort_map key_cmp key_cmp (fun e : string * jsval => (e.1, canon e.2))) by done.
    split.
    + rewrite map_map. do 3 f_equal. eapply mapM_pure; [done|].
      eapply Forall_impl; [done|]. intros e He y Hy. simpl in Hy.
      apply bind_Ok in Hy as (t & Ht & [= <-]). by destruct (He t Ht) as [-> _].
    + apply forallb_Forall', Forall_forall. intros w Hw.
      apply list_elem_of_In, in_map_iff in Hw as (e & <- & He%list_elem_of_In). simpl.
      rewrite Forall_forall in Hall. apply mapM_Ok in E0.
      apply list_elem_of_lookup in He as [i Hi].
      destruct (Forall2_lookup_l _ _ _ _ _ E0 Hi) as (y & _ & Hy). simpl in Hy. inv_result.
      eapply Hall; [by eapply list_elem_of_lookup_2 | done].
Qed.

(* ---- the text determines the canonical value ---- *)

Definition hex_value (a : ascii) : N :=
  if is_digit a then (code a - 48)%N else (code a - 87)%N.

(** Reading back one escaped code unit. *)
Definition unesc (s : string) : option (ascii * string) :=
  match s with
  | EmptyString => None
  | String a r =>
      if decide (code a = 34%N) then None
      else if decide (a = "\"%char) then
        match r with
        | String b r' =>
            if decide (code b = 34%N) then Some (b, r')
            else if decide (b = "\"%char) then Some (b, r')
            else if decide (b = "b"%char) then Some (ascii_of_N 8, r')
            else if decide (b = "f"%char) then Some (ascii_of_N 12, r')
            else if decide (b = "n"%char) then Some (ascii_of_N 10, r')
            else if decide (b = "r"%char) then Some (ascii_of_N 13, r')
            else if decide (b = "t"%char) then Some (ascii_of_N 9, r')
            else match r' with
                 | String _ (String _ (String h (String l r''))) =>
                     Some (ascii_of_N (16 * hex_value h + hex_value l), r'')
                 | _ => None
                 end
        | EmptyString => None
        end
      else Some (a, r)
  end.

Lemma unesc_esc a r : unesc (esc_char a +:+ r) = Some (a, r).
Proof. destruct a as [[] [] [] [] [] [] [] []]; vm_compute; reflexivity. Qed.

Lemma unesc_dquote r : unesc (String dquote r) = None.
Proof. reflexivity. Qed.

Lemma quote_inj s1 s2 r1 r2 : quote s1 +:+ r1 = quote s2 +:+ r2 -> s1 = s2 /\ r1 = r2.
Proof.
  unfold quote; simpl. intros H. injection H as H. revert s2 H.
  rewrite <- !string_app_assoc. intros s2. rewrite <- !string_app_assoc. simpl.
  revert s2; induction s1 as [|a s1 IH]; intros [|b s2]; simpl; intros H.
  - by injection H.
  - apply (f_equal unesc) in H. by rewrite <- !string_app_assoc, unesc_esc in H.
  - apply (f_equal unesc) in H. by rewrite <- !string_app_assoc, unesc_esc in H.
  - rewrite <- !string_app_assoc in H. apply (f_equal unesc) in H.
    rewrite !unesc_esc in H. injection H as -> H. apply IH in H as [-> ->]. done.
Qed.

(** A rest of the text that cannot continue a number. *)
Definition boundary (r : string) : Prop :=
  match r with EmptyString => True | String a _ => num_char a = false end.

Lemma num_text_inj s1 s2 r1 r2 :
  str_forallb num_char s1 = true -> str_forallb num_char s2 = true ->
  boundary r1 -> boundary r2 -> s1 +:+ r1 = s2 +:+ r2 -> s1 = s2 /\ r1 = r2.
Proof.
  revert s2; induction s1 as [|a s1 IH]; intros [|b s2] H1 H2 Hr1 Hr2; simpl; intros E.
  - done.
  - subst r1. simpl in *. rewrite Hr1 in H2. done.
  - subst r2. simpl in *. rewrite Hr2 in H1. done.
  - injection E as -> E. simpl in *. bool_hyps. destruct (IH s2) as [-> ->]; done.
Qed.

Lemma string_of_uint_digits d : str_forallb is_digit (NilEmpty.string_of_uint d) = true.
Proof. induction d; simpl; done. Qed.

Lemma dec_num_char z : str_forallb num_char (dec z) = true /\ str_existsb (is_one_of ".eE") (dec z) = false.
Proof.
  assert (forall d, str_forallb num_char (NilEmpty.string_of_uint d) = true /\
                    str_existsb (is_one_of ".eE") (NilEmpty.string_of_uint d) = false) as H.
  { intros d. pose proof (string_of_uint_digits d) as Hd. split.
    - eapply str_forallb_impl; [|exact Hd]. refine (all_ascii_impl _ _ _); vm_compute; reflexivity.
    - unfold str_existsb. apply negb_false_iff. eapply str_forallb_impl; [|exact Hd].
      refine (all_ascii_impl _ _ _); vm_compute; reflexivity. }
  unfold dec. destruct (Z.to_int z) as [d|d]; simpl; [apply H|].
  destruct (H d) as [H1 H2]. unfold str_existsb in *; simpl in *. by rewrite H1.
Qed.

Lemma dec_inj z1 z2 : dec z1 = dec z2 -> z1 = z2.
Proof.
  unfold dec. intros H. apply (f_equal NilEmpty.int_of_string) in H.
  rewrite !NilEmpty.isi in H. injection H as H. by apply (f_equal Z.of_int) in H;
  rewrite !of_to in H.
Qed.

Lemma dec_nonempty z : dec z <> "".
Proof.
  unfold dec. destruct z as [|p|p]; [done|..]; simpl.
  - intros H. apply (f_equal (fun s => NilEmpty.uint_of_string s)) in H.
    rewrite NilEmpty.usu in H. simpl in H. injection H as H.
    pose proof (DecimalPos.Unsigned.of_to p) as Hp. by rewrite H in Hp.
  - done.
Qed.

Lemma number_inj n1 n2 r1 r2 :
  number_ok n1 = true -> number_ok n2 = true -> boundary r1 -> boundary r2 ->
  print_number n1 +:+ r1 = print_number n2 +:+ r2 -> n1 = n2 /\ r1 = r2.
Proof.
  unfold number_ok, dec_literal.
  destruct n1 as [z1|s1|], n2 as [z2|s2|]; simpl; intros H1 H2 Hr1 Hr2 E; try done; bool_hyps.
  - apply num_text_inj in E as [->%dec_inj ->]; [done|apply dec_num_char..|done|done].
  - apply num_text_inj in E as [E ->]; [|apply dec_num_char|done..].
    destruct (dec_num_char z1) as [_ H']. congruence.
  - apply num_text_inj in E as [E ->]; [|done|apply dec_num_char|done..].
    destruct (dec_num_char z2) as [_ H']. congruence.
  - by apply num_text_inj in E as [-> ->].
Qed.

Lemma number_head n : number_ok n = true ->
  exists a s, print_number n = String a s /\ num_char a = true.
Proof.
  unfold number_ok, dec_literal. destruct n as [z|s|]; simpl; intros H; [..|done].
  - pose proof (dec_nonempty z). destruct (dec_num_char z) as [Hz _].
    destruct (dec z) as [|a s]; [done|]. simpl in Hz. bool_hyps. eauto.
  - bool_hyps. destruct s as [|a s]; [done|]. simpl in *. bool_hyps. eauto.
Qed.

(** The first character tells the kind of a value; no text starts with a
    closing bracket, a comma or nothing. *)
Inductive head_kind := HNull | HTrue | HFalse | HNum | HStr | HArr | HObj | HOther.
Definition head_of (s : string) : head_kind :=
  match s with
  | EmptyString => HOther
  | String a _ =>
      if num_char a then HNum
      else if decide (a = "n"%char) then HNull
      else if decide (a = "t"%char) then HTrue
      else if decide (a = "f"%char) then HFalse
      else if decide (a = dquote) then HStr
      else if decide (a = "["%char) then HArr
      else if decide (a = "{"%char) then HObj
      else HOther
  end.
Definition kind_of (v : jsval) : head_kind :=
  match v with
  | JUndefined => HOther | JNull => HNull | JBool b => if b then HTrue else HFalse
  | JNum _ => HNum | JStr _ => HStr | JArr _ => HArr | JObj _ => HObj
  end.

Lemma print_head v r : json_ok v = true -> head_of (print v +:+ r) = kind_of v /\ kind_of v <> HOther.
Proof.
  destruct v as [| |[]|n|s|l|l]; simpl; intros H; try done.
  destruct (number_head n H) as (a & s & -> & Ha). simpl. by rewrite Ha.
Qed.

Section separated.
Context {A : Type} (p : A -> string) (ok : A -> bool) (close : ascii).
Hypothesis close_num : num_char close = false.
Hypothesis close_comma : close <> ","%char.
Hypothesis p_head : forall x r, ok x = true -> head_of (p x +:+ r) <> HOther.
Hypothesis close_head : forall r, head_of (String close r) = HOther.

Lemma separated_inj l1 : forall l2 r1 r2,
  Forall (fun x => forall y r1 r2, ok y = true -> boundary r1 -> boundary r2 ->
            p x +:+ r1 = p y +:+ r2 -> x = y /\ r1 = r2) l1 ->
  Forall (fun x => ok x = true) l1 -> Forall (fun x => ok x = true) l2 ->
  join "," (map p l1) +:+ String close r1 = join "," (map p l2) +:+ String close r2 ->
  l1 = l2 /\ r1 = r2.
Proof.
  assert (forall x l r, join "," (map p (x :: l)) +:+ String close r =
            p x +:+ match l with [] => String close r
                    | _ => String "," (join "," (map p l) +:+ String close r) end) as Hj.
  { intros x l r. destruct l as [|y l]; [done|]. simpl map. rewrite join_cons by done.
    by rewrite <- !string_app_assoc. }
  induction l1 as [|x l1 IH]; intros [|y l2] r1 r2 Hinj Hok1 Hok2 E.
  - injection E. done.
  - rewrite Hj in E. change (String close r1 = p y +:+ match l2 with [] => String close r2
      | _ => String "," (join "," (map p l2) +:+ String close r2) end) in E.
    apply Forall_cons in Hok2 as [Hy _].
    pose proof (p_head y (match l2 with [] => String close r2
      | _ => String "," (join "," (map p l2) +:+ String close r2) end) Hy) as Hh.
    rewrite <- E in Hh. by rewrite close_head in Hh.
  - rewrite Hj in E. change (p x +:+ match l1 with [] => String close r1
      | _ => String "," (join "," (map p l1) +:+ String close r1) end = String close r2) in E.
    apply Forall_cons in Hok1 as [Hx _].
    pose proof (p_head x (match l1 with [] => String close r1
      | _ => String "," (join "," (map p l1) +:+ String close r1) end) Hx) as Hh.
    rewrite E in Hh. by rewrite close_head in Hh.
  - rewrite !Hj in E. apply Forall_cons in Hinj as [Hix Hinj], Hok1 as [Hx Hok1], Hok2 as [Hy Hok2].
    apply Hix in E as [-> E]; [|done|by destruct l1|by destruct l2].
    destruct l1 as [|x1 l1], l2 as [|y1 l2].
    + by injection E as ->.
    + by injection E.
    + by injection E.
    + injection E as E. destruct (IH (y1 :: l2) r1 r2) as [-> ->]; done.
Qed.
End separated.

Lemma print_inj v1 : forall v2 r1 r2,
  json_ok v1 = true -> json_ok v2 = true -> boundary r1 -> boundary r2 ->
  print v1 +:+ r1 = print v2 +:+ r2 -> v1 = v2 /\ r1 = r2.
Proof.
  induction v1 as [| |b|n|t|l IH|l IH] using jsval_rect'; intros v2 r1 r2 H1 H2 Hr1 Hr2 E;
    pose proof (print_head _ r1 H1) as [Hk1 _]; pose proof (print_head _ r2 H2) as [Hk2 _];
    rewrite E, Hk2 in Hk1; clear Hk2; simpl in Hk1.
  - done.
  - destruct v2 as [| |[]| | | |]; try done. simpl in E. by injection E as ->.
  - destruct b, v2 as [| |[]| | | |]; try done; simpl in E; by injection E as ->.
  - destruct v2 as [| |[]|n2| | |]; try done. by apply number_inj in E as [-> ->].
  - destruct v2 as [| |[]|n2|t2| |]; try done. by apply quote_inj in E as [-> ->].
  - destruct v2 as [| |[]|n2|t2|l2|]; try done. simpl in E. injection E as E.
    rewrite <- !string_app_assoc in E. simpl in E. simpl in H1, H2.
    apply forallb_Forall' in H1, H2.
    apply (separated_inj print json_ok) in E as [-> ->]; try done.
    + intros x r Hx. destruct (print_head x r Hx) as [-> ?]. done.
    + rewrite Forall_forall in *. intros x Hx y s1 s2 Hy. apply IH; auto.
  - destruct v2 as [| |[]|n2|t2|l2|l2]; try done. simpl in E. injection E as E.
    rewrite <- !string_app_assoc in E. simpl in E. simpl in H1, H2.
    apply forallb_Forall' in H1, H2.
    apply (separated_inj (fun e => quote e.1 +:+ ":" +:+ print e.2) (fun e => json_ok e.2)) in E
      as [-> ->]; try done.
    rewrite Forall_forall in *. intros [k x] Hx [k' y] s1 s2 Hy Hs1 Hs2 Eq. cbn [fst snd] in *.
    pose proof (IH _ Hx y s1 s2) as IHx. pose proof (H1 _ Hx) as Hok. cbn [fst snd] in *.
    rewrite <- !string_app_assoc in Eq. apply quote_inj in Eq as [-> Eq].
    injection Eq as Eq. by apply IHx in Eq as [-> ->].
Qed.

(* ---- key order and duplicates ---- *)

Lemma key_cmp_total {A} : cmp_total (@key_cmp A).
Proof. intros x y. apply str_cmp_total. Qed.
Lemma key_cmp_trans {A} : cmp_trans (@key_cmp A).
Proof. intros x y z. apply str_cmp_trans. Qed.

Lemma key_sort_unique {A} (l l' : list (string * A)) :
  NoDup l.*1 -> l ≡ₚ l' -> js_sort key_cmp l = js_sort key_cmp l'.
Proof.
  intros Hnd Hp. apply js_sort_unique; auto using key_cmp_total, key_cmp_trans.
  intros [k1 v1] [k2 v2] H1 H2 Hle1 Hle2.
  assert (k1 = k2) as <- by (by apply str_cmp_antisym).
  apply elem_omap_get in H1; [|done]. apply elem_omap_get in H2; [|done]. congruence.
Qed.

Lemma adjacent_duplicate_NoDup {A} (l : list (string * A)) :
  StronglySorted (cmp_le key_cmp) l -> (adjacent_duplicate l = false <-> NoDup l.*1).
Proof.
  induction 1 as [|x l Hl IH Hx]; [split; [constructor|done]|].
  destruct l as [|y l]; [split; [intros; apply NoDup_singleton|done]|].
  cbn [adjacent_duplicate]. rewrite orb_false_iff, IH, bool_decide_eq_false.
  change ((x :: y :: l).*1) with (x.1 :: (y :: l).*1). rewrite NoDup_cons.
  split; [|intros [Hn ?]; split; [|done]].
  - intros [Hxy Hnd]. split; [|done]. intros (z & Ez & Hz)%list_elem_of_fmap.
    apply StronglySorted_inv in Hl as [_ Hy]. rewrite Forall_forall in Hx, Hy.
    apply elem_of_cons in Hz as [->|Hz]; [done|]. apply Hxy. apply str_cmp_antisym.
    + specialize (Hy z Hz). unfold cmp_le, key_cmp in Hy. by rewrite Ez.
    + apply Hx. left.
  - intros E. apply Hn. rewrite <- E. left.
Qed.

Lemma sorted_adjacent {A} (l : list (string * A)) :
  adjacent_duplicate (js_sort key_cmp l) = false <-> NoDup l.*1.
Proof.
  rewrite adjacent_duplicate_NoDup.
  - by rewrite js_sort_Permutation.
  - apply js_sort_StronglySorted; auto using key_cmp_total, key_cmp_trans.
Qed.

Lemma written_keys fields :
  (map (fun e : string * jsval => (nfc e.1, writeValue e.2)) fields).*1 = fields.*1.
Proof. induction fields as [|[k v] l IH]; [done|]. by f_equal/=. Qed.

Lemma without_field_set key v fields :
  without_field key (omap_set fields key v) = without_field key fields.
Proof.
  unfold without_field. induction fields as [|[k w] l IH]; simpl.
  - rewrite filter_cons, decide_False by (simpl; tauto). done.
  - destruct (decide (key = k)) as [->|]; rewrite !filter_cons; simpl.
    + rewrite !decide_False by tauto. done.
    + rewrite !decide_True by congruence. by f_equal.
Qed.

(** Two objects with the same canonical value have the same field values. *)
Lemma canon_fields f g k :
  NoDup f.*1 -> NoDup g.*1 -> canon (JObj f) = canon (JObj g) ->
  canon <$> omap_get f k = canon <$> omap_get g k.
Proof.
  intros Hf Hg E. injection E as E. set (h := fun e : string * jsval => (e.1, canon e.2)) in *.
  assert (map h f ≡ₚ map h g) as Hp.
  { rewrite <- (js_sort_Permutation key_cmp (map h f)), E. apply js_sort_Permutation. }
  assert (forall l, omap_get (map h l) k = canon <$> omap_get l k) as Hget.
  { induction l as [|[k' v] l IH]; simpl; [done|]. by case_decide. }
  assert (forall l, (map h l).*1 = l.*1) as Hkeys.
  { induction l as [|e l IH]; [done|]. cbn. by f_equal. }
  rewrite <- !Hget. destruct (omap_get (map h f) k) as [v|] eqn:Ef.
  - symmetry. apply elem_omap_get; [by rewrite Hkeys|]. rewrite <- Hp. by apply omap_get_elem.
  - symmetry. apply omap_get_None. apply omap_get_None in Ef. by rewrite <- Hp.
Qed.

#[export] Instance strings_inj : Inj (=) (=) strings.
Proof.
  intros l l' E. injection E as E. revert l' E.
  induction l as [|x l IH]; intros [|y l'] E; simplify_eq/=; [done|]. f_equal. by apply IH.
Qed.

Lemma canon_strings l : canon (strings l) = strings l.
Proof. unfold strings; simpl. f_equal. rewrite map_map. by apply map_ext. Qed.

Lemma fmap_str_inj (o o' : option string) :
  canon <$> (JStr <$> o) = canon <$> (JStr <$> o') -> o = o'.
Proof. destruct o, o'; simpl; congruence. Qed.

(* ---- values that are written without an error ---- *)

Definition writes (v : jsval) : Prop := exists s, writeValue v = Ok s.

Lemma mapM_total {E A B} (f : A -> result E B) l :
  (forall x, x ∈ l -> exists y, f x = Ok y) -> exists k, mapM f l = Ok k.
Proof.
  induction l as [|x l IH]; intros Hl; [by exists []|].
  destruct (Hl x (list_elem_of_here _ _)) as [y Hy].
  destruct IH as [k Hk]; [intros; apply Hl; by right|]. exists (y :: k). by rewrite mapM_cons, Hy; simpl; rewrite Hk.
Qed.

Lemma writes_strings l : writes (strings l).
Proof.
  destruct (mapM_total writeValue (map JStr l)) as [k Hk].
  - intros v (s & -> & _)%(list_elem_of_fmap_1 JStr). by eexists.
  - unfold writes, strings. simpl. rewrite Hk. by eexists.
Qed.

Lemma writes_object fields :
  NoDup fields.*1 -> (forall e, e ∈ fields -> writes e.2) -> writes (JObj fields).
Proof.
  intros Hn Hv. unfold writes. simpl. unfold write_entries.
  set (w := map (fun e : string * jsval => (nfc e.1, writeValue e.2)) fields).
  rewrite (proj2 (sorted_adjacent w)) by (unfold w; by rewrite written_keys).
  destruct (mapM_total (fun e : string * result canonical_error string => v ← e.2; Ok (quote e.1 +:+ ":" +:+ v))
    (js_sort key_cmp w)) as [k ->]; [|by eexists].
  intros e He. rewrite elem_of_js_sort in He. unfold w in He. apply list_elem_of_fmap in He as (f & -> & Hf). destruct (Hv f Hf) as [s Hs].
  simpl. rewrite Hs. by eexists.
Qed.

(* ---- digests determine the value ---- *)

Definition hash_collision `{Hash} : Prop := exists s1 s2, s1 <> s2 /\ sha256 s1 = sha256 s2.

Lemma canonical_text_inj v1 v2 s :
  literals_ok v1 = true -> literals_ok v2 = true ->
  canonicalizeJson v1 = Ok s -> canonicalizeJson v2 = Ok s -> canon v1 = canon v2.
Proof.
  intros L1 L2 H1 H2. destruct (writeValue_print _ _ L1 H1) as [P1 O1].
  destruct (writeValue_print _ _ L2 H2) as [P2 O2]. rewrite P1 in P2.
  apply (print_inj _ _ "" ""); try done. by rewrite !string_app_nil_r.
Qed.

Lemma contentDigest_inj `{Hash} v1 v2 d :
  literals_ok v1 = true -> literals_ok v2 = true ->
  contentDigest v1 = Ok d -> contentDigest v2 = Ok d -> canon v1 = canon v2 \/ hash_collision.
Proof.
  unfold contentDigest. intros L1 L2 D1 D2.
  destruct (canonicalizeJson v1) as [s1|] eqn:E1; [|done].
  destruct (canonicalizeJson v2) as [s2|] eqn:E2; [|done]. simpl in *.
  destruct (decide (s1 = s2)) as [<-|Hs]; [left|right].
  - by eapply canonical_text_inj.
  - exists s1, s2. split; [done|congruence].
Qed.

Lemma literals_without_field key f :
  literals_ok (JObj f) = true -> literals_ok (JObj (without_field key f)) = true.
Proof.
  simpl. rewrite !forallb_Forall', !Forall_forall. unfold without_field.
  intros Hf e [_ He]%list_elem_of_filter. by apply Hf.
Qed.

Lemma verify_digest `{Hash} f d :
  verifyRecordEnvelope f = true -> jfield f RECORD_DIGEST_FIELD = JStr d ->
  contentDigest (JObj (without_field RECORD_DIGEST_FIELD f)) = Ok d.
Proof.
  intros Hf Hd. unfold verifyRecordEnvelope in Hf. rewrite Hd in Hf.
  destruct (jfield f "protocol_version"), (jfield f "record_kind"); try done.
  apply andb_true_iff in Hf as [_ Hf]. by apply bool_decide_eq_true in Hf.
Qed.

(* ------------------------------------------------------------------ *)
(** ** Properties *)

(** C39. Canonical JSON identifies exactly the values that differ in the order of
    object fields only: two values serialize to the same text if and only if
    they are equal once every object's fields are sorted. *)
Theorem canonicalize_iff v1 v2 s1 s2 :
  literals_ok v1 = true -> literals_ok v2 = true ->
  canonicalizeJson v1 = Ok s1 -> canonicalizeJson v2 = Ok s2 ->
  (s1 = s2 <-> canon v1 = canon v2).
Proof.
  intros L1 L2 H1 H2. split.
  - intros <-. by eapply canonical_text_inj.
  - destruct (writeValue_print _ _ L1 H1) as [-> _], (writeValue_print _ _ L2 H2) as [-> _].
    by intros ->.
Qed.

Lemma canonicalize_iff_witness :
  let v1 := JObj [("b", JNum (NInt 2)); ("a", JArr [JNull; JStr "x"])] in
  let v2 := JObj [("a", JArr [JNull; JStr "x"]); ("b", JNum (NInt 2))] in
  canonicalizeJson v1 = canonicalizeJson v2 /\ canon v1 = canon v2.
Proof.
  intros v1 v2. split; [vm_compute; reflexivity|].
  destruct (canonicalizeJson v1) as [s1|] eqn:E1; [|vm_compute in E1; discriminate].
  destruct (canonicalizeJson v2) as [s2|] eqn:E2; [|vm_compute in E2; discriminate].
  apply (canonicalize_iff v1 v2 s1 s2 eq_refl eq_refl E1 E2).
  vm_compute in E1, E2. congruence.
Defined.

(** The order in which an object lists its fields never shows in its
    canonical text, errors included, and a field listed twice is refused. *)
Theorem canonicalize_fields fields :
  (NoDup fields.*1 -> forall fields', fields ≡ₚ fields' ->
     canonicalizeJson (JObj fields) = canonicalizeJson (JObj fields')) /\
  (~ NoDup fields.*1 -> canonicalizeJson (JObj fields) = Err duplicate_key).
Proof.
  unfold canonicalizeJson; simpl; unfold write_entries. split.
  - intros Hnd fields' Hp. set (w := fun e : string * jsval => (nfc e.1, writeValue e.2)).
    rewrite (key_sort_unique (map w fields) (map w fields')); [done| |].
    + unfold w. by rewrite written_keys.
    + by apply Permutation_map.
  - intros Hnd. destruct (adjacent_duplicate _) eqn:E; [done|].
    apply sorted_adjacent in E. by rewrite written_keys in E.
Qed.

Lemma canonicalize_fields_witness :
  canonicalizeJson (JObj [("k", JNull); ("k", JUndefined)]) = Err duplicate_key.
Proof.
  apply canonicalize_fields. intros H. apply NoDup_cons in H as [H _]. apply H. left.
Defined.

(** Sealing a record of a known protocol version and a well-formed kind
    yields a record that verifies, provided the hash prints 64 hex digits. *)
Theorem sealed_record_verifies `{Hash} fields sealed version kind :
  (forall s, re_match digest_regex (sha256 s) = true) ->
  jfield fields "protocol_version" = JStr version -> isKnownProtocol version = true ->
  jfield fields "record_kind" = JStr kind -> re_match RECORD_KIND_REGEX kind = true ->
  sealRecordEnvelope fields = Ok sealed ->
  verifyRecordEnvelope sealed = true /\ exists d, jfield sealed RECORD_DIGEST_FIELD = JStr d.
Proof.
  intros Hhex Hv Hkv Hk Hkk Hs. unfold sealRecordEnvelope in Hs. inv_result.
  unfold verifyRecordEnvelope, jfield in *.
  rewrite !(omap_get_set_ne fields RECORD_DIGEST_FIELD), omap_get_set_eq, Hv, Hk by discriminate.
  simpl. rewrite Hkv, Hkk; simpl. split; [|eauto].
  assert (re_match digest_regex a = true) as ->.
  { unfold recordDigestOf, contentDigest in E. inv_result. apply Hhex. }
  simpl. apply bool_decide_eq_true. unfold recordDigestOf in *. by rewrite without_field_set.
Qed.

Definition zero_hash : Hash :=
  {| sha256 := fun _ => "0000000000000000000000000000000000000000000000000000000000000000" |}.

Lemma sealed_record_verifies_witness :
  let fields := [("protocol_version", JStr "1.3.0"); ("record_kind", JStr "task_lease")] in
  exists sealed, @sealRecordEnvelope zero_hash fields = Ok sealed /\
    @verifyRecordEnvelope zero_hash sealed = true.
Proof.
  intros fields. destruct (@sealRecordEnvelope zero_hash fields) as [sealed|] eqn:E.
  - exists sealed. split; [reflexivity|].
    apply (@sealed_record_verifies zero_hash fields sealed "1.3.0" "task_lease");
      [intros s; vm_compute; reflexivity | vm_compute; reflexivity .. | exact E].
  - vm_compute in E. discriminate.
Defined.

(** Two verifying records that carry the same digest have the same content,
    up to field order, or exhibit a collision of the hash. *)
Theorem verified_records_agree `{Hash} f1 f2 d :
  literals_ok (JObj f1) = true -> literals_ok (JObj f2) = true ->
  verifyRecordEnvelope f1 = true -> verifyRecordEnvelope f2 = true ->
  jfield f1 RECORD_DIGEST_FIELD = JStr d -> jfield f2 RECORD_DIGEST_FIELD = JStr d ->
  canon (JObj (without_field RECORD_DIGEST_FIELD f1)) =
    canon (JObj (without_field RECORD_DIGEST_FIELD f2)) \/
  hash_collision.
Proof.
  intros L1 L2 V1 V2 D1 D2.
  eapply contentDigest_inj; eauto using literals_without_field, verify_digest.
Qed.

Lemma verified_records_agree_witness :
  let z := "0000000000000000000000000000000000000000000000000000000000000000" in
  let f := [("protocol_version", JStr "1.3.0"); ("record_kind", JStr "task_lease");
            ("record_digest", JStr z)] in
  @verifyRecordEnvelope zero_hash f = true /\
  (canon (JObj (without_field RECORD_DIGEST_FIELD f)) =
     canon (JObj (without_field RECORD_DIGEST_FIELD f)) \/
   @hash_collision zero_hash).
Proof.
  intros z f. split; [vm_compute; reflexivity|].
  apply (@verified_records_agree zero_hash f f z); vm_compute; reflexivity.
Defined.
