(* ===== verification/Task.v ===== *)
(** * Task specifications

    [packages/runtime/src/planning/task.ts] and the claim normalisation of
    [planning/validator.ts]: the declarative unit of work of a plan, its
    independent-value signature, its semantic digest, and the canonical forms
    of write paths and exclusive resource keys. The file system and
    [node:path] are a parameter ([FileSystem]), and so is the collation
    behind [localeCompare] ([Collation]). *)

From S2P Require Import Prelude Regex Locator Json.

Inductive TaskRisk : Type := low | medium | high | critical.
Definition TASK_RISKS : list TaskRisk := [low; medium; high; critical].
#[export] Instance TaskRisk_eq_dec : EqDecision TaskRisk.
Proof. solve_decision. Defined.

Definition risk_name (r : TaskRisk) : string :=
  match r with low => "low" | medium => "medium" | high => "high" | critical => "critical" end.

Record LegacyTaskBudget : Type := TaskBudget
  { steps : Z; tokens : Z; duration_ms : option number }.

Record TaskAcceptanceCriterion : Type := Criterion
  { description : string; verification : string }.

Inductive AssertionKind : Type := criterion_assertion | task_internal_assertion.

Definition assertion_kind_name (k : AssertionKind) : string :=
  match k with
  | criterion_assertion => "criterion_assertion"
  | task_internal_assertion => "task_internal_assertion"
  end.

Record TaskAcceptanceAssertion : Type := Assertion
  { assertion_id : string;
    assertion_kind : option AssertionKind;
    acceptance_criterion_id : option string;
    criterion_semantic_digest : option string;
    test_ids : list string;
    required_gate_ids : list string;
    evidence_requirements : list string }.

Record TaskSpecification : Type := Task
  { id : string;
    objective : string;
    impact_paths : list (list string);
    expected_outputs : list string;
    capabilities : list string;
    tools : list string;
    dependencies : list string;
    risk : TaskRisk;
    budget : LegacyTaskBudget;
    write_paths : option (list string);
    exclusive_resources : option (list string);
    acceptance : list TaskAcceptanceCriterion;
    assertions : option (list TaskAcceptanceAssertion);
    required_gates : list string }.

#[export] Instance AssertionKind_eq_dec : EqDecision AssertionKind.
Proof. solve_decision. Defined.
#[export] Instance number_eq_dec : EqDecision number.
Proof. solve_decision. Defined.
#[export] Instance TaskBudget_eq_dec : EqDecision LegacyTaskBudget.
Proof. solve_decision. Defined.
#[export] Instance Criterion_eq_dec : EqDecision TaskAcceptanceCriterion.
Proof. solve_decision. Defined.
#[export] Instance Assertion_eq_dec : EqDecision TaskAcceptanceAssertion.
Proof. solve_decision. Defined.
#[export] Instance Task_eq_dec : EqDecision TaskSpecification.
Proof. solve_decision. Defined.
(** ** Errors of planning *)

Inductive PlanningErrorKind : Type :=
| invalid_specification | embedded_command | unknown_tool | capability_expansion
| unknown_gate | missing_gate | dependency_cycle | no_independent_value
| atomic_acceptance_required | uncovered_test | task_too_large | dag_limit_exceeded
| wave_drift | plan_projection_drift.

#[export] Instance PlanningErrorKind_eq_dec : EqDecision PlanningErrorKind.
Proof. solve_decision. Defined.

(** [FsError] is an exception of [node:fs] that the code lets through,
    [UncaughtTypeError] an access to a missing value. *)
Inductive planning_error : Type :=
| PlanningError (kind : PlanningErrorKind)
| FsError
| UncaughtTypeError.
#[export] Instance planning_error_eq_dec : EqDecision planning_error.
Proof. solve_decision. Defined.

(** ** Value signature and digest *)

(** [toLowerCase] on the code units below U+0100. *)
Definition lower_char (a : ascii) : ascii :=
  let n := code a in
  if ((65 <=? n) && (n <=? 90) || (192 <=? n) && (n <=? 222) && negb (n =? 215))%N
  then ascii_of_N (n + 32) else a.
Fixpoint toLowerCase (s : string) : string :=
  match s with EmptyString => "" | String a s' => String (lower_char a) (toLowerCase s') end.


(** [print] is [JSON.stringify] on values without undefined parts. *)
Definition independentValueSignature (spec : TaskSpecification) : string :=
  print (JObj [("objective", JStr (toLowerCase (trim (objective spec))));
               ("expected_outputs", strings (sort_strings (expected_outputs spec)))]).

Definition hasIndependentValue (spec : TaskSpecification) : bool :=
  negb (bool_decide (trim (objective spec) = "")) &&
  negb (bool_decide (expected_outputs spec = [])) &&
  negb (bool_decide (length (acceptance spec) = 0)).

(** [String.prototype.localeCompare]: ECMA-402 asks for a consistent
    comparator. Distinct strings may compare equal. *)
Class Collation : Type :=
  { localeCompare : string -> string -> Z;
    localeCompare_flip : cmp_flip localeCompare;
    localeCompare_trans : cmp_trans localeCompare }.

Lemma localeCompare_total `{Collation} : cmp_total localeCompare.
Proof. apply cmp_flip_total, localeCompare_flip. Qed.

(** [.sort((l, r) => JSON.stringify(l).localeCompare(JSON.stringify(r)))] *)
Definition json_cmp `{Collation} (x y : jsval) : Z := localeCompare (print x) (print y).

Definition opt_field {A} (key : string) (f : A -> jsval) (o : option A) : list (string * jsval) :=
  match o with Some a => [(key, f a)] | None => [] end.

Definition sortedStrings (l : list string) : jsval := strings (sort_strings l).
#[global] Arguments sortedStrings : simpl never.

Definition assertion_fields (a : TaskAcceptanceAssertion) : list (string * jsval) :=
  [("assertion_id", JStr (assertion_id a))] ++
  opt_field "assertion_kind" (fun k => JStr (assertion_kind_name k)) (assertion_kind a) ++
  opt_field "acceptance_criterion_id" JStr (acceptance_criterion_id a) ++
  opt_field "criterion_semantic_digest" JStr (criterion_semantic_digest a) ++
  [("test_ids", sortedStrings (test_ids a));
   ("required_gate_ids", sortedStrings (required_gate_ids a));
   ("evidence_requirements", sortedStrings (evidence_requirements a))].

Definition assertion_json (a : TaskAcceptanceAssertion) : jsval := JObj (assertion_fields a).

Definition budget_fields (b : LegacyTaskBudget) : list (string * jsval) :=
  [("steps", JNum (NInt (steps b))); ("tokens", JNum (NInt (tokens b)))] ++
  opt_field "duration_ms" JNum (duration_ms b).

(** The object [taskSemanticDigest] hashes. *)
Definition semantic_fields `{Collation} (spec : TaskSpecification) : list (string * jsval) :=
  [("objective", JStr (objective spec));
        ("expected_outputs", sortedStrings (expected_outputs spec));
        ("impact_paths", JArr (js_sort json_cmp (map strings (impact_paths spec))));
        ("dependencies", sortedStrings (dependencies spec));
        ("write_paths", sortedStrings (default [] (write_paths spec)));
        ("exclusive_resources", sortedStrings (default [] (exclusive_resources spec)));
        ("budget", JObj (budget_fields (budget spec)));
        ("capabilities", sortedStrings (capabilities spec));
        ("tools", sortedStrings (tools spec));
        ("risk", JStr (risk_name (risk spec)));
        ("assertions", JArr (js_sort json_cmp (map assertion_json (default [] (assertions spec)))));
        ("required_gates", sortedStrings (required_gates spec))].

Definition taskSemanticDigest `{Collation, Hash} (spec : TaskSpecification) :
  result canonical_error string :=
  contentDigest (JObj (semantic_fields spec)).

(** ** Resource claims *)

Definition resource_word : re :=
  RCat (RCls (fun a => is_lower a || is_digit a))
       (RStar (RCls (fun a => is_lower a || is_digit a || bool_decide (a = "-"%char)))).

(** [RESOURCE_KEY_PATTERN]: words joined by colons. *)
Definition RESOURCE_KEY_REGEX : re :=
  RCat resource_word (RStar (RCat (RChr ":") resource_word)).

Definition normalizeExclusiveResourceKey (input : string) : result planning_error string :=
  let normalized := nfc input in
  if negb (bool_decide (normalized = input)) || negb (re_match RESOURCE_KEY_REGEX normalized)
  then Err (PlanningError invalid_specification)
  else Ok normalized.

(** [node:fs] and [node:path] on a POSIX system. [realpathSync] throws on a
    path that does not exist; [resolve] answers an absolute path; [dirname]
    of an absolute path is absolute and shorter, or the path itself at the
    root of the file system. *)
Class FileSystem : Type :=
  { realpathSync : string -> option string;
    existsSync : string -> bool;
    resolve : string -> string -> string;
    dirname : string -> string;
    resolve_absolute : forall root p, starts_with (resolve root p) "/" = true;
    dirname_absolute : forall p, starts_with p "/" = true -> starts_with (dirname p) "/" = true;
    dirname_shorter : forall p, starts_with p "/" = true ->
      dirname p = p \/ String.length (dirname p) < String.length p }.

Section claims.
Context `{FileSystem}.

(** [while (!existsSync(probe)) { ... }], [None] when no ancestor exists. *)
Fixpoint existing_ancestor (fuel : nat) (probe : string) : option string :=
  if existsSync probe then Some probe
  else
    let parent := dirname probe in
    if bool_decide (parent = probe) then None
    else match fuel with S fuel' => existing_ancestor fuel' parent | 0 => None end.

Definition FORBIDDEN_WRITE_SEGMENTS : list string := [".git"].
Definition FORBIDDEN_WRITE_ROOTS : list string := [".harness"].

(** The symlink check, for a given repository root. *)
Definition check_boundary (repositoryRoot normalized : string) : result planning_error unit :=
  match realpathSync repositoryRoot with
  | None => Err (PlanningError invalid_specification)
  | Some rootReal =>
      let candidate := resolve rootReal normalized in
      match existing_ancestor (String.length candidate) candidate with
      | None => Err (PlanningError invalid_specification)
      | Some probe =>
          match realpathSync probe with
          | None => Err FsError
          | Some probeReal =>
              reject_if (negb (bool_decide (probeReal = rootReal)) &&
                         negb (starts_with probeReal (rootReal +:+ "/")))
                        (PlanningError invalid_specification)
          end
      end
  end.

Definition normalizeTaskWritePath (input : string) (repositoryRoot : option string) :
  result planning_error string :=
  normalized ← map_err (fun _ => PlanningError invalid_specification) (normalizeLocatorPath input);
  _ ← reject_if (negb (bool_decide (normalized = input))) (PlanningError invalid_specification);
  let segments := split_on "/" normalized in
  _ ← reject_if (existsb (fun s => mem s FORBIDDEN_WRITE_SEGMENTS) segments)
        (PlanningError invalid_specification);
  _ ← reject_if (mem (hd "" segments) FORBIDDEN_WRITE_ROOTS)
        (PlanningError invalid_specification);
  _ ← match repositoryRoot with
      | Some root => check_boundary root normalized
      | None => Ok tt
      end;
  Ok normalized.
End claims.

(** An assertion on types: the task itself is returned unchanged. *)
Definition assertProtocol13TaskSpecification (task : TaskSpecification) :
  result planning_error unit :=
  _ ← match duration_ms (budget task) with
      | Some (NInt d) => reject_if (d <? 1)%Z (PlanningError invalid_specification)
      | _ => Err (PlanningError invalid_specification)
      end;
  match write_paths task, exclusive_resources task with
  | Some _, Some _ => Ok tt
  | _, _ => Err (PlanningError invalid_specification)
  end.

(* ------------------------------------------------------------------ *)
(** ** Lemmas on the digested content *)

(** Agreement up to the order of the arrays. Identity, acceptance prose and
    the difference between an absent and an empty claim list stay out. *)
Definition assertion_same (a b : TaskAcceptanceAssertion) : Prop :=
  assertion_id a = assertion_id b /\ assertion_kind a = assertion_kind b /\
  acceptance_criterion_id a = acceptance_criterion_id b /\
  criterion_semantic_digest a = criterion_semantic_digest b /\
  test_ids a ≡ₚ test_ids b /\ required_gate_ids a ≡ₚ required_gate_ids b /\
  evidence_requirements a ≡ₚ evidence_requirements b.

Definition assertions_same (l l' : list TaskAcceptanceAssertion) : Prop :=
  exists m, l' ≡ₚ m /\ Forall2 assertion_same l m.

Definition task_same (s s' : TaskSpecification) : Prop :=
  objective s = objective s' /\ risk s = risk s' /\ budget s = budget s' /\
  expected_outputs s ≡ₚ expected_outputs s' /\ impact_paths s ≡ₚ impact_paths s' /\
  dependencies s ≡ₚ dependencies s' /\ capabilities s ≡ₚ capabilities s' /\
  tools s ≡ₚ tools s' /\ required_gates s ≡ₚ required_gates s' /\
  default [] (write_paths s) ≡ₚ default [] (write_paths s') /\
  default [] (exclusive_resources s) ≡ₚ default [] (exclusive_resources s') /\
  assertions_same (default [] (assertions s)) (default [] (assertions s')).

(** The collation tells the elements of [l] apart. *)
Definition collation_separates `{Collation} (l : list jsval) : Prop :=
  forall x y, x ∈ l -> y ∈ l -> (json_cmp x y <= 0)%Z -> (json_cmp y x <= 0)%Z -> x = y.


Lemma sortedStrings_Permutation l l' : sortedStrings l = sortedStrings l' <-> l ≡ₚ l'.
Proof.
  unfold sortedStrings. split; [|by intros ->%sort_strings_unique].
  intros E%(inj strings). rewrite <- (sort_strings_Permutation l), E. apply sort_strings_Permutation.
Qed.

Section json_sort.
Context `{Collation}.

Lemma json_cmp_total : cmp_total json_cmp.
Proof. intros x y. apply localeCompare_total. Qed.
Lemma json_cmp_trans : cmp_trans json_cmp.
Proof. intros x y z. apply localeCompare_trans. Qed.

Lemma json_sort_unique l l' :
  collation_separates l -> l ≡ₚ l' -> js_sort json_cmp l = js_sort json_cmp l'.
Proof. intros Hs Hp. apply js_sort_unique; auto using json_cmp_total, json_cmp_trans. Qed.

Lemma separates_pair x y : json_cmp x y <> 0%Z -> json_cmp y x = (- json_cmp x y)%Z ->
  collation_separates [x; y].
Proof.
  intros Hne Ho a b Ha Hb. rewrite !elem_of_cons in Ha, Hb.
  destruct Ha as [->|[->|Ha%elem_of_nil]], Hb as [->|[->|Hb%elem_of_nil]]; try done; lia.
Qed.
End json_sort.

Lemma assertion_same_json a b : assertion_same a b -> assertion_json a = assertion_json b.
Proof.
  intros (E1 & E2 & E3 & E4 & H1 & H2 & H3). unfold assertion_json, assertion_fields.
  apply sortedStrings_Permutation in H1, H2, H3. by rewrite E1, E2, E3, E4, H1, H2, H3.
Qed.

Lemma assertion_get a :
  NoDup (assertion_fields a).*1 /\
  omap_get (assertion_fields a) "assertion_id" = Some (JStr (assertion_id a)) /\
  omap_get (assertion_fields a) "assertion_kind" =
    (fun k => JStr (assertion_kind_name k)) <$> assertion_kind a /\
  omap_get (assertion_fields a) "acceptance_criterion_id" =
    JStr <$> acceptance_criterion_id a /\
  omap_get (assertion_fields a) "criterion_semantic_digest" =
    JStr <$> criterion_semantic_digest a /\
  omap_get (assertion_fields a) "test_ids" = Some (sortedStrings (test_ids a)) /\
  omap_get (assertion_fields a) "required_gate_ids" = Some (sortedStrings (required_gate_ids a)) /\
  omap_get (assertion_fields a) "evidence_requirements" =
    Some (sortedStrings (evidence_requirements a)).
Proof.
  destruct a as [i k c d t g e].
  split; [apply has_duplicates_NoDup; by destruct k, c, d | by destruct k, c, d].
Qed.

Lemma budget_get b :
  NoDup (budget_fields b).*1 /\
  omap_get (budget_fields b) "steps" = Some (JNum (NInt (steps b))) /\
  omap_get (budget_fields b) "tokens" = Some (JNum (NInt (tokens b))) /\
  omap_get (budget_fields b) "duration_ms" = JNum <$> duration_ms b.
Proof.
  destruct b as [s t d].
  split; [apply has_duplicates_NoDup; by destruct d | by destruct d].
Qed.

Lemma sortedStrings_canon l l' :
  canon <$> Some (sortedStrings l) = canon <$> Some (sortedStrings l') -> l ≡ₚ l'.
Proof.
  intros E. apply sortedStrings_Permutation. unfold sortedStrings in *.
  rewrite <- (canon_strings (sort_strings l)), <- (canon_strings (sort_strings l')).
  by apply (inj Some) in E.
Qed.

Lemma assertion_json_same a b :
  canon (assertion_json a) = canon (assertion_json b) -> assertion_same a b.
Proof.
  intros E. destruct (assertion_get a) as (Na & A1 & A2 & A3 & A4 & A5 & A6 & A7).
  destruct (assertion_get b) as (Nb & B1 & B2 & B3 & B4 & B5 & B6 & B7).
  pose proof (fun k => canon_fields _ _ k Na Nb E) as F. unfold assertion_same.
  split; [|split; [|split; [|split; [|split; [|split]]]]].
  - specialize (F "assertion_id"). rewrite A1, B1 in F. by injection F.
  - specialize (F "assertion_kind"). rewrite A2, B2 in F.
    by destruct (assertion_kind a) as [[]|], (assertion_kind b) as [[]|].
  - specialize (F "acceptance_criterion_id"). rewrite A3, B3 in F. by apply fmap_str_inj.
  - specialize (F "criterion_semantic_digest"). rewrite A4, B4 in F. by apply fmap_str_inj.
  - specialize (F "test_ids"). rewrite A5, B5 in F. by apply sortedStrings_canon.
  - specialize (F "required_gate_ids"). rewrite A6, B6 in F. by apply sortedStrings_canon.
  - specialize (F "evidence_requirements"). rewrite A7, B7 in F. by apply sortedStrings_canon.
Qed.

Lemma budget_json_same b b' :
  canon (JObj (budget_fields b)) = canon (JObj (budget_fields b')) -> b = b'.
Proof.
  intros E. destruct (budget_get b) as (N1 & A1 & A2 & A3), (budget_get b') as (N2 & B1 & B2 & B3).
  pose proof (fun k => canon_fields _ _ k N1 N2 E) as F.
  pose proof (F "steps") as F1. pose proof (F "tokens") as F2. pose proof (F "duration_ms") as F3.
  rewrite A1, B1 in F1. rewrite A2, B2 in F2. rewrite A3, B3 in F3.
  destruct b as [s t d], b' as [s' t' d']. simpl in *. simplify_eq.
  f_equal. destruct d, d'; simpl in *; congruence.
Qed.

(** A list sorted by its text, up to canonical values. *)
Lemma json_sort_inv `{Collation} {A} (g : A -> jsval) (R : A -> A -> Prop) l l' :
  (forall x y, canon (g x) = canon (g y) -> R x y) ->
  canon <$> Some (JArr (js_sort json_cmp (map g l))) =
    canon <$> Some (JArr (js_sort json_cmp (map g l'))) ->
  exists m, l' ≡ₚ m /\ Forall2 R l m.
Proof.
  intros HR E. simpl in E. injection E as E.
  assert (map (canon ∘ g) l ≡ₚ map (canon ∘ g) l') as Hp.
  { rewrite <- !(map_map g canon), <- (js_sort_Permutation json_cmp (map g l)), E.
    by rewrite js_sort_Permutation. }
  apply Permutation_map_inv in Hp as (m & Em & Hm). exists m. split; [done|]. clear Hm E.
  revert m Em. induction l as [|x l IH]; intros [|y m] Em; simplify_eq/=; constructor; auto.
Qed.

Lemma assertions_same_json l l' :
  assertions_same l l' -> map assertion_json l ≡ₚ map assertion_json l'.
Proof.
  intros (m & Hp & HF). rewrite Hp. clear Hp. induction HF as [|x y l m Hxy _ IH]; simpl; [done|].
  by rewrite (assertion_same_json _ _ Hxy), IH.
Qed.

Lemma literals_strs l : forallb literals_ok (map JStr l) = true.
Proof. induction l; done. Qed.

Lemma literals_sorted `{Collation} {A} (g : A -> jsval) l :
  (forall x, literals_ok (g x) = true) -> forallb literals_ok (js_sort json_cmp (map g l)) = true.
Proof.
  intros Hg. apply forallb_Forall'. rewrite js_sort_Permutation.
  by apply Forall_fmap, Forall_true.
Qed.

Lemma semantic_literals `{Collation} s :
  literals_ok (JObj (budget_fields (budget s))) = true ->
  literals_ok (JObj (semantic_fields s)) = true.
Proof.
  intros Hb. simpl in Hb. simpl. rewrite !literals_strs, Hb, !literals_sorted; [done|..].
  - intros [i [k|] [c|] [d|] t g e]; simpl; by rewrite !literals_strs.
  - intros x. apply literals_strs.
Qed.

Definition set_impact_paths (s : TaskSpecification) (paths : list (list string)) : TaskSpecification :=
  Task (id s) (objective s) paths (expected_outputs s) (capabilities s) (tools s) (dependencies s)
    (risk s) (budget s) (write_paths s) (exclusive_resources s) (acceptance s) (assertions s)
    (required_gates s).

(** ** Lemmas on claims *)

Lemma resource_word_no_colon s : re_match resource_word s = true -> no_char ":" s = true.
Proof. intros H. eapply re_all_forallb; [|exact H]. repeat split; all_chars. Qed.

Lemma resource_tail_split s :
  re_lang (RStar (RCat (RChr ":") resource_word)) s ->
  s = "" \/ exists t, s = String ":" t /\
    Forall (fun w => re_match resource_word w = true) (split_on ":" t).
Proof.
  intros H. remember (RStar _) as r eqn:Er. induction H; simplify_eq; [by left|right].
  apply re_cat_inv in H as (c & w & -> & Hc & Hw). inversion Hc as [|p a Ha| | | | |]; subst.
  apply bool_decide_eq_true in Ha as ->. apply re_match_spec in Hw.
  pose proof (resource_word_no_colon w Hw) as Hn. exists (w +:+ s2). split; [done|].
  destruct IHre_lang2 as [->|(t & -> & Ht)]; [done| |].
  - rewrite string_app_nil_r, split_on_no_char by done. by repeat constructor.
  - rewrite split_on_app by done. by constructor.
Qed.

Lemma resource_tail_join ws :
  Forall (fun w => re_match resource_word w = true) ws -> ws <> [] ->
  re_lang (RStar (RCat (RChr ":") resource_word)) (String ":" (join ":" ws)).
Proof.
  induction 1 as [|w ws Hw Hws IH]; [done|]. intros _. apply re_match_spec in Hw.
  assert (re_lang (RCat (RChr ":") resource_word) (String ":" w)) as Hc.
  { apply (lang_cat _ _ (String ":" "") w); [|done]. constructor. by apply bool_decide_eq_true. }
  destruct ws as [|w' ws]; cbn [join].
  - rewrite <- (string_app_nil_r (String ":" w)). constructor; [done|constructor].
  - apply (lang_star_cons _ (String ":" w)); [done | by apply IH].
Qed.

(** The ancestors of a path, the path first. *)
Definition nth_parent `{FileSystem} (n : nat) (p : string) : string := Nat.iter n dirname p.

Lemma existing_ancestor_Some `{FileSystem} fuel p q :
  existing_ancestor fuel p = Some q ->
  existsSync q = true /\ exists n, q = nth_parent n p /\
    forall m, (m < n)%nat -> existsSync (nth_parent m p) = false.
Proof.
  revert p; induction fuel as [|fuel IH]; intros p; simpl; destruct (existsSync p) eqn:Ep.
  1,3: intros [= <-]; split; [done|]; exists 0%nat; split; [done|lia].
  1: by case_bool_decide.
  case_bool_decide; [done|]. intros (Hq & n & -> & Hn)%IH. split; [done|].
  exists (S n). unfold nth_parent in *. split; [by rewrite Nat.iter_succ_r|].
  intros [|m] Hm; [done|]. rewrite Nat.iter_succ_r. apply Hn. lia.
Qed.

(** The fuel is enough: [None] means that the walk met the root of the file
    system without finding an existing path. *)
Lemma existing_ancestor_None `{FileSystem} fuel p :
  starts_with p "/" = true -> (String.length p <= fuel)%nat -> existing_ancestor fuel p = None ->
  forall n, existsSync (nth_parent n p) = false.
Proof.
  revert p; induction fuel as [|fuel IH]; intros p Ha Hl; simpl; destruct (existsSync p) eqn:Ep; try done;
    case_bool_decide as Hd; intros Hr n.
  1,3: enough (nth_parent n p = p) as -> by done; unfold nth_parent;
    induction n as [|n IHn]; [done|]; by rewrite Nat.iter_succ, IHn.
  - destruct (dirname_shorter p Ha) as [?|?]; [done|lia].
  - destruct n as [|n]; [done|]. unfold nth_parent. rewrite Nat.iter_succ_r.
    apply IH; [by apply dirname_absolute| |done].
    destruct (dirname_shorter p Ha) as [?|?]; [done|lia].
Qed.

(** What the symlink check establishes. *)
Definition within_repository `{FileSystem} (root path : string) : Prop :=
  exists real n probe,
    realpathSync root = Some real /\
    let ancestor := nth_parent n (resolve real path) in
    existsSync ancestor = true /\
    (forall m, (m < n)%nat -> existsSync (nth_parent m (resolve real path)) = false) /\
    realpathSync ancestor = Some probe /\
    (probe = real \/ starts_with probe (real +:+ "/") = true).

Lemma check_boundary_Ok `{FileSystem} root path u :
  check_boundary root path = Ok u <-> within_repository root path.
Proof.
  destruct u. unfold check_boundary, within_repository. destruct (realpathSync root) as [real|].
  2: { split; [done|]. by intros (? & ? & ? & ? & _). }
  set (c := resolve real path).
  destruct (existing_ancestor (String.length c) c) as [q|] eqn:E.
  - apply existing_ancestor_Some in E as (Hq & n & -> & Hn). split.
    + destruct (realpathSync (nth_parent n c)) as [probe|] eqn:Er; [|done].
      intros Hb%reject_if_Ok. exists real, n, probe. do 4 (split; [done|]).
      apply andb_false_iff in Hb as [Hb|Hb]; bool_hyps; auto.
    + intros (real' & n' & probe & [= <-] & Hq' & Hn' & Er & Hr).
      assert (n = n') as <-.
      { destruct (Nat.lt_trichotomy n n') as [Hl|[?|Hl]]; [|done|].
        - rewrite Hn' in Hq; done.
        - rewrite Hn in Hq'; done. }
      fold c in Er. rewrite Er. apply reject_if_Ok.
      destruct Hr as [->| ->]; [by rewrite bool_decide_true | by rewrite andb_false_r].
  - split; [done|]. intros (real' & n & probe & [= <-] & Hq & _). fold c in Hq.
    by rewrite (existing_ancestor_None _ _ (resolve_absolute _ _) (le_n _) E) in Hq.
Qed.

Lemma resource_key_same input k : normalizeExclusiveResourceKey input = Ok k -> k = input.
Proof. unfold normalizeExclusiveResourceKey, nfc. destruct (_ || _); [done|]. by intros [= <-]. Qed.

Lemma write_path_parts `{FileSystem} input root p :
  normalizeTaskWritePath input root = Ok p <->
  p = input /\ canonical_path input /\ (".git" ∉ split_on "/" input) /\
  hd "" (split_on "/" input) <> ".harness" /\
  (forall r, root = Some r -> within_repository r input).
Proof.
  unfold normalizeTaskWritePath. rewrite bind_Ok. split.
  - intros (q & Hq%map_err_Ok & Hk). pose proof (normalizeLocatorPath_canonical _ _ Hq) as Hc.
    inv_result. bool_hyps. subst. split; [done|]. split; [done|]. split; [|split].
    + intros Hin. assert (existsb (fun s => mem s FORBIDDEN_WRITE_SEGMENTS) (split_on "/" input) = true).
      { apply existsb_exists. exists ".git". split; [by apply list_elem_of_In|done]. }
      congruence.
    + intros Eh. unfold mem in *. by rewrite Eh in *.
    + intros r ->. by eapply check_boundary_Ok.
  - intros (-> & Hc & Hg & Hh & Hr). exists input. split; [by apply map_err_Ok, normalizeLocatorPath_fixed|].
    rewrite bool_decide_true by done. simpl.
    destruct (existsb _ _) eqn:Eg.
    { apply existsb_exists in Eg as (s & Hs%list_elem_of_In & Hm). apply mem_spec in Hm. set_solver. }
    assert (mem (hd "" (split_on "/" input)) FORBIDDEN_WRITE_ROOTS = false) as ->.
    { apply mem_false. set_solver. }
    destruct root as [r|]; simpl; [|done].
    by rewrite (proj2 (check_boundary_Ok r input tt) (Hr r eq_refl)).
Qed.

(* ------------------------------------------------------------------ *)
(** ** Properties *)

(** The semantic digest does not depend on the order in which a planner
    lists the arrays of a task, nor on its id, when the collation tells the
    paths and the assertions apart. *)
Theorem task_digest_order `{Collation, Hash} s s' :
  collation_separates (map strings (impact_paths s)) ->
  collation_separates (map assertion_json (default [] (assertions s))) ->
  task_same s s' -> taskSemanticDigest s = taskSemanticDigest s'.
Proof.
  intros Hp Ha (E1 & E2 & E3 & P1 & P2 & P3 & P4 & P5 & P6 & P7 & P8 & P9).
  unfold taskSemanticDigest, semantic_fields. rewrite E1, E2, E3.
  apply sortedStrings_Permutation in P1, P3, P4, P5, P6, P7, P8.
  rewrite P1, P3, P4, P5, P6, P7, P8.
  rewrite (json_sort_unique _ (map strings (impact_paths s')) Hp) by by apply Permutation_map.
  by rewrite (json_sort_unique _ _ Ha (assertions_same_json _ _ P9)).
Qed.

(** Two tasks with one digest agree on every planning field the digest
    covers, up to the order of the arrays, unless the hash collides. *)
Theorem task_digest_meaning `{Collation, Hash} s s' d :
  literals_ok (JObj (budget_fields (budget s))) = true ->
  literals_ok (JObj (budget_fields (budget s'))) = true ->
  taskSemanticDigest s = Ok d -> taskSemanticDigest s' = Ok d ->
  task_same s s' \/ hash_collision.
Proof.
  intros L L' D D'. destruct (contentDigest_inj _ _ d (semantic_literals s L) (semantic_literals s' L') D D')
    as [E|?]; [left|by right].
  assert (forall s, NoDup (semantic_fields s).*1) as Hn
    by (intros t; apply has_duplicates_NoDup; reflexivity).
  pose proof (fun k => canon_fields _ _ k (Hn s) (Hn s') E) as F. clear E.
  split_and!; try (apply sortedStrings_canon).
  - by injection (F "objective").
  - pose proof (F "risk") as Fr. simpl in Fr. by destruct (risk s), (risk s').
  - apply budget_json_same. by apply (inj Some), (F "budget").
  - apply (F "expected_outputs").
  - destruct (json_sort_inv strings eq _ _ ltac:(by intros x y; rewrite !canon_strings; apply (inj strings))
      (F "impact_paths")) as (m & -> & Hm). 
    assert (impact_paths s = m) as -> by (clear -Hm; induction Hm; congruence). done.
  - apply (F "dependencies").
  - apply (F "capabilities").
  - apply (F "tools").
  - apply (F "required_gates").
  - apply (F "write_paths").
  - apply (F "exclusive_resources").
  - exact (json_sort_inv _ _ _ _ assertion_json_same (F "assertions")).
Qed.

(** An exclusive resource key is accepted, unchanged, exactly when each of
    its colon-separated parts is a word of lowercase letters, digits and
    inner hyphens: any number of colon levels is a legal key. *)
Theorem resource_key_spec input k :
  normalizeExclusiveResourceKey input = Ok k <->
  k = input /\ Forall (fun w => re_match resource_word w = true) (split_on ":" input).
Proof.
  unfold normalizeExclusiveResourceKey, nfc. rewrite bool_decide_true by done. simpl.
  assert (re_match RESOURCE_KEY_REGEX input = true <->
    Forall (fun w => re_match resource_word w = true) (split_on ":" input)) as <-.
  - rewrite re_match_spec. split.
    + intros (w & t & -> & Hw & Ht)%re_cat_inv. apply re_match_spec in Hw.
      pose proof (resource_word_no_colon w Hw) as Hn.
      destruct (resource_tail_split t Ht) as [->|(r & -> & Hr)].
      * rewrite string_app_nil_r, split_on_no_char by done. by repeat constructor.
      * rewrite split_on_app by done. by constructor.
    + intros Hf. rewrite <- (join_split_on ":" input).
      destruct (split_on ":" input) as [|w ws] eqn:E; [by apply split_on_nonnil in E|].
      apply Forall_cons in Hf as [Hw Hws]. apply re_match_spec in Hw. destruct ws as [|w' ws].
      * rewrite <- (string_app_nil_r (join _ _)). apply lang_cat; [done|constructor].
      * change (join ":" (w :: w' :: ws)) with (w +:+ String ":" (join ":" (w' :: ws))).
        apply lang_cat; [done | by apply resource_tail_join].
  - destruct (re_match _ _); simpl; split; try done; [by intros [= <-] | by intros [-> _] | by intros []].
Qed.

(** An accepted write path is the canonical relative path it was declared
    as, never names [.git] in any segment nor starts at [.harness], and its
    nearest existing ancestor resolves into the repository. *)
Theorem write_path_spec `{FileSystem} input root p :
  normalizeTaskWritePath input root = Ok p <->
  p = input /\ canonical_path input /\ (".git" ∉ split_on "/" input) /\
  hd "" (split_on "/" input) <> ".harness" /\
  (forall r, root = Some r -> within_repository r input).
Proof. apply write_path_parts. Qed.

(** The order of the paths does show in the digest when the collation puts
    two of them at the same place, as collations do with strings that differ
    in ignorable characters only. *)
Theorem task_digest_collation `{Collation, Hash} s p q d :
  literals_ok (JObj (budget_fields (budget s))) = true -> p <> q ->
  json_cmp (strings p) (strings q) = 0%Z -> json_cmp (strings q) (strings p) = 0%Z ->
  taskSemanticDigest (set_impact_paths s [p; q]) = Ok d ->
  taskSemanticDigest (set_impact_paths s [q; p]) = Ok d -> hash_collision.
Proof.
  intros L Hpq C1 C2 D1 D2.
  destruct (contentDigest_inj _ _ d (semantic_literals (set_impact_paths s [p; q]) L)
    (semantic_literals (set_impact_paths s [q; p]) L) D1 D2) as [E|?]; [|done].
  assert (forall s, NoDup (semantic_fields s).*1) as Hn
    by (intros t; apply has_duplicates_NoDup; reflexivity).
  pose proof (canon_fields _ _ "impact_paths" (Hn _) (Hn _) E) as F.
  apply (inj Some) in F. cbn [impact_paths set_impact_paths map js_sort foldr sort_insert] in F.
  rewrite C1, C2 in F. cbn [Z.leb Z.compare canon map] in F.
  injection F as F _. apply (f_equal JArr) in F. change (canon (strings p) = canon (strings q)) in F.
  rewrite !canon_strings in F. by apply (inj strings) in F.
Qed.

(* ------------------------------------------------------------------ *)
(** ** Witnesses *)

Definition by_code_units : Collation :=
  {| localeCompare := str_cmp;
     localeCompare_flip := str_cmp_flip;
     localeCompare_trans := str_cmp_trans |}.

(** A collation that ignores soft hyphens. *)
Fixpoint strip_hyphens (s : string) : string :=
  match s with
  | EmptyString => ""
  | String a s' =>
      if (code a =? 173)%N then strip_hyphens s' else String a (strip_hyphens s')
  end.

#[local] Definition ignoring_hyphens : Collation :=
  {| localeCompare := fun s t => str_cmp (strip_hyphens s) (strip_hyphens t);
     localeCompare_flip := fun x y => str_cmp_flip _ _;
     localeCompare_trans := fun x y z => str_cmp_trans _ _ _ |}.

#[local] Definition sample_assertion (n : string) : TaskAcceptanceAssertion :=
  Assertion ("assert_" +:+ n) (Some criterion_assertion) (Some "ac_1") None
    ["test_1"; "test_2"] ["gate_a"] ["log"].

#[local] Definition sample_task (paths : list (list string)) (outputs : list string) : TaskSpecification :=
  Task "task_1" "Add the index" paths outputs ["code"] ["edit"] [] low
    (TaskBudget 10 1000 (Some (NInt 60000))) (Some ["src/a"]) (Some ["db"])
    [Criterion "works" "unit"] (Some [sample_assertion "1"; sample_assertion "2"]) ["gate_a"].

Lemma task_digest_order_witness :
  @taskSemanticDigest by_code_units zero_hash (sample_task [["e_1"]; ["e_2"; "e_3"]] ["n_1"; "n_2"]) =
  @taskSemanticDigest by_code_units zero_hash (sample_task [["e_2"; "e_3"]; ["e_1"]] ["n_2"; "n_1"]).
Proof.
  apply (@task_digest_order by_code_units zero_hash); 
    [apply separates_pair; vm_compute; done ..|].
  repeat split; try reflexivity; [apply Permutation_swap..|].
  eexists. split; [reflexivity|]. repeat constructor.
Defined.

Lemma task_digest_meaning_witness :
  task_same (sample_task [["e_1"]] ["n_1"; "n_2"]) (sample_task [["e_1"]] ["n_2"; "n_1"]) \/
  @hash_collision zero_hash.
Proof.
  destruct (@taskSemanticDigest by_code_units zero_hash (sample_task [["e_1"]] ["n_1"; "n_2"])) as [d|] eqn:E;
    [|vm_compute in E; discriminate].
  apply (@task_digest_meaning by_code_units zero_hash _ _ d); [reflexivity|reflexivity|exact E|].
  rewrite <- E. vm_compute. reflexivity.
Defined.

Lemma task_digest_collation_witness : @hash_collision zero_hash.
Proof.
  set (q := [String (ascii_of_nat 173) "e_1"]).
  destruct (@taskSemanticDigest ignoring_hyphens zero_hash
    (set_impact_paths (sample_task [] ["n_1"]) [["e_1"]; q])) as [d|] eqn:E;
    [|vm_compute in E; discriminate].
  apply (@task_digest_collation ignoring_hyphens zero_hash (sample_task [] ["n_1"]) ["e_1"] q d);
    [reflexivity|discriminate|vm_compute; reflexivity|vm_compute; reflexivity|exact E|].
  rewrite <- E. vm_compute. reflexivity.
Defined.

(** A file system with a repository [/repo], its directory [src], and a link
    [/repo/out] to [/tmp]. *)
Fixpoint cut_last (s : string) : option string :=
  match s with
  | EmptyString => None
  | String a s' =>
      match cut_last s' with
      | Some t => Some (String a t)
      | None => if decide (a = "/"%char) then Some "" else None
      end
  end.

#[local] Definition posix_dirname (p : string) : string :=
  match cut_last p with
  | None => "."
  | Some EmptyString => "/"
  | Some t => t
  end.

Lemma cut_last_length s t : cut_last s = Some t -> (String.length t < String.length s)%nat.
Proof.
  revert t; induction s as [|a s IH]; intros t; simpl; [done|].
  destruct (cut_last s) as [u|]; [|case_decide; intros; simplify_eq/=; lia].
  intros [= <-]. simpl. specialize (IH u eq_refl). lia.
Qed.

Lemma cut_last_absolute s t :
  starts_with s "/" = true -> cut_last s = Some t -> t = "" \/ starts_with t "/" = true.
Proof.
  destruct s as [|a s]; [done|]. rewrite starts_with_spec. intros [u [= -> ->]]. simpl.
  destruct (cut_last u); intros [= <-]; [right|by left]. by rewrite starts_with_spec; eexists.
Qed.

Lemma posix_dirname_absolute p : starts_with p "/" = true -> starts_with (posix_dirname p) "/" = true.
Proof.
  intros Hp. unfold posix_dirname. destruct (cut_last p) as [[|a t]|] eqn:E; [done| |].
  - by destruct (cut_last_absolute _ _ Hp E).
  - apply starts_with_spec in Hp as [u ->]. simpl in E. by destruct (cut_last u).
Qed.

Lemma posix_dirname_shorter p : starts_with p "/" = true ->
  posix_dirname p = p \/ (String.length (posix_dirname p) < String.length p)%nat.
Proof.
  intros Hp. unfold posix_dirname. destruct (cut_last p) as [[|a t]|] eqn:E.
  - apply starts_with_spec in Hp as [[|a u] ->]; [by left|right]. simpl. lia.
  - right. by apply cut_last_length in E.
  - apply starts_with_spec in Hp as [u ->]. simpl in E. by destruct (cut_last u).
Qed.

Definition sample_fs : FileSystem :=
  {| realpathSync p :=
       if decide (p = "/repo/out") then Some "/tmp"
       else if mem p ["/"; "/repo"; "/repo/src"; "/tmp"] then Some p else None;
     existsSync p := mem p ["/"; "/repo"; "/repo/src"; "/repo/out"; "/tmp"];
     resolve root p := "/" +:+ str_drop 1 root +:+ "/" +:+ p;
     dirname := posix_dirname;
     resolve_absolute := fun root p => starts_with_app "/" _;
     dirname_absolute := posix_dirname_absolute;
     dirname_shorter := posix_dirname_shorter |}.

Lemma write_path_spec_witness :
  @within_repository sample_fs "/repo" "src/new/a.ts" /\
  @normalizeTaskWritePath sample_fs "out/a.ts" (Some "/repo") = Err (PlanningError invalid_specification).
Proof.
  split; [|vm_compute; reflexivity].
  eapply (proj1 (@write_path_spec sample_fs "src/new/a.ts" (Some "/repo") "src/new/a.ts"));
    [vm_compute; reflexivity|reflexivity].
Defined.
