(* ===== verification/PlanValidator.v ===== *)
(** * Plan proposal validation

    [packages/runtime/src/planning/validator.ts], the part that reads an
    untrusted proposal: a [jsval] is checked and turned into task
    specifications, with the first violation reported as its error kind. *)

From S2P Require Import Prelude Regex Locator Json Kahn Task.

Record PlannerConstraints : Type := Constraints
  { allowedCapabilities : list string;
    knownTools : list string;
    knownGates : list string;
    repository_root : option string }.

Inductive PlanProtocolMode : Type := legacy | protocol13.
#[export] Instance PlanProtocolMode_eq_dec : EqDecision PlanProtocolMode.
Proof. solve_decision. Defined.

Abbreviation reject k := (Err (PlanningError k)).
Abbreviation reading A := (result planning_error A).

Definition FORBIDDEN_PROPOSAL_KEYS : list string :=
  ["command"; "commands"; "shell"; "shell_command"; "raw_shell"; "script";
   "tool_invocation"; "tool_invocations"].

Fixpoint assertNoEmbeddedCommands (value : jsval) : reading unit :=
  match value with
  | JArr items => forM_ assertNoEmbeddedCommands items
  | JObj entries =>
      forM_ (fun e => if mem e.1 FORBIDDEN_PROPOSAL_KEYS then reject embedded_command
                      else assertNoEmbeddedCommands e.2) entries
  | _ => Ok tt
  end.

(** [Array.isArray(v) && !v.some((i) => typeof i !== "string" || i === "")] *)
Definition string_items (value : jsval) : option (list string) :=
  match value with
  | JArr items => mapM (fun i => match i with
                                 | JStr s => if decide (s = "") then None else Some s
                                 | _ => None
                                 end) items
  | _ => None
  end.

Definition readStringList (value : jsval) : reading (list string) :=
  match string_items value with Some l => Ok l | None => reject invalid_specification end.

(** [const seen = new Set(); for (item of normalized) ...] *)
Definition assertUnique (items : list string) : reading unit :=
  reject_if (has_duplicates items) (PlanningError invalid_specification).

Definition readResourceClaims (raw : list (string * jsval)) (field : string)
    (mode : PlanProtocolMode) (normalize : string -> reading string) :
  reading (option (list string)) :=
  match jfield raw field with
  | JUndefined => if decide (mode = protocol13) then reject invalid_specification else Ok None
  | value =>
      items ← readStringList value;
      normalized ← mapM normalize items;
      _ ← assertUnique normalized;
      Ok (Some normalized)
  end.

Definition read_impact_paths (value : jsval) : reading (list (list string)) :=
  match value with
  | JArr ((_ :: _) as paths) =>
      match mapM string_items paths with
      | Some l => Ok l
      | None => reject invalid_specification
      end
  | _ => reject invalid_specification
  end.

Definition read_criterion (value : jsval) : option TaskAcceptanceCriterion :=
  match value with
  | JObj c =>
      match jfield c "description", jfield c "verification" with
      | JStr d, JStr v =>
          if bool_decide (trim d = "") || bool_decide (trim v = "") then None
          else Some (Criterion d v)
      | _, _ => None
      end
  | _ => None
  end.

Definition read_acceptance (value : jsval) : reading (list TaskAcceptanceCriterion) :=
  match value with
  | JArr ((_ :: _) as criteria) =>
      match mapM read_criterion criteria with
      | Some l => Ok l
      | None => reject invalid_specification
      end
  | _ => reject invalid_specification
  end.

Definition parse_risk (s : string) : option TaskRisk :=
  find_first (fun r => bool_decide (risk_name r = s)) TASK_RISKS.

Definition read_risk (value : jsval) : reading TaskRisk :=
  match value with
  | JStr s => match parse_risk s with Some r => Ok r | None => reject invalid_specification end
  | _ => reject invalid_specification
  end.

(** [Number.isInteger(v) && v >= 1] *)
Definition positive_integer (value : jsval) : option Z :=
  match value with
  | JNum (NInt z) => if (z <? 1)%Z then None else Some z
  | _ => None
  end.

Definition read_budget (value : jsval) (mode : PlanProtocolMode) : reading LegacyTaskBudget :=
  match value with
  | JObj budget =>
      match positive_integer (jfield budget "steps"), positive_integer (jfield budget "tokens") with
      | Some s, Some t =>
          match jfield budget "duration_ms" with
          | JUndefined =>
              if decide (mode = protocol13) then reject invalid_specification
              else Ok (TaskBudget s t None)
          | d => match positive_integer d with
                 | Some z => Ok (TaskBudget s t (Some (NInt z)))
                 | None => reject invalid_specification
                 end
          end
      | _, _ => reject invalid_specification
      end
  | _ => reject invalid_specification
  end.

(** The body of the [map] over [raw.assertions]; [seen] are the ids so far. *)
Definition read_assertion (requiredGates seen : list string) (value : jsval) :
  reading TaskAcceptanceAssertion :=
  match value with
  | JObj raw =>
      assertionId ← match jfield raw "assertion_id" with
                    | JStr s => if re_match IDENTIFIER_REGEX s then Ok s
                                else reject invalid_specification
                    | _ => reject invalid_specification
                    end;
      _ ← reject_if (mem assertionId seen) (PlanningError invalid_specification);
      testIds ← readStringList (jfield raw "test_ids");
      gateIds ← readStringList (jfield raw "required_gate_ids");
      evidence ← readStringList (jfield raw "evidence_requirements");
      _ ← reject_if (bool_decide (testIds = []) || bool_decide (gateIds = []) ||
                     bool_decide (evidence = [])) (PlanningError invalid_specification);
      _ ← forM_ (fun g => reject_if (negb (mem g requiredGates)) (PlanningError missing_gate)) gateIds;
      Ok (Assertion assertionId None None None testIds gateIds evidence)
  | _ => reject invalid_specification
  end.

Definition read_assertions (requiredGates : list string) (value : jsval) :
  reading (option (list TaskAcceptanceAssertion)) :=
  match value with
  | JUndefined => Ok None
  | JArr ((_ :: _) as items) =>
      l ← foldM (fun acc v => a ← read_assertion requiredGates (map assertion_id acc) v;
                              Ok (acc ++ [a])) [] items;
      Ok (Some l)
  | _ => reject invalid_specification
  end.

(** [readStringList(raw.field ?? [], ...)] *)
Definition read_optional_list (value : jsval) : reading (list string) :=
  match value with JUndefined | JNull => Ok [] | _ => readStringList value end.

Section validation.
Context `{FileSystem}.

Definition readTaskSpecification (mode : PlanProtocolMode) (repositoryRoot : option string)
    (value : jsval) : reading TaskSpecification :=
  match value with
  | JObj raw =>
      taskId ← match jfield raw "id" with
               | JStr s => if re_match IDENTIFIER_REGEX s then Ok s else reject invalid_specification
               | _ => reject invalid_specification
               end;
      objective ← match jfield raw "objective" with
                  | JStr s => if decide (trim s = "") then reject invalid_specification else Ok s
                  | _ => reject invalid_specification
                  end;
      paths ← read_impact_paths (jfield raw "impact_paths");
      outputs ← readStringList (jfield raw "expected_outputs");
      _ ← reject_if (bool_decide (outputs = [])) (PlanningError invalid_specification);
      acceptance ← read_acceptance (jfield raw "acceptance");
      risk ← read_risk (jfield raw "risk");
      budget ← read_budget (jfield raw "budget") mode;
      writePaths ← readResourceClaims raw "write_paths" mode
        (fun v => normalizeTaskWritePath v
                    (if decide (mode = protocol13) then repositoryRoot else None));
      resources ← readResourceClaims raw "exclusive_resources" mode normalizeExclusiveResourceKey;
      gates ← readStringList (jfield raw "required_gates");
      _ ← reject_if (bool_decide (gates = [])) (PlanningError missing_gate);
      assertions ← read_assertions gates (jfield raw "assertions");
      capabilities ← read_optional_list (jfield raw "capabilities");
      tools ← read_optional_list (jfield raw "tools");
      dependencies ← read_optional_list (jfield raw "dependencies");
      Ok (Task taskId objective paths outputs capabilities tools dependencies risk budget
            writePaths resources acceptance assertions gates)
  | _ => reject invalid_specification
  end.

(** The declarations of [assertAcyclic], then its worklist of task ids. *)
Definition check_dependencies (tasks : list TaskSpecification) : reading unit :=
  forM_ (fun task =>
    forM_ (fun dependency =>
      if decide (dependency = id task) then reject dependency_cycle
      else if mem dependency (map id tasks) then Ok tt else reject invalid_specification)
      (dependencies task)) tasks.

Definition deps_of (tasks : list TaskSpecification) (taskId : string) : list string :=
  match find_first (fun t => bool_decide (id t = taskId)) tasks with
  | Some t => dependencies t
  | None => []
  end.

Definition assertAcyclic (tasks : list TaskSpecification) : reading unit :=
  _ ← check_dependencies tasks;
  let ids := map id tasks in
  let indegree := (link_all (fun i => i) (deps_of tasks) ids).1 in
  let ready := sort_strings (filter (fun i => deg_of indegree i = 0%Z) ids) in
  match kahn_on (fun i => i) (deps_of tasks) push sort_strings ids ready with
  | Some visited =>
      reject_if (negb (length visited =? length tasks)%nat) (PlanningError dependency_cycle)
  | None => reject dependency_cycle
  end.

Definition check_registered (constraints : PlannerConstraints) (task : TaskSpecification) : reading unit :=
  _ ← forM_ (fun t => reject_if (negb (mem t (knownTools constraints))) (PlanningError unknown_tool))
        (tools task);
  _ ← forM_ (fun c => reject_if (negb (mem c (allowedCapabilities constraints)))
                        (PlanningError capability_expansion)) (capabilities task);
  forM_ (fun g => reject_if (negb (mem g (knownGates constraints))) (PlanningError unknown_gate))
    (required_gates task).

(** The loop over the signatures; [signatures] are those seen. *)
Definition check_value (signatures : list string) (task : TaskSpecification) : reading (list string) :=
  if negb (hasIndependentValue task) then reject no_independent_value
  else
    let signature := independentValueSignature task in
    if mem signature signatures then reject no_independent_value
    else Ok (signature :: signatures).

(** [(left, right) => (left.id < right.id ? -1 : 1)] *)
Definition id_cmp (left right : TaskSpecification) : Z := if str_lt (id left) (id right) then -1 else 1.

Definition validatePlanProposal (rawTasks : jsval) (constraints : PlannerConstraints)
    (mode : PlanProtocolMode) : reading (list TaskSpecification) :=
  match rawTasks with
  | JArr ((_ :: _) as items) =>
      _ ← reject_if (bool_decide (mode = protocol13) && bool_decide (repository_root constraints = None))
            (PlanningError invalid_specification);
      _ ← assertNoEmbeddedCommands rawTasks;
      tasks ← mapM (readTaskSpecification mode (repository_root constraints)) items;
      _ ← reject_if (has_duplicates (map id tasks)) (PlanningError invalid_specification);
      _ ← forM_ (check_registered constraints) tasks;
      _ ← assertAcyclic tasks;
      _ ← (if (1 <? length tasks)%nat then _ ← foldM check_value [] tasks; Ok tt else Ok tt);
      Ok (js_sort id_cmp tasks)
  | _ => reject invalid_specification
  end.
End validation.

(* ------------------------------------------------------------------ *)
(** ** Lemmas *)

(** A key that names imperative execution occurs somewhere in the value. *)
Inductive carries_command : jsval -> Prop :=
| carries_key k v l : (k, v) ∈ l -> k ∈ FORBIDDEN_PROPOSAL_KEYS -> carries_command (JObj l)
| carries_field k v l : (k, v) ∈ l -> carries_command v -> carries_command (JObj l)
| carries_item v l : v ∈ l -> carries_command v -> carries_command (JArr l).
#[local] Hint Constructors carries_command : harness.

Lemma forM_cases {E A} (f : A -> result E unit) (e : E) (P : A -> Prop) l :
  Forall (fun x => (f x = Ok tt /\ ~ P x) \/ (f x = Err e /\ P x)) l ->
  (forM_ f l = Ok tt /\ Forall (fun x => ~ P x) l) \/
  (forM_ f l = Err e /\ exists x, x ∈ l /\ P x).
Proof.
  induction 1 as [|x l [[Hf Hx]|[Hf Hx]] _ IH]; simpl; rewrite ?Hf; simpl.
  - by left.
  - destruct IH as [[-> ?]|[-> (y & Hy & Py)]]; [left|right]; split; auto.
    exists y. split; [by right|done].
  - right. split; [done|]. exists x. split; [left|done].
Qed.

Lemma embedded_cases v :
  (assertNoEmbeddedCommands v = Ok tt /\ ~ carries_command v) \/
  (assertNoEmbeddedCommands v = Err (PlanningError embedded_command) /\ carries_command v).
Proof.
  induction v as [| |b|n|t|l IH|l IH] using jsval_rect'; try (left; split; [done|by inversion 1]).
  - simpl. destruct (forM_cases _ _ _ _ IH) as [[-> Hl]|[-> (x & Hx & Cx)]]; [left|right].
    + split; [done|]. inversion 1; subst. rewrite Forall_forall in Hl. by eapply Hl.
    + eauto with harness.
  - simpl. edestruct (forM_cases (fun e : string * jsval => if mem e.1 FORBIDDEN_PROPOSAL_KEYS
        then reject embedded_command else assertNoEmbeddedCommands e.2) (PlanningError embedded_command)
        (fun e => e.1 ∈ FORBIDDEN_PROPOSAL_KEYS \/ carries_command e.2) l)
      as [[-> Hl]|[-> ([k x] & Hx & Cx)]]; [|left|right].
    + eapply Forall_impl; [exact IH|]. intros [k x] Hx; simpl in *.
      destruct (mem k FORBIDDEN_PROPOSAL_KEYS) eqn:E; [apply mem_spec in E|apply mem_false in E]; tauto.
    + split; [done|]. rewrite Forall_forall in Hl. inversion 1; subst;
        match goal with H : (_, _) ∈ l |- _ => apply (Hl _ H) end; simpl; tauto.
    + split; [done|]. destruct Cx as [?|?]; eauto with harness.
Qed.

Lemma readStringList_Ok v l : readStringList v = Ok l -> Forall (fun s => s <> "") l.
Proof.
  unfold readStringList, string_items. destruct v as [| | | | |items|]; try done.
  destruct (mapM _ items) as [k|] eqn:E; [|done]. intros [= <-].
  apply mapM_Some in E. induction E as [|x y items k Hx _ IH]; constructor; [|done].
  destruct x; try done. by case_decide; simplify_eq.
Qed.

(** ** The dependency graph *)

Lemma find_id tasks t :
  NoDup (map id tasks) -> t ∈ tasks -> find_first (fun u => bool_decide (id u = id t)) tasks = Some t.
Proof.
  induction tasks as [|u l IH]; simpl; [set_solver|]. rewrite NoDup_cons, elem_of_cons.
  intros [Hn Hd] [->|Ht]; [by rewrite bool_decide_true|].
  rewrite bool_decide_false; [by apply IH|]. intros E. apply Hn. rewrite E.
  by apply (list_elem_of_fmap_2 id).
Qed.

Lemma deps_of_task tasks t : NoDup (map id tasks) -> t ∈ tasks -> deps_of tasks (id t) = dependencies t.
Proof. intros. unfold deps_of. by rewrite find_id. Qed.

(** Every dependency is the id of another task of the plan. *)
Definition closed_plan (tasks : list TaskSpecification) : Prop :=
  forall t d, t ∈ tasks -> d ∈ dependencies t -> d <> id t /\ d ∈ map id tasks.

Lemma check_dependencies_Ok tasks : check_dependencies tasks = Ok tt <-> closed_plan tasks.
Proof.
  unfold check_dependencies, closed_plan. rewrite forM_Ok, Forall_forall.
  setoid_rewrite forM_Ok. setoid_rewrite Forall_forall. split.
  - intros Hall t d Ht Hd. specialize (Hall t Ht d Hd). case_decide; [done|].
    destruct (mem d (map id tasks)) eqn:E; [|done]. by apply mem_spec in E.
  - intros Hall t Ht d Hd. destruct (Hall t d Ht Hd) as [? Hin]. rewrite decide_False by done.
    by rewrite (proj2 (mem_spec d _) Hin).
Qed.

Lemma ids_acyclic tasks :
  NoDup (map id tasks) ->
  acyclic (fun i => i) (deps_of tasks) (map id tasks) <-> acyclic id dependencies tasks.
Proof.
  intros Hnd. split; intros [rank Hr]; exists rank.
  - intros t d Ht Hd. apply Hr; [by apply (list_elem_of_fmap_2 id)|]. by rewrite deps_of_task.
  - intros i d (t & -> & Ht)%(list_elem_of_fmap_1 id) Hd. rewrite deps_of_task in Hd by done. auto.
Qed.


(** [assertAcyclic] decides that the plan is closed and acyclic. *)
Lemma assertAcyclic_Ok tasks :
  NoDup (map id tasks) ->
  assertAcyclic tasks = Ok tt <-> closed_plan tasks /\ acyclic id dependencies tasks.
Proof.
  intros Hnd. unfold assertAcyclic. rewrite <- ids_acyclic by done.
  destruct (check_dependencies tasks) as [[]|e] eqn:Ec.
  2: { split; [done|]. intros [Hc%check_dependencies_Ok _]. congruence. }
  apply check_dependencies_Ok in Ec as Hc. simpl.
  destruct (kahn_on_correct (fun i => i) (deps_of tasks) push sort_strings push_perm sort_strings_Permutation
    (map id tasks) (sort_strings (filter (fun i => deg_of (link_all (fun i => i) (deps_of tasks) (map id tasks)).1 i = 0%Z)
      (map id tasks)))) as (out & Ho & Hr & Hl).
  - by rewrite list_fmap_id.
  - intros i d (t & -> & Ht)%(list_elem_of_fmap_1 id) Hd. rewrite list_fmap_id.
    rewrite deps_of_task in Hd by done. by destruct (Hc t d Ht Hd).
  - rewrite sort_strings_Permutation.
    pose proof (ready_filter (fun i => i) (deps_of tasks) (map id tasks)) as ->; [done|].
    by rewrite list_fmap_id.
  - simpl in Ho. rewrite Ho, reject_if_Ok, negb_false_iff, Nat.eqb_eq, <- Hl, length_map. tauto.
Qed.

(** ** What reading a task establishes *)

Record read_facts `{FileSystem} (mode : PlanProtocolMode) (root : option string)
    (t : TaskSpecification) : Prop := {
  read_id : re_match IDENTIFIER_REGEX (id t) = true;
  read_objective : trim (objective t) <> "";
  read_outputs : expected_outputs t <> [];
  read_criteria : acceptance t <> [];
  read_gates : required_gates t <> [];
  read_steps : (1 <= steps (budget t))%Z;
  read_tokens : (1 <= tokens (budget t))%Z;
  read_protocol : mode = protocol13 -> assertProtocol13TaskSpecification t = Ok tt;
  read_paths : forall l, write_paths t = Some l -> NoDup l /\
    Forall (fun p => normalizeTaskWritePath p (if decide (mode = protocol13) then root else None) = Ok p) l;
  read_keys : forall l, exclusive_resources t = Some l -> NoDup l /\
    Forall (fun k => normalizeExclusiveResourceKey k = Ok k) l;
  read_asserts : forall l, assertions t = Some l -> NoDup (map assertion_id l) /\
    Forall (fun a => required_gate_ids a <> [] /\ required_gate_ids a ⊆ required_gates t) l
}.

Lemma claims_Ok raw field mode normalize o :
  (forall p q, normalize p = Ok q -> q = p) ->
  readResourceClaims raw field mode normalize = Ok o ->
  (mode = protocol13 -> o <> None) /\
  forall l, o = Some l -> NoDup l /\ Forall (fun p => normalize p = Ok p) l.
Proof.
  intros Hn Hr. unfold readResourceClaims in Hr.
  assert (forall v, (items ← readStringList v; normalized ← mapM normalize items;
            _ ← assertUnique normalized; Ok (Some normalized)) = Ok o ->
          exists l, o = Some l /\ NoDup l /\ Forall (fun p => normalize p = Ok p) l) as Hl.
  { clear Hr. intros v Hr. unfold assertUnique in Hr. inv_result. eexists. split; [done|].
    split; [by apply has_duplicates_NoDup|]. apply mapM_Ok in E0.
    match goal with H : Forall2 _ _ _ |- _ => clear -H Hn; induction H as [|x y l k Hx _ IH] end; constructor; [|done].
    pose proof (Hn _ _ Hx) as ->. done. }
  destruct (jfield raw field) eqn:Ej;
    [case_decide; inv_result; split; [done|discriminate]|..];
    destruct (Hl _ Hr) as (l & -> & ?); (split; [done|by intros ? [= <-]]).
Qed.

Lemma write_path_id `{FileSystem} p root q : normalizeTaskWritePath p root = Ok q -> q = p.
Proof. unfold normalizeTaskWritePath. intros Hq. inv_result. bool_hyps. congruence. Qed.

Lemma resource_key_id k q : normalizeExclusiveResourceKey k = Ok q -> q = k.
Proof. unfold normalizeExclusiveResourceKey, nfc. intros Hq. inv_result. done. Qed.

Lemma read_budget_Ok v mode b :
  read_budget v mode = Ok b ->
  (1 <= steps b)%Z /\ (1 <= tokens b)%Z /\
  (mode = protocol13 -> exists d, duration_ms b = Some (NInt d) /\ (1 <= d)%Z).
Proof.
  unfold read_budget, positive_integer. destruct v as [| | | | | |l]; try done. intros Hb.
  destruct (jfield l "steps") as [| | |[s| |]| | |]; try done. destruct (s <? 1)%Z eqn:Es; [done|].
  destruct (jfield l "tokens") as [| | |[k| |]| | |]; try done. destruct (k <? 1)%Z eqn:Ek; [done|].
  bool_hyps. destruct (jfield l "duration_ms") as [| | |[d| |]| | |]; try done.
  - case_decide; [done|]. injection Hb as <-. done.
  - destruct (d <? 1)%Z eqn:Ed; [done|]. bool_hyps. injection Hb as <-. eauto.
Qed.

Lemma read_acceptance_Ok v l : read_acceptance v = Ok l -> l <> [].
Proof.
  unfold read_acceptance. destruct v as [| | | | |[|x items]|]; try done.
  destruct (mapM read_criterion (x :: items)) as [k|] eqn:E; [|done]. intros [= <-] ->.
  apply mapM_Some in E. inversion E.
Qed.

Lemma read_assertion_Ok gates seen v a :
  read_assertion gates seen v = Ok a ->
  (assertion_id a ∉ seen) /\ required_gate_ids a <> [] /\ required_gate_ids a ⊆ gates.
Proof.
  unfold read_assertion. destruct v as [| | | | | |raw]; try done. intros Hr.
  inv_result. cbn [assertion_id required_gate_ids]. bool_hyps.
  match goal with H : mem _ seen = false |- _ => apply mem_false in H end.
  split; [done|]. split; [done|].
  match goal with H : forM_ _ _ = Ok _ |- _ => apply forM_Ok_u in H; rename H into Hf end.
  intros g Hg. rewrite Forall_forall in Hf. specialize (Hf g Hg).
  apply reject_if_Ok, negb_false_iff in Hf. by apply mem_spec in Hf.
Qed.

Lemma read_assertions_Ok gates v o :
  read_assertions gates v = Ok o -> forall l, o = Some l ->
  NoDup (map assertion_id l) /\
  Forall (fun a => required_gate_ids a <> [] /\ required_gate_ids a ⊆ gates) l.
Proof.
  unfold read_assertions. intros Hr l ->. destruct v as [| | | | |[|x items]|]; try done.
  apply bind_Ok in Hr as (k & Hk & [= ->]).
  refine (foldM_inv (fun _ acc => NoDup (map assertion_id acc) /\
    Forall (fun a => required_gate_ids a <> [] /\ required_gate_ids a ⊆ gates) acc) _ _ [] _ _ _ Hk).
  - split; constructor.
  - intros done y todo acc acc' _ [Hn Hf] Hy. apply bind_Ok in Hy as (a & Ha & [= <-]).
    destruct (read_assertion_Ok _ _ _ _ Ha) as [Hs Hg]. rewrite map_app. split.
    + apply NoDup_app. split; [done|]. split; [set_solver|apply NoDup_singleton].
    + apply Forall_app. by split; [|constructor].
Qed.

Lemma readTaskSpecification_Ok `{FileSystem} mode root v t :
  readTaskSpecification mode root v = Ok t -> read_facts mode root t.
Proof.
  unfold readTaskSpecification. destruct v as [| | | | | |raw]; try done. intros Hr.
  inv_result. bool_hyps.
  repeat match goal with
  | E : match ?x with JUndefined => _ | _ => _ end = Ok _ |- _ => destruct x; try discriminate E
  end.
  match goal with H : (if re_match _ ?s then _ else _) = Ok _ |- _ =>
    destruct (re_match IDENTIFIER_REGEX s) eqn:Hid; first [discriminate H|injection H as H; subst] end.
  match goal with H : (if decide (trim ?s = "") then _ else _) = Ok _ |- _ =>
    destruct (decide (trim s = "")) as [|Hobj]; first [discriminate H|injection H as H; subst] end.
  match goal with H : read_budget _ _ = Ok _ |- _ => apply read_budget_Ok in H as (Hs & Ht & Hd) end.
  match goal with H : read_acceptance _ = Ok _ |- _ => apply read_acceptance_Ok in H end.
  match goal with H : readResourceClaims _ "write_paths" _ _ = Ok _ |- _ =>
    apply claims_Ok in H as (Hp & Hpl); [|by intros ? ?; apply write_path_id] end.
  match goal with H : readResourceClaims _ "exclusive_resources" _ _ = Ok _ |- _ =>
    apply claims_Ok in H as (Hk & Hkl); [|by intros ? ?; apply resource_key_id] end.
  match goal with H : read_assertions _ _ = Ok _ |- _ =>
    pose proof (read_assertions_Ok _ _ _ H) as Ha end.
  subst; split; simpl; try done.
  intros Hm. unfold assertProtocol13TaskSpecification; simpl.
  destruct (Hd Hm) as (d & -> & Hd1). specialize (Hp Hm). specialize (Hk Hm).
  unfold reject_if. destruct (Z.ltb_spec d 1); [lia|]. simpl.
  by repeat match goal with o : option (list string) |- _ => destruct o; [|done] end.
Qed.

(** ** What validation establishes *)

Definition id_lt (x y : TaskSpecification) : Prop := str_lt (id x) (id y) = true.

Record plan_facts `{FileSystem} (raw : jsval) (constraints : PlannerConstraints)
    (mode : PlanProtocolMode) (plan : list TaskSpecification) : Prop := {
  plan_nonempty : plan <> [];
  plan_root : mode = protocol13 -> repository_root constraints <> None;
  plan_declarative : ~ carries_command raw;
  plan_read : Forall (read_facts mode (repository_root constraints)) plan;
  plan_ids : NoDup (map id plan);
  plan_sorted : StronglySorted id_lt plan;
  plan_registered : Forall (fun t => check_registered constraints t = Ok tt) plan;
  plan_graph : closed_plan plan /\ acyclic id dependencies plan;
  plan_value : (1 < length plan)%nat ->
    Forall (fun t => hasIndependentValue t = true) plan /\ NoDup (map independentValueSignature plan)
}.

Definition by_id (x y : TaskSpecification) : Z := str_cmp (id x) (id y).

Lemma id_sort tasks : NoDup (map id tasks) -> js_sort id_cmp tasks = js_sort by_id tasks.
Proof.
  intros Hnd. apply js_sort_ext. intros pre x post y -> Hy.
  assert (id x <> id y) as Hne.
  { rewrite map_app in Hnd. apply NoDup_app in Hnd as (_ & _ & Hnd). simpl in Hnd.
    apply NoDup_cons in Hnd as [Hx _]. intros E. apply Hx. rewrite E. by apply (list_elem_of_fmap_2 id). }
  unfold id_cmp, by_id, str_lt. case_bool_decide as Hlt; simpl; symmetry.
  - apply Z.leb_le. lia.
  - apply Z.leb_gt. assert (str_cmp (id x) (id y) <> 0)%Z by (by rewrite str_cmp_eq). lia.
Qed.

Lemma by_id_sorted tasks : NoDup (map id tasks) -> StronglySorted id_lt (js_sort by_id tasks).
Proof.
  intros Hnd. assert (StronglySorted (cmp_le by_id) (js_sort by_id tasks)) as Hs.
  { apply js_sort_StronglySorted; unfold by_id.
    - intros x y. apply str_cmp_total.
    - intros x y z. apply str_cmp_trans. }
  assert (NoDup (map id (js_sort by_id tasks))) as Hd by (by rewrite js_sort_Permutation).
  induction Hs as [|x l Hl IH Hx]; [constructor|]. simpl in Hd. apply NoDup_cons in Hd as [Hn Hd].
  constructor; [by apply IH|]. rewrite Forall_forall in *. intros y Hy. specialize (Hx y Hy).
  unfold id_lt, str_lt. apply bool_decide_eq_true.
  unfold cmp_le, by_id in Hx. assert (str_cmp (id x) (id y) <> 0)%Z; [|lia].
  rewrite str_cmp_eq. intros E. apply Hn. rewrite E. by apply (list_elem_of_fmap_2 id).
Qed.

Lemma check_value_Ok tasks sigs sigs' :
  foldM check_value sigs tasks = Ok sigs' ->
  Forall (fun t => hasIndependentValue t = true) tasks /\
  NoDup (map independentValueSignature tasks) /\
  forall t, t ∈ tasks -> independentValueSignature t ∉ sigs.
Proof.
  revert sigs; induction tasks as [|t l IH]; intros sigs; simpl; [by repeat constructor; set_solver|].
  intros Hf. apply bind_Ok in Hf as (s & Hs & Hf). unfold check_value in Hs.
  destruct (hasIndependentValue t) eqn:Hv; [simpl in Hs|done].
  destruct (mem _ sigs) eqn:Em; [done|]. apply mem_false in Em. injection Hs as <-.
  apply IH in Hf as (H1 & H2 & H3). split; [by constructor|]. split.
  - apply NoDup_cons. split; [|done]. intros (u & Eu & Hu)%list_elem_of_fmap.
    apply (H3 u Hu). rewrite <- Eu. left.
  - intros u [->|Hu]%elem_of_cons; [done|]. intros Hs. apply (H3 u Hu). by right.
Qed.

#[export] Instance closed_plan_proper : Proper ((≡ₚ) ==> iff) closed_plan.
Proof. intros l k Hp. unfold closed_plan. by setoid_rewrite Hp. Qed.
#[export] Instance acyclic_proper : Proper ((≡ₚ) ==> iff) (acyclic id dependencies).
Proof. intros l k Hp. unfold acyclic. by setoid_rewrite Hp. Qed.

Lemma validatePlanProposal_Ok `{FileSystem} raw constraints mode plan :
  validatePlanProposal raw constraints mode = Ok plan -> plan_facts raw constraints mode plan.
Proof.
  unfold validatePlanProposal. destruct raw as [| | | | |[|x items]|]; try done. intros Hv.
  apply bind_Ok in Hv as (u1 & Hroot%reject_if_Ok & Hv).
  apply bind_Ok in Hv as (u2 & Hcmd & Hv). apply bind_Ok in Hv as (tasks & Hread & Hv).
  apply bind_Ok in Hv as (u3 & Hids%reject_if_Ok%has_duplicates_NoDup & Hv).
  apply bind_Ok in Hv as (u4 & Hreg%forM_Ok_u & Hv). apply bind_Ok in Hv as (u5 & Hdag & Hv).
  apply bind_Ok in Hv as (u6 & Hval & Hv). injection Hv as <-.
  destruct u5. apply assertAcyclic_Ok in Hdag; [|done].
  rewrite id_sort by done. apply mapM_Ok in Hread.
  assert (Forall (read_facts mode (repository_root constraints)) tasks) as Hfacts.
  { clear -Hread. induction Hread as [|v t l k Ht _ IH]; constructor; [|done].
    by apply readTaskSpecification_Ok in Ht. }
  split; try rewrite js_sort_Permutation; try done.
  - intros E. apply (f_equal length) in E. rewrite length_js_sort in E. inversion Hread; by subst.
  - intros ->. intros Hn. by rewrite Hn in Hroot.
  - destruct (embedded_cases (JArr (x :: items))) as [[? ?]|[E ?]]; [done|congruence].
  - by apply by_id_sorted.
  - intros Hl. rewrite (proj2 (Nat.ltb_lt _ _) Hl) in Hval.
    apply bind_Ok in Hval as (s & Hs & _). by apply check_value_Ok in Hs as (? & ? & _).
Qed.

Lemma reject_unknown_Ok (k : PlanningErrorKind) (l known : list string) u :
  forM_ (fun x => reject_if (negb (mem x known)) (PlanningError k)) l = Ok u -> l ⊆ known.
Proof.
  intros Hf%forM_Ok_u x Hx. rewrite Forall_forall in Hf.
  specialize (Hf x Hx). apply reject_if_Ok in Hf. by apply mem_spec, negb_false_iff.
Qed.

Lemma check_registered_Ok constraints t u :
  check_registered constraints t = Ok u ->
  tools t ⊆ knownTools constraints /\ capabilities t ⊆ allowedCapabilities constraints /\
  required_gates t ⊆ knownGates constraints.
Proof.
  unfold check_registered. intros Hc.
  apply bind_Ok in Hc as (u1 & H1 & Hc). apply bind_Ok in Hc as (u2 & H2 & H3).
  split; [by eapply reject_unknown_Ok|]. split; by eapply reject_unknown_Ok.
Qed.

(* ------------------------------------------------------------------ *)
(** ** Properties *)

(** C21. An accepted plan is a DAG: its ids are distinct and in ascending order,
    every dependency names another task of the plan, and the tasks can be
    ranked along their dependencies. *)
Theorem validated_plan_dag `{FileSystem} raw constraints mode plan :
  validatePlanProposal raw constraints mode = Ok plan ->
  plan <> [] /\ StronglySorted id_lt plan /\ NoDup (map id plan) /\
  closed_plan plan /\ acyclic id dependencies plan.
Proof. intros Hv. destruct (validatePlanProposal_Ok _ _ _ _ Hv) as []. tauto. Qed.

(** The cycle check is exact: on tasks with distinct ids it accepts exactly
    the closed acyclic plans, and reports every other as an error. *)
Theorem acyclicity_decided tasks :
  NoDup (map id tasks) ->
  (assertAcyclic tasks = Ok tt <-> closed_plan tasks /\ acyclic id dependencies tasks) /\
  (closed_plan tasks -> ~ acyclic id dependencies tasks ->
     assertAcyclic tasks = Err (PlanningError dependency_cycle)).
Proof.
  intros Hnd. pose proof (assertAcyclic_Ok tasks Hnd) as Ho. split; [done|].
  intros Hc Ha. destruct (assertAcyclic tasks) as [[]|e] eqn:E; [by destruct (proj1 Ho eq_refl)|].
  unfold assertAcyclic in E. rewrite (proj2 (check_dependencies_Ok tasks) Hc) in E. simpl in E.
  destruct (kahn_on _ _ _ _ _ _); [|done]. unfold reject_if in E. by destruct (negb _).
Qed.

(** C22. A plan never widens its authority: it carries no command at any depth,
    and uses registered tools, authorized capabilities and known gates only;
    every task has a gate, and its assertions use the task's own gates. *)
Theorem validated_plan_authorized `{FileSystem} raw constraints mode plan t :
  validatePlanProposal raw constraints mode = Ok plan -> t ∈ plan ->
  ~ carries_command raw /\ tools t ⊆ knownTools constraints /\
  capabilities t ⊆ allowedCapabilities constraints /\
  required_gates t ⊆ knownGates constraints /\ required_gates t <> [] /\
  (forall l a, assertions t = Some l -> a ∈ l ->
     required_gate_ids a <> [] /\ required_gate_ids a ⊆ required_gates t).
Proof.
  intros [_ _ Hcmd Hread _ _ Hreg _ _]%validatePlanProposal_Ok Ht.
  rewrite Forall_forall in Hread, Hreg. specialize (Hread t Ht). specialize (Hreg t Ht).
  apply check_registered_Ok in Hreg as (? & ? & ?). repeat (split; [done || apply Hread|]).
  intros l a Hl Ha. destruct (read_asserts _ _ _ Hread l Hl) as [_ Hf].
  rewrite Forall_forall in Hf. by apply Hf.
Qed.

(** Every task of an accepted protocol 1.3 plan passes the scheduling guard,
    and claims distinct canonical paths inside the repository. *)
Theorem validated_plan_claims `{FileSystem} raw constraints plan t :
  validatePlanProposal raw constraints protocol13 = Ok plan -> t ∈ plan ->
  assertProtocol13TaskSpecification t = Ok tt /\
  exists root paths, repository_root constraints = Some root /\ write_paths t = Some paths /\
    NoDup paths /\ Forall (fun p => canonical_path p /\ within_repository root p) paths.
Proof.
  intros [_ Hroot _ Hread _ _ _ _ _]%validatePlanProposal_Ok Ht.
  rewrite Forall_forall in Hread. specialize (Hread t Ht).
  pose proof (read_protocol _ _ _ Hread eq_refl) as Hp. split; [done|].
  destruct (repository_root constraints) as [root|] eqn:Er; [|by destruct Hroot].
  unfold assertProtocol13TaskSpecification in Hp.
  destruct (write_paths t) as [paths|] eqn:Ew; [|by inv_result].
  exists root, paths. destruct (read_paths _ _ _ Hread _ Ew) as [Hn Hf].
  do 3 (split; [done|]). eapply Forall_impl; [exact Hf|]. intros p Hpath. simpl in Hpath.
  by apply write_path_parts in Hpath as (_ & ? & _ & _ & ?); auto.
Qed.

(** Every task of a plan of several delivers a value of its own. *)
Theorem validated_plan_independent `{FileSystem} raw constraints mode plan :
  validatePlanProposal raw constraints mode = Ok plan -> (1 < length plan)%nat ->
  Forall (fun t => hasIndependentValue t = true) plan /\
  NoDup (map independentValueSignature plan).
Proof. intros Hv. apply (plan_value _ _ _ _ (validatePlanProposal_Ok _ _ _ _ Hv)). Qed.

(* ------------------------------------------------------------------ *)
(** ** Witnesses *)

#[local] Definition raw_task (taskId objective output : string) (deps : list string) : jsval :=
  JObj [("id", JStr taskId); ("objective", JStr objective);
        ("impact_paths", JArr [strings ["edge_1"]]);
        ("expected_outputs", strings [output]);
        ("capabilities", strings ["code"]); ("tools", strings ["edit"]);
        ("dependencies", strings deps); ("risk", JStr "low");
        ("budget", JObj [("steps", JNum (NInt 5)); ("tokens", JNum (NInt 100));
                         ("duration_ms", JNum (NInt 60000))]);
        ("write_paths", strings ["src/" +:+ output]);
        ("exclusive_resources", strings ["service-port:8080"]);
        ("acceptance", JArr [JObj [("description", JStr "works"); ("verification", JStr "unit")]]);
        ("required_gates", strings ["gate_a"]);
        ("assertions", JArr [JObj [("assertion_id", JStr "assert_1"); ("test_ids", strings ["test_1"]);
           ("required_gate_ids", strings ["gate_a"]); ("evidence_requirements", strings ["log"])]])].

#[local] Definition sample_constraints : PlannerConstraints :=
  Constraints ["code"] ["edit"] ["gate_a"] (Some "/repo").

#[local] Definition sample_proposal : jsval :=
  JArr [raw_task "task_b" "Use the index" "n_2" ["task_a"]; raw_task "task_a" "Add the index" "n_1" []].

#[local] Definition sample_plan : list TaskSpecification :=
  default [] (to_option (@validatePlanProposal sample_fs sample_proposal sample_constraints protocol13)).

Lemma sample_plan_Ok :
  @validatePlanProposal sample_fs sample_proposal sample_constraints protocol13 = Ok sample_plan.
Proof. vm_compute. reflexivity. Defined.

Lemma validated_plan_dag_witness :
  map id sample_plan = ["task_a"; "task_b"] /\ acyclic id dependencies sample_plan.
Proof.
  split; [vm_compute; reflexivity|].
  apply (@validated_plan_dag sample_fs sample_proposal sample_constraints protocol13), sample_plan_Ok.
Defined.

Lemma acyclicity_decided_witness :
  assertAcyclic sample_plan = Ok tt <-> closed_plan sample_plan /\ acyclic id dependencies sample_plan.
Proof. apply acyclicity_decided, has_duplicates_NoDup. vm_compute. reflexivity. Defined.

Lemma validated_plan_authorized_witness :
  exists t, t ∈ sample_plan /\ tools t ⊆ knownTools sample_constraints.
Proof.
  destruct sample_plan as [|t l] eqn:E; [vm_compute in E; discriminate|].
  exists t. assert (t ∈ t :: l) as Ht by left. split; [exact Ht|].
  apply (@validated_plan_authorized sample_fs sample_proposal sample_constraints protocol13 (t :: l));
    [rewrite <- E; apply sample_plan_Ok|exact Ht].
Defined.

Lemma validated_plan_claims_witness :
  exists t, t ∈ sample_plan /\ assertProtocol13TaskSpecification t = Ok tt.
Proof.
  destruct sample_plan as [|t l] eqn:E; [vm_compute in E; discriminate|].
  exists t. assert (t ∈ t :: l) as Ht by left. split; [exact Ht|].
  apply (@validated_plan_claims sample_fs sample_proposal sample_constraints (t :: l));
    [rewrite <- E; apply sample_plan_Ok|exact Ht].
Defined.

Lemma validated_plan_independent_witness : NoDup (map independentValueSignature sample_plan).
Proof.
  apply (@validated_plan_independent sample_fs sample_proposal sample_constraints protocol13);
    [apply sample_plan_Ok|vm_compute; reflexivity].
Defined.
