(* ===== verification/Waves.v ===== *)
(** * Parallel waves

    [packages/runtime/src/planning/waves.ts]: the deterministic layout of an
    approved task list into waves of tasks that may run at the same time. *)

From S2P Require Import Prelude Locator Json Kahn Task PlanValidator.

Record ParallelWave : Type := Wave { wave_index : Z; task_ids : list string }.
#[export] Instance ParallelWave_eq_dec : EqDecision ParallelWave.
Proof. solve_decision. Defined.

Definition writePathsOverlap (first second : string) : bool :=
  bool_decide (first = second) || starts_with first (second +:+ "/") ||
  starts_with second (first +:+ "/").

Record NormalizedTask : Type := NTask
  { nt_task : TaskSpecification;
    nt_position : nat;
    nt_writePaths : list string;
    nt_resources : list string }.

Definition nt_id (n : NormalizedTask) : string := id (nt_task n).
Definition nt_deps (n : NormalizedTask) : list string := dependencies (nt_task n).

#[export] Instance NormalizedTask_eq_dec : EqDecision NormalizedTask.
Proof. solve_decision. Defined.

Section waves.
Context `{FileSystem}.

(** The body of the [map] of [normalizeTasks]; the accumulator holds the
    tasks already normalized, so its length is the position. *)
Definition normalize_task (acc : list NormalizedTask) (task : TaskSpecification) :
  reading (list NormalizedTask) :=
  _ ← reject_if (mem (id task) (map nt_id acc)) (PlanningError invalid_specification);
  _ ← assertProtocol13TaskSpecification task;
  paths ← mapM (fun p => normalizeTaskWritePath p None) (default [] (write_paths task));
  resources ← mapM normalizeExclusiveResourceKey (default [] (exclusive_resources task));
  Ok (acc ++ [NTask task (length acc) paths (dedup resources)]).

Definition normalizeTasks (tasks : list TaskSpecification) : reading (list NormalizedTask) :=
  foldM normalize_task [] tasks.

(** [const insertAt = ready.findIndex((task) => task.position > dependent.position)] *)
Definition insert_by_position (ready : list NormalizedTask) (dependent : NormalizedTask) :
  list NormalizedTask :=
  match find_index (fun t => (nt_position dependent <? nt_position t)%nat) ready with
  | None => ready ++ [dependent]
  | Some i => take i ready ++ dependent :: drop i ready
  end.

(** The body of the loop over the dependencies of one task. *)
Definition link_known (tasks : list NormalizedTask) (task : NormalizedTask)
    (st : gmap string Z * gmap string (list NormalizedTask)) (dependency : string) :
  reading (gmap string Z * gmap string (list NormalizedTask)) :=
  if mem dependency (map nt_id tasks) then Ok (link nt_id task st dependency)
  else reject invalid_specification.

Definition stableTopologicalOrder (tasks : list NormalizedTask) : reading (list NormalizedTask) :=
  st ← foldM (fun st task => foldM (link_known tasks task) st (nt_deps task))
         (no_links nt_id tasks) tasks;
  let ready := filter (fun t => deg_of st.1 (nt_id t) = 0%Z) tasks in
  match kahn nt_id (dependents_of st.2) insert_by_position (length tasks) st.1 ready with
  | Some order =>
      if (length order =? length tasks)%nat then Ok order else reject dependency_cycle
  | None => reject dependency_cycle
  end.

Definition task_conflict (task member : NormalizedTask) : bool :=
  existsb (fun path => existsb (writePathsOverlap path) (nt_writePaths member)) (nt_writePaths task) ||
  existsb (fun resource => mem resource (nt_resources member)) (nt_resources task).

Definition conflictsWithWave (task : NormalizedTask) (members : list NormalizedTask) : bool :=
  existsb (task_conflict task) members.

(** [while (wave < waveMembers.length && conflictsWithWave(..)) wave += 1] *)
Fixpoint next_wave (fuel : nat) (task : NormalizedTask) (waves : list (list NormalizedTask))
    (wave : nat) : nat :=
  match fuel, waves !! wave with
  | S fuel', Some members =>
      if conflictsWithWave task members then next_wave fuel' task waves (S wave) else wave
  | _, _ => wave
  end.

(** [for (dependency of task.dependencies) wave = max(wave, placement + 1)];
    an unplaced dependency makes [wave] NaN and the access below throws. *)
Definition earliest_wave (placement : gmap string nat) (task : NormalizedTask) : reading nat :=
  foldM (fun wave dependency =>
    match placement !! dependency with
    | Some p => Ok (Nat.max wave (S p))
    | None => Err UncaughtTypeError
    end) 0 (nt_deps task).

Definition place (st : list (list NormalizedTask) * gmap string nat) (task : NormalizedTask) :
  reading (list (list NormalizedTask) * gmap string nat) :=
  let '(waves, placement) := st in
  start ← earliest_wave placement task;
  let wave := next_wave (length waves) task waves start in
  let waves' := if (wave =? length waves)%nat then waves ++ [[]] else waves in
  match waves' !! wave with
  | Some members => Ok (<[wave := members ++ [task]]> waves', <[nt_id task := wave]> placement)
  | None => Err UncaughtTypeError
  end.

Definition compileParallelWaves (tasks : list TaskSpecification) : reading (list ParallelWave) :=
  normalized ← normalizeTasks tasks;
  order ← stableTopologicalOrder normalized;
  st ← foldM place ([], ∅) order;
  Ok (imap (fun i members => Wave (Z.of_nat i) (map nt_id members)) st.1).

Definition wave_json (w : ParallelWave) : jsval :=
  JObj [("wave_index", JNum (NInt (wave_index w))); ("task_ids", strings (task_ids w))].

(** [canonicalizeJson] does not throw on waves; [Err] never compares equal
    to a text. *)
Definition assertParallelWaves (tasks : list TaskSpecification) (persisted : list ParallelWave) :
  reading unit :=
  compiled ← compileParallelWaves tasks;
  reject_if (negb (bool_decide (canonicalizeJson (JArr (map wave_json compiled)) =
                                canonicalizeJson (JArr (map wave_json persisted)))))
    (PlanningError wave_drift).
End waves.

(* ------------------------------------------------------------------ *)
(** ** Lemmas on claims *)

Lemma writePathsOverlap_sym p q : writePathsOverlap p q = writePathsOverlap q p.
Proof.
  unfold writePathsOverlap. rewrite (bool_decide_ext (p = q) (q = p)) by done.
  by destruct (bool_decide _), (starts_with p _), (starts_with q _).
Qed.

(** Two tasks conflict when they claim overlapping paths or one resource. *)
Lemma task_conflict_spec t u :
  task_conflict t u = true <->
  (exists p q, p ∈ nt_writePaths t /\ q ∈ nt_writePaths u /\ writePathsOverlap p q = true) \/
  (exists r, r ∈ nt_resources t /\ r ∈ nt_resources u).
Proof.
  unfold task_conflict. rewrite orb_true_iff, !existsb_Exists. setoid_rewrite existsb_Exists.
  setoid_rewrite mem_spec. naive_solver.
Qed.

Lemma task_conflict_sym t u : task_conflict t u = task_conflict u t.
Proof.
  apply eq_true_iff_eq. rewrite !task_conflict_spec.
  split; (intros [(p & q & Hp & Hq & Ho)|(r & ? & ?)]; [left|right; eauto]);
    exists q, p; rewrite writePathsOverlap_sym; auto.
Qed.

Lemma conflictsWithWave_false t members :
  conflictsWithWave t members = false <-> Forall (fun m => task_conflict t m = false) members.
Proof.
  unfold conflictsWithWave. rewrite Forall_forall. split.
  - intros Hc m Hm. destruct (task_conflict t m) eqn:E; [|done].
    rewrite <- Hc. symmetry. apply existsb_Exists. eauto.
  - intros Hf. destruct (existsb _ _) eqn:E; [|done].
    apply existsb_Exists in E as (m & Hm & E). by rewrite Hf in E.
Qed.

(** ** Lemmas on the order *)

Lemma insert_by_position_perm l x : insert_by_position l x ≡ₚ x :: l.
Proof.
  unfold insert_by_position. destruct (find_index _ _) as [i|].
  - by rewrite <- Permutation_middle, take_drop.
  - by rewrite Permutation_app_comm.
Qed.

Lemma insert_by_position_cons y l x :
  insert_by_position (y :: l) x =
    if (nt_position x <? nt_position y)%nat then x :: y :: l else y :: insert_by_position l x.
Proof.
  unfold insert_by_position. simpl. destruct (_ <? _)%nat; [done|].
  by destruct (find_index _ l).
Qed.

Lemma insert_by_position_sorted l x :
  StronglySorted (pos_le nt_position) l -> StronglySorted (pos_le nt_position) (insert_by_position l x).
Proof.
  induction 1 as [|y l Hl IH Hy]; [by repeat constructor|]. rewrite insert_by_position_cons.
  destruct (Nat.ltb_spec (nt_position x) (nt_position y)) as [Hlt|Hge].
  - constructor; [by constructor|]. constructor; [unfold pos_le; lia|].
    eapply Forall_impl; [exact Hy|]. unfold pos_le. intros; lia.
  - constructor; [done|]. rewrite insert_by_position_perm. by constructor.
Qed.

Definition known_deps (tasks : list NormalizedTask) : Prop :=
  forall t d, t ∈ tasks -> d ∈ nt_deps t -> d ∈ map nt_id tasks.

Lemma link_known_fold tasks :
  known_deps tasks ->
  foldM (fun st task => foldM (link_known tasks task) st (nt_deps task)) (no_links nt_id tasks) tasks =
  Ok (link_all nt_id nt_deps tasks).
Proof.
  intros Hk. apply foldM_pure. intros st t Ht. apply foldM_pure. intros st' d Hd.
  unfold link_known. by rewrite (proj2 (mem_spec d _) (Hk t d Ht Hd)).
Qed.

Lemma foldM_each {E A B} (f : B -> A -> result E B) l : forall b b' x,
  foldM f b l = Ok b' -> x ∈ l -> exists b1 b2, f b1 x = Ok b2.
Proof.
  induction l as [|y l IH]; intros b b' x Hf Hx; [by apply elem_of_nil in Hx|].
  simpl in Hf. apply bind_Ok in Hf as (b1 & Hy & Hf).
  apply elem_of_cons in Hx as [->|Hx]; [eauto|]. by eapply IH.
Qed.

Lemma link_known_Ok tasks st :
  foldM (fun st task => foldM (link_known tasks task) st (nt_deps task)) (no_links nt_id tasks) tasks =
  Ok st -> known_deps tasks.
Proof.
  intros Hf t d Ht Hd. destruct (foldM_each _ _ _ _ t Hf Ht) as (s1 & s2 & Hs).
  destruct (foldM_each _ _ _ _ d Hs Hd) as (r1 & r2 & Hr). unfold link_known in Hr.
  destruct (mem d _) eqn:E; [|done]. by apply mem_spec in E.
Qed.

(** The loop answers exactly on closed acyclic lists, and then with the
    order of the reference [greedy]. *)
Lemma topological_Ok tasks order :
  NoDup (map nt_id tasks) -> stableTopologicalOrder tasks = Ok order ->
  known_deps tasks /\ acyclic nt_id nt_deps tasks /\
  order ≡ₚ tasks /\ kahn_result nt_id nt_deps tasks order /\
  kahn_on nt_id nt_deps insert_by_position (fun l => l) tasks
    (filter (fun t => nt_deps t = []) tasks) = Some order.
Proof.
  intros Hnd Ho. unfold stableTopologicalOrder in Ho. apply bind_Ok in Ho as (st & Hst & Ho).
  pose proof (link_known_Ok _ _ Hst) as Hk. rewrite link_known_fold in Hst by done.
  injection Hst as <-. rewrite (ready_filter nt_id nt_deps) in Ho by done.
  destruct (kahn_on_correct nt_id nt_deps insert_by_position (fun l => l) insert_by_position_perm
    (fun l => reflexivity l) tasks (filter (fun t => nt_deps t = []) tasks) Hnd) as (out & Hout & Hr & Hl);
    [done|done|].
  assert (kahn nt_id (dependents_of (link_all nt_id nt_deps tasks).2) insert_by_position (length tasks)
    (link_all nt_id nt_deps tasks).1 (filter (fun t => nt_deps t = []) tasks) = Some out) as Hkahn by exact Hout.
  rewrite Hkahn in Ho. destruct (Nat.eqb_spec (length out) (length tasks)) as [El|]; [|done].
  injection Ho as ->. split; [done|]. split; [by apply Hl|]. split; [|done].
  destruct Hr as [H1 H2 _ _]. apply submseteq_length_Permutation; [by apply NoDup_submseteq|lia].
Qed.

Lemma topological_total tasks :
  NoDup (map nt_id tasks) -> known_deps tasks -> acyclic nt_id nt_deps tasks ->
  exists order, stableTopologicalOrder tasks = Ok order.
Proof.
  intros Hnd Hk Ha. unfold stableTopologicalOrder. rewrite link_known_fold by done. simpl.
  rewrite (ready_filter nt_id nt_deps) by done.
  destruct (kahn_on_correct nt_id nt_deps insert_by_position (fun l => l) insert_by_position_perm
    (fun l => reflexivity l) tasks (filter (fun t => nt_deps t = []) tasks) Hnd) as (out & Hout & Hr & Hl);
    [done|done|].
  assert (kahn nt_id (dependents_of (link_all nt_id nt_deps tasks).2) insert_by_position (length tasks)
    (link_all nt_id nt_deps tasks).1 (filter (fun t => nt_deps t = []) tasks) = Some out) as -> by exact Hout.
  exists out. by rewrite (proj2 (Nat.eqb_eq _ _) (proj2 Hl Ha)).
Qed.

(** ** Lemmas on the placement *)

Lemma next_wave_spec fuel t waves : forall start,
  (start <= length waves)%nat -> (length waves <= fuel + start)%nat ->
  let w := next_wave fuel t waves start in
  (start <= w <= length waves)%nat /\
  (forall members, waves !! w = Some members -> conflictsWithWave t members = false) /\
  (forall k, (start <= k < w)%nat ->
     exists members, waves !! k = Some members /\ conflictsWithWave t members = true).
Proof.
  induction fuel as [|fuel IH]; intros start Hs Hf; simpl.
  - assert (start = length waves) as -> by lia. split; [lia|]. split; [|lia].
    intros m Hm. apply lookup_lt_Some in Hm. lia.
  - destruct (waves !! start) as [members|] eqn:El.
    + destruct (conflictsWithWave t members) eqn:Ec.
      * apply lookup_lt_Some in El as Hlt.
        destruct (IH (S start)) as (H1 & H2 & H3); [lia..|]. split; [lia|]. split; [done|].
        intros k Hk. destruct (decide (k = start)) as [->|]; [eauto|]. apply H3. lia.
      * split; [lia|]. split; [|lia]. intros m Hm. congruence.
    + split; [lia|]. split; [|lia]. intros m Hm. congruence.
Qed.

(** The state of the loop once the tasks of [done] are placed. *)
Record placed_inv (done : list NormalizedTask) (waves : list (list NormalizedTask))
    (placement : gmap string nat) : Prop := {
  pl_all : concat waves ≡ₚ done;
  pl_nonempty : Forall (fun members => members <> []) waves;
  pl_known : forall d, is_Some (placement !! d) <-> d ∈ map nt_id done;
  pl_wave : forall w members t,
    waves !! w = Some members -> t ∈ members -> placement !! nt_id t = Some w;
  pl_bound : forall d w, placement !! d = Some w -> (w < length waves)%nat;
  pl_deps : forall t d w, t ∈ done -> d ∈ nt_deps t -> placement !! nt_id t = Some w ->
    exists w', placement !! d = Some w' /\ (w' < w)%nat;
  pl_free : forall members t u,
    members ∈ waves -> t ∈ members -> u ∈ members -> t <> u -> task_conflict t u = false;
  pl_early : forall t w k, t ∈ done -> placement !! nt_id t = Some w -> (k < w)%nat ->
    (exists d w', d ∈ nt_deps t /\ placement !! d = Some w' /\ (k <= w')%nat) \/
    (exists members u, waves !! k = Some members /\ u ∈ members /\ task_conflict t u = true)
}.

Lemma earliest_wave_spec placement t :
  (forall d, d ∈ nt_deps t -> is_Some (placement !! d)) ->
  exists start, earliest_wave placement t = Ok start /\
    (forall d w, d ∈ nt_deps t -> placement !! d = Some w -> (w < start)%nat) /\
    (start = 0%nat \/ exists d w, d ∈ nt_deps t /\ placement !! d = Some w /\ start = S w).
Proof.
  unfold earliest_wave. intros Hk.
  assert (forall ds acc, (forall d, d ∈ ds -> is_Some (placement !! d)) ->
    exists start, foldM (fun wave dependency => match placement !! dependency with
        | Some p => Ok (Nat.max wave (S p)) | None => Err UncaughtTypeError end) acc ds = Ok start /\
      (acc <= start)%nat /\
      (forall d w, d ∈ ds -> placement !! d = Some w -> (w < start)%nat) /\
      (start = acc \/ exists d w, d ∈ ds /\ placement !! d = Some w /\ start = S w)) as Hgen.
  { induction ds as [|d ds IH]; intros acc Hd; simpl.
    - exists acc. split; [done|]. split; [lia|]. split; [|by left].
      intros d w Hin. by apply elem_of_nil in Hin.
    - destruct (Hd d) as [p Hp]; [left|]. rewrite Hp; simpl.
      destruct (IH (Nat.max acc (S p))) as (start & Hs & Hle & Hlt & Hor).
      { intros d' Hd'. apply Hd. by right. }
      exists start. split; [done|]. split; [lia|]. split.
      + intros d' w [->|Hd']%elem_of_cons Hw; [|by eapply Hlt].
        rewrite Hp in Hw. injection Hw as <-. lia.
      + destruct Hor as [->|(d' & w & Hd' & Hw & ->)].
        * destruct (Nat.max_spec acc (S p)) as [[? ->]|[? ->]]; [|by left].
          right. exists d, p. split; [left|done].
        * right. exists d', w. split; [by right|done]. }
  destruct (Hgen (nt_deps t) 0%nat Hk) as (start & ? & _ & ? & ?). eauto.
Qed.

Lemma placed_inv_nil : placed_inv [] [] ∅.
Proof.
  split; try done.
  - intros d. rewrite lookup_empty. split; [by intros []|]. intros H. by apply elem_of_nil in H.
  - intros t d w Ht. by apply elem_of_nil in Ht.
Qed.

(** Adding [t] to wave [w] of [waves], which may be one past the end. *)
Definition extend_waves (waves : list (list NormalizedTask)) (w : nat) (t : NormalizedTask) :
  list (list NormalizedTask) :=
  if decide (w < length waves)%nat then alter (fun members => members ++ [t]) w waves
  else waves ++ [[t]].

Lemma extend_waves_lookup waves w t k :
  (w <= length waves)%nat ->
  extend_waves waves w t !! k =
    if decide (k = w) then Some (default [] (waves !! w) ++ [t]) else waves !! k.
Proof.
  intros Hw. unfold extend_waves. destruct (decide (w < length waves)%nat) as [Hlt|Hge].
  - destruct (decide (k = w)) as [->|Hk].
    + rewrite list_lookup_alter. rewrite decide_True by done.
      destruct (lookup_lt_is_Some_2 _ _ Hlt) as [m Hm]. by rewrite Hm.
    + rewrite list_lookup_alter_ne by done. done.
  - assert (w = length waves) as -> by lia. destruct (decide (k = length waves)) as [->|Hk].
    + rewrite lookup_app_r, Nat.sub_diag by lia. by rewrite (lookup_ge_None_2 waves) by lia.
    + destruct (decide (k < length waves)%nat).
      * by rewrite lookup_app_l.
      * rewrite !lookup_ge_None_2; [done|lia|]. rewrite length_app. simpl. lia.
Qed.

Lemma extend_waves_length waves w t :
  (w <= length waves)%nat -> length (extend_waves waves w t) = Nat.max (length waves) (S w).
Proof.
  intros Hw. unfold extend_waves. case_decide; [rewrite length_alter; lia|].
  rewrite length_app. simpl. lia.
Qed.

Lemma extend_waves_concat waves w t :
  (w <= length waves)%nat -> concat (extend_waves waves w t) ≡ₚ t :: concat waves.
Proof.
  intros Hw. unfold extend_waves. case_decide as Hlt.
  - clear Hw. revert w Hlt. induction waves as [|m l IH]; intros [|w] Hlt; simpl in *; try lia.
    + rewrite <- app_assoc. simpl. by rewrite <- Permutation_middle.
    + change (alter (λ members, members ++ [t]) (S w) (m :: l))
        with (m :: alter (λ members, members ++ [t]) w l). simpl.
      rewrite (IH w) by lia. by rewrite <- Permutation_middle.
  - rewrite concat_app. simpl. by rewrite Permutation_app_comm.
Qed.

(** What [place] does when the dependencies of the task are placed. *)
Lemma place_eq waves placement t start :
  earliest_wave placement t = Ok start -> (start <= length waves)%nat ->
  let w := next_wave (length waves) t waves start in
  place (waves, placement) t = Ok (extend_waves waves w t, <[nt_id t := w]> placement).
Proof.
  intros Hs Hle w. unfold place. rewrite Hs. simpl. fold w.
  destruct (next_wave_spec (length waves) t waves start) as (Hw & _ & _); [done|lia|]. fold w in Hw.
  destruct (Nat.eqb_spec w (length waves)) as [->|Hne].
  - rewrite lookup_app_r, Nat.sub_diag by lia. simpl. unfold extend_waves.
    rewrite decide_False by lia. do 2 f_equal.
    rewrite insert_app_r_alt by lia. by rewrite Nat.sub_diag.
  - assert (w < length waves)%nat as Hlt by lia.
    destruct (lookup_lt_is_Some_2 _ _ Hlt) as [m Hm]. rewrite Hm.
    unfold extend_waves. rewrite decide_True by done. do 2 f_equal.
    symmetry. by apply (list_insert_alter (fun members => members ++ [t])).
Qed.

Section place_step.
Context (done : list NormalizedTask) (waves : list (list NormalizedTask)) (placement : gmap string nat).
Hypothesis inv : placed_inv done waves placement.
Variable t : NormalizedTask.
Hypothesis fresh : nt_id t ∉ map nt_id done.
Hypothesis ready : forall d, d ∈ nt_deps t -> d ∈ map nt_id done.

Lemma fresh_member w members u : waves !! w = Some members -> u ∈ members -> nt_id u <> nt_id t.
Proof.
  intros Hw Hu E. apply (pl_wave _ _ _ inv _ _ _ Hw) in Hu. apply fresh. rewrite <- E.
  by apply (pl_known _ _ _ inv); eexists.
Qed.

Lemma fresh_done u : u ∈ done -> nt_id u <> nt_id t.
Proof. intros Hu E. apply fresh. rewrite <- E. by apply (list_elem_of_fmap_2 nt_id). Qed.

Lemma place_extend start w :
  (forall d p, d ∈ nt_deps t -> placement !! d = Some p -> (p < start)%nat) ->
  (start = 0%nat \/ exists d p, d ∈ nt_deps t /\ placement !! d = Some p /\ start = S p) ->
  (start <= w <= length waves)%nat ->
  (forall members, waves !! w = Some members -> conflictsWithWave t members = false) ->
  (forall k, (start <= k < w)%nat ->
     exists members, waves !! k = Some members /\ conflictsWithWave t members = true) ->
  placed_inv (done ++ [t]) (extend_waves waves w t) (<[nt_id t := w]> placement).
Proof.
  intros Hlt Hmax Hw Hfree Hbusy.
  assert (forall d, d ∈ map nt_id done -> (<[nt_id t := w]> placement : gmap _ _) !! d = placement !! d) as Hold.
  { intros d Hd. apply lookup_insert_ne. intros <-. done. }
  assert (forall k members, extend_waves waves w t !! k = Some members -> forall u, u ∈ members ->
            (k = w /\ u = t) \/ exists old, waves !! k = Some old /\ u ∈ old) as Hmem.
  { intros k m Hk u Hu. rewrite extend_waves_lookup in Hk by lia.
    destruct (decide (k = w)) as [->|]; [|eauto]. injection Hk as <-.
    apply elem_of_app in Hu as [Hu|Hu%list_elem_of_singleton]; [|by left].
    destruct (waves !! w) as [old|]; [eauto|by apply elem_of_nil in Hu]. }
  split.
  - rewrite extend_waves_concat, (pl_all _ _ _ inv) by lia. by rewrite Permutation_app_comm.
  - apply Forall_lookup. intros k m Hk. rewrite extend_waves_lookup in Hk by lia.
    destruct (decide (k = w)); [injection Hk as <-; by destruct (default _ _)|].
    by eapply Forall_lookup in Hk; [|apply (pl_nonempty _ _ _ inv)].
  - intros d. rewrite lookup_insert, map_app, elem_of_app, <- (pl_known _ _ _ inv). simpl.
    rewrite list_elem_of_singleton. destruct (decide (nt_id t = d)); [split; eauto|].
    split; [by left|]. intros [?|?]; [done|congruence].
  - intros k m u Hk Hu. destruct (Hmem k m Hk u Hu) as [[-> ->]|(old & Ho & Hu')].
    + apply lookup_insert_eq.
    + rewrite lookup_insert_ne by (apply not_eq_sym; by eapply fresh_member).
      by eapply (pl_wave _ _ _ inv).
  - intros d k. rewrite lookup_insert, extend_waves_length by lia.
    case_decide; [intros [= <-]; lia|]. intros Hk%(pl_bound _ _ _ inv). lia.
  - intros u d k [Hu|Hu%list_elem_of_singleton]%elem_of_app Hd Hk.
    + rewrite lookup_insert_ne in Hk by (apply not_eq_sym; by apply fresh_done).
      destruct (pl_deps _ _ _ inv u d k Hu Hd Hk) as (k' & Hk' & ?). exists k'. split; [|done].
      rewrite Hold; [done|]. apply (pl_known _ _ _ inv). by eexists.
    + subst. rewrite lookup_insert_eq in Hk. injection Hk as <-.
      destruct (proj2 (pl_known _ _ _ inv d) (ready d Hd)) as [p Hp]. exists p.
      rewrite Hold by by apply ready. split; [done|]. specialize (Hlt d p Hd Hp). lia.
  - intros m a b [k Hk]%list_elem_of_lookup Ha Hb Hab.
    destruct (Hmem k m Hk a Ha) as [[E1 ->]|(o1 & Ho1 & Ha')],
      (Hmem k m Hk b Hb) as [[E2 ->]|(o2 & Ho2 & Hb')]; try done.
    + subst k. apply Hfree, conflictsWithWave_false in Ho2. rewrite Forall_forall in Ho2. auto.
    + subst k. apply Hfree, conflictsWithWave_false in Ho1. rewrite Forall_forall in Ho1.
      rewrite task_conflict_sym. auto.
    + rewrite Ho1 in Ho2. injection Ho2 as <-. eapply (pl_free _ _ _ inv o1); try done.
      by eapply list_elem_of_lookup_2.
  - intros u k j [Hu|Hu%list_elem_of_singleton]%elem_of_app Hk Hj.
    + rewrite lookup_insert_ne in Hk by (apply not_eq_sym; by apply fresh_done).
      destruct (pl_early _ _ _ inv u k j Hu Hk Hj) as [(d & p & Hd & Hp & Hjp)|(m & v & Hm & Hv & Hc)].
      * left. exists d, p. split; [done|]. rewrite Hold; [done|]. apply (pl_known _ _ _ inv). by eexists.
      * right. rewrite extend_waves_lookup by lia. case_decide as E.
        -- subst. rewrite Hm. eexists _, v. split; [done|]. split; [|done]. apply elem_of_app. by left.
        -- by exists m, v.
    + subst. rewrite lookup_insert_eq in Hk. injection Hk as <-.
      destruct (decide (j < start)%nat) as [Hjs|Hjs].
      * destruct Hmax as [->|(d & p & Hd & Hp & ->)]; [lia|]. left. exists d, p. split; [done|].
        rewrite Hold by by apply ready. split; [done|lia].
      * right. destruct (Hbusy j) as (m & Hm & Hc); [lia|].
        apply existsb_Exists in Hc as (v & Hv & Hc). exists m, v. split; [|done].
        rewrite extend_waves_lookup, decide_False by lia. done.
Qed.

Lemma place_step :
  exists waves' placement', place (waves, placement) t = Ok (waves', placement') /\
    placed_inv (done ++ [t]) waves' placement'.
Proof.
  destruct (earliest_wave_spec placement t) as (start & Hs & Hlt & Hmax).
  { intros d Hd. by apply (pl_known _ _ _ inv), ready. }
  assert (start <= length waves)%nat as Hle.
  { destruct Hmax as [->|(d & p & _ & Hp & ->)]; [lia|]. apply (pl_bound _ _ _ inv) in Hp. lia. }
  rewrite (place_eq waves placement t start Hs Hle).
  destruct (next_wave_spec (length waves) t waves start) as (Hw & Hf & Hb); [done|lia|].
  eexists _, _. split; [done|]. by eapply place_extend.
Qed.
End place_step.

Lemma place_all order :
  NoDup (map nt_id order) -> ordered nt_id nt_deps order ->
  exists waves placement, foldM place ([], ∅) order = Ok (waves, placement) /\
    placed_inv order waves placement.
Proof.
  intros Hnd Hord.
  assert (forall todo done waves placement, order = done ++ todo -> placed_inv done waves placement ->
    exists waves' placement', foldM place (waves, placement) todo = Ok (waves', placement') /\
      placed_inv order waves' placement') as Hgen.
  { induction todo as [|t todo IH]; intros done waves placement E Hinv.
    - rewrite app_nil_r in E. subst. eexists _, _. split; done.
    - destruct (place_step done waves placement Hinv t) as (w' & p' & Hp & Hinv').
      + rewrite E, map_app in Hnd. apply NoDup_app in Hnd as (_ & Hd & _). intros Hin.
        apply (Hd _ Hin). left.
      + intros d Hd. by apply (Hord done t todo).
      + cbn [foldM]. rewrite Hp. cbn [mbind result_bind]. apply (IH (done ++ [t])); [by rewrite <- app_assoc|done]. }
  by apply (Hgen order []); [|apply placed_inv_nil].
Qed.

(** ** Lemmas on normalization *)

Definition claimed_paths (t : TaskSpecification) : list string := default [] (write_paths t).
Definition claimed_resources (t : TaskSpecification) : list string := default [] (exclusive_resources t).

Definition schedulable `{FileSystem} (t : TaskSpecification) : Prop :=
  assertProtocol13TaskSpecification t = Ok tt /\
  Forall (fun p => normalizeTaskWritePath p None = Ok p) (claimed_paths t) /\
  Forall (fun k => normalizeExclusiveResourceKey k = Ok k) (claimed_resources t).

Definition normal_form (i : nat) (t : TaskSpecification) : NormalizedTask :=
  NTask t i (claimed_paths t) (dedup (claimed_resources t)).

Lemma mapM_fixed {A} (f : A -> reading A) l k :
  (forall p q, f p = Ok q -> q = p) ->
  mapM f l = Ok k <-> k = l /\ Forall (fun p => f p = Ok p) l.
Proof.
  intros Hf. rewrite mapM_Ok. split.
  - induction 1 as [|x y l k Hx _ [-> IH]]; [by split|]. pose proof (Hf _ _ Hx) as ->.
    split; [done|by constructor].
  - intros [-> H]. by induction H; constructor.
Qed.

Lemma normalize_task_Ok `{FileSystem} acc t r :
  normalize_task acc t = Ok r <->
  (id t ∉ map nt_id acc) /\ schedulable t /\ r = acc ++ [normal_form (length acc) t].
Proof.
  unfold normalize_task, schedulable, normal_form, claimed_paths, claimed_resources. split.
  - intros Hn. apply bind_Ok in Hn as (u1 & Hm%reject_if_Ok & Hn).
    apply bind_Ok in Hn as (u2 & Hp & Hn). apply bind_Ok in Hn as (ps & Hps & Hn).
    apply bind_Ok in Hn as (rs & Hrs & [= <-]). apply mem_false in Hm. destruct u2.
    apply mapM_fixed in Hps as [-> Hps]; [|by intros ? ?; apply write_path_id].
    apply mapM_fixed in Hrs as [-> Hrs]; [|by intros ? ?; apply resource_key_id].
    done.
  - intros (Hm & (Hp & Hps & Hrs) & ->). rewrite (proj2 (mem_false _ _) Hm). simpl.
    rewrite Hp. simpl. rewrite (mapM_id _ _ Hps). simpl. by rewrite (mapM_id _ _ Hrs).
Qed.

Lemma normalizeTasks_Ok `{FileSystem} tasks ns :
  normalizeTasks tasks = Ok ns <->
  NoDup (map id tasks) /\ Forall schedulable tasks /\ ns = imap normal_form tasks.
Proof.
  unfold normalizeTasks.
  assert (forall l acc, foldM normalize_task acc l = Ok ns <->
    NoDup (map id l) /\ (forall t, t ∈ l -> id t ∉ map nt_id acc) /\ Forall schedulable l /\
    ns = acc ++ imap (fun i => normal_form (length acc + i)) l) as Hgen.
  { induction l as [|t l IH]; intros acc.
    - simpl. rewrite app_nil_r. split.
      + intros [= <-]. repeat split; try constructor. intros t Ht. by apply elem_of_nil in Ht.
      + by intros (_ & _ & _ & ->).
    - cbn [foldM]. rewrite bind_Ok. setoid_rewrite normalize_task_Ok. setoid_rewrite IH.
      rewrite imap_cons. cbn [map]. rewrite NoDup_cons, Forall_cons.
      assert (imap (fun i => normal_form (length (acc ++ [normal_form (length acc) t]) + i)) l =
        imap (fun i => normal_form (length acc + S i)) l) as Hi.
      { apply imap_ext. intros i x _. rewrite length_app. f_equal. simpl. lia. }
      split.
      + intros (r & (Hm & Ht & ->) & Hnd & Hdis & Hs & ->).
        split; [split; [|done]|split; [|split; [done|]]].
        * intros (u & Eu & Hu)%list_elem_of_fmap. apply (Hdis u Hu).
          rewrite map_app, elem_of_app. right. rewrite <- Eu. left.
        * intros u [->|Hu]%elem_of_cons; [done|]. intros Hin. apply (Hdis u Hu).
          rewrite map_app, elem_of_app. by left.
        * rewrite Hi, <- app_assoc. simpl. by rewrite Nat.add_0_r.
      + intros ([Hnt Hnd] & Hdis & [Ht Hs] & ->). eexists. split; [split; [|split; [exact Ht|reflexivity]]|].
        { apply Hdis. left. }
        split; [done|]. split; [|split; [done|]].
        * intros u Hu Hin. rewrite map_app, elem_of_app in Hin. destruct Hin as [Hin|Hin].
          -- apply (Hdis u); [by right|done].
          -- apply Hnt. apply list_elem_of_singleton in Hin. change (id u = id t) in Hin.
             rewrite <- Hin. by apply (list_elem_of_fmap_2 id).
        * rewrite Hi, <- app_assoc. simpl. by rewrite Nat.add_0_r. }
  rewrite Hgen. simpl. split; [tauto|]. intros (? & ? & ->). repeat split; auto.
  intros t _ Hin. by apply elem_of_nil in Hin.
Qed.

Lemma normal_ids tasks : map nt_id (imap normal_form tasks) = map id tasks.
Proof.
  change (nt_id <$> imap normal_form tasks = id <$> tasks). rewrite fmap_imap.
  apply list_eq. intros i. rewrite list_lookup_imap, list_lookup_fmap. by destruct (tasks !! i).
Qed.

Lemma elem_of_normal tasks n :
  n ∈ imap normal_form tasks <-> exists i t, tasks !! i = Some t /\ n = normal_form i t.
Proof.
  split.
  - intros (i & t & Hn & Ht)%elem_of_lookup_imap_1. eauto.
  - intros (i & t & Ht & ->). by eapply elem_of_lookup_imap_2.
Qed.

Lemma normal_known tasks :
  known_deps (imap normal_form tasks) <->
  forall t d, t ∈ tasks -> d ∈ dependencies t -> d ∈ map id tasks.
Proof.
  unfold known_deps. rewrite normal_ids. split.
  - intros Hk t d [i Hi]%list_elem_of_lookup Hd. apply (Hk (normal_form i t)); [|done].
    apply elem_of_normal. eauto.
  - intros Hk n d (i & t & Ht & ->)%elem_of_normal. apply Hk. by eapply list_elem_of_lookup_2.
Qed.

Lemma normal_acyclic tasks :
  acyclic nt_id nt_deps (imap normal_form tasks) <-> acyclic id dependencies tasks.
Proof.
  split; intros [rank Hr]; exists rank.
  - intros t d [i Hi]%list_elem_of_lookup Hd. apply (Hr (normal_form i t)); [|done].
    apply elem_of_normal. eauto.
  - intros n d (i & t & Ht & ->)%elem_of_normal. apply Hr. by eapply list_elem_of_lookup_2.
Qed.

(** ** What compiling establishes *)

Definition in_wave (ws : list ParallelWave) (i : nat) (taskId : string) : Prop :=
  exists w, ws !! i = Some w /\ taskId ∈ task_ids w.

Definition claims_conflict (t u : TaskSpecification) : Prop :=
  (exists p q, p ∈ claimed_paths t /\ q ∈ claimed_paths u /\ writePathsOverlap p q = true) \/
  (exists r, r ∈ claimed_resources t /\ r ∈ claimed_resources u).

(** A list [compileParallelWaves] can lay out. *)
Definition compilable `{FileSystem} (tasks : list TaskSpecification) : Prop :=
  NoDup (map id tasks) /\ Forall schedulable tasks /\
  (forall t d, t ∈ tasks -> d ∈ dependencies t -> d ∈ map id tasks) /\
  acyclic id dependencies tasks.

Record wave_layout (tasks : list TaskSpecification) (ws : list ParallelWave) : Prop := {
  lay_ids : NoDup (map id tasks);
  lay_all : concat (map task_ids ws) ≡ₚ map id tasks;
  lay_index : map wave_index ws = map Z.of_nat (seq 0 (length ws));
  lay_nonempty : Forall (fun w => task_ids w <> []) ws;
  lay_deps : forall t d i, t ∈ tasks -> d ∈ dependencies t -> in_wave ws i (id t) ->
    exists j, in_wave ws j d /\ (j < i)%nat;
  lay_free : forall t u i, t ∈ tasks -> u ∈ tasks -> id t <> id u ->
    in_wave ws i (id t) -> in_wave ws i (id u) -> ~ claims_conflict t u;
  lay_early : forall t i k, t ∈ tasks -> in_wave ws i (id t) -> (k < i)%nat ->
    (exists d j, d ∈ dependencies t /\ in_wave ws j d /\ (k <= j)%nat) \/
    (exists u, u ∈ tasks /\ in_wave ws k (id u) /\ claims_conflict t u)
}.

Lemma conflict_normal i j t u :
  task_conflict (normal_form i t) (normal_form j u) = true <-> claims_conflict t u.
Proof.
  rewrite task_conflict_spec. unfold claims_conflict, normal_form; simpl.
  by setoid_rewrite elem_of_dedup.
Qed.

Section layout.
Variables (tasks : list TaskSpecification) (order : list NormalizedTask).
Variables (waves : list (list NormalizedTask)) (placement : gmap string nat).
Hypothesis ids_NoDup : NoDup (map id tasks).
Hypothesis order_perm : order ≡ₚ imap normal_form tasks.
Hypothesis inv : placed_inv order waves placement.

Definition layout : list ParallelWave :=
  imap (fun i members => Wave (Z.of_nat i) (map nt_id members)) waves.

Lemma layout_lookup i : layout !! i = (fun m => Wave (Z.of_nat i) (map nt_id m)) <$> waves !! i.
Proof. unfold layout. by rewrite list_lookup_imap. Qed.

Lemma placed_in_wave i d : placement !! d = Some i <-> in_wave layout i d.
Proof.
  unfold in_wave. split.
  - intros Hp. assert (d ∈ map nt_id order) as (n & -> & Hn)%(list_elem_of_fmap_1 nt_id)
      by (apply (pl_known _ _ _ inv); by eexists).
    rewrite <- (pl_all _ _ _ inv) in Hn. apply list_elem_of_In, in_concat in Hn as (m & Hm & Hn).
    apply list_elem_of_In in Hm, Hn. apply list_elem_of_lookup in Hm as [k Hk].
    pose proof (pl_wave _ _ _ inv k m n Hk Hn) as Hp'. rewrite Hp in Hp'. injection Hp' as <-.
    exists (Wave (Z.of_nat i) (map nt_id m)). rewrite layout_lookup, Hk. split; [done|].
    by apply (list_elem_of_fmap_2 nt_id).
  - intros (w & Hw & Hd). rewrite layout_lookup in Hw.
    destruct (waves !! i) as [m|] eqn:Ei; [|done]. injection Hw as <-. simpl in Hd.
    apply (list_elem_of_fmap_1 nt_id) in Hd as (n & -> & Hn). by apply (pl_wave _ _ _ inv i m n).
Qed.

Lemma order_task t : t ∈ tasks -> exists i, normal_form i t ∈ order.
Proof.
  intros [i Hi]%list_elem_of_lookup. exists i. rewrite order_perm. apply elem_of_normal. eauto.
Qed.

Lemma order_member n : n ∈ order -> exists i t, t ∈ tasks /\ n = normal_form i t.
Proof.
  rewrite order_perm. intros (i & t & Ht & ->)%elem_of_normal.
  exists i, t. split; [by eapply list_elem_of_lookup_2|done].
Qed.

Lemma member_order k m n : waves !! k = Some m -> n ∈ m -> n ∈ order.
Proof.
  intros Hm Hn. rewrite <- (pl_all _ _ _ inv). apply list_elem_of_In, in_concat.
  exists m. split; apply list_elem_of_In; [by eapply list_elem_of_lookup_2|done].
Qed.

(** The member of a wave that carries the id of a task. *)
Lemma wave_member i t : t ∈ tasks -> in_wave layout i (id t) ->
  exists m j, waves !! i = Some m /\ normal_form j t ∈ m.
Proof.
  intros Ht (w & Hw & Hd). rewrite layout_lookup in Hw.
  destruct (waves !! i) as [m|] eqn:Ei; [|done]. injection Hw as <-. simpl in Hd.
  apply (list_elem_of_fmap_1 nt_id) in Hd as (n & En & Hn).
  destruct (order_member n) as (j & u & Hu & ->); [by eapply member_order|].
  assert (t = u) as <- by (by apply (NoDup_keys_inj id tasks)). eauto.
Qed.

Lemma layout_holds : wave_layout tasks layout.
Proof.
  split; [done| | | | | |].
  - assert (concat (map task_ids layout) = map nt_id (concat waves)) as ->.
    { rewrite concat_map. unfold layout. f_equal.
      change (task_ids <$> imap (fun i m => Wave (Z.of_nat i) (map nt_id m)) waves = map nt_id <$> waves).
      rewrite fmap_imap. apply list_eq. intros i. rewrite list_lookup_imap, list_lookup_fmap.
      by destruct (waves !! i). }
    by rewrite (pl_all _ _ _ inv), order_perm, normal_ids.
  - change (wave_index <$> layout = Z.of_nat <$> seq 0 (length layout)). unfold layout.
    rewrite fmap_imap, length_imap. apply list_eq. intros i.
    rewrite list_lookup_imap, list_lookup_fmap. destruct (waves !! i) eqn:E; simpl.
    + apply lookup_lt_Some in E. by rewrite lookup_seq_lt.
    + apply lookup_ge_None in E. by rewrite lookup_seq_ge.
  - apply Forall_lookup. intros i w Hw. rewrite layout_lookup in Hw.
    destruct (waves !! i) as [m|] eqn:E; [|done]. injection Hw as <-. simpl.
    eapply Forall_lookup in E; [|apply (pl_nonempty _ _ _ inv)]. by destruct m.
  - intros t d i Ht Hd Hi%placed_in_wave. destruct (order_task t Ht) as [j Hj].
    destruct (pl_deps _ _ _ inv _ d i Hj Hd Hi) as (k & Hk & ?).
    exists k. by rewrite <- placed_in_wave.
  - intros t u i Ht Hu Hne Hit Hiu Hc.
    destruct (wave_member i t Ht Hit) as (m & j & Hm & Hj), (wave_member i u Hu Hiu) as (m' & k & Hm' & Hk).
    rewrite Hm in Hm'. injection Hm' as <-. apply (conflict_normal j k) in Hc.
    rewrite (pl_free _ _ _ inv m) in Hc; try done; [by eapply list_elem_of_lookup_2|].
    intros E. by apply (f_equal nt_id) in E.
  - intros t i k Ht Hi%placed_in_wave Hk. destruct (order_task t Ht) as [j Hj].
    destruct (pl_early _ _ _ inv _ i k Hj Hi Hk) as [(d & w & Hd & Hw & ?)|(m & n & Hm & Hn & Hc)].
    + left. exists d, w. split; [done|]. by rewrite <- placed_in_wave.
    + right. destruct (order_member n) as (l & u & Hu & ->); [by eapply member_order|].
      exists u. split; [done|]. split; [|by apply conflict_normal in Hc].
      apply placed_in_wave. by apply (pl_wave _ _ _ inv k m (normal_form l u)).
Qed.
End layout.

Lemma compile_Ok `{FileSystem} tasks ws :
  compileParallelWaves tasks = Ok ws -> compilable tasks /\ wave_layout tasks ws.
Proof.
  unfold compileParallelWaves. intros Hc. apply bind_Ok in Hc as (ns & Hn & Hc).
  apply normalizeTasks_Ok in Hn as (Hnd & Hs & ->). apply bind_Ok in Hc as (order & Ho & Hc).
  apply topological_Ok in Ho as (Hk & Ha & Hp & [Hrn _ Hro _] & _); [|by rewrite normal_ids].
  split; [repeat split; [done|done|by apply normal_known|by apply normal_acyclic]|].
  destruct (place_all order) as (waves & placement & Hf & Hinv).
  - change (NoDup (nt_id <$> order)). rewrite Hp. change (NoDup (map nt_id (imap normal_form tasks))).
    by rewrite normal_ids.
  - done.
  - rewrite Hf in Hc. injection Hc as <-. by eapply layout_holds.
Qed.

Lemma compile_total `{FileSystem} tasks : compilable tasks -> exists ws, compileParallelWaves tasks = Ok ws.
Proof.
  intros (Hnd & Hs & Hk & Ha). unfold compileParallelWaves.
  rewrite (proj2 (normalizeTasks_Ok tasks _) (conj Hnd (conj Hs eq_refl))). simpl.
  destruct (topological_total (imap normal_form tasks)) as [order Ho];
    [by rewrite normal_ids|by apply normal_known|by apply normal_acyclic|].
  rewrite Ho. apply topological_Ok in Ho as (_ & _ & Hp & [_ _ Hro _] & _); [|by rewrite normal_ids].
  destruct (place_all order) as (waves & placement & Hf & Hinv); [|done|].
  - change (NoDup (nt_id <$> order)). rewrite Hp. change (NoDup (map nt_id (imap normal_form tasks))).
    by rewrite normal_ids.
  - cbn [mbind result_bind]. rewrite Hf. eauto.
Qed.

Lemma split_on_prefix c segs s :
  segs <> [] -> Forall (fun x => no_char c x = true) segs ->
  split_on c (join (String c "") segs +:+ String c s) = segs ++ split_on c s.
Proof.
  intros Hne Hf. induction Hf as [|x l Hx Hl IH]; [done|]. destruct l as [|y l].
  - by apply split_on_app.
  - rewrite join_cons by done. rewrite <- !string_app_assoc.
    change (String c "" +:+ ?z) with (String c z). rewrite split_on_app by done. simpl. f_equal.
    by apply IH.
Qed.

Lemma starts_with_segments p q sp sq :
  canonical_path p -> split_on "/" p = sp -> canonical_path q -> split_on "/" q = sq ->
  (p = q \/ starts_with p (q +:+ "/") = true) <-> sq `prefix_of` sp.
Proof.
  intros Hp <- (lq & Hlq & Hfq & ->) <-.
  assert (Forall (fun x => no_char "/" x = true) lq) as Hnq
    by (eapply Forall_impl; [done|]; by intros x (_ & _ & _ & _ & ? & _)).
  rewrite (split_on_join "/" lq) by done. split.
  - intros [->|[t ->]%starts_with_spec]; [by rewrite split_on_join|].
    rewrite <- string_app_assoc. change ("/" +:+ t) with (String "/" t).
    rewrite split_on_prefix by done. by apply prefix_app_r.
  - intros [r Hr]. rewrite <- (join_split_on "/" p), Hr. destruct r as [|x r]; [left; by rewrite app_nil_r|].
    right. apply starts_with_spec. exists (join "/" (x :: r)). clear Hr Hfq Hnq Hp.
    induction lq as [|y l IH]; [done|]. destruct l as [|z l].
    { cbn [join app]. by rewrite <- string_app_assoc. }
    cbn [app] in *. rewrite join_cons by done. rewrite (join_cons "/" y (z :: l)) by done.
    rewrite IH by done. by rewrite <- !string_app_assoc.
Qed.

Lemma positions_sorted tasks :
  StronglySorted (fun x y => nt_position x < nt_position y) (imap normal_form tasks).
Proof.
  assert (forall n, StronglySorted (fun x y => nt_position x < nt_position y)
            (imap (fun i => normal_form (n + i)) tasks) /\
          Forall (fun x => n <= nt_position x) (imap (fun i => normal_form (n + i)) tasks)) as Hs;
    [|apply (Hs 0)].
  induction tasks as [|t l IH]; intros n; [by repeat constructor|]. rewrite imap_cons.
  destruct (IH (S n)) as [H1 H2].
  assert (imap ((fun i => normal_form (n + i)) ∘ S) l = imap (fun i => normal_form (S n + i)) l) as ->.
  { apply imap_ext. intros i x _. unfold compose. f_equal. lia. }
  split; constructor; try done; simpl; try lia.
  - eapply Forall_impl; [exact H2|]. intros x Hx; simpl in *. lia.
  - eapply Forall_impl; [exact H2|]. intros x Hx; simpl in *. lia.
Qed.

(** ** The waves as JSON *)

Lemma canon_wave w : canon (wave_json w) =
  JObj [("task_ids", strings (task_ids w)); ("wave_index", JNum (NInt (wave_index w)))].
Proof.
  change (canon (wave_json w)) with (JObj (js_sort key_cmp
    [("wave_index", JNum (NInt (wave_index w))); ("task_ids", canon (strings (task_ids w)))])).
  by rewrite canon_strings.
Qed.

Lemma mapM_strings l : mapM writeValue (map JStr l) = Ok (map (fun s => quote (nfc s)) l).
Proof. induction l as [|s l IH]; [done|]. cbn [map]. rewrite mapM_cons, IH. done. Qed.

Lemma wave_json_text w : is_ok (writeValue (wave_json w)) = true.
Proof.
  unfold wave_json, strings. cbn -[mapM quote]. unfold write_entries. cbn -[mapM quote].
  by rewrite mapM_strings.
Qed.

Lemma waves_json_text ws : exists s, canonicalizeJson (JArr (map wave_json ws)) = Ok s.
Proof.
  unfold canonicalizeJson. cbn [writeValue].
  enough (exists l, mapM writeValue (map wave_json ws) = Ok l) as [l ->] by (simpl; eauto).
  induction ws as [|w ws [l IH]]; [by eexists|]. cbn [map]. rewrite mapM_cons, IH.
  pose proof (wave_json_text w) as Hw. destruct (writeValue (wave_json w)); [|done]. simpl. eauto.
Qed.

Lemma waves_literals ws : literals_ok (JArr (map wave_json ws)) = true.
Proof.
  induction ws as [|w ws IH]; [done|]. cbn [map literals_ok forallb] in *.
  rewrite IH, andb_true_r. simpl. by rewrite literals_strs.
Qed.

Lemma waves_json_inj ws ws' :
  canonicalizeJson (JArr (map wave_json ws)) = canonicalizeJson (JArr (map wave_json ws')) -> ws = ws'.
Proof.
  intros E. destruct (waves_json_text ws) as [s Hs].
  pose proof (canonical_text_inj _ _ s (waves_literals ws) (waves_literals ws') Hs ltac:(congruence)) as Hc.
  cbn [canon] in Hc. injection Hc as Hc. rewrite !map_map in Hc. clear E Hs.
  revert ws' Hc; induction ws as [|w ws IH]; intros [|w' ws'] Hc; try discriminate; [done|].
  cbn [map] in Hc. rewrite !canon_wave in Hc. injection Hc as H1 H2 Hc.
  f_equal; [|by apply IH]. destruct w as [i l], w' as [i' l']. simpl in *. f_equal; [done|].
  apply (inj strings). unfold strings. by f_equal.
Qed.

(* ------------------------------------------------------------------ *)
(** ** Properties *)

(** On canonical paths, overlap means that the segments of one path are a
    prefix of the segments of the other: siblings with a common textual
    prefix never overlap. *)
Theorem overlap_is_segment_prefix p q :
  canonical_path p -> canonical_path q ->
  writePathsOverlap p q = true <->
  split_on "/" q `prefix_of` split_on "/" p \/ split_on "/" p `prefix_of` split_on "/" q.
Proof.
  intros Hp Hq. rewrite <- (starts_with_segments p q _ _ Hp eq_refl Hq eq_refl).
  rewrite <- (starts_with_segments q p _ _ Hq eq_refl Hp eq_refl).
  unfold writePathsOverlap. rewrite !orb_true_iff, bool_decide_eq_true. naive_solver.
Qed.

(** The compiler is total on its domain: it lays out exactly the lists with
    distinct ids, legal protocol 1.3 claims, known dependencies and no
    cycle, so none of its loops can run away or read a missing entry. *)
Theorem waves_total `{FileSystem} tasks :
  (exists ws, compileParallelWaves tasks = Ok ws) <-> compilable tasks.
Proof.
  split; [|apply compile_total]. intros [ws Hc]. by apply compile_Ok in Hc as [? _].
Qed.

(** C19. The waves hold every task exactly once, are numbered from zero and none
    is empty; each dependency of a task lies in a strictly earlier wave. *)
Theorem waves_respect_dependencies `{FileSystem} tasks ws :
  compileParallelWaves tasks = Ok ws ->
  concat (map task_ids ws) ≡ₚ map id tasks /\
  map wave_index ws = map Z.of_nat (seq 0 (length ws)) /\
  Forall (fun w => task_ids w <> []) ws /\
  forall t d i, t ∈ tasks -> d ∈ dependencies t -> in_wave ws i (id t) ->
    exists j, in_wave ws j d /\ (j < i)%nat.
Proof. intros [_ []]%compile_Ok. auto. Qed.

(** C20. Two tasks of one wave never claim overlapping write paths nor a common
    exclusive resource. *)
Theorem waves_conflict_free `{FileSystem} tasks ws t u i :
  compileParallelWaves tasks = Ok ws -> t ∈ tasks -> u ∈ tasks -> id t <> id u ->
  in_wave ws i (id t) -> in_wave ws i (id u) ->
  (forall p q, p ∈ claimed_paths t -> q ∈ claimed_paths u -> writePathsOverlap p q = false) /\
  (forall r, r ∈ claimed_resources t -> r ∉ claimed_resources u).
Proof.
  intros [_ Hl]%compile_Ok Ht Hu Hne Hi Hj.
  pose proof (lay_free _ _ Hl t u i Ht Hu Hne Hi Hj) as Hc. unfold claims_conflict in Hc. split.
  - intros p q Hp Hq. apply not_true_is_false. naive_solver.
  - naive_solver.
Qed.

(** Every task takes the earliest wave it can: in each wave before its own
    there is a task it conflicts with, or one of its dependencies sits in
    that wave or later. *)
Theorem waves_earliest `{FileSystem} tasks ws t i k :
  compileParallelWaves tasks = Ok ws -> t ∈ tasks -> in_wave ws i (id t) -> (k < i)%nat ->
  (exists d j, d ∈ dependencies t /\ in_wave ws j d /\ (k <= j)%nat) \/
  (exists u, u ∈ tasks /\ in_wave ws k (id u) /\ claims_conflict t u).
Proof. intros [_ Hl]%compile_Ok. by apply (lay_early _ _ Hl). Qed.

(** The worklist with its insertion by position emits the reference order:
    always the first task, in declaration order, whose dependencies are
    emitted. *)
Theorem topological_order_is_greedy `{FileSystem} tasks ns order :
  normalizeTasks tasks = Ok ns -> stableTopologicalOrder ns = Ok order ->
  order = greedy nt_id nt_deps ns (length ns) [].
Proof.
  intros (Hnd & _ & ->)%normalizeTasks_Ok Ho.
  assert (NoDup (map nt_id (imap normal_form tasks))) as Hnd' by (by rewrite normal_ids).
  apply topological_Ok in Ho as (Hk & _ & _ & _ & Ho); [|done].
  eapply (kahn_on_greedy nt_id nt_deps insert_by_position (fun l => l) insert_by_position_perm
    (fun l => reflexivity l) _ _ Hnd' Hk (reflexivity _) nt_position); [| |reflexivity|exact Ho].
  - apply positions_sorted.
  - intros l x. apply insert_by_position_sorted.
Qed.

(** The guard accepts exactly the layout a fresh compilation gives. *)
Theorem persisted_waves_spec `{FileSystem} tasks ws persisted :
  compileParallelWaves tasks = Ok ws ->
  assertParallelWaves tasks persisted = if decide (ws = persisted) then Ok tt else reject wave_drift.
Proof.
  intros Hc. unfold assertParallelWaves. rewrite Hc. cbn [mbind result_bind].
  case_decide as Hw.
  - subst. by rewrite bool_decide_true.
  - rewrite bool_decide_false; [done|]. intros E. apply Hw. by apply waves_json_inj.
Qed.

(* ------------------------------------------------------------------ *)
(** ** Witnesses *)

#[local] Definition wave_task (taskId : string) (paths resources deps : list string) : TaskSpecification :=
  Task taskId "objective" [] ["n_1"] [] [] deps low (TaskBudget 1 1 (Some (NInt 1000)))
    (Some paths) (Some resources) [Criterion "works" "unit"] None ["gate_a"].

(** [b] conflicts with [a] on a directory, [c] depends on [a] and shares a
    resource with [b]. *)
Definition task_a := wave_task "task_a" ["src/core"] [] [].
Definition task_b := wave_task "task_b" ["src/core/x.ts"] ["db"] [].
Definition task_c := wave_task "task_c" ["src/ui"] ["db"] ["task_a"].
Definition task_d := wave_task "task_d" ["src/core2"] [] [].
Definition sample_tasks := [task_a; task_b; task_c; task_d].
Definition sample_waves : list ParallelWave :=
  [Wave 0 ["task_a"; "task_d"]; Wave 1 ["task_b"]; Wave 2 ["task_c"]].

Lemma sample_waves_Ok : @compileParallelWaves sample_fs sample_tasks = Ok sample_waves.
Proof. vm_compute. reflexivity. Defined.

Lemma overlap_is_segment_prefix_witness :
  canonical_path "src/a" /\ canonical_path "src/ab" /\
  ~ (split_on "/" "src/ab" `prefix_of` split_on "/" "src/a" \/
     split_on "/" "src/a" `prefix_of` split_on "/" "src/ab").
Proof.
  assert (canonical_path "src/a") as H1 by (apply (normalizeLocatorPath_canonical "src/a"); reflexivity).
  assert (canonical_path "src/ab") as H2 by (apply (normalizeLocatorPath_canonical "src/ab"); reflexivity).
  split; [done|]. split; [done|]. intros Hp.
  apply (overlap_is_segment_prefix "src/a" "src/ab" H1 H2) in Hp. vm_compute in Hp. discriminate.
Defined.

Lemma waves_respect_dependencies_witness :
  concat (map task_ids sample_waves) ≡ₚ ["task_a"; "task_b"; "task_c"; "task_d"].
Proof. apply (@waves_respect_dependencies sample_fs sample_tasks sample_waves sample_waves_Ok). Defined.

Lemma in_sample_wave i w t : sample_waves !! i = Some w -> mem (id t) (task_ids w) = true ->
  in_wave sample_waves i (id t).
Proof. intros Hw Hm. exists w. split; [exact Hw|]. by apply mem_spec. Qed.

Lemma waves_conflict_free_witness : writePathsOverlap "src/core" "src/core2" = false.
Proof.
  refine (proj1 (@waves_conflict_free sample_fs sample_tasks sample_waves task_a task_d 0
    sample_waves_Ok _ _ _ _ _) "src/core" "src/core2" _ _).
  - left.
  - do 3 right. left.
  - discriminate.
  - apply (in_sample_wave 0 (Wave 0 ["task_a"; "task_d"])); reflexivity.
  - apply (in_sample_wave 0 (Wave 0 ["task_a"; "task_d"])); reflexivity.
  - left.
  - left.
Defined.

Lemma waves_earliest_witness :
  (exists d j, d ∈ dependencies task_b /\ in_wave sample_waves j d /\ (0 <= j)%nat) \/
  (exists u, u ∈ sample_tasks /\ in_wave sample_waves 0 (id u) /\ claims_conflict task_b u).
Proof.
  apply (@waves_earliest sample_fs sample_tasks sample_waves task_b 1 0 sample_waves_Ok).
  - right. left.
  - apply (in_sample_wave 1 (Wave 1 ["task_b"])); reflexivity.
  - lia.
Defined.

Lemma topological_order_is_greedy_witness :
  exists ns order, @normalizeTasks sample_fs sample_tasks = Ok ns /\
    stableTopologicalOrder ns = Ok order /\ order = greedy nt_id nt_deps ns (length ns) [].
Proof.
  destruct (@normalizeTasks sample_fs sample_tasks) as [ns|] eqn:En; [|vm_compute in En; discriminate].
  destruct (stableTopologicalOrder ns) as [order|] eqn:Eo.
  - exists ns, order. split; [reflexivity|]. split; [exact Eo|].
    apply (@topological_order_is_greedy sample_fs sample_tasks ns order En Eo).
  - exfalso. vm_compute in En. injection En as <-. vm_compute in Eo. discriminate.
Defined.

Lemma persisted_waves_spec_witness :
  @assertParallelWaves sample_fs sample_tasks (rev sample_waves) = reject wave_drift.
Proof.
  rewrite (@persisted_waves_spec sample_fs sample_tasks sample_waves (rev sample_waves) sample_waves_Ok).
  vm_compute. reflexivity.
Defined.
