(* ===== verification/Policy.v ===== *)
(** * Policy actions and the merge of policy layers

    [packages/runtime/src/policy/action.ts], [path-boundary.ts] (its lexical
    part), [decision.ts] and the merge of [evaluator.ts]. Policy values are of
    type [unknown], so they stay JSON values; error and reason texts are
    dropped, and with them the decision's own digest over its reasons. *)

From Stdlib Require Import QArith.
From S2P Require Import Prelude Regex Locator Json.

(** ** Errors *)

Inductive policy_error : Type :=
| invalid_action | invalid_policy | policy_conflict | capability_expansion | boundary_violation
| PolicyCanonicalError (e : canonical_error)
| PolicyTypeError.
#[export] Instance policy_error_eq_dec : EqDecision policy_error.
Proof. solve_decision. Defined.

Abbreviation policy_result A := (result policy_error A).

(** ** The order of numbers *)

(** The decimal value of a run of digits. *)
Fixpoint digits_value (s : string) (acc : Z) : Z :=
  match s with
  | EmptyString => acc
  | String a s' => digits_value s' (acc * 10 + (Z.of_N (code a) - 48))
  end.

(** [JSON.stringify] prints a finite number as [-]int[.frac][e[+-]exp]. *)
Definition unsigned_decimal (s : string) : Q :=
  let (mantissa, exponent) :=
    match str_index "e" s with
    | Some i => (str_take i s, str_drop (S i) s)
    | None => (s, "0")
    end in
  let (int, frac) :=
    match str_index "." mantissa with
    | Some i => (str_take i mantissa, str_drop (S i) mantissa)
    | None => (mantissa, "")
    end in
  let exp := match exponent with
             | String "-" ds => (- digits_value ds 0)%Z
             | String "+" ds => digits_value ds 0
             | ds => digits_value ds 0
             end in
  let shift := (exp - Z.of_nat (String.length frac))%Z in
  Qred (inject_Z (digits_value (int +:+ frac) 0) * Qpower (inject_Z 10) shift).

Definition decimal (s : string) : Q :=
  match s with String "-" s' => - unsigned_decimal s' | _ => unsigned_decimal s end.

Example decimal_half : decimal "-12.5e-1" = (-5 # 4). Proof. vm_compute. reflexivity. Qed.

(** [Number.isFinite]: the value, when there is one. Shortest printing keeps
    the order of the numbers. *)
Definition finite_value (n : number) : option Q :=
  match n with NInt z => Some (inject_Z z) | NDec l => Some (decimal l) | NNonFinite => None end.

(** [a < b]; a number that is not finite compares like NaN. *)
Definition num_lt (a b : number) : bool :=
  match finite_value a, finite_value b with
  | Some x, Some y => negb (Qle_bool y x)
  | _, _ => false
  end.

Definition num_le (a b : number) : Prop :=
  exists x y, finite_value a = Some x /\ finite_value b = Some y /\ (x <= y)%Q.

(** [Math.min] of finite numbers. *)
Definition num_min (a b : number) : number := if num_lt b a then b else a.

(** ** Actions *)

Inductive PolicyActionKind : Type :=
| read_path | write_path | invoke_tool | propose_state | submit_evidence | approve | accept_evidence
| change_policy | register_tool | grant_path | dispatch_task | retry_task | integrate_wave.
#[export] Instance PolicyActionKind_eq_dec : EqDecision PolicyActionKind.
Proof. solve_decision. Defined.

Definition kind_text (k : PolicyActionKind) : string :=
  match k with
  | read_path => "read_path" | write_path => "write_path" | invoke_tool => "invoke_tool"
  | propose_state => "propose_state" | submit_evidence => "submit_evidence" | approve => "approve"
  | accept_evidence => "accept_evidence" | change_policy => "change_policy"
  | register_tool => "register_tool" | grant_path => "grant_path" | dispatch_task => "dispatch_task"
  | retry_task => "retry_task" | integrate_wave => "integrate_wave"
  end.

Definition SCHEDULER_POLICY_ACTION_KINDS : list PolicyActionKind := [dispatch_task; retry_task; integrate_wave].
Definition POLICY_ACTION_KINDS : list PolicyActionKind :=
  [read_path; write_path; invoke_tool; propose_state; submit_evidence; approve; accept_evidence; change_policy;
   register_tool; grant_path] ++ SCHEDULER_POLICY_ACTION_KINDS.
Definition ESCALATION_ACTION_KINDS : list PolicyActionKind :=
  [approve; accept_evidence; change_policy; register_tool; grant_path].

Inductive ActorKind : Type := harness | human | adapter | agent.
#[export] Instance ActorKind_eq_dec : EqDecision ActorKind.
Proof. solve_decision. Defined.
Definition actor_text (k : ActorKind) : string :=
  match k with harness => "harness" | human => "human" | adapter => "adapter" | agent => "agent" end.

Inductive ActionOrigin : Type := control_plane | prompt.
#[export] Instance ActionOrigin_eq_dec : EqDecision ActionOrigin.
Proof. solve_decision. Defined.
Definition origin_text (o : ActionOrigin) : string :=
  match o with control_plane => "control_plane" | prompt => "prompt" end.

Inductive PolicyRisk : Type := low | medium | high | critical.
#[export] Instance PolicyRisk_eq_dec : EqDecision PolicyRisk.
Proof. solve_decision. Defined.
Definition POLICY_RISKS : list PolicyRisk := [low; medium; high; critical].
Definition risk_text (r : PolicyRisk) : string :=
  match r with low => "low" | medium => "medium" | high => "high" | critical => "critical" end.

(** [POLICY_RISKS.indexOf(risk)] *)
Definition riskRank (r : PolicyRisk) : nat :=
  match r with low => 0 | medium => 1 | high => 2 | critical => 3 end.

Inductive ControlLevel : Type := managed | delegated | manual.
Definition control_text (c : ControlLevel) : string :=
  match c with managed => "managed" | delegated => "delegated" | manual => "manual" end.

Inductive TrajectoryVisibility : Type := full | summarized | external_only.
Definition trajectory_text (t : TrajectoryVisibility) : string :=
  match t with full => "full" | summarized => "summarized" | external_only => "external-only" end.
Definition TRAJECTORY_VISIBILITIES : list TrajectoryVisibility := [full; summarized; external_only].

Record AdapterControlProfile : Type := ControlProfile
  { cp_control : ControlLevel;
    trajectory_visibility : TrajectoryVisibility;
    usage_metering : bool;
    side_effect_interception : bool }.

Record PolicyAction : Type := Action
  { kind : PolicyActionKind;
    actor : string;
    actor_kind : ActorKind;
    origin : ActionOrigin;
    phase : string;
    resource : option string;
    parameters : list (string * jsval);
    risk : PolicyRisk;
    pa_approval_digest : option string;
    control_profile : option AdapterControlProfile }.

(** ** Reading an untrusted request *)

(** [readEnum]: the member whose text the value is. *)
Definition readEnum {T} (text : T -> string) (allowed : list T) (value : jsval) : policy_result T :=
  match value with
  | JStr s => match find_first (fun t => bool_decide (text t = s)) allowed with
              | Some t => Ok t
              | None => Err invalid_action
              end
  | _ => Err invalid_action
  end.

Definition readNonEmptyString (value : jsval) : policy_result string :=
  match value with
  | JStr s => if decide (trim s = "") then Err invalid_action else Ok s
  | _ => Err invalid_action
  end.

(** [raw[field] === undefined ? absent : read(raw[field])] *)
Definition read_optional {A} (read : jsval -> policy_result A) (value : jsval) : policy_result (option A) :=
  match value with JUndefined => Ok None | _ => a ← read value; Ok (Some a) end.

(** [normalized[key] = value]: the key [__proto__] sets the prototype instead. *)
Definition own_fields (fields : list (string * jsval)) : list (string * jsval) :=
  filter (fun e => e.1 <> "__proto__") fields.

Fixpoint normalizeJsonValue (value : jsval) : policy_result jsval :=
  match value with
  | JUndefined => Err invalid_action
  | JNum NNonFinite => Err invalid_action
  | JArr values => items ← mapM normalizeJsonValue values; Ok (JArr items)
  | JObj fields =>
      entries ← mapM (fun e => v ← normalizeJsonValue e.2; Ok (e.1, v)) fields;
      Ok (JObj (own_fields entries))
  | _ => Ok value
  end.

(** A [__proto__] entry with an object gives the copy another prototype. *)
Definition sets_prototype (fields : list (string * jsval)) : bool :=
  match jfield fields "__proto__" with JObj _ | JArr _ => true | _ => false end.

Definition read_parameters (value : jsval) : policy_result (list (string * jsval)) :=
  match value with
  | JUndefined => Ok []
  | _ =>
      normalized ← normalizeJsonValue value;
      match value, normalized with
      | JObj fields, JObj entries => if sets_prototype fields then Err invalid_action else Ok entries
      | _, _ => Err invalid_action
      end
  end.

(** [value === true] *)
Definition is_true (value : jsval) : bool := match value with JBool true => true | _ => false end.

Definition readControlProfile (raw : jsval) : policy_result AdapterControlProfile :=
  match raw with
  | JObj fields =>
      c ← readEnum control_text [managed; delegated; manual] (jfield fields "control");
      t ← readEnum trajectory_text TRAJECTORY_VISIBILITIES (jfield fields "trajectory_visibility");
      Ok (ControlProfile c t (is_true (jfield fields "usage_metering"))
            (is_true (jfield fields "side_effect_interception")))
  | _ => Err invalid_action
  end.

Definition normalizeAction (raw : jsval) : policy_result PolicyAction :=
  match raw with
  | JObj fields =>
      k ← readEnum kind_text POLICY_ACTION_KINDS (jfield fields "kind");
      params ← read_parameters (jfield fields "parameters");
      who ← readNonEmptyString (jfield fields "actor");
      who_kind ← readEnum actor_text [harness; human; adapter; agent] (jfield fields "actor_kind");
      from ← readEnum origin_text [control_plane; prompt] (jfield fields "origin");
      ph ← readNonEmptyString (jfield fields "phase");
      res ← read_optional readNonEmptyString (jfield fields "resource");
      level ← readEnum risk_text POLICY_RISKS (jfield fields "risk");
      approval ← read_optional readNonEmptyString (jfield fields "approval_digest");
      profile ← read_optional readControlProfile (jfield fields "control_profile");
      Ok (Action k who who_kind from ph res params level approval profile)
  | _ => Err invalid_action
  end.

(** [value ?? null] *)
Definition or_null (s : option string) : jsval := match s with Some s => JStr s | None => JNull end.

Definition profile_json (p : AdapterControlProfile) : jsval :=
  JObj [("control", JStr (control_text (cp_control p)));
        ("trajectory_visibility", JStr (trajectory_text (trajectory_visibility p)));
        ("usage_metering", JBool (usage_metering p));
        ("side_effect_interception", JBool (side_effect_interception p))].

Definition action_json (action : PolicyAction) : jsval :=
  JObj [("kind", JStr (kind_text (kind action))); ("actor", JStr (actor action));
        ("actor_kind", JStr (actor_text (actor_kind action))); ("origin", JStr (origin_text (origin action)));
        ("phase", JStr (phase action)); ("resource", or_null (resource action));
        ("parameters", JObj (parameters action)); ("risk", JStr (risk_text (risk action)));
        ("approval_digest", or_null (pa_approval_digest action));
        ("control_profile", match control_profile action with Some p => profile_json p | None => JNull end)].

Definition actionDigest `{Hash} (action : PolicyAction) : policy_result string :=
  map_err PolicyCanonicalError (contentDigest (action_json action)).

(** ** Paths *)

(** [path-boundary.ts] *)
Definition normalizeRepoRelativePath (input : string) : policy_result string :=
  match normalizeLocatorPath input with Ok p => Ok p | Err _ => Err boundary_violation end.

Definition tryNormalizeRepoRelativePath (input : string) : option string :=
  match normalizeRepoRelativePath input with Ok p => Some p | Err _ => None end.

Definition isPathWithinScopes (scopes : list string) (path : string) : bool :=
  match tryNormalizeRepoRelativePath path with
  | None => false
  | Some target =>
      existsb (fun scope =>
        match tryNormalizeRepoRelativePath scope with
        | Some s => bool_decide (target = s) || starts_with target (s +:+ "/")
        | None => false
        end) scopes
  end.

(** ** Layers and the effective policy *)

Inductive PolicyMergeOperator : Type :=
| hard_ceiling | allow_intersection | deny_union | approval_union | strongest_control | project_default.
#[export] Instance PolicyMergeOperator_eq_dec : EqDecision PolicyMergeOperator.
Proof. solve_decision. Defined.

Definition operator_text (o : PolicyMergeOperator) : string :=
  match o with
  | hard_ceiling => "hard_ceiling" | allow_intersection => "allow_intersection" | deny_union => "deny_union"
  | approval_union => "approval_union" | strongest_control => "strongest_control"
  | project_default => "project_default"
  end.
Definition POLICY_MERGE_OPERATORS : list PolicyMergeOperator :=
  [hard_ceiling; allow_intersection; deny_union; approval_union; strongest_control; project_default].

Definition POLICY_LAYERS : list string := ["installation"; "pack"; "project"].

(** [POLICY_LAYERS.indexOf(layer)] on a known layer. *)
Definition layer_index (layer : string) : Z :=
  if decide (layer = "installation") then 0 else if decide (layer = "pack") then 1
  else if decide (layer = "project") then 2 else -1.

(** The operator is text until it has been checked. *)
Record PolicyFieldInput : Type := FieldInput { fi_path : string; fi_merge_operator : string; fi_value : jsval }.

Record PolicyLayerInput : Type := Layer
  { layer : string; revision : Z; layer_digest : string; layer_fields : list PolicyFieldInput }.

Record PolicyLayerRef : Type := LayerRef { ref_layer : string; ref_revision : Z; ref_digest : string }.

Definition layerRef (l : PolicyLayerInput) : PolicyLayerRef := LayerRef (layer l) (revision l) (layer_digest l).

Record EffectivePolicyField : Type := Field
  { ef_path : string; ef_operator : PolicyMergeOperator; ef_value : jsval; ef_sources : list PolicyLayerRef }.

Record EffectivePolicy : Type := Effective
  { ep_fields : list EffectivePolicyField; ep_layers : list PolicyLayerRef; ep_digest : string }.

Definition fieldAt (effective : EffectivePolicy) (path : string) : option EffectivePolicyField :=
  find_first (fun f => bool_decide (ef_path f = path)) (ep_fields effective).

(** The strings of an array of strings. *)
Definition string_array (value : jsval) : option (list string) :=
  match value with JArr values => mapM (fun v => match v with JStr s => Some s | _ => None end) values | _ => None end.

Definition policyStrings (effective : EffectivePolicy) (path : string) : option (list string) :=
  f ← fieldAt effective path; string_array (ef_value f).

Definition policyNumber (effective : EffectivePolicy) (path : string) : option number :=
  f ← fieldAt effective path; match ef_value f with JNum n => Some n | _ => None end.

Definition policyString (effective : EffectivePolicy) (path : string) : option string :=
  f ← fieldAt effective path; match ef_value f with JStr s => Some s | _ => None end.

(** ** Merging one field *)

Inductive conflict : Type :=
| unknown_operator (path layer : string)
| conflicting_operators (path : string)
| unmergeable (path : string).

Record MergedPolicy : Type := Merged { effective : EffectivePolicy; conflicts : list conflict }.

Record LayerFieldEntry : Type := Entry { le_operator : PolicyMergeOperator; le_value : jsval; le_source : PolicyLayerRef }.

(** Safety strengths, weakest first. *)
Definition CONTROL_STRENGTH_ORDERS (path : string) : option (list string) :=
  if decide (path = "controls.trajectory") then Some (map trajectory_text (reverse TRAJECTORY_VISIBILITIES))
  else if decide (path = "controls.redaction") then Some ["none"; "references"; "full"]
  else if decide (path = "controls.retention") then Some ["ephemeral"; "run"; "release"]
  else if decide (path = "controls.side_effect_interception") then Some ["optional"; "required"]
  else None.

(** [l.indexOf(s)] *)
Definition index_of (l : list string) (s : string) : Z :=
  match list_find (fun x => x = s) l with Some (i, _) => Z.of_nat i | None => -1 end.

(** A value the operator can merge, or the policy_conflict it throws. *)
Definition ceiling_of (e : LayerFieldEntry) : option number :=
  match le_value e with JNum NNonFinite => None | JNum n => Some n | _ => None end.
Definition strings_of (e : LayerFieldEntry) : option (list string) := string_array (le_value e).
Definition control_of (ordering : list string) (e : LayerFieldEntry) : option string :=
  match le_value e with JStr s => if mem s ordering then Some s else None | _ => None end.

(** [Math.min(...values)] *)
Definition min_number (values : list number) : number :=
  match values with [] => NNonFinite | n :: l => foldl num_min n l end.

(** [merged.filter((value) => values.includes(value))], from the first set on. *)
Definition intersect_all (sets : list (list string)) : list string :=
  match sets with
  | [] => []
  | s :: l => foldl (fun merged values => List.filter (fun v => mem v values) merged) s l
  end.

(** [if (indexOf(value) > indexOf(strongest)) strongest = value] *)
Definition stronger (ordering : list string) (strongest : option string) (value : string) : option string :=
  match strongest with
  | None => Some value
  | Some s => if (index_of ordering s <? index_of ordering value)%Z then Some value else strongest
  end.

(** The comparator that puts the later layers first. *)
Definition by_precedence (l r : LayerFieldEntry) : Z :=
  layer_index (ref_layer (le_source r)) - layer_index (ref_layer (le_source l)).

Definition merge_value (operator : PolicyMergeOperator) (path : string) (entries : list LayerFieldEntry) :
  option jsval :=
  match operator with
  | hard_ceiling => values ← mapM ceiling_of entries; Some (JNum (min_number values))
  | allow_intersection =>
      sets ← mapM strings_of entries; Some (strings (sort_strings (dedup (intersect_all sets))))
  | deny_union | approval_union =>
      sets ← mapM strings_of entries; Some (strings (sort_strings (dedup (concat sets))))
  | strongest_control =>
      ordering ← CONTROL_STRENGTH_ORDERS path;
      values ← mapM (control_of ordering) entries;
      Some (match foldl (stronger ordering) None values with Some s => JStr s | None => JUndefined end)
  | project_default =>
      match js_sort by_precedence entries with
      | winner :: _ => Some (le_value winner)
      | [] => None
      end
  end.

(** [mergeField]: [None] is the policy_conflict it throws. *)
Definition mergeField (path : string) (entries : list LayerFieldEntry) : option EffectivePolicyField :=
  match entries with
  | [] => None
  | first :: _ =>
      value ← merge_value (le_operator first) path entries;
      Some (Field path (le_operator first) value (map le_source entries))
  end.

(** ** Merging the layers *)

Definition admit_layer (seen : list string) (l : PolicyLayerInput) : policy_result (list string) :=
  _ ← reject_if (negb (mem (layer l) POLICY_LAYERS)) invalid_policy;
  _ ← reject_if (mem (layer l) seen) invalid_policy;
  Ok (seen ++ [layer l]).

Definition layer_cmp (l r : PolicyLayerInput) : Z := layer_index (layer l) - layer_index (layer r).

Record Collected : Type := Collect
  { by_path : list (string * list LayerFieldEntry); collected_conflicts : list conflict }.

(** One field of one layer joins the entries of its path. *)
Definition collect_field (l : PolicyLayerInput) (st : Collected) (f : PolicyFieldInput) : Collected :=
  match find_first (fun o => bool_decide (operator_text o = fi_merge_operator f)) POLICY_MERGE_OPERATORS with
  | None => Collect (by_path st) (collected_conflicts st ++ [unknown_operator (fi_path f) (layer l)])
  | Some o =>
      Collect (omap_set (by_path st) (fi_path f)
                 (default [] (omap_get (by_path st) (fi_path f)) ++ [Entry o (fi_value f) (layerRef l)]))
        (collected_conflicts st)
  end.

Definition collect_layer (st : Collected) (l : PolicyLayerInput) : Collected :=
  foldl (collect_field l) st (layer_fields l).

(** One path: its merged field, or why it conflicts. *)
Definition merge_path (collected : list (string * list LayerFieldEntry)) (path : string) :
  EffectivePolicyField + conflict :=
  let entries := default [] (omap_get collected path) in
  if decide (length (dedup (map le_operator entries)) = 1) then
    match mergeField path entries with Some f => inl f | None => inr (unmergeable path) end
  else inr (conflicting_operators path).

Definition merged_fields (l : list (EffectivePolicyField + conflict)) : list EffectivePolicyField :=
  l ≫= fun x => match x with inl f => [f] | inr _ => [] end.
Definition merge_conflicts (l : list (EffectivePolicyField + conflict)) : list conflict :=
  l ≫= fun x => match x with inl _ => [] | inr c => [c] end.

Definition ref_json (r : PolicyLayerRef) : jsval :=
  JObj [("layer", JStr (ref_layer r)); ("revision", JNum (NInt (ref_revision r))); ("digest", JStr (ref_digest r))].
Definition field_json (f : EffectivePolicyField) : jsval :=
  JObj [("path", JStr (ef_path f)); ("merge_operator", JStr (operator_text (ef_operator f)));
        ("value", ef_value f)].

(** The conflicts are in the order found; the source sorts their texts. *)
Definition mergePolicyLayers `{Hash} (layers : list PolicyLayerInput) : policy_result MergedPolicy :=
  _ ← foldM admit_layer [] layers;
  let ordered := js_sort layer_cmp layers in
  let refs := map layerRef ordered in
  let st := foldl collect_layer (Collect [] []) ordered in
  let merged := map (merge_path (by_path st)) (sort_strings (by_path st).*1) in
  let fields := merged_fields merged in
  digest ← map_err PolicyCanonicalError
             (contentDigest (JObj [("layers", JArr (map ref_json refs)); ("fields", JArr (map field_json fields))]));
  Ok (Merged (Effective fields refs digest) (collected_conflicts st ++ merge_conflicts merged)).

(** ** Decisions *)

Inductive DecisionOutcome : Type := allow | deny | requires_approval | block.
#[export] Instance DecisionOutcome_eq_dec : EqDecision DecisionOutcome.
Proof. solve_decision. Defined.

(** The decision but its reasons and its own digest. *)
Record PolicyDecision : Type := Decision_
  { outcome : DecisionOutcome;
    action_digest : string;
    effective_policy_digest : string;
    decision_layers : list PolicyLayerRef;
    field_traces : list EffectivePolicyField;
    approval_digest : option string }.

Definition buildDecision (o : DecisionOutcome) (digest : string) (e : EffectivePolicy) (approval : option string) :
  PolicyDecision :=
  Decision_ o digest (ep_digest e) (ep_layers e) (ep_fields e) approval.

(* ------------------------------------------------------------------ *)
(** ** Layers *)

Definition legal_layers (layers : list PolicyLayerInput) : Prop :=
  NoDup (map layer layers) /\ forall l, l ∈ layers -> layer l ∈ POLICY_LAYERS.

Lemma admit_layers layers : forall seen,
  NoDup seen ->
  match foldM admit_layer seen layers with
  | Ok _ => NoDup (seen ++ map layer layers) /\ forall l, l ∈ layers -> layer l ∈ POLICY_LAYERS
  | Err e => e = invalid_policy /\
      ~ (NoDup (seen ++ map layer layers) /\ forall l, l ∈ layers -> layer l ∈ POLICY_LAYERS)
  end.
Proof.
  induction layers as [|l layers IH]; intros seen Hs; simpl.
  { rewrite app_nil_r. split; [done|]. by intros l ?%elem_of_nil. }
  unfold admit_layer at 2. destruct (mem (layer l) POLICY_LAYERS) eqn:El; simpl.
  2: { split; [done|]. intros [_ Hl]. apply mem_false in El. apply El, Hl. left. }
  destruct (mem (layer l) seen) eqn:Es; simpl; [apply mem_spec in Es|apply mem_false in Es].
  { split; [done|]. intros [Hn _]. apply NoDup_app in Hn as (_ & Hd & _). apply (Hd _ Es). left. }
  apply mem_spec in El. specialize (IH (seen ++ [layer l])). rewrite <- app_assoc in IH. simpl in IH.
  assert (NoDup (seen ++ [layer l])) as Hs'.
  { apply NoDup_app. split; [done|]. split; [|apply NoDup_singleton]. intros x Hx ->%list_elem_of_singleton. done. }
  specialize (IH Hs'). destruct (foldM _ _ layers).
  - destruct IH as [Hn Hl]. split; [done|]. intros x [->|Hx]%elem_of_cons; auto.
  - destruct IH as [-> Hn]. split; [done|]. intros [H1 H2]. apply Hn. split; [done|]. intros x Hx. apply H2. by right.
Qed.

Lemma layers_checked layers :
  match foldM admit_layer [] layers with
  | Ok _ => legal_layers layers
  | Err e => e = invalid_policy /\ ~ legal_layers layers
  end.
Proof. exact (admit_layers layers [] (NoDup_nil_2)). Qed.

Lemma layer_index_inj a b :
  a ∈ POLICY_LAYERS -> b ∈ POLICY_LAYERS -> layer_index a = layer_index b -> a = b.
Proof.
  unfold POLICY_LAYERS. rewrite !elem_of_cons.
  intros [->|[->|[->|[]%not_elem_of_nil]]] [->|[->|[->|[]%not_elem_of_nil]]]; vm_compute; congruence.
Qed.

Lemma layer_cmp_total : cmp_total layer_cmp.
Proof. intros x y. unfold layer_cmp. lia. Qed.
Lemma layer_cmp_trans : cmp_trans layer_cmp.
Proof. intros x y z. unfold layer_cmp. lia. Qed.

(** Legal layers have one order. *)
Lemma layers_sort_unique l l' : legal_layers l -> l ≡ₚ l' -> js_sort layer_cmp l = js_sort layer_cmp l'.
Proof.
  intros [Hn Hl] Hp. apply js_sort_unique; auto using layer_cmp_total, layer_cmp_trans.
  intros x y Hx Hy H1 H2. unfold layer_cmp in *. apply (NoDup_keys_inj layer l); [done..|].
  apply layer_index_inj; auto. lia.
Qed.

(** ** What the layers declare for a path *)

Definition operator_of (text : string) : option PolicyMergeOperator :=
  find_first (fun o => bool_decide (operator_text o = text)) POLICY_MERGE_OPERATORS.

Lemma operator_of_Some text o : operator_of text = Some o <-> operator_text o = text.
Proof.
  split; [intros [_ ?]%find_first_Some; by bool_hyps|]. intros <-. by destruct o.
Qed.

Definition declared_by (path : string) (l : PolicyLayerInput) : list LayerFieldEntry :=
  layer_fields l ≫= fun f =>
    if decide (fi_path f = path) then
      match operator_of (fi_merge_operator f) with
      | Some o => [Entry o (fi_value f) (layerRef l)]
      | None => []
      end
    else [].

Definition declared (layers : list PolicyLayerInput) (path : string) : list LayerFieldEntry :=
  layers ≫= declared_by path.

(** The collected entries, and that no operator was unknown. *)
Definition collected (layers : list PolicyLayerInput) (st : Collected) : Prop :=
  NoDup (by_path st).*1 /\ (forall p es, (p, es) ∈ by_path st -> es <> []) /\
  (forall p, default [] (omap_get (by_path st) p) = declared layers p).

Definition known_operators (layers : list PolicyLayerInput) : Prop :=
  forall l f, l ∈ layers -> f ∈ layer_fields l -> is_Some (operator_of (fi_merge_operator f)).

Lemma collect_fields l fields : forall st,
  NoDup (by_path st).*1 -> (forall p es, (p, es) ∈ by_path st -> es <> []) ->
  let st' := foldl (collect_field l) st fields in
  NoDup (by_path st').*1 /\ (forall p es, (p, es) ∈ by_path st' -> es <> []) /\
  (forall p, default [] (omap_get (by_path st') p) =
     default [] (omap_get (by_path st) p) ++ declared_by p (Layer (layer l) (revision l) (layer_digest l) fields)) /\
  (collected_conflicts st' = [] <->
     collected_conflicts st = [] /\ forall f, f ∈ fields -> is_Some (operator_of (fi_merge_operator f))).
Proof.
  induction fields as [|f fields IH]; intros st Hn He; simpl.
  { split; [done|]. split; [done|]. split; [intros p; unfold declared_by; simpl; by rewrite app_nil_r|].
    split; [|tauto]. intros ->. split; [done|]. by intros f ?%elem_of_nil. }
  unfold collect_field at 2 4 6 8. fold (operator_of (fi_merge_operator f)).
  destruct (operator_of (fi_merge_operator f)) as [o|] eqn:Eo.
  - set (es := default [] (omap_get (by_path st) (fi_path f)) ++ [Entry o (fi_value f) (layerRef l)]).
    destruct (IH (Collect (omap_set (by_path st) (fi_path f) es) (collected_conflicts st))) as (Hn' & He' & Hd & Hc); simpl.
    { by apply omap_set_NoDup. }
    { intros p es' Hin. apply elem_omap_get in Hin; [|by apply omap_set_NoDup]. rewrite omap_get_set in Hin.
      case_decide; [injection Hin as <-; unfold es; by destruct (default [] _)|]. by eapply He, omap_get_elem. }
    split; [done|]. split; [done|]. split.
    + intros p. rewrite Hd. simpl. rewrite omap_get_set. unfold declared_by at 2. cbn [layer_fields mbind list_bind].
      rewrite Eo. case_decide as Hp; [subst p; simpl; unfold es; by rewrite <- app_assoc|done].
    + rewrite Hc. simpl. split; [|intros [? Hf]; split; [done|]; intros; apply Hf; by right].
      intros [? Hf]. split; [done|]. intros f' [->|Hf']%elem_of_cons; [by rewrite Eo|by apply Hf].
  - destruct (IH (Collect (by_path st) (collected_conflicts st ++ [unknown_operator (fi_path f) (layer l)])))
      as (Hn' & He' & Hd & Hc); [done..|]. split; [done|]. split; [done|]. split.
    + intros p. rewrite Hd. simpl. unfold declared_by at 2. cbn [layer_fields mbind list_bind]. rewrite Eo.
      by case_decide.
    + rewrite Hc. simpl. split; [by intros [[]%app_nil _]|]. intros [_ Hf].
      destruct (Hf f (list_elem_of_here _ _)) as [o Ho]. congruence.
Qed.

Lemma collect_layers layers : forall st prefix,
  collected prefix st ->
  let st' := foldl collect_layer st layers in
  collected (prefix ++ layers) st' /\
  (collected_conflicts st' = [] <-> collected_conflicts st = [] /\ known_operators layers).
Proof.
  induction layers as [|l layers IH]; intros st prefix (Hn & He & Hd); simpl.
  { rewrite app_nil_r. split; [done|]. split; [|tauto]. intros ->. split; [done|]. by intros l f ?%elem_of_nil. }
  destruct (collect_fields l (layer_fields l) st Hn He) as (Hn' & He' & Hd' & Hc).
  fold (collect_layer st l) in *.
  destruct (IH (collect_layer st l) (prefix ++ [l])) as [Hst Hcs].
  { split; [done|]. split; [done|]. intros p. rewrite Hd', Hd. unfold declared. rewrite bind_app. simpl.
    rewrite app_nil_r. f_equal. }
  rewrite <- app_assoc in Hst. split; [exact Hst|]. rewrite Hcs, Hc. unfold known_operators. split.
  - intros [[? Hf] Hl]. split; [done|]. intros l' f [->|Hl']%elem_of_cons; [apply Hf|by apply Hl].
  - intros [? Hl]. split; [split; [done|]|].
    + intros f. apply Hl. left.
    + intros l' f Hl'. apply Hl. by right.
Qed.

Lemma collect_all layers :
  let st := foldl collect_layer (Collect [] []) layers in
  collected layers st /\ (collected_conflicts st = [] <-> known_operators layers).
Proof.
  destruct (collect_layers layers (Collect [] []) []) as [Hs Hc].
  { split; [constructor|]. split; [by intros p es ?%elem_of_nil|done]. }
  split; [exact Hs|]. rewrite Hc. simpl. tauto.
Qed.

(** ** Merged values *)

Lemma num_lt_Q a b x y : finite_value a = Some x -> finite_value b = Some y -> num_lt a b = true <-> (x < y)%Q.
Proof.
  unfold num_lt. intros -> ->. rewrite negb_true_iff, <- not_true_iff_false, Qle_bool_iff. split.
  - apply Qnot_le_lt.
  - apply Qlt_not_le.
Qed.

Lemma num_le_trans a b c : num_le a b -> num_le b c -> num_le a c.
Proof.
  intros (x & y & Hx & Hy & H1) (y' & z & Hy' & Hz & H2). exists x, z. split; [done|]. split; [done|].
  assert (y' = y) as -> by congruence. by eapply Qle_trans.
Qed.

Lemma num_min_spec a b :
  is_Some (finite_value a) -> is_Some (finite_value b) ->
  (num_min a b = a \/ num_min a b = b) /\ num_le (num_min a b) a /\ num_le (num_min a b) b.
Proof.
  intros [x Hx] [y Hy]. unfold num_min. pose proof (num_lt_Q b a y x Hy Hx) as Hlt.
  destruct (num_lt b a).
  - split; [by right|]. assert (y < x)%Q as H by by apply Hlt. split; [exists y, x|exists y, y]; split_and!; try done.
    + by apply Qlt_le_weak.
    + apply Qle_refl.
  - split; [by left|]. assert (~ (y < x)%Q) as H by (intros H; by apply Hlt in H). apply Qnot_lt_le in H.
    split; [exists x, x|exists x, y]; split_and!; try done. apply Qle_refl.
Qed.

Lemma min_number_spec values :
  values <> [] -> (forall n, n ∈ values -> is_Some (finite_value n)) ->
  min_number values ∈ values /\ forall n, n ∈ values -> num_le (min_number values) n.
Proof.
  destruct values as [|n values]; [done|]. intros _ Hf. simpl. revert n Hf.
  induction values as [|m values IH]; intros n Hf; simpl.
  { split; [left|]. intros k ->%list_elem_of_singleton. destruct (Hf n (list_elem_of_here _ _)) as [x Hx].
    exists x, x. split_and!; try done. apply Qle_refl. }
  destruct (num_min_spec n m) as (Hc & Hn & Hm); [apply Hf; left|apply Hf; right; left|].
  destruct (IH (num_min n m)) as [Hin Hle].
  { intros k [->|Hk]%elem_of_cons; [|apply Hf; right; by right]. destruct Hc as [->| ->]; apply Hf; [left|right; left]. }
  assert (num_le (foldl num_min (num_min n m) values) (num_min n m)) as Hmin by (apply Hle; left). split.
  - apply elem_of_cons in Hin as [->|Hin]; [|right; by right]. destruct Hc as [->| ->]; [left|right; left].
  - intros k [->|[->|Hk]%elem_of_cons]%elem_of_cons; [by eapply num_le_trans|by eapply num_le_trans|].
    apply Hle. by right.
Qed.

Lemma intersect_all_spec sets x :
  sets <> [] -> x ∈ intersect_all sets <-> forall s, s ∈ sets -> x ∈ s.
Proof.
  destruct sets as [|s sets]; [done|]. intros _. simpl. revert s.
  induction sets as [|t sets IH]; intros s; simpl.
  { split; [by intros Hx s' ->%list_elem_of_singleton|]. intros H. apply H. by left. }
  rewrite IH. assert (x ∈ List.filter (fun v => mem v t) s <-> x ∈ s /\ x ∈ t) as Hf.
  { rewrite !list_elem_of_In, filter_In, mem_spec, !list_elem_of_In. done. }
  split.
  - intros H s' [->|[->|Hs']%elem_of_cons]%elem_of_cons.
    + by apply Hf, H; left.
    + by apply Hf, H; left.
    + apply H. by right.
  - intros H s' [->|Hs']%elem_of_cons; [apply Hf; split; apply H; [left|right; left]|].
    apply H. right. by right.
Qed.

Lemma strongest_spec ordering values : forall start,
  exists s, foldl (stronger ordering) start values = s /\
    (forall v, (v ∈ values \/ start = Some v) -> exists w, s = Some w /\ (index_of ordering v <= index_of ordering w)%Z) /\
    (forall w, s = Some w -> w ∈ values \/ start = Some w).
Proof.
  induction values as [|v values IH]; intros start; simpl.
  { exists start. split; [done|]. split; [|auto]. intros v [?%elem_of_nil| ->]; [done|]. by exists v. }
  destruct (IH (stronger ordering start v)) as (s & -> & Hle & Hin). exists s. split; [done|].
  assert (exists u, stronger ordering start v = Some u /\ (u = v \/ start = Some u) /\
    (index_of ordering v <= index_of ordering u)%Z /\
    forall w, start = Some w -> (index_of ordering w <= index_of ordering u)%Z) as (u & Hu & Hor & Hv & Hst).
  { unfold stronger. destruct start as [w|]; [|exists v; split_and!; [done|by left|done|done]].
    destruct (_ <? _)%Z eqn:El; [apply Z.ltb_lt in El|apply Z.ltb_ge in El].
    - exists v. split_and!; [done|by left|done|]. intros ? [= <-]. lia.
    - exists w. split_and!; [done|by right|done|]. by intros ? [= <-]. }
  destruct (Hle u) as (w & Hw & Huw); [by right|]. split.
  - intros x [[->|Hx]%elem_of_cons|Hx].
    + exists w. split; [done|lia].
    + apply Hle. by left.
    + exists w. split; [done|]. specialize (Hst x Hx). lia.
  - intros x Hx. destruct (Hin x Hx) as [Hx'|Hx']; [left; by right|]. assert (u = x) as <- by congruence.
    destruct Hor as [->|?]; [left; left|by right].
Qed.

(** The value each operator gives to the declared values. *)
Definition merged_value (o : PolicyMergeOperator) (path : string) (entries : list LayerFieldEntry) (v : jsval) : Prop :=
  match o with
  | hard_ceiling => exists n, v = JNum n /\ (exists e, e ∈ entries /\ le_value e = JNum n) /\
      forall e, e ∈ entries -> exists m, le_value e = JNum m /\ num_le n m
  | allow_intersection => exists s, v = strings s /\ NoDup s /\
      (forall e, e ∈ entries -> is_Some (strings_of e)) /\
      forall x, x ∈ s <-> forall e t, e ∈ entries -> strings_of e = Some t -> x ∈ t
  | deny_union | approval_union => exists s, v = strings s /\ NoDup s /\
      (forall e, e ∈ entries -> is_Some (strings_of e)) /\
      forall x, x ∈ s <-> exists e t, e ∈ entries /\ strings_of e = Some t /\ x ∈ t
  | strongest_control => exists ordering s, CONTROL_STRENGTH_ORDERS path = Some ordering /\ v = JStr s /\
      (exists e, e ∈ entries /\ le_value e = JStr s) /\
      forall e, e ∈ entries -> exists t, le_value e = JStr t /\ t ∈ ordering /\
        (index_of ordering t <= index_of ordering s)%Z
  | project_default => exists e, e ∈ entries /\ v = le_value e /\
      forall e', e' ∈ entries -> (layer_index (ref_layer (le_source e')) <= layer_index (ref_layer (le_source e)))%Z
  end.

Lemma mapM_entries {B} (f : LayerFieldEntry -> option B) entries values :
  mapM f entries = Some values ->
  (forall e, e ∈ entries -> exists b, f e = Some b /\ b ∈ values) /\
  (forall b, b ∈ values -> exists e, e ∈ entries /\ f e = Some b) /\ (entries <> [] -> values <> []).
Proof.
  intros Hm%mapM_Some. split; [|split].
  - intros e (i & He)%list_elem_of_lookup. destruct (Forall2_lookup_l _ _ _ _ _ Hm He) as (b & Hb & Hf).
    exists b. split; [done|]. by eapply list_elem_of_lookup_2.
  - intros b (i & Hb)%list_elem_of_lookup. destruct (Forall2_lookup_r _ _ _ _ _ Hm Hb) as (e & He & Hf).
    exists e. split; [|done]. by eapply list_elem_of_lookup_2.
  - intros Hne ->. inversion Hm; subst. done.
Qed.

Lemma union_spec path entries sets :
  mapM strings_of entries = Some sets ->
  merged_value deny_union path entries (strings (sort_strings (dedup (concat sets)))).
Proof.
  intros Em. destruct (mapM_entries _ _ _ Em) as (Hl & Hr & _). eexists. split; [done|].
  split; [rewrite sort_strings_Permutation; apply NoDup_dedup|]. split; [by intros e (b & Hb & _)%Hl|].
  intros x. rewrite elem_of_sort_strings, elem_of_dedup, list_elem_of_In, in_concat. split.
  - intros (t & Ht & Hx). apply list_elem_of_In in Ht, Hx. destruct (Hr t Ht) as (e & He & Hs). by exists e, t.
  - intros (e & t & He & Ht & Hx). destruct (Hl e He) as (b & Hb & Hin). assert (b = t) as -> by congruence.
    exists t. by rewrite <- !list_elem_of_In.
Qed.

Lemma merge_value_spec o path entries v :
  entries <> [] -> merge_value o path entries = Some v -> merged_value o path entries v.
Proof.
  intros Hne. unfold merge_value. destruct o; simpl.
  - destruct (mapM ceiling_of entries) as [values|] eqn:Em; [|done]. intros [= <-].
    destruct (mapM_entries _ _ _ Em) as (Hl & Hr & Hn).
    assert (forall e n, ceiling_of e = Some n -> le_value e = JNum n /\ is_Some (finite_value n)) as Hc.
    { intros e n. unfold ceiling_of. destruct (le_value e) as [| | |[]| | |]; intros [= <-]; by split. }
    destruct (min_number_spec values) as [Hin Hle]; [by apply Hn| |].
    { intros n (e & _ & He)%Hr. by apply (Hc e n). }
    exists (min_number values). split; [done|]. split.
    + destruct (Hr _ Hin) as (e & He & Hv). exists e. split; [done|]. by apply Hc in Hv as [? _].
    + intros e (n & Hv & Hn')%Hl. exists n. split; [by apply Hc in Hv as [? _]|by apply Hle].
  - destruct (mapM strings_of entries) as [sets|] eqn:Em; [|done]. intros [= <-].
    destruct (mapM_entries _ _ _ Em) as (Hl & Hr & Hn). eexists. split; [done|].
    split; [rewrite sort_strings_Permutation; apply NoDup_dedup|]. split; [by intros e (b & Hb & _)%Hl|].
    intros x. rewrite elem_of_sort_strings, elem_of_dedup, intersect_all_spec by auto. split.
    + intros H e t He Ht. destruct (Hl e He) as (b & Hb & Hin). assert (b = t) as -> by congruence. by apply H.
    + intros H s (e & He & Hs)%Hr. by eapply H.
  - destruct (mapM strings_of entries) as [sets|] eqn:Em; [|done]. intros [= <-]. exact (union_spec path _ _ Em).
  - destruct (mapM strings_of entries) as [sets|] eqn:Em; [|done]. intros [= <-]. exact (union_spec path _ _ Em).
  - destruct (CONTROL_STRENGTH_ORDERS path) as [ordering|] eqn:Eo; [simpl|done].
    destruct (mapM (control_of ordering) entries) as [values|] eqn:Em; [|done]. intros [= <-].
    destruct (mapM_entries _ _ _ Em) as (Hl & Hr & Hn).
    assert (forall e s, control_of ordering e = Some s -> le_value e = JStr s /\ s ∈ ordering) as Hc.
    { intros e s. unfold control_of. destruct (le_value e) as [| | | |s'| |]; try done.
      destruct (mem s' ordering) eqn:Em'; [|done]. intros [= <-]. by apply mem_spec in Em'. }
    destruct (strongest_spec ordering values None) as (s & -> & Hle & Hin).
    destruct values as [|u values]; [by destruct Hn|].
    destruct (Hle u) as (w & -> & _); [left; left|]. exists ordering, w. split; [done|]. split; [done|]. split.
    + destruct (Hin w eq_refl) as [Hw|?]; [|done]. destruct (Hr _ Hw) as (e & He & Hv). exists e.
      split; [done|]. by apply Hc in Hv as [? _].
    + intros e (t & Hv & Ht)%Hl. exists t. apply Hc in Hv as [? ?]. split; [done|]. split; [done|].
      destruct (Hle t) as (w' & [= <-] & Hlt); [by left|done].
  - destruct (js_sort by_precedence entries) as [|e es] eqn:Es; [done|]. intros [= <-].
    assert (StronglySorted (cmp_le by_precedence) (e :: es)) as Hs.
    { rewrite <- Es. apply js_sort_StronglySorted; intros x y; unfold by_precedence; lia. }
    inversion Hs as [|? ? _ Hall]; subst. exists e.
    assert (forall e', e' ∈ entries <-> e' ∈ e :: es) as Hel by (intros e'; by rewrite <- Es, elem_of_js_sort).
    split; [apply Hel; left|]. split; [done|]. intros e' [->|He']%Hel%elem_of_cons; [done|].
    rewrite Forall_forall in Hall. specialize (Hall e' He'). unfold cmp_le, by_precedence in Hall. lia.
Qed.

Lemma merged_value_Permutation o path es es' v : (forall e, e ∈ es <-> e ∈ es') ->
  merged_value o path es v -> merged_value o path es' v.
Proof. intros He. destruct o; simpl; setoid_rewrite He; done. Qed.

(** ** The merged policy *)

Lemma mergeField_Some path entries f :
  mergeField path entries = Some f -> length (dedup (map le_operator entries)) = 1 ->
  ef_path f = path /\ entries <> [] /\ (forall e, e ∈ entries -> le_operator e = ef_operator f) /\
  merged_value (ef_operator f) path entries (ef_value f).
Proof.
  unfold mergeField. destruct entries as [|e entries]; [done|]. intros Hm Hd.
  destruct (merge_value (le_operator e) path (e :: entries)) as [v|] eqn:Ev; [|done]. injection Hm as <-. simpl.
  split; [done|]. split; [done|]. split; [|by apply merge_value_spec].
  assert (forall o, o ∈ map le_operator (e :: entries) -> o = le_operator e) as Hall.
  { intros o Ho. apply elem_of_dedup in Ho.
    assert (le_operator e ∈ dedup (map le_operator (e :: entries))) as He by (apply elem_of_dedup; left).
    destruct (dedup _) as [|o' [|]]; [done| |done]. apply list_elem_of_singleton in Ho, He. congruence. }
  intros e' He'. apply Hall. by apply (list_elem_of_fmap_2 le_operator).
Qed.

Lemma find_merged collected path keys :
  merge_conflicts (map (merge_path collected) keys) = [] ->
  match find_first (fun f => bool_decide (ef_path f = path)) (merged_fields (map (merge_path collected) keys)) with
  | None => path ∉ keys
  | Some f => path ∈ keys /\ merge_path collected path = inl f
  end.
Proof.
  induction keys as [|key keys IH]; simpl; [intros _; apply not_elem_of_nil|].
  destruct (merge_path collected key) as [f|c] eqn:Ek; simpl; [|done]. intros Hc.
  assert (ef_path f = key) as Hp.
  { unfold merge_path in Ek. case_decide as Hd; [|done]. destruct (mergeField _ _) eqn:Em; [|done].
    injection Ek as ->. by apply mergeField_Some in Em as [? _]. }
  case_bool_decide as Hb; [split; [rewrite <- Hb, Hp; left|by rewrite <- Hb, Hp]|]. specialize (IH Hc).
  destruct (find_first _ _); [destruct IH; split; [by right|done]|]. apply not_elem_of_cons. split; [congruence|done].
Qed.

Lemma declared_Permutation l l' path : l ≡ₚ l' -> declared l path ≡ₚ declared l' path.
Proof. intros Hp. unfold declared. by rewrite Hp. Qed.

Lemma merge_Ok `{Hash} layers m :
  mergePolicyLayers layers = Ok m ->
  legal_layers layers /\ ep_layers (effective m) = map layerRef (js_sort layer_cmp layers) /\
  (conflicts m = [] ->
    known_operators layers /\
    forall path,
      match fieldAt (effective m) path with
      | None => declared layers path = []
      | Some f => ef_path f = path /\ declared layers path <> [] /\
          (forall e, e ∈ declared layers path -> le_operator e = ef_operator f) /\
          merged_value (ef_operator f) path (declared layers path) (ef_value f)
      end).
Proof.
  unfold mergePolicyLayers. rewrite bind_Ok. intros (seen & Hs & E).
  pose proof (layers_checked layers) as Hl. rewrite Hs in Hl. split; [done|].
  rewrite bind_Ok in E. destruct E as (digest & _ & E). apply (inj Ok) in E as <-.
  set (ordered := js_sort layer_cmp layers). assert (ordered ≡ₚ layers) as Hp by apply js_sort_Permutation.
  destruct (collect_all ordered) as [(Hn & Hne & Hd) Hc]. split; [done|].
  cbn [conflicts effective]. intros [Hc0%Hc Hm]%app_nil. split.
  { intros l f Hin. apply Hc0. by rewrite Hp. }
  intros path. unfold fieldAt. cbn [ep_fields].
  pose proof (find_merged _ path _ Hm) as Hf. destruct (find_first _ _) as [f|].
  - destruct Hf as [_ Hf]. unfold merge_path in Hf. case_decide as Hdd; [|done]. rewrite Hd in *.
    destruct (mergeField _ _) as [f'|] eqn:Ef; [|done]. injection Hf as ->.
    apply mergeField_Some in Ef as (H1 & H2 & H3 & H4); [|done].
    assert (forall e, e ∈ declared ordered path <-> e ∈ declared layers path) as Hel
      by (intros e; by rewrite (declared_Permutation _ _ path Hp)).
    split; [done|]. split; [|split].
    + intros E. apply H2. apply Permutation_nil_r. rewrite <- E. by apply declared_Permutation.
    + intros e He%Hel. by apply H3.
    + by apply (merged_value_Permutation _ _ _ _ _ Hel).
  - apply Permutation_nil_r. rewrite <- (declared_Permutation _ _ path Hp), <- Hd.
    rewrite elem_of_sort_strings in Hf. apply omap_get_None in Hf. by rewrite Hf.
Qed.

Lemma declares layers l f o :
  l ∈ layers -> f ∈ layer_fields l -> fi_merge_operator f = operator_text o ->
  Entry o (fi_value f) (layerRef l) ∈ declared layers (fi_path f).
Proof.
  intros Hl Hf Ho. unfold declared, declared_by. apply list_elem_of_bind. exists l. split; [|done].
  apply list_elem_of_bind. exists f. split; [|done]. rewrite decide_True by done.
  assert (operator_of (fi_merge_operator f) = Some o) as -> by by apply operator_of_Some. left.
Qed.

Lemma string_array_strings l : string_array (strings l) = Some l.
Proof. unfold strings. simpl. apply mapM_Some. induction l; simpl; by constructor. Qed.

(** A declared field of a policy without conflicts is merged by its operator. *)
Lemma effective_field `{Hash} layers m l f o :
  mergePolicyLayers layers = Ok m -> conflicts m = [] -> l ∈ layers -> f ∈ layer_fields l ->
  fi_merge_operator f = operator_text o ->
  exists ef, fieldAt (effective m) (fi_path f) = Some ef /\
    merged_value o (fi_path f) (declared layers (fi_path f)) (ef_value ef).
Proof.
  intros Hm Hc Hl Hf Ho. destruct (merge_Ok _ _ Hm) as (_ & _ & Hmerge). destruct (Hmerge Hc) as [_ Hfield].
  pose proof (declares layers l f o Hl Hf Ho) as Hin. specialize (Hfield (fi_path f)).
  destruct (fieldAt _ _) as [ef|]; [|rewrite Hfield in Hin; by apply elem_of_nil in Hin].
  destruct Hfield as (_ & _ & Hop & Hv). exists ef. split; [done|]. by rewrite <- (Hop _ Hin) in Hv.
Qed.

(** ** Properties *)

(** C28. The merge is exact field by field: without conflicts a path has a merged
    field exactly when some layer declares it, all its declarations agree on
    the operator, and the merged value is what that operator makes of them:
    the least ceiling, the intersection of the allow sets, the union of the
    deny or approval sets, the strictest control, the value of the last layer. *)
Theorem merged_policy_exact `{Hash} layers m path :
  mergePolicyLayers layers = Ok m -> conflicts m = [] ->
  match fieldAt (effective m) path with
  | None => declared layers path = []
  | Some f => ef_path f = path /\ declared layers path <> [] /\
      (forall e, e ∈ declared layers path -> le_operator e = ef_operator f) /\
      merged_value (ef_operator f) path (declared layers path) (ef_value f)
  end.
Proof. intros Hm Hc. destruct (merge_Ok _ _ Hm) as (_ & _ & Hf). by apply Hf. Qed.

(** The order in which the layers are given changes nothing, neither the
    result nor the error. *)
Theorem merge_order_independent `{Hash} layers layers' :
  layers ≡ₚ layers' -> mergePolicyLayers layers = mergePolicyLayers layers'.
Proof.
  intros Hp. unfold mergePolicyLayers.
  pose proof (layers_checked layers) as Hl. pose proof (layers_checked layers') as Hl'.
  assert (legal_layers layers <-> legal_layers layers') as Hlegal.
  { unfold legal_layers. setoid_rewrite Hp. done. }
  destruct (foldM admit_layer [] layers) as [s|e], (foldM admit_layer [] layers') as [s'|e'].
  - cbn [mbind result_bind]. by rewrite (layers_sort_unique _ _ Hl Hp).
  - destruct Hl' as [_ Hl']. by apply Hlegal in Hl.
  - destruct Hl as [_ Hl]. by apply Hlegal in Hl'.
  - destruct Hl as [-> _], Hl' as [-> _]. done.
Qed.

(** ** Witnesses *)

Definition two_layers : list PolicyLayerInput :=
  [Layer "project" 1 "p" [FieldInput "loop.max_steps" "hard_ceiling" (JNum (NInt 4))];
   Layer "installation" 1 "i" [FieldInput "loop.max_steps" "hard_ceiling" (JNum (NDec "2.5"))]].

Definition two_merged : MergedPolicy :=
  Eval vm_compute in match @mergePolicyLayers {| sha256 := fun s => s |} two_layers with
                     | Ok m => m
                     | Err _ => Merged (Effective [] [] "") []
                     end.
Lemma two_merged_Ok : @mergePolicyLayers {| sha256 := fun s => s |} two_layers = Ok two_merged.
Proof. vm_compute. reflexivity. Qed.

Lemma merged_policy_exact_witness :
  exists f, fieldAt (effective two_merged) "loop.max_steps" = Some f /\ ef_path f = "loop.max_steps".
Proof.
  pose proof (@merged_policy_exact {| sha256 := fun s => s |} two_layers two_merged "loop.max_steps" two_merged_Ok eq_refl)
    as Hm.
  assert (exists f, fieldAt (effective two_merged) "loop.max_steps" = Some f) as [f Hf]
    by (eexists; vm_compute; reflexivity).
  rewrite Hf in Hm. exists f. split; [exact Hf|]. exact (proj1 Hm).
Defined.

Lemma merge_order_independent_witness :
  @mergePolicyLayers {| sha256 := fun s => s |} two_layers = @mergePolicyLayers {| sha256 := fun s => s |} (reverse two_layers).
Proof. apply merge_order_independent. symmetry. apply reverse_Permutation. Defined.
