(* ===== verification/Lease.v ===== *)
(** * Task leases

    [packages/core/src/scheduling/records.ts] (with the task lease schema of
    [schema/scheduling.ts]) and [packages/runtime/src/scheduling/lease.ts]:
    sealed lease records, the chain rebuilt from a ledger of them, and the
    two operations that extend it. The [date-time] format check of the
    schema validator is a parameter ([DateTime]), the hash as in [Json]. *)

From S2P Require Import Prelude Regex Locator Json Policy.

Inductive TaskLeaseState : Type := granted | released | expired | revoked.
#[export] Instance TaskLeaseState_eq_dec : EqDecision TaskLeaseState.
Proof. solve_decision. Defined.

Definition state_name (s : TaskLeaseState) : string :=
  match s with
  | granted => "granted" | released => "released" | expired => "expired" | revoked => "revoked"
  end.

Inductive TaskRetryKind : Type := executor_retry | integration_retry.
#[export] Instance TaskRetryKind_eq_dec : EqDecision TaskRetryKind.
Proof. solve_decision. Defined.

Definition retry_name (k : TaskRetryKind) : string :=
  match k with executor_retry => "executor_retry" | integration_retry => "integration_retry" end.

Record BudgetAmount : Type := Amount { amount_steps : Z; amount_tokens : Z }.
#[export] Instance BudgetAmount_eq_dec : EqDecision BudgetAmount.
Proof. solve_decision. Defined.

(** [TaskLeaseRecord] *)
Record TaskLeaseRecord : Type := Lease
  { protocol_version : string; record_kind : string;
    operation_id : string; iteration_id : string; plan_digest : string;
    task_id : string; task_digest : string; run_id : string; slot_id : string;
    baseline_commit : string; agent_adapter_digest : string; policy_digest : string;
    approval_digests : list string; task_lease_record_id : string; lease_id : string;
    previous_lease_record_digest : option string; fencing_token : Z; state : TaskLeaseState;
    attempt_number : Z; retry_kind : option TaskRetryKind;
    reserved_budget : BudgetAmount; consumed_budget : BudgetAmount;
    issued_at : string; expires_at : string; command_id : string; record_digest : string }.
#[export] Instance TaskLeaseRecord_eq_dec : EqDecision TaskLeaseRecord.
Proof. solve_decision. Defined.

Definition jint (z : Z) : jsval := JNum (NInt z).
Definition amount_json (a : BudgetAmount) : jsval :=
  JObj [("steps", jint (amount_steps a)); ("tokens", jint (amount_tokens a))].
Definition optional (key : string) (o : option string) : list (string * jsval) :=
  match o with Some s => [(key, JStr s)] | None => [] end.

(** Every field of the record but its digest. *)
Definition lease_content (r : TaskLeaseRecord) : list (string * jsval) :=
  [("protocol_version", JStr (protocol_version r)); ("record_kind", JStr (record_kind r));
   ("operation_id", JStr (operation_id r)); ("iteration_id", JStr (iteration_id r));
   ("plan_digest", JStr (plan_digest r)); ("task_id", JStr (task_id r));
   ("task_digest", JStr (task_digest r)); ("run_id", JStr (run_id r));
   ("slot_id", JStr (slot_id r)); ("baseline_commit", JStr (baseline_commit r));
   ("agent_adapter_digest", JStr (agent_adapter_digest r));
   ("policy_digest", JStr (policy_digest r));
   ("approval_digests", JArr (map JStr (approval_digests r)));
   ("task_lease_record_id", JStr (task_lease_record_id r)); ("lease_id", JStr (lease_id r))] ++
  optional "previous_lease_record_digest" (previous_lease_record_digest r) ++
  [("fencing_token", jint (fencing_token r)); ("state", JStr (state_name (state r)));
   ("attempt_number", jint (attempt_number r))] ++
  optional "retry_kind" (retry_name <$> retry_kind r) ++
  [("reserved_budget", amount_json (reserved_budget r));
   ("consumed_budget", amount_json (consumed_budget r));
   ("issued_at", JStr (issued_at r)); ("expires_at", JStr (expires_at r));
   ("command_id", JStr (command_id r))].

Definition lease_fields (r : TaskLeaseRecord) : list (string * jsval) :=
  lease_content r ++ [(RECORD_DIGEST_FIELD, JStr (record_digest r))].

Inductive TaskLeaseErrorKind : Type :=
| policy_not_allowed | approval_not_satisfied | decision_binding_mismatch | invalid_retry
| invalid_transition | consumed_budget_regression | stale_fencing_token | command_conflict
| lease_chain_inconsistent.

Inductive lease_error : Type :=
| TaskLeaseError (kind : TaskLeaseErrorKind)
| SchedulingRecordError
| CanonicalError (e : canonical_error).
#[export] Instance TaskLeaseErrorKind_eq_dec : EqDecision TaskLeaseErrorKind.
Proof. solve_decision. Defined.
#[export] Instance lease_error_eq_dec : EqDecision lease_error.
Proof. solve_decision. Defined.

Abbreviation leasing A := (result lease_error A).

(** The [date-time] format of the schema validator. *)
Class DateTime : Type := { is_date_time : string -> bool }.

(** ** The schema of [TaskLeaseRecordSchema] *)

Definition identifier_ok (s : string) : bool :=
  (3 <=? String.length s)%nat && (String.length s <=? 160)%nat && re_match IDENTIFIER_REGEX s.
Definition digest_ok (s : string) : bool := re_match digest_regex s.
(** [^[0-9a-f]{7,40}$] *)
Definition commit_ok (s : string) : bool :=
  re_match (RCat (RRep (RCls is_hex_lower) 7) (RUpto (RCls is_hex_lower) 33)) s.
Definition amount_ok (a : BudgetAmount) : bool :=
  (0 <=? amount_steps a)%Z && (0 <=? amount_tokens a)%Z.

Definition schema_valid `{DateTime} (r : TaskLeaseRecord) : bool :=
  bool_decide (protocol_version r = PROTOCOL_1_3_VERSION) && bool_decide (record_kind r = "task_lease") &&
  forallb identifier_ok [operation_id r; iteration_id r; task_id r; run_id r; slot_id r;
    task_lease_record_id r; lease_id r; command_id r] &&
  forallb digest_ok [plan_digest r; task_digest r; agent_adapter_digest r; policy_digest r;
    record_digest r] &&
  commit_ok (baseline_commit r) &&
  forallb digest_ok (approval_digests r) && negb (has_duplicates (approval_digests r)) &&
  match previous_lease_record_digest r with Some d => digest_ok d | None => true end &&
  (1 <=? fencing_token r)%Z && (1 <=? attempt_number r)%Z &&
  amount_ok (reserved_budget r) && amount_ok (consumed_budget r) &&
  is_date_time (issued_at r) && is_date_time (expires_at r).

Definition isTerminal (s : TaskLeaseState) : bool := mem s [released; expired; revoked].

(** [assertTaskLeaseSemantics] *)
Definition assertTaskLeaseSemantics (r : TaskLeaseRecord) : leasing unit :=
  _ ← reject_if (fencing_token r <? 1)%Z SchedulingRecordError;
  _ ← reject_if (isTerminal (state r) && bool_decide (previous_lease_record_digest r = None))
        SchedulingRecordError;
  _ ← reject_if ((amount_steps (reserved_budget r) <? amount_steps (consumed_budget r))%Z ||
                 (amount_tokens (reserved_budget r) <? amount_tokens (consumed_budget r))%Z)
        SchedulingRecordError;
  reject_if (has_duplicates (approval_digests r)) SchedulingRecordError.

Section leases.
Context `{Hash, DateTime}.

Definition assertSchedulingRecordSemantics (r : TaskLeaseRecord) : leasing unit :=
  _ ← reject_if (negb (schema_valid r)) SchedulingRecordError;
  assertTaskLeaseSemantics r.

Definition digest_of (v : jsval) : leasing string := map_err CanonicalError (contentDigest v).

(** [buildTaskLeaseRecord]: the envelope fields of the draft are replaced,
    the record is sealed and checked. *)
Definition set_envelope (draft : TaskLeaseRecord) (digest : string) : TaskLeaseRecord :=
  match draft with
  | Lease _ _ o i p t td r s b a pd ad rid l prev f st n k rb cb ia ea c _ =>
      Lease PROTOCOL_1_3_VERSION "task_lease" o i p t td r s b a pd ad rid l prev f st n k rb cb ia ea c
        digest
  end.

Definition buildTaskLeaseRecord (draft : TaskLeaseRecord) : leasing TaskLeaseRecord :=
  d ← digest_of (JObj (lease_content (set_envelope draft "")));
  let record := set_envelope draft d in
  _ ← assertSchedulingRecordSemantics record;
  Ok record.

(** ** The chain *)

Record TaskLeaseChain : Type := Chain
  { latest_by_task : list (string * TaskLeaseRecord);
    records : list TaskLeaseRecord }.

Abbreviation inconsistent := (TaskLeaseError lease_chain_inconsistent).

(** The comparisons of [assertSameLeaseIdentity]. *)
Definition same_identity (a b : TaskLeaseRecord) : bool :=
  bool_decide ((operation_id a, iteration_id a, plan_digest a, task_id a, task_digest a, run_id a,
                slot_id a, baseline_commit a, agent_adapter_digest a, policy_digest a, lease_id a,
                fencing_token a, attempt_number a, issued_at a, expires_at a) =
               (operation_id b, iteration_id b, plan_digest b, task_id b, task_digest b, run_id b,
                slot_id b, baseline_commit b, agent_adapter_digest b, policy_digest b, lease_id b,
                fencing_token b, attempt_number b, issued_at b, expires_at b)) &&
  bool_decide (reserved_budget a = reserved_budget b) &&
  bool_decide (retry_kind a = retry_kind b) &&
  bool_decide (approval_digests a = approval_digests b).

#[global] Arguments same_identity : simpl never.

Definition assertSameLeaseIdentity (current previous : TaskLeaseRecord) : leasing unit :=
  reject_if (negb (same_identity current previous)) inconsistent.

(** The first loop of [buildTaskLeaseChain]: [byCommandId] and [deduped]. *)
Definition admit_record (st : gmap string TaskLeaseRecord * list TaskLeaseRecord)
    (record : TaskLeaseRecord) : leasing (gmap string TaskLeaseRecord * list TaskLeaseRecord) :=
  _ ← reject_if (negb (verifyRecordEnvelope (lease_fields record))) inconsistent;
  _ ← assertSchedulingRecordSemantics record;
  match st.1 !! command_id record with
  | Some existing =>
      if decide (record_digest existing = record_digest record) then Ok st
      else Err (TaskLeaseError command_conflict)
  | None => Ok (<[command_id record := record]> st.1, st.2 ++ [record])
  end.

(** The checks on the records of one lease, in ledger order. *)
Definition check_group (group : list TaskLeaseRecord) : leasing unit :=
  match group with
  | [] => Ok tt
  | opening :: rest =>
      _ ← reject_if (negb (bool_decide (state opening = granted)) ||
                     negb (bool_decide (previous_lease_record_digest opening = None))) inconsistent;
      match rest with
      | [] => Ok tt
      | _ :: _ :: _ => Err (TaskLeaseError invalid_transition)
      | [terminal] =>
          _ ← reject_if (negb (isTerminal (state terminal))) (TaskLeaseError invalid_transition);
          _ ← reject_if (negb (bool_decide (previous_lease_record_digest terminal =
                                            Some (record_digest opening)))) inconsistent;
          _ ← assertSameLeaseIdentity terminal opening;
          reject_if ((amount_steps (consumed_budget terminal) <? amount_steps (consumed_budget opening))%Z ||
                     (amount_tokens (consumed_budget terminal) <? amount_tokens (consumed_budget opening))%Z)
            (TaskLeaseError consumed_budget_regression)
      end
  end.

(** The checks between two consecutive attempts of a task. *)
Definition check_attempt (previousGranted previousLatest opening : TaskLeaseRecord) : leasing unit :=
  _ ← reject_if (fencing_token opening <=? fencing_token previousGranted)%Z inconsistent;
  _ ← reject_if (negb (isTerminal (state previousLatest))) (TaskLeaseError invalid_transition);
  _ ← reject_if (attempt_number opening <=? attempt_number previousGranted)%Z inconsistent;
  reject_if (negb (bool_decide ((operation_id opening, iteration_id opening, plan_digest opening, task_digest opening) =
    (operation_id previousGranted, iteration_id previousGranted, plan_digest previousGranted,
     task_digest previousGranted)))) inconsistent.

(** The last loop: [latestByTask] and [lastGroupByTask]. *)
Definition admit_group
    (st : list (string * TaskLeaseRecord) * gmap string (TaskLeaseRecord * TaskLeaseRecord))
    (group : list TaskLeaseRecord) :
  leasing (list (string * TaskLeaseRecord) * gmap string (TaskLeaseRecord * TaskLeaseRecord)) :=
  match group with
  | [] => Ok st
  | opening :: rest =>
      let latest := List.last rest opening in
      _ ← match st.2 !! task_id opening with
          | Some (previousGranted, previousLatest) =>
              check_attempt previousGranted previousLatest opening
          | None => Ok tt
          end;
      Ok (omap_set st.1 (task_id opening) latest, <[task_id opening := (opening, latest)]> st.2)
  end.

Definition buildTaskLeaseChain (ledger : list TaskLeaseRecord) : leasing TaskLeaseChain :=
  st ← foldM admit_record (∅, []) ledger;
  let groups := (group_by lease_id st.2).*2 in
  _ ← forM_ check_group groups;
  st' ← foldM admit_group ([], ∅) groups;
  Ok (Chain st'.1 st.2).

Definition nextFencingToken (chain : TaskLeaseChain) (taskId : string) : Z :=
  match omap_get (latest_by_task chain) taskId with
  | None => 1
  | Some latest => fencing_token latest + 1
  end.

Definition assertCurrentFencingToken (chain : TaskLeaseChain) (taskId : string) (token : Z) :
  leasing unit :=
  match omap_get (latest_by_task chain) taskId with
  | None => Err (TaskLeaseError stale_fencing_token)
  | Some latest =>
      reject_if (negb (token =? fencing_token latest)%Z) (TaskLeaseError stale_fencing_token)
  end.

Definition deriveTaskLeaseId (taskId : string) (attemptNumber : Z) (commandId : string) : leasing string :=
  d ← digest_of (JObj [("task_id", JStr taskId); ("attempt_number", jint attemptNumber);
                       ("command_id", JStr commandId)]);
  Ok ("lease_" +:+ str_take 32 d).

Definition lease_record_id (leaseId : string) (s : TaskLeaseState) (commandId : string) : leasing string :=
  d ← digest_of (JObj [("lease_id", JStr leaseId); ("state", JStr (state_name s));
                       ("command_id", JStr commandId)]);
  Ok ("task-lease-record_" +:+ str_take 32 d).

Record GrantTaskLeaseInput : Type := Grant
  { g_decision : PolicyDecision; g_expected_action_digest : string;
    g_operation_id : string; g_iteration_id : string; g_plan_digest : string; g_task_id : string;
    g_task_digest : string; g_run_id : string; g_slot_id : string; g_baseline_commit : string;
    g_agent_adapter_digest : string; g_reserved_budget : BudgetAmount; g_issued_at : string;
    g_expires_at : string; g_command_id : string; g_retry_kind : option TaskRetryKind }.

Definition approvals_of (decision : PolicyDecision) : leasing (list string) :=
  match outcome decision with
  | allow => Ok []
  | requires_approval =>
      match approval_digest decision with
      | Some d => Ok [d]
      | None => Err (TaskLeaseError approval_not_satisfied)
      end
  | _ => Err (TaskLeaseError policy_not_allowed)
  end.

Definition check_retry (chain : TaskLeaseChain) (taskId : string) (attemptNumber : Z)
    (kind : option TaskRetryKind) : leasing unit :=
  match kind with
  | None => Ok tt
  | Some k =>
      _ ← reject_if (attemptNumber =? 1)%Z (TaskLeaseError invalid_retry);
      reject_if (existsb (fun r => bool_decide (task_id r = taskId) &&
                                   bool_decide (retry_kind r = Some k)) (records chain))
        (TaskLeaseError invalid_retry)
  end.

Definition grantTaskLease (chain : TaskLeaseChain) (input : GrantTaskLeaseInput) :
  leasing TaskLeaseRecord :=
  _ ← reject_if (negb (bool_decide (action_digest (g_decision input) = g_expected_action_digest input)))
        (TaskLeaseError decision_binding_mismatch);
  approvals ← approvals_of (g_decision input);
  let latest := omap_get (latest_by_task chain) (g_task_id input) in
  _ ← reject_if (match latest with Some l => negb (isTerminal (state l)) | None => false end)
        (TaskLeaseError invalid_transition);
  let attemptNumber := match latest with Some l => (attempt_number l + 1)%Z | None => 1%Z end in
  _ ← check_retry chain (g_task_id input) attemptNumber (g_retry_kind input);
  let fencingToken := nextFencingToken chain (g_task_id input) in
  leaseId ← deriveTaskLeaseId (g_task_id input) attemptNumber (g_command_id input);
  recordId ← lease_record_id leaseId granted (g_command_id input);
  buildTaskLeaseRecord
    {| protocol_version := ""; record_kind := "";
       operation_id := g_operation_id input; iteration_id := g_iteration_id input;
       plan_digest := g_plan_digest input; task_id := g_task_id input;
       task_digest := g_task_digest input; run_id := g_run_id input; slot_id := g_slot_id input;
       baseline_commit := g_baseline_commit input;
       agent_adapter_digest := g_agent_adapter_digest input;
       policy_digest := effective_policy_digest (g_decision input);
       approval_digests := approvals; task_lease_record_id := recordId; lease_id := leaseId;
       previous_lease_record_digest := None; fencing_token := fencingToken; state := granted;
       attempt_number := attemptNumber; retry_kind := g_retry_kind input;
       reserved_budget := g_reserved_budget input; consumed_budget := Amount 0 0;
       issued_at := g_issued_at input; expires_at := g_expires_at input;
       command_id := g_command_id input; record_digest := "" |}.

Definition terminateTaskLease (current : TaskLeaseRecord) (terminal : TaskLeaseState)
    (consumed : BudgetAmount) (commandId : string) : leasing TaskLeaseRecord :=
  _ ← reject_if (negb (bool_decide (state current = granted))) (TaskLeaseError invalid_transition);
  _ ← reject_if (negb (isTerminal terminal)) (TaskLeaseError invalid_transition);
  _ ← reject_if ((amount_steps consumed <? amount_steps (consumed_budget current))%Z ||
                 (amount_tokens consumed <? amount_tokens (consumed_budget current))%Z)
        (TaskLeaseError consumed_budget_regression);
  recordId ← lease_record_id (lease_id current) terminal commandId;
  buildTaskLeaseRecord
    (match current with
     | Lease pv rk o i p t td r s b a pd ad _ l _ f _ n k rb _ ia ea _ dg =>
         Lease pv rk o i p t td r s b a pd ad recordId l (Some (record_digest current)) f terminal n k
           rb consumed ia ea commandId dg
     end).
End leases.

(* ------------------------------------------------------------------ *)
(** ** Sealed records *)

Lemma lease_content_set draft d d' :
  lease_content (set_envelope draft d) = lease_content (set_envelope draft d').
Proof. by destruct draft. Qed.

Lemma without_digest r : without_field RECORD_DIGEST_FIELD (lease_fields r) = lease_content r.
Proof. by destruct r as [? ? ? ? ? ? ? ? ? ? ? ? ? ? ? [?|] ? ? ? [?|] ? ? ? ? ? ?]. Qed.

Lemma lease_field_get r :
  jfield (lease_fields r) "protocol_version" = JStr (protocol_version r) /\
  jfield (lease_fields r) "record_kind" = JStr (record_kind r) /\
  jfield (lease_fields r) RECORD_DIGEST_FIELD = JStr (record_digest r).
Proof. by destruct r as [? ? ? ? ? ? ? ? ? ? ? ? ? ? ? [?|] ? ? ? [?|] ? ? ? ? ? ?]. Qed.

Section sealed.
Context `{Hash, DateTime}.

(** A record the chain admits. *)
Definition valid_record (r : TaskLeaseRecord) : Prop :=
  verifyRecordEnvelope (lease_fields r) = true /\ assertSchedulingRecordSemantics r = Ok tt.

Lemma schema_parts r : schema_valid r = true ->
  re_match digest_regex (record_digest r) = true /\ (1 <= fencing_token r)%Z /\
  (1 <= attempt_number r)%Z.
Proof.
  unfold schema_valid. cbn [forallb]. rewrite !andb_true_iff, !Z.leb_le. unfold digest_ok. tauto.
Qed.

Lemma build_record_Ok draft r :
  buildTaskLeaseRecord draft = Ok r ->
  valid_record r /\ r = set_envelope draft (record_digest r).
Proof.
  unfold buildTaskLeaseRecord, digest_of. intros Hb.
  apply bind_Ok in Hb as (d & Hd%map_err_Ok & Hb). apply bind_Ok in Hb as ([] & Hs & Hr).
  injection Hr as <-. split; [|by destruct draft]. split; [|done].
  unfold verifyRecordEnvelope. destruct (lease_field_get (set_envelope draft d)) as (-> & -> & ->).
  unfold recordDigestOf. rewrite without_digest, (lease_content_set draft d ""), Hd.
  unfold assertSchedulingRecordSemantics in Hs. apply bind_Ok in Hs as (u & Hv%reject_if_Ok & _).
  apply negb_false_iff, schema_parts in Hv as (-> & _).
  destruct draft; cbn -[re_match]. by rewrite bool_decide_true.
Qed.

Lemma seal_total (v : jsval) :
  is_ok (canonicalizeJson v) = true -> exists d, digest_of v = Ok d.
Proof.
  unfold digest_of, contentDigest. destruct (canonicalizeJson v); [|done]. simpl. eauto.
Qed.

(* ---- the first loop ---- *)

Record admitted (ledger : list TaskLeaseRecord) (m : gmap string TaskLeaseRecord)
    (deduped : list TaskLeaseRecord) : Prop := {
  ad_valid : Forall valid_record ledger;
  ad_map : forall c r, m !! c = Some r <-> r ∈ deduped /\ command_id r = c;
  ad_nodup : NoDup (map command_id deduped);
  ad_sub : deduped ⊆ ledger;
  ad_cover : forall r, r ∈ ledger ->
    exists r', m !! command_id r = Some r' /\ record_digest r' = record_digest r
}.

Lemma admit_record_Ok st r st' :
  admit_record st r = Ok st' <->
  valid_record r /\
  match st.1 !! command_id r with
  | Some existing => record_digest existing = record_digest r /\ st' = st
  | None => st' = (<[command_id r := r]> st.1, st.2 ++ [r])
  end.
Proof.
  unfold admit_record, valid_record. rewrite bind_Ok. split.
  - intros (u & Hv%reject_if_Ok & Hr). apply negb_false_iff in Hv.
    apply bind_Ok in Hr as ([] & Hs & Hr). split; [done|].
    destruct (st.1 !! command_id r); [case_decide|]; by simplify_eq.
  - intros ((Hv & Hs) & Hm). exists tt. rewrite Hv, Hs. split; [done|]. simpl.
    destruct (st.1 !! command_id r); [destruct Hm as [? ->]; by rewrite decide_True | by subst].
Qed.

Lemma admit_all ledger st :
  foldM admit_record (∅, []) ledger = Ok st -> admitted ledger st.1 st.2.
Proof.
  intros Hf. refine (foldM_inv (fun l st => admitted l st.1 st.2) _ _ (∅, []) st _ _ Hf).
  { split; try done; [|constructor|].
    - intros c r. simpl; rewrite lookup_empty. split; [done|]. intros [Hr _]. by apply elem_of_nil in Hr.
    - intros r Hr. by apply elem_of_nil in Hr. }
  clear. intros done r todo acc acc' _ [Hv Hm Hn Hsub Hc] [Hr Hacc]%admit_record_Ok.
  destruct (acc.1 !! command_id r) as [e|] eqn:E.
  - destruct Hacc as [He ->]. split; try done.
    + apply Forall_app. by split; [|constructor].
    + set_solver.
    + intros x [Hx|Hx%list_elem_of_singleton]%elem_of_app; [auto|]. subst. eauto.
  - subst acc'. simpl. assert (command_id r ∉ map command_id acc.2) as Hnew.
    { intros (x & Ex & Hx)%list_elem_of_fmap. assert (acc.1 !! command_id r = Some x) by (apply Hm; done).
      congruence. }
    split.
    + apply Forall_app. by split; [|constructor].
    + intros c x. rewrite lookup_insert, elem_of_app, list_elem_of_singleton.
      case_decide as Ec.
      * split; [intros [= <-]; auto|]. intros [[Hx| ->] Hcx]; [|done].
        exfalso. apply Hnew. rewrite Ec, <- Hcx. by apply (list_elem_of_fmap_2 command_id).
      * rewrite Hm. split; [naive_solver|]. intros [[Hx| ->] Hcx]; [auto|congruence].
    + rewrite map_app. apply NoDup_app. split; [done|]. split; [|apply NoDup_singleton].
      intros c Hc1 Hc2. apply list_elem_of_singleton in Hc2 as ->. done.
    + intros x. rewrite !elem_of_app. naive_solver.
    + intros x [Hx|Hx%list_elem_of_singleton]%elem_of_app; simpl.
      * destruct (Hc x Hx) as (x' & Hx' & Ed). destruct (decide (command_id r = command_id x)) as [Ex|Ex].
        -- rewrite Ex in E. congruence.
        -- rewrite lookup_insert_ne by done. eauto.
      * subst. rewrite lookup_insert_eq. eauto.
Qed.
End sealed.

(* ------------------------------------------------------------------ *)
(** ** The groups and the attempts *)

(** A group the chain accepts: an opening grant and at most one terminal
    record that links it. *)
Inductive lease_group : list TaskLeaseRecord -> Prop :=
| open_group g : state g = granted -> previous_lease_record_digest g = None -> lease_group [g]
| closed_group g t :
    state g = granted -> previous_lease_record_digest g = None ->
    isTerminal (state t) = true -> previous_lease_record_digest t = Some (record_digest g) ->
    same_identity t g = true ->
    (amount_steps (consumed_budget g) <= amount_steps (consumed_budget t))%Z ->
    (amount_tokens (consumed_budget g) <= amount_tokens (consumed_budget t))%Z ->
    lease_group [g; t].

Lemma check_group_Ok group : group <> [] -> (check_group group = Ok tt <-> lease_group group).
Proof.
  destruct group as [|g [|t [|x l]]]; intros Hne; [by destruct Hne|clear Hne; cbn [check_group]..].
  - split.
    + intros (u & Hg%reject_if_Ok & _)%bind_Ok. bool_hyps. by constructor.
    + inversion 1; subst. by rewrite !bool_decide_true.
  - split.
    + intros (u & Hg%reject_if_Ok & Hr)%bind_Ok. apply bind_Ok in Hr as (u1 & Ht%reject_if_Ok & Hr).
      apply bind_Ok in Hr as (u2 & Hp%reject_if_Ok & Hr). apply bind_Ok in Hr as (u3 & Hi%reject_if_Ok & Hr).
      apply reject_if_Ok in Hr. bool_hyps. by constructor.
    + inversion 1 as [|? ? Hg Hp Ht Hl Hi]; subst. unfold assertSameLeaseIdentity.
      rewrite Hg, Hp, Hl, Ht, Hi, !bool_decide_true by done. simpl.
      by apply reject_if_Ok, orb_false_iff; split; apply Z.ltb_ge.
  - split; [|inversion 1]. intros (u & _ & Hr)%bind_Ok. done.
Qed.

(** The opening and the last record of a group. *)
Definition opening (group : list TaskLeaseRecord) : option TaskLeaseRecord := head group.
Definition task_of (group : list TaskLeaseRecord) : option string := task_id <$> head group.

(** What two attempts of one task owe each other. *)
Definition follows (previous next : list TaskLeaseRecord) : Prop :=
  forall p n, head previous = Some p -> head next = Some n -> task_id p = task_id n ->
    (fencing_token p < fencing_token n)%Z /\ (attempt_number p < attempt_number n)%Z /\
    (exists t, last previous = Some t /\ isTerminal (state t) = true) /\
    (operation_id n, iteration_id n, plan_digest n, task_digest n) =
    (operation_id p, iteration_id p, plan_digest p, task_digest p).

Lemma list_last_default {A} (x : A) l : List.last l x = default x (last l).
Proof. revert x; induction l as [|y l IH]; intros x; [done|]. destruct l; [done|]. simpl in *. rewrite IH. by destruct l. Qed.

(** The state of the last loop after the groups [done]. *)
Record attempts_inv (groups : list (list TaskLeaseRecord))
    (st : list (string * TaskLeaseRecord) * gmap string (TaskLeaseRecord * TaskLeaseRecord)) : Prop := {
  at_last : forall t, st.2 !! t =
    (group ← last (filter (fun g => task_of g = Some t) groups);
     g ← head group; l ← last group; Some (g, l));
  at_latest : forall t, omap_get st.1 t = snd <$> st.2 !! t;
  at_keys : NoDup st.1.*1
}.

Lemma check_attempt_Ok p l g u :
  check_attempt p l g = Ok u <->
  (fencing_token p < fencing_token g)%Z /\ isTerminal (state l) = true /\
  (attempt_number p < attempt_number g)%Z /\
  (operation_id g, iteration_id g, plan_digest g, task_digest g) =
  (operation_id p, iteration_id p, plan_digest p, task_digest p).
Proof.
  unfold check_attempt. destruct u. split.
  - intros (u & Hf%reject_if_Ok & Hr)%bind_Ok. apply bind_Ok in Hr as (u1 & Ht%reject_if_Ok & Hr).
    apply bind_Ok in Hr as (u2 & Ha%reject_if_Ok & Hr). apply reject_if_Ok in Hr. by bool_hyps.
  - intros (Hf & Ht & Ha & Ho). rewrite (proj2 (Z.leb_gt _ _) Hf), Ht, (proj2 (Z.leb_gt _ _) Ha). simpl.
    by apply reject_if_Ok, negb_false_iff, bool_decide_eq_true.
Qed.

(** The groups of one task among [groups]. *)
Definition task_groups (t : string) (groups : list (list TaskLeaseRecord)) :
  list (list TaskLeaseRecord) := filter (fun g => task_of g = Some t) groups.

Lemma task_groups_snoc t groups group :
  task_groups t (groups ++ [group]) =
    task_groups t groups ++ (if decide (task_of group = Some t) then [group] else []).
Proof. unfold task_groups. rewrite filter_app, filter_cons. by case_decide. Qed.

Lemma admit_group_Ok groups g rest st st' :
  attempts_inv groups st -> Forall (fun group => group <> []) groups ->
  admit_group st (g :: rest) = Ok st' <->
  (forall previous, last (task_groups (task_id g) groups) = Some previous -> follows previous (g :: rest)) /\
  st' = (omap_set st.1 (task_id g) (default g (last rest)),
         <[task_id g := (g, default g (last rest))]> st.2).
Proof.
  intros [Hlast _ _] Hne. unfold admit_group. rewrite list_last_default, bind_Ok.
  specialize (Hlast (task_id g)). fold (task_groups (task_id g) groups) in Hlast.
  destruct (last (task_groups (task_id g) groups)) as [previous|] eqn:Ep.
  - assert (previous ∈ groups /\ task_of previous = Some (task_id g)) as [Hin Htask].
    { apply last_Some_elem_of, list_elem_of_filter in Ep. tauto. }
    destruct previous as [|p prest]; [done|]. injection Htask as Htask.
    assert (last (p :: prest) = Some (default p (last prest))) as Hl
      by (rewrite last_cons; by destruct (last prest)).
    cbn [mbind option_bind head] in Hlast. rewrite Hl in Hlast. cbn [mbind option_bind] in Hlast.
    rewrite Hlast. setoid_rewrite check_attempt_Ok. split.
    + intros (u & (Hf & Ht & Ha & Ho) & [= <-]). split; [|done].
      intros ? [= <-] ? ? [= <-] [= <-] _. split; [done|]. split; [done|]. split; [|done].
      rewrite Hl. eauto.
    + intros (Hprev & ->). destruct (Hprev _ eq_refl p g eq_refl eq_refl Htask) as (Hf & Ha & (t & Ht & Hterm) & Ho).
      exists tt. split; [|done]. rewrite Hl in Ht. injection Ht as <-. auto.
  - cbn [mbind option_bind] in Hlast. rewrite Hlast. split.
    + intros (u & _ & [= <-]). split; [|done]. by intros.
    + intros (_ & ->). by exists tt.
Qed.

Lemma attempts_inv_snoc groups g rest st :
  attempts_inv groups st ->
  attempts_inv (groups ++ [g :: rest])
    (omap_set st.1 (task_id g) (default g (last rest)),
     <[task_id g := (g, default g (last rest))]> st.2).
Proof.
  intros [Hlast Hlatest Hkeys]. split; simpl.
  - intros t. change (filter (fun g => task_of g = Some t) (groups ++ [g :: rest]))
      with (task_groups t (groups ++ [g :: rest])). rewrite task_groups_snoc, lookup_insert. simpl.
    destruct (decide (task_id g = t)) as [<-|Hne].
    + rewrite decide_True by done. rewrite last_snoc. simpl. rewrite last_cons. by destruct (last rest).
    + rewrite decide_False by (unfold task_of; simpl; congruence). rewrite app_nil_r. apply Hlast.
  - intros t. rewrite omap_get_set, lookup_insert, Hlatest. by case_decide.
  - by apply omap_set_NoDup.
Qed.

(** Consecutive attempts of every task follow each other. *)
Definition attempts_ok (groups : list (list TaskLeaseRecord)) : Prop :=
  forall pre group post t previous, groups = pre ++ group :: post ->
    task_of group = Some t -> last (task_groups t pre) = Some previous -> follows previous group.

Lemma attempts_ok_snoc groups group :
  attempts_ok (groups ++ [group]) <->
  attempts_ok groups /\
  forall t previous, task_of group = Some t -> last (task_groups t groups) = Some previous ->
    follows previous group.
Proof.
  split.
  - intros Ha. split.
    + intros pre x post t p -> Hx Hp. eapply (Ha pre x (post ++ [group])); [|done..].
      by rewrite <- app_assoc.
    + intros t p Ht Hp. by eapply (Ha groups group []).
  - intros [Ha Hg] pre x post t p E Hx Hp. destruct post as [|y post _] using rev_ind.
    + apply app_inj_tail in E as [-> ->]. by eapply Hg.
    + rewrite app_comm_cons, app_assoc in E. apply app_inj_tail in E as [-> ->]. by eapply Ha.
Qed.

Lemma admit_groups groups :
  Forall (fun group => group <> []) groups ->
  (attempts_ok groups -> exists st, foldM admit_group ([], ∅) groups = Ok st) /\
  (forall st, foldM admit_group ([], ∅) groups = Ok st -> attempts_ok groups /\ attempts_inv groups st).
Proof.
  induction groups as [|group groups IH] using rev_ind; intros Hne.
  - split; [intros _; by eexists|]. intros st [= <-]. split; [by intros [|? ?] ? ? ? ? [=]|].
    split; [intros t; apply lookup_empty|done|constructor].
  - apply Forall_app in Hne as [Hne Hg]. apply Forall_inv in Hg as Hg'.
    destruct group as [|g rest]; [done|]. specialize (IH Hne) as [IH1 IH2]. rewrite foldM_app. split.
    + intros [Ha Hf]%attempts_ok_snoc. destruct (IH1 Ha) as [st Hst]. rewrite Hst. cbn [mbind result_bind foldM].
      destruct (IH2 st Hst) as [_ Hinv].
      assert (exists st', admit_group st (g :: rest) = Ok st') as [st' ->]; [|by eexists].
      eexists. apply (admit_group_Ok groups g rest st _ Hinv Hne). split; [|reflexivity].
      intros p Hp. by eapply Hf.
    + intros st' Hst'. apply bind_Ok in Hst' as (st & Hst & Hst').
      destruct (IH2 st Hst) as [Ha Hinv]. cbn [foldM] in Hst'. apply bind_Ok in Hst' as (st2 & Hst2 & [= <-]).
      apply (admit_group_Ok groups) in Hst2 as [Hf ->]; [|done..]. split; [|by apply attempts_inv_snoc].
      apply attempts_ok_snoc. split; [done|]. intros t p [= <-] Hp. by apply Hf.
Qed.

(** [buildTaskLeaseChain] after its first loop. *)
Definition lease_groups (deduped : list TaskLeaseRecord) : list (list TaskLeaseRecord) :=
  (group_by lease_id deduped).*2.

Definition chain_of (deduped : list TaskLeaseRecord) : leasing TaskLeaseChain :=
  _ ← forM_ check_group (lease_groups deduped);
  st ← foldM admit_group ([], ∅) (lease_groups deduped);
  Ok (Chain st.1 deduped).

Lemma lease_groups_nonempty deduped : Forall (fun group => group <> []) (lease_groups deduped).
Proof.
  unfold lease_groups. rewrite group_by_spec. apply Forall_forall. intros group Hg.
  apply list_elem_of_fmap in Hg as ([k g] & -> & Hg). apply list_elem_of_fmap in Hg as (l & [= -> ->] & Hl).
  rewrite elem_of_dedup in Hl. apply (list_elem_of_fmap_1 lease_id) in Hl as (r & -> & Hr).
  intros E. simpl in E. assert (r ∈ filter (fun x => lease_id x = lease_id r) deduped) as Hin
    by (by apply list_elem_of_filter).
  rewrite E in Hin. by apply elem_of_nil in Hin.
Qed.

Record chain_facts (deduped : list TaskLeaseRecord) (chain : TaskLeaseChain) : Prop := {
  ch_records : records chain = deduped;
  ch_groups : Forall lease_group (lease_groups deduped);
  ch_attempts : attempts_ok (lease_groups deduped);
  ch_latest : forall t, omap_get (latest_by_task chain) t =
    (group ← last (task_groups t (lease_groups deduped)); last group);
  ch_keys : NoDup (latest_by_task chain).*1
}.

Lemma chain_of_Ok deduped chain : chain_of deduped = Ok chain -> chain_facts deduped chain.
Proof.
  unfold chain_of. intros (u & Hg & Hr)%bind_Ok. apply bind_Ok in Hr as (st & Hst & [= <-]).
  pose proof (lease_groups_nonempty deduped) as Hne.
  apply (admit_groups _ Hne) in Hst as [Ha [Hl1 Hl2 Hk]]. split; try done; simpl.
  - apply forM_Ok_u in Hg. rewrite Forall_forall in *. intros g Hin.
    apply check_group_Ok; auto.
  - intros t. rewrite Hl2, Hl1. fold (task_groups t (lease_groups deduped)).
    destruct (last (task_groups t (lease_groups deduped))) as [group|]; [|done]. simpl.
    destruct group as [|g rest]; [done|]. simpl. by destruct (last (g :: rest)).
Qed.

Lemma chain_of_total deduped :
  Forall lease_group (lease_groups deduped) -> attempts_ok (lease_groups deduped) ->
  exists chain, chain_of deduped = Ok chain.
Proof.
  intros Hg Ha. pose proof (lease_groups_nonempty deduped) as Hne. unfold chain_of.
  assert (forM_ check_group (lease_groups deduped) = Ok tt) as ->.
  { apply forM_Ok. rewrite Forall_forall in *. intros g Hin. apply check_group_Ok; auto. }
  destruct (admit_groups _ Hne) as [Hf _]. destruct (Hf Ha) as [st ->]. simpl. eauto.
Qed.

(* ---- the grants of a task ---- *)

Definition grants (t : string) (recs : list TaskLeaseRecord) : list TaskLeaseRecord :=
  filter (fun r => task_id r = t /\ state r = granted) recs.

Definition of_lease (l : string) (recs : list TaskLeaseRecord) : list TaskLeaseRecord :=
  filter (fun r => lease_id r = l) recs.

Lemma lease_groups_eq recs :
  lease_groups recs = map (fun l => of_lease l recs) (dedup (map lease_id recs)).
Proof. unfold lease_groups. rewrite group_by_spec. change (map snd (map (fun k => (k, of_lease k recs)) (dedup (map lease_id recs))) = map (fun l => of_lease l recs) (dedup (map lease_id recs))). by rewrite map_map. Qed.

Lemma of_lease_snoc l recs r :
  of_lease l (recs ++ [r]) = of_lease l recs ++ (if decide (lease_id r = l) then [r] else []).
Proof. unfold of_lease. rewrite filter_app, filter_cons. by case_decide. Qed.

Lemma of_lease_nonempty l recs : l ∈ map lease_id recs -> exists r rest, of_lease l recs = r :: rest.
Proof.
  intros (r & -> & Hr)%(list_elem_of_fmap_1 lease_id).
  assert (r ∈ of_lease (lease_id r) recs) as Hin by (by apply list_elem_of_filter).
  destruct (of_lease _ _); [by apply elem_of_nil in Hin|eauto].
Qed.

Lemma of_lease_group recs r :
  Forall lease_group (lease_groups recs) -> r ∈ recs -> lease_group (of_lease (lease_id r) recs).
Proof.
  rewrite Forall_forall, lease_groups_eq. intros Hf Hr. apply Hf.
  apply (list_elem_of_fmap_2 (fun l => of_lease l recs)), elem_of_dedup.
  by apply (list_elem_of_fmap_2 lease_id).
Qed.

(** A valid list of records stays valid without its last record. *)
Lemma lease_groups_prefix recs r :
  Forall lease_group (lease_groups (recs ++ [r])) -> Forall lease_group (lease_groups recs).
Proof.
  intros Hf. rewrite lease_groups_eq. apply Forall_fmap, Forall_forall. intros l Hl. simpl.
  rewrite elem_of_dedup in Hl. destruct (of_lease_nonempty l recs Hl) as (x & rest & Ex).
  apply (list_elem_of_fmap_1 lease_id) in Hl as (y & -> & Hy).
  pose proof (of_lease_group (recs ++ [r]) y Hf ltac:(apply elem_of_app; by left)) as Hg.
  rewrite of_lease_snoc, Ex in Hg. rewrite Ex. case_decide; [|by rewrite app_nil_r in Hg].
  inversion Hg; subst.
  - by destruct rest.
  - destruct rest as [|z [|]]; simplify_eq/=. by constructor.
Qed.

Lemma heads_granted recs :
  Forall lease_group (lease_groups recs) ->
  omap head (lease_groups recs) = filter (fun r => state r = granted) recs.
Proof.
  induction recs as [|r recs IH] using rev_ind; [done|]. intros Hf.
  specialize (IH (lease_groups_prefix _ _ Hf)). rewrite filter_app, <- IH.
  pose proof (of_lease_group _ r Hf ltac:(apply elem_of_app; right; left)) as Hg.
  rewrite of_lease_snoc, decide_True in Hg by done.
  rewrite !lease_groups_eq, map_app. change (map lease_id [r]) with [lease_id r]. rewrite dedup_snoc.
  assert (forall ks, (forall l, l ∈ ks -> l ∈ map lease_id recs) ->
    omap head (map (fun l => of_lease l (recs ++ [r])) ks) = omap head (map (fun l => of_lease l recs) ks)) as Hk.
  { induction ks as [|k ks IHk]; intros Hks; [done|]. cbn.
    destruct (of_lease_nonempty k recs) as (x & rest & Ex); [apply Hks; left|].
    rewrite of_lease_snoc, Ex. simpl. f_equal. apply IHk. intros. apply Hks. by right. }
  rewrite filter_cons. destruct (decide (lease_id r ∈ map lease_id recs)) as [Hin|Hnin].
  - rewrite app_nil_r, Hk by (intros l; by rewrite elem_of_dedup).
    rewrite decide_False; [by rewrite app_nil_r|].
    destruct (of_lease_nonempty _ _ Hin) as (x & rest & Ex). rewrite Ex in Hg.
    inversion Hg as [|g t ? ? Ht]; subst; [by destruct rest|].
    assert (t = r) as -> by (destruct rest as [|? [|]]; simplify_eq/=; done).
    intros E. by rewrite E in Ht.
  - rewrite map_app, omap_app, Hk by (intros l; by rewrite elem_of_dedup). f_equal.
    assert (of_lease (lease_id r) recs = []) as E.
    { apply list_filter_nil. intros x Hx Ex. apply Hnin. rewrite <- Ex. by apply (list_elem_of_fmap_2 lease_id). }
    rewrite E in Hg. simpl in *. rewrite of_lease_snoc, E, decide_True by done. simpl.
    inversion Hg; subst. by rewrite decide_True.
Qed.

Lemma grants_heads t recs :
  Forall lease_group (lease_groups recs) ->
  grants t recs = omap head (task_groups t (lease_groups recs)).
Proof.
  intros Hf. pose proof (heads_granted recs Hf) as Hh.
  assert (grants t recs = filter (fun r => task_id r = t) (filter (fun r => state r = granted) recs)) as ->.
  { unfold grants. rewrite list_filter_filter. apply list_filter_iff. intros; tauto. }
  rewrite <- Hh. clear Hh Hf. unfold task_groups.
  induction (lease_groups recs) as [|g gs IH]; [done|]. rewrite filter_cons.
  destruct g as [|x rest]; [by rewrite decide_False|].
  change (omap head ((x :: rest) :: gs)) with (x :: omap head gs). rewrite filter_cons, IH.
  destruct (decide (task_id x = t)) as [Hx|Hx].
  - rewrite decide_True by (unfold task_of; simpl; congruence). done.
  - rewrite decide_False by (unfold task_of; simpl; congruence). done.
Qed.

(** The order of the attempts of one task. *)
Definition attempt_lt (p n : TaskLeaseRecord) : Prop :=
  (fencing_token p < fencing_token n)%Z /\ (attempt_number p < attempt_number n)%Z.
#[export] Instance attempt_lt_trans : Transitive attempt_lt.
Proof. unfold attempt_lt. intros x y z ? ?. lia. Qed.

Lemma attempts_sorted t groups :
  attempts_ok groups -> StronglySorted attempt_lt (omap head (task_groups t groups)).
Proof.
  induction groups as [|g groups IH] using rev_ind; [constructor|]. intros [Ha Hg]%attempts_ok_snoc.
  specialize (IH Ha). rewrite task_groups_snoc, omap_app. case_decide as Ht; [|by rewrite app_nil_r].
  destruct g as [|n rest]; [done|]. simpl. apply StronglySorted_snoc; [apply _|done|].
  intros p Hp. destruct (last (task_groups t groups)) as [previous|] eqn:Ep.
  - apply last_Some in Ep as [l El]. rewrite El, omap_app in Hp.
    assert (task_of previous = Some t) as Hprev.
    { assert (previous ∈ task_groups t groups) as Hin by (rewrite El; apply elem_of_app; right; left).
      by apply list_elem_of_filter in Hin as [? _]. }
    destruct previous as [|p' prest]; [done|]. simpl in Hp. rewrite last_snoc in Hp. injection Hp as <-.
    destruct (Hg t (p' :: prest) Ht ltac:(by rewrite El, last_snoc) p' n eq_refl eq_refl) as (? & ? & _);
      [injection Ht; injection Hprev; congruence|done].
  - apply last_None in Ep. by rewrite Ep in Hp.
Qed.

(* ---- the latest record of a task ---- *)

Lemma task_groups_member t recs group :
  group ∈ task_groups t (lease_groups recs) -> exists g rest, group = g :: rest /\ task_id g = t /\ group ∈ lease_groups recs.
Proof.
  intros [Ht Hin]%list_elem_of_filter. destruct group as [|g rest]; [done|].
  injection Ht as Ht. eauto.
Qed.

Lemma lease_groups_member recs group :
  group ∈ lease_groups recs -> exists g rest, group = g :: rest /\ group = of_lease (lease_id g) recs.
Proof.
  rewrite lease_groups_eq. intros (l & -> & Hl)%list_elem_of_fmap. rewrite elem_of_dedup in Hl.
  destruct (of_lease_nonempty l recs Hl) as (g & rest & E). exists g, rest. split; [done|].
  assert (g ∈ of_lease l recs) as [<- _]%list_elem_of_filter by (rewrite E; left). done.
Qed.

(** The latest record of a task is the last record of its last grant. *)
Lemma latest_spec recs chain t :
  chain_facts recs chain ->
  omap_get (latest_by_task chain) t =
    (g ← last (grants t recs); last (of_lease (lease_id g) recs)).
Proof.
  intros [_ Hg _ Hl _]. rewrite Hl, (grants_heads t recs Hg).
  destruct (last (task_groups t (lease_groups recs))) as [group|] eqn:E.
  - apply last_Some in E as [l E]. rewrite E, omap_app.
    destruct (task_groups_member t recs group) as (g & rest & -> & _ & Hin);
      [rewrite E; apply elem_of_app; right; left|].
    destruct (lease_groups_member _ _ Hin) as (g' & rest' & Eg & Eg'). injection Eg as <- <-.
    simpl. rewrite last_snoc. cbn [mbind option_bind]. by rewrite <- Eg'.
  - apply last_None in E. by rewrite E.
Qed.

(** A record of a group agrees with the grant that opened it. *)
Lemma group_identity recs g r :
  Forall lease_group (lease_groups recs) -> g ∈ recs -> state g = granted ->
  last (of_lease (lease_id g) recs) = Some r ->
  lease_id r = lease_id g /\ fencing_token r = fencing_token g /\
  attempt_number r = attempt_number g /\ task_id r = task_id g /\
  (operation_id r, iteration_id r, plan_digest r, task_digest r) =
  (operation_id g, iteration_id g, plan_digest g, task_digest g) /\
  ((r = g /\ of_lease (lease_id g) recs = [g]) \/
   (isTerminal (state r) = true /\ of_lease (lease_id g) recs = [g; r])).
Proof.
  intros Hf Hg Hs Hr. pose proof (of_lease_group recs g Hf Hg) as Hgroup.
  assert (g ∈ of_lease (lease_id g) recs) as Hin by (by apply list_elem_of_filter).
  inversion Hgroup as [x Hx Hp E|x y Hx Hp Ht Hl Hi H1 H2 E]; rewrite <- E in Hr, Hin; simpl in Hr.
  - injection Hr as ->. apply list_elem_of_singleton in Hin as ->. repeat (split; [done|]). by left.
  - injection Hr as ->. apply elem_of_cons in Hin as [->|Hin].
    + unfold same_identity in Hi. bool_hyps. simplify_eq. repeat (split; [congruence|]). by right.
    + apply list_elem_of_singleton in Hin as ->. by rewrite Hs in Ht.
Qed.

Section properties.
Context `{Hash, DateTime}.

Lemma build_chain_Ok ledger chain :
  buildTaskLeaseChain ledger = Ok chain ->
  exists m recs, foldM admit_record (∅, []) ledger = Ok (m, recs) /\ admitted ledger m recs /\
    chain_of recs = Ok chain /\ chain_facts recs chain.
Proof.
  unfold buildTaskLeaseChain. intros ([m recs] & Ha & Hc)%bind_Ok. exists m, recs. split; [done|].
  split; [by apply (admit_all ledger (m, recs))|]. split; [exact Hc|]. by apply chain_of_Ok.
Qed.

Lemma build_chain_snoc ledger m recs r :
  foldM admit_record (∅, []) ledger = Ok (m, recs) ->
  valid_record r -> m !! command_id r = None ->
  buildTaskLeaseChain (ledger ++ [r]) = chain_of (recs ++ [r]).
Proof.
  intros Ha Hv Hm. unfold buildTaskLeaseChain. rewrite foldM_app, Ha. cbn [mbind result_bind foldM].
  rewrite (proj2 (admit_record_Ok (m, recs) r (<[command_id r := r]> m, recs ++ [r]))); [done|].
  split; [done|]. simpl. by rewrite Hm.
Qed.

Lemma fresh_command ledger m recs c :
  admitted ledger m recs -> c ∉ map command_id ledger -> m !! c = None.
Proof.
  intros [_ Hm _ Hsub _] Hc. destruct (m !! c) as [r|] eqn:E; [|done]. apply Hm in E as [Hr <-].
  exfalso. apply Hc. apply (list_elem_of_fmap_2 command_id). by apply Hsub.
Qed.

Lemma admit_prefix more : forall st st',
  foldM admit_record st more = Ok st' -> st.2 `prefix_of` st'.2.
Proof.
  induction more as [|r more IH]; intros st st' Hf; [by injection Hf as <-|].
  cbn [foldM] in Hf. apply bind_Ok in Hf as (st1 & [_ H1]%admit_record_Ok & Hf).
  transitivity (st1.2); [|by apply IH]. destruct (st.1 !! command_id r).
  - by destruct H1 as [_ ->].
  - subst st1. by apply prefix_app_r.
Qed.

Lemma admitted_token ledger m recs r : admitted ledger m recs -> r ∈ recs ->
  (1 <= fencing_token r)%Z /\ (1 <= attempt_number r)%Z.
Proof.
  intros [Hv _ _ Hsub _] Hr. rewrite Forall_forall in Hv. destruct (Hv r (Hsub r Hr)) as [_ Hs].
  unfold assertSchedulingRecordSemantics in Hs. apply bind_Ok in Hs as (u & Hs%reject_if_Ok & _).
  apply negb_false_iff, schema_parts in Hs. tauto.
Qed.

(** The last grant behind the latest record. *)
Lemma latest_grant recs chain t r :
  chain_facts recs chain -> omap_get (latest_by_task chain) t = Some r ->
  exists g, last (grants t recs) = Some g /\ g ∈ recs /\ state g = granted /\ task_id g = t /\
    last (of_lease (lease_id g) recs) = Some r.
Proof.
  intros Hc Hl. rewrite (latest_spec _ _ t Hc) in Hl.
  destruct (last (grants t recs)) as [g|] eqn:E; [|done]. exists g. split; [done|].
  apply last_Some_elem_of, list_elem_of_filter in E as [[? ?] ?]. done.
Qed.

Lemma grants_sorted recs chain t : chain_facts recs chain -> StronglySorted attempt_lt (grants t recs).
Proof. intros [_ Hg Ha _ _]. rewrite grants_heads by done. by apply attempts_sorted. Qed.

(* ---- extending the chain ---- *)

Lemma grants_snoc t recs r :
  grants t (recs ++ [r]) =
    grants t recs ++ (if decide (task_id r = t /\ state r = granted) then [r] else []).
Proof. unfold grants. rewrite filter_app, filter_cons. by case_decide. Qed.

Lemma lease_groups_open recs r :
  lease_id r ∉ map lease_id recs -> lease_groups (recs ++ [r]) = lease_groups recs ++ [[r]].
Proof.
  intros Hn. rewrite !lease_groups_eq, map_app. change (map lease_id [r]) with [lease_id r].
  rewrite dedup_snoc, decide_False, map_app by done. f_equal.
  - apply map_ext_in. intros l Hl. rewrite of_lease_snoc, decide_False; [by rewrite app_nil_r|].
    intros E. apply Hn. rewrite E. apply list_elem_of_In in Hl. by rewrite elem_of_dedup in Hl.
  - simpl. rewrite of_lease_snoc, decide_True by done. f_equal.
    unfold of_lease. rewrite list_filter_nil; [done|].
    intros x Hx E. apply Hn. rewrite <- E. by apply (list_elem_of_fmap_2 lease_id).
Qed.

Definition stable_fields (r : TaskLeaseRecord) : string * string * string * string :=
  (operation_id r, iteration_id r, plan_digest r, task_digest r).

Lemma extend_grant recs chain r :
  chain_facts recs chain -> lease_id r ∉ map lease_id recs ->
  state r = granted -> previous_lease_record_digest r = None ->
  (forall l, omap_get (latest_by_task chain) (task_id r) = Some l ->
     isTerminal (state l) = true /\ (fencing_token l < fencing_token r)%Z /\
     (attempt_number l < attempt_number r)%Z /\ stable_fields r = stable_fields l) ->
  exists chain', chain_of (recs ++ [r]) = Ok chain' /\
    forall t, omap_get (latest_by_task chain') t =
      if decide (t = task_id r) then Some r else omap_get (latest_by_task chain) t.
Proof.
  intros Hc Hn Hs Hp Hl.
  assert (exists chain', chain_of (recs ++ [r]) = Ok chain') as [chain' Hc'].
  { apply chain_of_total; rewrite lease_groups_open by done.
    - apply Forall_app. split; [apply (ch_groups _ _ Hc)|]. constructor; [by constructor|done].
    - apply attempts_ok_snoc. split; [apply (ch_attempts _ _ Hc)|].
      intros t previous [= <-] Hprev p n Hhead [= <-] Et.
      pose proof (ch_latest _ _ Hc (task_id r)) as Hlat. rewrite Hprev in Hlat. cbn [mbind option_bind] in Hlat.
      destruct (task_groups_member (task_id r) recs previous) as (p' & rest & -> & _ & Hin);
        [by apply last_Some_elem_of|]. injection Hhead as ->.
      destruct (lease_groups_member _ _ Hin) as (? & ? & [= <- <-] & Eg).
      destruct (last (p :: rest)) as [l|] eqn:El; [|by apply last_None in El].
      destruct (Hl l Hlat) as (H1 & H2 & H3 & H4).
      assert (p ∈ recs /\ state p = granted) as [Hpin Hps].
      { assert (p ∈ of_lease (lease_id p) recs) as [_ ?]%list_elem_of_filter by (rewrite <- Eg; left).
        split; [done|]. pose proof (ch_groups _ _ Hc) as Hf. rewrite Forall_forall in Hf.
        specialize (Hf _ Hin). by inversion Hf. }
      rewrite Eg in El.
      destruct (group_identity _ _ _ (ch_groups _ _ Hc) Hpin Hps El) as (_ & E1 & E2 & _ & E3 & _).
      unfold stable_fields in H4. split; [lia|]. split; [lia|]. split; [eauto|congruence]. }
  exists chain'. split; [done|]. intros t. apply chain_of_Ok in Hc' as Hf'.
  rewrite (latest_spec _ _ t Hf'), (latest_spec _ _ t Hc), grants_snoc.
  destruct (decide (t = task_id r)) as [->|Ht].
  - rewrite decide_True by done. rewrite last_snoc. cbn [mbind option_bind].
    rewrite of_lease_snoc, decide_True by done. by rewrite last_snoc.
  - rewrite decide_False by naive_solver. rewrite app_nil_r.
    destruct (last (grants t recs)) as [g|] eqn:E; [|done]. cbn [mbind option_bind].
    apply last_Some_elem_of, list_elem_of_filter in E as [_ Hg].
    rewrite of_lease_snoc, decide_False; [by rewrite app_nil_r|].
    intros Eq. apply Hn. rewrite Eq. by apply (list_elem_of_fmap_2 lease_id).
Qed.

Definition close_group (r : TaskLeaseRecord) (group : list TaskLeaseRecord) : list TaskLeaseRecord :=
  match head group with
  | Some h => if decide (lease_id r = lease_id h) then group ++ [r] else group
  | None => group
  end.

Lemma close_group_head r group : head (close_group r group) = head group.
Proof. destruct group as [|h rest]; [done|]. unfold close_group. simpl. by case_decide. Qed.

Lemma lease_groups_close recs r :
  lease_id r ∈ map lease_id recs -> lease_groups (recs ++ [r]) = map (close_group r) (lease_groups recs).
Proof.
  intros Hin. rewrite !lease_groups_eq, map_app. change (map lease_id [r]) with [lease_id r].
  rewrite dedup_snoc, decide_True, app_nil_r, map_map by done. apply map_ext_in.
  intros l Hl. apply list_elem_of_In in Hl. rewrite elem_of_dedup in Hl.
  destruct (of_lease_nonempty l recs Hl) as (h & rest & E).
  assert (h ∈ of_lease l recs) as [Eh _]%list_elem_of_filter by (rewrite E; left).
  rewrite of_lease_snoc, E. unfold close_group. simpl. rewrite Eh. case_decide; [done|by rewrite app_nil_r].
Qed.

Lemma task_groups_close t r groups :
  task_groups t (map (close_group r) groups) = map (close_group r) (task_groups t groups).
Proof.
  unfold task_groups. induction groups as [|g gs IH]; [done|]. cbn [map]. rewrite !filter_cons, IH.
  unfold task_of. rewrite close_group_head. by case_decide.
Qed.

Lemma extend_terminal recs chain g r t :
  chain_facts recs chain -> omap_get (latest_by_task chain) t = Some g -> state g = granted ->
  lease_group [g; r] -> lease_id r = lease_id g -> task_id r = task_id g ->
  exists chain', chain_of (recs ++ [r]) = Ok chain' /\
    forall t', omap_get (latest_by_task chain') t' =
      if decide (t' = t) then Some r else omap_get (latest_by_task chain) t'.
Proof.
  intros Hc Hl Hs Hg Elease Etask.
  destruct (latest_grant _ _ _ _ Hc Hl) as (g0 & Hlast & Hin & Hs0 & Ht0 & Hr0).
  destruct (group_identity _ _ _ (ch_groups _ _ Hc) Hin Hs0 Hr0) as (_ & _ & _ & _ & _ & [[<- Hone]|[Hterm _]]);
    [|by rewrite Hs in Hterm].
  assert (isTerminal (state r) = true) as Hrt by (by inversion Hg).
  assert (lease_id r ∈ map lease_id recs) as Hlin
    by (rewrite Elease; by apply (list_elem_of_fmap_2 lease_id)).
  assert (forall group, group ∈ lease_groups recs -> forall h, head group = Some h -> lease_id r = lease_id h ->
            group = [g]) as Hgroup.
  { intros group Hgr h Hh Eh. destruct (lease_groups_member _ _ Hgr) as (h' & rest & -> & E).
    injection Hh as ->. by rewrite E, <- Eh, Elease. }
  assert (exists chain', chain_of (recs ++ [r]) = Ok chain') as [chain' Hc'].
  { apply chain_of_total; rewrite lease_groups_close by done.
    - apply Forall_fmap, Forall_forall. intros group Hgr. simpl.
      pose proof (ch_groups _ _ Hc) as Hf. rewrite Forall_forall in Hf. specialize (Hf group Hgr).
      unfold close_group. destruct (head group) as [h|] eqn:Eh; [|done]. case_decide as E; [|done].
      by rewrite (Hgroup group Hgr h Eh E).
    - intros pre group post t' previous E Ht' Hprev.
      apply map_eq_app in E as (pre0 & rest0 & Eg & <- & E).
      apply map_eq_cons in E as (x & post0 & -> & <- & <-).
      rewrite task_groups_close in Hprev. change (map (close_group r) (task_groups t' pre0))
        with (close_group r <$> task_groups t' pre0) in Hprev. rewrite fmap_last in Hprev.
      destruct (last (task_groups t' pre0)) as [p0|] eqn:Ep; [|done]. injection Hprev as <-.
      assert (task_of x = Some t') as Htx by (unfold task_of in *; by rewrite close_group_head in Ht').
      pose proof (ch_attempts _ _ Hc pre0 x post0 t' p0 Eg Htx Ep) as Hf.
      assert (p0 ∈ lease_groups recs /\ task_of p0 = Some t') as [Hp0 Htp].
      { apply last_Some_elem_of, list_elem_of_filter in Ep as [? ?]. split; [|done].
        rewrite Eg. apply elem_of_app. by left. }
      intros p n Hp Hn Et. rewrite close_group_head in Hp, Hn.
      destruct (Hf p n Hp Hn Et) as (? & ? & (z & Hz & Hzt) & ?).
      unfold close_group. rewrite Hp. case_decide as El; [|eauto].
      rewrite (Hgroup p0 Hp0 p Hp El) in Hz. injection Hz as <-. by rewrite Hs in Hzt. }
  exists chain'. split; [done|]. intros t'. apply chain_of_Ok in Hc' as Hf'.
  rewrite (latest_spec _ _ t' Hf'), (latest_spec _ _ t' Hc), grants_snoc.
  rewrite decide_False by (intros [_ E]; by rewrite E in Hrt). rewrite app_nil_r. case_decide as Et.
  - subst t'. rewrite Hlast. cbn [mbind option_bind].
    rewrite of_lease_snoc, decide_True by done. by rewrite last_snoc.
  - destruct (last (grants t' recs)) as [g'|] eqn:E; [|done]. cbn [mbind option_bind].
    apply last_Some_elem_of, list_elem_of_filter in E as [[E1 E2] E3].
    rewrite of_lease_snoc, decide_False; [by rewrite app_nil_r|].
    intros Eq. assert (g' ∈ of_lease (lease_id g) recs) as Hgi
      by (apply list_elem_of_filter; split; [congruence|done]).
    rewrite Hone in Hgi. apply list_elem_of_singleton in Hgi as ->. congruence.
Qed.

(** Distinct commands are all admitted. *)
Lemma admit_distinct ledger :
  Forall valid_record ledger -> NoDup (map command_id ledger) ->
  exists m, foldM admit_record (∅, []) ledger = Ok (m, ledger).
Proof.
  induction ledger as [|r ledger IH] using rev_ind; [by eexists|].
  intros [Hv Hr]%Forall_app. rewrite map_app. intros (Hnd & Hdis & _)%NoDup_app.
  destruct (IH Hv Hnd) as [m Hm]. rewrite foldM_app, Hm. cbn [mbind result_bind foldM].
  pose proof (admit_all _ _ Hm) as Had. inversion Hr; subst. eexists.
  rewrite (proj2 (admit_record_Ok (m, ledger) r (<[command_id r := r]> m, ledger ++ [r]))); [done|].
  split; [done|]. simpl. rewrite (fresh_command _ _ _ _ Had); [done|].
  intros Hin. apply (Hdis _ Hin). left.
Qed.

Lemma build_distinct ledger :
  Forall valid_record ledger -> NoDup (map command_id ledger) ->
  buildTaskLeaseChain ledger = chain_of ledger.
Proof.
  intros Hv Hnd. destruct (admit_distinct ledger Hv Hnd) as [m Hm].
  unfold buildTaskLeaseChain. by rewrite Hm.
Qed.

Lemma groups_of_two g1 g2 : lease_id g2 <> lease_id g1 -> lease_groups [g1; g2] = [[g1]; [g2]].
Proof. intros Hne. unfold lease_groups, group_by. simpl. by rewrite !decide_False by done. Qed.

Lemma groups_of_three g1 g2 t1 :
  lease_id t1 = lease_id g1 -> lease_id g2 <> lease_id g1 ->
  lease_groups [g1; t1; g2] = [[g1; t1]; [g2]] /\ lease_groups [g1; g2; t1] = [[g1; t1]; [g2]].
Proof.
  intros E Hne. unfold lease_groups, group_by. split; simpl; rewrite E.
  - rewrite !(decide_True_pi eq_refl). simpl. by rewrite !decide_False by done.
  - rewrite !decide_False by done. simpl. by rewrite !decide_True by done.
Qed.

(** What a successful grant and a successful termination are. *)
Record grant_facts (chain : TaskLeaseChain) (input : GrantTaskLeaseInput) (r : TaskLeaseRecord) : Prop := {
  gr_valid : valid_record r;
  gr_state : state r = granted;
  gr_previous : previous_lease_record_digest r = None;
  gr_task : task_id r = g_task_id input;
  gr_command : command_id r = g_command_id input;
  gr_token : fencing_token r = nextFencingToken chain (g_task_id input);
  gr_attempt : attempt_number r =
    match omap_get (latest_by_task chain) (g_task_id input) with Some l => attempt_number l + 1 | None => 1 end%Z;
  gr_stable : stable_fields r =
    (g_operation_id input, g_iteration_id input, g_plan_digest input, g_task_digest input);
  gr_closed : forall l, omap_get (latest_by_task chain) (g_task_id input) = Some l ->
    isTerminal (state l) = true;
  gr_bound : action_digest (g_decision input) = g_expected_action_digest input;
  gr_allowed : (outcome (g_decision input) = allow /\ approval_digests r = []) \/
    (outcome (g_decision input) = requires_approval /\
     exists d, approval_digest (g_decision input) = Some d /\ approval_digests r = [d]);
  gr_retry : forall k, retry_kind r = Some k ->
    omap_get (latest_by_task chain) (g_task_id input) <> None /\
    forall x, x ∈ records chain -> task_id x = task_id r -> retry_kind x <> Some k
}.

Lemma grant_Ok chain input r : grantTaskLease chain input = Ok r -> grant_facts chain input r.
Proof.
  unfold grantTaskLease. intros (u1 & Hb%reject_if_Ok & Hr)%bind_Ok.
  apply bind_Ok in Hr as (approvals & Ha & Hr). apply bind_Ok in Hr as (u2 & Hc%reject_if_Ok & Hr).
  apply bind_Ok in Hr as (u3 & Hk & Hr). apply bind_Ok in Hr as (lid & _ & Hr).
  apply bind_Ok in Hr as (rid & _ & Hr). apply build_record_Ok in Hr as [Hv Er].
  bool_hyps.
  assert (retry_kind r = g_retry_kind input /\ task_id r = g_task_id input /\ approval_digests r = approvals)
    as (Ek & Et & Eap) by (rewrite Er; done).
  split; try done; try (rewrite Er; done).
  - intros l Hl. rewrite Hl in Hc. by bool_hyps.
  - rewrite Eap. unfold approvals_of in Ha. destruct (outcome (g_decision input)); try done.
    + injection Ha as <-. by left.
    + destruct (approval_digest _) as [d|] eqn:Ed; [|done]. injection Ha as <-. right. eauto.
  - intros k Hrk. unfold check_retry in Hk. rewrite <- Ek, Hrk in Hk.
    apply bind_Ok in Hk as (u4 & H1%reject_if_Ok & H2%reject_if_Ok). split.
    + intros Hn. by rewrite Hn in H1.
    + intros x Hx Ht Hxk. assert (existsb (fun r => bool_decide (task_id r = g_task_id input) &&
        bool_decide (retry_kind r = Some k)) (records chain) = true); [|congruence].
      apply existsb_exists. exists x. split; [by apply list_elem_of_In|].
      apply andb_true_iff. split; apply bool_decide_eq_true; congruence.
Qed.

Lemma terminate_Ok current terminal consumed commandId r :
  terminateTaskLease current terminal consumed commandId = Ok r ->
  previous_lease_record_digest current = None ->
  valid_record r /\ state current = granted /\ lease_group [current; r] /\ state r = terminal /\
  lease_id r = lease_id current /\ task_id r = task_id current /\
  consumed_budget r = consumed /\ command_id r = commandId.
Proof.
  unfold terminateTaskLease. intros (u1 & Hs%reject_if_Ok & Hr)%bind_Ok Hp.
  apply bind_Ok in Hr as (u2 & Ht%reject_if_Ok & Hr). apply bind_Ok in Hr as (u3 & Hc%reject_if_Ok & Hr).
  apply bind_Ok in Hr as (rid & _ & Hr). apply build_record_Ok in Hr as [Hv Er].
  bool_hyps. destruct current; simpl in *. split; [done|]. split; [done|].
  assert (forall x, x = r -> lease_group [Lease protocol_version0 record_kind0 operation_id0 iteration_id0
    plan_digest0 task_id0 task_digest0 run_id0 slot_id0 baseline_commit0 agent_adapter_digest0 policy_digest0
    approval_digests0 task_lease_record_id0 lease_id0 previous_lease_record_digest0 fencing_token0 state0
    attempt_number0 retry_kind0 reserved_budget0 consumed_budget0 issued_at0 expires_at0 command_id0
    record_digest0; x]) as Hg.
  { intros x ->. rewrite Er. constructor; try done. unfold same_identity.
    rewrite !andb_true_iff. split_and!; apply bool_decide_eq_true; reflexivity. }
  split; [by apply Hg|]. rewrite Er. done.
Qed.

(* ------------------------------------------------------------------ *)
(** ** Properties *)

(** C23. What the read path accepts: no command is effective twice, each lease is
    one grant with at most one terminal record that links it and keeps its
    identity, and the attempts of a task carry strictly increasing fencing
    tokens and attempt numbers; its latest record closes the last attempt. *)
Theorem lease_chain_wellformed ledger chain :
  buildTaskLeaseChain ledger = Ok chain ->
  NoDup (map command_id (records chain)) /\ records chain ⊆ ledger /\
  Forall valid_record ledger /\
  (forall r, r ∈ records chain -> lease_group (of_lease (lease_id r) (records chain))) /\
  (forall t, StronglySorted attempt_lt (grants t (records chain))) /\
  (forall t, omap_get (latest_by_task chain) t =
     (g ← last (grants t (records chain)); last (of_lease (lease_id g) (records chain)))).
Proof.
  intros (m & recs & _ & [Hv Hm Hn Hsub _] & _ & Hc)%build_chain_Ok.
  rewrite (ch_records _ _ Hc). split; [done|]. split; [done|]. split; [done|].
  split; [intros r Hr; by apply of_lease_group; [apply (ch_groups _ _ Hc)|]|].
  split; [intros t; by eapply grants_sorted | intros t; by apply latest_spec].
Qed.

(** Replaying a record the ledger already holds changes nothing. *)
Theorem command_replay_is_noop ledger chain r :
  buildTaskLeaseChain ledger = Ok chain -> r ∈ ledger ->
  buildTaskLeaseChain (ledger ++ [r]) = Ok chain.
Proof.
  intros (m & recs & Ha & [Hv _ _ _ Hcov] & Hc & _)%build_chain_Ok Hr.
  unfold buildTaskLeaseChain. rewrite foldM_app, Ha. cbn [mbind result_bind foldM].
  rewrite Forall_forall in Hv. destruct (Hcov r Hr) as (r' & Hr' & Ed).
  rewrite (proj2 (admit_record_Ok (m, recs) r (m, recs))); [exact Hc|].
  split; [by apply Hv|]. simpl. by rewrite Hr'.
Qed.

(** C24. Fencing is monotone: as the ledger grows, the next token of a task never
    decreases, and a token below the latest one is never current again. *)
Theorem fencing_never_regresses ledger more chain chain' t :
  buildTaskLeaseChain ledger = Ok chain -> buildTaskLeaseChain (ledger ++ more) = Ok chain' ->
  (nextFencingToken chain t <= nextFencingToken chain' t)%Z /\
  forall token, (token + 1 < nextFencingToken chain t)%Z ->
    assertCurrentFencingToken chain' t token = Err (TaskLeaseError stale_fencing_token).
Proof.
  intros (m & recs & Ha & _ & _ & Hc)%build_chain_Ok (m' & recs' & Ha' & Had' & _ & Hc')%build_chain_Ok.
  assert (recs `prefix_of` recs') as [tail ->].
  { rewrite foldM_app, Ha in Ha'. by apply (admit_prefix more (m, recs) (m', recs')). }
  assert (nextFencingToken chain t <= nextFencingToken chain' t)%Z as Hle.
  { unfold nextFencingToken. destruct (omap_get (latest_by_task chain) t) as [r|] eqn:E.
    - destruct (latest_grant _ _ _ _ Hc E) as (g & Hg & Hin & Hs & Ht & Hr).
      destruct (group_identity _ _ _ (ch_groups _ _ Hc) Hin Hs Hr) as (_ & -> & _).
      assert (g ∈ grants t (recs ++ tail)) as Hg'.
      { apply list_elem_of_filter. split; [done|]. apply elem_of_app. by left. }
      destruct (omap_get (latest_by_task chain') t) as [r'|] eqn:E'.
      + destruct (latest_grant _ _ _ _ Hc' E') as (g' & Hl & Hin' & Hs' & Ht' & Hr').
        destruct (group_identity _ _ _ (ch_groups _ _ Hc') Hin' Hs' Hr') as (_ & -> & _).
        destruct (StronglySorted_last _ _ _ _ (grants_sorted _ _ t Hc') Hl Hg') as [->|[? _]]; lia.
      + exfalso. rewrite (latest_spec _ _ t Hc') in E'.
        destruct (last (grants t (recs ++ tail))) as [g'|] eqn:El.
        * apply last_Some_elem_of, list_elem_of_filter in El as [_ Hin'].
          cbn in E'. apply last_None in E'.
          destruct (of_lease_nonempty (lease_id g') (recs ++ tail)) as (? & ? & En);
            [by apply (list_elem_of_fmap_2 lease_id)|]. congruence.
        * apply last_None in El. rewrite El in Hg'. by apply elem_of_nil in Hg'.
    - destruct (omap_get (latest_by_task chain') t) as [r'|] eqn:E'; [|done].
      destruct (latest_grant _ _ _ _ Hc' E') as (g' & _ & Hin' & Hs' & _ & Hr').
      destruct (group_identity _ _ _ (ch_groups _ _ Hc') Hin' Hs' Hr') as (_ & -> & _).
      pose proof (admitted_token _ _ _ _ Had' Hin'). lia. }
  split; [done|]. intros token Htok. unfold nextFencingToken in *. unfold assertCurrentFencingToken.
  destruct (omap_get (latest_by_task chain') t) as [r'|]; [|done].
  destruct (Z.eqb_spec token (fencing_token r')); [lia|done].
Qed.

(** Granting extends the chain: the read path accepts the granted record, it
    becomes the latest of its task with the next fencing token, and no other
    task is affected. *)
Theorem grant_extends_chain ledger chain input r :
  buildTaskLeaseChain ledger = Ok chain -> grantTaskLease chain input = Ok r ->
  g_command_id input ∉ map command_id ledger -> lease_id r ∉ map lease_id ledger ->
  (forall l, omap_get (latest_by_task chain) (g_task_id input) = Some l ->
     stable_fields l = (g_operation_id input, g_iteration_id input, g_plan_digest input, g_task_digest input)) ->
  fencing_token r = nextFencingToken chain (g_task_id input) /\
  exists chain', buildTaskLeaseChain (ledger ++ [r]) = Ok chain' /\
    (forall t, omap_get (latest_by_task chain') t =
       if decide (t = g_task_id input) then Some r else omap_get (latest_by_task chain) t) /\
    nextFencingToken chain' (g_task_id input) = (nextFencingToken chain (g_task_id input) + 1)%Z.
Proof.
  intros (m & recs & Ha & Had & Hc & Hf)%build_chain_Ok Hg Hcmd Hlease Hstable.
  destruct (grant_Ok _ _ _ Hg) as [Hv Hs Hp Ht Hcm Htok Hat Hst Hcl _ _ _].
  split; [done|]. destruct (extend_grant recs chain r Hf) as (chain' & Hc' & Hl'); [|done|done| |].
  - intros Hin. apply Hlease. apply (list_elem_of_fmap_1 lease_id) in Hin as (x & -> & Hx).
    apply (list_elem_of_fmap_2 lease_id). by apply (ad_sub _ _ _ Had).
  - intros l Hl. rewrite Ht in Hl. split; [by apply Hcl|]. rewrite Htok, Hat. unfold nextFencingToken.
    rewrite Hl. split; [lia|]. split; [lia|]. rewrite Hst. symmetry. by apply Hstable.
  - exists chain'. rewrite (build_chain_snoc ledger m recs); try done.
    + split; [done|]. rewrite Ht in Hl'. split; [done|]. unfold nextFencingToken at 1.
      rewrite Hl', decide_True by done. lia.
    + rewrite Hcm. by eapply fresh_command.
Qed.

(** A lease is granted on authority only: the decision binds this action and
    allows it, possibly by an approval the record carries; the previous
    attempt is closed; a retry kind needs an earlier attempt and is used at
    most once per task. *)
Theorem grant_needs_authority chain input r :
  grantTaskLease chain input = Ok r ->
  action_digest (g_decision input) = g_expected_action_digest input /\
  ((outcome (g_decision input) = allow /\ approval_digests r = []) \/
   (outcome (g_decision input) = requires_approval /\
    exists d, approval_digest (g_decision input) = Some d /\ approval_digests r = [d])) /\
  (forall l, omap_get (latest_by_task chain) (g_task_id input) = Some l -> isTerminal (state l) = true) /\
  (forall k, retry_kind r = Some k ->
     omap_get (latest_by_task chain) (g_task_id input) <> None /\
     forall x, x ∈ records chain -> task_id x = task_id r -> retry_kind x <> Some k).
Proof. intros [? ? ? ? ? ? ? ? ? ? ? ?]%grant_Ok. auto. Qed.

(** Terminating the live lease of a task extends the chain: the terminal
    record becomes the latest of the task, under the same token. *)
Theorem terminate_extends_chain ledger chain t current terminal consumed commandId r :
  buildTaskLeaseChain ledger = Ok chain -> omap_get (latest_by_task chain) t = Some current ->
  terminateTaskLease current terminal consumed commandId = Ok r ->
  commandId ∉ map command_id ledger ->
  exists chain', buildTaskLeaseChain (ledger ++ [r]) = Ok chain' /\
    (forall t', omap_get (latest_by_task chain') t' =
       if decide (t' = t) then Some r else omap_get (latest_by_task chain) t') /\
    nextFencingToken chain' t = nextFencingToken chain t.
Proof.
  intros (m & recs & Ha & Had & Hc & Hf)%build_chain_Ok Hl Ht Hcmd.
  assert (state current = granted) as Hs.
  { unfold terminateTaskLease in Ht. apply bind_Ok in Ht as (u & Hs%reject_if_Ok & _). by bool_hyps. }
  assert (previous_lease_record_digest current = None) as Hp.
  { destruct (latest_grant _ _ _ _ Hf Hl) as (g & _ & Hin & Hsg & _ & Hr).
    pose proof (of_lease_group recs g (ch_groups _ _ Hf) Hin) as Hg.
    destruct (group_identity _ _ _ (ch_groups _ _ Hf) Hin Hsg Hr) as (_ & _ & _ & _ & _ & [[-> E]|[E _]]);
      [|by rewrite Hs in E]. rewrite E in Hg. by inversion Hg. }
  destruct (terminate_Ok _ _ _ _ _ Ht Hp) as (Hv & _ & Hg & _ & Elease & Etask & _ & Ecmd).
  destruct (extend_terminal recs chain current r t) as (chain' & Hc' & Hl'); try done.
  exists chain'. rewrite (build_chain_snoc ledger m recs); try done.
  - split; [done|]. split; [done|]. unfold nextFencingToken. rewrite Hl', decide_True, Hl by done.
    inversion Hg as [|? ? _ _ _ _ Hi]; subst. unfold same_identity in Hi. bool_hyps. simplify_eq. congruence.
  - rewrite Ecmd. by eapply fresh_command.
Qed.

(** The read path looks at leases, not at the order of their records: a
    second attempt granted while the first lease is live is refused, but the
    same ledger is accepted once the terminal record of the first lease is
    appended after the second grant. *)
Theorem late_terminal_accepted g1 t1 g2 chain :
  buildTaskLeaseChain [g1; t1; g2] = Ok chain ->
  lease_id t1 = lease_id g1 -> lease_id g2 <> lease_id g1 -> task_id g2 = task_id g1 ->
  NoDup (map command_id [g1; t1; g2]) ->
  buildTaskLeaseChain [g1; g2] = Err (TaskLeaseError invalid_transition) /\
  exists chain', buildTaskLeaseChain [g1; g2; t1] = Ok chain' /\
    latest_by_task chain' = latest_by_task chain.
Proof.
  intros Hb El Hne Et Hnd.
  destruct (build_chain_Ok _ _ Hb) as (m & recs & Ha & Had & Hc & Hf).
  pose proof (ad_valid _ _ _ Had) as Hv. rewrite !Forall_cons in Hv. destruct Hv as (V1 & V2 & V3 & _).
  assert (Hall : forall l, Forall valid_record l -> NoDup (map command_id l) ->
            buildTaskLeaseChain l = chain_of l) by apply build_distinct.
  rewrite Hall in Hb by auto. apply chain_of_Ok in Hb as Hf3.
  assert (NoDup (map command_id [g1; g2]) /\ NoDup (map command_id [g1; g2; t1])) as [N1 N2].
  { assert (map command_id [g1; t1; g2] ≡ₚ map command_id [g1; g2] ++ [command_id t1]) as Hp
      by apply perm_skip, perm_swap.
    rewrite Hp in Hnd. split; [|exact Hnd]. by apply NoDup_app in Hnd as [? _]. }
  rewrite !Hall by auto. unfold chain_of in *.
  assert (lease_groups [g1; t1; g2] = [[g1; t1]; [g2]]) as G1 by by apply groups_of_three.
  assert (lease_groups [g1; g2; t1] = [[g1; t1]; [g2]]) as G2 by by apply groups_of_three.
  assert (lease_groups [g1; g2] = [[g1]; [g2]]) as G3 by by apply groups_of_two.
  rewrite G1 in Hb. rewrite G2, G3. split.
  - pose proof (ch_groups _ _ Hf3) as Hg. rewrite G1, !Forall_cons in Hg. destruct Hg as (H1 & H2 & _).
    assert (follows [g1; t1] [g2]) as Hfo.
    { apply (ch_attempts _ _ Hf3 [[g1; t1]] [g2] [] (task_id g1)); [done| |].
      - unfold task_of; simpl. by rewrite Et.
      - unfold task_groups. rewrite filter_cons, decide_True by done. done. }
    destruct (Hfo g1 g2 eq_refl eq_refl (eq_sym Et)) as (Hlt & _ & _ & _).
    rewrite (proj2 (forM_Ok check_group [[g1]; [g2]])).
    + cbn [mbind result_bind foldM admit_group fst snd]. rewrite lookup_empty. cbn [mbind result_bind fst snd].
      rewrite Et, lookup_insert_eq. cbn [List.last]. unfold check_attempt.
      rewrite (proj2 (Z.leb_gt _ _) Hlt). simpl. inversion H1; subst.
      by match goal with H : state g1 = granted |- _ => rewrite H end.
    + repeat constructor; apply check_group_Ok; try done. inversion H1; subst. by constructor.
  - destruct (forM_ check_group [[g1; t1]; [g2]]) as [[]|]; [|done].
    destruct (foldM admit_group ([], ∅) [[g1; t1]; [g2]]) as [st|]; [|done].
    injection Hb as <-. by eexists.
Qed.
End properties.

(* ------------------------------------------------------------------ *)
(** ** Witnesses *)

Fixpoint hex_digits (k : nat) (n : N) : string :=
  match k with 0 => "" | S k' => String (hex_digit (n mod 16)) (hex_digits k' (n / 16)) end.
Fixpoint poly_hash (s : string) (acc : N) : N :=
  match s with
  | EmptyString => acc
  | String a s' => poly_hash s' (N.land (acc * 1000003 + code a + 1) 18446744073709551615)
  end.
(** A polynomial hash of 64 hexadecimal digits. *)
Definition toy_hash : Hash := {| sha256 := fun s => hex_digits 64 (poly_hash s 7) |}.
Definition any_date : DateTime := {| is_date_time := fun s => negb (bool_decide (s = "")) |}.
#[local] Existing Instances toy_hash any_date.

#[local] Definition sample_digest : string := hex_digits 64 99.
#[local] Definition sample_decision : PolicyDecision :=
  Decision_ allow sample_digest sample_digest [] [] None.
Definition sample_grant (task command run : string) (retry : option TaskRetryKind) : GrantTaskLeaseInput :=
  Grant sample_decision sample_digest "operation_1" "iteration_1" sample_digest task sample_digest run
    "slot_1" "abcdef0123456" sample_digest (Amount 10 1000) "2026-01-01T00:00:00Z" "2026-01-01T01:00:00Z"
    command retry.

Definition get {A} (d : A) (m : leasing A) : A := match m with Ok a => a | Err _ => d end.
Definition no_chain : TaskLeaseChain := Chain [] [].
Definition blank : TaskLeaseRecord :=
  Lease "" "" "" "" "" "" "" "" "" "" "" "" [] "" "" None 0 granted 0 None (Amount 0 0) (Amount 0 0) "" "" "" "".

Definition grant_1 : TaskLeaseRecord :=
  Eval vm_compute in get blank (grantTaskLease no_chain (sample_grant "task_a" "command_1" "run_1" None)).
Definition ledger_1 : list TaskLeaseRecord := [grant_1].
Definition chain_1 : TaskLeaseChain := Eval vm_compute in get no_chain (buildTaskLeaseChain ledger_1).
Definition close_1 : TaskLeaseRecord :=
  Eval vm_compute in get blank (terminateTaskLease grant_1 expired (Amount 3 200) "command_2").
Definition ledger_2 : list TaskLeaseRecord := [grant_1; close_1].
Definition chain_2 : TaskLeaseChain := Eval vm_compute in get no_chain (buildTaskLeaseChain ledger_2).
Definition input_2 : GrantTaskLeaseInput := sample_grant "task_a" "command_3" "run_2" (Some executor_retry).
Definition grant_2 : TaskLeaseRecord := Eval vm_compute in get blank (grantTaskLease chain_2 input_2).
Definition ledger_3 : list TaskLeaseRecord := [grant_1; close_1; grant_2].
Definition chain_3 : TaskLeaseChain := Eval vm_compute in get no_chain (buildTaskLeaseChain ledger_3).

Lemma chain_1_Ok : buildTaskLeaseChain ledger_1 = Ok chain_1. Proof. vm_compute. reflexivity. Qed.
Lemma chain_2_Ok : buildTaskLeaseChain ledger_2 = Ok chain_2. Proof. vm_compute. reflexivity. Qed.
Lemma chain_3_Ok : buildTaskLeaseChain ledger_3 = Ok chain_3. Proof. vm_compute. reflexivity. Qed.
Lemma grant_2_Ok : grantTaskLease chain_2 input_2 = Ok grant_2. Proof. vm_compute. reflexivity. Qed.

Lemma lease_chain_wellformed_witness :
  StronglySorted attempt_lt (grants "task_a" (records chain_3)) /\
  length (grants "task_a" (records chain_3)) = 2%nat.
Proof. split; [apply (lease_chain_wellformed ledger_3 chain_3 chain_3_Ok)|vm_compute; reflexivity]. Defined.

Lemma command_replay_is_noop_witness : buildTaskLeaseChain (ledger_3 ++ [grant_1]) = Ok chain_3.
Proof. apply (command_replay_is_noop ledger_3 chain_3 grant_1 chain_3_Ok). left. Defined.

Lemma fencing_never_regresses_witness :
  nextFencingToken chain_3 "task_a" = 3%Z /\
  assertCurrentFencingToken chain_3 "task_a" 0 = Err (TaskLeaseError stale_fencing_token).
Proof.
  split; [vm_compute; reflexivity|].
  apply (fencing_never_regresses ledger_1 [close_1; grant_2] chain_1 chain_3 "task_a" chain_1_Ok chain_3_Ok).
  vm_compute. reflexivity.
Defined.

Lemma grant_extends_chain_witness :
  exists chain', buildTaskLeaseChain (ledger_2 ++ [grant_2]) = Ok chain' /\
    nextFencingToken chain' "task_a" = 3%Z.
Proof.
  destruct (grant_extends_chain ledger_2 chain_2 input_2 grant_2 chain_2_Ok grant_2_Ok)
    as (_ & chain' & Hc & _ & Hn).
  - apply mem_false. vm_compute. reflexivity.
  - apply mem_false. vm_compute. reflexivity.
  - intros l Hl. vm_compute in Hl. injection Hl as <-. vm_compute. reflexivity.
  - exists chain'. split; [exact Hc|].
    transitivity (nextFencingToken chain_2 "task_a" + 1)%Z; [exact Hn|vm_compute; reflexivity].
Defined.

Lemma grant_needs_authority_witness : approval_digests grant_2 = [] /\ retry_kind grant_1 <> Some executor_retry.
Proof.
  destruct (grant_needs_authority chain_2 input_2 grant_2 grant_2_Ok) as (_ & Ha & _ & Hr).
  split; [destruct Ha as [[_ Ha]|[Ha _]]; [exact Ha|discriminate]|].
  apply (Hr executor_retry eq_refl); [left|reflexivity].
Defined.

Lemma terminate_extends_chain_witness :
  exists chain', buildTaskLeaseChain (ledger_1 ++ [close_1]) = Ok chain' /\
    nextFencingToken chain' "task_a" = nextFencingToken chain_1 "task_a".
Proof.
  destruct (terminate_extends_chain ledger_1 chain_1 "task_a" grant_1 expired (Amount 3 200) "command_2" close_1
    chain_1_Ok) as (chain' & Hc & _ & Hn).
  - vm_compute. reflexivity.
  - vm_compute. reflexivity.
  - apply mem_false. vm_compute. reflexivity.
  - exists chain'. split; [exact Hc|exact Hn].
Defined.

Lemma late_terminal_accepted_witness :
  buildTaskLeaseChain [grant_1; grant_2] = Err (TaskLeaseError invalid_transition) /\
  exists chain', buildTaskLeaseChain [grant_1; grant_2; close_1] = Ok chain'.
Proof.
  destruct (late_terminal_accepted grant_1 close_1 grant_2 chain_3 chain_3_Ok) as (He & chain' & Hc & _).
  - reflexivity.
  - discriminate.
  - reflexivity.
  - apply has_duplicates_NoDup. vm_compute. reflexivity.
  - split; [exact He|]. exists chain'. exact Hc.
Defined.
