(* ===== verification/Budget.v ===== *)
(** * Iteration budget accounting

    [packages/runtime/src/scheduling/budget.ts]: reservations of steps and
    tokens against the limit of an iteration, their settlement, and the
    account restored from the lease ledger. [Date] is a parameter ([Clock]). *)

From S2P Require Import Prelude Json Lease.

(** [Date.parse] ([None] for NaN) and [new Date(ms).toISOString()]: time
    values lie within 8.64e15 milliseconds of the epoch (ECMA-262), and the
    ISO form of a time value parses back to it. *)
Definition max_time : Z := 8640000000000000.

Class Clock : Type :=
  { date_parse : string -> option Z;
    to_iso : Z -> string;
    parse_range : forall s m, date_parse s = Some m -> (- max_time <= m <= max_time)%Z;
    parse_iso : forall m, (- max_time <= m <= max_time)%Z -> date_parse (to_iso m) = Some m }.

Inductive BudgetAccountingErrorKind : Type :=
| invalid_amount | budget_exhausted | task_budget_exceeded | reservation_conflict
| unknown_reservation | stale_lease_token | consumed_exceeds_reserved | deadline_exceeded
| account_inconsistent.

Inductive budget_error : Type :=
| BudgetAccountingError (kind : BudgetAccountingErrorKind)
| LeaseError (e : lease_error).

Abbreviation budgeting A := (result budget_error A).
Abbreviation fail k := (Err (BudgetAccountingError k)).

(** An amount before [assertAmount] has looked at it. *)
Record RawAmount : Type := Raw { raw_steps : jsnum; raw_tokens : jsnum }.

Record BudgetReservation : Type := Reservation
  { res_lease_id : string; res_fencing_token : Z; res_amount : BudgetAmount }.

Record IterationBudgetAccount : Type := Account
  { limit : BudgetAmount;
    consumed : gmap string BudgetAmount;
    reservations : gmap string BudgetReservation;
    iteration_deadline : string }.

Definition createIterationBudgetAccount (l : BudgetAmount) (deadline : string) : IterationBudgetAccount :=
  Account l ∅ ∅ deadline.

(** [!Number.isInteger(n) || n < 0] *)
Definition natural (n : jsnum) : option Z :=
  match n with JInt z => if (z <? 0)%Z then None else Some z | JNonInt => None end.

Definition assertAmount (amount : RawAmount) : budgeting BudgetAmount :=
  match natural (raw_steps amount), natural (raw_tokens amount) with
  | Some s, Some t => Ok (Amount s t)
  | _, _ => fail invalid_amount
  end.

Definition no_amount : BudgetAmount := Amount 0 0.
Definition add_amount (a b : BudgetAmount) : BudgetAmount :=
  Amount (amount_steps a + amount_steps b) (amount_tokens a + amount_tokens b).
Definition sub_amount (a b : BudgetAmount) : BudgetAmount :=
  Amount (amount_steps a - amount_steps b) (amount_tokens a - amount_tokens b).
(** [a.steps > b.steps || a.tokens > b.tokens] *)
Definition exceeds (a b : BudgetAmount) : bool :=
  (amount_steps b <? amount_steps a)%Z || (amount_tokens b <? amount_tokens a)%Z.

(** [sumAmounts(Object.values(m))]; the order of the keys does not matter. *)
Definition sum_map (m : gmap string BudgetAmount) : BudgetAmount :=
  map_fold (fun _ a sum => add_amount sum a) no_amount m.

Definition remainingBudget (account : IterationBudgetAccount) : BudgetAmount :=
  sub_amount (sub_amount (limit account) (sum_map (consumed account)))
             (sum_map (res_amount <$> reservations account)).

Definition consumed_of (account : IterationBudgetAccount) (taskId : string) : BudgetAmount :=
  default no_amount (consumed account !! taskId).

Record ReserveTaskBudgetInput : Type := Reserve
  { rv_task_id : string; rv_lease_id : string; rv_fencing_token : Z;
    rv_task_budget : BudgetAmount; rv_task_remaining_duration_ms : jsnum;
    rv_amount : RawAmount; rv_now : string }.

Record ReserveTaskBudgetResult : Type := Reserved
  { rr_account : IterationBudgetAccount; rr_reserved_budget : BudgetAmount; rr_expires_at : string }.

Record SettleTaskBudgetInput : Type := Settle
  { st_task_id : string; st_lease_id : string; st_fencing_token : Z; st_consumed : RawAmount }.

Record SettleTaskBudgetResult : Type := Settled
  { sr_account : IterationBudgetAccount; sr_remaining : BudgetAmount; sr_returned : BudgetAmount }.

Section budget.
Context `{Clock}.

Definition reserveTaskBudget (account : IterationBudgetAccount) (input : ReserveTaskBudgetInput) :
  budgeting ReserveTaskBudgetResult :=
  amount ← assertAmount (rv_amount input);
  match natural (rv_task_remaining_duration_ms input) with
  | None => fail invalid_amount
  | Some duration =>
      match date_parse (rv_now input), date_parse (iteration_deadline account) with
      | Some now, Some deadline =>
          _ ← reject_if (deadline <=? now)%Z (BudgetAccountingError deadline_exceeded);
          _ ← reject_if (bool_decide (is_Some (reservations account !! rv_task_id input)))
                (BudgetAccountingError reservation_conflict);
          let remainder := sub_amount (rv_task_budget input) (consumed_of account (rv_task_id input)) in
          _ ← reject_if (exceeds amount remainder) (BudgetAccountingError task_budget_exceeded);
          _ ← reject_if (exceeds amount (remainingBudget account)) (BudgetAccountingError budget_exhausted);
          let reservation := Reservation (rv_lease_id input) (rv_fencing_token input) amount in
          Ok (Reserved
                (Account (limit account) (consumed account)
                   (<[rv_task_id input := reservation]> (reservations account))
                   (iteration_deadline account))
                amount (to_iso (Z.min (now + duration) deadline)))
      | _, _ => fail invalid_amount
      end
  end.

(** The account after a reservation of [taskId] is settled with [used]. *)
Definition settled (account : IterationBudgetAccount) (taskId : string) (used : BudgetAmount) :
  IterationBudgetAccount :=
  Account (limit account)
    (<[taskId := add_amount (consumed_of account taskId) used]> (consumed account))
    (delete taskId (reservations account)) (iteration_deadline account).

Definition settleTaskBudget (account : IterationBudgetAccount) (input : SettleTaskBudgetInput) :
  budgeting SettleTaskBudgetResult :=
  used ← assertAmount (st_consumed input);
  match reservations account !! st_task_id input with
  | None => fail unknown_reservation
  | Some reservation =>
      _ ← reject_if (negb (bool_decide (res_lease_id reservation = st_lease_id input)) ||
                     negb (res_fencing_token reservation =? st_fencing_token input)%Z)
            (BudgetAccountingError stale_lease_token);
      _ ← reject_if (exceeds used (res_amount reservation)) (BudgetAccountingError consumed_exceeds_reserved);
      let next := settled account (st_task_id input) used in
      Ok (Settled next (remainingBudget next) (sub_amount (res_amount reservation) used))
  end.

Context `{Hash, DateTime}.

(** [(a, b) => a.fencing_token - b.fencing_token || (a.state === "granted" ? -1 : 1)] *)
Definition fencing_cmp (a b : TaskLeaseRecord) : Z :=
  let d := (fencing_token a - fencing_token b)%Z in
  if (d =? 0)%Z then (if decide (state a = granted) then -1 else 1) else d.

(** The body of the inner loop of [restoreBudgetAccount]. *)
Definition replay_record (account : IterationBudgetAccount) (record : TaskLeaseRecord) :
  budgeting IterationBudgetAccount :=
  let taskId := task_id record in
  if decide (state record = granted) then
    if bool_decide (is_Some (reservations account !! taskId)) then fail account_inconsistent
    else Ok (Account (limit account) (consumed account)
               (<[taskId := Reservation (lease_id record) (fencing_token record) (reserved_budget record)]>
                  (reservations account))
               (iteration_deadline account))
  else
    match reservations account !! taskId with
    | None => fail account_inconsistent
    | Some reservation =>
        _ ← reject_if (negb (bool_decide (res_lease_id reservation = lease_id record)) ||
                       negb (res_fencing_token reservation =? fencing_token record)%Z)
              (BudgetAccountingError account_inconsistent);
        _ ← reject_if (exceeds (consumed_budget record) (res_amount reservation))
              (BudgetAccountingError consumed_exceeds_reserved);
        Ok (settled account taskId (consumed_budget record))
    end.

Definition restoreBudgetAccount (l : BudgetAmount) (deadline : string) (ledger : list TaskLeaseRecord) :
  budgeting IterationBudgetAccount :=
  chain ← map_err LeaseError (buildTaskLeaseChain ledger);
  account ← foldM (fun account group => foldM replay_record account (js_sort fencing_cmp group))
              (createIterationBudgetAccount l deadline) ((group_by task_id (records chain)).*2);
  let remaining := remainingBudget account in
  _ ← reject_if ((amount_steps remaining <? 0)%Z || (amount_tokens remaining <? 0)%Z)
        (BudgetAccountingError account_inconsistent);
  Ok account.
End budget.

(* ------------------------------------------------------------------ *)
(** ** Lemmas on amounts *)

Definition amount_le (a b : BudgetAmount) : Prop :=
  (amount_steps a <= amount_steps b)%Z /\ (amount_tokens a <= amount_tokens b)%Z.

Lemma amount_eq a b : amount_steps a = amount_steps b -> amount_tokens a = amount_tokens b -> a = b.
Proof. destruct a, b; simpl. congruence. Qed.

(** Componentwise arithmetic. *)
Ltac amounts :=
  unfold consumed_of, amount_le, add_amount, sub_amount in *; unfold no_amount in *;
  try apply amount_eq; simpl in *; try lia; intuition lia.

Lemma exceeds_false a b : exceeds a b = false <-> amount_le a b.
Proof. unfold exceeds, amount_le. rewrite orb_false_iff, !Z.ltb_ge. done. Qed.

Lemma assertAmount_Ok raw a : assertAmount raw = Ok a -> amount_le no_amount a.
Proof.
  unfold assertAmount, natural. destruct raw as [[s|] [t|]]; simpl; [|by destruct (s <? 0)%Z|done|done].
  destruct (Z.ltb_spec s 0); [done|]. destruct (Z.ltb_spec t 0); [done|]. intros [= <-]. amounts.
Qed.

Lemma sum_map_insert m k a : m !! k = None -> sum_map (<[k := a]> m) = add_amount (sum_map m) a.
Proof.
  intros Hk. unfold sum_map. rewrite map_fold_insert_L; [done| |done]. intros. amounts.
Qed.

Lemma sum_map_delete m k a : m !! k = Some a -> sum_map m = add_amount (sum_map (delete k m)) a.
Proof.
  intros Hk. rewrite <- (sum_map_insert _ k) by apply lookup_delete_eq. by rewrite insert_delete_id.
Qed.

Lemma sum_map_update m k a :
  sum_map (<[k := add_amount (default no_amount (m !! k)) a]> m) = add_amount (sum_map m) a.
Proof.
  destruct (m !! k) as [b|] eqn:E; simpl.
  - rewrite <- insert_delete_eq, sum_map_insert by apply lookup_delete_eq.
    rewrite (sum_map_delete m k b) by done. amounts.
  - rewrite sum_map_insert by done. amounts.
Qed.

(** The effect of a reservation and of a settlement on what is left. *)
Lemma remaining_reserve l c r d t x :
  r !! t = None ->
  remainingBudget (Account l c (<[t := x]> r) d) =
    sub_amount (remainingBudget (Account l c r d)) (res_amount x).
Proof.
  intros Hr. unfold remainingBudget; simpl. rewrite fmap_insert, sum_map_insert by (by rewrite lookup_fmap, Hr).
  amounts.
Qed.

Lemma remaining_settle account t x used :
  reservations account !! t = Some x ->
  remainingBudget (settled account t used) =
    add_amount (remainingBudget account) (sub_amount (res_amount x) used).
Proof.
  intros Hr. unfold remainingBudget, settled, consumed_of; simpl. rewrite sum_map_update, fmap_delete.
  rewrite (sum_map_delete (res_amount <$> reservations account) t (res_amount x)) by (by rewrite lookup_fmap, Hr).
  amounts.
Qed.

(** ** Accounts that operations reach *)

Section steps.
Context `{Clock}.
(** The approved budget of each task. *)
Variable task_budget : string -> BudgetAmount.

Inductive account_step : IterationBudgetAccount -> IterationBudgetAccount -> Prop :=
| step_reserve account input r :
    rv_task_budget input = task_budget (rv_task_id input) ->
    reserveTaskBudget account input = Ok r -> account_step account (rr_account r)
| step_settle account input r :
    settleTaskBudget account input = Ok r -> account_step account (sr_account r).

(** Nothing is negative, no task holds or has used more than its own budget,
    and the iteration limit covers all consumption and reservations. *)
Record account_ok (account : IterationBudgetAccount) : Prop := {
  ok_reserved : forall t x, reservations account !! t = Some x -> amount_le no_amount (res_amount x);
  ok_consumed : forall t, amount_le no_amount (consumed_of account t);
  ok_task : forall t, (exists a, consumed account !! t = Some a) \/ (exists x, reservations account !! t = Some x) ->
    amount_le (add_amount (consumed_of account t)
                 (default no_amount (res_amount <$> reservations account !! t))) (task_budget t);
  ok_remaining : amount_le no_amount (remainingBudget account)
}.

Lemma reserve_Ok account input r :
  reserveTaskBudget account input = Ok r ->
  exists amount duration now deadline,
    assertAmount (rv_amount input) = Ok amount /\
    natural (rv_task_remaining_duration_ms input) = Some duration /\
    date_parse (rv_now input) = Some now /\ date_parse (iteration_deadline account) = Some deadline /\
    (now < deadline)%Z /\ reservations account !! rv_task_id input = None /\
    amount_le amount (sub_amount (rv_task_budget input) (consumed_of account (rv_task_id input))) /\
    amount_le amount (remainingBudget account) /\
    r = Reserved (Account (limit account) (consumed account)
          (<[rv_task_id input := Reservation (rv_lease_id input) (rv_fencing_token input) amount]>
             (reservations account)) (iteration_deadline account))
          amount (to_iso (Z.min (now + duration) deadline)).
Proof.
  unfold reserveTaskBudget. intros (amount & Ha & Hr)%bind_Ok.
  destruct (natural _) as [duration|] eqn:Ed; [|done].
  destruct (date_parse (rv_now input)) as [now|] eqn:En; [|done].
  destruct (date_parse (iteration_deadline account)) as [deadline|] eqn:El; [|done].
  apply bind_Ok in Hr as (u1 & H1%reject_if_Ok & Hr). apply bind_Ok in Hr as (u2 & H2%reject_if_Ok & Hr).
  apply bind_Ok in Hr as (u3 & H3%reject_if_Ok & Hr). apply bind_Ok in Hr as (u4 & H4%reject_if_Ok & Hr).
  injection Hr as <-. bool_hyps. apply exceeds_false in H3, H4. apply eq_None_not_Some in H2.
  exists amount, duration, now, deadline. auto 10.
Qed.

Lemma reserve_total account input s t duration now deadline :
  rv_amount input = Raw (JInt s) (JInt t) -> amount_le no_amount (Amount s t) ->
  rv_task_remaining_duration_ms input = JInt duration -> (0 <= duration)%Z ->
  date_parse (rv_now input) = Some now -> date_parse (iteration_deadline account) = Some deadline ->
  (now < deadline)%Z -> reservations account !! rv_task_id input = None ->
  amount_le (Amount s t) (sub_amount (rv_task_budget input) (consumed_of account (rv_task_id input))) ->
  amount_le (Amount s t) (remainingBudget account) ->
  reserveTaskBudget account input = Ok (Reserved
    (Account (limit account) (consumed account)
       (<[rv_task_id input := Reservation (rv_lease_id input) (rv_fencing_token input) (Amount s t)]>
          (reservations account)) (iteration_deadline account))
    (Amount s t) (to_iso (Z.min (now + duration) deadline))).
Proof.
  intros Ea [Hs Ht] Ed Hd Hn Hi Hlt Hr Hle1%exceeds_false Hle2%exceeds_false. simpl in Hs, Ht.
  unfold reserveTaskBudget, assertAmount, natural. rewrite Ea, Ed. simpl.
  rewrite !(proj2 (Z.ltb_ge _ _)) by done. simpl. rewrite Hn, Hi, (proj2 (Z.leb_gt _ _)) by lia. simpl.
  rewrite Hr, bool_decide_false by (by intros []). simpl. by rewrite Hle1; simpl; rewrite Hle2.
Qed.

Lemma settle_Ok account input r :
  settleTaskBudget account input = Ok r ->
  exists used x, assertAmount (st_consumed input) = Ok used /\
    reservations account !! st_task_id input = Some x /\
    res_lease_id x = st_lease_id input /\ res_fencing_token x = st_fencing_token input /\
    amount_le used (res_amount x) /\
    r = Settled (settled account (st_task_id input) used)
          (remainingBudget (settled account (st_task_id input) used)) (sub_amount (res_amount x) used).
Proof.
  unfold settleTaskBudget. intros (used & Hu & Hr)%bind_Ok.
  destruct (reservations account !! st_task_id input) as [x|] eqn:Ex; [|done].
  apply bind_Ok in Hr as (u1 & H1%reject_if_Ok & Hr). apply bind_Ok in Hr as (u2 & H2%reject_if_Ok & Hr).
  injection Hr as <-. bool_hyps. apply exceeds_false in H2. exists used, x. auto 10.
Qed.

Lemma step_ok account account' :
  account_step account account' -> account_ok account -> account_ok account'.
Proof.
  intros [a input r Hb Hr|a input r Hr] [O1 O2 O3 O4].
  - apply reserve_Ok in Hr as (amount & du & now & dl & Ha%assertAmount_Ok & _ & _ & _ & _ & Hn & Ht & Hl & ->).
    rewrite Hb in Ht. simpl. split; simpl.
    + intros t x. rewrite lookup_insert. case_decide; [intros [= <-]; done|apply O1].
    + apply O2.
    + intros t. rewrite lookup_insert. specialize (O3 t). case_decide; [subst|by auto].
      intros _. simpl. amounts.
    + rewrite remaining_reserve by done. destruct a; simpl in *. amounts.
  - apply settle_Ok in Hr as (used & x & Hu%assertAmount_Ok & Hx & _ & _ & Hle & ->). simpl. split; simpl.
    + intros t y. rewrite lookup_delete_Some. intros [_ Hy]. by eapply O1.
    + intros t. unfold consumed_of; simpl. rewrite lookup_insert. specialize (O2 (st_task_id input)) as O2'.
      specialize (O2 t). case_decide; simpl; amounts.
    + intros t Hor. specialize (O3 t). unfold consumed_of in *; simpl in *. rewrite lookup_insert in *.
      rewrite lookup_delete in *. repeat case_decide; subst; try done.
      * simpl. rewrite Hx in O3. simpl in O3. specialize (O3 (or_intror (ex_intro _ x eq_refl))). amounts.
      * by apply O3.
    + rewrite (remaining_settle _ _ x) by done. amounts.
Qed.

Lemma initial_ok l d : amount_le no_amount l -> account_ok (createIterationBudgetAccount l d).
Proof.
  intros Hl. split; simpl.
  - intros t x. by rewrite lookup_empty.
  - intros t. unfold consumed_of; simpl. rewrite lookup_empty. amounts.
  - intros t. rewrite !lookup_empty. by intros [[? ?]|[? ?]].
  - unfold remainingBudget; simpl. rewrite fmap_empty. unfold sum_map. rewrite !map_fold_empty. amounts.
Qed.

Lemma reachable_ok l d account :
  amount_le no_amount l -> rtc account_step (createIterationBudgetAccount l d) account ->
  account_ok account.
Proof.
  intros Hl Hr. pose proof (initial_ok l d Hl) as H0.
  induction Hr as [|x y z Hxy _ IH]; [done|]. apply IH. by eapply step_ok.
Qed.
End steps.

(* ------------------------------------------------------------------ *)
(** ** The account a ledger stands for *)

(** The terminal records of a task and what they consumed. *)
Definition terminals (t : string) (recs : list TaskLeaseRecord) : list TaskLeaseRecord :=
  filter (fun r => task_id r = t /\ state r <> granted) recs.
Definition total_consumed (recs : list TaskLeaseRecord) : BudgetAmount :=
  foldr (fun r sum => add_amount (consumed_budget r) sum) no_amount recs.

Definition reservation_of (g : TaskLeaseRecord) : BudgetReservation :=
  Reservation (lease_id g) (fencing_token g) (reserved_budget g).

(** The latest record of the task while it is a grant. *)
Definition live_reservation (latest : option TaskLeaseRecord) : option BudgetReservation :=
  r ← latest; if decide (state r = granted) then Some (reservation_of r) else None.

Record account_of (l : BudgetAmount) (deadline : string) (chain : TaskLeaseChain)
    (account : IterationBudgetAccount) : Prop := {
  ac_limit : limit account = l;
  ac_deadline : iteration_deadline account = deadline;
  ac_consumed : forall t, consumed_of account t = total_consumed (terminals t (records chain));
  ac_reserved : forall t, reservations account !! t = live_reservation (omap_get (latest_by_task chain) t)
}.

(** A comparator with the sign of [fencing_cmp] on the records of a task,
    and consistent on all records. *)
Definition rank (r : TaskLeaseRecord) : Z := if decide (state r = granted) then 0 else 1.
Definition attempt_cmp (a b : TaskLeaseRecord) : Z :=
  let d := (fencing_token a - fencing_token b)%Z in if (d =? 0)%Z then (rank a - rank b)%Z else d.

Lemma attempt_cmp_le a b : (attempt_cmp a b <= 0)%Z <->
  (fencing_token a < fencing_token b)%Z \/ (fencing_token a = fencing_token b /\ (rank a <= rank b)%Z).
Proof. unfold attempt_cmp. destruct (Z.eqb_spec (fencing_token a - fencing_token b) 0); lia. Qed.

Lemma attempt_cmp_total : cmp_total attempt_cmp.
Proof.
  intros a b Hab. apply attempt_cmp_le. unfold attempt_cmp in Hab.
  destruct (Z.eqb_spec (fencing_token a - fencing_token b) 0); lia.
Qed.
Lemma attempt_cmp_trans : cmp_trans attempt_cmp.
Proof. intros a b c. rewrite !attempt_cmp_le. lia. Qed.

(** Strictly before in the replay of a task. *)
Definition before (a b : TaskLeaseRecord) : Prop :=
  (fencing_token a < fencing_token b)%Z \/
  (fencing_token a = fencing_token b /\ state a = granted /\ state b <> granted).

Lemma before_cmp a b : before a b -> (fencing_cmp a b <= 0)%Z /\ (0 < fencing_cmp b a)%Z /\
  (attempt_cmp a b <= 0)%Z /\ (0 < attempt_cmp b a)%Z.
Proof.
  unfold before, fencing_cmp, attempt_cmp, rank. intros [Hlt|(E & Ha & Hb)].
  - repeat match goal with |- context [(?x =? 0)%Z] => destruct (Z.eqb_spec x 0) end; lia.
  - rewrite E, Z.sub_diag. simpl. destruct (decide (state a = granted)), (decide (state b = granted)); first [done|lia].
Qed.

(** A list with a strict order sorts to that order whatever permutation of
    it is given. *)
Lemma fencing_sort l l' :
  StronglySorted before l -> l' ≡ₚ l -> js_sort fencing_cmp l' = l.
Proof.
  intros Hs Hp.
  assert (forall x y, x ∈ l -> y ∈ l -> x = y \/ before x y \/ before y x) as Htri.
  { clear Hp. induction Hs as [|z k Hk IH Hz]; intros x y Hx Hy; [by apply elem_of_nil in Hx|].
    rewrite Forall_forall in Hz. apply elem_of_cons in Hx as [->|Hx], Hy as [->|Hy]; auto. }
  assert (NoDup l) as Hnd.
  { clear -Hs. induction Hs as [|z k Hk IH Hz]; constructor; [|done]. intros Hin.
    rewrite Forall_forall in Hz. destruct (before_cmp _ _ (Hz z Hin)) as (? & ? & _). lia. }
  rewrite (js_sort_ext fencing_cmp attempt_cmp l').
  - rewrite (js_sort_unique attempt_cmp l' l); auto using attempt_cmp_total, attempt_cmp_trans.
    + apply js_sort_id. clear -Hs. induction Hs as [|z k Hk IH Hz]; constructor; [done|].
      eapply Forall_impl; [exact Hz|]. intros x Hx. unfold cmp_le. by destruct (before_cmp _ _ Hx) as (_ & _ & ? & _).
    + intros x y Hx Hy H1 H2. rewrite Hp in Hx, Hy. destruct (Htri x y Hx Hy) as [->|[Hb|Hb]]; [done|..];
        destruct (before_cmp _ _ Hb) as (_ & _ & _ & ?); lia.
  - intros pre x post y -> Hy. assert (x ∈ l /\ y ∈ l) as [Hxl Hyl].
    { rewrite <- Hp. split; apply elem_of_app; right; [left|by right]. }
    destruct (Htri x y Hxl Hyl) as [->|[Hb|Hb]].
    + exfalso. rewrite <- Hp in Hnd. apply NoDup_app in Hnd as (_ & _ & Hnd).
      by apply NoDup_cons in Hnd as [? _].
    + destruct (before_cmp _ _ Hb) as (? & _ & ? & _). by rewrite !(proj2 (Z.leb_le _ _)).
    + destruct (before_cmp _ _ Hb) as (_ & ? & _ & ?). by rewrite !(proj2 (Z.leb_gt _ _)).
Qed.

(** ** The replay of one task *)

(** What the groups of a task look like: grants closed but for the last. *)
Inductive task_history (t : string) : list (list TaskLeaseRecord) -> Prop :=
| history_nil : task_history t []
| history_open g :
    state g = granted -> task_id g = t -> task_history t [[g]]
| history_closed g r rest :
    state g = granted -> task_id g = t -> isTerminal (state r) = true -> task_id r = t ->
    lease_id r = lease_id g -> fencing_token r = fencing_token g ->
    amount_le (consumed_budget r) (reserved_budget g) ->
    task_history t rest -> task_history t ([g; r] :: rest).

Lemma terminal_not_granted r : isTerminal (state r) = true -> state r <> granted.
Proof. by intros Ht E; rewrite E in Ht. Qed.

(** The fields a replay step of task [t] leaves alone. *)
Definition same_elsewhere (t : string) (a b : IterationBudgetAccount) : Prop :=
  limit b = limit a /\ iteration_deadline b = iteration_deadline a /\
  forall t', t' <> t -> consumed b !! t' = consumed a !! t' /\ reservations b !! t' = reservations a !! t'.

Lemma same_elsewhere_trans t a b c : same_elsewhere t a b -> same_elsewhere t b c -> same_elsewhere t a c.
Proof.
  intros (H1 & H2 & H3) (H4 & H5 & H6). split; [congruence|]. split; [congruence|].
  intros t' Ht. destruct (H3 t' Ht), (H6 t' Ht). split; congruence.
Qed.

Lemma total_consumed_app l l' : total_consumed (l ++ l') = add_amount (total_consumed l) (total_consumed l').
Proof. induction l as [|r l IH]; simpl; [amounts|]. rewrite IH. amounts. Qed.

Lemma terminals_app t l l' : terminals t (l ++ l') = terminals t l ++ terminals t l'.
Proof. apply filter_app. Qed.

Lemma replay_history t groups : forall account,
  task_history t groups -> reservations account !! t = None ->
  exists account', foldM replay_record account (concat groups) = Ok account' /\
    same_elsewhere t account account' /\
    consumed_of account' t = add_amount (consumed_of account t) (total_consumed (terminals t (concat groups))) /\
    reservations account' !! t = live_reservation (group ← last groups; last group).
Proof.
  intros account Hh. revert account. induction Hh as [|g Hs Ht|g r rest Hs Ht Hr Htr Hl Hf Hc Hrest IH]; intros a Ha.
  - exists a. split; [done|]. split; [done|]. split; [simpl; amounts|done].
  - cbn [concat app foldM]. unfold replay_record. rewrite decide_True, Ht, Ha, bool_decide_false by done || by intros [].
    simpl. eexists. split; [reflexivity|]. split; [|split].
    + split; [done|]. split; [done|]. intros t' Hne. simpl. by rewrite lookup_insert_ne.
    + unfold consumed_of, terminals; simpl. rewrite filter_cons, decide_False by tauto. simpl. amounts.
    + simpl. unfold live_reservation. simpl. by rewrite lookup_insert_eq, decide_True.
  - assert (replay_record a g = Ok (Account (limit a) (consumed a) (<[t := reservation_of g]> (reservations a))
              (iteration_deadline a))) as E1.
    { unfold replay_record. rewrite decide_True, Ht, Ha, bool_decide_false by done || by intros []. done. }
    set (a1 := Account _ _ _ _) in E1.
    assert (replay_record a1 r = Ok (settled a1 t (consumed_budget r))) as E2.
    { unfold replay_record. rewrite decide_False, Htr by by apply terminal_not_granted.
      unfold a1; simpl. rewrite lookup_insert_eq. simpl. rewrite Hl, Hf, bool_decide_true, Z.eqb_refl by done. simpl.
      by rewrite (proj2 (exceeds_false _ _) Hc). }
    destruct (IH (settled a1 t (consumed_budget r))) as (a' & E3 & Hsame & Hcons & Hres).
    { simpl. by rewrite lookup_delete_eq. }
    exists a'. split; [|split; [|split]].
    + cbn [concat app foldM]. rewrite E1. cbn [mbind result_bind]. rewrite E2. exact E3.
    + eapply same_elsewhere_trans; [|exact Hsame]. split; [done|]. split; [done|].
      intros t' Hne. simpl. by rewrite lookup_delete_ne, !lookup_insert_ne.
    + rewrite Hcons. cbn [concat]. rewrite terminals_app, total_consumed_app.
      unfold terminals at 2. rewrite !filter_cons.
      rewrite decide_False by tauto. rewrite decide_True by (split; [done|by apply terminal_not_granted]).
      unfold consumed_of at 1, settled, a1; simpl. rewrite lookup_insert_eq. simpl. amounts.
    + rewrite Hres. destruct rest as [|x rest]; [|done]. simpl. unfold live_reservation; simpl.
      by rewrite decide_False by by apply terminal_not_granted.
Qed.

(** Replaying the tasks one after the other. *)
Lemma replay_tasks (parts : list (string * list (list TaskLeaseRecord))) : forall account,
  NoDup parts.*1 -> Forall (fun p => task_history p.1 p.2) parts ->
  (forall t, t ∈ parts.*1 -> reservations account !! t = None) ->
  exists account', foldM (fun a p => foldM replay_record a (concat p.2)) account parts = Ok account' /\
    limit account' = limit account /\ iteration_deadline account' = iteration_deadline account /\
    (forall t groups, (t, groups) ∈ parts ->
       consumed_of account' t = add_amount (consumed_of account t) (total_consumed (terminals t (concat groups))) /\
       reservations account' !! t = live_reservation (group ← last groups; last group)) /\
    (forall t, t ∉ parts.*1 ->
       consumed account' !! t = consumed account !! t /\ reservations account' !! t = reservations account !! t).
Proof.
  induction parts as [|[t groups] parts IH]; intros a Hnd Hh Hn.
  - exists a. do 3 (split; [done|]). split; [|done]. intros t g Hin. by apply elem_of_nil in Hin.
  - csimpl in *. apply NoDup_cons in Hnd as [Ht Hnd]. apply Forall_cons in Hh as [Hg Hh].
    destruct (replay_history t groups a Hg (Hn t ltac:(left))) as (a1 & E1 & (S1 & S2 & S3) & C1 & R1).
    destruct (IH a1 Hnd Hh) as (a2 & E2 & L2 & D2 & In2 & Out2).
    { intros t' Ht'. destruct (S3 t') as [_ ->]; [by intros ->|]. apply Hn. by right. }
    exists a2. split; [by rewrite E1|]. split; [congruence|]. split; [congruence|]. split.
    + intros t' g' [[= -> ->]|Hin]%elem_of_cons.
      * destruct (Out2 t Ht) as [E3 E4]. unfold consumed_of in *. by rewrite E3, E4.
      * destruct (In2 t' g' Hin) as [E3 E4]. split; [|done]. rewrite E3. f_equal. unfold consumed_of.
        destruct (S3 t') as [-> _]; [|done]. intros ->. apply Ht. by apply (list_elem_of_fmap_2 fst) in Hin.
    + intros t' Ht'. apply not_elem_of_cons in Ht' as [Hne Ht']. destruct (Out2 t' Ht') as [-> ->]. by apply S3.
Qed.

(** ** From the chain to the histories *)

Lemma admitted_valid `{Hash, DateTime} ledger m recs : admitted ledger m recs -> Forall valid_record recs.
Proof.
  intros Had. pose proof (ad_valid _ _ _ Had) as Hv. rewrite Forall_forall in *.
  intros r Hr. by apply Hv, (ad_sub _ _ _ Had).
Qed.

Section from_chain.
Context `{Hash, DateTime}.
Variables (recs : list TaskLeaseRecord) (chain : TaskLeaseChain).
Hypothesis facts : chain_facts recs chain.
Hypothesis valid : Forall valid_record recs.

Lemma valid_amounts r : r ∈ recs -> amount_le (consumed_budget r) (reserved_budget r).
Proof.
  intros Hr. rewrite Forall_forall in valid. destruct (valid r Hr) as [_ Hs].
  unfold assertSchedulingRecordSemantics in Hs. apply bind_Ok in Hs as (u & _ & Hs).
  unfold assertTaskLeaseSemantics in Hs. apply bind_Ok in Hs as (u1 & _ & Hs).
  apply bind_Ok in Hs as (u2 & _ & Hs). apply bind_Ok in Hs as (u3 & Hc%reject_if_Ok & _).
  bool_hyps. done.
Qed.

Lemma group_member group r : group ∈ lease_groups recs -> r ∈ group -> r ∈ recs.
Proof.
  intros Hg Hr. destruct (lease_groups_member _ _ Hg) as (g & rest & _ & E). rewrite E in Hr.
  by apply list_elem_of_filter in Hr as [_ ?].
Qed.

(** All records of a group share task and token with its head. *)
Lemma group_uniform group h r :
  group ∈ lease_groups recs -> head group = Some h -> r ∈ group ->
  task_id r = task_id h /\ fencing_token r = fencing_token h.
Proof.
  intros Hg Hh Hr. pose proof (ch_groups _ _ facts) as Hf. rewrite Forall_forall in Hf.
  destruct (Hf group Hg) as [g|g t _ _ _ _ Hi]; injection Hh as <-.
  - by apply list_elem_of_singleton in Hr as ->.
  - apply elem_of_cons in Hr as [->|Hr%list_elem_of_singleton]; [done|subst].
    unfold same_identity in Hi. bool_hyps. by simplify_eq.
Qed.

Lemma filter_concat t groups :
  groups ⊆ lease_groups recs ->
  filter (fun r => task_id r = t) (concat groups) = concat (task_groups t groups).
Proof.
  induction groups as [|group groups IH]; intros Hsub; [done|]. cbn [concat].
  rewrite filter_app, IH by (intros x Hx; apply Hsub; by right). unfold task_groups. rewrite filter_cons.
  assert (group ∈ lease_groups recs) as Hin by (apply Hsub; left).
  destruct (lease_groups_member _ _ Hin) as (g & rest & Eg & _).
  assert (forall r, r ∈ group -> task_id r = task_id g) as Hu
    by (intros r Hr; eapply group_uniform; [exact Hin|by rewrite Eg|done]).
  destruct (decide (task_of group = Some t)) as [Ht|Ht]; rewrite Eg in Ht; unfold task_of in Ht; simpl in Ht.
  - cbn [concat]. f_equal. apply list_filter_all. intros r Hr. rewrite Hu by done. congruence.
  - rewrite list_filter_nil; [done|]. intros r Hr E. apply Ht. rewrite <- E. by rewrite (Hu r).
Qed.

Lemma groups_sorted groups :
  groups ⊆ lease_groups recs -> StronglySorted attempt_lt (omap head groups) ->
  StronglySorted before (concat groups).
Proof.
  induction groups as [|group groups IH]; intros Hsub Hs; [constructor|].
  assert (group ∈ lease_groups recs) as Hin by (apply Hsub; left).
  destruct (lease_groups_member _ _ Hin) as (g & rest & Eg & _).
  assert (head group = Some g) as Hg by (by rewrite Eg).
  assert (omap head (group :: groups) = g :: omap head groups) as Eo by (by rewrite Eg).
  rewrite Eo in Hs. apply StronglySorted_inv in Hs as [Hs Hlt].
  cbn [concat]. apply StronglySorted_app_2.
  - pose proof (ch_groups _ _ facts) as Hf. rewrite Forall_forall in Hf.
    destruct (Hf group Hin) as [x|x t Hx _ Ht _ Hi]; [by repeat constructor|].
    constructor; [by repeat constructor|]. constructor; [|done]. right. unfold same_identity in Hi. bool_hyps. simplify_eq.
    split; [congruence|]. split; [done|by apply terminal_not_granted].
  - apply IH; [|done]. intros x Hx. apply Hsub. by right.
  - intros x y Hx Hy. left. apply list_elem_of_In, in_concat in Hy as (group' & Hg' & Hy).
    apply list_elem_of_In in Hg', Hy.
    assert (group' ∈ lease_groups recs) as Hin' by (apply Hsub; by right).
    destruct (lease_groups_member _ _ Hin') as (g' & rest' & Eg' & _).
    destruct (group_uniform group g x Hin Hg Hx) as [_ ->].
    destruct (group_uniform group' g' y Hin' ltac:(by rewrite Eg') Hy) as [_ ->].
    rewrite Forall_forall in Hlt. assert (g' ∈ omap head groups) as Hg'' by (apply list_elem_of_omap; exists group'; split; [done|by rewrite Eg']).
    by apply Hlt in Hg'' as [? _].
Qed.

Lemma history_snoc t groups group :
  task_history t groups ->
  (forall p, last groups = Some p -> exists r, last p = Some r /\ isTerminal (state r) = true) ->
  task_history t [group] -> task_history t (groups ++ [group]).
Proof.
  intros Hh. induction Hh as [|g Hs Ht|g r rest Hs Ht Hr Htr Hl Hf Hc Hrest IH]; intros Hlast Hgroup; [done| |].
  - destruct (Hlast [g] eq_refl) as (r & [= <-] & Hr). by rewrite Hs in Hr.
  - simpl. constructor; try done. apply IH; [|done]. intros p Hp. apply Hlast.
    rewrite last_cons, Hp. done.
Qed.

Lemma group_history t group :
  group ∈ lease_groups recs -> task_of group = Some t -> task_history t [group].
Proof.
  intros Hin Ht. pose proof (ch_groups _ _ facts) as Hf. rewrite Forall_forall in Hf.
  destruct (Hf group Hin) as [x|x r Hx Hp Hr Hl Hi]; injection Ht as Ht; [by constructor|].
  assert (r ∈ recs) as Hrin by (eapply group_member; [exact Hin|right; left]).
  apply valid_amounts in Hrin. unfold same_identity in Hi. bool_hyps. simplify_eq.
  assert (reserved_budget r = reserved_budget x) as Eb by done. rewrite Eb in Hrin.
  constructor; (done || congruence || constructor).
Qed.

Lemma task_groups_history t pre post :
  lease_groups recs = pre ++ post -> task_history t (task_groups t pre).
Proof.
  revert post. induction pre as [|group pre IH] using rev_ind; intros post E; [constructor|].
  rewrite <- app_assoc in E. specialize (IH _ E). rewrite task_groups_snoc.
  case_decide as Ht; [|by rewrite app_nil_r].
  assert (group ∈ lease_groups recs) as Hin by (rewrite E; apply elem_of_app; right; left).
  apply history_snoc; [done| |by apply group_history].
  intros p Hp. pose proof (ch_attempts _ _ facts pre group post t p E Ht Hp) as Hf.
  assert (task_of p = Some t) as Hpt by (by apply last_Some_elem_of, list_elem_of_filter in Hp as [? _]).
  unfold task_of in *. destruct (head p) as [h|] eqn:Hh; [|done]. destruct (head group) as [n|] eqn:Hn; [|done].
  simpl in *. destruct (Hf h n Hh Hn) as (_ & _ & ? & _); [congruence|done].
Qed.

Lemma total_consumed_perm l l' : l ≡ₚ l' -> total_consumed l = total_consumed l'.
Proof. induction 1; simpl; try congruence. amounts. Qed.

Lemma task_records t : filter (fun r => task_id r = t) recs ≡ₚ concat (task_groups t (lease_groups recs)).
Proof. rewrite <- filter_concat by done. unfold lease_groups. by rewrite group_by_concat. Qed.

Lemma task_sorted t :
  js_sort fencing_cmp (filter (fun r => task_id r = t) recs) = concat (task_groups t (lease_groups recs)).
Proof.
  apply fencing_sort; [|apply task_records]. apply groups_sorted.
  - intros x. unfold task_groups. rewrite list_elem_of_filter. by intros [_ ?].
  - apply attempts_sorted, (ch_attempts _ _ facts).
Qed.

Lemma task_terminals t :
  terminals t recs ≡ₚ terminals t (concat (task_groups t (lease_groups recs))).
Proof.
  unfold terminals. rewrite <- task_records, list_filter_filter. apply Permutation_refl', list_filter_ext. tauto.
Qed.

Lemma task_absent t : t ∉ map task_id recs -> terminals t recs = [] /\ task_groups t (lease_groups recs) = [].
Proof.
  intros Ht. assert (forall r, r ∈ recs -> task_id r <> t) as Hr.
  { intros r Hr <-. by apply Ht, (list_elem_of_fmap_2 task_id). }
  split; [apply list_filter_nil; intros r Hin [? _]; by eapply Hr|].
  apply list_filter_nil. intros group Hin E. destruct (lease_groups_member _ _ Hin) as (g & rest & -> & _).
  injection E as E. eapply Hr; [|exact E]. eapply group_member; [exact Hin|left].
Qed.

(** The replay of the whole ledger, for every task. *)
Lemma replay_ledger l deadline :
  exists account,
    foldM (fun account group => foldM replay_record account (js_sort fencing_cmp group))
      (createIterationBudgetAccount l deadline) ((group_by task_id recs).*2) = Ok account /\
    account_of l deadline chain account.
Proof.
  set (tasks := dedup (map task_id recs)).
  set (parts := map (fun t => (t, task_groups t (lease_groups recs))) tasks).
  assert (parts.*1 = tasks) as Ek by (unfold parts; rewrite <- list_fmap_compose; apply list_fmap_id).
  destruct (replay_tasks parts (createIterationBudgetAccount l deadline)) as (account & E & Hl & Hd & Hin & Hout).
  - rewrite Ek. apply NoDup_dedup.
  - apply Forall_forall. intros p (t & -> & _)%list_elem_of_fmap. simpl.
    apply (task_groups_history t _ []). by rewrite app_nil_r.
  - intros t _. apply lookup_empty.
  - exists account. split; [|split].
    + rewrite <- E, group_by_spec. unfold parts. rewrite <- list_fmap_compose, !foldM_fmap.
      apply foldM_ext. intros a t _. simpl. by rewrite task_sorted.
    + done.
    + done.
    + intros t. rewrite (ch_records _ _ facts). destruct (decide (t ∈ tasks)) as [Ht|Ht].
      * destruct (Hin t (task_groups t (lease_groups recs))) as [-> _]; [by apply list_elem_of_fmap; exists t|].
        rewrite (total_consumed_perm _ _ (task_terminals t)).
        unfold consumed_of; simpl. rewrite lookup_empty. amounts.
      * destruct (Hout t) as [Ec _]; [by rewrite Ek|]. unfold consumed_of. rewrite Ec. simpl.
        rewrite lookup_empty. unfold tasks in Ht. rewrite elem_of_dedup in Ht.
        by destruct (task_absent t Ht) as [-> _].
    + intros t. rewrite (ch_latest _ _ facts). destruct (decide (t ∈ tasks)) as [Ht|Ht].
      * apply (Hin t (task_groups t (lease_groups recs))). by apply list_elem_of_fmap; exists t.
      * destruct (Hout t) as [_ ->]; [by rewrite Ek|]. simpl. rewrite lookup_empty.
        unfold tasks in Ht. rewrite elem_of_dedup in Ht. by destruct (task_absent t Ht) as [_ ->].
Qed.
End from_chain.

Lemma restore_Ok `{Hash, DateTime} l deadline ledger account :
  restoreBudgetAccount l deadline ledger = Ok account ->
  exists chain, buildTaskLeaseChain ledger = Ok chain /\ account_of l deadline chain account /\
    amount_le no_amount (remainingBudget account).
Proof.
  unfold restoreBudgetAccount. intros (chain & Hb%map_err_Ok & Hr)%bind_Ok. exists chain. split; [done|].
  destruct (build_chain_Ok _ _ Hb) as (m & recs & _ & Had & _ & Hf).
  destruct (replay_ledger recs chain Hf (admitted_valid _ _ _ Had) l deadline) as (a & E & Ha).
  rewrite (ch_records _ _ Hf), E in Hr. simpl in Hr. apply bind_Ok in Hr as (u & Hu%reject_if_Ok & [= <-]).
  split; [done|]. bool_hyps. amounts.
Qed.

(* ------------------------------------------------------------------ *)
(** ** Properties *)

Lemma step_limit `{Clock} task_budget account account' :
  account_step task_budget account account' -> limit account' = limit account.
Proof.
  intros [a input r _ (? & ? & ? & ? & _ & _ & _ & _ & _ & _ & _ & _ & ->)%reserve_Ok
         |a input r (? & ? & _ & _ & _ & _ & _ & ->)%settle_Ok]; done.
Qed.

Lemma reachable_limit `{Clock} task_budget account account' :
  rtc (account_step task_budget) account account' -> limit account' = limit account.
Proof. induction 1 as [|x y z Hxy _ IH]; [done|]. rewrite IH. by eapply step_limit. Qed.

(** C26. No sequence of reservations and settlements overspends: consumption and
    open reservations together stay within the limit of the iteration, and
    for each task within the budget of the task, retries included. *)
Theorem budget_never_overspent `{Clock} task_budget l deadline account :
  amount_le no_amount l ->
  rtc (account_step task_budget) (createIterationBudgetAccount l deadline) account ->
  amount_le (add_amount (sum_map (consumed account)) (sum_map (res_amount <$> reservations account))) l /\
  forall t, t ∈ dom (consumed account) \/ t ∈ dom (reservations account) ->
    amount_le (add_amount (consumed_of account t) (default no_amount (res_amount <$> reservations account !! t)))
      (task_budget t).
Proof.
  intros Hl Hr. pose proof (reachable_limit _ _ _ Hr) as El. simpl in El.
  destruct (reachable_ok _ _ _ _ Hl Hr) as [_ _ Ht Hrem]. split.
  - unfold remainingBudget in Hrem. rewrite El in Hrem. amounts.
  - intros t Hin. apply Ht. rewrite !elem_of_dom in Hin. exact Hin.
Qed.

(** A settlement gives back exactly what was reserved and not used, charges
    the task with what it used, and happens once: the same reservation cannot
    be settled again. *)
Theorem settle_exactly_once `{Clock} account input r :
  settleTaskBudget account input = Ok r ->
  sr_remaining r = add_amount (remainingBudget account) (sr_returned r) /\
  remainingBudget (sr_account r) = sr_remaining r /\
  amount_le no_amount (sr_returned r) /\
  (exists used, assertAmount (st_consumed input) = Ok used /\
     forall t, consumed_of (sr_account r) t =
       if decide (t = st_task_id input) then add_amount (consumed_of account t) used else consumed_of account t) /\
  settleTaskBudget (sr_account r) input = fail unknown_reservation.
Proof.
  intros (used & x & Hu & Hx & _ & _ & Hle & ->)%settle_Ok. simpl.
  split; [by apply remaining_settle|]. split; [done|]. split; [amounts|]. split.
  - exists used. split; [done|]. intros t. unfold settled, consumed_of at 1; simpl. rewrite lookup_insert.
    destruct (decide (t = st_task_id input)) as [->|]; [by rewrite decide_True|]. by rewrite decide_False.
  - unfold settleTaskBudget. rewrite Hu. cbn [mbind result_bind settled reservations].
    by rewrite lookup_delete_eq.
Qed.

(** A reservation records the requested amount, leaves everything else alone
    and expires when the remaining duration of the task or the iteration runs
    out, whichever is first. *)
Theorem reserve_spec `{Clock} account input r :
  reserveTaskBudget account input = Ok r ->
  assertAmount (rv_amount input) = Ok (rr_reserved_budget r) /\
  remainingBudget (rr_account r) = sub_amount (remainingBudget account) (rr_reserved_budget r) /\
  consumed (rr_account r) = consumed account /\
  (forall t, reservations (rr_account r) !! t =
     if decide (t = rv_task_id input)
     then Some (Reservation (rv_lease_id input) (rv_fencing_token input) (rr_reserved_budget r))
     else reservations account !! t) /\
  exists now deadline duration expiry,
    date_parse (rv_now input) = Some now /\ date_parse (iteration_deadline account) = Some deadline /\
    rv_task_remaining_duration_ms input = JInt duration /\ (0 <= duration)%Z /\
    date_parse (rr_expires_at r) = Some expiry /\
    expiry = Z.min (now + duration) deadline /\ (now <= expiry <= deadline)%Z.
Proof.
  intros (amount & du & now & dl & Ha & Hd & Hn & Hi & Hlt & Hr & _ & _ & ->)%reserve_Ok. simpl.
  split; [done|]. split; [by rewrite remaining_reserve by done; destruct account|]. split; [done|]. split.
  - intros t. rewrite lookup_insert. destruct (decide (t = rv_task_id input)) as [->|];
      [by rewrite decide_True|by rewrite decide_False].
  - assert (rv_task_remaining_duration_ms input = JInt du /\ 0 <= du)%Z as [Ed H0].
    { unfold natural in Hd. destruct (rv_task_remaining_duration_ms input); [|done].
      destruct (Z.ltb_spec z 0); [done|]. by injection Hd as <-. }
    exists now, dl, du, (Z.min (now + du) dl). pose proof (parse_range _ _ Hn). pose proof (parse_range _ _ Hi).
    rewrite parse_iso by lia. do 6 (split; [done|]). lia.
Qed.

(** Restoring from a ledger the read path accepts gives the account the
    ledger stands for: each task is charged with the consumption of its
    terminal records, and has a reservation exactly while its latest record is
    a grant. The replay never fails on such a ledger; only an overdrawn
    account is refused. *)
Theorem restore_spec `{Hash, DateTime} l deadline ledger chain :
  buildTaskLeaseChain ledger = Ok chain ->
  exists account, account_of l deadline chain account /\
    restoreBudgetAccount l deadline ledger =
      if exceeds no_amount (remainingBudget account) then fail account_inconsistent else Ok account.
Proof.
  intros Hb. destruct (build_chain_Ok _ _ Hb) as (m & recs & _ & Had & _ & Hf).
  destruct (replay_ledger recs chain Hf (admitted_valid _ _ _ Had) l deadline) as (account & E & Ha).
  exists account. split; [done|]. unfold restoreBudgetAccount. rewrite Hb. cbn [map_err mbind result_bind].
  rewrite (ch_records _ _ Hf), E. cbn [mbind result_bind]. unfold exceeds; simpl.
  by destruct (_ || _).
Qed.

(* ------------------------------------------------------------------ *)
(** ** Witnesses *)

(** A clock whose texts are signed binary numbers of milliseconds. *)
Fixpoint bits (p : positive) : string :=
  match p with xH => "1" | xO q => String "0" (bits q) | xI q => String "1" (bits q) end.
Fixpoint of_bits (s : string) : option positive :=
  match s with
  | String "0" s' => xO <$> of_bits s'
  | String "1" EmptyString => Some xH
  | String "1" s' => xI <$> of_bits s'
  | _ => None
  end.
Definition time_text (m : Z) : string :=
  match m with Z0 => "z" | Zpos p => String "p" (bits p) | Zneg p => String "n" (bits p) end.
Definition time_of (s : string) : option Z :=
  match s with
  | "z"%string => Some 0%Z
  | String "p" s' => Zpos <$> of_bits s'
  | String "n" s' => Zneg <$> of_bits s'
  | _ => None
  end.
Definition text_time (s : string) : option Z :=
  m ← time_of s; if ((- max_time <=? m) && (m <=? max_time))%Z then Some m else None.

Lemma of_bits_bits p : of_bits (bits p) = Some p.
Proof. induction p as [p IH|p IH|]; simpl; rewrite ?IH; [|done|done]. by destruct p. Qed.

#[local] Program Instance text_clock : Clock := {| date_parse := text_time; to_iso := time_text |}.
Next Obligation.
  unfold text_time. intros s m. destruct (time_of s) as [k|]; simpl; [|done].
  destruct (_ && _) eqn:E; [|done]. intros [= <-]. by bool_hyps.
Qed.
Next Obligation.
  intros m Hm. unfold text_time. assert (time_of (time_text m) = Some m) as ->.
  { destruct m as [|p|p]; simpl; by rewrite ?of_bits_bits. }
  simpl. rewrite !(proj2 (Z.leb_le _ _)) by lia. done.
Qed.

#[local] Existing Instances toy_hash any_date.

#[local] Definition sample_limit : BudgetAmount := Amount 100 5000.
#[local] Definition sample_account : IterationBudgetAccount :=
  createIterationBudgetAccount sample_limit (time_text 5000).
#[local] Definition sample_reserve : ReserveTaskBudgetInput :=
  Reserve "task_a" "lease_a" 1 (Amount 20 2000) (JInt 9000) (Raw (JInt 10) (JInt 1000)) (time_text 100).
#[local] Definition sample_reserved : ReserveTaskBudgetResult :=
  Reserved (Account sample_limit ∅ {["task_a" := Reservation "lease_a" 1 (Amount 10 1000)]} (time_text 5000))
    (Amount 10 1000) (time_text 5000).
#[local] Definition sample_settle : SettleTaskBudgetInput :=
  Settle "task_a" "lease_a" 1 (Raw (JInt 4) (JInt 300)).
#[local] Definition sample_settled : SettleTaskBudgetResult :=
  Settled (Account sample_limit {["task_a" := Amount 4 300]} ∅ (time_text 5000)) (Amount 96 4700) (Amount 6 700).

Lemma sample_reserve_Ok : reserveTaskBudget sample_account sample_reserve = Ok sample_reserved.
Proof. vm_compute. reflexivity. Qed.
Lemma sample_settle_Ok : settleTaskBudget (rr_account sample_reserved) sample_settle = Ok sample_settled.
Proof. vm_compute. reflexivity. Qed.

Lemma budget_never_overspent_witness :
  amount_le (add_amount (sum_map (consumed (sr_account sample_settled)))
               (sum_map (res_amount <$> reservations (sr_account sample_settled)))) sample_limit.
Proof.
  destruct (budget_never_overspent (fun _ => Amount 20 2000) sample_limit (time_text 5000)
              (sr_account sample_settled)) as [Hl _]; [|  |exact Hl].
  - split; vm_compute; discriminate.
  - eapply rtc_l; [exact (step_reserve _ sample_account sample_reserve sample_reserved eq_refl sample_reserve_Ok)|].
    eapply rtc_l; [exact (step_settle _ _ sample_settle sample_settled sample_settle_Ok)|apply rtc_refl].
Defined.

Lemma settle_exactly_once_witness :
  settleTaskBudget (sr_account sample_settled) sample_settle = fail unknown_reservation.
Proof. apply (settle_exactly_once _ _ _ sample_settle_Ok). Defined.

Lemma reserve_spec_witness :
  consumed (rr_account sample_reserved) = ∅ /\ reservations (rr_account sample_reserved) !! "task_b" = None.
Proof.
  destruct (reserve_spec _ _ _ sample_reserve_Ok) as (_ & _ & Hc & Hr & _).
  split; [exact Hc|]. rewrite (Hr "task_b"). reflexivity.
Defined.

Lemma restore_spec_witness :
  exists account, consumed_of account "task_a" = Amount 3 200 /\
    reservations account !! "task_a" = Some (reservation_of grant_2).
Proof.
  destruct (restore_spec sample_limit (time_text 5000) ledger_3 chain_3 chain_3_Ok) as (account & [_ _ Hc Hr] & _).
  exists account. split.
  - transitivity (total_consumed (terminals "task_a" (records chain_3))); [exact (Hc "task_a")|].
    vm_compute. reflexivity.
  - transitivity (live_reservation (omap_get (latest_by_task chain_3) "task_a")); [exact (Hr "task_a")|].
    vm_compute. reflexivity.
Defined.
