(* ===== verification/ResourceLocks.v ===== *)
(** * Resource locks

    [packages/runtime/src/scheduling/resource-locks.ts]: the table of write
    paths and exclusive resources held by leased tasks, and its rebuild from
    the granted leases. Overlap of write paths is that of [Waves]. *)

From S2P Require Import Prelude Regex Locator Json Kahn Task PlanValidator Waves Lease.

Inductive ResourceLockErrorKind : Type := resource_busy | release_mismatch | unknown_task.

(** [ClaimError] is what the normalisation of a claim throws. *)
Inductive lock_error : Type :=
| ResourceLockError (kind : ResourceLockErrorKind)
| ClaimError (e : planning_error).

Abbreviation locking A := (result lock_error A).

Record ResourceLockEntry : Type := Entry
  { key : string; e_task_id : string; e_fencing_token : Z }.
#[export] Instance ResourceLockEntry_eq_dec : EqDecision ResourceLockEntry.
Proof. solve_decision. Defined.

Record ResourceLockTable : Type := Table { entries : list ResourceLockEntry }.

Record TaskResourceClaim : Type := Claim
  { c_task_id : string; c_fencing_token : Z;
    c_write_paths : list string; c_exclusive_resources : list string }.

Definition emptyResourceLockTable : ResourceLockTable := Table [].

Section locks.
Context `{FileSystem}.

Definition resourceKeys (claim : TaskResourceClaim) : result planning_error (list string) :=
  paths ← mapM (fun p => n ← normalizeTaskWritePath p None; Ok ("write:" +:+ n)) (c_write_paths claim);
  resources ← mapM (fun r => n ← normalizeExclusiveResourceKey r; Ok ("exclusive:" +:+ n))
                (c_exclusive_resources claim);
  Ok (sort_strings (dedup (paths ++ resources))).

(** [s.slice(0, s.indexOf(":"))] and [s.slice(s.indexOf(":") + 1)]. *)
Definition split_key (s : string) : string * string :=
  match str_index ":" s with
  | Some i => (str_take i s, str_drop (S i) s)
  | None => (str_take (String.length s - 1) s, s)
  end.

Definition keysConflict (first second : string) : bool :=
  let '(firstKind, firstValue) := split_key first in
  let '(secondKind, secondValue) := split_key second in
  if negb (bool_decide (firstKind = secondKind)) then false
  else if bool_decide (firstKind = "write") then writePathsOverlap firstValue secondValue
  else bool_decide (firstValue = secondValue).

Context `{Collation}.

Definition entry_cmp : ResourceLockEntry -> ResourceLockEntry -> Z :=
  then_cmp (fun l r => localeCompare (key l) (key r))
    (then_cmp (fun l r => localeCompare (e_task_id l) (e_task_id r))
       (fun l r => e_fencing_token l - e_fencing_token r)%Z).

Definition sortEntries (l : list ResourceLockEntry) : list ResourceLockEntry := js_sort entry_cmp l.

Definition held_under (claim : TaskResourceClaim) (k : string) : ResourceLockEntry :=
  Entry k (c_task_id claim) (c_fencing_token claim).

Definition acquireTaskResources (table : ResourceLockTable) (claim : TaskResourceClaim) :
  locking ResourceLockTable :=
  keys ← map_err ClaimError (resourceKeys claim);
  _ ← forM_ (fun k =>
        match find_first (fun entry => keysConflict (key entry) k) (entries table) with
        | Some _ => Err (ResourceLockError resource_busy)
        | None => Ok tt
        end) keys;
  Ok (Table (sortEntries (entries table ++ map (held_under claim) keys))).

Definition releaseTaskResources (table : ResourceLockTable) (taskId : string) (token : Z) :
  locking ResourceLockTable :=
  let owned := filter (fun entry => e_task_id entry = taskId) (entries table) in
  _ ← reject_if (length owned =? 0)%nat (ResourceLockError release_mismatch);
  _ ← reject_if (existsb (fun entry => negb (e_fencing_token entry =? token)%Z) owned)
        (ResourceLockError release_mismatch);
  Ok (Table (filter (fun entry => e_task_id entry <> taskId) (entries table))).

Definition lease_cmp : TaskLeaseRecord -> TaskLeaseRecord -> Z :=
  then_cmp (fun l r => localeCompare (task_id l) (task_id r))
    (fun l r => fencing_token l - fencing_token r)%Z.

(** The claim a granted lease stands for. The map of the tasks by id keeps the
    last task of an id; both lists are present on a [Protocol13TaskSpecification]. *)
Definition lease_claim (tasks : list TaskSpecification) (lease : TaskLeaseRecord) :
  locking TaskResourceClaim :=
  match find_first (fun task => bool_decide (id task = task_id lease)) (rev tasks) with
  | None => Err (ResourceLockError unknown_task)
  | Some task =>
      match write_paths task, exclusive_resources task with
      | Some paths, Some resources =>
          Ok (Claim (task_id lease) (fencing_token lease) paths resources)
      | _, _ => Err (ClaimError UncaughtTypeError)
      end
  end.

Definition granted_leases (chain : TaskLeaseChain) : list TaskLeaseRecord :=
  js_sort lease_cmp (filter (fun r => state r = granted) (latest_by_task chain).*2).

Definition rebuildResourceLocks (tasks : list TaskSpecification) (chain : TaskLeaseChain) :
  locking ResourceLockTable :=
  foldM (fun table lease => claim ← lease_claim tasks lease; acquireTaskResources table claim)
    emptyResourceLockTable (granted_leases chain).
End locks.

(* ------------------------------------------------------------------ *)
(** ** Lemmas on keys *)

Lemma split_key_app kind v : no_char ":" kind = true -> split_key (kind +:+ String ":" v) = (kind, v).
Proof.
  intros Hk. unfold split_key. rewrite str_index_app by done.
  by rewrite str_take_app, str_drop_app_S.
Qed.
Lemma split_write p : split_key ("write:" +:+ p) = ("write", p).
Proof. apply (split_key_app "write"). reflexivity. Qed.
Lemma split_exclusive p : split_key ("exclusive:" +:+ p) = ("exclusive", p).
Proof. apply (split_key_app "exclusive"). reflexivity. Qed.

Lemma keysConflict_sym j k : keysConflict j k = keysConflict k j.
Proof.
  unfold keysConflict. destruct (split_key j) as [a x], (split_key k) as [b y].
  rewrite (bool_decide_ext (b = a) (a = b)) by done. destruct (bool_decide (a = b)) eqn:E; [|done].
  bool_hyps. subst. simpl. destruct (bool_decide (b = "write")); [apply writePathsOverlap_sym|].
  by apply bool_decide_ext.
Qed.

Section lemmas.
Context `{FileSystem, Collation}.

Lemma entry_cmp_flip : cmp_flip entry_cmp.
Proof.
  repeat apply then_cmp_flip; intros x y; [apply localeCompare_flip..|]. lia.
Qed.
Lemma entry_cmp_trans : cmp_trans entry_cmp.
Proof.
  repeat apply then_cmp_trans; try (intros x y; apply localeCompare_flip);
    try (intros x y z; apply localeCompare_trans). intros x y z. lia.
Qed.
Lemma entry_cmp_total : cmp_total entry_cmp.
Proof. apply cmp_flip_total, entry_cmp_flip. Qed.

Definition sorted_table (t : ResourceLockTable) : Prop := StronglySorted (cmp_le entry_cmp) (entries t).

(** The keys of a claim, none when it is refused. *)
Definition keys_of (c : TaskResourceClaim) : list string := default [] (to_option (resourceKeys c)).
Definition entries_of (c : TaskResourceClaim) : list ResourceLockEntry := map (held_under c) (keys_of c).
Definition legal_claim (c : TaskResourceClaim) : Prop := is_ok (resourceKeys c) = true.
Definition compatible (c d : TaskResourceClaim) : Prop :=
  forall j k, j ∈ keys_of c -> k ∈ keys_of d -> keysConflict j k = false.

Lemma compatible_sym c d : compatible c d -> compatible d c.
Proof. intros Hc j k Hj Hk. rewrite keysConflict_sym. by apply Hc. Qed.

Lemma busy_spec t keys :
  forM_ (fun k =>
      match find_first (fun entry => keysConflict (key entry) k) (entries t) with
      | Some _ => Err (ResourceLockError resource_busy)
      | None => Ok tt
      end) keys =
  if decide (Forall (fun k => Forall (fun e => keysConflict (key e) k = false) (entries t)) keys)
  then Ok tt else Err (ResourceLockError resource_busy).
Proof.
  induction keys as [|k keys IH]; cbn [forM_]; [by rewrite decide_True|].
  destruct (find_first _ _) as [e|] eqn:E; simpl.
  - apply find_first_Some in E as [He Hc]. rewrite decide_False; [done|].
    intros [Hk _]%Forall_cons. rewrite Forall_forall in Hk. by rewrite Hk in Hc.
  - apply find_first_None in E. rewrite IH. apply decide_ext. rewrite Forall_cons. tauto.
Qed.

(** What an acquisition does, on every branch. *)
Lemma acquire_eq t c :
  acquireTaskResources t c =
    match resourceKeys c with
    | Err e => Err (ClaimError e)
    | Ok keys =>
        if decide (Forall (fun k => Forall (fun e => keysConflict (key e) k = false) (entries t)) keys)
        then Ok (Table (sortEntries (entries t ++ map (held_under c) keys)))
        else Err (ResourceLockError resource_busy)
    end.
Proof.
  unfold acquireTaskResources. destruct (resourceKeys c) as [keys|e]; [|done].
  cbn [map_err mbind result_bind]. rewrite busy_spec. by case_decide.
Qed.

Lemma acquire_Ok t c t' :
  acquireTaskResources t c = Ok t' <->
  legal_claim c /\
  (forall e k, e ∈ entries t -> k ∈ keys_of c -> keysConflict (key e) k = false) /\
  t' = Table (sortEntries (entries t ++ entries_of c)).
Proof.
  rewrite acquire_eq. unfold legal_claim, entries_of, keys_of.
  destruct (resourceKeys c) as [keys|e]; simpl; [|split; [done|by intros []]].
  case_decide as Hd.
  - rewrite Forall_forall in Hd. setoid_rewrite Forall_forall in Hd. split; [intros [= <-]|intros (_ & _ & ->)]; auto.
  - split; [done|]. intros (_ & Hk & _). destruct Hd. rewrite Forall_forall. setoid_rewrite Forall_forall. auto.
Qed.

Lemma sort_entries_sorted l : sorted_table (Table (sortEntries l)).
Proof. apply js_sort_StronglySorted; auto using entry_cmp_total, entry_cmp_trans. Qed.

Lemma elem_of_entries_of c e :
  e ∈ entries_of c <-> exists k, k ∈ keys_of c /\ e = Entry k (c_task_id c) (c_fencing_token c).
Proof. unfold entries_of. rewrite list_elem_of_fmap. naive_solver. Qed.

(** ** The claims behind a table *)

Record holds (t : ResourceLockTable) (held : list TaskResourceClaim) : Prop := {
  h_sorted : sorted_table t;
  h_entries : entries t ≡ₚ concat (entries_of <$> held);
  h_legal : Forall legal_claim held;
  h_compatible : ForallOrdPairs compatible held
}.

Lemma holds_empty : holds emptyResourceLockTable [].
Proof. split; constructor. Qed.

Lemma holds_member t held e : holds t held ->
  e ∈ entries t <-> exists c k, c ∈ held /\ k ∈ keys_of c /\ e = Entry k (c_task_id c) (c_fencing_token c).
Proof.
  intros [_ -> _ _]. rewrite list_elem_of_In, in_concat. split.
  - intros (l & (c & -> & Hc)%list_elem_of_In%list_elem_of_fmap & Hl%list_elem_of_In).
    apply elem_of_entries_of in Hl as (k & ? & ->). eauto.
  - intros (c & k & Hc & Hk & ->). exists (entries_of c). rewrite <- !list_elem_of_In.
    split; [by apply list_elem_of_fmap_2|]. apply elem_of_entries_of. eauto.
Qed.

Lemma holds_acquire t held c t' :
  holds t held -> acquireTaskResources t c = Ok t' -> holds t' (c :: held).
Proof.
  intros Hh (Hl & Hc & ->)%acquire_Ok. pose proof Hh as [_ He Hlg Hcp]. split.
  - apply sort_entries_sorted.
  - simpl. unfold sortEntries. rewrite js_sort_Permutation, He. csimpl. apply Permutation_app_comm.
  - by constructor.
  - constructor; [|done]. apply Forall_forall. intros d Hd j k Hj Hk. rewrite keysConflict_sym.
    apply (Hc (Entry k (c_task_id d) (c_fencing_token d))); [|done]. apply (holds_member _ _ _ Hh). eauto.
Qed.

Lemma filter_entries_of taskId c :
  filter (fun e => e_task_id e <> taskId) (entries_of c) = if decide (c_task_id c = taskId) then [] else entries_of c.
Proof.
  case_decide as Hc; [apply list_filter_nil|apply list_filter_all];
    intros e (k & _ & ->)%elem_of_entries_of; simpl; tauto.
Qed.

Lemma release_Ok t taskId token t' :
  releaseTaskResources t taskId token = Ok t' <->
  (exists e, e ∈ entries t /\ e_task_id e = taskId) /\
  (forall e, e ∈ entries t -> e_task_id e = taskId -> e_fencing_token e = token) /\
  t' = Table (filter (fun e => e_task_id e <> taskId) (entries t)).
Proof.
  unfold releaseTaskResources. rewrite !reject_bind_Ok, Nat.eqb_neq. split.
  - intros (Hn & Ht & [= <-]). split; [|split; [|done]].
    + destruct (filter _ _) as [|e l] eqn:E in Hn; [done|]. exists e.
      assert (e ∈ filter (fun e => e_task_id e = taskId) (entries t)) as [? ?]%list_elem_of_filter
        by (rewrite E; left). done.
    + intros e He Hid. apply not_true_iff_false in Ht. destruct (Z.eqb_spec (e_fencing_token e) token) as [|Hne]; [done|].
      destruct Ht. apply existsb_Exists. exists e. rewrite list_elem_of_filter, (proj2 (Z.eqb_neq _ _) Hne). done.
  - intros ((e & He & Hid) & Ht & ->). split.
    + intros Hn%length_zero_iff_nil. assert (e ∈ filter (fun e => e_task_id e = taskId) (entries t)) as Hin
        by by apply list_elem_of_filter. rewrite Hn in Hin. by apply elem_of_nil in Hin.
    + split; [|done]. apply not_true_iff_false. intros (x & [Hx Hin]%list_elem_of_filter & Hne)%existsb_Exists.
      rewrite Ht, Z.eqb_refl in Hne; done.
Qed.

Lemma holds_release t held taskId token t' :
  holds t held -> releaseTaskResources t taskId token = Ok t' ->
  holds t' (filter (fun c => c_task_id c <> taskId) held).
Proof.
  intros [Hs He Hl Hc] (_ & _ & ->)%release_Ok. split.
  - by apply StronglySorted_filter.
  - simpl. rewrite He. clear. induction held as [|c held IH]; [done|]. csimpl.
    rewrite filter_app, filter_entries_of, filter_cons, IH.
    destruct (decide (c_task_id c = taskId)); [by rewrite decide_False by auto|]. by rewrite decide_True.
  - rewrite Forall_forall in *. intros c [_ Hin]%list_elem_of_filter. auto.
  - by apply ForallOrdPairs_filter.
Qed.

(** The runs of a coordinator: the table with the claims it holds. *)
Inductive lock_step : ResourceLockTable * list TaskResourceClaim ->
    ResourceLockTable * list TaskResourceClaim -> Prop :=
| step_acquire t held c t' :
    acquireTaskResources t c = Ok t' -> lock_step (t, held) (t', c :: held)
| step_release t held taskId token t' :
    releaseTaskResources t taskId token = Ok t' ->
    lock_step (t, held) (t', filter (fun c => c_task_id c <> taskId) held).

Lemma reachable_holds t held : rtc lock_step (emptyResourceLockTable, []) (t, held) -> holds t held.
Proof.
  intros Hr. change (let '(t, held) := (t, held) in holds t held).
  set (s0 := (emptyResourceLockTable, [])) in Hr.
  assert (let '(t, held) := s0 in holds t held) as Hs0 by apply holds_empty.
  clearbody s0. induction Hr as [|x y z Hxy _ IH]; [done|]. apply IH.
  destruct Hxy; [by eapply holds_acquire|by eapply holds_release].
Qed.

(** Compatible claims are all acquired, in any order. *)
Lemma acquire_all held : forall t done,
  holds t done -> Forall legal_claim held -> ForallOrdPairs compatible held ->
  (forall c d, c ∈ done -> d ∈ held -> compatible c d) ->
  exists t', foldM acquireTaskResources t held = Ok t' /\ holds t' (rev held ++ done).
Proof.
  induction held as [|c held IH]; intros t done Hh Hl Hc Hcd; [by exists t|].
  apply Forall_cons in Hl as [Hlc Hl]. inversion Hc as [|? ? Hch Hc']; subst.
  assert (exists t1, acquireTaskResources t c = Ok t1) as [t1 Ht1].
  { eexists. apply acquire_Ok. split; [done|]. split; [|done]. intros e k He Hk.
    apply (holds_member _ _ _ Hh) in He as (d & j & Hd & Hj & ->). simpl. apply (Hcd d c); [done|left|done..]. }
  destruct (IH t1 (c :: done)) as (t2 & Ht2 & Hh2); try done.
  - by eapply holds_acquire.
  - intros x d [->|Hx]%elem_of_cons Hd; [|by apply Hcd; [|right]].
    rewrite Forall_forall in Hch. by apply Hch.
  - exists t2. cbn [foldM rev]. rewrite Ht1. split; [exact Ht2|]. by rewrite <- app_assoc.
Qed.

(** The collation tells the keys and the task ids of a table apart. *)
Definition distinguishes (l : list ResourceLockEntry) : Prop :=
  forall x y, x ∈ l -> y ∈ l ->
    (localeCompare (key x) (key y) = 0%Z -> key x = key y) /\
    (localeCompare (e_task_id x) (e_task_id y) = 0%Z -> e_task_id x = e_task_id y).

Lemma entry_cmp_antisym l x y : distinguishes l -> x ∈ l -> y ∈ l ->
  cmp_le entry_cmp x y -> cmp_le entry_cmp y x -> x = y.
Proof.
  intros Hd Hx Hy H1 H2. assert (entry_cmp x y = 0%Z) as Hz.
  { pose proof (entry_cmp_flip x y). unfold cmp_le in *. lia. }
  destruct (Hd x y Hx Hy) as [Hk Ht]. unfold entry_cmp, then_cmp in Hz.
  destruct (Z.eqb_spec (localeCompare (key x) (key y)) 0); [|lia].
  destruct (Z.eqb_spec (localeCompare (e_task_id x) (e_task_id y)) 0); [|lia].
  destruct x, y; simpl in *. f_equal; [auto..|lia].
Qed.

(** The table depends on the claims it holds only. *)
Lemma holds_unique t t' held held' :
  holds t held -> holds t' held' -> held ≡ₚ held' -> distinguishes (entries t) -> t = t'.
Proof.
  intros [S1 E1 _ _] [S2 E2 _ _] Hp Hd. destruct t as [l], t' as [l']. f_equal. simpl in *.
  assert (l ≡ₚ l') as Hll by (by rewrite E1, E2, Hp).
  apply (StronglySorted_unique_strong (cmp_le entry_cmp)); try done.
  intros x y Hx Hy. rewrite <- Hll in Hy. by apply (entry_cmp_antisym l).
Qed.
End lemmas.

(** ** The keys of a claim *)

Lemma mapM_prefixed {E} (f : string -> result E string) (g : string -> string) l k :
  (forall x y, f x = Ok y -> y = x) ->
  mapM (fun x => n ← f x; Ok (g n)) l = Ok k <-> Forall (fun x => f x = Ok x) l /\ k = map g l.
Proof.
  intros Hf. rewrite mapM_Ok. split.
  - induction 1 as [|x y l k Hx _ [IH ->]]; [done|]. apply bind_Ok in Hx as (n & Hn & [= <-]).
    pose proof (Hf x n Hn) as ->. split; [by constructor|done].
  - intros [Hl ->]. induction Hl as [|x l Hx _ IH]; constructor; [by rewrite Hx|done].
Qed.

Lemma resourceKeys_Ok `{FileSystem} c keys :
  resourceKeys c = Ok keys <->
  Forall (fun p => normalizeTaskWritePath p None = Ok p) (c_write_paths c) /\
  Forall (fun r => normalizeExclusiveResourceKey r = Ok r) (c_exclusive_resources c) /\
  keys = sort_strings (dedup (map (String.append "write:") (c_write_paths c) ++
                              map (String.append "exclusive:") (c_exclusive_resources c))).
Proof.
  unfold resourceKeys. rewrite bind_Ok. split.
  - intros (ps & Hp & Hk). apply bind_Ok in Hk as (rs & Hr & [= <-]).
    apply mapM_prefixed in Hp as [Hp ->]; [|intros ? ? E; by apply write_path_parts in E as [-> _]].
    apply mapM_prefixed in Hr as [Hr ->]; [done|exact resource_key_same].
  - intros (Hp & Hr & ->). eexists. split; [apply mapM_prefixed; [|done]|].
    { intros ? ? E. by apply write_path_parts in E as [-> _]. }
    apply bind_Ok. eexists. split; [apply mapM_prefixed; [|done]|done].
    exact resource_key_same.
Qed.

Lemma legal_spec `{FileSystem} c :
  legal_claim c <->
  Forall (fun p => normalizeTaskWritePath p None = Ok p) (c_write_paths c) /\
  Forall (fun r => normalizeExclusiveResourceKey r = Ok r) (c_exclusive_resources c).
Proof.
  unfold legal_claim. split.
  - destruct (resourceKeys c) as [keys|] eqn:E; [intros _|done].
    apply resourceKeys_Ok in E as (? & ? & _). done.
  - intros [Hp Hr]. by rewrite (proj2 (resourceKeys_Ok c _) (conj Hp (conj Hr eq_refl))).
Qed.

Lemma elem_of_keys `{FileSystem} c k : legal_claim c ->
  k ∈ keys_of c <->
  (exists p, p ∈ c_write_paths c /\ k = "write:" +:+ p) \/
  (exists r, r ∈ c_exclusive_resources c /\ k = "exclusive:" +:+ r).
Proof.
  intros [Hp Hr]%legal_spec. unfold keys_of.
  rewrite (proj2 (resourceKeys_Ok c _) (conj Hp (conj Hr eq_refl))). cbn [to_option from_option Datatypes.id].
  rewrite elem_of_sort_strings, elem_of_dedup, elem_of_app, !list_elem_of_fmap. naive_solver.
Qed.

Lemma keysConflict_write p q : keysConflict ("write:" +:+ p) ("write:" +:+ q) = writePathsOverlap p q.
Proof. unfold keysConflict. by rewrite !split_write. Qed.
Lemma keysConflict_exclusive r s : keysConflict ("exclusive:" +:+ r) ("exclusive:" +:+ s) = bool_decide (r = s).
Proof. unfold keysConflict. by rewrite !split_exclusive. Qed.
Lemma keysConflict_mixed p r : keysConflict ("write:" +:+ p) ("exclusive:" +:+ r) = false.
Proof. unfold keysConflict. by rewrite split_write, split_exclusive. Qed.

(** The claims of two tasks are compatible exactly when the wave compiler
    finds no conflict between the tasks. *)
Definition task_claim (token : Z) (t : TaskSpecification) : TaskResourceClaim :=
  Claim (id t) token (claimed_paths t) (claimed_resources t).

Lemma compatible_tasks `{FileSystem} m n t u :
  legal_claim (task_claim m t) -> legal_claim (task_claim n u) ->
  ~ claims_conflict t u -> compatible (task_claim m t) (task_claim n u).
Proof.
  intros Ht Hu Hc j k Hj Hk. apply elem_of_keys in Hj; [|done]. apply elem_of_keys in Hk; [|done].
  unfold claims_conflict in Hc. apply not_true_is_false. intros E.
  destruct Hj as [(p & Hp & ->)|(r & Hr & ->)], Hk as [(q & Hq & ->)|(s & Hs & ->)].
  - rewrite keysConflict_write in E. destruct Hc. left. by exists p, q.
  - by rewrite keysConflict_mixed in E.
  - by rewrite keysConflict_sym, keysConflict_mixed in E.
  - rewrite keysConflict_exclusive in E. bool_hyps. subst. destruct Hc. right. by exists s.
Qed.

(* ------------------------------------------------------------------ *)
(** ** Properties *)

Section properties.
Context `{FileSystem, Collation}.

(** C25. Whatever is acquired and released, two locks held by different tasks, or
    under different tokens, never conflict: they are not overlapping write
    paths and not the same exclusive resource. *)
Theorem locks_mutually_exclusive table held e f :
  rtc lock_step (emptyResourceLockTable, []) (table, held) ->
  e ∈ entries table -> f ∈ entries table ->
  (e_task_id e, e_fencing_token e) <> (e_task_id f, e_fencing_token f) ->
  keysConflict (key e) (key f) = false /\
  (forall p q, key e = "write:" +:+ p -> key f = "write:" +:+ q -> writePathsOverlap p q = false) /\
  (forall r s, key e = "exclusive:" +:+ r -> key f = "exclusive:" +:+ s -> r <> s).
Proof.
  intros Hr%reachable_holds He Hf Hne.
  apply (holds_member _ _ _ Hr) in He as (c & j & Hc & Hj & ->), Hf as (d & k & Hd & Hk & ->).
  cbn [key e_task_id e_fencing_token] in *.
  assert (keysConflict j k = false) as Hjk.
  { apply list_elem_of_In in Hc, Hd. destruct (ForallOrdPairs_In (h_compatible _ _ Hr) c d Hc Hd) as [->|[Hcd|Hcd]];
      [done|by apply Hcd|]. rewrite keysConflict_sym. by apply Hcd. }
  split; [done|]. split.
  - intros p q -> ->. by rewrite <- keysConflict_write.
  - intros r s -> -> ->. rewrite keysConflict_exclusive in Hjk. by bool_hyps.
Qed.

(** An acquisition takes all locks of the claim or none: it is refused as
    illegal exactly when a claim does not normalise, as busy exactly when one
    of its keys conflicts with a held lock, and otherwise adds one entry per
    distinct key of the claim, keeping the table sorted. *)
Theorem acquire_all_or_nothing table c :
  match acquireTaskResources table c with
  | Ok table' =>
      Forall (fun p => normalizeTaskWritePath p None = Ok p) (c_write_paths c) /\
      Forall (fun r => normalizeExclusiveResourceKey r = Ok r) (c_exclusive_resources c) /\
      sorted_table table' /\
      exists keys, NoDup keys /\
        entries table' ≡ₚ entries table ++ map (held_under c) keys /\
        (forall k, k ∈ keys <-> (exists p, p ∈ c_write_paths c /\ k = "write:" +:+ p) \/
                                (exists r, r ∈ c_exclusive_resources c /\ k = "exclusive:" +:+ r)) /\
        (forall e k, e ∈ entries table -> k ∈ keys -> keysConflict (key e) k = false)
  | Err (ResourceLockError kind) =>
      kind = resource_busy /\ exists e k, e ∈ entries table /\ k ∈ keys_of c /\ keysConflict (key e) k = true
  | Err (ClaimError _) => ~ legal_claim c
  end.
Proof.
  destruct (acquireTaskResources table c) as [table'|e] eqn:E.
  - apply acquire_Ok in E as (Hl & Hc & ->). pose proof (proj1 (legal_spec c) Hl) as [Hp Hr].
    split; [done|]. split; [done|]. split; [apply sort_entries_sorted|]. exists (keys_of c). split; [|split; [|split; [|done]]].
    + unfold keys_of. rewrite (proj2 (resourceKeys_Ok c _) (conj Hp (conj Hr eq_refl))). simpl.
      rewrite sort_strings_Permutation. apply NoDup_dedup.
    + simpl. unfold sortEntries. by rewrite js_sort_Permutation.
    + intros k. by apply elem_of_keys.
  - rewrite acquire_eq in E. unfold legal_claim, keys_of. destruct (resourceKeys c) as [keys|e'] eqn:Ek.
    + case_decide as Hd; [done|]. injection E as <-. split; [done|].
      apply not_Forall_Exists in Hd; [|apply _]. apply Exists_exists in Hd as (k & Hk & Hd).
      apply not_Forall_Exists in Hd; [|apply _]. apply Exists_exists in Hd as (e & He & Hd).
      exists e, k. by apply not_false_is_true in Hd.
    + injection E as <-. done.
Qed.

(** A release names the task and the token its locks were taken under, frees
    all of them and nothing else; anything else is refused. *)
Theorem release_spec table taskId token :
  releaseTaskResources table taskId token =
    if decide (Exists (fun e => e_task_id e = taskId) (entries table) /\
               Forall (fun e => e_task_id e = taskId -> e_fencing_token e = token) (entries table))
    then Ok (Table (filter (fun e => e_task_id e <> taskId) (entries table)))
    else Err (ResourceLockError release_mismatch).
Proof.
  case_decide as Hd.
  - apply release_Ok. rewrite Exists_exists, Forall_forall in Hd. destruct Hd as [? Hd]. auto.
  - destruct (releaseTaskResources table taskId token) as [t'|e] eqn:E.
    + apply release_Ok in E as (? & ? & _). destruct Hd. by rewrite Exists_exists, Forall_forall.
    + unfold releaseTaskResources in E. destruct (_ =? 0)%nat; simpl in E; [by injection E as <-|].
      destruct (existsb _ _); simpl in E; [by injection E as <-|done].
Qed.

(** Releasing what a task acquired gives back the very table, entry for
    entry, whatever else it holds. *)
Theorem acquire_release_roundtrip table held c table' :
  rtc lock_step (emptyResourceLockTable, []) (table, held) ->
  Forall (fun e => e_task_id e <> c_task_id c) (entries table) ->
  c_write_paths c ++ c_exclusive_resources c <> [] ->
  acquireTaskResources table c = Ok table' ->
  releaseTaskResources table' (c_task_id c) (c_fencing_token c) = Ok table.
Proof.
  intros Hr%reachable_holds Hfresh Hne (Hl & _ & ->)%acquire_Ok. apply release_Ok. simpl.
  rewrite Forall_forall in Hfresh. unfold sortEntries. split; [|split].
  - assert (exists k, k ∈ keys_of c) as [k Hk].
    { setoid_rewrite (elem_of_keys c _ Hl). destruct (c_write_paths c) as [|p ps], (c_exclusive_resources c) as [|r rs]; simpl in *.
      - done.
      - exists ("exclusive:" +:+ r). right. exists r. by split; [left|].
      - exists ("write:" +:+ p). left. exists p. by split; [left|].
      - exists ("write:" +:+ p). left. exists p. by split; [left|]. }
    exists (held_under c k). rewrite elem_of_js_sort, elem_of_app. split; [right|done]. by apply list_elem_of_fmap_2.
  - intros e He Hid. rewrite elem_of_js_sort, elem_of_app in He.
    destruct He as [He|(k & _ & ->)%elem_of_entries_of]; [by destruct (Hfresh e He)|done].
  - rewrite filter_js_sort by auto using entry_cmp_total, entry_cmp_trans. rewrite filter_app, filter_entries_of.
    rewrite decide_True, app_nil_r by done. rewrite list_filter_all by done.
    rewrite js_sort_id by apply (h_sorted _ _ Hr). by destruct table.
Qed.

(** After a restart the rebuilt table is the live table, entry for entry: it
    depends on the granted leases and their claims, not on the order in which
    the locks were taken and released. *)
Theorem rebuild_restores_table tasks chain table held claims :
  rtc lock_step (emptyResourceLockTable, []) (table, held) ->
  mapM (lease_claim tasks) (granted_leases chain) = Ok claims -> held ≡ₚ claims ->
  distinguishes (entries table) ->
  rebuildResourceLocks tasks chain = Ok table.
Proof.
  intros Hr%reachable_holds Hm Hp Hd. unfold rebuildResourceLocks. rewrite (foldM_mapM _ _ _ _ _ Hm).
  destruct (acquire_all claims emptyResourceLockTable []) as (t' & E & Hh).
  - apply holds_empty.
  - rewrite <- Hp. apply (h_legal _ _ Hr).
  - eapply ForallOrdPairs_Permutation; [apply compatible_sym|exact Hp|apply (h_compatible _ _ Hr)].
  - intros c d Hc. by apply elem_of_nil in Hc.
  - rewrite E. f_equal. symmetry. eapply holds_unique; [exact Hr|exact Hh| |done].
    rewrite app_nil_r, Hp. apply Permutation_rev.
Qed.

(** The run-time guard agrees with the wave compiler: the tasks of one wave
    can all hold their locks at the same time. *)
Theorem wave_mates_lock_together tasks ws i members (token : TaskSpecification -> Z) :
  compileParallelWaves tasks = Ok ws ->
  members ⊆ tasks -> NoDup (map id members) -> Forall (fun t => in_wave ws i (id t)) members ->
  exists table, foldM acquireTaskResources emptyResourceLockTable
                  (map (fun t => task_claim (token t) t) members) = Ok table.
Proof.
  intros [(_ & Hs & _) Hl]%compile_Ok Hsub Hnd Hw.
  assert (forall t, t ∈ members -> legal_claim (task_claim (token t) t)) as Hlegal.
  { intros t Ht. rewrite Forall_forall in Hs. destruct (Hs t (Hsub t Ht)) as (_ & Hp & Hr). by apply legal_spec. }
  destruct (acquire_all (map (fun t => task_claim (token t) t) members) emptyResourceLockTable []) as (t' & E & _).
  - apply holds_empty.
  - apply Forall_forall. intros c (t & -> & Ht)%list_elem_of_fmap. by apply Hlegal.
  - clear Hs. induction members as [|t members IH]; [constructor|]. csimpl in *.
    apply NoDup_cons in Hnd as [Hn Hnd]. apply Forall_cons in Hw as [Ht Hw]. constructor.
    + apply Forall_forall. intros c (u & -> & Hu)%list_elem_of_fmap.
      apply compatible_tasks; [apply Hlegal; left|apply Hlegal; by right|].
      apply (lay_free _ _ Hl t u i); [apply Hsub; left|apply Hsub; by right| |done|].
      * intros E. apply Hn. rewrite E. by apply (list_elem_of_fmap_2 id).
      * rewrite Forall_forall in Hw. by apply Hw.
    + apply IH; [|done|done|]; intros x Hx; [apply Hsub|apply Hlegal]; by right.
  - intros c d Hc. by apply elem_of_nil in Hc.
  - by exists t'.
Qed.
End properties.

(* ------------------------------------------------------------------ *)
(** ** Witnesses *)

#[local] Existing Instances sample_fs by_code_units.

#[local] Definition claim_a : TaskResourceClaim := Claim "task_a" 2 ["src/core"] [].
#[local] Definition claim_b : TaskResourceClaim := Claim "task_b" 1 ["src/core2"] ["db"].
#[local] Definition entry_a : ResourceLockEntry := Entry "write:src/core" "task_a" 2.
#[local] Definition table_a : ResourceLockTable := Table [entry_a].
#[local] Definition table_ab : ResourceLockTable :=
  Table [Entry "exclusive:db" "task_b" 1; entry_a; Entry "write:src/core2" "task_b" 1].

Lemma acquire_a : acquireTaskResources emptyResourceLockTable claim_a = Ok table_a.
Proof. vm_compute. reflexivity. Qed.
Lemma acquire_b : acquireTaskResources table_a claim_b = Ok table_ab.
Proof. vm_compute. reflexivity. Qed.
Lemma run_a : rtc lock_step (emptyResourceLockTable, []) (table_a, [claim_a]).
Proof. eapply rtc_l; [exact (step_acquire _ _ _ _ acquire_a)|apply rtc_refl]. Qed.
Lemma run_ab : rtc lock_step (emptyResourceLockTable, []) (table_ab, [claim_b; claim_a]).
Proof. eapply rtc_r; [exact run_a|exact (step_acquire _ _ _ _ acquire_b)]. Qed.

Lemma locks_mutually_exclusive_witness : writePathsOverlap "src/core" "src/core2" = false.
Proof.
  refine (proj1 (proj2 (locks_mutually_exclusive table_ab _ entry_a (Entry "write:src/core2" "task_b" 1)
    run_ab _ _ _)) "src/core" "src/core2" eq_refl eq_refl); [right; left|right; right; left|discriminate].
Defined.

Lemma acquire_release_roundtrip_witness : releaseTaskResources table_ab "task_b" 1 = Ok table_a.
Proof.
  apply (acquire_release_roundtrip table_a _ claim_b table_ab run_a); [|discriminate|exact acquire_b].
  repeat constructor. discriminate.
Defined.

Lemma rebuild_restores_table_witness : rebuildResourceLocks Waves.sample_tasks chain_3 = Ok table_a.
Proof.
  apply (rebuild_restores_table _ _ _ [claim_a] [claim_a] run_a); [vm_compute; reflexivity|reflexivity|].
  intros x y Hx Hy. apply list_elem_of_singleton in Hx as ->, Hy as ->. split; reflexivity.
Defined.

Lemma wave_mates_lock_together_witness :
  exists table, foldM acquireTaskResources emptyResourceLockTable
    [task_claim 1 Waves.task_a; task_claim 1 Waves.task_d] = Ok table.
Proof.
  apply (wave_mates_lock_together Waves.sample_tasks Waves.sample_waves 0 [Waves.task_a; Waves.task_d] (fun _ => 1%Z)
    sample_waves_Ok).
  - intros t [->|Ht]%elem_of_cons; [left|]. apply list_elem_of_singleton in Ht as ->. do 3 right. left.
  - apply has_duplicates_NoDup. vm_compute. reflexivity.
  - repeat constructor; apply (in_sample_wave 0 (Wave 0 ["task_a"; "task_d"])); reflexivity.
Defined.
