(* ===== verification/Projection.v ===== *)
(** * Task status projection

    [packages/runtime/src/scheduling/projection.ts] (with
    [readFindingExtension] of [packages/core/src/schema/feedback.ts]): the
    status of every task as a pure function of the approved plan and the
    ledger facts. The records of the ledger appear with the fields the
    projection reads. *)

From S2P Require Import Prelude Json Task Waves Lease Budget.

(** ** Facts *)

Record IterationBudget : Type := IterBudget { ib_steps : Z; ib_tokens : Z; ib_duration_ms : Z }.

Record TaskDagSnapshot : Type := Dag
  { dag_operation_id : string; dag_iteration_id : string; dag_plan_id : string;
    dag_plan_digest : string; dag_baseline_commit : string;
    dag_tasks : list TaskSpecification; parallel_waves : list ParallelWave;
    iteration_budget : IterationBudget }.

Inductive RunOutcome : Type :=
| success | correct_block | clarification_required | handoff | partial | failed.
Inductive TerminationReason : Type :=
| completion | gate_failure | policy_denial | budget_ceiling | repeat_detection | timeout
| adapter_failure | user_cancellation | manual_stop | process_interruption.
#[export] Instance RunOutcome_eq_dec : EqDecision RunOutcome.
Proof. solve_decision. Defined.
#[export] Instance TerminationReason_eq_dec : EqDecision TerminationReason.
Proof. solve_decision. Defined.

(** The kind of a run record with the fields of that kind. *)
Inductive RunRecordKind : Type :=
| run_started
| run_progress
| run_terminated (outcome : RunOutcome) (reason : TerminationReason)
| run_interrupted (outcome : RunOutcome) (reason : TerminationReason).

Record RunRecord : Type := Run
  { run_run_id : string; run_task_id : string; run_sequence : Z; run_kind : RunRecordKind }.

Record GateEvidenceRecord : Type := GateEvidence
  { ge_evidence_type : string; ge_subject_id : string; ge_provisional : bool;
    ge_extensions : list (string * jsval) }.

Inductive FeedbackStatus : Type := proposed | accepted | closed | superseded.
Inductive FeedbackType : Type := Finding | RootCauseAnalysis | ImprovementCandidate | ImpactSet.
#[export] Instance FeedbackStatus_eq_dec : EqDecision FeedbackStatus.
Proof. solve_decision. Defined.
#[export] Instance FeedbackType_eq_dec : EqDecision FeedbackType.
Proof. solve_decision. Defined.

(** Absent [extensions] are the empty list. *)
Record FeedbackRecord : Type := Feedback
  { fb_type : FeedbackType; fb_status : FeedbackStatus; fb_extensions : list (string * jsval) }.

Record ApprovalRequestRecord : Type := ApprovalRequest { ar_request_id : string; ar_object_id : string }.

Record WaveIntegrationRecord : Type := WaveIntegration
  { wi_operation_id : string; wi_wave_index : Z; wi_task_ids : list string }.

Record SchedulerAuthorityFacts : Type := Facts
  { f_leases : list TaskLeaseRecord; f_runs : list RunRecord;
    f_gate_evidence : list GateEvidenceRecord; f_approvals : list ApprovalRequestRecord;
    f_findings : list FeedbackRecord; f_wave_integrations : list WaveIntegrationRecord }.

Inductive AgentPoolSlotState : Type := idle | running_slot | cancelling.
#[export] Instance AgentPoolSlotState_eq_dec : EqDecision AgentPoolSlotState.
Proof. solve_decision. Defined.
Record AgentPoolSlot : Type := Slot
  { slot_name : string; slot_state : AgentPoolSlotState;
    slot_task : option string; slot_run : option string }.
#[export] Instance AgentPoolSlot_eq_dec : EqDecision AgentPoolSlot.
Proof. solve_decision. Defined.

Record SchedulerTaskLiveObservation : Type := Observation
  { ob_task_id : string; ob_pid : option Z; ob_heartbeat_at : option string;
    ob_output_tail : option string; ob_steps : option Z; ob_tokens : option Z;
    ob_duration_ms : Z; ob_worktree_id : option string }.
Record SchedulerLiveSnapshot : Type := Live
  { lv_operation_id : string; lv_observed_at : string; lv_slots : list AgentPoolSlot;
    lv_tasks : list SchedulerTaskLiveObservation }.

Inductive TaskSchedulingStatus : Type :=
| waiting_dependency | ready | awaiting_approval | running | verifying | integration_queued
| candidate_validated | retry_pending | integrated | blocked | cancelled.
#[export] Instance TaskSchedulingStatus_eq_dec : EqDecision TaskSchedulingStatus.
Proof. solve_decision. Defined.

Record TaskStatusProjection : Type := TaskStatus
  { ts_task_id : string; ts_wave_index : option Z; ts_status : TaskSchedulingStatus;
    ts_provisional : bool; ts_live : option SchedulerTaskLiveObservation }.

Record SchedulerStateProjection : Type := StateProjection
  { sp_operation_id : string; sp_plan_digest : string; sp_baseline_commit : string;
    sp_observed : bool; sp_observed_at : option string; sp_slots : list AgentPoolSlot;
    sp_tasks : list TaskStatusProjection }.

(** ** Reading the facts *)

Definition stateRank (s : TaskLeaseState) : Z := if decide (s = granted) then 0 else 1.

(** [record] replaces [current] as the latest of its task. *)
Definition supersedes (record current : TaskLeaseRecord) : bool :=
  (fencing_token current <? fencing_token record)%Z ||
  ((fencing_token record =? fencing_token current)%Z &&
   (stateRank (state current) <=? stateRank (state record))%Z).

Definition latest_step (latest : gmap string TaskLeaseRecord) (record : TaskLeaseRecord) :
  gmap string TaskLeaseRecord :=
  match latest !! task_id record with
  | None => <[task_id record := record]> latest
  | Some current => if supersedes record current then <[task_id record := record]> latest else latest
  end.

Definition latestLeaseByTask (leases : list TaskLeaseRecord) : gmap string TaskLeaseRecord :=
  foldl latest_step ∅ leases.

(** One turn of the loop of [latestRunRecord]: [byRun] and [fallback]. *)
Definition run_step (taskId : string) (st : gmap string RunRecord * option RunRecord)
    (record : RunRecord) : gmap string RunRecord * option RunRecord :=
  if decide (run_task_id record = taskId) then
    let newer := match st.1 !! run_run_id record with
                 | None => true
                 | Some current => (run_sequence current <=? run_sequence record)%Z
                 end in
    ((if newer then <[run_run_id record := record]> st.1 else st.1), Some record)
  else st.

Definition latestRunRecord (runs : list RunRecord) (taskId : string) (currentRunId : option string) :
  option RunRecord :=
  let '(byRun, fallback) := foldl (run_step taskId) (∅, None) runs in
  match currentRunId with Some r => byRun !! r | None => fallback end.

Definition terminalRunOf (record : option RunRecord) : option (RunOutcome * TerminationReason) :=
  match run_kind <$> record with
  | Some (run_terminated o r) | Some (run_interrupted o r) => Some (o, r)
  | _ => None
  end.

Record EvidenceReading : Type := Evidence { valid : bool; provisionalOnly : bool }.

(** Whether [record] is passed gate evidence of the task. A missing extension
    reads as [undefined], which is no object. *)
Definition passed_evidence (taskId : string) (record : GateEvidenceRecord) : bool :=
  bool_decide (ge_subject_id record = taskId) && bool_decide (ge_evidence_type record = "gate_result") &&
  match jfield (ge_extensions record) "harness.gate" with
  | JObj extension => match jfield extension "passed" with JBool true => true | _ => false end
  | _ => false
  end.

Definition readCandidateEvidence (evidence : list GateEvidenceRecord) (taskId : string) :
  EvidenceReading :=
  let '(v, p) := foldl (fun st record =>
      if passed_evidence taskId record then
        if ge_provisional record then (st.1, true) else (true, st.2)
      else st) (false, false) evidence in
  Evidence v (p && negb v).

Record FindingExtension : Type := FindingExt
  { fe_rule : option string; fe_blocking : bool; fe_blocks : option (list jsval) }.

Definition FINDING_EXTENSION_KEY : string := "harness.finding".

(** An array is an object without the three fields. *)
Definition readFindingExtension (finding : FeedbackRecord) : option FindingExtension :=
  match jfield (fb_extensions finding) FINDING_EXTENSION_KEY with
  | JObj parsed =>
      Some (FindingExt
        (match jfield parsed "rule" with JStr s => Some s | _ => None end)
        (match jfield parsed "blocking" with JBool true => true | _ => false end)
        (match jfield parsed "blocks" with JArr l => Some l | _ => None end))
  | JArr _ => Some (FindingExt None false None)
  | _ => None
  end.

(** [finding.type === "Finding" && (status === "proposed" || status === "accepted")] *)
Definition open_finding (finding : FeedbackRecord) : bool :=
  bool_decide (fb_type finding = Finding) &&
  (bool_decide (fb_status finding = proposed) || bool_decide (fb_status finding = accepted)).

(** [extension.blocks?.includes(taskId) === true] *)
Definition blocks_task (extension : FindingExtension) (taskId : string) : bool :=
  match fe_blocks extension with
  | Some l => existsb (fun v => match v with JStr s => bool_decide (s = taskId) | _ => false end) l
  | None => false
  end.

Definition hasOpenBlocker (findings : list FeedbackRecord) (taskId : string) : bool :=
  existsb (fun finding => open_finding finding &&
    match readFindingExtension finding with
    | Some extension => fe_blocking extension && blocks_task extension taskId
    | None => false
    end) findings.

Definition hasOpenIntegrationRetry (findings : list FeedbackRecord) (taskId : string) : bool :=
  existsb (fun finding => open_finding finding &&
    match readFindingExtension finding with
    | Some extension => bool_decide (fe_rule extension = Some "integration_retry_scheduled") &&
                        blocks_task extension taskId
    | None => false
    end) findings.

Definition NON_RETRYABLE_TERMINATIONS : list TerminationReason := [policy_denial; gate_failure; manual_stop].

(** ** The projection *)

Definition integratedTaskIds (dag : TaskDagSnapshot) (facts : SchedulerAuthorityFacts) : list string :=
  concat (map wi_task_ids (filter (fun r => wi_operation_id r = dag_operation_id dag) (f_wave_integrations facts))).

Definition waveOfTask (dag : TaskDagSnapshot) : gmap string Z :=
  foldl (fun m wave => foldl (fun m taskId => <[taskId := wave_index wave]> m) m (task_ids wave)) ∅
    (parallel_waves dag).

(** [Math.min(...incompleteWaves)], [None] when there is none. *)
Definition min_list (l : list Z) : option Z :=
  match l with [] => None | x :: l' => Some (foldl Z.min x l') end.

Definition earliestIncompleteWave (dag : TaskDagSnapshot) (integratedIds : list string) : option Z :=
  min_list (map wave_index
    (filter (fun wave => existsb (fun t => negb (mem t integratedIds)) (task_ids wave) = true)
       (parallel_waves dag))).

(** The status of one task, first match wins. *)
Definition task_status (dag : TaskDagSnapshot) (facts : SchedulerAuthorityFacts)
    (task : TaskSpecification) : TaskSchedulingStatus :=
  let integratedIds := integratedTaskIds dag facts in
  let lease := latestLeaseByTask (f_leases facts) !! id task in
  let terminalRun := terminalRunOf (latestRunRecord (f_runs facts) (id task) (run_id <$> lease)) in
  let evidence := readCandidateEvidence (f_gate_evidence facts) (id task) in
  let waveIndex := waveOfTask dag !! id task in
  let leaseTerminal := match lease with Some l => isTerminal (state l) | None => false end in
  if mem (id task) integratedIds then integrated
  else if leaseTerminal && bool_decide (snd <$> terminalRun = Some user_cancellation) then cancelled
  else if hasOpenBlocker (f_findings facts) (id task) then blocked
  else if existsb (fun request => bool_decide (ar_object_id request = id task)) (f_approvals facts)
  then awaiting_approval
  else if hasOpenIntegrationRetry (f_findings facts) (id task) then verifying
  else
    match lease with
    | Some l =>
        if decide (state l = granted) then
          match terminalRun with
          | None => running
          | Some _ => if valid evidence then integration_queued else verifying
          end
        else
          match terminalRun with
          | None => if decide (retry_kind l = None) then retry_pending else blocked
          | Some (outcome, reason) =>
              if bool_decide (reason = completion) && bool_decide (outcome = handoff) then
                if bool_decide (state l = released) && valid evidence then candidate_validated else verifying
              else if mem reason NON_RETRYABLE_TERMINATIONS then blocked
              else if decide (retry_kind l = None) then retry_pending else blocked
          end
    | None =>
        if forallb (fun d => mem d integratedIds) (dependencies task) &&
           bool_decide (waveIndex <> None) &&
           bool_decide (waveIndex = earliestIncompleteWave dag integratedIds)
        then ready else waiting_dependency
    end.

Definition projectSchedulerState (dag : TaskDagSnapshot) (facts : SchedulerAuthorityFacts)
    (live : option SchedulerLiveSnapshot) : SchedulerStateProjection :=
  let liveByTask : gmap string SchedulerTaskLiveObservation :=
    match live with
    | None => ∅
    | Some l => foldl (fun m o => <[ob_task_id o := o]> m) ∅ (lv_tasks l)
    end in
  StateProjection (dag_operation_id dag) (dag_plan_digest dag) (dag_baseline_commit dag)
    (bool_decide (is_Some live)) (lv_observed_at <$> live) (default [] (lv_slots <$> live))
    (map (fun task => TaskStatus (id task) (waveOfTask dag !! id task) (task_status dag facts task)
            (provisionalOnly (readCandidateEvidence (f_gate_evidence facts) (id task)))
            (liveByTask !! id task)) (dag_tasks dag)).

(* ------------------------------------------------------------------ *)
(** ** Lemmas on the latest lease *)

(** [a] does not come after [b]: the order in which [supersedes] replaces. *)
Definition not_after (a b : TaskLeaseRecord) : Prop :=
  (fencing_token a < fencing_token b)%Z \/
  (fencing_token a = fencing_token b /\ (stateRank (state a) <= stateRank (state b))%Z).

Lemma supersedes_spec r c : supersedes r c = true <-> not_after c r.
Proof.
  unfold supersedes, not_after. rewrite orb_true_iff, andb_true_iff, Z.ltb_lt, Z.eqb_eq, Z.leb_le. intuition lia.
Qed.

Lemma latest_step_lookup m r t :
  latest_step m r !! t =
    if decide (task_id r = t) then
      match m !! t with
      | Some c => if supersedes r c then Some r else Some c
      | None => Some r
      end
    else m !! t.
Proof.
  unfold latest_step. destruct (decide (task_id r = t)) as [<-|Ht].
  - destruct (m !! task_id r) as [c|] eqn:E; [|apply lookup_insert_eq].
    destruct (supersedes r c); [apply lookup_insert_eq|done].
  - destruct (m !! task_id r) as [c|]; [destruct (supersedes r c)|]; by rewrite ?lookup_insert_ne.
Qed.

(** The latest lease of a task is a record of the task none comes after. *)
Lemma latest_lease_max leases t :
  match latestLeaseByTask leases !! t with
  | Some r => r ∈ leases /\ task_id r = t /\ forall x, x ∈ leases -> task_id x = t -> not_after x r
  | None => forall x, x ∈ leases -> task_id x <> t
  end.
Proof.
  induction leases as [|r l IH] using rev_ind.
  { unfold latestLeaseByTask; simpl. rewrite lookup_empty. intros x Hx. by apply elem_of_nil in Hx. }
  unfold latestLeaseByTask in *. rewrite foldl_app. simpl. rewrite latest_step_lookup.
  assert (forall x, x ∈ l ++ [r] <-> x ∈ l \/ x = r) as Hin
    by (intros; rewrite elem_of_app, list_elem_of_singleton; done).
  destruct (decide (task_id r = t)) as [Ht|Ht].
  - destruct (foldl latest_step ∅ l !! t) as [c|].
    + destruct IH as (Hc & Htc & Hmax). destruct (supersedes r c) eqn:Es.
      * apply supersedes_spec in Es. rewrite Hin. split; [by right|]. split; [done|].
        intros x [Hx| ->]%Hin Hxt; [specialize (Hmax x Hx Hxt)|]; unfold not_after in *; lia.
      * assert (~ not_after c r) as Hn by (rewrite <- supersedes_spec; congruence).
        rewrite Hin. split; [by left|]. split; [done|].
        intros x [Hx| ->]%Hin Hxt; [by apply Hmax|]. unfold not_after in *. lia.
    + rewrite Hin. split; [by right|]. split; [done|].
      intros x [Hx| ->]%Hin Hxt; [by destruct (IH x Hx)|]. unfold not_after. lia.
  - destruct (foldl latest_step ∅ l !! t) as [c|].
    + destruct IH as (Hc & Htc & Hmax). rewrite Hin. split; [by left|]. split; [done|].
      intros x [Hx| ->]%Hin Hxt; [by apply Hmax|done].
    + intros x [Hx| ->]%Hin; [by apply IH|done].
Qed.

Lemma before_not_after a b : before a b -> ~ not_after b a.
Proof.
  unfold before, not_after, stateRank. intros [Hlt|(He & Ha & Hb)]; [lia|].
  rewrite decide_False by done. rewrite decide_True by done. lia.
Qed.

Lemma last_concat {A} (groups : list (list A)) :
  Forall (fun g => g <> []) groups -> last (concat groups) = (g ← last groups; last g).
Proof.
  induction groups as [|g groups IH] using rev_ind; [done|]. intros [_ Hg]%Forall_app.
  rewrite concat_app, last_app, last_snoc. simpl. rewrite app_nil_r.
  apply Forall_cons in Hg as [Hg _]. destruct (last g) eqn:E; [done|]. by apply last_None in E.
Qed.

(** On the records of an accepted ledger, in any order, the projection finds
    the same latest lease as the chain. *)
Lemma latest_lease_chain `{Hash, DateTime} recs chain leases t :
  chain_facts recs chain -> leases ≡ₚ recs ->
  latestLeaseByTask leases !! t = omap_get (latest_by_task chain) t.
Proof.
  intros Hf Hp. rewrite (ch_latest _ _ Hf t), <- last_concat.
  2:{ apply Forall_forall. intros g [_ Hg]%list_elem_of_filter.
      pose proof (lease_groups_nonempty recs) as Hn. rewrite Forall_forall in Hn. by apply Hn. }
  assert (StronglySorted before (concat (task_groups t (lease_groups recs)))) as Hs.
  { apply (groups_sorted recs chain Hf); [|apply attempts_sorted, (ch_attempts _ _ Hf)].
    intros x. unfold task_groups. rewrite list_elem_of_filter. by intros [_ ?]. }
  assert (forall x, x ∈ leases /\ task_id x = t <-> x ∈ concat (task_groups t (lease_groups recs))) as Hin.
  { intros x. rewrite <- (task_records recs chain Hf t), list_elem_of_filter, Hp. tauto. }
  pose proof (latest_lease_max leases t) as Hl.
  destruct (last (concat _)) as [m|] eqn:Em.
  - pose proof (last_Some_elem_of _ _ Em) as Hm. apply Hin in Hm as [Hml Hmt].
    destruct (latestLeaseByTask leases !! t) as [r|]; [|by destruct (Hl m)].
    destruct Hl as (Hr & Hrt & Hmax). f_equal.
    destruct (StronglySorted_last _ _ _ _ Hs Em (proj1 (Hin r) (conj Hr Hrt))) as [->|Hb]; [done|].
    by destruct (before_not_after _ _ Hb (Hmax m Hml Hmt)).
  - apply last_None in Em. rewrite Em in Hin. destruct (latestLeaseByTask leases !! t) as [r|]; [|done].
    destruct Hl as (Hr & Hrt & _). assert (r ∈ []) as Hn%elem_of_nil by by apply Hin. done.
Qed.

(** ** Lemmas on the other facts *)

Lemma readCandidateEvidence_eq evidence taskId :
  let v := existsb (fun r => passed_evidence taskId r && negb (ge_provisional r)) evidence in
  readCandidateEvidence evidence taskId =
    Evidence v (existsb (fun r => passed_evidence taskId r && ge_provisional r) evidence && negb v).
Proof.
  simpl. unfold readCandidateEvidence.
  enough (foldl (fun st record => if passed_evidence taskId record then
              if ge_provisional record then (st.1, true) else (true, st.2) else st) (false, false) evidence =
    (existsb (fun r => passed_evidence taskId r && negb (ge_provisional r)) evidence,
     existsb (fun r => passed_evidence taskId r && ge_provisional r) evidence)) as -> by done.
  induction evidence as [|r l IH] using rev_ind; [done|]. rewrite foldl_app, IH, !existsb_app. simpl.
  destruct (passed_evidence taskId r), (ge_provisional r); simpl; by rewrite ?orb_false_r, ?orb_true_r.
Qed.

Lemma elem_of_integrated dag facts t :
  t ∈ integratedTaskIds dag facts <->
  exists r, r ∈ f_wave_integrations facts /\ wi_operation_id r = dag_operation_id dag /\ t ∈ wi_task_ids r.
Proof.
  unfold integratedTaskIds. rewrite list_elem_of_In, in_concat. split.
  - intros (l & (r & -> & Hr)%list_elem_of_In%list_elem_of_fmap & Hl%list_elem_of_In).
    apply list_elem_of_filter in Hr as [? ?]. eauto.
  - intros (r & Hr & Ho & Ht). exists (wi_task_ids r). rewrite <- !list_elem_of_In. split; [|done].
    apply (list_elem_of_fmap_2 wi_task_ids). by apply list_elem_of_filter.
Qed.

(** The parts of the facts a status looks at, apart from the runs. *)
Record same_facts (f g : SchedulerAuthorityFacts) : Prop := {
  sf_leases : forall t, latestLeaseByTask (f_leases f) !! t = latestLeaseByTask (f_leases g) !! t;
  sf_runs : f_runs f = f_runs g;
  sf_evidence : f_gate_evidence f ≡ₚ f_gate_evidence g;
  sf_approvals : f_approvals f ≡ₚ f_approvals g;
  sf_findings : f_findings f ≡ₚ f_findings g;
  sf_integrations : f_wave_integrations f ≡ₚ f_wave_integrations g
}.

Lemma same_facts_evidence f g t : same_facts f g ->
  readCandidateEvidence (f_gate_evidence f) t = readCandidateEvidence (f_gate_evidence g) t.
Proof.
  intros [_ _ He _ _ _]. by rewrite !readCandidateEvidence_eq, !(existsb_Permutation _ _ _ He).
Qed.

Lemma same_facts_integrated dag f g t : same_facts f g ->
  mem t (integratedTaskIds dag f) = mem t (integratedTaskIds dag g).
Proof.
  intros [_ _ _ _ _ Hi]. apply mem_ext. rewrite !elem_of_integrated. by setoid_rewrite Hi.
Qed.

Lemma earliest_ext dag ids ids' : (forall t, mem t ids = mem t ids') ->
  earliestIncompleteWave dag ids = earliestIncompleteWave dag ids'.
Proof.
  intros Hm. unfold earliestIncompleteWave. do 2 f_equal. apply list_filter_ext. intros w _.
  by rewrite (existsb_ext _ (fun t => negb (mem t ids'))) by (intros; by rewrite Hm).
Qed.

Lemma forallb_ext {A} (p q : A -> bool) l : (forall x, p x = q x) -> forallb p l = forallb q l.
Proof. intros Hpq. induction l as [|x l IH]; simpl; [done|]. by rewrite Hpq, IH. Qed.

Lemma same_facts_status dag f g task : same_facts f g -> task_status dag f task = task_status dag g task.
Proof.
  intros Hs. pose proof (same_facts_integrated dag f g) as Hi. pose proof Hs as [Hl Hr _ Ha Hf _].
  unfold task_status, hasOpenBlocker, hasOpenIntegrationRetry.
  rewrite Hl, Hr, (same_facts_evidence f g) by done. rewrite Hi by done.
  rewrite !(existsb_Permutation _ _ _ Hf), (existsb_Permutation _ _ _ Ha).
  rewrite (forallb_ext _ (fun d => mem d (integratedTaskIds dag g))) by (intros; by apply Hi).
  by rewrite (earliest_ext dag _ (integratedTaskIds dag g)) by (intros; by apply Hi).
Qed.

(** A task without a live lease is what the dispatcher looks for. *)
Definition dispatchable (s : TaskSchedulingStatus) : bool :=
  bool_decide (s = ready) || bool_decide (s = retry_pending).

Ltac status_cases :=
  unfold task_status; repeat (case_match; simplify_eq/=; try done).

Lemma dispatchable_no_grant dag facts task l :
  dispatchable (task_status dag facts task) = true ->
  latestLeaseByTask (f_leases facts) !! id task = Some l -> state l <> granted.
Proof.
  intros Hd Hl Hg. revert Hd. unfold task_status. rewrite Hl. simpl. rewrite Hg, decide_True by done. simpl.
  by repeat case_match.
Qed.

(* ------------------------------------------------------------------ *)
(** ** Properties *)

(** The projection and the lease chain agree on the current lease of every
    task, whatever the order in which the projection reads the records. *)
Theorem projection_agrees_with_chain `{Hash, DateTime} ledger chain leases t :
  buildTaskLeaseChain ledger = Ok chain -> leases ≡ₚ records chain ->
  latestLeaseByTask leases !! t = omap_get (latest_by_task chain) t.
Proof.
  intros (m & recs & _ & _ & _ & Hf)%build_chain_Ok Hp. rewrite (ch_records _ _ Hf) in Hp.
  by apply (latest_lease_chain recs).
Qed.

(** The projection has no ordering precondition on its facts: lease records,
    evidence, approvals, findings and integrations may come in any order. *)
Theorem projection_order_independent `{Hash, DateTime} dag ledger chain f g live :
  buildTaskLeaseChain ledger = Ok chain ->
  f_leases f ≡ₚ records chain -> f_leases g ≡ₚ records chain -> f_runs f = f_runs g ->
  f_gate_evidence f ≡ₚ f_gate_evidence g -> f_approvals f ≡ₚ f_approvals g ->
  f_findings f ≡ₚ f_findings g -> f_wave_integrations f ≡ₚ f_wave_integrations g ->
  projectSchedulerState dag f live = projectSchedulerState dag g live.
Proof.
  intros (m & recs & _ & _ & _ & Hc)%build_chain_Ok Lf Lg Hr He Ha Hf Hi. rewrite (ch_records _ _ Hc) in Lf, Lg.
  assert (same_facts f g) as Hs.
  { split; try done. intros t. by rewrite !(latest_lease_chain recs chain _ t Hc). }
  unfold projectSchedulerState. f_equal. apply map_ext. intros task.
  by rewrite (same_facts_status dag f g), (same_facts_evidence f g).
Qed.

(** Only a wave integration record makes a task integrated, and nothing takes
    that back; a completion claim, evidence or the live snapshot never do. *)
Theorem integrated_iff_recorded dag facts live task s :
  task ∈ dag_tasks dag -> NoDup (map id (dag_tasks dag)) ->
  s ∈ sp_tasks (projectSchedulerState dag facts live) -> ts_task_id s = id task ->
  ts_status s = integrated <->
  exists r, r ∈ f_wave_integrations facts /\ wi_operation_id r = dag_operation_id dag /\ id task ∈ wi_task_ids r.
Proof.
  intros Ht Hnd (u & -> & Hu)%list_elem_of_fmap Hid. simpl in *.
  assert (u = task) as -> by by eapply (NoDup_keys_inj id). rewrite <- elem_of_integrated.
  unfold task_status. destruct (mem (id task) (integratedTaskIds dag facts)) eqn:E.
  - apply mem_spec in E. done.
  - apply mem_false in E. split; [|done]. repeat case_match; done.
Qed.

(** A task is ready exactly when it has no lease, nothing open names it, all
    its dependencies are integrated and its wave is the earliest incomplete
    one. *)
Theorem ready_iff dag facts task :
  task_status dag facts task = ready <->
  (id task ∉ integratedTaskIds dag facts) /\
  latestLeaseByTask (f_leases facts) !! id task = None /\
  hasOpenBlocker (f_findings facts) (id task) = false /\
  (forall a, a ∈ f_approvals facts -> ar_object_id a <> id task) /\
  hasOpenIntegrationRetry (f_findings facts) (id task) = false /\
  (forall d, d ∈ dependencies task -> d ∈ integratedTaskIds dag facts) /\
  exists w, waveOfTask dag !! id task = Some w /\
    earliestIncompleteWave dag (integratedTaskIds dag facts) = Some w.
Proof.
  assert (existsb (fun a => bool_decide (ar_object_id a = id task)) (f_approvals facts) = false <->
    forall a, a ∈ f_approvals facts -> ar_object_id a <> id task) as <-.
  { rewrite <- not_true_iff_false, existsb_Exists. setoid_rewrite bool_decide_eq_true. naive_solver. }
  assert (forallb (fun d => mem d (integratedTaskIds dag facts)) (dependencies task) = true <->
    forall d, d ∈ dependencies task -> d ∈ integratedTaskIds dag facts) as <-
    by (rewrite forallb_Forall; by setoid_rewrite mem_spec).
  rewrite <- mem_false. unfold task_status. split.
  - repeat case_match; try done. intros _. bool_hyps. simplify_eq.
    destruct (waveOfTask dag !! id task) as [w|] eqn:Ew; [|done]. eauto 10.
  - intros (-> & -> & -> & -> & -> & -> & w & -> & ->). simpl. by rewrite !bool_decide_true.
Qed.

(** A pending approval is shown before a live lease: the task of a granted
    lease with a running agent is projected as awaiting approval. *)
Theorem approval_outranks_running dag facts task l a :
  id task ∉ integratedTaskIds dag facts ->
  latestLeaseByTask (f_leases facts) !! id task = Some l -> state l = granted ->
  hasOpenBlocker (f_findings facts) (id task) = false ->
  a ∈ f_approvals facts -> ar_object_id a = id task ->
  task_status dag facts task = awaiting_approval.
Proof.
  intros Hi%mem_false Hl Hg Hb Ha Hid. unfold task_status. rewrite Hi, Hl, Hb. simpl. rewrite Hg. simpl.
  assert (existsb (fun a => bool_decide (ar_object_id a = id task)) (f_approvals facts) = true) as ->; [|done].
  apply existsb_Exists. exists a. by rewrite bool_decide_true.
Qed.

(* ------------------------------------------------------------------ *)
(** ** Witnesses *)

#[local] Existing Instances toy_hash any_date.

Definition sample_dag : TaskDagSnapshot :=
  Dag "operation_1" "iteration_1" "plan_1" "digest" "commit" sample_tasks sample_waves (IterBudget 100 10000 60000).
Definition sample_facts (leases : list TaskLeaseRecord) (approvals : list ApprovalRequestRecord)
    (integrations : list WaveIntegrationRecord) : SchedulerAuthorityFacts :=
  Facts leases [] [] approvals [] integrations.
#[local] Definition wave_0 : WaveIntegrationRecord := WaveIntegration "operation_1" 0 ["task_a"; "task_d"].

Lemma projection_agrees_with_chain_witness :
  latestLeaseByTask [grant_2; grant_1; close_1] !! "task_a" = Some grant_2.
Proof.
  transitivity (omap_get (latest_by_task chain_3) "task_a"); [|vm_compute; reflexivity].
  apply (projection_agrees_with_chain ledger_3 chain_3 _ _ chain_3_Ok).
  apply (Permutation_cons_append [grant_1; close_1] grant_2).
Defined.

Lemma projection_order_independent_witness :
  projectSchedulerState sample_dag (sample_facts [grant_2; grant_1; close_1] [] [wave_0]) None =
  projectSchedulerState sample_dag (sample_facts ledger_3 [] [wave_0]) None.
Proof.
  apply (projection_order_independent sample_dag ledger_3 chain_3 _ _ None chain_3_Ok); try reflexivity.
  apply (Permutation_cons_append [grant_1; close_1] grant_2).
Defined.

Lemma integrated_iff_recorded_witness :
  ts_status (TaskStatus "task_a" (Some 0%Z) integrated false None) = integrated.
Proof.
  apply (integrated_iff_recorded sample_dag (sample_facts [] [] [wave_0]) None Waves.task_a
           (TaskStatus "task_a" (Some 0%Z) integrated false None)).
  - left.
  - apply has_duplicates_NoDup. vm_compute. reflexivity.
  - left.
  - reflexivity.
  - exists wave_0. split; [left|]. split; [reflexivity|left].
Defined.

Lemma approval_outranks_running_witness :
  task_status sample_dag (sample_facts [grant_1] [ApprovalRequest "request_1" "task_a"] []) Waves.task_a =
    awaiting_approval /\
  task_status sample_dag (sample_facts [grant_1] [] []) Waves.task_a = running.
Proof.
  split; [|vm_compute; reflexivity].
  apply (approval_outranks_running _ _ _ grant_1 (ApprovalRequest "request_1" "task_a")); try reflexivity.
  - apply mem_false. vm_compute. reflexivity.
  - left.
Defined.
