(* ===== verification/Readiness.v ===== *)
(** * Readiness selection

    [packages/runtime/src/scheduling/readiness.ts]: the concurrency ceiling,
    and the tasks the next scheduling pass may dispatch. It composes the
    projection, the lease chain, the budget account and the lock table. *)

From S2P Require Import Prelude Json Task PlanValidator Waves Lease Budget ResourceLocks Projection.

Record EffectiveConcurrencyInput : Type := Concurrency
  { runtime_requested : jsnum; profile_limit : jsnum; installation_limit : jsnum;
    project_limit : jsnum; local_resource_limit : jsnum; unattended_eligible : bool }.

(** [Number.isInteger(bound) && bound > 0] *)
Definition positive_bound (n : jsnum) : option Z :=
  match n with JInt z => if (0 <? z)%Z then Some z else None | JNonInt => None end.

Definition bounds_of (input : EffectiveConcurrencyInput) : list jsnum :=
  [runtime_requested input; profile_limit input; installation_limit input; project_limit input;
   local_resource_limit input].

Definition effectiveMaxConcurrency (input : EffectiveConcurrencyInput) : Z :=
  if negb (unattended_eligible input) then 1
  else default 1%Z (min_list (omap positive_bound (bounds_of input))).

Record ReadyTaskCandidate : Type := Candidate
  { c_task : TaskSpecification; c_task_digest : string; c_wave_index : Z;
    c_retry_kind : option TaskRetryKind; c_attempt_number : Z; c_token : Z;
    c_reservation : BudgetAmount }.

(** [available_slots] and [effective_max_concurrency] are integers at every
    call. *)
Record SelectReadyTasksInput : Type := SelectInput
  { si_dag : TaskDagSnapshot; si_facts : SchedulerAuthorityFacts; si_stale_context : list string;
    si_resources : ResourceLockTable; si_budget : IterationBudgetAccount;
    si_capabilities : list string; si_available_slots : Z; si_max_concurrency : Z }.

Inductive readiness_error : Type :=
| ReadinessLease (e : lease_error)
| ReadinessClaim (e : planning_error)
| ReadinessDigest (e : canonical_error).

(** The variables of the loop. *)
Record SelectState : Type := Selecting
  { st_table : ResourceLockTable; st_slots_left : Z; st_left : BudgetAmount;
    st_selected : list ReadyTaskCandidate }.

Definition task_amount (b : LegacyTaskBudget) : BudgetAmount := Amount (steps b) (tokens b).

(** The original budget of the task less what its attempts used. *)
Definition reservation_for (budget_account : IterationBudgetAccount) (task : TaskSpecification) : BudgetAmount :=
  sub_amount (task_amount (budget task)) (consumed_of budget_account (id task)).

(** A missing claim list throws when it is iterated. *)
Definition claim_for (task : TaskSpecification) (token : Z) : result planning_error TaskResourceClaim :=
  match write_paths task, exclusive_resources task with
  | Some paths, Some resources => Ok (Claim (id task) token paths resources)
  | _, _ => Err UncaughtTypeError
  end.

Section select.
Context `{FileSystem, Collation, Hash, DateTime}.

(** [try { table = acquireTaskResources(..) } catch { .. }]: [None] when a
    lock is busy. *)
Definition try_acquire (table : ResourceLockTable) (claim : TaskResourceClaim) :
  result readiness_error (option ResourceLockTable) :=
  match acquireTaskResources table claim with
  | Ok table' => Ok (Some table')
  | Err (ResourceLockError _) => Ok None
  | Err (ClaimError e) => Err (ReadinessClaim e)
  end.

(** The reasons to pass over a task that come before its locks. *)
Definition excluded (input : SelectReadyTasksInput) (left : BudgetAmount) (task : TaskSpecification) : bool :=
  let reservation := reservation_for (si_budget input) task in
  mem (id task) (si_stale_context input) ||
  negb (forallb (fun c => mem c (si_capabilities input)) (capabilities task)) ||
  (amount_steps reservation <=? 0)%Z || (amount_tokens reservation <=? 0)%Z ||
  exceeds reservation left.

Definition candidate_for (input : SelectReadyTasksInput) (chain : TaskLeaseChain)
    (status : TaskStatusProjection) (task : TaskSpecification) (digest : string) : ReadyTaskCandidate :=
  Candidate task digest (default 0%Z (ts_wave_index status))
    (if decide (ts_status status = retry_pending) then Some executor_retry else None)
    (default 0%Z (attempt_number <$> omap_get (latest_by_task chain) (id task)) + 1)
    (nextFencingToken chain (id task)) (reservation_for (si_budget input) task).

(** One turn of the loop; once no slot is left no turn does anything, as
    after the [break]. *)
Definition select_step (input : SelectReadyTasksInput) (chain : TaskLeaseChain) (st : SelectState)
    (status : TaskStatusProjection) : result readiness_error SelectState :=
  if (st_slots_left st =? 0)%Z then Ok st
  else if negb (dispatchable (ts_status status)) then Ok st
  else
    match find_first (fun t => bool_decide (id t = ts_task_id status)) (dag_tasks (si_dag input)) with
    | None => Ok st
    | Some task =>
        if excluded input (st_left st) task then Ok st
        else
          claim ← map_err ReadinessClaim (claim_for task (nextFencingToken chain (id task)));
          acquired ← try_acquire (st_table st) claim;
          match acquired with
          | None => Ok st
          | Some table =>
              digest ← map_err ReadinessDigest (taskSemanticDigest task);
              Ok (Selecting table (st_slots_left st - 1)
                    (sub_amount (st_left st) (reservation_for (si_budget input) task))
                    (st_selected st ++ [candidate_for input chain status task digest]))
          end
    end.

Definition selectReadyTasks (input : SelectReadyTasksInput) :
  result readiness_error (list ReadyTaskCandidate) :=
  let capacity := Z.min (si_available_slots input) (si_max_concurrency input) in
  if (capacity <? 1)%Z then Ok []
  else
    chain ← map_err ReadinessLease (buildTaskLeaseChain (f_leases (si_facts input)));
    let projection := projectSchedulerState (si_dag input) (si_facts input) None in
    st ← foldM (select_step input chain)
           (Selecting (si_resources input) capacity (remainingBudget (si_budget input)) [])
           (sp_tasks projection);
    Ok (st_selected st).
End select.

(* ------------------------------------------------------------------ *)
(** ** Lemmas *)

Lemma positive_bound_Some n z : positive_bound n = Some z <-> n = JInt z /\ (0 < z)%Z.
Proof.
  destruct n as [k|]; simpl; [|split; [done|by intros []]]. destruct (Z.ltb_spec 0 k); split;
    try (intros [= <-]); try (intros [[= <-] ?]); try done; try lia.
Qed.

Lemma min_list_spec l m : min_list l = Some m <-> m ∈ l /\ Forall (fun x => (m <= x)%Z) l.
Proof.
  destruct l as [|x l]; simpl; [split; [done|intros [Hn _]; by apply elem_of_nil in Hn]|].
  assert (forall l a, let k := foldl Z.min a l in k ∈ a :: l /\ Forall (fun x => (k <= x)%Z) (a :: l)) as Hk.
  { clear. induction l as [|y l IH]; intros a; simpl; [split; [left|repeat constructor; lia]|].
    specialize (IH (Z.min a y)). simpl in IH. set (k := foldl Z.min (Z.min a y) l) in *.
    destruct IH as [Hin [Ha Hl]%Forall_cons]. split; [|repeat constructor; try done; lia].
    apply elem_of_cons in Hin as [Hin|Hin]; [|by do 2 right].
    destruct (Z.min_spec a y) as [[_ E]|[_ E]]; rewrite E in Hin; rewrite Hin; [left|right; left]. }
  specialize (Hk l x). simpl in Hk. set (k := foldl Z.min x l) in *. split; [by intros [= <-]|].
  intros [Hm Hf]. f_equal. destruct Hk as [Hkin Hkf]. rewrite Forall_forall in *.
  specialize (Hf k Hkin). specialize (Hkf m Hm). simpl in *. lia.
Qed.

Definition total_reserved (l : list ReadyTaskCandidate) : BudgetAmount :=
  foldr (fun c sum => add_amount (c_reservation c) sum) no_amount l.

Lemma total_reserved_snoc l c : total_reserved (l ++ [c]) = add_amount (total_reserved l) (c_reservation c).
Proof. unfold total_reserved. induction l as [|x l IH]; simpl; [amounts|]. rewrite IH. amounts. Qed.

Section inv.
Context `{FileSystem, Collation, Hash, DateTime}.
Variables (input : SelectReadyTasksInput) (chain : TaskLeaseChain).

Abbreviation statuses := (sp_tasks (projectSchedulerState (si_dag input) (si_facts input) None)).
Abbreviation found status :=
  (find_first (fun t => bool_decide (id t = ts_task_id status)) (dag_tasks (si_dag input))).

Lemma acquire_busy_mono t c t' d k :
  acquireTaskResources t c = Ok t' -> acquireTaskResources t d = Err (ResourceLockError k) ->
  acquireTaskResources t' d = Err (ResourceLockError k).
Proof.
  intros (_ & _ & ->)%acquire_Ok. rewrite !acquire_eq. destruct (resourceKeys d) as [keys|]; [|done].
  case_decide as Hd; [done|]. intros <-. rewrite decide_False; [done|]. intros Hf. apply Hd.
  eapply Forall_impl; [exact Hf|]. intros j Hj. simpl in Hj. rewrite Forall_forall in *. intros e He. apply Hj.
  unfold sortEntries. apply elem_of_js_sort, elem_of_app. by left.
Qed.

(** Why a task was passed over. *)
Inductive passed_over (st : SelectState) (t : TaskSpecification) : Prop :=
| no_slot : st_slots_left st = 0%Z -> passed_over st t
| stale_context : id t ∈ si_stale_context input -> passed_over st t
| missing_capability c : c ∈ capabilities t -> c ∉ si_capabilities input -> passed_over st t
| spent_budget : ~ (0 < amount_steps (reservation_for (si_budget input) t) /\
                    0 < amount_tokens (reservation_for (si_budget input) t))%Z -> passed_over st t
| over_budget : exceeds (reservation_for (si_budget input) t) (st_left st) = true -> passed_over st t
| busy_lock claim k : claim_for t (nextFencingToken chain (id t)) = Ok claim ->
    acquireTaskResources (st_table st) claim = Err (ResourceLockError k) -> passed_over st t.

Lemma excluded_why st t : excluded input (st_left st) t = true -> passed_over st t.
Proof.
  unfold excluded. rewrite !orb_true_iff. intros [[[[Hs|Hc]|Hst]|Htk]|Hx].
  - apply stale_context. by apply mem_spec.
  - rewrite negb_true_iff in Hc. apply not_true_iff_false in Hc. rewrite forallb_Forall in Hc.
    setoid_rewrite mem_spec in Hc. destruct (decide (Exists (fun c => c ∉ si_capabilities input) (capabilities t))) as [He|Hn].
    + apply Exists_exists in He as (c & Hin & Hn). by eapply missing_capability.
    + destruct Hc. intros c Hin. apply dec_stable. intros Hn'. apply Hn, Exists_exists. eauto.
  - apply spent_budget. apply Z.leb_le in Hst. lia.
  - apply spent_budget. apply Z.leb_le in Htk. lia.
  - by apply over_budget.
Qed.

Lemma excluded_false left t : excluded input left t = false <->
  (id t ∉ si_stale_context input) /\ (forall c, c ∈ capabilities t -> c ∈ si_capabilities input) /\
  (0 < amount_steps (reservation_for (si_budget input) t))%Z /\
  (0 < amount_tokens (reservation_for (si_budget input) t))%Z /\
  amount_le (reservation_for (si_budget input) t) left.
Proof.
  unfold excluded. rewrite !orb_false_iff, mem_false, negb_false_iff, forallb_Forall, !Z.leb_gt, exceeds_false.
  setoid_rewrite mem_spec. tauto.
Qed.

(** What holds of a candidate by itself. *)
Definition candidate_ok (c : ReadyTaskCandidate) : Prop :=
  c_task c ∈ dag_tasks (si_dag input) /\
  (exists status, status ∈ statuses /\ dispatchable (ts_status status) = true /\ ts_task_id status = id (c_task c) /\
     c = candidate_for input chain status (c_task c) (c_task_digest c)) /\
  taskSemanticDigest (c_task c) = Ok (c_task_digest c) /\
  (id (c_task c) ∉ si_stale_context input) /\
  (forall x, x ∈ capabilities (c_task c) -> x ∈ si_capabilities input) /\
  (0 < amount_steps (c_reservation c))%Z /\ (0 < amount_tokens (c_reservation c))%Z.

Record selecting (capacity : Z) (done : list TaskStatusProjection) (st : SelectState) : Prop := {
  sel_claims : exists claims,
    mapM (fun c => claim_for (c_task c) (c_token c)) (st_selected st) = Ok claims /\
    foldM acquireTaskResources (si_resources input) claims = Ok (st_table st);
  sel_slots : st_slots_left st = (capacity - Z.of_nat (length (st_selected st)))%Z;
  sel_slots_nonneg : (0 <= st_slots_left st)%Z;
  sel_left : st_left st = sub_amount (remainingBudget (si_budget input)) (total_reserved (st_selected st));
  sel_left_nonneg : st_selected st <> [] -> amount_le no_amount (st_left st);
  sel_order : map (fun c => id (c_task c)) (st_selected st) `sublist_of` map ts_task_id done;
  sel_ok : Forall candidate_ok (st_selected st);
  sel_why : forall status t, status ∈ done -> dispatchable (ts_status status) = true ->
    found status = Some t -> passed_over st t \/ t ∈ map c_task (st_selected st)
}.

Lemma selecting_start capacity : (1 <= capacity)%Z ->
  selecting capacity [] (Selecting (si_resources input) capacity (remainingBudget (si_budget input)) []).
Proof.
  intros Hc. split; simpl; try done; try lia.
  - by exists [].
  - amounts.
  - intros s t Hs. by apply elem_of_nil in Hs.
Qed.

(** A turn that selects nothing. *)
Lemma selecting_skip capacity done st status :
  selecting capacity done st ->
  (dispatchable (ts_status status) = true -> forall t, found status = Some t -> passed_over st t) ->
  selecting capacity (done ++ [status]) st.
Proof.
  intros [? ? ? ? ? ? ? Hwhy] Hw. split; try done.
  - rewrite map_app. by apply sublist_inserts_r.
  - intros s t [Hs|Hs%list_elem_of_singleton]%elem_of_app Hd Ht; [by apply (Hwhy s)|subst; left; auto].
Qed.

Lemma try_acquire_Ok table claim r :
  try_acquire table claim = Ok r ->
  match r with
  | Some table' => acquireTaskResources table claim = Ok table'
  | None => exists k, acquireTaskResources table claim = Err (ResourceLockError k)
  end.
Proof.
  unfold try_acquire. destruct (acquireTaskResources table claim) as [t|[k|e]]; intros [= <-]; eauto.
Qed.

Lemma passed_over_mono st st' t :
  passed_over st t -> st_slots_left st <> 0%Z ->
  amount_le (st_left st') (st_left st) ->
  (exists claim, acquireTaskResources (st_table st) claim = Ok (st_table st')) -> passed_over st' t.
Proof.
  intros [Hs|Hs|c Hc Hn|Hb|Hx|claim k Hc Hk] Hne Hle [claim' Ha].
  - done.
  - by apply stale_context.
  - by eapply missing_capability.
  - by apply spent_budget.
  - apply over_budget. destruct (exceeds (reservation_for _ t) (st_left st')) eqn:E; [done|].
    apply exceeds_false in E. assert (exceeds (reservation_for (si_budget input) t) (st_left st) = false)
      by (apply exceeds_false; amounts). congruence.
  - eapply busy_lock; [done|]. by eapply acquire_busy_mono.
Qed.

Lemma select_step_take st status t claim table digest :
  st_slots_left st <> 0%Z -> dispatchable (ts_status status) = true -> found status = Some t ->
  excluded input (st_left st) t = false ->
  claim_for t (nextFencingToken chain (id t)) = Ok claim ->
  acquireTaskResources (st_table st) claim = Ok table -> taskSemanticDigest t = Ok digest ->
  select_step input chain st status =
    Ok (Selecting table (st_slots_left st - 1)
          (sub_amount (st_left st) (reservation_for (si_budget input) t))
          (st_selected st ++ [candidate_for input chain status t digest])).
Proof.
  intros Hs%Z.eqb_neq Hd Hf Hx Hc Ha Hg. unfold select_step, try_acquire. by rewrite Hs, Hd, Hf, Hx, Hc; simpl; rewrite Ha, Hg.
Qed.

(** The outcomes of a turn. *)
Lemma select_step_cases st status st' :
  select_step input chain st status = Ok st' ->
  (st' = st /\ (dispatchable (ts_status status) = true -> forall t, found status = Some t -> passed_over st t)) \/
  (exists t claim table digest,
     st_slots_left st <> 0%Z /\ dispatchable (ts_status status) = true /\ found status = Some t /\
     excluded input (st_left st) t = false /\
     claim_for t (nextFencingToken chain (id t)) = Ok claim /\
     acquireTaskResources (st_table st) claim = Ok table /\ taskSemanticDigest t = Ok digest /\
     st' = Selecting table (st_slots_left st - 1)
             (sub_amount (st_left st) (reservation_for (si_budget input) t))
             (st_selected st ++ [candidate_for input chain status t digest])).
Proof.
  unfold select_step. destruct (Z.eqb_spec (st_slots_left st) 0) as [Hs|Hs].
  { intros [= <-]. left. split; [done|]. intros _ t _. by apply no_slot. }
  destruct (dispatchable (ts_status status)) eqn:Ed; simpl; [|intros [= <-]; by left].
  destruct (found status) as [t|] eqn:Ef; [|intros [= <-]; by left].
  destruct (excluded input (st_left st) t) eqn:Ex.
  { intros [= <-]. left. split; [done|]. intros _ u [= <-]. by apply excluded_why. }
  intros Hr. apply bind_Ok in Hr as (claim & Hc%map_err_Ok & Hr). apply bind_Ok in Hr as (r & Ha%try_acquire_Ok & Hr).
  destruct r as [table|].
  - apply bind_Ok in Hr as (digest & Hd%map_err_Ok & [= <-]). right. exists t, claim, table, digest. auto 10.
  - injection Hr as <-. left. split; [done|]. intros _ u [= <-]. destruct Ha as [k Hk]. by eapply busy_lock.
Qed.

Lemma selecting_step capacity done st status st' :
  status ∈ statuses -> selecting capacity done st -> select_step input chain st status = Ok st' ->
  selecting capacity (done ++ [status]) st'.
Proof.
  intros Hin Hinv [[-> Hw]|(t & claim & table & digest & Hs & Hd & Hf & Hx & Hc & Ha & Hg & ->)]%select_step_cases;
    [by apply selecting_skip|].
  destruct Hinv as [(claims & Hm & Hfold) Hsl Hsn Hl Hln Hor Hok Hwhy].
  apply excluded_false in Hx as (Hst & Hca & H1' & H2' & Hle). pose proof Hf as Hf'.
  apply find_first_Some in Hf' as [Ht Hid]. bool_hyps. split; simpl.
  - exists (claims ++ [claim]). split.
    + apply mapM_Ok. apply Forall2_app; [by apply mapM_Ok|]. constructor; [done|constructor].
    + rewrite foldM_app, Hfold. simpl. by rewrite Ha.
  - rewrite length_app. simpl. lia.
  - lia.
  - rewrite Hl, total_reserved_snoc. simpl. amounts.
  - intros _. amounts.
  - rewrite !map_app. simpl. rewrite <- Hid. by apply sublist_app.
  - apply Forall_app. split; [done|]. constructor; [|done]. split; [done|]. simpl. split; [|by auto].
    by exists status.
  - intros s u [Hsd|Hsd%list_elem_of_singleton]%elem_of_app Hsdis Hu.
    + destruct (Hwhy s u Hsd Hsdis Hu) as [Hp|Hp]; [left|right; rewrite map_app; apply elem_of_app; by left].
      eapply passed_over_mono; [exact Hp|done| |by exists claim]. simpl. amounts.
    + subst s. assert (u = t) as -> by congruence. right. rewrite map_app. apply elem_of_app. right. left.
Qed.
End inv.

Section selected.
Context `{FileSystem, Collation, Hash, DateTime}.

Definition capacity_of (input : SelectReadyTasksInput) : Z :=
  Z.min (si_available_slots input) (si_max_concurrency input).

Lemma select_Ok input sel :
  selectReadyTasks input = Ok sel ->
  (capacity_of input < 1)%Z /\ sel = [] \/
  (1 <= capacity_of input)%Z /\ exists chain st,
    buildTaskLeaseChain (f_leases (si_facts input)) = Ok chain /\
    selecting input chain (capacity_of input)
      (sp_tasks (projectSchedulerState (si_dag input) (si_facts input) None)) st /\
    sel = st_selected st.
Proof.
  unfold selectReadyTasks. fold (capacity_of input). destruct (Z.ltb_spec (capacity_of input) 1) as [Hc|Hc].
  { intros [= <-]. by left. }
  intros Hr. right. split; [done|]. apply bind_Ok in Hr as (chain & Hch%map_err_Ok & Hr).
  apply bind_Ok in Hr as (st & Hst & [= <-]). exists chain, st. split; [done|]. split; [|done].
  eapply (foldM_inv (fun done st => selecting input chain (capacity_of input) done st)); [by apply selecting_start| |exact Hst].
  intros done status todo acc acc' E Hinv Hstep. eapply selecting_step; [|done|done].
  rewrite E. apply elem_of_app. right. left.
Qed.
End selected.

(** ** Dispatch *)

(** The reservation the scheduler makes for a candidate it dispatches
    ([packages/runtime/src/scheduling/scheduler.ts], [dispatchCandidate]). *)
Definition duration_of (b : LegacyTaskBudget) : jsnum :=
  match duration_ms b with Some (NInt d) => JInt d | _ => JNonInt end.

Definition reserve_input (leaseId : ReadyTaskCandidate -> string) (now : string) (c : ReadyTaskCandidate) :
  ReserveTaskBudgetInput :=
  Reserve (id (c_task c)) (leaseId c) (c_token c) (task_amount (budget (c_task c)))
    (duration_of (budget (c_task c)))
    (Raw (JInt (amount_steps (c_reservation c))) (JInt (amount_tokens (c_reservation c)))) now.

Definition dispatch_reserve `{Clock} (leaseId : ReadyTaskCandidate -> string) (now : string)
    (account : IterationBudgetAccount) (c : ReadyTaskCandidate) : budgeting IterationBudgetAccount :=
  r ← reserveTaskBudget account (reserve_input leaseId now c);
  Ok (rr_account r).

Section dispatch.
Context `{Clock}.
Variables (leaseId : ReadyTaskCandidate -> string) (now : string) (n dl : Z).
Hypothesis now_parses : date_parse now = Some n.
Hypothesis in_time : (n < dl)%Z.

(** A candidate the account can fund. *)
Definition fundable (account : IterationBudgetAccount) (c : ReadyTaskCandidate) : Prop :=
  reservations account !! id (c_task c) = None /\
  c_reservation c = reservation_for account (c_task c) /\
  amount_le no_amount (c_reservation c) /\
  exists d, duration_ms (budget (c_task c)) = Some (NInt d) /\ (0 <= d)%Z.

Lemma dispatch_all cs : forall account,
  NoDup (map (fun c => id (c_task c)) cs) -> Forall (fundable account) cs ->
  date_parse (iteration_deadline account) = Some dl ->
  (cs <> [] -> amount_le (total_reserved cs) (remainingBudget account)) ->
  exists account', foldM (dispatch_reserve leaseId now) account cs = Ok account'.
Proof.
  induction cs as [|c cs IH]; intros account Hnd Hf Hdl Hle; [by exists account|].
  csimpl in *. apply NoDup_cons in Hnd as [Hn Hnd]. apply Forall_cons in Hf as [(Hr & Hc & H0 & d & Hd & Hd0) Hf].
  specialize (Hle ltac:(done)).
  assert (amount_le no_amount (total_reserved cs)) as Hcs.
  { clear -Hf. induction Hf as [|x l (_ & _ & Hx & _) _ IH]; simpl; amounts. }
  destruct (c_reservation c) as [s t] eqn:Ec.
  assert (reserveTaskBudget account (reserve_input leaseId now c) = Ok (Reserved
    (Account (limit account) (consumed account)
       (<[id (c_task c) := Reservation (leaseId c) (c_token c) (Amount s t)]> (reservations account))
       (iteration_deadline account)) (Amount s t) (to_iso (Z.min (n + d) dl)))) as E.
  { apply reserve_total; try done; simpl.
    - by rewrite Ec.
    - unfold duration_of. by rewrite Hd.
    - unfold reservation_for in Hc. rewrite <- Hc. amounts.
    - amounts. }
  cbn [foldM]. unfold dispatch_reserve at 2. rewrite E. cbn [mbind result_bind rr_account]. apply IH; try done.
  - rewrite Forall_forall in *. intros x Hx. destruct (Hf x Hx) as (Hrx & Hcx & Hx0 & Hdx).
    split; [|done]. simpl. rewrite lookup_insert_ne; [done|]. intros Ex. apply Hn. rewrite Ex.
    by apply (list_elem_of_fmap_2 (fun c => id (c_task c))).
  - intros _. rewrite remaining_reserve by done. destruct account; simpl in *. amounts.
Qed.
End dispatch.

Lemma ledger_without_replays `{Hash, DateTime} ledger chain :
  buildTaskLeaseChain ledger = Ok chain -> NoDup (map command_id ledger) -> chain_facts ledger chain.
Proof.
  intros Hb Hnd. destruct (build_chain_Ok _ _ Hb) as (m & recs & _ & Had & _ & _).
  rewrite (build_distinct ledger (ad_valid _ _ _ Had) Hnd) in Hb. by apply chain_of_Ok.
Qed.

Lemma status_of_task dag facts live s t :
  NoDup (map id (dag_tasks dag)) -> s ∈ sp_tasks (projectSchedulerState dag facts live) ->
  t ∈ dag_tasks dag -> ts_task_id s = id t -> ts_status s = task_status dag facts t.
Proof.
  intros Hnd (u & -> & Hu)%list_elem_of_fmap Ht Hid. simpl in *.
  by rewrite (NoDup_keys_inj id _ Hnd u t).
Qed.

Lemma status_ids dag facts live : map ts_task_id (sp_tasks (projectSchedulerState dag facts live)) = map id (dag_tasks dag).
Proof. simpl. rewrite map_map. by apply map_ext. Qed.

Lemma find_by_id tasks t :
  NoDup (map id tasks) -> t ∈ tasks -> find_first (fun u => bool_decide (id u = id t)) tasks = Some t.
Proof.
  intros Hnd Ht. destruct (find_first _ tasks) as [u|] eqn:E.
  - apply find_first_Some in E as [Hu Hid]. bool_hyps. f_equal. by eapply (NoDup_keys_inj id).
  - apply find_first_None in E. rewrite Forall_forall in E. specialize (E t Ht). by bool_hyps.
Qed.

(* ------------------------------------------------------------------ *)
(** ** Properties *)

(** The ceiling is a positive integer, one for an adapter that is not
    eligible to run unattended, otherwise the smallest of the valid bounds,
    and one when there is none. *)
Theorem concurrency_ceiling input :
  (1 <= effectiveMaxConcurrency input)%Z /\
  (unattended_eligible input = false -> effectiveMaxConcurrency input = 1%Z) /\
  (unattended_eligible input = true ->
     (forall z, JInt z ∈ bounds_of input -> (0 < z)%Z -> (effectiveMaxConcurrency input <= z)%Z) /\
     (JInt (effectiveMaxConcurrency input) ∈ bounds_of input \/
      effectiveMaxConcurrency input = 1%Z /\ forall z, JInt z ∈ bounds_of input -> (z <= 0)%Z)).
Proof.
  unfold effectiveMaxConcurrency. destruct (unattended_eligible input); cbn [negb]; [|split; [lia|done]].
  assert (forall z, z ∈ omap positive_bound (bounds_of input) <-> JInt z ∈ bounds_of input /\ (0 < z)%Z) as Hb.
  { intros z. rewrite list_elem_of_omap. setoid_rewrite positive_bound_Some. split.
    - by intros (x & Hx & -> & ?).
    - intros [? ?]. by exists (JInt z). }
  destruct (min_list (omap positive_bound (bounds_of input))) as [m|] eqn:E; cbn [from_option Datatypes.id].
  - apply min_list_spec in E as [Hm Hf]. rewrite Forall_forall in Hf. apply Hb in Hm as Hm'. destruct Hm' as [Hin Hp].
    split; [lia|]. split; [done|]. intros _. split; [|by left]. intros z Hz Hz0. by apply Hf, Hb.
  - assert (forall z, JInt z ∈ bounds_of input -> (z <= 0)%Z) as Hn.
    { intros z Hz. destruct (Z.le_gt_cases z 0) as [?|Hz0]; [done|]. exfalso.
      assert (z ∈ omap positive_bound (bounds_of input)) as Hin by by apply Hb.
      destruct (omap positive_bound (bounds_of input)); [by apply elem_of_nil in Hin|done]. }
    split; [lia|]. split; [done|]. intros _. split; [|by right].
    intros z Hz Hz0. specialize (Hn z Hz). lia.
Qed.

Section properties.
Context `{FileSystem, Collation, Hash, DateTime}.

(** What is selected may run together: at most as many tasks as there are
    slots, in plan order, each ready or due its retry, with a fresh context
    and the capabilities it asks for, a positive remainder of its own budget
    and the token and attempt number the next grant will have; their
    reservations fit the iteration, and their locks can all be held beside
    those already held. *)
Theorem selection_sound input sel :
  selectReadyTasks input = Ok sel ->
  (Z.of_nat (length sel) <= Z.max 0 (capacity_of input))%Z /\
  map (fun c => id (c_task c)) sel `sublist_of` map id (dag_tasks (si_dag input)) /\
  (sel <> [] -> amount_le (total_reserved sel) (remainingBudget (si_budget input))) /\
  exists chain,
    (sel <> [] -> buildTaskLeaseChain (f_leases (si_facts input)) = Ok chain) /\
    Forall (candidate_ok input chain) sel /\
    exists claims table, mapM (fun c => claim_for (c_task c) (c_token c)) sel = Ok claims /\
      foldM acquireTaskResources (si_resources input) claims = Ok table.
Proof.
  intros [[Hc ->]|(Hc & chain & st & Hb & [Hcl Hs Hsn Hl Hln Ho Hk _] & ->)]%select_Ok.
  - split; [simpl; lia|]. split; [apply sublist_nil_l|]. split; [done|]. exists (Chain [] []).
    split; [done|]. split; [done|]. by exists [], (si_resources input).
  - split; [lia|]. split; [by rewrite <- (status_ids (si_dag input) (si_facts input) None)|].
    split; [intros Hne; specialize (Hln Hne); rewrite Hl in Hln; amounts|]. exists chain. split; [done|].
    split; [done|]. destruct Hcl as (claims & Hm & Hf). by exists claims, (st_table st).
Qed.

(** No slot stays idle without a reason: a dispatchable task that is not
    selected finds the slots taken, its context stale, a capability missing,
    its own budget spent, its reservation above what the selected tasks
    leave, or its locks busy beside theirs. *)
Theorem selection_work_conserving input sel t :
  selectReadyTasks input = Ok sel -> NoDup (map id (dag_tasks (si_dag input))) ->
  t ∈ dag_tasks (si_dag input) ->
  dispatchable (task_status (si_dag input) (si_facts input) t) = true ->
  t ∈ map c_task sel \/ (capacity_of input <= Z.of_nat (length sel))%Z \/
  exists chain table claims,
    buildTaskLeaseChain (f_leases (si_facts input)) = Ok chain /\
    mapM (fun c => claim_for (c_task c) (c_token c)) sel = Ok claims /\
    foldM acquireTaskResources (si_resources input) claims = Ok table /\
    passed_over input chain
      (Selecting table (capacity_of input - Z.of_nat (length sel))
         (sub_amount (remainingBudget (si_budget input)) (total_reserved sel)) sel) t.
Proof.
  intros [[Hc ->]|(Hc & chain & st & Hb & [Hcl Hs Hsn Hl _ _ _ Hw] & ->)]%select_Ok Hnd Ht Hd;
    [right; left; simpl; lia|].
  destruct Hcl as (claims & Hm & Hf).
  set (s := TaskStatus (id t) (waveOfTask (si_dag input) !! id t) (task_status (si_dag input) (si_facts input) t)
              (provisionalOnly (readCandidateEvidence (f_gate_evidence (si_facts input)) (id t))) None).
  destruct (Hw s t) as [Hp|Hp]; [|done| | |by left].
  - apply list_elem_of_fmap. by exists t.
  - by apply find_by_id.
  - right. right. exists chain, (st_table st), claims. split; [done|]. split; [done|]. split; [done|].
    rewrite <- Hs, <- Hl. by destruct st.
Qed.

(** Selection and budget agree: on the account restored from the ledger,
    every selected candidate can be reserved, one after the other, before the
    deadline. *)
Theorem selection_dispatches `{Clock} input sel l deadline leaseId now n dl :
  selectReadyTasks input = Ok sel ->
  restoreBudgetAccount l deadline (f_leases (si_facts input)) = Ok (si_budget input) ->
  NoDup (map command_id (f_leases (si_facts input))) -> NoDup (map id (dag_tasks (si_dag input))) ->
  (forall t, t ∈ dag_tasks (si_dag input) -> exists d, duration_ms (budget t) = Some (NInt d) /\ (0 <= d)%Z) ->
  date_parse now = Some n -> date_parse deadline = Some dl -> (n < dl)%Z ->
  exists account, foldM (dispatch_reserve leaseId now) (si_budget input) sel = Ok account.
Proof.
  intros Hsel (chain & Hb & [_ Hdl _ Hres] & _)%restore_Ok Hcmd Hnd Hdur Hnow Hdeadline Hlt.
  apply select_Ok in Hsel as [[_ ->]|(_ & chain' & st & Hb' & [_ _ _ Hl Hln Ho Hk _] & ->)]; [by exists (si_budget input)|].
  assert (chain' = chain) as -> by congruence. pose proof (ledger_without_replays _ _ Hb Hcmd) as Hf.
  apply (dispatch_all leaseId now n dl Hnow Hlt).
  - eapply sublist_NoDup; [|exact Ho]. by rewrite status_ids.
  - eapply Forall_impl; [exact Hk|]. intros c (Ht & (s & Hs & Hd & Hid & Ec) & _ & _ & _ & Hst & Htk).
    rewrite (status_of_task (si_dag input) (si_facts input) None s (c_task c)) in Hd by done.
    split; [|split; [|split; [|by apply Hdur]]].
    + rewrite Hres, <- (latest_lease_chain (f_leases (si_facts input)) chain _ _ Hf (reflexivity _)).
      destruct (latestLeaseByTask _ !! _) as [r|] eqn:E; [|done]. unfold live_reservation; simpl.
      by rewrite decide_False by (by eapply dispatchable_no_grant).
    + rewrite Ec. done.
    + amounts.
  - by rewrite Hdl.
  - intros Hne. specialize (Hln Hne). rewrite Hl in Hln. amounts.
Qed.
End properties.

(* ------------------------------------------------------------------ *)
(** ** Witnesses *)

#[local] Existing Instances sample_fs by_code_units toy_hash any_date text_clock.

#[local] Definition sample_budget : IterationBudgetAccount :=
  createIterationBudgetAccount (Amount 100 5000) (time_text 5000).
#[local] Definition sample_input : SelectReadyTasksInput :=
  SelectInput sample_dag (sample_facts [] [] []) [] emptyResourceLockTable sample_budget [] 4 2.
#[local] Definition sample_selection : list ReadyTaskCandidate :=
  Eval vm_compute in match selectReadyTasks sample_input with Ok l => l | Err _ => [] end.

Lemma sample_selection_Ok : selectReadyTasks sample_input = Ok sample_selection.
Proof. vm_compute. reflexivity. Qed.
Lemma sample_ids : NoDup (map id (dag_tasks (si_dag sample_input))).
Proof. apply has_duplicates_NoDup. vm_compute. reflexivity. Qed.

Lemma selection_sound_witness :
  map (fun c => id (c_task c)) sample_selection = ["task_a"; "task_d"] /\
  (Z.of_nat (length sample_selection) <= 2)%Z.
Proof. split; [vm_compute; reflexivity|]. apply (selection_sound _ _ sample_selection_Ok). Defined.

Lemma selection_work_conserving_witness : Waves.task_d ∈ map c_task sample_selection.
Proof.
  destruct (selection_work_conserving sample_input sample_selection Waves.task_d sample_selection_Ok sample_ids)
    as [Hs|_]; [do 3 right; left|vm_compute; reflexivity|exact Hs|].
  right. left.
Defined.

Lemma selection_dispatches_witness :
  exists account, foldM (dispatch_reserve (fun _ => "lease_1") (time_text 100)) sample_budget sample_selection = Ok account.
Proof.
  apply (selection_dispatches sample_input sample_selection (Amount 100 5000) (time_text 5000) _ (time_text 100) 100 5000
           sample_selection_Ok).
  - vm_compute. reflexivity.
  - constructor.
  - exact sample_ids.
  - intros t Ht. exists 1000%Z. split; [|lia]. revert t Ht.
    change (forall t, t ∈ sample_tasks -> duration_ms (budget t) = Some (NInt 1000)).
    apply Forall_forall. repeat constructor.
  - vm_compute. reflexivity.
  - vm_compute. reflexivity.
  - lia.
Defined.

#[local] Definition sample_concurrency : EffectiveConcurrencyInput :=
  Concurrency (JInt 8) (JInt 4) JNonInt (JInt 0) (JInt 6) true.

Lemma concurrency_ceiling_witness :
  effectiveMaxConcurrency sample_concurrency = 4%Z /\ (effectiveMaxConcurrency sample_concurrency <= 6)%Z.
Proof.
  split; [reflexivity|].
  apply (proj1 (proj2 (proj2 (concurrency_ceiling sample_concurrency)) eq_refl)); [do 4 right; left|lia].
Defined.
