(* ===== verification/AgentPool.v ===== *)
(** * Local agent pool

    [packages/runtime/src/scheduling/agent-pool.ts]: the fixed slots of the
    pool as a state machine. A call of [run] is the step that starts it, up to
    its first [await], and the step that settles it (the [finally] block);
    [cancel] is the step that marks the slots. The live observations, which
    are disposable, are left out. *)

From S2P Require Import Prelude Projection.

Inductive AgentPoolErrorKind : Type := invalid_capacity | pool_exhausted | duplicate_run | unknown_run.

(** [AdapterError] is what the slot factory or a synchronous part of the
    adapter throws. *)
Inductive pool_error : Type :=
| AgentPoolError (kind : AgentPoolErrorKind)
| AdapterError.
#[export] Instance AgentPoolErrorKind_eq_dec : EqDecision AgentPoolErrorKind.
Proof. solve_decision. Defined.
#[export] Instance pool_error_eq_dec : EqDecision pool_error.
Proof. solve_decision. Defined.

(** The acquired slots are known by their position in [slots]. *)
Record ActiveRun : Type := Active { act_task : string; act_slots : list nat }.
#[export] Instance ActiveRun_eq_dec : EqDecision ActiveRun.
Proof. solve_decision. Defined.

Record Pool : Type := MkPool
  { slots : list AgentPoolSlot; activeRuns : gmap string ActiveRun; knownRunIds : list string }.

Definition slot_id_of (index : nat) : string := "slot_" +:+ pretty (Z.of_nat index).

Definition idle_slot (name : string) : AgentPoolSlot := Slot name idle None None.

(** [createLocalAgentPool] *)
Definition createLocalAgentPool (capacity : jsnum) : result pool_error Pool :=
  match capacity with
  | JInt c => if (c <? 1)%Z then Err (AgentPoolError invalid_capacity)
              else Ok (MkPool (map (fun i => idle_slot (slot_id_of i)) (seq 1 (Z.to_nat c))) ∅ [])
  | JNonInt => Err (AgentPoolError invalid_capacity)
  end.

Definition is_idle (slot : AgentPoolSlot) : bool := bool_decide (slot_state slot = idle).

(** The positions [acquireSlots] answers; [eligible] is the eligibility of
    the adapter for unattended runs. *)
Definition acquireSlots (eligible : bool) (pool : Pool) : result pool_error (list nat) :=
  if negb eligible then
    if existsb (fun s => negb (is_idle s)) (slots pool) then Err (AgentPoolError pool_exhausted)
    else Ok (seq 0 (length (slots pool)))
  else
    match find_index is_idle (slots pool) with
    | Some i => Ok [i]
    | None => Err (AgentPoolError pool_exhausted)
    end.

Definition mark (f : AgentPoolSlot -> AgentPoolSlot) (positions : list nat) (l : list AgentPoolSlot) :
  list AgentPoolSlot :=
  imap (fun i slot => if mem i positions then f slot else slot) l.

Definition occupy (taskId runId : string) (slot : AgentPoolSlot) : AgentPoolSlot :=
  Slot (slot_name slot) running_slot (Some taskId) (Some runId).
Definition vacate (slot : AgentPoolSlot) : AgentPoolSlot := idle_slot (slot_name slot).
Definition cancel_slot (slot : AgentPoolSlot) : AgentPoolSlot :=
  Slot (slot_name slot) cancelling (slot_task slot) (slot_run slot).

(** [run] up to its first [await]; [starts] tells whether the factory and the
    adapter start without throwing. The state comes back in either case. *)
Definition run (eligible starts : bool) (pool : Pool) (taskId runId : string) : Pool * result pool_error unit :=
  if mem runId (knownRunIds pool) then (pool, Err (AgentPoolError duplicate_run))
  else
    match acquireSlots eligible pool with
    | Err e => (pool, Err e)
    | Ok acquired =>
        let occupied := mark (occupy taskId runId) acquired (slots pool) in
        if starts then
          (MkPool occupied (<[runId := Active taskId acquired]> (activeRuns pool)) (runId :: knownRunIds pool), Ok tt)
        else (MkPool occupied (activeRuns pool) (runId :: knownRunIds pool), Err AdapterError)
    end.

(** The [finally] block, once the adapter has answered. *)
Definition settle (pool : Pool) (runId : string) : Pool :=
  match activeRuns pool !! runId with
  | None => pool
  | Some active =>
      MkPool (mark vacate (act_slots active) (slots pool)) (delete runId (activeRuns pool)) (knownRunIds pool)
  end.

(** [cancel] up to its [await]; the answer of the adapter decides the rest. *)
Definition cancel (pool : Pool) (runId : string) : Pool * result pool_error unit :=
  match activeRuns pool !! runId with
  | None => (pool, Err (AgentPoolError unknown_run))
  | Some active =>
      (MkPool (mark cancel_slot (act_slots active) (slots pool)) (activeRuns pool) (knownRunIds pool), Ok tt)
  end.

Inductive AgentPoolCancelOutcome : Type := confirmed | unconfirmed | cancel_failed.

(** [None] is an adapter that failed. *)
Definition cancel_outcome (result : option TerminationReason) : AgentPoolCancelOutcome :=
  match result with
  | None => cancel_failed
  | Some reason => if decide (reason = user_cancellation) then confirmed else unconfirmed
  end.

(** Steps of the pool; [healthy] tells whether adapters always start. *)
Inductive pool_step (eligible healthy : bool) : Pool -> Pool -> Prop :=
| step_run pool taskId runId starts :
    (healthy = true -> starts = true) ->
    pool_step eligible healthy pool (run eligible starts pool taskId runId).1
| step_settle pool runId : pool_step eligible healthy pool (settle pool runId)
| step_cancel pool runId : pool_step eligible healthy pool (cancel pool runId).1.

(* ------------------------------------------------------------------ *)
(** ** Lemmas *)

Lemma lookup_mark f ps l i :
  mark f ps l !! i = (fun s => if mem i ps then f s else s) <$> l !! i.
Proof. unfold mark. apply list_lookup_imap. Qed.

Lemma length_mark f ps l : length (mark f ps l) = length l.
Proof. apply length_imap. Qed.

Lemma mark_nil f ps l : mark f ps l = [] -> l = [].
Proof. intros E. apply (f_equal length) in E. rewrite length_mark in E. by destruct l. Qed.

Lemma find_index_Some {A} (p : A -> bool) l i :
  find_index p l = Some i -> exists x, l !! i = Some x /\ p x = true.
Proof.
  revert i; induction l as [|y l IH]; intros i; simpl; [done|].
  destruct (p y) eqn:E; [intros [= <-]; by exists y|].
  destruct (find_index p l) as [j|]; simpl; [|done]. intros [= <-]. by apply IH.
Qed.

Lemma acquire_idle eligible pool acquired :
  acquireSlots eligible pool = Ok acquired ->
  forall i, i ∈ acquired -> exists s, slots pool !! i = Some s /\ slot_state s = idle.
Proof.
  unfold acquireSlots. destruct eligible; simpl.
  - destruct (find_index is_idle (slots pool)) as [j|] eqn:E; [|done]. intros [= <-] i ->%list_elem_of_singleton.
    apply find_index_Some in E as (s & ? & Hs). exists s. unfold is_idle in Hs. by bool_hyps.
  - destruct (existsb _ _) eqn:E; [done|]. intros [= <-] i [Hi1 Hi2]%elem_of_seq.
    destruct (lookup_lt_is_Some_2 (slots pool) i) as [s Hs]; [lia|]. exists s. split; [done|].
    apply not_true_iff_false in E. destruct (decide (slot_state s = idle)) as [|Hn]; [done|]. destruct E.
    apply existsb_Exists. exists s. split; [by eapply list_elem_of_lookup_2|].
    unfold is_idle. by rewrite bool_decide_false.
Qed.

(** ** The invariant of a pool whose adapters start *)

(** Slot [i] belongs to the active run of its [run_id], and to no other. *)
Record pool_ok (eligible : bool) (pool : Pool) : Prop := {
  pk_owned : forall i s, slots pool !! i = Some s -> slot_state s <> idle ->
    exists r a, activeRuns pool !! r = Some a /\ i ∈ act_slots a /\ slot_run s = Some r /\ slot_task s = Some (act_task a);
  pk_busy : forall r a i, activeRuns pool !! r = Some a -> i ∈ act_slots a ->
    exists s, slots pool !! i = Some s /\ slot_state s <> idle /\ slot_run s = Some r;
  pk_nonempty : forall r a, activeRuns pool !! r = Some a -> act_slots a <> [];
  pk_known : forall r, is_Some (activeRuns pool !! r) -> r ∈ knownRunIds pool;
  pk_whole : eligible = false -> forall r a, activeRuns pool !! r = Some a -> act_slots a = seq 0 (length (slots pool));
  pk_slots : slots pool <> []
}.

Lemma pool_ok_start eligible capacity pool :
  createLocalAgentPool capacity = Ok pool -> pool_ok eligible pool.
Proof.
  destruct capacity as [c|]; simpl; [|done]. destruct (Z.ltb_spec c 1); [done|]. intros [= <-]. split; simpl.
  - intros i s (k & -> & _)%list_lookup_fmap_Some_1 Hs. by destruct Hs.
  - intros r a i. by rewrite lookup_empty.
  - intros r a. by rewrite lookup_empty.
  - intros r. rewrite lookup_empty. by intros [].
  - intros _ r a. by rewrite lookup_empty.
  - intros E. apply (f_equal length) in E. rewrite length_map, length_seq in E. simpl in E. lia.
Qed.

Section steps.
Variables (eligible : bool) (pool : Pool).
Hypothesis ok : pool_ok eligible pool.

(** A position belongs to one run. *)
Lemma owner_unique r r' a a' i :
  activeRuns pool !! r = Some a -> activeRuns pool !! r' = Some a' -> i ∈ act_slots a -> i ∈ act_slots a' -> r = r'.
Proof.
  intros H1 H2 Hi Hi'. destruct (pk_busy _ _ ok r a i H1 Hi) as (s & E & _ & Hr).
  destruct (pk_busy _ _ ok r' a' i H2 Hi') as (s' & E' & _ & Hr'). congruence.
Qed.

Lemma acquired_nonempty acquired : acquireSlots eligible pool = Ok acquired -> acquired <> [].
Proof.
  unfold acquireSlots. pose proof (pk_slots _ _ ok). destruct eligible; simpl.
  - destruct (find_index _ _); [by intros [= <-]|done].
  - destruct (existsb _ _); [done|]. intros [= <-]. by destruct (slots pool).
Qed.

Lemma run_ok taskId runId : pool_ok eligible (run eligible true pool taskId runId).1.
Proof.
  unfold run. destruct (mem runId (knownRunIds pool)) eqn:Ek; [done|]. apply mem_false in Ek.
  destruct (acquireSlots eligible pool) as [acquired|] eqn:Ea; [|done]. simpl.
  pose proof (acquire_idle _ _ _ Ea) as Hidle.
  assert (activeRuns pool !! runId = None) as Hfresh.
  { destruct (activeRuns pool !! runId) as [a|] eqn:E; [|done]. destruct Ek. by apply (pk_known _ _ ok), (mk_is_Some _ a). }
  split; simpl.
  - intros i s. rewrite lookup_mark. destruct (slots pool !! i) as [s0|] eqn:E; [|done]. simpl. intros [= <-].
    destruct (mem i acquired) eqn:Hm; intros Hs.
    + apply mem_spec in Hm. exists runId, (Active taskId acquired). by rewrite lookup_insert_eq.
    + destruct (pk_owned _ _ ok i s0 E Hs) as (r & a & Hr & ?). exists r, a.
      rewrite lookup_insert_ne by congruence. done.
  - intros r a i. rewrite lookup_insert, lookup_mark. case_decide as Hr.
    + intros [= <-] Hi. simpl in Hi. destruct (Hidle i Hi) as (s & -> & _). simpl.
      rewrite (proj2 (mem_spec i acquired) Hi). eexists. split; [done|]. by subst.
    + intros Ha Hi. destruct (pk_busy _ _ ok r a i Ha Hi) as (s & E & Hs & Hr'). rewrite E. simpl.
      destruct (mem i acquired) eqn:Hm; [|by exists s]. apply mem_spec in Hm.
      destruct (Hidle i Hm) as (s' & E' & ?). congruence.
  - intros r a. rewrite lookup_insert. case_decide; [intros [= <-]; by apply acquired_nonempty|apply (pk_nonempty _ _ ok)].
  - intros r. rewrite lookup_insert. case_decide; [subst; left|right; by apply (pk_known _ _ ok)].
  - intros He r a. rewrite lookup_insert, length_mark. case_decide; [|by apply (pk_whole _ _ ok)].
    intros [= <-]. simpl. unfold acquireSlots in Ea. rewrite He in Ea. simpl in Ea. destruct (existsb _ _); [done|].
    by injection Ea.
  - intros E%mark_nil. by apply (pk_slots _ _ ok).
Qed.

Lemma settle_ok runId : pool_ok eligible (settle pool runId).
Proof.
  unfold settle. destruct (activeRuns pool !! runId) as [active|] eqn:Ea; [|done]. split; simpl.
  - intros i s. rewrite lookup_mark. destruct (slots pool !! i) as [s0|] eqn:E; [|done]. simpl. intros [= <-].
    destruct (mem i (act_slots active)) eqn:Hm; [done|]. apply mem_false in Hm. intros Hs.
    destruct (pk_owned _ _ ok i s0 E Hs) as (r & a & Hr & Hi & ?). exists r, a.
    rewrite lookup_delete_ne by (intros ->; congruence). done.
  - intros r a i. rewrite lookup_delete_Some, lookup_mark. intros [Hr Ha] Hi.
    destruct (pk_busy _ _ ok r a i Ha Hi) as (s & E & Hs). rewrite E. simpl. exists s.
    destruct (mem i (act_slots active)) eqn:Hm; [|done]. apply mem_spec in Hm.
    by destruct (Hr (owner_unique runId r active a i Ea Ha Hm Hi)).
  - intros r a [_ Ha]%lookup_delete_Some. by eapply (pk_nonempty _ _ ok).
  - intros r [a [_ Ha]%lookup_delete_Some]. by apply (pk_known _ _ ok), (mk_is_Some _ a).
  - intros He r a [_ Ha]%lookup_delete_Some. rewrite length_mark. by apply (pk_whole _ _ ok He r).
  - intros E%mark_nil. by apply (pk_slots _ _ ok).
Qed.

Lemma cancel_ok runId : pool_ok eligible (cancel pool runId).1.
Proof.
  unfold cancel. destruct (activeRuns pool !! runId) as [active|] eqn:Ea; [|done]. simpl. split; simpl.
  - intros i s. rewrite lookup_mark. destruct (slots pool !! i) as [s0|] eqn:E; [|done]. simpl. intros [= <-].
    destruct (mem i (act_slots active)) eqn:Hm; [|by apply (pk_owned _ _ ok)]. apply mem_spec in Hm. intros _.
    destruct (pk_busy _ _ ok runId active i Ea Hm) as (s & E' & Hs & _).
    assert (s0 = s) as -> by congruence. exact (pk_owned _ _ ok i s E' Hs).
  - intros r a i Ha Hi. rewrite lookup_mark. destruct (pk_busy _ _ ok r a i Ha Hi) as (s & -> & Hs & Hr). simpl.
    destruct (mem i (act_slots active)); eexists; (split; [done|]); by split.
  - apply (pk_nonempty _ _ ok).
  - apply (pk_known _ _ ok).
  - intros He r a Ha. rewrite length_mark. by apply (pk_whole _ _ ok He r).
  - intros E%mark_nil. by apply (pk_slots _ _ ok).
Qed.
End steps.

Lemma reachable_pool_ok eligible capacity pool pool' :
  createLocalAgentPool capacity = Ok pool -> rtc (pool_step eligible true) pool pool' -> pool_ok eligible pool'.
Proof.
  intros Hp%(pool_ok_start eligible) Hr. induction Hr as [|x y z Hxy _ IH]; [done|]. apply IH.
  destruct Hxy as [p t r [|] Hs|p r|p r]; [by apply run_ok|by specialize (Hs eq_refl)|by apply settle_ok|by apply cancel_ok].
Qed.

Lemma step_length eligible healthy pool pool' :
  pool_step eligible healthy pool pool' -> length (slots pool') = length (slots pool).
Proof.
  intros [p t r starts _|p r|p r]; [unfold run|unfold settle|unfold cancel]; repeat case_match; simpl;
    by rewrite ?length_mark.
Qed.

Lemma reachable_length eligible healthy pool pool' :
  rtc (pool_step eligible healthy) pool pool' -> length (slots pool') = length (slots pool).
Proof. induction 1 as [|x y z Hxy _ IH]; [done|]. rewrite IH. by eapply step_length. Qed.

(** Each active run holds a slot of its own. *)
Lemma runs_fit eligible pool : pool_ok eligible pool -> (size (activeRuns pool) <= length (slots pool))%nat.
Proof.
  intros ok. set (first := fun e : string * ActiveRun => hd 0 (act_slots e.2)).
  assert (forall r a, activeRuns pool !! r = Some a -> hd 0 (act_slots a) ∈ act_slots a) as Hhd.
  { intros r a Ha. pose proof (pk_nonempty _ _ ok r a Ha). destruct (act_slots a); [done|left]. }
  rewrite <- length_map_to_list, <- (length_map first), <- (length_seq (length (slots pool)) 0).
  apply submseteq_length, NoDup_submseteq.
  - apply NoDup_fmap_2_strong; [|apply NoDup_map_to_list].
    intros [r a] [r' a'] Ha%elem_of_map_to_list Ha'%elem_of_map_to_list E. unfold first in E; simpl in E.
    assert (r = r') as ->; [|by simplify_eq].
    apply (owner_unique eligible pool ok r r' a a' (hd 0 (act_slots a)) Ha Ha'); [by eapply Hhd|].
    rewrite E. by eapply Hhd.
  - intros i ([r a] & -> & Ha%elem_of_map_to_list)%list_elem_of_fmap. apply elem_of_seq. simpl.
    destruct (pk_busy _ _ ok r a _ Ha (Hhd r a Ha)) as (s & Hs & _). apply lookup_lt_Some in Hs. unfold first; simpl. lia.
Qed.

(** A slot no run owns and no step gives back. *)
Definition leaked (i : nat) (pool : Pool) : Prop :=
  (exists s, slots pool !! i = Some s /\ slot_state s <> idle) /\
  forall r a, activeRuns pool !! r = Some a -> i ∉ act_slots a.

Lemma leaked_mark i f ps pool :
  (exists s, slots pool !! i = Some s /\ slot_state s <> idle) -> i ∉ ps ->
  exists s, mark f ps (slots pool) !! i = Some s /\ slot_state s <> idle.
Proof.
  intros (s & E & Hs) Hi%mem_false. exists s. by rewrite lookup_mark, E; simpl; rewrite Hi.
Qed.

Lemma leaked_step eligible i pool pool' :
  pool_step eligible false pool pool' -> leaked i pool -> leaked i pool'.
Proof.
  intros Hst [Hb Hf]. destruct Hst as [p t r starts _|p r|p r].
  - unfold run. destruct (mem r (knownRunIds p)); [done|].
    destruct (acquireSlots eligible p) as [acquired|] eqn:Ea; [|done].
    assert (i ∉ acquired) as Hi.
    { intros Hi. destruct (acquire_idle _ _ _ Ea i Hi) as (s & E & Hs). destruct Hb as (s' & E' & Hs'). congruence. }
    destruct starts; (split; [by apply leaked_mark|]); simpl; [|done].
    intros r' a. rewrite lookup_insert. case_decide; [by intros [= <-]|apply Hf].
  - unfold settle. destruct (activeRuns p !! r) as [a|] eqn:Ea; [|done]. split; [apply leaked_mark; eauto|].
    simpl. intros r' a' [_ Ha']%lookup_delete_Some. eauto.
  - unfold cancel. destruct (activeRuns p !! r) as [a|] eqn:Ea; [|done]. split; [apply leaked_mark; eauto|done].
Qed.

Lemma known_step eligible healthy r pool pool' :
  pool_step eligible healthy pool pool' -> r ∈ knownRunIds pool -> r ∈ knownRunIds pool'.
Proof.
  intros [p t r' starts _|p r'|p r'] Hr; [unfold run|unfold settle|unfold cancel]; repeat case_match; simpl;
    try done; by right.
Qed.

Lemma known_reachable eligible healthy r pool pool' :
  rtc (pool_step eligible healthy) pool pool' -> r ∈ knownRunIds pool -> r ∈ knownRunIds pool'.
Proof. induction 1 as [|x y z Hxy _ IH]; [done|]. intros Hr. by eapply IH, known_step. Qed.

(* ------------------------------------------------------------------ *)
(** ** Properties *)

(** However runs start, settle and are cancelled, there are never more runs
    in flight than slots, one at most for an ineligible adapter, and a slot
    is taken exactly while the run it names is in flight. *)
Theorem pool_slot_ownership eligible capacity pool pool' :
  createLocalAgentPool capacity = Ok pool -> rtc (pool_step eligible true) pool pool' ->
  capacity = JInt (Z.of_nat (length (slots pool'))) /\
  (size (activeRuns pool') <= length (slots pool'))%nat /\
  (eligible = false -> size (activeRuns pool') <= 1)%nat /\
  (forall i s, slots pool' !! i = Some s ->
     slot_state s <> idle <-> exists r a, activeRuns pool' !! r = Some a /\ i ∈ act_slots a /\ slot_run s = Some r) /\
  (activeRuns pool' = ∅ -> Forall (fun s => slot_state s = idle) (slots pool')).
Proof.
  intros Hc Hr. pose proof (reachable_pool_ok _ _ _ _ Hc Hr) as ok. pose proof (reachable_length _ _ _ _ Hr) as Hlen.
  split; [|split; [by eapply runs_fit|split; [|split]]].
  - destruct capacity as [c|]; simpl in Hc; [|done]. destruct (Z.ltb_spec c 1); [done|]. injection Hc as <-.
    simpl in Hlen. rewrite length_map, length_seq in Hlen. rewrite Hlen. f_equal. lia.
  - intros He. destruct (decide (size (activeRuns pool') <= 1)%nat) as [|Hn]; [done|exfalso].
    pose proof (pk_slots _ _ ok) as Hs. destruct (slots pool') as [|s l] eqn:Esl; [done|].
    assert (forall r a, activeRuns pool' !! r = Some a -> 0%nat ∈ act_slots a) as H0.
    { intros r a Ha. rewrite (pk_whole _ _ ok He r a Ha), Esl. apply elem_of_seq. simpl. lia. }
    apply Hn. rewrite <- length_map_to_list, <- (length_map fst).
    assert (forall r r', r ∈ map fst (map_to_list (activeRuns pool')) ->
      r' ∈ map fst (map_to_list (activeRuns pool')) -> r = r') as Heq.
    { intros r r' ([k a] & -> & Ha%elem_of_map_to_list)%list_elem_of_fmap ([k' a'] & -> & Ha'%elem_of_map_to_list)%list_elem_of_fmap.
      simpl. eapply (owner_unique eligible pool' ok _ _ a a' 0); eauto. }
    pose proof (NoDup_fst_map_to_list (activeRuns pool')) as Hnd. change (map fst ?l) with (l.*1) in *.
    destruct ((map_to_list (activeRuns pool')).*1) as [|r [|r' k]]; simpl; try lia.
    apply NoDup_cons in Hnd as [Hr' _]. destruct Hr'. rewrite (Heq r r') by (left || (right; left)). left.
  - intros i s Hi. split.
    + intros Hs. destruct (pk_owned _ _ ok i s Hi Hs) as (r & a & ? & ? & ? & _). eauto.
    + intros (r & a & Ha & Hin & _). destruct (pk_busy _ _ ok r a i Ha Hin) as (s' & E & Hs & _). congruence.
  - intros He. apply Forall_lookup. intros i s Hi. destruct (decide (slot_state s = idle)) as [|Hs]; [done|].
    destruct (pk_owned _ _ ok i s Hi Hs) as (r & a & Ha & _). by rewrite He, lookup_empty in Ha.
Qed.

(** A run identity is used once: after an accepted or failed start, a run
    under the same identity is refused for good and changes nothing. *)
Theorem run_identity_is_fresh eligible healthy starts starts' pool pool' taskId taskId' runId acquired :
  acquireSlots eligible pool = Ok acquired -> (runId ∉ knownRunIds pool) ->
  rtc (pool_step eligible healthy) (run eligible starts pool taskId runId).1 pool' ->
  run eligible starts' pool' taskId' runId = (pool', Err (AgentPoolError duplicate_run)).
Proof.
  intros Ha Hk%mem_false Hr. assert (runId ∈ knownRunIds pool') as Hin%mem_spec.
  { eapply known_reachable; [exact Hr|]. unfold run. rewrite Hk, Ha. destruct starts; left. }
  unfold run. by rewrite Hin.
Qed.

(** A start that throws after the slots are taken loses them: whatever
    happens afterwards, the slots stay occupied, though no run is in flight
    on them. *)
Theorem failed_start_leaks_slots eligible capacity pool0 pool pool' taskId runId acquired i :
  createLocalAgentPool capacity = Ok pool0 -> rtc (pool_step eligible true) pool0 pool ->
  acquireSlots eligible pool = Ok acquired -> i ∈ acquired -> (runId ∉ knownRunIds pool) ->
  rtc (pool_step eligible false) (run eligible false pool taskId runId).1 pool' ->
  (run eligible false pool taskId runId).2 = Err AdapterError /\
  (exists s, slots pool' !! i = Some s /\ slot_state s <> idle) /\
  forall r a, activeRuns pool' !! r = Some a -> i ∉ act_slots a.
Proof.
  intros Hc Hr0 Ha Hi Hk%mem_false Hr. pose proof (reachable_pool_ok _ _ _ _ Hc Hr0) as ok.
  destruct (acquire_idle _ _ _ Ha i Hi) as (s & Es & His).
  assert (leaked i (run eligible false pool taskId runId).1 /\
          (run eligible false pool taskId runId).2 = Err AdapterError) as [Hl ->].
  { unfold run. rewrite Hk, Ha. split; [|done]. split; simpl.
    - exists (occupy taskId runId s). by rewrite lookup_mark, Es; simpl; rewrite (proj2 (mem_spec i acquired) Hi).
    - intros r a Hra Hin. destruct (pk_busy _ _ ok r a i Hra Hin) as (s' & Es' & Hs' & _). congruence. }
  split; [done|]. clear -Hl Hr. induction Hr as [|x y z Hxy _ IH]; [exact Hl|]. by eapply IH, leaked_step.
Qed.

(* ------------------------------------------------------------------ *)
(** ** Witnesses *)

#[local] Definition pool_2 : Pool := MkPool [idle_slot "slot_1"; idle_slot "slot_2"] ∅ [].
Lemma pool_2_Ok : createLocalAgentPool (JInt 2) = Ok pool_2.
Proof. vm_compute. reflexivity. Qed.

Lemma pool_slot_ownership_witness :
  (size (activeRuns (run true true pool_2 "task_a" "run_1").1) <= 2)%nat.
Proof.
  destruct (pool_slot_ownership true (JInt 2) pool_2 (run true true pool_2 "task_a" "run_1").1 pool_2_Ok)
    as (_ & Hs & _); [|exact Hs].
  apply rtc_once. by apply step_run.
Defined.

Lemma run_identity_is_fresh_witness :
  (run true true (settle (run true true pool_2 "task_a" "run_1").1 "run_1") "task_b" "run_1").2 =
    Err (AgentPoolError duplicate_run).
Proof.
  rewrite (run_identity_is_fresh true true true true pool_2 _ "task_a" "task_b" "run_1" [0%nat]).
  - reflexivity.
  - reflexivity.
  - apply not_elem_of_nil.
  - apply rtc_once, step_settle.
Defined.

Lemma failed_start_leaks_slots_witness :
  exists s, slots (run true true (run true false pool_2 "task_a" "run_1").1 "task_a" "run_2").1 !! 0%nat = Some s /\
    slot_state s <> idle.
Proof.
  apply (failed_start_leaks_slots true (JInt 2) pool_2 pool_2 _ "task_a" "run_1" [0%nat] 0 pool_2_Ok).
  - apply rtc_refl.
  - reflexivity.
  - left.
  - apply not_elem_of_nil.
  - apply rtc_once. by apply step_run.
Defined.
