(* ===== verification/Capability.v ===== *)
(** * Capability modules and their dependency closure

    [packages/core/src/capability/registry.ts]: the built-in module
    definitions of the two registry versions, the lookups, and the depth-first
    closure over the module dependencies. Capability ids and binding kinds are
    the strings the records carry. *)

From S2P Require Import Prelude Json.

Abbreviation CapabilityId := string (only parsing).
Abbreviation BindingKind := string (only parsing).

Definition BINDING_KINDS : list BindingKind :=
  ["audit_report"; "context_bundle"; "design_set"; "evaluation_report"; "execution_plan";
   "gate_evidence"; "impact_set"; "requirement_baseline"; "snapshot"; "tdd_contract"].
Definition BINDING_KINDS_1_3 : list BindingKind := BINDING_KINDS ++ ["wave_integration"].

Definition CAPABILITY_IDS : list CapabilityId :=
  ["impact_analysis"; "design_governance"; "independent_evaluation"; "strict_tdd"; "advanced_audit"].
Definition CAPABILITY_IDS_1_3 : list CapabilityId := CAPABILITY_IDS ++ ["parallel_task_execution"].

(** The definition without its digest, which is a function of the rest. *)
Record CapabilityModuleDefinition : Type := ModuleDefinition
  { capability_id : CapabilityId;
    md_version : string;
    md_depends_on : list CapabilityId;
    required_providers : list string;
    input_bindings : list BindingKind;
    output_bindings : list BindingKind;
    checkpoint_boundary : string;
    invalidated_by : list BindingKind;
    approval_objects : list string }.

Inductive registry_error : Type :=
| unsupported_protocol | unknown_capability | capability_cycle | out_of_fuel.

Definition CAPABILITY_MODULE_DEFINITIONS : list CapabilityModuleDefinition :=
  [ModuleDefinition "impact_analysis" "1.1.0" [] [] ["requirement_baseline"] ["impact_set"] "impact"
     ["requirement_baseline"] ["impact_set"];
   ModuleDefinition "design_governance" "1.1.0" ["impact_analysis"] [] ["impact_set"] ["design_set"] "design"
     ["impact_set"] ["design_set"];
   ModuleDefinition "independent_evaluation" "1.1.0" [] [] ["gate_evidence"] ["evaluation_report"] "evaluate"
     ["gate_evidence"] [];
   ModuleDefinition "strict_tdd" "1.1.0" ["design_governance"]
     ["isolated_workspace_provider"; "structured_gate_provider"] ["design_set"] ["tdd_contract"] "execute"
     ["design_set"] [];
   ModuleDefinition "advanced_audit" "1.1.0" [] [] ["snapshot"] ["audit_report"] "audit" ["snapshot"] []].

Definition PARALLEL_TASK_EXECUTION_MODULE : CapabilityModuleDefinition :=
  ModuleDefinition "parallel_task_execution" "1.3.0" []
    ["isolated_workspace_provider"; "structured_gate_provider"] ["execution_plan"; "context_bundle"]
    ["wave_integration"] "execute" ["execution_plan"; "context_bundle"] [].

Definition CAPABILITY_MODULE_DEFINITIONS_1_3 : list CapabilityModuleDefinition :=
  CAPABILITY_MODULE_DEFINITIONS ++ [PARALLEL_TASK_EXECUTION_MODULE].

Definition capabilityModuleDefinitionsForProtocol (protocolVersion : string) :
  result registry_error (list CapabilityModuleDefinition) :=
  if mem protocolVersion ["1.0.0"; PROTOCOL_1_1_VERSION; "1.2.0"] then Ok CAPABILITY_MODULE_DEFINITIONS
  else if decide (protocolVersion = PROTOCOL_1_3_VERSION) then Ok CAPABILITY_MODULE_DEFINITIONS_1_3
  else Err unsupported_protocol.

Definition capabilityModuleDefinition (capabilityId protocolVersion : string) :
  result registry_error CapabilityModuleDefinition :=
  definitions ← capabilityModuleDefinitionsForProtocol protocolVersion;
  match find_first (fun m => bool_decide (capability_id m = capabilityId)) definitions with
  | Some m => Ok m
  | None => Err unknown_capability
  end.

Definition registeredCapabilityIds (protocolVersion : string) : result registry_error (list CapabilityId) :=
  _ ← capabilityModuleDefinitionsForProtocol protocolVersion;
  Ok (sort_strings (if decide (protocolVersion = PROTOCOL_1_3_VERSION) then CAPABILITY_IDS_1_3
                    else CAPABILITY_IDS)).

(** [new Map(definitions.map((module) => [module.capability_id, module]))]: the
    last definition of an id stays. *)
Definition module_map (definitions : list CapabilityModuleDefinition) :
  gmap CapabilityId CapabilityModuleDefinition :=
  foldl (fun m d => <[capability_id d := d]> m) ∅ definitions.

(** The sets of [visit] in insertion order. *)
Record VisitState : Type := Visit { closed : list CapabilityId; inProgress : list CapabilityId }.

Fixpoint visit (fuel : nat) (modules : gmap CapabilityId CapabilityModuleDefinition) (st : VisitState)
    (capabilityId : CapabilityId) : result registry_error VisitState :=
  match fuel with
  | 0 => Err out_of_fuel
  | S fuel' =>
      if mem capabilityId (closed st) then Ok st
      else if mem capabilityId (inProgress st) then Err capability_cycle
      else
        let entered := Visit (closed st) (capabilityId :: inProgress st) in
        match modules !! capabilityId with
        | None => Err unknown_capability
        | Some module =>
            st' ← foldM (visit fuel' modules) entered (md_depends_on module);
            Ok (Visit (closed st' ++ [capabilityId])
                      (filter (fun c => c <> capabilityId) (inProgress st')))
        end
  end.

(** A module per level of the recursion, and one call more that finds the
    module in progress. *)
Definition visit_fuel (modules : gmap CapabilityId CapabilityModuleDefinition) : nat := S (size modules).

Definition check_known (modules : gmap CapabilityId CapabilityModuleDefinition)
    (definitions : list CapabilityModuleDefinition) (requested : list CapabilityId) :
  result registry_error unit :=
  _ ← forM_ (fun m => forM_ (fun d =>
         reject_if (bool_decide (modules !! d = None)) unknown_capability) (md_depends_on m)) definitions;
  forM_ (fun c => reject_if (bool_decide (modules !! c = None)) unknown_capability) requested.

Definition dependencyClosure (definitions : list CapabilityModuleDefinition) (requested : list CapabilityId) :
  result registry_error (list CapabilityId) :=
  let modules := module_map definitions in
  _ ← check_known modules definitions requested;
  st ← foldM (visit (visit_fuel modules) modules) (Visit [] []) requested;
  Ok (sort_strings (closed st)).

Definition capabilityDependencyClosure (requested : list CapabilityId) (protocolVersion : string) :
  result registry_error (list CapabilityId) :=
  definitions ← capabilityModuleDefinitionsForProtocol protocolVersion;
  dependencyClosure definitions requested.

Example closure_tdd : capabilityDependencyClosure ["strict_tdd"] "1.1.0" =
  Ok ["design_governance"; "impact_analysis"; "strict_tdd"].
Proof. vm_compute. reflexivity. Qed.

(* ------------------------------------------------------------------ *)
(** ** The depth-first closure *)

Lemma module_map_elem definitions c m : module_map definitions !! c = Some m -> m ∈ definitions.
Proof.
  unfold module_map. induction definitions as [|d l IH] using rev_ind; [done|].
  rewrite foldl_app, elem_of_app, list_elem_of_singleton. simpl. rewrite lookup_insert.
  case_decide; [intros [= ->]; by right|]. intros Hc. left. by apply IH.
Qed.

Section closure.
Variable modules : gmap CapabilityId CapabilityModuleDefinition.

(** One edge of the dependency graph. *)
Definition depends (c d : CapabilityId) : Prop :=
  exists m, modules !! c = Some m /\ d ∈ md_depends_on m.

(** Every entry of the list is a module and comes after its dependencies. *)
Definition after_dependencies (l : list CapabilityId) : Prop :=
  forall pre c post, l = pre ++ c :: post -> is_Some (modules !! c) /\ forall d, depends c d -> d ∈ pre.

Record visit_ok (st : VisitState) : Prop := {
  vo_closed : NoDup (closed st);
  vo_order : after_dependencies (closed st);
  vo_progress : NoDup (inProgress st);
  vo_known : forall c, c ∈ inProgress st -> is_Some (modules !! c);
  vo_disjoint : forall c, c ∈ closed st -> c ∉ inProgress st
}.

(** What visiting the capabilities of [ds] does, or why it throws. *)
Definition visited (ds : list CapabilityId) (st : VisitState) (r : result registry_error VisitState) : Prop :=
  match r with
  | Ok st' =>
      visit_ok st' /\ inProgress st' = inProgress st /\ ds ⊆ closed st' /\
      exists new, closed st' = closed st ++ new /\
        forall x, x ∈ new -> exists d, d ∈ ds /\ rtc depends d x
  | Err e => e = capability_cycle /\ exists d x, d ∈ ds /\ rtc depends d x /\ tc depends x x
  end.

Hypothesis closed_graph : forall c d, depends c d -> is_Some (modules !! d).

Lemma after_dependencies_snoc l c :
  after_dependencies l -> is_Some (modules !! c) -> (forall d, depends c d -> d ∈ l) ->
  after_dependencies (l ++ [c]).
Proof.
  intros Hl Hc Hd pre x post E. destruct post as [|y post _] using rev_ind.
  - by apply app_inj_tail in E as [<- <-].
  - rewrite app_comm_cons, app_assoc in E. apply app_inj_tail in E as [E _]. by apply (Hl pre x post).
Qed.

Lemma progress_bound st : visit_ok st -> (length (inProgress st) <= size modules)%nat.
Proof.
  intros [_ _ Hn Hk _]. rewrite <- size_dom. rewrite <- (size_list_to_set (C:=gset string)) by done.
  apply subseteq_size. intros c Hc%elem_of_list_to_set. by apply elem_of_dom, Hk.
Qed.

Lemma visited_cons d ds st r k :
  visited [d] st r -> (forall st', r = Ok st' -> visited ds st' (k st')) ->
  visited (d :: ds) st (st' ← r; k st').
Proof.
  destruct r as [st1|e]; simpl.
  - intros (Ho1 & Hp1 & Hd1 & new1 & En1 & Hn1) Hk. specialize (Hk st1 eq_refl).
    unfold visited in *. destruct (k st1) as [st2|e].
    + destruct Hk as (Ho & Hp & Hd & new & En & Hn). split; [done|]. split; [congruence|]. split.
      * intros x [->|Hx]%elem_of_cons; [|by apply Hd]. rewrite En. apply elem_of_app. left. apply Hd1. left.
      * exists (new1 ++ new). rewrite En, En1, app_assoc. split; [done|].
        intros x [(d' & ->%list_elem_of_singleton & Hx)%Hn1|(d' & Hd' & Hx)%Hn]%elem_of_app;
          eexists; (split; [|exact Hx]); [left|by right].
    + destruct Hk as (-> & d' & x & Hd' & Hx). split; [done|]. exists d', x. split; [by right|done].
  - intros (-> & d' & x & ->%list_elem_of_singleton & Hx) _. split; [done|]. exists d, x. split; [left|done].
Qed.

Lemma fold_visited (P : CapabilityId -> Prop) f path :
  (forall st d, visit_ok st -> inProgress st = path -> P d -> visited [d] st (f st d)) ->
  forall ds st, visit_ok st -> inProgress st = path -> (forall d, d ∈ ds -> P d) ->
    visited ds st (foldM f st ds).
Proof.
  intros Hf. induction ds as [|d ds IH]; intros st Hst Hp Hds; simpl.
  - split; [done|]. split; [done|]. split; [by intros x ?%not_elem_of_nil|]. exists [].
    rewrite app_nil_r. split; [done|]. by intros x ?%not_elem_of_nil.
  - assert (visited [d] st (f st d)) as Hv by (apply Hf; [done..|]; apply Hds; left).
    apply visited_cons; [done|]. intros st' E. rewrite E in Hv. destruct Hv as (Ho & Hp' & _).
    apply IH; [done|congruence|]. intros. apply Hds. by right.
Qed.

Lemma visit_spec fuel : forall st c,
  visit_ok st -> is_Some (modules !! c) -> (size modules < fuel + length (inProgress st))%nat ->
  (forall p, p ∈ inProgress st -> tc depends p c) ->
  visited [c] st (visit fuel modules st c).
Proof.
  induction fuel as [|fuel IH]; intros st c Hst Hc Hf Hp.
  { pose proof (progress_bound st Hst). lia. }
  simpl. destruct (mem c (closed st)) eqn:Ec; [apply mem_spec in Ec|apply mem_false in Ec].
  { split; [done|]. split; [done|]. split; [by intros x ->%list_elem_of_singleton|].
    exists []. rewrite app_nil_r. split; [done|]. by intros x ?%not_elem_of_nil. }
  destruct (mem c (inProgress st)) eqn:Ep; [apply mem_spec in Ep|apply mem_false in Ep].
  { split; [done|]. exists c, c. split; [left|]. split; [done|]. by apply Hp. }
  pose proof Hc as [m Hm]. rewrite Hm. destruct Hst as [Hn Ho Hpn Hpk Hd].
  assert (visited (md_depends_on m) (Visit (closed st) (c :: inProgress st))
    (foldM (visit fuel modules) (Visit (closed st) (c :: inProgress st)) (md_depends_on m))) as Hv.
  { apply (fold_visited (depends c) _ (c :: inProgress st)); [|split|done|intros d Hdm; by exists m]; simpl.
    - intros st1 d Hst1 Hp1 Hcd. apply IH; [done|by eapply closed_graph|rewrite Hp1; simpl; lia|].
      rewrite Hp1. intros p [->|Hin]%elem_of_cons; [by apply tc_once|]. eapply tc_r; eauto.
    - done.
    - done.
    - by constructor.
    - intros x [->|Hx]%elem_of_cons; auto.
    - intros x Hx [->|Hin]%elem_of_cons; [done|]. by apply (Hd x). }
  destruct (foldM _ _ _) as [st'|e]; simpl in *.
  - destruct Hv as ([Hn' Ho' _ _ Hd'] & Hp' & Hds & new & En & Hnew).
    assert (filter (fun x => x <> c) (inProgress st') = inProgress st) as ->.
    { rewrite Hp', filter_cons, decide_False by (by intros []). apply list_filter_all.
      intros x Hx ->. done. }
    assert (c ∉ closed st') as Hcn.
    { intros Hin. apply (Hd' c Hin). rewrite Hp'. left. }
    split; [split; simpl|split; [done|split]]; simpl.
    + apply NoDup_app. split; [done|]. split; [|apply NoDup_singleton].
      by intros x Hx ->%list_elem_of_singleton.
    + apply after_dependencies_snoc; [done..|]. intros d (m' & Hm' & Hdm). apply Hds. congruence.
    + done.
    + done.
    + intros x [Hx| ->%list_elem_of_singleton]%elem_of_app; [|done].
      intros Hin. apply (Hd' x Hx). rewrite Hp'. by right.
    + intros x ->%list_elem_of_singleton. simpl. apply elem_of_app. right. left.
    + exists (new ++ [c]). simpl. rewrite En, app_assoc. split; [done|].
      intros x [(d & Hdm & Hx)%Hnew| ->%list_elem_of_singleton]%elem_of_app;
        (exists c; split; [left|]); [|done].
      eapply rtc_l; [by exists m|done].
  - destruct Hv as (-> & d & x & Hdm & Hx & Htc). split; [done|]. exists c, x. split; [left|].
    split; [|done]. eapply rtc_l; [by exists m|done].
Qed.

Lemma closure_down l : after_dependencies l -> forall c d, c ∈ l -> rtc depends c d -> d ∈ l.
Proof.
  intros Hl c d Hc Hr. induction Hr as [|c c' d Hcc Hr IH]; [done|]. apply IH.
  apply list_elem_of_split in Hc as (pre & post & ->).
  destruct (Hl pre c post eq_refl) as [_ Hd]. apply elem_of_app. left. by apply Hd.
Qed.

Lemma after_dependencies_acyclic l :
  after_dependencies l -> NoDup l -> forall c, c ∈ l -> ~ tc depends c c.
Proof.
  intros Hl Hn.
  assert (forall pre c post, l = pre ++ c :: post -> forall d, tc depends c d -> d ∈ pre) as Hpre.
  { intros pre c post E d Ht. destruct (Hl pre c post E) as [_ Hd].
    assert (after_dependencies pre) as Hap.
    { intros p x q Eq. apply (Hl p x (q ++ c :: post)). rewrite E, Eq, <- app_assoc. done. }
    inversion Ht; subst; [by apply Hd|]. eapply closure_down; [done| |by apply tc_rtc]. by apply Hd. }
  intros c Hc Ht. apply list_elem_of_split in Hc as (pre & post & E).
  specialize (Hpre pre c post E c Ht). rewrite E in Hn. apply NoDup_app in Hn as (_ & Hdis & _).
  apply (Hdis c Hpre). left.
Qed.
End closure.

Lemma module_map_known definitions c :
  is_Some (module_map definitions !! c) <-> c ∈ map capability_id definitions.
Proof.
  unfold module_map. induction definitions as [|d l IH] using rev_ind.
  - simpl. rewrite lookup_empty, elem_of_nil. split; [by intros []|done].
  - rewrite foldl_app, map_app, elem_of_app, <- IH. simpl. rewrite list_elem_of_singleton, lookup_insert.
    destruct (decide (capability_id d = c)) as [->|Hc]; [split; [by right|by eexists]|].
    split; [by left|]. intros [?| ->]; done.
Qed.

(** Every id a module or the request names is defined. *)
Definition all_known (definitions : list CapabilityModuleDefinition) (requested : list CapabilityId) : Prop :=
  (forall m d, m ∈ definitions -> d ∈ md_depends_on m -> d ∈ map capability_id definitions) /\
  requested ⊆ map capability_id definitions.

Lemma check_known_Ok definitions requested u :
  check_known (module_map definitions) definitions requested = Ok u <-> all_known definitions requested.
Proof.
  assert (forall l, forM_ (fun c => reject_if (bool_decide (module_map definitions !! c = None)) unknown_capability) l
    = Ok tt <-> l ⊆ map capability_id definitions) as Hl.
  { intros l. rewrite forM_Ok, Forall_forall. apply forall_proper. intros c.
    rewrite reject_if_Ok, bool_decide_eq_false, <- module_map_known, <- not_eq_None_Some. done. }
  destruct u. unfold check_known, all_known. rewrite bind_Ok. split.
  - intros ([] & H1 & H2). split; [|by apply Hl]. intros m d Hm Hd. rewrite forM_Ok, Forall_forall in H1.
    by apply (proj1 (Hl _) (H1 m Hm)).
  - intros [H1 H2]. exists tt. split; [|by apply Hl]. rewrite forM_Ok, Forall_forall. intros m Hm.
    apply Hl. intros d Hd. by apply (H1 m).
Qed.

Lemma check_known_Err definitions requested e :
  check_known (module_map definitions) definitions requested = Err e -> e = unknown_capability.
Proof.
  assert (forall A (f : A -> result registry_error unit) l, (forall x e', f x = Err e' -> e' = unknown_capability) ->
    forall e', forM_ f l = Err e' -> e' = unknown_capability) as Hf.
  { intros A f l Hx. induction l as [|x l IH]; intros e' E; simpl in E; [done|].
    destruct (f x) eqn:Ex; simpl in E; [by apply IH|]. simplify_eq. eauto. }
  assert (forall b e', reject_if b unknown_capability = Err e' -> e' = unknown_capability) as Hr.
  { unfold reject_if. intros [] e' E; by simplify_eq. }
  unfold check_known. destruct (forM_ _ definitions) eqn:E1; simpl.
  - apply Hf. intros; by eapply Hr.
  - intros [= <-]. eapply Hf, E1. intros m e'. apply Hf. intros; by eapply Hr.
Qed.

Abbreviation module_depends definitions := (depends (module_map definitions)).

(** The whole closure, by cases of its result. *)
Definition closure_result (definitions : list CapabilityModuleDefinition) (requested : list CapabilityId)
    (r : result registry_error (list CapabilityId)) : Prop :=
  match r with
  | Ok l =>
      all_known definitions requested /\ NoDup l /\ StronglySorted (cmp_le str_cmp) l /\
      (forall x, x ∈ l <-> exists c, c ∈ requested /\ rtc (module_depends definitions) c x) /\
      (forall x, x ∈ l -> ~ tc (module_depends definitions) x x)
  | Err unknown_capability => ~ all_known definitions requested
  | Err capability_cycle =>
      exists c x, c ∈ requested /\ rtc (module_depends definitions) c x /\ tc (module_depends definitions) x x
  | Err _ => False
  end.

Lemma dependencyClosure_result definitions requested :
  closure_result definitions requested (dependencyClosure definitions requested).
Proof.
  unfold dependencyClosure. destruct (check_known _ _ _) as [u|e] eqn:Ek; simpl.
  2: { rewrite (check_known_Err _ _ _ Ek). intros Hk. apply (check_known_Ok _ _ tt) in Hk. congruence. }
  apply check_known_Ok in Ek as Hk. pose proof Hk as [Hdeps Hreq].
  set (modules := module_map definitions) in *.
  assert (forall c d, depends modules c d -> is_Some (modules !! d)) as Hg.
  { intros c d (m & Hm & Hd). apply module_map_known. apply (Hdeps m); [|done]. by eapply module_map_elem. }
  assert (visited modules requested (Visit [] []) (foldM (visit (visit_fuel modules) modules) (Visit [] []) requested)) as Hv.
  { apply (fold_visited modules (fun c => is_Some (modules !! c)) _ []); [|split; simpl|done|].
    - intros st c Hst Hp Hc. apply visit_spec; [done..| |].
      + rewrite Hp. unfold visit_fuel. simpl. lia.
      + rewrite Hp. by intros p ?%not_elem_of_nil.
    - constructor.
    - intros pre c post E. by destruct pre.
    - constructor.
    - by intros c ?%not_elem_of_nil.
    - by intros c ?%not_elem_of_nil.
    - intros c Hc. apply module_map_known. by apply Hreq. }
  destruct (foldM _ _ _) as [st|e]; simpl in *.
  - destruct Hv as ([Hn Ho _ _ _] & _ & Hr & new & En & Hnew). simpl in En.
    split; [done|]. split; [by rewrite sort_strings_Permutation|]. split; [apply sort_strings_sorted|].
    setoid_rewrite elem_of_sort_strings. split.
    + intros x. split; [rewrite En; apply Hnew|]. intros (c & Hc & Hx).
      eapply closure_down; [done| |done]. by apply Hr.
    + by apply after_dependencies_acyclic.
  - destruct Hv as (-> & d & x & Hd & Hx). exists d, x. done.
Qed.

(** ** Properties *)

(** The closure terminates on every module graph, and is exact: on known ids
    it returns, sorted and without repetition, exactly the capabilities the
    request reaches, all free of cycles; it reports an unknown id exactly
    when one is named, and a cycle only when the request reaches one. *)
Theorem dependency_closure_exact definitions requested :
  match dependencyClosure definitions requested with
  | Ok l =>
      all_known definitions requested /\ NoDup l /\ StronglySorted (cmp_le str_cmp) l /\
      (forall x, x ∈ l <-> exists c, c ∈ requested /\ rtc (module_depends definitions) c x) /\
      (forall x, x ∈ l -> ~ tc (module_depends definitions) x x)
  | Err unknown_capability => ~ all_known definitions requested
  | Err capability_cycle =>
      exists c x, c ∈ requested /\ rtc (module_depends definitions) c x /\ tc (module_depends definitions) x x
  | Err _ => False
  end.
Proof. apply dependencyClosure_result. Qed.
