(* ===== verification/OperationDag.v ===== *)
(** * The Operation DAG

    [packages/core/src/capability/dag.ts]: the DAG of an operation built from
    its active capabilities, and the fail-closed structural validation every
    consumer of a DAG runs first. *)

From S2P Require Import Prelude Json Kahn Capability.

Inductive NodeKind : Type := kernel | module_node.
#[export] Instance NodeKind_eq_dec : EqDecision NodeKind.
Proof. solve_decision. Defined.

Record OperationDagNode : Type := Node
  { node_id : string;
    node_kind : NodeKind;
    node_capability : option CapabilityId;
    depends_on : list string;
    consumes : list BindingKind;
    produces : list BindingKind;
    checkpoint : bool;
    subgraph : option string }.
#[export] Instance OperationDagNode_eq_dec : EqDecision OperationDagNode.
Proof. solve_decision. Defined.

Inductive dag_error : Type :=
| duplicate_node | unknown_dependency | dag_cycle | output_conflict | unsatisfied_input
| dag_unknown_capability
| dag_registry (e : registry_error).

Definition kernelNode (nodeId : string) (dependsOn : list string) (consumed produced : list BindingKind) :
  OperationDagNode := Node nodeId kernel None dependsOn consumed produced true None.

Definition moduleNode (capabilityId nodeId : string) (dependsOn : list string) (protocolVersion : string) :
  result dag_error OperationDagNode :=
  m ← map_err dag_registry (capabilityModuleDefinition capabilityId protocolVersion);
  Ok (Node nodeId module_node (Some capabilityId) dependsOn (input_bindings m) (output_bindings m) true None).

(** [if (active.has(c)) nodes.push(moduleNode(..))] *)
Definition optional_module (active : list CapabilityId) (capabilityId nodeId : string) (dependsOn : list string)
    (protocolVersion : string) : result dag_error (list OperationDagNode) :=
  if mem capabilityId active
  then n ← moduleNode capabilityId nodeId dependsOn protocolVersion; Ok [n]
  else Ok [].

Definition buildOperationDag (active : list CapabilityId) (protocolVersion : string) :
  result dag_error (list OperationDagNode) :=
  let has c := mem c active in
  let when b (l : list string) := if b : bool then l else [] in
  let parallel := has "parallel_task_execution" in
  if parallel && negb (bool_decide (protocolVersion = PROTOCOL_1_3_VERSION)) then Err dag_unknown_capability
  else
    impact ← optional_module active "impact_analysis" "impact" ["capability_decision"] protocolVersion;
    design ← optional_module active "design_governance" "design" ["impact"] protocolVersion;
    let planDependsOn := ["capability_decision"] ++ when (has "impact_analysis") ["impact"]
                           ++ when (has "design_governance") ["design"] in
    let planConsumes := ["requirement_baseline"] ++ when (has "impact_analysis") ["impact_set"]
                          ++ when (has "design_governance") ["design_set"] in
    let contextConsumes := ["execution_plan"] ++ when (has "design_governance") ["design_set"] in
    let strictTdd := has "strict_tdd" in
    let executeConsumes := ["context_bundle"] ++ when strictTdd ["design_set"]
                             ++ when parallel ["execution_plan"] in
    let executeProduces := when strictTdd ["tdd_contract"] ++ when parallel ["wave_integration"] in
    let execute_subgraph := if parallel then Some "parallel_task_execution"
                            else if strictTdd then Some "strict_tdd" else None in
    evaluate ← optional_module active "independent_evaluation" "evaluate" ["verify"] protocolVersion;
    let evaluation := has "independent_evaluation" in
    audit ← optional_module active "advanced_audit" "audit" ["snapshot"] protocolVersion;
    Ok ([kernelNode "capture" [] [] ["requirement_baseline"];
         kernelNode "capability_decision" ["capture"] ["requirement_baseline"] []]
        ++ impact ++ design
        ++ [kernelNode "plan" planDependsOn planConsumes ["execution_plan"];
            kernelNode "context" ["plan"] contextConsumes ["context_bundle"];
            Node "execute" kernel None ["context"] executeConsumes executeProduces true execute_subgraph;
            kernelNode "verify" ["execute"] ["context_bundle"] ["gate_evidence"]]
        ++ evaluate
        ++ [kernelNode "snapshot" (["verify"] ++ when evaluation ["evaluate"])
              (["gate_evidence"] ++ when evaluation ["evaluation_report"]) ["snapshot"]]
        ++ audit).

(** [producers.get(kind) !== undefined] rejects, otherwise the kind is set. *)
Definition claim_output (node : OperationDagNode) (producers : gmap BindingKind string) (kind : BindingKind) :
  result dag_error (gmap BindingKind string) :=
  match producers !! kind with
  | Some _ => Err output_conflict
  | None => Ok (<[kind := node_id node]> producers)
  end.

Definition claim_outputs (producers : gmap BindingKind string) (node : OperationDagNode) :
  result dag_error (gmap BindingKind string) := foldM (claim_output node) producers (produces node).

(** The queue of the cycle check starts with the nodes of in-degree zero. *)
Definition dag_sources (nodes : list OperationDagNode) : list OperationDagNode :=
  filter (fun n => deg_of (link_all node_id depends_on nodes).1 (node_id n) = 0%Z) nodes.

Definition validateOperationDag (nodes : list OperationDagNode) : result dag_error unit :=
  _ ← foldM (fun seen node => if mem (node_id node) seen then Err duplicate_node
                              else Ok (node_id node :: seen)) [] nodes;
  _ ← forM_ (fun node => forM_ (fun d =>
        reject_if (negb (mem d (map node_id nodes))) unknown_dependency) (depends_on node)) nodes;
  match kahn_on node_id depends_on push (fun l => l) nodes (dag_sources nodes) with
  | None => Err dag_cycle
  | Some emitted =>
      _ ← reject_if (negb (length emitted =? length nodes)%nat) dag_cycle;
      producers ← foldM claim_outputs ∅ nodes;
      forM_ (fun node => forM_ (fun kind =>
        reject_if (bool_decide (producers !! kind = None)) unsatisfied_input) (consumes node)) nodes
  end.

Example dag_lite : (nodes ← buildOperationDag [] "1.1.0"; validateOperationDag nodes) = Ok tt.
Proof. vm_compute. reflexivity. Qed.
Example dag_design_without_impact :
  (nodes ← buildOperationDag ["design_governance"] "1.1.0"; validateOperationDag nodes) = Err unknown_dependency.
Proof. vm_compute. reflexivity. Qed.
Example dag_tdd_without_design :
  (nodes ← buildOperationDag ["strict_tdd"] "1.1.0"; validateOperationDag nodes) = Err unsatisfied_input.
Proof. vm_compute. reflexivity. Qed.

(* ------------------------------------------------------------------ *)
(** ** What validation decides *)

Definition declared (nodes : list OperationDagNode) : list BindingKind := concat (map produces nodes).
Definition ids_of (nodes : list OperationDagNode) : list string := map node_id nodes.

Record dag_ok (nodes : list OperationDagNode) : Prop := {
  dag_ids : NoDup (ids_of nodes);
  dag_known : forall n d, n ∈ nodes -> d ∈ depends_on n -> d ∈ ids_of nodes;
  dag_acyclic : acyclic node_id depends_on nodes;
  dag_producers : NoDup (declared nodes);
  dag_satisfied : forall n k, n ∈ nodes -> k ∈ consumes n -> k ∈ declared nodes
}.

(** What each error says about the DAG. *)
Definition dag_violation (nodes : list OperationDagNode) (e : dag_error) : Prop :=
  match e with
  | duplicate_node => ~ NoDup (ids_of nodes)
  | unknown_dependency => exists n d, n ∈ nodes /\ d ∈ depends_on n /\ d ∉ ids_of nodes
  | dag_cycle => ~ acyclic node_id depends_on nodes
  | output_conflict => ~ NoDup (declared nodes)
  | unsatisfied_input => exists n k, n ∈ nodes /\ k ∈ consumes n /\ k ∉ declared nodes
  | _ => False
  end.

Lemma seen_fold nodes seen :
  NoDup seen ->
  match foldM (fun seen node => if mem (node_id node) seen then Err duplicate_node
                                else Ok (node_id node :: seen)) seen nodes with
  | Ok _ => NoDup (ids_of nodes ++ seen)
  | Err e => e = duplicate_node /\ ~ NoDup (ids_of nodes ++ seen)
  end.
Proof.
  revert seen; induction nodes as [|n l IH]; intros seen Hs; simpl; [done|].
  destruct (mem (node_id n) seen) eqn:En; simpl.
  - apply mem_spec in En. split; [done|]. rewrite NoDup_cons, elem_of_app. tauto.
  - apply mem_false in En. specialize (IH (node_id n :: seen) (NoDup_cons_2 _ _ En Hs)).
    destruct (foldM _ _ l); by rewrite Permutation_middle.
Qed.

(** A loop that rejects the first element failing a test. *)
Lemma forM_reject {E A} (p : A -> bool) (err : E) l :
  match forM_ (fun x => reject_if (p x) err) l with
  | Ok _ => forall x, x ∈ l -> p x = false
  | Err e => e = err /\ exists x, x ∈ l /\ p x = true
  end.
Proof.
  induction l as [|x l IH]; simpl; [by intros x ?%not_elem_of_nil|].
  destruct (p x) eqn:Ep; simpl; [split; [done|]; exists x; split; [left|done]|].
  destruct (forM_ _ l).
  - intros y [->|Hy]%elem_of_cons; auto.
  - destruct IH as (-> & y & Hy & Hp). split; [done|]. exists y. split; [by right|done].
Qed.

Lemma forM_reject_each {E A B} (f : A -> list B) (p : B -> bool) (err : E) l :
  match forM_ (fun x => forM_ (fun y => reject_if (p y) err) (f x)) l with
  | Ok _ => forall x y, x ∈ l -> y ∈ f x -> p y = false
  | Err e => e = err /\ exists x y, x ∈ l /\ y ∈ f x /\ p y = true
  end.
Proof.
  induction l as [|x l IH]; simpl; [by intros x y ?%not_elem_of_nil|].
  pose proof (forM_reject p err (f x)) as Hx. destruct (forM_ _ (f x)); simpl.
  - destruct (forM_ _ l).
    + intros y z [->|Hy]%elem_of_cons; eauto.
    + destruct IH as (-> & y & z & Hy & Hz). split; [done|]. exists y, z. split; [by right|done].
  - destruct Hx as (-> & y & Hy & Hp). split; [done|]. exists x, y. split; [left|done].
Qed.

Lemma claim_fold pairs : forall producers,
  match foldM (fun m p => claim_output p.1 m p.2) producers pairs with
  | Ok m => NoDup pairs.*2 /\ (forall k, k ∈ pairs.*2 -> producers !! k = None) /\
            forall k, is_Some (m !! k) <-> is_Some (producers !! k) \/ k ∈ pairs.*2
  | Err e => e = output_conflict /\
             ~ (NoDup pairs.*2 /\ forall k, k ∈ pairs.*2 -> producers !! k = None)
  end.
Proof.
  induction pairs as [|[n k] l IH]; intros producers; csimpl.
  { split; [constructor|]. split; [by intros k ?%not_elem_of_nil|]. intros k. rewrite elem_of_nil. tauto. }
  unfold claim_output at 2; simpl. destruct (producers !! k) as [o|] eqn:Ek; simpl.
  { split; [done|]. intros [_ Hn]. specialize (Hn k (list_elem_of_here _ _)). congruence. }
  specialize (IH (<[k := node_id n]> producers)).
  assert (forall P : Prop, (k ∉ l.*2 -> P) -> (forall j, j ∈ l.*2 -> <[k := node_id n]> producers !! j = None) -> P) as Hk.
  { intros P HP Hl. apply HP. intros Hin. specialize (Hl k Hin). rewrite lookup_insert, decide_True in Hl by done. done. }
  destruct (foldM _ _ l) as [m|e].
  - destruct IH as (Hn & Hl & Hm). assert (k ∉ l.*2) as Hkl by (by apply Hk). split; [by constructor|]. split.
    + intros j [->|Hj]%elem_of_cons; [done|]. specialize (Hl j Hj). rewrite lookup_insert_ne in Hl; [done|].
      by intros <-.
    + intros j. rewrite Hm, lookup_insert, elem_of_cons. destruct (decide (k = j)) as [<-|Hkj]; [|naive_solver].
      split; [by right; left|]. intros _. left. by eexists.
  - destruct IH as [-> IH]. split; [done|]. rewrite NoDup_cons. intros [[Hkl Hn] Hl]. apply IH. split; [done|].
    intros j Hj. rewrite lookup_insert_ne; [apply Hl; by right|]. by intros <-.
Qed.

Lemma claims_flat producers nodes :
  foldM claim_outputs producers nodes =
    foldM (fun m p => claim_output p.1 m p.2) producers (nodes ≫= fun n => pair n <$> produces n).
Proof. apply (foldM_concat claim_output produces). Qed.

Lemma declared_flat nodes : (nodes ≫= fun n => pair n <$> produces n).*2 = declared nodes.
Proof.
  unfold declared. induction nodes as [|n l IH]; [done|]. csimpl. rewrite fmap_app, IH. f_equal.
  rewrite <- list_fmap_compose. apply list_fmap_id.
Qed.

Lemma emitted_all nodes :
  NoDup (ids_of nodes) -> (forall n d, n ∈ nodes -> d ∈ depends_on n -> d ∈ ids_of nodes) ->
  exists out, kahn_on node_id depends_on push (fun l => l) nodes (dag_sources nodes) = Some out /\
    kahn_result node_id depends_on nodes out /\
    (length out = length nodes <-> acyclic node_id depends_on nodes).
Proof.
  intros Hn Hk. apply kahn_on_correct; [apply push_perm|done|done|done|].
  unfold dag_sources. by rewrite ready_filter.
Qed.

Lemma validate_cases nodes :
  match validateOperationDag nodes with
  | Ok _ => dag_ok nodes
  | Err e => dag_violation nodes e
  end.
Proof.
  unfold validateOperationDag.
  pose proof (seen_fold nodes [] (NoDup_nil_2)) as Hs. rewrite app_nil_r in Hs.
  destruct (foldM _ [] nodes) as [seen|e]; simpl; [|by destruct Hs as [-> ?]].
  pose proof (forM_reject_each depends_on (fun d => negb (mem d (map node_id nodes))) unknown_dependency nodes) as Hk.
  destruct (forM_ _ nodes) as [u|e]; simpl.
  2: { destruct Hk as (-> & n & d & Hn & Hd & Hm%negb_true_iff%mem_false). by exists n, d. }
  assert (forall n d, n ∈ nodes -> d ∈ depends_on n -> d ∈ ids_of nodes) as Hknown.
  { intros n d Hn Hd. apply mem_spec, negb_false_iff. by apply (Hk n). }
  destruct (emitted_all nodes Hs Hknown) as (out & -> & _ & Hlen). unfold reject_if at 1.
  destruct (length out =? length nodes)%nat eqn:El; simpl;
    [apply Nat.eqb_eq in El|apply Nat.eqb_neq in El; by rewrite <- Hlen].
  pose proof (claim_fold (nodes ≫= fun n => pair n <$> produces n) ∅) as Hp.
  rewrite claims_flat. rewrite declared_flat in Hp.
  destruct (foldM _ ∅ _) as [producers|e]; simpl.
  2: { destruct Hp as [-> Hp]. intros Hn. apply Hp. split; [done|]. intros. apply lookup_empty. }
  destruct Hp as (Hpn & _ & Hpk).
  pose proof (forM_reject_each consumes (fun k => bool_decide (producers !! k = None)) unsatisfied_input nodes) as Hc.
  destruct (forM_ _ nodes) as [u'|e].
  - split; [done..|by apply Hlen|done|]. intros n k Hn Hk'. specialize (Hc n k Hn Hk').
    apply bool_decide_eq_false, not_eq_None_Some, Hpk in Hc as [[? ?]|?]; [|done]. by rewrite lookup_empty in H.
  - destruct Hc as (-> & n & k & Hn & Hk' & Hnone%bool_decide_eq_true). exists n, k. split; [done|]. split; [done|].
    intros Hin. assert (is_Some (producers !! k)) as [? ?] by (apply Hpk; by right). congruence.
Qed.

Lemma violation_not_ok nodes e : dag_violation nodes e -> ~ dag_ok nodes.
Proof.
  intros Hv [Hi Hk Ha Hp Hs]. destruct e; simpl in Hv; try done.
  - destruct Hv as (n & d & Hn & Hd & Hnot). by apply Hnot, (Hk n).
  - destruct Hv as (n & k & Hn & Hk' & Hnot). by apply Hnot, (Hs n).
Qed.

Lemma validate_Ok nodes : validateOperationDag nodes = Ok tt <-> dag_ok nodes.
Proof.
  pose proof (validate_cases nodes) as Hc. destruct (validateOperationDag nodes) as [[]|e]; [done|].
  split; [done|]. intros Hok. by apply violation_not_ok in Hc.
Qed.

(** ** Built DAGs *)

(** The modules [buildOperationDag] may be asked for together. *)
Definition compatible_modules (active : list CapabilityId) : Prop :=
  ("design_governance" ∈ active -> "impact_analysis" ∈ active) /\
  ("strict_tdd" ∈ active -> "design_governance" ∈ active).

(** The six tests [active.has(..)] decide the DAG. *)
Ltac by_active active :=
  destruct (mem "impact_analysis" active), (mem "design_governance" active),
    (mem "independent_evaluation" active), (mem "strict_tdd" active), (mem "advanced_audit" active),
    (mem "parallel_task_execution" active).

Definition modules_ok (active : list CapabilityId) : bool :=
  implb (mem "design_governance" active) (mem "impact_analysis" active) &&
  implb (mem "strict_tdd" active) (mem "design_governance" active).

Lemma modules_ok_spec active : modules_ok active = true <-> compatible_modules active.
Proof.
  unfold modules_ok, compatible_modules.
  pose proof (mem_spec "impact_analysis" active) as Hi. pose proof (mem_spec "design_governance" active) as Hd.
  pose proof (mem_spec "strict_tdd" active) as Ht.
  destruct (mem "impact_analysis" active), (mem "design_governance" active), (mem "strict_tdd" active);
    simpl; naive_solver.
Qed.

Definition versions : list string := [PROTOCOL_1_1_VERSION; PROTOCOL_1_3_VERSION].

Lemma build_cases active v :
  v ∈ versions ->
  match buildOperationDag active v with
  | Ok nodes => validateOperationDag nodes =
      if modules_ok active then Ok tt
      else if mem "design_governance" active && negb (mem "impact_analysis" active)
           then Err unknown_dependency else Err unsatisfied_input
  | Err e => e = dag_unknown_capability /\ v = PROTOCOL_1_1_VERSION /\ "parallel_task_execution" ∈ active
  end.
Proof.
  unfold modules_ok. pose proof (mem_spec "parallel_task_execution" active) as Hp.
  intros [->|[->|[]%not_elem_of_nil]%elem_of_cons]%elem_of_cons;
    unfold buildOperationDag, optional_module; by_active active; (vm_compute; auto; fail) || (split; [done|split; [done|by apply Hp]]).
Qed.

Lemma closure_known definitions requested l x :
  dependencyClosure definitions requested = Ok l -> x ∈ l -> x ∈ map capability_id definitions.
Proof.
  intros E Hx. pose proof (dependencyClosure_result definitions requested) as Hr. rewrite E in Hr.
  destruct Hr as ([Hk Hreq] & _ & _ & Hl & _). apply Hl in Hx as (c & Hc & Hrtc).
  apply rtc_inv_r in Hrtc as [->|(y & _ & m & Hm & Hd)]; [by apply Hreq|].
  eapply Hk; [by eapply module_map_elem|done].
Qed.

Lemma closure_compatible requested v active :
  capabilityDependencyClosure requested v = Ok active -> compatible_modules active.
Proof.
  unfold capabilityDependencyClosure. rewrite bind_Ok. intros (definitions & Hd & Ha).
  pose proof (dependencyClosure_result definitions requested) as Hr. rewrite Ha in Hr.
  destruct Hr as (_ & _ & _ & Hl & _).
  assert (forall c d, module_depends definitions c d -> c ∈ active -> d ∈ active) as Hclosed.
  { intros c d Hcd (r & Hr & Hc)%Hl. apply Hl. exists r. split; [done|]. by eapply rtc_r. }
  assert (definitions = CAPABILITY_MODULE_DEFINITIONS \/ definitions = CAPABILITY_MODULE_DEFINITIONS_1_3) as Hdef.
  { unfold capabilityModuleDefinitionsForProtocol in Hd. destruct (mem _ _); [left; by simplify_eq|].
    case_decide; [right; by simplify_eq|done]. }
  split; apply Hclosed;
    destruct Hdef as [->| ->]; (eexists; split; [vm_compute; reflexivity|by apply mem_spec]).
Qed.

(** ** Properties *)

(** Validation is exact: it accepts a DAG precisely when the node ids are
    distinct, every dependency names a node, there is no cycle, no binding has
    two producers and every consumed binding has one; and the error it reports
    names a defect the DAG has. *)
Theorem dag_validation_exact nodes :
  (validateOperationDag nodes = Ok tt <-> dag_ok nodes) /\
  forall e, validateOperationDag nodes = Err e -> dag_violation nodes e.
Proof.
  split; [apply validate_Ok|]. intros e E. pose proof (validate_cases nodes) as Hc. by rewrite E in Hc.
Qed.

(** The registry and the DAG builder agree: the dependency closure of any
    request, in either protocol, builds a DAG that validates; and a set of
    active capabilities builds a valid DAG only when it is closed under the
    module dependencies that add inputs. *)
Theorem closed_capabilities_build requested active v :
  v ∈ versions ->
  (capabilityDependencyClosure requested v = Ok active ->
     exists nodes, buildOperationDag active v = Ok nodes /\ validateOperationDag nodes = Ok tt) /\
  (forall nodes, buildOperationDag active v = Ok nodes ->
     validateOperationDag nodes = Ok tt <-> compatible_modules active).
Proof.
  intros Hv. pose proof (build_cases active v Hv) as Hb. split.
  - intros Hc. pose proof (closure_compatible _ _ _ Hc) as Hm%modules_ok_spec.
    destruct (buildOperationDag active v) as [nodes|e]; [exists nodes; by rewrite Hm in Hb|].
    destruct Hb as (_ & -> & Hp). exfalso.
    assert ("parallel_task_execution" ∈ map capability_id CAPABILITY_MODULE_DEFINITIONS) as Hin
      by exact (closure_known _ requested active _ Hc Hp).
    apply mem_spec in Hin. vm_compute in Hin. discriminate.
  - intros nodes E. rewrite E in Hb. rewrite Hb, <- modules_ok_spec.
    destruct (modules_ok active); [done|]. split; [by destruct (_ && _)|done].
Qed.

Lemma closed_capabilities_build_witness :
  exists nodes, buildOperationDag ["design_governance"; "impact_analysis"; "strict_tdd"] PROTOCOL_1_1_VERSION = Ok nodes
    /\ validateOperationDag nodes = Ok tt.
Proof.
  apply (closed_capabilities_build ["strict_tdd"]); [left|vm_compute; reflexivity].
Defined.
