(* ===== verification/DagEngine.v ===== *)
(** * The DAG engine

    [packages/runtime/src/workflow/dag.ts] and [dag-engine.ts]: the execution
    of an Operation DAG over node runners, with a checkpoint journal that is
    replayed when the operation resumes. A runner is called at most once per
    node and run, so a run is given each runner as a function of its context;
    two runs may be given different functions. *)

From S2P Require Import Prelude Regex Json Kahn Capability OperationDag.

(** ** Contracts *)

Record DagProducedBinding : Type := Produced { pb_kind : BindingKind; pb_digest : string }.

Record DagApprovalNotice : Type := Approval
  { object_id : string; object_kind : string; object_digest : string }.

Inductive DagNodeResult : Type :=
| committed (produced : list DagProducedBinding)
| paused (produced : list DagProducedBinding)
| plan_superseded (next_plan_digest : string) (produced : list DagProducedBinding)
| awaiting_approval (approval : DagApprovalNotice)
| blocked (reason detail : string).

(** [Record<string, string>] with its canonical key order. *)
Abbreviation digests := (gmap BindingKind string).

Record DagNodeContext : Type := Context'
  { ctx_operation_id : string;
    ctx_plan_digest : string;
    ctx_node : OperationDagNode;
    ctx_inputs : digests }.

(** [None] is a runner that throws. *)
Definition DagNodeRunner : Type := DagNodeContext -> option DagNodeResult.

Record DagRunnerRegistry : Type := Registry
  { kernel_runners : gmap string DagNodeRunner;
    module_runners : gmap CapabilityId DagNodeRunner }.

Record DagCheckpointEntry : Type := Entry
  { sequence : Z;
    entry_node_id : string;
    entry_plan_digest : string;
    wiring_digest : string;
    input_digests : digests;
    output_digests : digests;
    checkpoint_id : string }.
#[export] Instance DagCheckpointEntry_eq_dec : EqDecision DagCheckpointEntry.
Proof. solve_decision. Defined.

Inductive DagEngineEvent : Type :=
| node_started (nodeId : string)
| node_committed (nodeId checkpointId : string)
| node_replayed (nodeId : string).
#[export] Instance DagEngineEvent_eq_dec : EqDecision DagEngineEvent.
Proof. solve_decision. Defined.

Inductive DagEngineErrorKind : Type :=
| missing_node_runner | module_node_without_capability | runner_output_mismatch.

(** What [run] may throw. *)
Inductive run_error : Type :=
| DagEngineError (kind : DagEngineErrorKind)
| OperationDagError (e : dag_error)
| CanonicalError (e : canonical_error).

Inductive DagRunOutcome : Type :=
| run_paused (nodeId : string) (executed replayed : list string)
| replan_required (nodeId next_plan_digest : string) (executed replayed : list string)
| completed (executed replayed : list string)
| run_awaiting_approval (nodeId : string) (approval : DagApprovalNotice)
| run_blocked (nodeId reason detail : string)
| failed (nodeId : string).

Record DagRunRequest : Type := Request
  { operation_id : string; plan_digest : string; nodes : list OperationDagNode }.

(** ** The pieces of the engine *)

Definition node_kind_text (k : NodeKind) : string :=
  match k with kernel => "kernel" | module_node => "module" end.

(** [...(v === undefined ? {} : { [key]: v })] *)
Definition optional_field (key : string) (v : option string) : list (string * jsval) :=
  match v with Some s => [(key, JStr s)] | None => [] end.

Definition wiring_fields (node : OperationDagNode) : list (string * jsval) :=
  [("node_id", JStr (node_id node)); ("node_kind", JStr (node_kind_text (node_kind node)))]
  ++ optional_field "capability_id" (node_capability node)
  ++ [("depends_on", strings (depends_on node)); ("consumes", strings (consumes node));
      ("produces", strings (produces node))]
  ++ optional_field "subgraph" (subgraph node).

Definition wiringDigest `{Hash} (node : OperationDagNode) : result canonical_error string :=
  contentDigest (JObj (wiring_fields node)).

(** The worklist with the in-degree read off [depends_on.length]. *)
Definition topologicalOrder (nodes : list OperationDagNode) : list OperationDagNode :=
  let indegree := list_to_map (map (fun n => (node_id n, Z.of_nat (length (depends_on n)))) nodes) in
  let dependents := (link_all node_id depends_on nodes).2 in
  default [] (kahn node_id (dependents_of dependents) push (length nodes) indegree
                (filter (fun n => depends_on n = []) nodes)).

(** [for (const kind of node.consumes) inputs.set(kind, produced.get(kind))],
    [None] when one is missing. *)
Definition resolve_inputs (produced : digests) (kinds : list BindingKind) : option digests :=
  foldl (fun acc kind => inputs ← acc; d ← produced !! kind; Some (<[kind := d]> inputs)) (Some ∅) kinds.

Definition add_outputs (outputs : digests) (produced : digests) (kinds : list BindingKind) : digests :=
  foldl (fun m kind => match outputs !! kind with Some d => <[kind := d]> m | None => m end) produced kinds.

Section engine.
Context `{Hash}.
(** [config.newCheckpointId], or the digest used by default. *)
Variable newCheckpointId : string -> string -> Z -> string.

(** The conditions under which a journal entry stands for a node. *)
Definition matches (produced : digests) (node : OperationDagNode) (entry : DagCheckpointEntry) : bool :=
  match resolve_inputs produced (consumes node) with
  | None => false
  | Some inputs =>
      forallb (fun kind => bool_decide (is_Some (output_digests entry !! kind))) (produces node) &&
      bool_decide (entry_node_id entry = node_id node) &&
      bool_decide (wiringDigest node = Ok (wiring_digest entry)) &&
      bool_decide (input_digests entry = inputs)
  end.

Record Replay : Type := Replayed
  { journalIndex : nat;
    replayedNodes : list string;
    rp_produced : digests;
    remaining : list OperationDagNode }.

Fixpoint replay (ordered : list OperationDagNode) (journal : list DagCheckpointEntry) (produced : digests) :
  Replay :=
  let stop := Replayed 0 [] produced ordered in
  match ordered, journal with
  | node :: ordered', entry :: journal' =>
      if checkpoint node && matches produced node entry then
        let r := replay ordered' journal' (add_outputs (output_digests entry) produced (produces node)) in
        Replayed (S (journalIndex r)) (node_id node :: replayedNodes r) (rp_produced r) (remaining r)
      else stop
  | _, _ => stop
  end.

Definition resolveRunner (registry : DagRunnerRegistry) (node : OperationDagNode) : result run_error DagNodeRunner :=
  let found r := match r with Some runner => Ok runner | None => Err (DagEngineError missing_node_runner) end in
  match node_kind node with
  | kernel => found (kernel_runners registry !! node_id node)
  | module_node =>
      match node_capability node with
      | None => Err (DagEngineError module_node_without_capability)
      | Some capabilityId => found (module_runners registry !! capabilityId)
      end
  end.

(** The bindings a runner returned, checked against the declared outputs. *)
Definition collect_outputs (node : OperationDagNode) (bindings : list DagProducedBinding) :
  result run_error digests :=
  outputs ← foldM (fun m b =>
    _ ← reject_if (negb (mem (pb_kind b) (produces node))) (DagEngineError runner_output_mismatch);
    Ok (<[pb_kind b := pb_digest b]> m)) ∅ bindings;
  _ ← forM_ (fun kind => reject_if (bool_decide (outputs !! kind = None)) (DagEngineError runner_output_mismatch))
        (produces node);
  Ok outputs.

(** What follows the commit of a node. *)
Inductive after_commit : Type := go_on | stop_paused | stop_replan (next_plan_digest : string).

Inductive step_result : Type :=
| Stopped (r : result run_error DagRunOutcome)
| Committed (outputs : digests) (entry : option DagCheckpointEntry) (after : after_commit).

(** The commit of a node's outputs; [index] entries are in the journal. *)
Definition commit_node (request : DagRunRequest) (node : OperationDagNode) (inputs : digests) (index : nat)
    (bindings : list DagProducedBinding) (after : after_commit) : step_result :=
  match collect_outputs node bindings with
  | Err e => Stopped (Err e)
  | Ok outputs =>
      if checkpoint node then
        match wiringDigest node with
        | Err e => Stopped (Err (CanonicalError e))
        | Ok wiring =>
            let seq := Z.of_nat (S index) in
            Committed outputs
              (Some (Entry seq (node_id node) (plan_digest request) wiring inputs outputs
                       (newCheckpointId (operation_id request) (node_id node) seq))) after
        end
      else Committed outputs None after
  end.

Definition is_plan_digest (s : string) : bool := re_match digest_regex s.

(** The body of the execution loop after the runner's answer. *)
Definition settle_node (request : DagRunRequest) (node : OperationDagNode) (inputs : digests) (index : nat)
    (answer : option DagNodeResult) : step_result :=
  match answer with
  | None => Stopped (Ok (failed (node_id node)))
  | Some (awaiting_approval approval) => Stopped (Ok (run_awaiting_approval (node_id node) approval))
  | Some (blocked reason detail) => Stopped (Ok (run_blocked (node_id node) reason detail))
  | Some (committed bindings) => commit_node request node inputs index bindings go_on
  | Some (paused bindings) => commit_node request node inputs index bindings stop_paused
  | Some (plan_superseded next bindings) =>
      if negb (checkpoint node) || negb (is_plan_digest next)
      then Stopped (Err (DagEngineError runner_output_mismatch))
      else commit_node request node inputs index bindings (stop_replan next)
  end.

(** One node: the events up to its runner's call, and what came of it. *)
Definition node_step (request : DagRunRequest) (registry : DagRunnerRegistry) (node : OperationDagNode)
    (produced : digests) (index : nat) : list DagEngineEvent * step_result :=
  match resolve_inputs produced (consumes node) with
  | None => ([], Stopped (Err (DagEngineError runner_output_mismatch)))
  | Some inputs =>
      match resolveRunner registry node with
      | Err e => ([], Stopped (Err e))
      | Ok runner =>
          ([node_started (node_id node)],
           settle_node request node inputs index
             (runner (Context' (operation_id request) (plan_digest request) node inputs)))
      end
  end.

Definition committed_events (entry : option DagCheckpointEntry) : list DagEngineEvent :=
  match entry with Some e => [node_committed (entry_node_id e) (checkpoint_id e)] | None => [] end.

(** What a run leaves: the entries it appended, its events and its result. *)
Record Run : Type := MkRun
  { appended : list DagCheckpointEntry;
    events : list DagEngineEvent;
    outcome : result run_error DagRunOutcome }.

Definition prepend (entries : list DagCheckpointEntry) (evs : list DagEngineEvent) (r : Run) : Run :=
  MkRun (entries ++ appended r) (evs ++ events r) (outcome r).

Fixpoint execute (request : DagRunRequest) (registry : DagRunnerRegistry) (replayed : list string)
    (pending : list OperationDagNode) (produced : digests) (index : nat) (executed : list string) : Run :=
  match pending with
  | [] => MkRun [] [] (Ok (completed executed replayed))
  | node :: pending' =>
      let '(evs, step) := node_step request registry node produced index in
      match step with
      | Stopped r => MkRun [] evs r
      | Committed outputs entry after =>
          let executed' := executed ++ [node_id node] in
          prepend (option_list entry) (evs ++ committed_events entry)
            match after with
            | go_on =>
                execute request registry replayed pending' (outputs ∪ produced)
                  (index + length (option_list entry)) executed'
            | stop_paused => MkRun [] [] (Ok (run_paused (node_id node) executed' replayed))
            | stop_replan next => MkRun [] [] (Ok (replan_required (node_id node) next executed' replayed))
            end
      end
  end.

(** [run] on the journal the store holds: the journal it leaves, the events
    and the result. *)
Definition run (request : DagRunRequest) (registry : DagRunnerRegistry) (journal : list DagCheckpointEntry) :
  list DagCheckpointEntry * list DagEngineEvent * result run_error DagRunOutcome :=
  match validateOperationDag (nodes request) with
  | Err e => (journal, [], Err (OperationDagError e))
  | Ok _ =>
      let r := replay (topologicalOrder (nodes request)) journal ∅ in
      let x := execute request registry (replayedNodes r) (remaining r) (rp_produced r) (journalIndex r) [] in
      (take (journalIndex r) journal ++ appended x, map node_replayed (replayedNodes r) ++ events x, outcome x)
  end.

(* ------------------------------------------------------------------ *)
(** ** Wiring digests *)

Lemma optional_field_keys key v : (optional_field key v).*1 = match v with Some _ => [key] | None => [] end.
Proof. by destruct v. Qed.

Lemma wiring_keys node : NoDup (wiring_fields node).*1.
Proof.
  apply has_duplicates_NoDup. unfold wiring_fields.
  destruct (node_capability node), (subgraph node); vm_compute; reflexivity.
Qed.

Lemma wiring_total node : exists d, wiringDigest node = Ok d.
Proof.
  destruct (writes_object (wiring_fields node) (wiring_keys node)) as [s Hs].
  - unfold wiring_fields, optional_field. intros e He.
    destruct (node_capability node), (subgraph node); simpl in He;
      repeat (apply elem_of_cons in He as [->|He]; [first [apply writes_strings|by eexists]|]);
      by apply not_elem_of_nil in He.
  - unfold wiringDigest, contentDigest, canonicalizeJson. rewrite Hs. by eexists.
Qed.

(** Two nodes with everything but the checkpoint flag in common. *)
Definition same_wiring (n m : OperationDagNode) : Prop :=
  node_id n = node_id m /\ node_kind n = node_kind m /\ node_capability n = node_capability m /\
  depends_on n = depends_on m /\ consumes n = consumes m /\ produces n = produces m /\ subgraph n = subgraph m.

Lemma wiring_literals node : literals_ok (JObj (wiring_fields node)) = true.
Proof.
  assert (forall l, forallb literals_ok (map JStr l) = true) as Hs by (induction l; done).
  unfold wiring_fields, optional_field. simpl.
  destruct (node_capability node), (subgraph node); simpl; by rewrite !Hs.
Qed.

Lemma same_wiring_digest n m : same_wiring n m -> wiringDigest n = wiringDigest m.
Proof.
  destruct n, m. intros (? & ? & ? & ? & ? & ? & ?). simpl in *. by subst.
Qed.

Lemma wiring_digest_inj n m d :
  wiringDigest n = Ok d -> wiringDigest m = Ok d -> same_wiring n m \/ hash_collision.
Proof.
  intros Hn Hm. destruct (contentDigest_inj _ _ d (wiring_literals n) (wiring_literals m) Hn Hm) as [E|?];
    [left|by right].
  pose proof (fun k => canon_fields _ _ k (wiring_keys n) (wiring_keys m) E) as F. clear E Hn Hm.
  assert (forall node, omap_get (wiring_fields node) "node_id" = Some (JStr (node_id node)) /\
    omap_get (wiring_fields node) "node_kind" = Some (JStr (node_kind_text (node_kind node))) /\
    omap_get (wiring_fields node) "capability_id" = JStr <$> node_capability node /\
    omap_get (wiring_fields node) "depends_on" = Some (strings (depends_on node)) /\
    omap_get (wiring_fields node) "consumes" = Some (strings (consumes node)) /\
    omap_get (wiring_fields node) "produces" = Some (strings (produces node)) /\
    omap_get (wiring_fields node) "subgraph" = JStr <$> subgraph node) as G.
  { intros [? ? [] ? ? ? ? []]; split_and!; reflexivity. }
  destruct (G n) as (N1 & N2 & N3 & N4 & N5 & N6 & N7), (G m) as (M1 & M2 & M3 & M4 & M5 & M6 & M7).
  pose proof (F "node_id") as F1. rewrite N1, M1 in F1.
  pose proof (F "node_kind") as F2. rewrite N2, M2 in F2.
  pose proof (F "capability_id") as F3. rewrite N3, M3 in F3.
  pose proof (F "depends_on") as F4. rewrite N4, M4 in F4.
  pose proof (F "consumes") as F5. rewrite N5, M5 in F5.
  pose proof (F "produces") as F6. rewrite N6, M6 in F6.
  pose proof (F "subgraph") as F7. rewrite N7, M7 in F7.
  cbn [fmap option_fmap option_map] in F1, F2, F4, F5, F6. rewrite !canon_strings in F4, F5, F6.
  split_and!; try (by apply fmap_str_inj); try (by apply (inj Some), (inj strings) in F4);
    try (by apply (inj Some), (inj strings) in F5); try (by apply (inj Some), (inj strings) in F6).
  - by injection F1.
  - by destruct (node_kind n), (node_kind m).
Qed.

(* ------------------------------------------------------------------ *)
(** ** Inputs and outputs *)

Lemma resolve_inputs_fold p ks acc :
  is_Some (foldl (fun acc kind => inputs ← acc; d ← p !! kind; Some (<[kind := d]> inputs)) acc ks) <->
    is_Some (acc : option digests) /\ forall k, k ∈ ks -> is_Some ((p : digests) !! k).
Proof.
  revert acc; induction ks as [|k ks IH]; intros acc; simpl.
  { split; [|by intros []]. intros Ha. split; [done|]. by intros k ?%not_elem_of_nil. }
  rewrite IH. destruct acc as [m|]; simpl; [|split; [by intros [[] _]|by intros [[] _]]].
  destruct (p !! k) as [d|] eqn:Ek; simpl.
  - split; [|intros [_ Hk]; split; [done|]; intros; apply Hk; by right].
    intros [_ Hk]. split; [done|]. intros j [->|Hj]%elem_of_cons; eauto.
  - split; [by intros [[] _]|]. intros [_ Hk]. destruct (Hk k (list_elem_of_here _ _)). congruence.
Qed.

Lemma resolve_inputs_Some p ks :
  is_Some (resolve_inputs p ks) <-> forall k, k ∈ ks -> is_Some (p !! k).
Proof. unfold resolve_inputs. rewrite resolve_inputs_fold. split; [by intros [_ ?]|by split]. Qed.

Lemma add_outputs_lookup outputs ks p k :
  add_outputs outputs p ks !! k =
    if decide (k ∈ ks) then match outputs !! k with Some d => Some d | None => p !! k end else p !! k.
Proof.
  unfold add_outputs. revert p; induction ks as [|j ks IH]; intros p; simpl; [done|].
  rewrite IH. destruct (decide (k = j)) as [->|Hk].
  - rewrite (decide_True (P := j ∈ j :: ks)) by left.
    destruct (outputs !! j) as [d|]; [|by destruct (decide (j ∈ ks))].
    destruct (decide (j ∈ ks)); [done|]. by rewrite lookup_insert, decide_True.
  - rewrite (decide_ext (k ∈ ks) (k ∈ j :: ks)) by (rewrite elem_of_cons; naive_solver).
    destruct (outputs !! j); [rewrite lookup_insert_ne by done|]; done.
Qed.

Lemma add_outputs_union outputs ks p :
  (forall k, is_Some (outputs !! k) -> k ∈ ks) -> add_outputs outputs p ks = outputs ∪ p.
Proof.
  intros Hd. apply map_eq. intros k. rewrite add_outputs_lookup. unfold union, map_union.
  rewrite lookup_union_with. destruct (outputs !! k) as [d|] eqn:E.
  - rewrite decide_True by (apply Hd; by eexists). by destruct (p !! k).
  - destruct (decide _); by destruct (p !! k).
Qed.

Lemma collect_fold node bs m :
  match foldM (fun m b => _ ← reject_if (negb (mem (pb_kind b) (produces node))) (DagEngineError runner_output_mismatch);
                          Ok (<[pb_kind b := pb_digest b]> m)) m bs with
  | Ok m' => (forall b, b ∈ bs -> pb_kind b ∈ produces node) /\
             forall k, is_Some (m' !! k) <-> is_Some ((m : digests) !! k) \/ k ∈ map pb_kind bs
  | Err _ => exists b, b ∈ bs /\ pb_kind b ∉ produces node
  end.
Proof.
  revert m; induction bs as [|b bs IH]; intros m; simpl.
  { split; [by intros b ?%not_elem_of_nil|]. intros k. rewrite elem_of_nil. tauto. }
  destruct (mem (pb_kind b) (produces node)) eqn:Eb; simpl.
  2: { apply mem_false in Eb. exists b. split; [left|done]. }
  apply mem_spec in Eb. specialize (IH (<[pb_kind b := pb_digest b]> m)). destruct (foldM _ _ bs) as [m'|e].
  - destruct IH as [Hb Hk]. split; [by intros c [->|Hc]%elem_of_cons; auto|]. intros k.
    rewrite Hk, lookup_insert, elem_of_cons. destruct (decide (pb_kind b = k)) as [<-|Hne]; [|naive_solver].
    split; [by right; left|]. intros _. left. by eexists.
  - destruct IH as (c & Hc & Hn). exists c. split; [by right|done].
Qed.

(** The outputs are collected exactly when the runner returned the declared
    kinds, and then have those kinds. *)
Lemma collect_outputs_cases node bs :
  match collect_outputs node bs with
  | Ok outputs => (forall k, k ∈ map pb_kind bs <-> k ∈ produces node) /\
                  forall k, is_Some (outputs !! k) <-> k ∈ produces node
  | Err _ => ~ (forall k, k ∈ map pb_kind bs <-> k ∈ produces node)
  end.
Proof.
  unfold collect_outputs. pose proof (collect_fold node bs ∅) as Hf.
  destruct (foldM _ ∅ bs) as [m|e]; simpl.
  - destruct Hf as [Hb Hk].
    assert (forall k, is_Some (m !! k) <-> k ∈ map pb_kind bs) as Hm.
    { intros k. rewrite Hk, lookup_empty. split; [by intros [[]|]|by right]. }
    pose proof (forM_reject (fun kind => bool_decide (m !! kind = None)) (DagEngineError runner_output_mismatch)
      (produces node)) as Hr. destruct (forM_ _ _) as [u|e]; simpl.
    + assert (forall k, k ∈ produces node -> is_Some (m !! k)) as Hp.
      { intros k Hin. apply not_eq_None_Some. eapply bool_decide_eq_false. by apply Hr. }
      split; intros k; [rewrite <- Hm|]; (split; [|apply Hp]); intros Hin; apply Hm in Hin;
        apply (list_elem_of_fmap_1 pb_kind) in Hin as (b & -> & Hbs); by apply Hb.
    + destruct Hr as (_ & k & Hk' & Hnone%bool_decide_eq_true). intros Hiff. apply Hiff, Hm in Hk' as [? ?]. congruence.
  - destruct Hf as (b & Hb & Hn). intros Hiff. apply Hn, Hiff. by apply (list_elem_of_fmap_2 pb_kind).
Qed.

(** ** Replay *)

Lemma replay_shape nodes : forall journal p,
  let r := replay nodes journal p in
  (journalIndex r <= length journal)%nat /\ (journalIndex r <= length nodes)%nat /\
  replayedNodes r = map node_id (take (journalIndex r) nodes) /\ remaining r = drop (journalIndex r) nodes.
Proof.
  induction nodes as [|n nodes IH]; intros journal p; simpl; [split; [lia|done]|].
  destruct journal as [|e journal]; simpl; [split; [lia|]; split; [lia|done]|].
  destruct (checkpoint n && matches p n e); simpl; [|split; [lia|]; split; [lia|done]].
  destruct (IH journal (add_outputs (output_digests e) p (produces n))) as (H1 & H2 & -> & ->).
  split; [lia|]. split; [lia|done].
Qed.

Lemma replay_take nodes : forall journal p,
  replay nodes (take (journalIndex (replay nodes journal p)) journal) p = replay nodes journal p.
Proof.
  induction nodes as [|n nodes IH]; intros journal p; [done|]. destruct journal as [|e journal]; [done|].
  simpl. destruct (checkpoint n && matches p n e) eqn:E; simpl; [|done]. by rewrite E, IH.
Qed.

Lemma replay_app nodes : forall journal p more,
  journalIndex (replay nodes journal p) = length journal ->
  replay nodes (journal ++ more) p =
    let r := replay nodes journal p in
    let r' := replay (remaining r) more (rp_produced r) in
    Replayed (length journal + journalIndex r') (replayedNodes r ++ replayedNodes r') (rp_produced r') (remaining r').
Proof.
  induction nodes as [|n nodes IH]; intros journal p more; simpl.
  { destruct journal; [|done]. simpl. by destruct more. }
  destruct journal as [|e journal]; simpl.
  { intros _. destruct more as [|e more]; [done|]. by destruct (checkpoint n && matches p n e). }
  destruct (checkpoint n && matches p n e); simpl; [|done]. intros [= El]. by rewrite IH.
Qed.

(** ** One step of the execution *)

Lemma commit_entry request node inputs index bs after outputs entry after' p :
  checkpoint node = true -> resolve_inputs p (consumes node) = Some inputs ->
  commit_node request node inputs index bs after = Committed outputs entry after' ->
  after' = after /\ exists e, entry = Some e /\ entry_node_id e = node_id node /\ output_digests e = outputs /\
    matches p node e = true /\ add_outputs outputs p (produces node) = outputs ∪ p /\
    forall k, is_Some (outputs !! k) <-> k ∈ produces node.
Proof.
  intros Hc Hi. unfold commit_node. pose proof (collect_outputs_cases node bs) as Ho.
  destruct (collect_outputs node bs) as [o|]; [|done]. destruct Ho as [_ Ho].
  rewrite Hc. destruct (wiring_total node) as [w Hw]. rewrite Hw. intros [= <- <- <-].
  split; [done|]. eexists. split; [done|]. simpl. split; [done|]. split; [done|]. split.
  - unfold matches. rewrite Hi, Hw. simpl. rewrite !bool_decide_true, !andb_true_r by done.
    apply forallb_Forall. intros k Hk. apply bool_decide_true. by apply Ho.
  - split; [|done]. apply add_outputs_union. intros k Hk. by apply Ho.
Qed.

Lemma step_entry request registry node p index evs outputs entry after :
  checkpoint node = true ->
  node_step request registry node p index = (evs, Committed outputs entry after) ->
  evs = [node_started (node_id node)] /\
  exists e, entry = Some e /\ entry_node_id e = node_id node /\ output_digests e = outputs /\
    matches p node e = true /\ add_outputs outputs p (produces node) = outputs ∪ p /\
    forall k, is_Some (outputs !! k) <-> k ∈ produces node.
Proof.
  intros Hc. unfold node_step. destruct (resolve_inputs _ _) as [inputs|] eqn:Hi; [|done].
  destruct (resolveRunner registry node) as [runner|]; [|done]. intros [= <- Hs]. split; [done|].
  unfold settle_node in Hs. destruct (runner _) as [[bs|bs|next bs|a|r d]|]; try done.
  1, 2: by apply (commit_entry _ _ _ _ _ _ _ _ _ p) in Hs as [_ ?].
  destruct (_ || _); [done|]. by apply (commit_entry _ _ _ _ _ _ _ _ _ p) in Hs as [_ ?].
Qed.

(** A node without a checkpoint leaves no entry. *)
Lemma step_no_entry request registry node p index evs outputs entry after :
  checkpoint node = false -> node_step request registry node p index = (evs, Committed outputs entry after) -> entry = None.
Proof.
  intros Hc. unfold node_step. destruct (resolve_inputs _ _) as [inputs|]; [|done]. destruct (resolveRunner registry node) as [runner|]; [|done].
  intros [= _ Hs]. unfold settle_node, commit_node in Hs. rewrite Hc in Hs. repeat case_match; by simplify_eq.
Qed.

Lemma step_started request registry node p index evs outputs entry after :
  node_step request registry node p index = (evs, Committed outputs entry after) -> evs = [node_started (node_id node)].
Proof.
  unfold node_step. destruct (resolve_inputs _ _) as [inputs|]; [|done]. destruct (resolveRunner registry node) as [runner|]; [|done].
  by intros [= <- _].
Qed.

(** ** The journal of an execution *)

(** The nodes before the first one without a checkpoint: those a replay may accept. *)
Fixpoint replayable (nodes : list OperationDagNode) : nat :=
  match nodes with node :: nodes' => if checkpoint node then S (replayable nodes') else 0 | [] => 0 end.

Definition all_checkpoint (nodes : list OperationDagNode) : Prop := forall n, n ∈ nodes -> checkpoint n = true.

(** What an execution appends is accepted whole by the next replay. *)
Lemma execute_replay request registry rp nodes : forall p index ex,
  all_checkpoint nodes ->
  journalIndex (replay nodes (appended (execute request registry rp nodes p index ex)) p) =
    length (appended (execute request registry rp nodes p index ex)).
Proof.
  induction nodes as [|n nodes IH]; intros p index ex Hc; simpl; [done|].
  assert (checkpoint n = true) as Hn by (apply Hc; left).
  assert (all_checkpoint nodes) as Hc' by (intros m Hm; apply Hc; by right).
  destruct (node_step request registry n p index) as [evs [r|outputs entry after]] eqn:Es; [done|].
  destruct (step_entry _ _ _ _ _ _ _ _ _ Hn Es) as (-> & e & -> & _ & Ho & Hm & Ha & _).
  destruct after; simpl; rewrite Hn, Hm; simpl; f_equal; [|by destruct nodes..].
  rewrite Ho, Ha. by apply IH.
Qed.

(** ** Complete executions *)

(** Every node of the list commits in turn, leaving these entries. *)
Inductive completes (request : DagRunRequest) (registry : DagRunnerRegistry) :
  list OperationDagNode -> digests -> nat -> list DagCheckpointEntry -> Prop :=
| completes_nil p index : completes request registry [] p index []
| completes_cons node nodes p index outputs entry journal :
    node_step request registry node p index =
      ([node_started (node_id node)], Committed outputs entry go_on) ->
    completes request registry nodes (outputs ∪ p) (index + length (option_list entry)) journal ->
    completes request registry (node :: nodes) p index (option_list entry ++ journal).

Lemma execute_completes request registry rp nodes : forall p index ex a b,
  outcome (execute request registry rp nodes p index ex) = Ok (completed a b) ->
  completes request registry nodes p index (appended (execute request registry rp nodes p index ex)).
Proof.
  induction nodes as [|n nodes IH]; intros p index ex a b; simpl; [constructor|].
  destruct (node_step request registry n p index) as [evs [r|outputs entry after]] eqn:Es; simpl.
  { intros ->. exfalso. unfold node_step in Es.
    destruct (resolve_inputs _ _); [|done]. destruct (resolveRunner _ _) as [runner|]; [|done].
    injection Es as _ Es. unfold settle_node, commit_node in Es.
    repeat case_match; congruence. }
  pose proof (step_started _ _ _ _ _ _ _ _ _ Es) as ->. destruct after; simpl; [|done..].
  intros Ho. econstructor; [exact Es|]. eapply IH. exact Ho.
Qed.

Lemma completes_execute request registry nodes p index journal :
  completes request registry nodes p index journal -> forall rp ex, exists evs,
  execute request registry rp nodes p index ex =
    MkRun journal evs (Ok (completed (ex ++ map node_id nodes) rp)).
Proof.
  induction 1 as [p index|node nodes p index outputs entry journal Hs _ IH]; intros rp ex; simpl.
  - exists []. by rewrite app_nil_r.
  - rewrite Hs. simpl. destruct (IH rp (ex ++ [node_id node])) as [evs ->].
    eexists. unfold prepend. simpl. by rewrite <- app_assoc.
Qed.

Lemma completes_length request registry nodes p index journal :
  completes request registry nodes p index journal -> (length journal <= length nodes)%nat.
Proof. induction 1 as [|node nodes p index outputs entry journal Hs _ IH]; [done|]. destruct entry; simpl; lia. Qed.

Lemma replayable_all nodes : all_checkpoint nodes -> replayable nodes = length nodes.
Proof.
  induction nodes as [|n nodes IH]; intros Hc; [done|]. simpl. rewrite (Hc n) by left. rewrite IH; [done|]. intros m Hm. apply Hc. by right.
Qed.

(** A complete execution resumes from any prefix of its journal: the replay
    accepts what the prefix holds of the nodes it may accept, and the rest
    completes from there. *)
Lemma completes_resume request registry nodes p index journal :
  completes request registry nodes p index journal -> forall k, (k <= length journal)%nat ->
  let r := replay nodes (take k journal) p in
  journalIndex r = Nat.min k (replayable nodes) /\
  completes request registry (remaining r) (rp_produced r) (index + Nat.min k (replayable nodes)) (drop (Nat.min k (replayable nodes)) journal).
Proof.
  induction 1 as [p index|node nodes p index outputs entry journal Hs Hr IH]; intros k Hk; simpl in *.
  - rewrite Nat.min_0_r, Nat.add_0_r. split; [done|constructor].
  - destruct (checkpoint node) eqn:Hn.
    + destruct (step_entry _ _ _ _ _ _ _ _ _ Hn Hs) as (_ & e & -> & _ & Ho & Hm & Ha & _). simpl in *.
      destruct k as [|k]; simpl; [split; [done|]; rewrite Nat.add_0_r; by apply (completes_cons _ _ node nodes p index outputs (Some e) journal)|].
      rewrite Hm; simpl. rewrite Ho, Ha. destruct (IH k) as [Hi Hd]; [lia|]. split; [by f_equal|].
      rewrite Nat.add_1_r in Hd. by rewrite Nat.add_succ_r.
    + pose proof (step_no_entry _ _ _ _ _ _ _ _ _ Hn Hs) as ->. rewrite Nat.min_0_r, Nat.add_0_r. simpl in *.
      destruct (take k journal); simpl; (split; [done|]); by apply (completes_cons _ _ node nodes p index outputs None journal).
Qed.

(** ** Interrupted executions *)

(** The same answer, or one that interrupts the run at the node, or the same
    commit at which the host asks to pause. *)
Definition weaker_answer (answer' answer : option DagNodeResult) : Prop :=
  answer' = answer \/
  match answer' with
  | None | Some (awaiting_approval _) | Some (blocked _ _) => True
  | Some (paused bs) => answer = Some (committed bs)
  | _ => False
  end.

Definition interrupts (registry' registry : DagRunnerRegistry) : Prop :=
  forall node runner', resolveRunner registry' node = Ok runner' ->
    exists runner, resolveRunner registry node = Ok runner /\
      forall context, weaker_answer (runner' context) (runner context).

Lemma interrupted_step request registry registry' node p index outputs entry :
  interrupts registry' registry ->
  node_step request registry node p index =
    ([node_started (node_id node)], Committed outputs entry go_on) ->
  exists evs step, node_step request registry' node p index = (evs, step) /\
    ((exists r, step = Stopped r) \/ step = Committed outputs entry stop_paused \/
     step = Committed outputs entry go_on).
Proof.
  intros Hw. unfold node_step. destruct (resolve_inputs _ _) as [inputs|]; [|done].
  destruct (resolveRunner registry' node) as [runner'|err] eqn:Er'; [|by intros _; eauto 6].
  destruct (Hw _ _ Er') as (runner & -> & Hans). intros [= Hs]. do 2 eexists. split; [done|].
  set (ctx := Context' _ _ _ _) in *. destruct (Hans ctx) as [->|Hwk]; [rewrite Hs; auto|].
  destruct (runner' ctx) as [[bs|bs|next bs|a|r d]|]; simpl; try done; eauto.
  rewrite Hwk in Hs. simpl in Hs. unfold commit_node in *. repeat case_match; simplify_eq; eauto.
Qed.

Lemma completes_interrupted request registry registry' nodes p index journal :
  completes request registry nodes p index journal -> interrupts registry' registry ->
  forall rp ex, appended (execute request registry' rp nodes p index ex) `prefix_of` journal.
Proof.
  intros H' Hw. induction H' as [|node nodes p index outputs entry journal Hs _ IH]; intros rp ex; simpl; [done|].
  destruct (interrupted_step _ _ _ _ _ _ _ _ Hw Hs) as (evs & step & -> & [[r ->]|[->| ->]]); simpl.
  - apply prefix_nil.
  - by apply prefix_app, prefix_nil.
  - by apply prefix_app, IH.
Qed.

(** ** The order of execution *)

Lemma topological_order nodes :
  dag_ok nodes ->
  topologicalOrder nodes ≡ₚ nodes /\ kahn_result node_id depends_on nodes (topologicalOrder nodes).
Proof.
  intros [Hids Hknown Hac _ _]. pose proof (NoDup_keys_inj node_id nodes Hids) as Hinj.
  unfold topologicalOrder. set (deg := list_to_map _). set (dep := dependents_of _).
  destruct (kahn_correct node_id dep push push_perm depends_on nodes Hinj (NoDup_fmap_1 _ _ Hids)
    (fun k x => link_all_nodes node_id depends_on nodes k x)
    (fun k n => link_all_count node_id depends_on nodes k n Hids) deg
    (filter (fun n => depends_on n = []) nodes)) as (out & -> & Hr).
  - split; [|done]. intros n Hn. unfold deg_of, deg.
    erewrite elem_of_list_to_map_1; [done| |].
    + rewrite <- list_fmap_compose. exact Hids.
    + by apply (list_elem_of_fmap_2 (fun n => (node_id n, Z.of_nat (length (depends_on n))))).
  - simpl. split; [|done]. 
    by apply (acyclic_complete node_id depends_on nodes (NoDup_fmap_1 _ _ Hids)).
Qed.

Lemma order_ids nodes : dag_ok nodes -> NoDup (map node_id (topologicalOrder nodes)).
Proof.
  intros Hok. destruct (topological_order nodes Hok) as [Hp _]. rewrite Hp. by destruct Hok.
Qed.

Lemma order_checkpoint nodes :
  dag_ok nodes -> all_checkpoint nodes -> all_checkpoint (topologicalOrder nodes).
Proof. intros Hok Hc n Hn. apply Hc. destruct (topological_order nodes Hok) as [Hp _]. by rewrite <- Hp. Qed.

(** A node starts once all nodes before it are committed. *)
Lemma execute_events request registry rp nodes : forall p index ex pre i post,
  all_checkpoint nodes ->
  events (execute request registry rp nodes p index ex) = pre ++ node_started i :: post ->
  exists before n after, nodes = before ++ n :: after /\ node_id n = i /\
    (forall m, m ∈ before -> exists c, node_committed (node_id m) c ∈ pre).
Proof.
  induction nodes as [|n nodes IH]; intros p index ex pre i post Hc; simpl; [by destruct pre|].
  assert (checkpoint n = true) as Hn by (apply Hc; left).
  destruct (node_step request registry n p index) as [evs step] eqn:Es.
  assert (forall evs', evs ++ evs' = pre ++ node_started i :: post ->
    (exists before n' after, n :: nodes = before ++ n' :: after /\ node_id n' = i /\
       forall m, m ∈ before -> exists c, node_committed (node_id m) c ∈ pre) \/
    exists pre', pre = evs ++ pre' /\ evs' = pre' ++ node_started i :: post) as Hev.
  { intros evs' E. unfold node_step in Es.
    assert (evs = [] \/ evs = [node_started (node_id n)]) as [->| ->]
      by (repeat case_match; simplify_eq; auto); [right; by exists pre|].
    destruct pre as [|ev pre]; simplify_eq/=; [|right; by exists pre].
    left. exists [], n, nodes. split; [done|]. split; [done|]. by intros m ?%not_elem_of_nil. }
  destruct step as [r|outputs entry after]; simpl.
  - intros E. destruct (Hev []) as [?|(pre' & _ & E')]; [by rewrite app_nil_r|done|by destruct pre'].
  - destruct (step_entry _ _ _ _ _ _ _ _ _ Hn Es) as (_ & e & -> & He & _).
    intros E. rewrite <- app_assoc in E. destruct (Hev _ E) as [?|(pre' & -> & E')]; [done|]. clear Hev E.
    destruct pre' as [|ev pre']; simplify_eq/=.
    assert (exists before n' after, nodes = before ++ n' :: after /\ node_id n' = i /\
      forall m, m ∈ before -> exists c, node_committed (node_id m) c ∈ pre') as (before & n' & after' & -> & Hi & Hb).
    { destruct after; simpl in *; [eapply IH; [|done]; intros m Hm; apply Hc; by right|by destruct pre'..]. }
    exists (n :: before), n', after'. split; [done|]. split; [done|].
    intros m [->|Hm]%elem_of_cons.
    + eexists. rewrite elem_of_app, elem_of_cons. right. left. by rewrite He.
    + destruct (Hb m Hm) as [c Hin]. exists c. rewrite elem_of_app, elem_of_cons. by right; right.
Qed.

(** ** Cooperative runners *)

(** Every node has a runner, which always commits the declared outputs. *)
Definition cooperative (registry : DagRunnerRegistry) (nodes : list OperationDagNode) : Prop :=
  forall node, node ∈ nodes -> exists runner, resolveRunner registry node = Ok runner /\
    forall context, ctx_node context = node -> exists bs, runner context = Some (committed bs) /\
      forall k, k ∈ map pb_kind bs <-> k ∈ produces node.

(** Every binding is produced before a node consumes it. *)
Definition producers_first (nodes : list OperationDagNode) : Prop :=
  forall pre n post, nodes = pre ++ n :: post -> consumes n ⊆ declared pre.

Lemma cooperative_step request registry node p index :
  (exists runner, resolveRunner registry node = Ok runner /\
    forall context, ctx_node context = node -> exists bs, runner context = Some (committed bs) /\
      forall k, k ∈ map pb_kind bs <-> k ∈ produces node) ->
  checkpoint node = true -> (forall k, k ∈ consumes node -> is_Some (p !! k)) ->
  exists outputs e, node_step request registry node p index =
    ([node_started (node_id node)], Committed outputs (Some e) go_on) /\
    forall k, is_Some (outputs !! k) <-> k ∈ produces node.
Proof.
  intros (runner & Hr & Ha) Hc Hi. unfold node_step.
  apply resolve_inputs_Some in Hi as [inputs ->]. rewrite Hr.
  destruct (Ha (Context' (operation_id request) (plan_digest request) node inputs) eq_refl) as (bs & -> & Hbs). simpl.
  unfold commit_node. pose proof (collect_outputs_cases node bs) as Ho.
  destruct (collect_outputs node bs) as [outputs|]; [|done]. destruct Ho as [_ Ho].
  rewrite Hc. destruct (wiring_total node) as [w ->]. by do 2 eexists.
Qed.

Lemma cooperative_completes request registry nodes : forall p index,
  cooperative registry nodes -> all_checkpoint nodes ->
  (forall pre n post, nodes = pre ++ n :: post -> forall k, k ∈ consumes n -> is_Some (p !! k) \/ k ∈ declared pre) ->
  exists journal, completes request registry nodes p index journal.
Proof.
  induction nodes as [|n nodes IH]; intros p index Hco Hc Hs; [by eexists; constructor|].
  destruct (cooperative_step request registry n p index) as (outputs & e & Hst & Ho).
  - apply Hco. left.
  - apply Hc. left.
  - intros k Hk. destruct (Hs [] n nodes eq_refl k Hk) as [?|[]%not_elem_of_nil]. done.
  - destruct (IH (outputs ∪ p) (S index)) as [journal Hj].
    + intros m Hm. apply Hco. by right.
    + intros m Hm. apply Hc. by right.
    + intros pre m post -> k Hk. destruct (Hs (n :: pre) m post eq_refl k Hk) as [Hp|Hd].
      * left. apply lookup_union_is_Some. by right.
      * unfold declared in Hd. simpl in Hd. apply elem_of_app in Hd as [Hd|Hd]; [|by right].
        left. apply lookup_union_is_Some. left. by apply Ho.
    + exists (e :: journal). apply (completes_cons _ _ n nodes p index outputs (Some e) journal); [done|].
      by rewrite Nat.add_1_r.
Qed.

Lemma completes_served request registry nodes p index journal :
  completes request registry nodes p index journal ->
  all_checkpoint nodes ->
  forall pre n post, nodes = pre ++ n :: post -> forall k, k ∈ consumes n -> is_Some (p !! k) \/ k ∈ declared pre.
Proof.
  induction 1 as [|node nodes p index outputs entry journal Hs _ IH]; intros Hc pre n post E k Hk; [by destruct pre|].
  destruct pre as [|m pre]; simplify_eq/=.
  - left. unfold node_step in Hs. destruct (resolve_inputs _ _) eqn:Hi; [|done].
    by apply (proj1 (resolve_inputs_Some p (consumes n)) (mk_is_Some _ _ Hi)).
  - destruct (IH ltac:(intros ? ?; apply Hc; by right) pre n post eq_refl k Hk) as [Hp|Hd];
      unfold declared; simpl; rewrite elem_of_app; [|by right; right].
    apply lookup_union_is_Some in Hp as [Ho|?]; [|by left]. right. left.
    destruct (step_entry _ _ _ _ _ _ _ _ _ (Hc m (list_elem_of_here _ _)) Hs) as (_ & e' & _ & _ & _ & _ & _ & Hk').
    by apply Hk'.
Qed.

(** ** Runs *)

Abbreviation store journal := (journal : list DagCheckpointEntry).

Lemma run_valid request registry journal :
  dag_ok (nodes request) ->
  let ordered := topologicalOrder (nodes request) in
  let r := replay ordered journal ∅ in
  let x := execute request registry (replayedNodes r) (remaining r) (rp_produced r) (journalIndex r) [] in
  run request registry journal =
    (take (journalIndex r) journal ++ appended x, map node_replayed (replayedNodes r) ++ events x, outcome x).
Proof. intros Hok. unfold run. by rewrite (proj2 (validate_Ok _) Hok). Qed.

(** The journal of a run is accepted whole by a replay of the same DAG. *)
Lemma run_accepted request registry journal journal' evs res :
  dag_ok (nodes request) -> all_checkpoint (nodes request) ->
  run request registry journal = (journal', evs, res) ->
  journalIndex (replay (topologicalOrder (nodes request)) journal' ∅) = length journal'.
Proof.
  intros Hok Hc. rewrite run_valid by done. set (ordered := topologicalOrder (nodes request)).
  set (r := replay ordered journal ∅). intros [= <- _ _].
  assert (length (take (journalIndex r) journal) = journalIndex r) as Hl.
  { destruct (replay_shape ordered journal ∅) as (H1 & _). rewrite length_take. fold r in H1. lia. }
  rewrite replay_app; unfold r; rewrite replay_take; fold r; [|by rewrite Hl]. simpl.
  rewrite length_app, execute_replay; [done|].
  destruct (replay_shape ordered journal ∅) as (_ & _ & _ & Hrem). fold r in Hrem. rewrite Hrem.
  intros n Hn. apply (order_checkpoint _ Hok Hc). fold ordered.
  by eapply subseteq_drop.
Qed.

Lemma replay_ids nodes : forall journal p,
  map entry_node_id (take (journalIndex (replay nodes journal p)) journal) = replayedNodes (replay nodes journal p).
Proof.
  induction nodes as [|n nodes IH]; intros journal p; [done|]. destruct journal as [|e journal]; [done|]. simpl.
  destruct (checkpoint n && matches p n e) eqn:E; simpl; [|done]. rewrite IH. f_equal.
  apply andb_true_iff in E as [_ E]. unfold matches in E. destruct (resolve_inputs _ _); [|done]. by bool_hyps.
Qed.

Lemma started_node request registry rp nodes p index ex i :
  all_checkpoint nodes -> node_started i ∈ events (execute request registry rp nodes p index ex) ->
  i ∈ map node_id nodes.
Proof.
  intros Hc (pre & post & E)%list_elem_of_split.
  destruct (execute_events _ _ _ _ _ _ _ _ _ _ Hc E) as (before & n & after & -> & <- & _).
  apply (list_elem_of_fmap_2 node_id). rewrite elem_of_app. right. left.
Qed.

Lemma replayed_not_started l i : node_started i ∉ map node_replayed l.
Proof. by intros (x & [=] & _)%(list_elem_of_fmap_1 node_replayed). Qed.

Lemma execute_no_replay request registry rp nodes : forall p index ex i,
  node_replayed i ∉ events (execute request registry rp nodes p index ex).
Proof.
  induction nodes as [|n nodes IH]; intros p index ex i; simpl; [by intros ?%not_elem_of_nil|].
  assert (forall evs step, node_step request registry n p index = (evs, step) -> node_replayed i ∉ evs) as Hs.
  { unfold node_step. intros evs step E. destruct (resolve_inputs _ _); [|simplify_eq; by intros ?%not_elem_of_nil].
    destruct (resolveRunner _ _); simplify_eq; [by intros ?%list_elem_of_singleton|by intros ?%not_elem_of_nil]. }
  destruct (node_step _ _ _ _ _) as [evs [r|outputs entry after]]; simpl; [by eapply Hs|].
  rewrite <- app_assoc, !elem_of_app. intros [Hi|[Hi|Hi]]; [by eapply Hs| |].
  - destruct entry; simpl in Hi; [by apply list_elem_of_singleton in Hi|by apply not_elem_of_nil in Hi].
  - destruct after; simpl in Hi; [by eapply IH|by apply not_elem_of_nil in Hi..].
Qed.

(** A started node was not replayed. *)
Lemma replayed_start request registry journal i :
  dag_ok (nodes request) -> all_checkpoint (nodes request) ->
  let r := replay (topologicalOrder (nodes request)) journal ∅ in
  node_started i ∈ events (execute request registry (replayedNodes r) (remaining r) (rp_produced r) (journalIndex r) []) ->
  i ∉ replayedNodes r.
Proof.
  intros Hok Hc. simpl. set (r := replay _ _ _).
  destruct (replay_shape (topologicalOrder (nodes request)) journal ∅) as (_ & _ & Hr & Hm).
  fold r in Hr, Hm. rewrite Hm, Hr. intros Hi Hin.
  apply started_node in Hi; [|intros n Hn; apply (order_checkpoint _ Hok Hc); by eapply subseteq_drop].
  pose proof (order_ids _ Hok) as Hn. rewrite <- (take_drop (journalIndex r) (topologicalOrder (nodes request))), map_app in Hn.
  apply NoDup_app in Hn as (_ & Hd & _). by apply (Hd i).
Qed.

(** ** The part of a journal another DAG keeps *)

#[local] Instance same_wiring_dec n m : Decision (same_wiring n m).
Proof. unfold same_wiring. apply _. Defined.

Fixpoint common_prefix (l l' : list OperationDagNode) : nat :=
  match l, l' with
  | n :: k, n' :: k' => if decide (same_wiring n n') then S (common_prefix k k') else 0
  | _, _ => 0
  end.

Lemma matches_same p n m e : same_wiring n m -> matches p n e = matches p m e.
Proof.
  intros Hs. unfold matches. rewrite (same_wiring_digest _ _ Hs). by destruct Hs as (-> & _ & _ & _ & -> & -> & _).
Qed.

Lemma matches_wiring p n e : matches p n e = true -> wiringDigest n = Ok (wiring_digest e).
Proof. unfold matches. destruct (resolve_inputs _ _); [|done]. intros H'. by bool_hyps. Qed.

Lemma replay_common nodes : forall nodes' journal p,
  all_checkpoint nodes -> all_checkpoint nodes' ->
  journalIndex (replay nodes journal p) = length journal ->
  journalIndex (replay nodes' journal p) = Nat.min (length journal) (common_prefix nodes nodes') \/ hash_collision.
Proof.
  induction nodes as [|n nodes IH]; intros nodes' journal p Hc Hc' Hj.
  { destruct journal; [|done]. left. by destruct nodes'. }
  destruct journal as [|e journal]; [left; by destruct nodes'|].
  simpl in Hj. destruct (checkpoint n && matches p n e) eqn:E; [|done]. simpl in Hj. injection Hj as Hj.
  apply andb_true_iff in E as [_ Hm]. destruct nodes' as [|n' nodes']; [by left|]. simpl.
  rewrite (Hc' n' (list_elem_of_here _ _)). simpl. destruct (decide (same_wiring n n')) as [Hs|Hs].
  - rewrite <- (matches_same p _ _ e Hs), Hm. simpl. pose proof Hs as (_ & _ & _ & _ & _ & <- & _).
    destruct (IH nodes' journal (add_outputs (output_digests e) p (produces n))) as [->|?]; [| |done|by left|by right];
      intros m ?; [apply Hc|apply Hc']; by right.
  - destruct (matches p n' e) eqn:Hm'; [|by left]. right.
    by destruct (wiring_digest_inj n n' _ (matches_wiring _ _ _ Hm) (matches_wiring _ _ _ Hm')).
Qed.

(** ** Built DAGs *)

(** [producers_first], as a test. *)
Fixpoint served (known : list BindingKind) (nodes : list OperationDagNode) : bool :=
  match nodes with
  | [] => true
  | n :: nodes' => forallb (fun k => mem k known) (consumes n) && served (known ++ produces n) nodes'
  end.

Lemma served_spec nodes : forall known,
  served known nodes = true ->
  forall pre n post, nodes = pre ++ n :: post -> consumes n ⊆ known ++ declared pre.
Proof.
  induction nodes as [|m nodes IH]; intros known; simpl; [by intros _ []|].
  rewrite andb_true_iff, forallb_Forall. intros [Hm Hs] [|x pre] n post E; simplify_eq/=.
  - unfold declared. simpl. rewrite app_nil_r. intros k Hk. by apply mem_spec, Hm.
  - unfold declared in *. simpl. rewrite app_assoc. by apply (IH (known ++ produces x) Hs pre n post).
Qed.

Definition runs_in_declaration_order (nodes : list OperationDagNode) : bool :=
  bool_decide (topologicalOrder nodes = nodes) && served [] nodes && forallb checkpoint nodes.

Lemma build_order active v :
  v ∈ versions ->
  match buildOperationDag active v with
  | Ok nodes => implb (modules_ok active) (runs_in_declaration_order nodes) = true
  | Err _ => True
  end.
Proof.
  unfold modules_ok. intros [->|[->|[]%not_elem_of_nil]%elem_of_cons]%elem_of_cons;
    unfold buildOperationDag, optional_module; by_active active; vm_compute; auto.
Qed.

(** ** Properties *)

(** No work is lost or repeated: whatever a run leaves in the journal, with
    whatever outcome, the next run over the same nodes keeps it whole,
    replays its nodes and starts none of them again. *)
Theorem resume_keeps_journal request request' registry registry' journal journal1 journal2 evs1 evs2 res1 res2 :
  dag_ok (nodes request) -> all_checkpoint (nodes request) -> nodes request' = nodes request ->
  run request registry journal = (journal1, evs1, res1) ->
  run request' registry' journal1 = (journal2, evs2, res2) ->
  journal1 `prefix_of` journal2 /\
  forall e, e ∈ journal1 ->
    node_replayed (entry_node_id e) ∈ evs2 /\ node_started (entry_node_id e) ∉ evs2.
Proof.
  intros Hok Hc En H1 H2. rewrite <- En in Hok, Hc.
  assert (journalIndex (replay (topologicalOrder (nodes request')) journal1 ∅) = length journal1) as Ha.
  { rewrite En in *. by eapply run_accepted. }
  rewrite run_valid in H2 by done. set (r := replay _ journal1 ∅) in *. rewrite Ha, firstn_all in H2.
  injection H2 as <- <- _. split; [by apply prefix_app_r|]. intros e He.
  assert (entry_node_id e ∈ replayedNodes r) as Hin.
  { unfold r. rewrite <- replay_ids. fold r. rewrite Ha, firstn_all. by apply (list_elem_of_fmap_2 entry_node_id). }
  split; [apply elem_of_app; left; by apply (list_elem_of_fmap_2 node_replayed)|].
  intros [?|Hs]%elem_of_app; [by eapply replayed_not_started|].
  rewrite <- Ha in Hs. by apply (replayed_start request' registry' journal1 _ Hok Hc) in Hs.
Qed.

(** C30. Crash equivalence. Runners and the names of checkpoints are functions of
    their context: asked again they answer the same. Let an uninterrupted run leave the journal [J]. A run to
    the end from any prefix of [J] leaves [J] again; it replays what the prefix
    holds of the nodes before the first one without a checkpoint, and executes
    exactly the others, those after that node even when the prefix holds them. And
    a run from a prefix of [J] that is interrupted (a runner throws, awaits an
    approval, blocks, is missing, or the host pauses) leaves a prefix of [J]
    that has kept what is replayed of the one it began with: all of it, when
    every node has a checkpoint. *)
Theorem crash_resume_equivalence request registry registry' J evs executed prefix :
  dag_ok (nodes request) -> run request registry [] = (J, evs, Ok (completed executed [])) ->
  interrupts registry' registry -> prefix `prefix_of` J ->
  let kept := Nat.min (length prefix) (replayable (topologicalOrder (nodes request))) in
  (exists evs', run request registry prefix = (J, evs', Ok (completed (drop kept executed) (take kept executed)))) /\
  (exists J' evs' res', run request registry' prefix = (J', evs', res') /\
     take kept prefix `prefix_of` J' /\ J' `prefix_of` J) /\
  (all_checkpoint (nodes request) -> kept = length prefix).
Proof.
  intros Hok H1 Hw [rest EJ] kept. rewrite run_valid in H1 by done. rewrite !run_valid by done. unfold kept. clear kept.
  set (ordered := topologicalOrder (nodes request)) in *.
  assert (replay ordered [] ∅ = Replayed 0 [] ∅ ordered) as E0 by (by destruct ordered).
  rewrite E0 in H1. simpl in H1. injection H1 as HJ _ Ho.
  pose proof (execute_completes _ _ _ _ _ _ _ _ _ Ho) as Hcomp. rewrite HJ in Hcomp.
  assert (executed = map node_id ordered) as ->.
  { destruct (completes_execute _ _ _ _ _ _ Hcomp [] []) as [? Hx]. rewrite Hx in Ho. by injection Ho. }
  destruct (completes_resume _ _ _ _ _ _ Hcomp (length prefix)) as [Hi Hr].
  { rewrite EJ, length_app. lia. }
  assert (take (length prefix) J = prefix) as Et by (rewrite EJ; apply take_app_length). rewrite Et in Hi, Hr.
  set (kept := Nat.min (length prefix) (replayable ordered)) in *.
  assert (take kept prefix ++ drop kept J = J) as Esplit.
  { rewrite <- (take_drop kept J) at 2. f_equal. rewrite EJ, take_app_le by lia. done. }
  destruct (replay_shape ordered prefix ∅) as (_ & _ & Hids & Hrem). rewrite Hi in Hids, Hrem. simpl in Hr. rewrite Hi.
  split_and!.
  - destruct (completes_execute _ _ _ _ _ _ Hr (replayedNodes (replay ordered prefix ∅)) []) as [evs' Hx].
    rewrite Hx. simpl. rewrite Hids, Hrem, Esplit, skipn_map, firstn_map. by eexists.
  - do 3 eexists. split; [done|]. split; [by apply prefix_app_r|]. rewrite <- Esplit.
    apply prefix_app. by apply (completes_interrupted _ _ _ _ _ _ _ Hr Hw).
  - intros Hc. unfold kept. rewrite replayable_all by by apply order_checkpoint.
    assert (length J <= length ordered)%nat; [|rewrite EJ, length_app in *; lia]. by eapply completes_length.
Qed.

(** Nodes start in dependency order: when a node starts, each of its
    dependencies has been replayed or committed, and the node itself has
    neither started nor been replayed in this run. *)
Theorem nodes_start_in_dependency_order request registry journal journal' evs res pre i post n d :
  dag_ok (nodes request) -> all_checkpoint (nodes request) ->
  run request registry journal = (journal', evs, res) -> evs = pre ++ node_started i :: post ->
  n ∈ nodes request -> node_id n = i -> d ∈ depends_on n ->
  node_replayed d ∈ pre \/ exists c, node_committed d c ∈ pre.
Proof.
  intros Hok Hc Hrun Epre Hn Hi Hd. rewrite run_valid in Hrun by done.
  set (ordered := topologicalOrder (nodes request)) in *. set (r := replay ordered journal ∅) in *.
  injection Hrun as _ Eev _.
  destruct (replay_shape ordered journal ∅) as (_ & _ & Hids & Hrem). fold r in Hids, Hrem.
  assert (exists pre', pre = map node_replayed (replayedNodes r) ++ pre' /\
    events (execute request registry (replayedNodes r) (remaining r) (rp_produced r) (journalIndex r) []) =
      pre' ++ node_started i :: post) as (pre' & -> & E).
  { rewrite Epre in Eev. symmetry in Eev. apply app_eq_inv in Eev as [(k & E1 & E2)|(k & E1 & E2)].
    - by exists k.
    - destruct k as [|ev k]; [exists []; simpl in *; rewrite app_nil_r in *; by subst|].
      injection E2 as <- _. exfalso. apply (replayed_not_started (replayedNodes r) i). rewrite E1.
      apply elem_of_app. right. left. }
  assert (all_checkpoint (remaining r)) as Hcr.
  { rewrite Hrem. intros m Hm. apply (order_checkpoint _ Hok Hc). by eapply subseteq_drop. }
  destruct (execute_events _ _ _ _ _ _ _ _ _ _ Hcr E) as (before & n' & after & Eb & Hn' & Hbefore).
  destruct (topological_order _ Hok) as [Hperm [_ _ Hord _]]. fold ordered in Hperm, Hord.
  assert (ordered = (take (journalIndex r) ordered ++ before) ++ n' :: after) as Eo.
  { rewrite <- app_assoc, <- Eb, Hrem. by rewrite take_drop. }
  assert (n = n') as ->.
  { apply (NoDup_keys_inj node_id _ (dag_ids _ Hok)); [done| |congruence].
    rewrite <- Hperm, Eo. apply elem_of_app. right. left. }
  apply (Hord _ _ _ Eo) in Hd. rewrite fmap_app in Hd. apply elem_of_app in Hd as [Hd|Hd].
  - left. apply elem_of_app. left. apply (list_elem_of_fmap_2 node_replayed). by rewrite Hids.
  - right. apply (list_elem_of_fmap_1 node_id) in Hd as (m & -> & Hm). destruct (Hbefore m Hm) as [c Hin].
    exists c. apply elem_of_app. by right.
Qed.

(** Rewiring invalidates the earliest affected node: run over another DAG,
    the journal is kept exactly up to the first node, in execution order,
    whose wiring differs, and the nodes replayed are exactly those before it
    (unless the hash collides). *)
Theorem rewiring_rewinds_journal request request' registry registry' journal journal1 journal2 evs1 evs2 res1 res2 :
  dag_ok (nodes request) -> all_checkpoint (nodes request) ->
  dag_ok (nodes request') -> all_checkpoint (nodes request') ->
  run request registry journal = (journal1, evs1, res1) ->
  run request' registry' journal1 = (journal2, evs2, res2) ->
  let kept := Nat.min (length journal1)
                (common_prefix (topologicalOrder (nodes request)) (topologicalOrder (nodes request'))) in
  hash_collision \/
  (take kept journal1 `prefix_of` journal2 /\
   forall i, node_replayed i ∈ evs2 <-> i ∈ map node_id (take kept (topologicalOrder (nodes request')))).
Proof.
  intros Hok Hc Hok' Hc' H1 H2 kept.
  pose proof (run_accepted _ _ _ _ _ _ Hok Hc H1) as Ha.
  destruct (replay_common _ (topologicalOrder (nodes request')) journal1 ∅ (order_checkpoint _ Hok Hc)
    (order_checkpoint _ Hok' Hc') Ha) as [Hk|?]; [right|by left].
  rewrite run_valid in H2 by done. fold kept in Hk. rewrite Hk in H2. injection H2 as <- <- _.
  split; [by apply prefix_app_r|]. intros i.
  destruct (replay_shape (topologicalOrder (nodes request')) journal1 ∅) as (_ & _ & Hids & _). rewrite Hk in Hids.
  rewrite elem_of_app, <- Hids. split.
  - intros [(j & [= ->] & Hj)%(list_elem_of_fmap_1 node_replayed)|Hi]; [done|].
    by apply execute_no_replay in Hi.
  - intros Hi. left. by apply (list_elem_of_fmap_2 node_replayed).
Qed.

(** With runners that commit what their nodes declare, a run completes if and
    only if the execution order puts the producer of every binding before its
    consumers; it then executes every node once. *)
Theorem cooperative_run_completes_iff request registry :
  dag_ok (nodes request) -> all_checkpoint (nodes request) -> cooperative registry (nodes request) ->
  producers_first (topologicalOrder (nodes request)) <->
  exists J evs, run request registry [] =
    (J, evs, Ok (completed (map node_id (topologicalOrder (nodes request))) [])).
Proof.
  intros Hok Hc Hco. rewrite run_valid by done. set (ordered := topologicalOrder (nodes request)).
  assert (replay ordered [] ∅ = Replayed 0 [] ∅ ordered) as -> by (by destruct ordered). simpl.
  pose proof (order_checkpoint _ Hok Hc) as Hoc. fold ordered in Hoc. split.
  - intros Hp. destruct (cooperative_completes request registry ordered ∅ 0) as [J HJ].
    + intros n Hn. apply Hco. destruct (topological_order _ Hok) as [Hperm _]. by rewrite <- Hperm.
    + done.
    + intros pre n post E k Hk. right. by apply (Hp pre n post E).
    + destruct (completes_execute _ _ _ _ _ _ HJ [] []) as [evs ->]. simpl. by do 2 eexists.
  - intros (J & evs & [= _ _ Ho]) pre n post E k Hk.
    pose proof (execute_completes _ _ _ _ _ _ _ _ _ Ho) as Hcomp.
    destruct (completes_served _ _ _ _ _ _ Hcomp Hoc pre n post E k Hk) as [[? Hl]|?]; [|done].
    by rewrite lookup_empty in Hl.
Qed.

(** C40. The DAGs the builder makes from compatible modules never hit that: with
    cooperative runners every such operation completes, node by node in the
    order of declaration. *)
Theorem built_dag_completes active v operation plan nodes registry :
  v ∈ versions -> buildOperationDag active v = Ok nodes -> compatible_modules active ->
  cooperative registry nodes ->
  exists J evs, run (Request operation plan nodes) registry [] = (J, evs, Ok (completed (map node_id nodes) [])).
Proof.
  intros Hv Hb Hm%modules_ok_spec Hco.
  pose proof (build_cases active v Hv) as Hok. pose proof (build_order active v Hv) as Ho.
  rewrite Hb in Hok, Ho. rewrite Hm in Hok, Ho. apply validate_Ok in Hok. simpl in Ho.
  unfold runs_in_declaration_order in Ho. bool_hyps.
  assert (all_checkpoint nodes) as Hc by exact (proj1 (forallb_Forall checkpoint nodes) H1).
  rewrite run_valid by done. simpl.
  assert (topologicalOrder nodes = nodes) as -> by done.
  assert (replay nodes [] ∅ = Replayed 0 [] ∅ nodes) as -> by (by destruct nodes). simpl.
  destruct (cooperative_completes (Request operation plan nodes) registry nodes ∅ 0) as [J HJ]; [done..| |].
  - intros pre n post E k Hk. right. by apply (served_spec nodes [] ltac:(done) pre n post E).
  - destruct (completes_execute _ _ _ _ _ _ HJ [] []) as [evs ->]. by do 2 eexists.
Qed.

(** Validation does not make the consumer of a binding depend on its
    producer: a DAG that declares the consumer first validates and can never
    run, however its runners behave. *)
Theorem validated_dag_may_never_run :
  exists nodes, validateOperationDag nodes = Ok tt /\
    forall operation plan registry journal,
      (run (Request operation plan nodes) registry journal).2 = Err (DagEngineError runner_output_mismatch).
Proof.
  exists [Node "report" kernel None [] ["snapshot"] [] true None;
          Node "snapshot" kernel None [] [] ["snapshot"] true None].
  split; [vm_compute; reflexivity|]. intros operation plan registry journal.
  destruct journal as [|e journal]; reflexivity.
Qed.
End engine.

(* ------------------------------------------------------------------ *)
(** ** Witnesses *)

(** The DAG of an operation without modules, runners that commit a digest
    named after each binding, and the same runners with the plan interrupted. *)
#[local] Definition sample_nodes : list OperationDagNode :=
  match buildOperationDag [] PROTOCOL_1_1_VERSION with Ok l => l | Err _ => [] end.
#[local] Definition commit_all : DagNodeRunner := fun context =>
  Some (committed (map (fun k => Produced k ("digest_" +:+ k)) (produces (ctx_node context)))).
#[local] Definition sample_registry : DagRunnerRegistry :=
  Registry (list_to_map (map (fun n => (node_id n, commit_all)) sample_nodes)) ∅.
#[local] Definition crashing_registry : DagRunnerRegistry :=
  Registry (<["plan" := fun _ => None]> (kernel_runners sample_registry)) ∅.
#[local] Definition checkpoint_name (operation node : string) (n : Z) : string := node.
#[local] Definition sample_request : DagRunRequest := Request "operation_1" "plan_1" sample_nodes.

Lemma sample_dag_ok : dag_ok sample_nodes.
Proof. apply validate_Ok. vm_compute. reflexivity. Qed.
Lemma sample_checkpoints : all_checkpoint sample_nodes.
Proof. refine (proj1 (forallb_Forall checkpoint sample_nodes) _). vm_compute. reflexivity. Qed.

#[local] Definition identity_hash : Hash := {| sha256 := fun s => s |}.
#[local] Existing Instance identity_hash.

Abbreviation sample_run := (run checkpoint_name sample_request).

Lemma commit_all_declares node context :
  ctx_node context = node -> exists bs, commit_all context = Some (committed bs) /\
    forall k, k ∈ map pb_kind bs <-> k ∈ produces node.
Proof.
  intros <-. eexists. split; [done|]. intros k. rewrite map_map. simpl. by rewrite map_id.
Qed.

Lemma sample_cooperative : cooperative sample_registry sample_nodes.
Proof.
  intros node Hn. exists commit_all. split; [|intros context; apply commit_all_declares].
  assert (Forall (fun n => resolveRunner sample_registry n = Ok commit_all) sample_nodes) as Hf.
  { unfold sample_nodes. vm_compute. repeat constructor. }
  rewrite Forall_forall in Hf. by apply Hf.
Qed.

(** [plan] throws; everything else answers as before. *)
Lemma crashing_interrupts : interrupts crashing_registry sample_registry.
Proof.
  intros node runner' E. unfold resolveRunner in *.
  destruct (node_kind node); [|by destruct (node_capability node)].
  unfold crashing_registry in E. cbn [kernel_runners] in E. rewrite lookup_insert in E.
  destruct (decide ("plan" = node_id node)) as [<-|Hn]; simplify_eq.
  - exists commit_all. split; [vm_compute; reflexivity|]. intros context. by right.
  - exists runner'. split; [done|]. intros context. by left.
Qed.

Abbreviation crashed := ((sample_run crashing_registry []).1.1).

Lemma resume_keeps_journal_witness :
  map entry_node_id crashed = ["capture"; "capability_decision"] /\
    crashed `prefix_of` (sample_run sample_registry crashed).1.1.
Proof.
  split; [vm_compute; reflexivity|].
  destruct (sample_run crashing_registry []) as [[j1 e1] r1] eqn:E1. cbn [fst snd].
  destruct (sample_run sample_registry j1) as [[j2 e2] r2] eqn:E2. cbn [fst snd].
  apply (resume_keeps_journal checkpoint_name sample_request sample_request crashing_registry sample_registry
    [] j1 j2 e1 e2 r1 r2 sample_dag_ok sample_checkpoints eq_refl E1 E2).
Defined.

Lemma crash_resume_equivalence_witness :
  exists J evs executed, sample_run sample_registry [] = (J, evs, Ok (completed executed [])) /\
    length J = 7%nat /\
    exists evs', sample_run sample_registry (take 3 J) = (J, evs', Ok (completed (drop 3 executed) (take 3 executed))).
Proof.
  assert (length (sample_run sample_registry []).1.1 = 7%nat) as Hl by (vm_compute; reflexivity).
  assert (exists executed, (sample_run sample_registry []).2 = Ok (completed executed [])) as [executed Hr]
    by (eexists; vm_compute; reflexivity).
  destruct (sample_run sample_registry []) as [[J evs] res] eqn:E. cbn [fst snd] in Hl, Hr. subst res.
  exists J, evs, executed. split; [reflexivity|]. split; [exact Hl|].
  destruct (crash_resume_equivalence checkpoint_name sample_request sample_registry crashing_registry J evs executed
    (take 3 J) sample_dag_ok E crashing_interrupts (prefix_take J 3)) as [H3 _].
  rewrite length_take, Hl in H3. exact H3.
Defined.

Lemma nodes_start_in_dependency_order_witness :
  exists pre : list DagEngineEvent, node_started "plan" ∈ (sample_run crashing_registry []).1.2 /\
    exists c, node_committed "capability_decision" c ∈ pre.
Proof.
  assert ((sample_run crashing_registry []).1.2 = [node_started "capture"; node_committed "capture" "capture"; node_started "capability_decision";
    node_committed "capability_decision" "capability_decision"] ++ node_started "plan" :: []) as He
    by (vm_compute; reflexivity).
  destruct (sample_run crashing_registry []) as [[j1 e1] r1] eqn:E1. cbn [fst snd] in *.
  assert (exists n, n ∈ sample_nodes /\ node_id n = "plan" /\ "capability_decision" ∈ depends_on n) as (n & Hn & Hi & Hd).
  { exists (kernelNode "plan" ["capability_decision"] ["requirement_baseline"] ["execution_plan"]).
    split; [apply mem_spec; vm_compute; reflexivity|]. split; [reflexivity|left]. }
  eexists. split; [rewrite He; apply elem_of_app; right; left|].
  destruct (nodes_start_in_dependency_order checkpoint_name sample_request crashing_registry [] j1 e1 r1 _
    "plan" [] n "capability_decision" sample_dag_ok sample_checkpoints E1 He Hn Hi Hd) as [Hr|Hc]; [|exact Hc].
  exfalso. apply mem_spec in Hr. vm_compute in Hr. discriminate.
Defined.

(** The same operation with [impact_analysis] activated: the first two nodes
    stay, [plan] is rewired behind the new node. *)
#[local] Definition upgraded_request : DagRunRequest :=
  Request "operation_1" "plan_2"
    match buildOperationDag ["impact_analysis"] PROTOCOL_1_1_VERSION with Ok l => l | Err _ => [] end.

Lemma rewiring_rewinds_journal_witness :
  take 2 (sample_run sample_registry []).1.1 `prefix_of`
    (run checkpoint_name upgraded_request sample_registry (sample_run sample_registry []).1.1).1.1.
Proof.
  assert (length (sample_run sample_registry []).1.1 = 7%nat) as Hl by (vm_compute; reflexivity).
  destruct (sample_run sample_registry []) as [[j1 e1] r1] eqn:E1. cbn [fst snd] in *.
  destruct (run checkpoint_name upgraded_request sample_registry j1) as [[j2 e2] r2] eqn:E2. cbn [fst snd].
  assert (dag_ok (nodes upgraded_request)) as Hok by (apply validate_Ok; vm_compute; reflexivity).
  assert (all_checkpoint (nodes upgraded_request)) as Hc
    by (refine (proj1 (forallb_Forall checkpoint (nodes upgraded_request)) _); vm_compute; reflexivity).
  pose proof (rewiring_rewinds_journal checkpoint_name sample_request upgraded_request sample_registry sample_registry
    [] j1 j2 e1 e2 r1 r2 sample_dag_ok sample_checkpoints Hok Hc E1 E2) as Hw. cbv zeta in Hw.
  assert (common_prefix (topologicalOrder (nodes sample_request)) (topologicalOrder (nodes upgraded_request)) = 2%nat)
    as Hp by (vm_compute; reflexivity).
  rewrite Hl, Hp in Hw. destruct Hw as [(s1 & s2 & Hs & E)|[Hpre _]]; [exact (False_ind _ (Hs E))|exact Hpre].
Defined.

Lemma cooperative_run_completes_iff_witness :
  producers_first (topologicalOrder sample_nodes) <->
  exists J evs, sample_run sample_registry [] = (J, evs, Ok (completed (map node_id (topologicalOrder sample_nodes)) [])).
Proof.
  apply (cooperative_run_completes_iff checkpoint_name sample_request sample_registry sample_dag_ok sample_checkpoints
    sample_cooperative).
Defined.

Lemma built_dag_completes_witness :
  exists J evs, sample_run sample_registry [] =
    (J, evs, Ok (completed ["capture"; "capability_decision"; "plan"; "context"; "execute"; "verify"; "snapshot"] [])).
Proof.
  apply (built_dag_completes checkpoint_name [] PROTOCOL_1_1_VERSION "operation_1" "plan_1" sample_nodes sample_registry).
  - left.
  - vm_compute. reflexivity.
  - split; intros []%not_elem_of_nil.
  - exact sample_cooperative.
Defined.
