(* ===== verification/Compiler.v ===== *)
(** * The capability compiler

    [packages/core/src/capability/compiler.ts] with the profile definitions of
    [profile/definitions.ts] and the model slots of [profile/model-slots.ts]:
    from a profile, a policy, activations and providers to a capability plan
    with its resolved capabilities, Operation DAG, invalidation graph and model
    bindings. The plan is the record before it is sealed. *)

From S2P Require Import Prelude Json Capability OperationDag.

(** ** Profiles *)

Definition PROFILE_IDS : list string := ["lite"; "standard"; "governed"].

Inductive CapabilityMode : Type := required | conditional | disabled.
#[export] Instance CapabilityMode_eq_dec : EqDecision CapabilityMode.
Proof. solve_decision. Defined.

Definition mode_text (m : CapabilityMode) : string :=
  match m with required => "required" | conditional => "conditional" | disabled => "disabled" end.

Record ProfileDefinition : Type := Profile
  { pd_profile_id : string;
    pd_protocol_version : string;
    pd_capabilities : list (CapabilityId * CapabilityMode) }.

Definition defineProfileV11 (profileId : string) (modes : list CapabilityMode) : ProfileDefinition :=
  Profile profileId PROTOCOL_1_1_VERSION (zip CAPABILITY_IDS modes).
Definition defineProfileV13 (profileId : string) (modes : list CapabilityMode) : ProfileDefinition :=
  Profile profileId PROTOCOL_1_3_VERSION (zip CAPABILITY_IDS_1_3 modes).

(** Modes in the order of the capability ids. *)
Definition PROFILE_DEFINITIONS : list ProfileDefinition :=
  [defineProfileV11 "lite" [conditional; conditional; conditional; conditional; conditional];
   defineProfileV11 "standard" [required; required; required; conditional; conditional];
   defineProfileV11 "governed" [required; required; required; required; required]].

Definition PROFILE_DEFINITIONS_1_3 : list ProfileDefinition :=
  [defineProfileV13 "lite" [conditional; conditional; conditional; conditional; conditional; disabled];
   defineProfileV13 "standard" [required; required; required; conditional; conditional; required];
   defineProfileV13 "governed" [required; required; required; required; required; required]].

Definition definition_digest `{Hash} (d : ProfileDefinition) : result canonical_error string :=
  contentDigest (JObj
    [("profile_id", JStr (pd_profile_id d)); ("protocol_version", JStr (pd_protocol_version d));
     ("capabilities", JObj (map (fun e => (e.1, JStr (mode_text e.2))) (pd_capabilities d)));
     ("approval_policy_id", JStr ("approval-policy-" +:+ pd_profile_id d));
     ("dashboard_presentation_id", JStr ("dashboard-presentation-" +:+ pd_profile_id d));
     ("cli_presentation_id", JStr ("cli-presentation-" +:+ pd_profile_id d))]).

(** ** Errors *)

Inductive compile_kind : Type :=
| illegal_provisional_stage | provisional_required | supersede_mismatch | design_set_required
| illegal_deferred | policy_conflict | policy_deny_not_overridable | unknown_capability_mode
| unknown_provider | missing_provider | prompt_contract_digest_mismatch | unknown_slot | unknown_purpose
| unexpected_purpose | capture_scope_slot | provider_config_conflict | missing_model_provider
| invalid_failure_mode | prompt_contract_required | slot_not_applicable | plan_not_final
| prompt_contract (code : string).

Inductive compile_error : Type :=
| CapabilityCompileError (kind : compile_kind)
| CapabilityRegistryError (e : registry_error)
| OperationDagError (e : dag_error)
| ProfileRegistryError
| BindingScopeError
| CanonicalError (e : canonical_error).

Abbreviation compiling A := (result compile_error A).
Abbreviation refuse k := (Err (CapabilityCompileError k)).
Abbreviation refuse_if b k := (reject_if b (CapabilityCompileError k)).

Definition profileDefinitionVersionForProtocol (protocolVersion : string) : compiling string :=
  if mem protocolVersion ["1.0.0"; PROTOCOL_1_1_VERSION; "1.2.0"] then Ok PROTOCOL_1_1_VERSION
  else if decide (protocolVersion = PROTOCOL_1_3_VERSION) then Ok PROTOCOL_1_3_VERSION
  else Err ProfileRegistryError.

Definition profileDefinitionForProtocol (profileId protocolVersion : string) : compiling ProfileDefinition :=
  let definitions := if decide (protocolVersion = PROTOCOL_1_3_VERSION) then PROFILE_DEFINITIONS_1_3
                     else PROFILE_DEFINITIONS in
  match find_first (fun d => bool_decide (pd_profile_id d = profileId)) definitions with
  | Some d => Ok d
  | None => Err ProfileRegistryError
  end.

(** ** Model slots *)

Definition MODEL_SLOT_IDS : list string :=
  ["impact_advisory"; "design_review"; "plan_proposal"; "feedback_analysis"; "grounded_synthesis"].
Definition GROUNDED_SYNTHESIS_PURPOSES : list string :=
  ["project_discovery"; "context_enrichment"; "approval_brief"; "iteration_narrative"].

Record ModelSlotDefault : Type := SlotDefault
  { sd_slot_id : string; sd_purpose : option string; sd_required : bool; sd_failure_mode : string }.

Definition CAPTURE_SCOPE_SLOTS : list (string * option string) :=
  [("grounded_synthesis", Some "approval_brief"); ("grounded_synthesis", Some "project_discovery")].

Definition bindingScopeKey (slot : string * option string) : string :=
  slot.1 +:+ ":" +:+ default "" slot.2.

Definition assertBindingScopesDisjoint (captureScope operationScope : list (string * option string)) :
  compiling unit :=
  reject_if (existsb (fun s => mem (bindingScopeKey s) (map bindingScopeKey captureScope)) operationScope)
    BindingScopeError.

Definition DOMAIN_SLOTS : list string := ["impact_advisory"; "design_review"; "plan_proposal"; "feedback_analysis"].

Definition buildTier (domainRequired groundedRequired : bool) : list ModelSlotDefault :=
  map (fun slotId => SlotDefault slotId None domainRequired "block") DOMAIN_SLOTS
  ++ map (fun purpose => SlotDefault "grounded_synthesis" (Some purpose) groundedRequired
            (if decide (purpose = "iteration_narrative") then "projection_finding" else "block"))
       GROUNDED_SYNTHESIS_PURPOSES.

(** [(l, r) => (key(l) < key(r) ? -1 : 1)] *)
Definition by_key {A} (key : A -> string) (l r : A) : Z := if str_lt (key l) (key r) then -1 else 1.

(** The tiers [standard] and [governed] have the same slots. *)
Definition modelSlotDefaultsForProfile (profileId : string) : list ModelSlotDefault :=
  js_sort (by_key (fun d => bindingScopeKey (sd_slot_id d, sd_purpose d)))
    (if decide (profileId = "lite") then buildTier false false else buildTier true true).

Definition isCaptureScopeBinding (slot : string * option string) : bool := mem slot CAPTURE_SCOPE_SLOTS.

(** ** The compiler's input *)

Inductive CompilationStage : Type := provisional | final.
#[export] Instance CompilationStage_eq_dec : EqDecision CompilationStage.
Proof. solve_decision. Defined.

Inductive CapabilityResolution : Type := active_resolution | inactive_by_profile | deferred.
#[export] Instance CapabilityResolution_eq_dec : EqDecision CapabilityResolution.
Proof. solve_decision. Defined.

Inductive CapabilityResolutionSource : Type :=
| profile_required | policy_required | policy_denied | user_activation | risk_activation
| dependency_closure | awaiting_design_set | design_set_finalization | conditional_inactive.
#[export] Instance CapabilityResolutionSource_eq_dec : EqDecision CapabilityResolutionSource.
Proof. solve_decision. Defined.

(** [from_risk] tells a risk activation from a user activation. *)
Record CapabilityActivation : Type := Activation
  { ac_capability_id : CapabilityId; ac_from_risk : bool; ac_binding_digest : option string }.

Record ModelProviderConfig : Type := ProviderConfig
  { mc_slot_id : string;
    mc_purpose : option string;
    mc_provider_identity : string;
    mc_config_digest : string;
    mc_prompt_version : string;
    mc_schema_version : string;
    mc_budget_profile : string;
    mc_failure_mode : option string;
    (** the other keys of the object *)
    mc_other_fields : list string }.

Definition config_scope (c : ModelProviderConfig) : string * option string := (mc_slot_id c, mc_purpose c).

Record PromptContract : Type := Contract
  { prompt_contract_id : string; prompt_contract_version : string;
    prompt_contract_digest : string; output_schema_digest : string }.

Record ModelProviderBinding : Type := Binding
  { mb_slot_id : string;
    mb_purpose : option string;
    mb_required : bool;
    mb_provider_identity : string;
    mb_config_digest : string;
    mb_prompt_version : string;
    mb_contract : PromptContract;
    mb_schema_version : string;
    mb_budget_profile : string;
    mb_failure_mode : string }.

Definition binding_scope (b : ModelProviderBinding) : string * option string := (mb_slot_id b, mb_purpose b).

Record ResolvedCapability : Type := Resolved
  { resolution : CapabilityResolution;
    resolution_source : CapabilityResolutionSource;
    binding_digest : string }.

Record InvalidationEdge : Type := Edge { binding_kind : BindingKind; invalidates : list CapabilityId }.

(** The digests a final revision must share with its provisional one. *)
Record PlanBindings : Type := Bindings
  { pb_operation_id : string;
    pb_profile_id : string;
    pb_project_profile_digest : string;
    pb_profile_decision_digest : string;
    pb_requirement_digest : string;
    pb_risk_digest : string;
    pb_policy_digest : string;
    pb_baseline_digest : string }.
#[export] Instance PlanBindings_eq_dec : EqDecision PlanBindings.
Proof. solve_decision. Defined.

Record CapabilityPlan : Type := Plan
  { cp_protocol_version : string;
    cp_bindings : PlanBindings;
    cp_revision : Z;
    cp_stage : CompilationStage;
    cp_capabilities : list (CapabilityId * ResolvedCapability);
    cp_providers : list string;
    cp_approval_objects : list string;
    cp_nodes : list OperationDagNode;
    cp_invalidation_graph : list InvalidationEdge;
    cp_model_bindings : list ModelProviderBinding;
    cp_design_set : option (string * string);
    cp_supersedes_digest : option string }.

(** The plan a final revision supersedes, with its record digest. *)
Record SupersededPlan : Type := Superseded
  { su_stage : CompilationStage; su_bindings : PlanBindings; su_revision : Z; su_record_digest : string }.

Record CapabilityPlanCompileInput : Type := CompileInput
  { ci_bindings : PlanBindings;
    ci_stage : CompilationStage;
    ci_denied : list CapabilityId;
    ci_required : list CapabilityId;
    ci_activations : list CapabilityActivation;
    ci_providers : list string;
    ci_model_providers : list ModelProviderConfig;
    ci_resolver : option (string -> option string -> string -> result string PromptContract);
    ci_capture_scope : list (string * option string);
    ci_accepted_design_set : option (string * string);
    ci_supersedes : option SupersededPlan;
    ci_protocol_version : string }.

Definition ci_profile_id (input : CapabilityPlanCompileInput) : string := pb_profile_id (ci_bindings input).

(** ** Resolution *)

Section compiler.
Context `{Hash}.
Implicit Types input : CapabilityPlanCompileInput.

Definition profileCapabilityMode (definition : ProfileDefinition) (capabilityId : CapabilityId) :
  compiling CapabilityMode :=
  match omap_get (pd_capabilities definition) capabilityId with
  | Some mode => Ok mode
  | None => refuse unknown_capability_mode
  end.

(** [activations.get(capabilityId)]: the last activation of an id stays. *)
Definition activation_of (activations : list CapabilityActivation) (capabilityId : CapabilityId) :
  option CapabilityActivation :=
  find_first (fun a => bool_decide (ac_capability_id a = capabilityId)) (reverse activations).

(** The body of the loop over the registered capabilities. *)
Definition resolve_capability input (definition : ProfileDefinition) (digest : string) (capabilityId : CapabilityId) :
  compiling ResolvedCapability :=
  mode ← profileCapabilityMode definition capabilityId;
  let denied := mem capabilityId (ci_denied input) in
  let policyRequired := mem capabilityId (ci_required input) in
  let activation := activation_of (ci_activations input) capabilityId in
  _ ← refuse_if (denied && bool_decide (mode = required)) policy_conflict;
  _ ← refuse_if (denied && bool_decide (is_Some activation)) policy_deny_not_overridable;
  let policy := pb_policy_digest (ci_bindings input) in
  if denied then Ok (Resolved inactive_by_profile policy_denied policy)
  else if decide (mode = required) then Ok (Resolved active_resolution profile_required digest)
  else if bool_decide (pd_profile_id definition = "standard") && bool_decide (capabilityId = "strict_tdd") &&
          bool_decide (mode = conditional)
       then Ok (Resolved deferred awaiting_design_set digest)
  else if policyRequired then Ok (Resolved active_resolution policy_required policy)
  else
    match activation with
    | Some a =>
        if decide (mode = disabled) then Ok (Resolved inactive_by_profile conditional_inactive digest)
        else Ok (Resolved active_resolution (if ac_from_risk a then risk_activation else user_activation)
                   (default (if ac_from_risk a then pb_risk_digest (ci_bindings input)
                             else pb_profile_decision_digest (ci_bindings input)) (ac_binding_digest a)))
    | None => Ok (Resolved inactive_by_profile conditional_inactive digest)
    end.

Abbreviation resolution_map := (list (CapabilityId * ResolvedCapability)).

Definition resolveCapabilities input (definition : ProfileDefinition) (digest : string) : compiling resolution_map :=
  let version := ci_protocol_version input in
  _ ← forM_ (fun a => _ ← map_err CapabilityRegistryError (capabilityModuleDefinition (ac_capability_id a) version);
                      Ok tt) (ci_activations input);
  ids ← map_err CapabilityRegistryError (registeredCapabilityIds version);
  mapM (fun id => r ← resolve_capability input definition digest id; Ok (id, r)) ids.

(** ** Model bindings *)

Definition OPERATION_SCOPE_SLOTS : list ((string * option string) * option CapabilityId) :=
  [(("impact_advisory", None), Some "impact_analysis"); (("design_review", None), Some "design_governance");
   (("plan_proposal", None), None); (("feedback_analysis", None), None);
   (("grounded_synthesis", Some "context_enrichment"), None);
   (("grounded_synthesis", Some "iteration_narrative"), None)].

Definition HAND_SUPPLIED_FIELDS : list string :=
  ["prompt_contract_id"; "prompt_contract_version"; "prompt_contract_digest"; "output_schema_digest"].

Definition check_purpose (config : ModelProviderConfig) : compiling unit :=
  if decide (mc_slot_id config = "grounded_synthesis") then
    match mc_purpose config with
    | Some p => refuse_if (negb (mem p GROUNDED_SYNTHESIS_PURPOSES)) unknown_purpose
    | None => refuse unknown_purpose
    end
  else refuse_if (bool_decide (is_Some (mc_purpose config))) unexpected_purpose.

(** The loop over the offered configs: the map by scope key. *)
Definition index_config (configs : list (string * ModelProviderConfig)) (config : ModelProviderConfig) :
  compiling (list (string * ModelProviderConfig)) :=
  _ ← refuse_if (existsb (fun f => mem f (mc_other_fields config)) HAND_SUPPLIED_FIELDS)
        prompt_contract_digest_mismatch;
  _ ← refuse_if (negb (mem (mc_slot_id config) MODEL_SLOT_IDS)) unknown_slot;
  _ ← check_purpose config;
  _ ← refuse_if (isCaptureScopeBinding (config_scope config)) capture_scope_slot;
  let key := bindingScopeKey (config_scope config) in
  _ ← refuse_if (bool_decide (is_Some (omap_get configs key))) provider_config_conflict;
  Ok (omap_set configs key config).

(** One operation-scope slot: its binding, if it gets one. *)
Definition bind_slot input (active : list CapabilityId) (configs : list (string * ModelProviderConfig))
    (slot : (string * option string) * option CapabilityId) : compiling (list ModelProviderBinding) :=
  let key := bindingScopeKey slot.1 in
  let activated := match slot.2 with Some c => mem c active | None => false end in
  if negb activated && bool_decide (is_Some slot.2) then Ok []
  else
    match find_first (fun d => bool_decide (bindingScopeKey (sd_slot_id d, sd_purpose d) = key))
            (modelSlotDefaultsForProfile (ci_profile_id input)) with
    | None => refuse unknown_slot
    | Some slotDefault =>
        let liteActivated := bool_decide (ci_profile_id input = "lite") && activated in
        let must := sd_required slotDefault || liteActivated in
        match omap_get configs key with
        | None => _ ← refuse_if must missing_model_provider; Ok []
        | Some config =>
            _ ← refuse_if (match mc_failure_mode config with
                           | Some m => negb (bool_decide (m = sd_failure_mode slotDefault))
                           | None => false
                           end) invalid_failure_mode;
            match ci_resolver input with
            | None => refuse prompt_contract_required
            | Some resolve =>
                match resolve (mc_slot_id config) (mc_purpose config) (mc_prompt_version config) with
                | Err code => refuse (prompt_contract code)
                | Ok contract =>
                    Ok [Binding (mc_slot_id config) (mc_purpose config) must (mc_provider_identity config)
                          (mc_config_digest config) (mc_prompt_version config) contract (mc_schema_version config)
                          (mc_budget_profile config) (sd_failure_mode slotDefault)]
                end
            end
        end
    end.

Definition compileModelProviderBindings input (active : list CapabilityId) : compiling (list ModelProviderBinding) :=
  configs ← foldM index_config [] (ci_model_providers input);
  bindings ← mapM (bind_slot input active configs) OPERATION_SCOPE_SLOTS;
  let bound := concat bindings in
  _ ← refuse_if (existsb (fun k => negb (mem k (map (fun b => bindingScopeKey (binding_scope b)) bound))) configs.*1)
        slot_not_applicable;
  let sorted := js_sort (by_key (fun b => bindingScopeKey (binding_scope b))) bound in
  _ ← assertBindingScopesDisjoint (ci_capture_scope input) (map binding_scope sorted);
  Ok sorted.

(** ** Invalidation *)

Definition link_invalidation (version : string) (edges : list (BindingKind * list CapabilityId))
    (capabilityId : CapabilityId) : result registry_error (list (BindingKind * list CapabilityId)) :=
  m ← capabilityModuleDefinition capabilityId version;
  Ok (foldl (fun es kind => omap_set es kind (default [] (omap_get es kind) ++ [capabilityId])) edges
        (invalidated_by m)).

Definition compileInvalidationGraph (active : list CapabilityId) (version : string) :
  result registry_error (list InvalidationEdge) :=
  edges ← foldM (link_invalidation version) [] active;
  Ok (js_sort (by_key binding_kind) (map (fun e => Edge e.1 (sort_strings e.2)) edges)).

(** ** The plan *)

(** The closure activates what it needs, keeping the position of each entry. *)
Definition activate (digest : string) (resolved : resolution_map) (capabilityId : CapabilityId) : resolution_map :=
  match omap_get resolved capabilityId with
  | Some entry =>
      if decide (resolution entry = active_resolution) then resolved
      else omap_set resolved capabilityId (Resolved active_resolution dependency_closure digest)
  | None => resolved
  end.

Definition finalize_strict_tdd input (resolved : resolution_map) : compiling resolution_map :=
  match omap_get resolved "strict_tdd" with
  | Some entry =>
      if bool_decide (ci_stage input = final) && bool_decide (ci_profile_id input = "standard") &&
         negb (bool_decide (resolution entry = inactive_by_profile))
      then
        match ci_accepted_design_set input with
        | None => refuse design_set_required
        | Some d => Ok (omap_set resolved "strict_tdd" (Resolved active_resolution design_set_finalization d.2))
        end
      else Ok resolved
  | None => Ok resolved
  end.

Definition check_deferred input (resolved : resolution_map) : compiling unit :=
  forM_ (fun e => refuse_if (bool_decide (resolution e.2 = deferred) &&
                             negb (bool_decide (ci_stage input = provisional) &&
                                   bool_decide (ci_profile_id input = "standard") &&
                                   bool_decide (e.1 = "strict_tdd"))) illegal_deferred) resolved.

Definition check_supersedes input : compiling unit :=
  match ci_supersedes input with
  | None => Ok tt
  | Some s => refuse_if (negb (bool_decide (su_stage s = provisional) && bool_decide (su_bindings s = ci_bindings input)))
                supersede_mismatch
  end.

Definition is_active (e : CapabilityId * ResolvedCapability) : bool :=
  bool_decide (resolution e.2 = active_resolution).

(** The modules of the active capabilities, in their order. *)
Definition active_modules (active : list CapabilityId) (version : string) : compiling (list CapabilityModuleDefinition) :=
  mapM (fun c => map_err CapabilityRegistryError (capabilityModuleDefinition c version)) active.

Definition check_providers (needed provided : list string) : compiling unit :=
  _ ← forM_ (fun p => refuse_if (negb (mem p ["isolated_workspace_provider"; "structured_gate_provider"]))
                        unknown_provider) provided;
  refuse_if (existsb (fun p => negb (mem p provided)) needed) missing_provider.

Definition emitted_version (version : string) (active : list CapabilityId) : string :=
  if bool_decide (version = PROTOCOL_1_3_VERSION) && mem "parallel_task_execution" active
  then PROTOCOL_1_3_VERSION else PROTOCOL_1_1_VERSION.

Definition compileCapabilityPlan input : compiling CapabilityPlan :=
  let version := ci_protocol_version input in
  let standard := bool_decide (ci_profile_id input = "standard") in
  _ ← refuse_if (bool_decide (ci_stage input = provisional) && negb standard) illegal_provisional_stage;
  _ ← refuse_if (bool_decide (ci_stage input = final) && standard && bool_decide (ci_supersedes input = None))
        provisional_required;
  _ ← check_supersedes input;
  definitionVersion ← profileDefinitionVersionForProtocol version;
  definition ← profileDefinitionForProtocol (ci_profile_id input) definitionVersion;
  digest ← map_err CanonicalError (definition_digest definition);
  resolved ← resolveCapabilities input definition digest;
  resolved ← finalize_strict_tdd input resolved;
  _ ← check_deferred input resolved;
  active ← map_err CapabilityRegistryError
             (capabilityDependencyClosure (map fst (List.filter is_active resolved)) version);
  let resolved := foldl (activate digest) resolved active in
  let emitVersion := emitted_version version active in
  modules ← active_modules active emitVersion;
  let needed := dedup (concat (map required_providers modules)) in
  _ ← check_providers needed (dedup (ci_providers input));
  bindings ← compileModelProviderBindings input active;
  nodes ← map_err OperationDagError (buildOperationDag active emitVersion);
  _ ← map_err OperationDagError (validateOperationDag nodes);
  emitted ← map_err CapabilityRegistryError (registeredCapabilityIds emitVersion);
  invalidation ← map_err CapabilityRegistryError (compileInvalidationGraph active emitVersion);
  Ok (Plan emitVersion (ci_bindings input)
        (match ci_supersedes input with Some s => su_revision s + 1 | None => 1 end)%Z (ci_stage input)
        (List.filter (fun e => mem e.1 emitted) resolved) (sort_strings needed)
        (canonicalStringSet (["project_profile"; "requirement_baseline"] ++ concat (map approval_objects modules)))
        nodes invalidation bindings
        (if decide (ci_stage input = final) then ci_accepted_design_set input else None)
        (su_record_digest <$> ci_supersedes input)).

(** ** Reading a plan *)

Definition assertCapabilityPlanFinal (plan : CapabilityPlan) : compiling unit :=
  refuse_if (negb (bool_decide (cp_stage plan = final)) ||
             existsb (fun e => bool_decide (resolution e.2 = deferred)) (cp_capabilities plan)) plan_not_final.

(** The entry's module version and digest are functions of its id. *)
Definition capabilityResolution (plan : CapabilityPlan) (capabilityId : CapabilityId) : compiling ResolvedCapability :=
  _ ← map_err CapabilityRegistryError (capabilityModuleDefinition capabilityId (cp_protocol_version plan));
  match omap_get (cp_capabilities plan) capabilityId with
  | Some entry => Ok entry
  | None => refuse unknown_capability_mode
  end.

Definition active_ids (plan : CapabilityPlan) : list CapabilityId :=
  map fst (List.filter is_active (cp_capabilities plan)).

(** One pass of the [while (changed)] loop. *)
Definition invalidation_step (version : string) (st : list CapabilityId * bool) (capabilityId : CapabilityId) :
  result registry_error (list CapabilityId * bool) :=
  if mem capabilityId st.1 then Ok st
  else
    m ← capabilityModuleDefinition capabilityId version;
    Ok (if existsb (fun d => mem d st.1) (md_depends_on m) then (st.1 ++ [capabilityId], true) else st).

Fixpoint invalidation_loop (fuel : nat) (version : string) (ids invalidated : list CapabilityId) :
  result registry_error (list CapabilityId) :=
  match fuel with
  | 0 => Err out_of_fuel
  | S fuel' =>
      st ← foldM (invalidation_step version) (invalidated, false) ids;
      if st.2 : bool then invalidation_loop fuel' version ids st.1 else Ok st.1
  end.

(** Every pass but the last adds one of the active capabilities. *)
Definition invalidatedCapabilities (plan : CapabilityPlan) (kind : BindingKind) :
  result registry_error (list CapabilityId) :=
  let direct := dedup (concat (map invalidates
                  (List.filter (fun e => bool_decide (binding_kind e = kind)) (cp_invalidation_graph plan)))) in
  let ids := active_ids plan in
  invalidated ← invalidation_loop (S (length ids)) (cp_protocol_version plan) ids direct;
  Ok (sort_strings invalidated).
End compiler.

(* ------------------------------------------------------------------ *)
(** ** Lemmas *)

Definition definitions_of (version : string) : list CapabilityModuleDefinition :=
  if decide (version = PROTOCOL_1_3_VERSION) then CAPABILITY_MODULE_DEFINITIONS_1_3
  else CAPABILITY_MODULE_DEFINITIONS.

Lemma definitions_version v :
  v ∈ versions -> capabilityModuleDefinitionsForProtocol v = Ok (definitions_of v).
Proof.
  intros [->|[->|[]%not_elem_of_nil]%elem_of_cons]%elem_of_cons; vm_compute; reflexivity.
Qed.

Definition ids_of_version (version : string) : list CapabilityId :=
  map capability_id (definitions_of version).

Lemma registered_version v :
  v ∈ versions -> exists ids, registeredCapabilityIds v = Ok ids /\ NoDup ids /\
    forall c, c ∈ ids <-> c ∈ ids_of_version v.
Proof.
  assert (forall l k : list string, has_duplicates l = false -> l = sort_strings k -> NoDup l /\ forall c, c ∈ l <-> c ∈ k) as Hl.
  { intros l k Hn ->. split; [by apply has_duplicates_NoDup|]. intros c. apply elem_of_sort_strings. }
  intros [->|[->|[]%not_elem_of_nil]%elem_of_cons]%elem_of_cons;
    (eexists; split; [reflexivity|];
     first [apply (Hl _ CAPABILITY_IDS)|apply (Hl _ CAPABILITY_IDS_1_3)]; vm_compute; reflexivity).
Qed.

Lemma find_module c l m :
  find_first (fun d => bool_decide (capability_id d = c)) l = Some m -> m ∈ l /\ capability_id m = c.
Proof. intros [Hm Hc]%find_first_Some. by bool_hyps. Qed.

Lemma module_known v c :
  v ∈ versions -> c ∈ ids_of_version v ->
  exists m, capabilityModuleDefinition c v = Ok m /\ module_map (definitions_of v) !! c = Some m.
Proof.
  intros Hv Hc. unfold capabilityModuleDefinition. rewrite definitions_version by done. simpl.
  assert (Forall (fun c => find_first (fun d => bool_decide (capability_id d = c)) (definitions_of v) =
    module_map (definitions_of v) !! c) (ids_of_version v)) as Hf.
  { revert Hv; intros [->|[->|[]%not_elem_of_nil]%elem_of_cons]%elem_of_cons; repeat constructor. }
  rewrite Forall_forall in Hf. rewrite Hf by done.
  destruct (proj2 (module_map_known (definitions_of v) c) Hc) as [m ->]. by exists m.
Qed.

Lemma module_depends_inclusion v v' c d :
  v = v' \/ v = PROTOCOL_1_1_VERSION -> v' ∈ versions ->
  module_depends (definitions_of v) c d -> module_depends (definitions_of v') c d.
Proof.
  intros [->| ->] Hv'; [done|]. intros (m & Hm & Hd). exists m. split; [|done].
  revert Hv'. intros [->|[->|[]%not_elem_of_nil]%elem_of_cons]%elem_of_cons; [done|].
  change (<["parallel_task_execution" := PARALLEL_TASK_EXECUTION_MODULE]>
    (module_map CAPABILITY_MODULE_DEFINITIONS) !! c = Some m).
  rewrite lookup_insert. destruct (decide _) as [<-|]; [|done]. vm_compute in Hm. discriminate.
Qed.

(** ** The resolution map *)

Section resolution.
Context `{Hash}.
Abbreviation resolution_map := (list (CapabilityId * ResolvedCapability)).
Implicit Types m : resolution_map.

Definition active_in m (c : CapabilityId) : Prop :=
  exists e, omap_get m c = Some e /\ resolution e = active_resolution.

Lemma active_elem m c :
  NoDup m.*1 -> c ∈ map fst (List.filter is_active m) <-> active_in m c.
Proof.
  intros Hn. rewrite list_elem_of_In, in_map_iff. setoid_rewrite filter_In. split.
  - intros ([c' e] & <- & Hin & Ha). exists e. split; [|by apply bool_decide_eq_true in Ha].
    apply elem_omap_get; [done|]. by apply list_elem_of_In.
  - intros (e & He & Ha). exists (c, e). split; [done|]. split; [|by apply bool_decide_eq_true].
    apply list_elem_of_In. by apply omap_get_elem.
Qed.

Lemma activate_keys d m c : (activate d m c).*1 = m.*1.
Proof.
  unfold activate. destruct (omap_get m c) as [e|] eqn:E; [|done]. case_decide; [done|].
  rewrite omap_set_keys, decide_True; [done|]. destruct (decide (c ∈ m.*1)) as [|Hn]; [done|].
  apply omap_get_None in Hn. congruence.
Qed.

Lemma activate_get d m c x :
  omap_get (activate d m c) x =
    if decide (c = x) then
      (fun e => if decide (resolution e = active_resolution) then e
                else Resolved active_resolution dependency_closure d) <$> omap_get m x
    else omap_get m x.
Proof.
  unfold activate. destruct (decide (c = x)) as [->|Hc].
  - destruct (omap_get m x) as [e|] eqn:E; [|by rewrite E]. simpl.
    case_decide; [by rewrite E|]. by rewrite omap_get_set_eq.
  - destruct (omap_get m c) as [e|]; [|done]. case_decide; [done|]. by rewrite omap_get_set_ne.
Qed.

Lemma activate_all_keys d l m : (foldl (activate d) m l).*1 = m.*1.
Proof. revert m; induction l as [|c l IH]; intros m; simpl; [done|]. by rewrite IH, activate_keys. Qed.

Lemma activate_all_get d l m x :
  omap_get (foldl (activate d) m l) x =
    if decide (x ∈ l) then
      (fun e => if decide (resolution e = active_resolution) then e
                else Resolved active_resolution dependency_closure d) <$> omap_get m x
    else omap_get m x.
Proof.
  revert m; induction l as [|c l IH]; intros m; simpl; [done|]. rewrite IH, activate_get.
  destruct (decide (c = x)) as [->|Hc].
  - rewrite (decide_True (P := x ∈ x :: l)) by left. destruct (decide (x ∈ l)); [|done].
    destruct (omap_get m x) as [y|]; [|done]. simpl. f_equal. repeat case_decide; done.
  - apply decide_ext. rewrite elem_of_cons. naive_solver.
Qed.

(** With the closure of the active entries, exactly the closure is active. *)
Lemma activate_all_active d l m c :
  (forall x, active_in m x -> x ∈ l) -> l ⊆ m.*1 ->
  active_in (foldl (activate d) m l) c <-> c ∈ l.
Proof.
  intros Ha Hl. unfold active_in. rewrite activate_all_get. split.
  - intros (e & He & Hr). destruct (decide (c ∈ l)); [done|]. apply Ha. by exists e.
  - intros Hc. rewrite decide_True by done. destruct (omap_get m c) as [e|] eqn:E.
    + eexists. split; [done|]. by case_decide.
    + apply omap_get_None in E. by apply Hl in Hc.
Qed.

Lemma filter_get (p : CapabilityId -> bool) m x :
  omap_get (List.filter (fun e => p e.1) m) x = if p x then omap_get m x else None.
Proof.
  induction m as [|[c e] m IH]; simpl; [by destruct (p x)|].
  destruct (p c) eqn:Ec; simpl; destruct (decide (x = c)) as [->|]; rewrite ?Ec, ?IH, ?Ec; done.
Qed.

Lemma filter_keys (p : CapabilityId -> bool) m : (List.filter (fun e => p e.1) m).*1 = List.filter p m.*1.
Proof. induction m as [|[c e] m IH]; csimpl; [done|]. destruct (p c); csimpl; by rewrite IH. Qed.

(** ** What one capability resolves to *)

Implicit Types input : CapabilityPlanCompileInput.

(** Standard defers [strict_tdd] to the final revision. *)
Definition awaits_design_set (definition : ProfileDefinition) (c : CapabilityId) (mode : CapabilityMode) : bool :=
  bool_decide (pd_profile_id definition = "standard") && bool_decide (c = "strict_tdd") &&
  bool_decide (mode = conditional).

(** What makes a capability active by itself. *)
Definition directly_active input (definition : ProfileDefinition) (c : CapabilityId) : Prop :=
  exists mode, omap_get (pd_capabilities definition) c = Some mode /\ (c ∉ ci_denied input) /\
    (mode = required \/
     (if awaits_design_set definition c mode then ci_stage input = final
      else c ∈ ci_required input \/
           (mode <> disabled /\ (exists a, a ∈ ci_activations input /\ ac_capability_id a = c)))).

Lemma activation_of_Some l c a : activation_of l c = Some a -> a ∈ l /\ ac_capability_id a = c.
Proof. intros [Ha Hc]%find_first_Some. rewrite elem_of_reverse in Ha. by bool_hyps. Qed.

Lemma activation_of_is_Some l c :
  is_Some (activation_of l c) <-> exists a, a ∈ l /\ ac_capability_id a = c.
Proof.
  split; [intros [a Ha]; exists a; by apply activation_of_Some|]. intros (a & Ha & Hc).
  apply not_eq_None_Some. intros Hn. unfold activation_of in Hn. rewrite find_first_None, Forall_forall in Hn.
  specialize (Hn a). rewrite elem_of_reverse in Hn. specialize (Hn Ha). by bool_hyps.
Qed.

(** The entry of the loop body, by cases. *)
Lemma resolve_cases input definition digest c r :
  resolve_capability input definition digest c = Ok r ->
  exists mode, omap_get (pd_capabilities definition) c = Some mode /\
    (c ∈ ci_denied input -> mode <> required /\ resolution r = inactive_by_profile) /\
    (c ∉ ci_denied input ->
      (resolution r = active_resolution <->
        mode = required \/ (awaits_design_set definition c mode = false /\
          (c ∈ ci_required input \/ (mode <> disabled /\ is_Some (activation_of (ci_activations input) c))))) /\
      (resolution r = deferred <-> awaits_design_set definition c mode = true)) /\
    resolution_source r <> dependency_closure.
Proof.
  unfold resolve_capability, profileCapabilityMode. rewrite bind_Ok. intros (mode & Hm & Hr).
  destruct (omap_get _ c) as [mode'|]; simplify_eq. exists mode. split; [done|].
  rewrite !reject_bind_Ok in Hr. destruct Hr as (Hc1 & Hc2 & Hr). fold (awaits_design_set definition c mode) in Hr.
  destruct (mem c (ci_denied input)) eqn:Ed; simpl in *; [apply mem_spec in Ed|apply mem_false in Ed].
  { bool_hyps. simplify_eq. by split_and!. }
  split; [done|]. destruct (decide (mode = required)) as [->|Hreq].
  { simplify_eq. unfold awaits_design_set. rewrite (bool_decide_eq_false_2 (required = conditional)), andb_false_r by done.
    split_and!; [|done]. intros _. split; [|done]. split; [by left|done]. }
  destruct (awaits_design_set definition c mode) eqn:Ea.
  { simplify_eq. split_and!; [|done]. intros _. split; [|done]. simpl. split; [done|]. by intros [?|[]]. }
  destruct (mem c (ci_required input)) eqn:Er; [apply mem_spec in Er|apply mem_false in Er].
  { simplify_eq. split_and!; [|done]. intros _. split; [|done]. split; [|done]. right. auto. }
  destruct (activation_of _ c) as [a|] eqn:Eact; [destruct (decide (mode = disabled)) as [->|Hd]|]; simplify_eq; simpl.
  - split_and!; [|done]. intros _. split; [|done]. split; [done|]. by intros [?|(_ & [?|[]])].
  - split_and!; [|by destruct (ac_from_risk a)]. intros _. split; [|done]. split; [|done]. intros _. right. split; [done|].
    right. split; [done|by eexists].
  - split_and!; [|done]. intros _. split; [|done]. split; [done|]. by intros [?|(_ & [?|[_ []]])].
Qed.
End resolution.

(** The registry of the emitted version has the closure, and a DAG for it. *)
Lemma emission_version v active requested :
  v ∈ versions -> capabilityDependencyClosure requested v = Ok active ->
  active ⊆ ids_of_version (emitted_version v active) /\ emitted_version v active ∈ versions /\
  exists nodes, buildOperationDag active (emitted_version v active) = Ok nodes /\ validateOperationDag nodes = Ok tt.
Proof.
  intros Hv Ha. pose proof (closure_compatible _ _ _ Ha) as Hm%modules_ok_spec.
  unfold capabilityDependencyClosure in Ha. rewrite definitions_version in Ha by done. simpl in Ha.
  assert (active ⊆ ids_of_version v) as Hk by (intros x; by apply closure_known with (1 := Ha)). clear Ha.
  set (v' := emitted_version v active). assert (active ⊆ ids_of_version v' /\ v' ∈ versions) as [Hk' Hv'].
  { unfold v', emitted_version. destruct (bool_decide _) eqn:E1; simpl; bool_hyps.
    - subst v. destruct (mem _ active) eqn:E2; [split; [done|right; left]|]. apply mem_false in E2. split; [|left].
      intros c Hin. apply Hk in Hin as Hc. change (c ∈ CAPABILITY_IDS_1_3) in Hc.
      apply elem_of_app in Hc as [Hc| ->%list_elem_of_singleton]; [|done]. exact Hc.
    - split; [|left]. revert Hv Hk. unfold versions. rewrite !elem_of_cons.
      intros [->|[->|[]%not_elem_of_nil]]; done. }
  split; [done|]. split; [done|]. pose proof (build_cases active v' Hv') as Hb.
  destruct (buildOperationDag active v') as [nodes|e]; [exists nodes; by rewrite Hm in Hb|].
  destruct Hb as (_ & Hv1 & Hp). apply Hk' in Hp. rewrite Hv1 in Hp. vm_compute in Hp.
  repeat (apply elem_of_cons in Hp as [?|Hp]; [done|]). by apply elem_of_nil in Hp.
Qed.

(** The DAG depends on the set of the active capabilities only. *)
Lemma build_ext a b v : (forall c, c ∈ a <-> c ∈ b) -> buildOperationDag a v = buildOperationDag b v.
Proof.
  intros Hab. assert (forall c, mem c a = mem c b) as Hm by (intros c; by apply mem_ext).
  unfold buildOperationDag, optional_module. by rewrite !Hm.
Qed.

(** ** What a successful compilation computed *)

Section compiled.
Context `{Hash}.
Implicit Types input : CapabilityPlanCompileInput.

(** The intermediate results of [compileCapabilityPlan]. *)
Record compilation input (plan : CapabilityPlan) (definition : ProfileDefinition) (digest : string)
    (resolved finalized : list (CapabilityId * ResolvedCapability)) (active : list CapabilityId)
    (modules : list CapabilityModuleDefinition) (emitted : list CapabilityId) : Prop := {
  co_definition : definition ∈ PROFILE_DEFINITIONS ++ PROFILE_DEFINITIONS_1_3 /\
    pd_profile_id definition = ci_profile_id input /\
    (pd_capabilities definition).*1 = (if decide (ci_protocol_version input = PROTOCOL_1_3_VERSION)
                                       then CAPABILITY_IDS_1_3 else CAPABILITY_IDS);
  co_lookup : profileDefinitionForProtocol (ci_profile_id input) (ci_protocol_version input) = Ok definition;
  co_resolved : resolveCapabilities input definition digest = Ok resolved;
  co_finalized : finalize_strict_tdd input resolved = Ok finalized;
  co_deferred : check_deferred input finalized = Ok tt;
  co_active : capabilityDependencyClosure (map fst (List.filter is_active finalized)) (ci_protocol_version input)
                = Ok active;
  co_version : cp_protocol_version plan = emitted_version (ci_protocol_version input) active;
  co_modules : active_modules active (cp_protocol_version plan) = Ok modules;
  co_providers : check_providers (dedup (concat (map required_providers modules))) (dedup (ci_providers input)) = Ok tt /\
    cp_providers plan = sort_strings (dedup (concat (map required_providers modules)));
  co_nodes : buildOperationDag active (cp_protocol_version plan) = Ok (cp_nodes plan) /\
    validateOperationDag (cp_nodes plan) = Ok tt;
  co_emitted : registeredCapabilityIds (cp_protocol_version plan) = Ok emitted;
  co_capabilities : cp_capabilities plan =
    List.filter (fun e => mem e.1 emitted) (foldl (activate digest) finalized active);
  co_invalidation : compileInvalidationGraph active (cp_protocol_version plan) = Ok (cp_invalidation_graph plan);
  co_stage : cp_stage plan = ci_stage input
}.

Lemma profile_definition input v definition :
  ci_protocol_version input ∈ versions ->
  profileDefinitionVersionForProtocol (ci_protocol_version input) = Ok v ->
  profileDefinitionForProtocol (ci_profile_id input) v = Ok definition ->
  definition ∈ PROFILE_DEFINITIONS ++ PROFILE_DEFINITIONS_1_3 /\
  pd_profile_id definition = ci_profile_id input /\
  (pd_capabilities definition).*1 = (if decide (ci_protocol_version input = PROTOCOL_1_3_VERSION)
                                     then CAPABILITY_IDS_1_3 else CAPABILITY_IDS) /\
  ci_protocol_version input = v.
Proof.
  intros Hv Ev Ed. unfold profileDefinitionForProtocol in Ed.
  assert (forall l ids, Forall (fun d => (pd_capabilities d).*1 = ids) l -> l ⊆ PROFILE_DEFINITIONS ++ PROFILE_DEFINITIONS_1_3 ->
    find_first (fun d => bool_decide (pd_profile_id d = ci_profile_id input)) l = Some definition ->
    definition ∈ PROFILE_DEFINITIONS ++ PROFILE_DEFINITIONS_1_3 /\
    pd_profile_id definition = ci_profile_id input /\ (pd_capabilities definition).*1 = ids /\ v = v) as Hl.
  { intros l ids Hf Hs [Hin Hid]%find_first_Some. rewrite Forall_forall in Hf. bool_hyps. auto. }
  assert (ci_protocol_version input = v) as Hver.
  { revert Hv Ev. unfold versions. rewrite !elem_of_cons.
    intros [->|[->|[]%not_elem_of_nil]]; vm_compute; congruence. }
  rewrite Hver in Hv |- *. destruct (find_first _ _) as [d|] eqn:Ef; [|done]. injection Ed as ->.
  case_decide; (eapply Hl; [| |exact Ef]; [repeat constructor|]).
  - by apply list_subseteq_app_r.
  - by apply list_subseteq_app_l.
Qed.

Lemma compilation_Ok input plan :
  ci_protocol_version input ∈ versions -> compileCapabilityPlan input = Ok plan ->
  exists definition digest resolved finalized active modules emitted,
    compilation input plan definition digest resolved finalized active modules emitted.
Proof.
  intros Hv. unfold compileCapabilityPlan. rewrite !reject_bind_Ok, bind_Ok.
  intros (_ & _ & _ & _ & E). rewrite bind_Ok in E. destruct E as (v & Hdv & E).
  rewrite bind_Ok in E. destruct E as (definition & Hdef & E).
  rewrite bind_Ok in E. destruct E as (digest & _ & E).
  rewrite bind_Ok in E. destruct E as (resolved & Hres & E).
  rewrite bind_Ok in E. destruct E as (finalized & Hfin & E).
  rewrite bind_Ok in E. destruct E as ([] & Hdfd & E).
  rewrite bind_Ok in E. destruct E as (active & Hact%map_err_Ok & E).
  rewrite bind_Ok in E. destruct E as (modules & Hmod & E).
  rewrite bind_Ok in E. destruct E as ([] & Hprov & E).
  rewrite bind_Ok in E. destruct E as (bindings & _ & E).
  rewrite bind_Ok in E. destruct E as (nodes & Hnodes%map_err_Ok & E).
  rewrite bind_Ok in E. destruct E as ([] & Hval%map_err_Ok & E).
  rewrite bind_Ok in E. destruct E as (emitted & Hem%map_err_Ok & E).
  rewrite bind_Ok in E. destruct E as (invalidation & Hinv%map_err_Ok & E).
  apply (inj Ok) in E as <-.
  exists definition, digest, resolved, finalized, active, modules, emitted. destruct (profile_definition _ _ _ Hv Hdv Hdef) as (? & ? & ? & ?).
  constructor; try done; first [by split_and!|congruence].
Qed.

Lemma resolved_entries input definition digest resolved :
  ci_protocol_version input ∈ versions -> resolveCapabilities input definition digest = Ok resolved ->
  NoDup resolved.*1 /\ (forall c, c ∈ resolved.*1 <-> c ∈ ids_of_version (ci_protocol_version input)) /\
  forall c e, omap_get resolved c = Some e -> resolve_capability input definition digest c = Ok e.
Proof.
  intros Hversion E.
  destruct (registered_version _ Hversion) as (ids & Hids & Hn & Hmem).
  unfold resolveCapabilities in E.
  rewrite bind_Ok in E. destruct E as (? & _ & E). rewrite Hids in E. simpl in E.
  apply mapM_Ok in E.
  assert (resolved.*1 = ids) as Hk.
  { clear -E. induction E as [|c [c' e] l k Hx _ IH]; csimpl; [done|]. rewrite IH. f_equal.
    rewrite bind_Ok in Hx. destruct Hx as (? & _ & [= -> _]). done. }
  rewrite Hk. split; [done|]. split; [done|]. intros c e He%omap_get_elem.
  apply list_elem_of_lookup in He as (i & Hi). destruct (Forall2_lookup_r _ _ _ _ _ E Hi) as (c' & _ & Hx).
  rewrite bind_Ok in Hx. by destruct Hx as (? & ? & [= -> ->]).
Qed.

(** [finalize_strict_tdd] touches one entry, in place. *)
Lemma finalized_cases input resolved finalized :
  finalize_strict_tdd input resolved = Ok finalized ->
  finalized.*1 = resolved.*1 /\
  forall c, omap_get finalized c =
    if bool_decide (c = "strict_tdd" /\ ci_stage input = final /\ ci_profile_id input = "standard")
    then (fun e => if decide (resolution e = inactive_by_profile) then e
                   else Resolved active_resolution design_set_finalization
                          (default ("", "") (ci_accepted_design_set input)).2) <$> omap_get resolved c
    else omap_get resolved c.
Proof.
  intros E. unfold finalize_strict_tdd in E.
  destruct (omap_get resolved "strict_tdd") as [entry|] eqn:Es.
  - destruct (bool_decide (ci_stage input = final)) eqn:E1; simpl in E;
      [destruct (bool_decide (ci_profile_id input = "standard")) eqn:E2; simpl in E|]; bool_hyps.
    2, 3: injection E as <-; split; [done|]; intros c; rewrite bool_decide_eq_false_2; [done|tauto].
    destruct (bool_decide (resolution entry = inactive_by_profile)) eqn:E3; simpl in E; bool_hyps.
    { injection E as <-. split; [done|]. intros c. case_bool_decide as Hb; [|done].
      destruct Hb as (-> & _). rewrite Es. simpl. by rewrite decide_True. }
    destruct (ci_accepted_design_set input) as [d|]; [|done]. injection E as <-. split.
    { rewrite omap_set_keys, decide_True; [done|]. destruct (decide ("strict_tdd" ∈ resolved.*1)) as [|Hn]; [done|].
      apply omap_get_None in Hn. congruence. }
    intros c. rewrite omap_get_set. case_decide as Hs; [subst c|].
    + rewrite bool_decide_eq_true_2 by done. rewrite Es. simpl. by rewrite decide_False.
    + rewrite bool_decide_eq_false_2; [done|]. intros (-> & _). done.
  - injection E as <-. split; [done|]. intros c. case_bool_decide as Hb; [|done].
    destruct Hb as (-> & _). by rewrite Es.
Qed.

Section facts.
Context {input : CapabilityPlanCompileInput} {plan : CapabilityPlan} {definition : ProfileDefinition}.
Context {digest : string} {resolved finalized : list (CapabilityId * ResolvedCapability)}.
Context {active : list CapabilityId} {modules : list CapabilityModuleDefinition} {emitted : list CapabilityId}.
Hypothesis Hversion : ci_protocol_version input ∈ versions.
Hypothesis Hc : compilation input plan definition digest resolved finalized active modules emitted.

Abbreviation version := (ci_protocol_version input).

Lemma co_profile_known c : is_Some (omap_get (pd_capabilities definition) c) <-> c ∈ ids_of_version version.
Proof using Hc Hversion.
  destruct (co_definition _ _ _ _ _ _ _ _ _ Hc) as (_ & _ & Hk).
  rewrite <- not_eq_None_Some, omap_get_None, Hk. unfold ids_of_version, definitions_of.
  case_decide; split; intros Hin; try (by apply dec_stable); by intros ?.
Qed.

Lemma co_resolved_entries :
  NoDup resolved.*1 /\ (forall c, c ∈ resolved.*1 <-> c ∈ ids_of_version version) /\
  forall c e, omap_get resolved c = Some e -> resolve_capability input definition digest c = Ok e.
Proof using Hc Hversion. eapply resolved_entries; [done|]. apply Hc. Qed.

Lemma co_finalized_cases : finalized.*1 = resolved.*1 /\
  forall c, omap_get finalized c =
    if bool_decide (c = "strict_tdd" /\ ci_stage input = final /\ ci_profile_id input = "standard")
    then (fun e => if decide (resolution e = inactive_by_profile) then e
                   else Resolved active_resolution design_set_finalization
                          (default ("", "") (ci_accepted_design_set input)).2) <$> omap_get resolved c
    else omap_get resolved c.
Proof using Hc. apply finalized_cases. apply Hc. Qed.

Lemma co_awaits c mode : 
  omap_get (pd_capabilities definition) c = Some mode ->
  awaits_design_set definition c mode = true <-> c = "strict_tdd" /\ ci_profile_id input = "standard".
Proof using Hc.
  destruct (co_definition _ _ _ _ _ _ _ _ _ Hc) as (Hd & <- & _). intros Hm. unfold awaits_design_set.
  rewrite !andb_true_iff, !bool_decide_eq_true. split; [tauto|]. intros [-> Hs]. split; [done|].
  assert (Forall (fun d => pd_profile_id d = "standard" -> omap_get (pd_capabilities d) "strict_tdd" = Some conditional)
    (PROFILE_DEFINITIONS ++ PROFILE_DEFINITIONS_1_3)) as Hf by (repeat constructor; vm_compute; congruence).
  rewrite Forall_forall in Hf. specialize (Hf _ Hd Hs). congruence.
Qed.

(** The active and the deferred entries once [strict_tdd] is final. *)
Lemma co_entries c e :
  omap_get finalized c = Some e ->
  (resolution e = active_resolution <-> directly_active input definition c) /\
  (resolution e = deferred -> c = "strict_tdd" /\ ci_stage input <> final /\ ci_profile_id input = "standard") /\
  resolution_source e <> dependency_closure.
Proof using Hc Hversion.
  destruct co_finalized_cases as [_ Hget]. destruct co_resolved_entries as (_ & _ & Hres). rewrite Hget. intros He.
  assert (exists r, omap_get resolved c = Some r) as [r Hr]
    by (destruct (omap_get resolved c); [by eexists|by case_bool_decide]).
  rewrite Hr in He. simpl in He. destruct (resolve_cases _ _ _ _ _ (Hres _ _ Hr)) as (mode & Hm & Hden & Hund & Hsrc).
  pose proof (co_awaits _ _ Hm) as Haw. unfold directly_active.
  destruct (decide (c ∈ ci_denied input)) as [Hd|Hd].
  - destruct (Hden Hd) as [_ Hi]. assert (e = r) as ->.
    { case_bool_decide; [|by simplify_eq]. rewrite decide_True in He by done. by simplify_eq. }
    rewrite Hi. split; [|done]. split; [done|]. by intros (? & _ & ? & _).
  - clear Hden. destruct (Hund Hd) as [Hact Hdef]. clear Hund. case_bool_decide as Hb.
    + destruct Hb as (-> & Hst & Hsd). assert (awaits_design_set definition "strict_tdd" mode = true) as Ha by by apply Haw.
      rewrite decide_False in He by (rewrite (proj2 Hdef Ha); done). simplify_eq. simpl. split; [|done].
      split; [|done]. intros _. exists mode. split; [done|]. split; [done|]. right. by rewrite Ha.
    + simplify_eq. split; [|split; [|done]].
      * rewrite Hact. rewrite activation_of_is_Some. split.
        -- intros Ho. exists mode. split; [done|]. split; [done|]. destruct Ho as [?|[-> ?]]; auto.
        -- intros (mode' & Hm' & _ & Ho). simplify_eq. destruct Ho as [?|Ho]; [by left|].
           destruct (awaits_design_set definition c mode) eqn:Ea; [|auto].
           exfalso. apply Hb. destruct Haw as [Haw _]. destruct (Haw eq_refl). auto.
      * intros Hdf. apply Hdef, Haw in Hdf as [-> Hs]. split; [done|]. split; [|done]. intros Hst. by apply Hb.
Qed.

Lemma co_closure :
  active ⊆ ids_of_version version /\
  forall c, c ∈ active <-> exists d, directly_active input definition d /\ rtc (module_depends (definitions_of version)) d c.
Proof using Hc Hversion.
  destruct co_resolved_entries as (Hn & Hk & _). destruct co_finalized_cases as [Hkeys _].
  pose proof (co_active _ _ _ _ _ _ _ _ _ Hc) as E. unfold capabilityDependencyClosure in E.
  rewrite definitions_version in E by done. simpl in E. split; [intros c; by apply closure_known with (1 := E)|].
  pose proof (dependencyClosure_result (definitions_of version) (map fst (List.filter is_active finalized))) as Hr.
  rewrite E in Hr. destruct Hr as (_ & _ & _ & Hl & _). intros c. rewrite Hl.
  apply exist_proper. intros d. rewrite active_elem by (by rewrite Hkeys).
  assert (active_in finalized d <-> directly_active input definition d) as ->; [|done]. split.
  - intros (e & He & Ha). by apply (co_entries d e).
  - intros Hd. destruct (omap_get finalized d) as [e|] eqn:Ed; [exists e; split; [done|]; by apply (co_entries d e)|].
    apply omap_get_None in Ed. exfalso. apply Ed. rewrite Hkeys, Hk. apply co_profile_known.
    destruct Hd as (mode & Hm & _). by eexists.
Qed.

Lemma co_emitted_version : cp_protocol_version plan ∈ versions.
Proof using Hc Hversion. rewrite (co_version _ _ _ _ _ _ _ _ _ Hc). by eapply emission_version; [|apply Hc]. Qed.

Lemma co_active_emitted : active ⊆ ids_of_version (cp_protocol_version plan).
Proof using Hc Hversion. rewrite (co_version _ _ _ _ _ _ _ _ _ Hc). by eapply emission_version; [|apply Hc]. Qed.

(** The capabilities the plan shows active are the closure. *)
Lemma co_active_ids c : c ∈ active_ids plan <-> c ∈ active.
Proof using Hc Hversion.
  destruct co_resolved_entries as (Hn & Hk & _). destruct co_finalized_cases as [Hkeys _].
  destruct co_closure as [Hsub Hcl].
  destruct (registered_version _ co_emitted_version) as (ids & Hids & _ & Hmem).
  pose proof (co_emitted _ _ _ _ _ _ _ _ _ Hc) as Hem. rewrite Hids in Hem. injection Hem as ->.
  unfold active_ids. rewrite (co_capabilities _ _ _ _ _ _ _ _ _ Hc).
  assert (NoDup (foldl (activate digest) finalized active).*1) as Hnd by (rewrite activate_all_keys, Hkeys; done).
  rewrite active_elem.
  - unfold active_in. rewrite (filter_get (fun c => mem c emitted)).
    destruct (mem c emitted) eqn:Em; [apply mem_spec in Em|apply mem_false in Em].
    + apply activate_all_active; [|intros x Hx; by rewrite Hkeys, Hk; apply Hsub].
      intros x (e & He & Ha). apply Hcl. exists x. split; [by apply (co_entries x e)|done].
    + split; [by intros (? & ? & _)|]. intros Ha%co_active_emitted%Hmem. done.
  - rewrite (filter_keys (fun c => mem c emitted)). apply NoDup_ListNoDup, List.NoDup_filter. by apply NoDup_ListNoDup.
Qed.

Lemma co_required_providers c m p :
  c ∈ active -> capabilityModuleDefinition c (cp_protocol_version plan) = Ok m -> p ∈ required_providers m ->
  p ∈ cp_providers plan /\ p ∈ ci_providers input.
Proof using Hc.
  intros Hin Hm Hp. destruct (co_providers _ _ _ _ _ _ _ _ _ Hc) as [Hprov ->].
  assert (p ∈ concat (map required_providers modules)) as Hneed.
  { pose proof (co_modules _ _ _ _ _ _ _ _ _ Hc) as Hms. apply mapM_Ok in Hms.
    apply list_elem_of_lookup in Hin as (i & Hi). destruct (Forall2_lookup_l _ _ _ _ _ Hms Hi) as (m' & Hm' & Hx).
    rewrite Hm in Hx. injection Hx as <-. apply list_elem_of_In, in_concat. exists (required_providers m).
    split; [|by apply list_elem_of_In]. apply in_map, list_elem_of_In. by eapply list_elem_of_lookup_2. }
  split; [by apply elem_of_sort_strings, elem_of_dedup|]. unfold check_providers in Hprov. rewrite bind_Ok in Hprov.
  destruct Hprov as (_ & _ & Hx%reject_if_Ok). apply elem_of_dedup. apply dec_stable. intros Hnot.
  rewrite <- not_true_iff_false, existsb_Exists in Hx. apply Hx. exists p. split; [by apply elem_of_dedup|].
  apply negb_true_iff, mem_false. done.
Qed.

Lemma co_deferred_entries c e :
  (c, e) ∈ cp_capabilities plan -> resolution e = deferred ->
  c = "strict_tdd" /\ cp_stage plan = provisional /\ ci_profile_id input = "standard".
Proof using Hc Hversion.
  rewrite (co_capabilities _ _ _ _ _ _ _ _ _ Hc), (co_stage _ _ _ _ _ _ _ _ _ Hc), list_elem_of_In, filter_In, <- list_elem_of_In.
  intros [Hin _] Hd. destruct co_resolved_entries as (Hn & _). destruct co_finalized_cases as [Hkeys _].
  apply elem_omap_get in Hin; [|by rewrite activate_all_keys, Hkeys]. rewrite activate_all_get in Hin.
  assert (omap_get finalized c = Some e) as Hf.
  { case_decide; [|done]. destruct (omap_get finalized c) as [e'|]; [|done]. simpl in Hin. injection Hin as <-.
    by case_decide. }
  destruct (co_entries c e Hf) as (_ & Hdef & _). destruct (Hdef Hd) as (-> & Hs & ?).
  split; [done|]. split; [|done]. by destruct (ci_stage input).
Qed.

Lemma co_denied_entries c e :
  (c, e) ∈ cp_capabilities plan -> c ∈ ci_denied input -> resolution e = active_resolution ->
  resolution_source e = dependency_closure /\
  exists d, (d ∉ ci_denied input) /\ rtc (module_depends (definitions_of version)) d c.
Proof using Hc Hversion.
  rewrite (co_capabilities _ _ _ _ _ _ _ _ _ Hc), list_elem_of_In, filter_In, <- list_elem_of_In.
  intros [Hin _] Hd Ha. destruct co_resolved_entries as (Hn & _). destruct co_finalized_cases as [Hkeys _].
  apply elem_omap_get in Hin; [|by rewrite activate_all_keys, Hkeys]. rewrite activate_all_get in Hin.
  assert (forall e', omap_get finalized c = Some e' -> resolution e' <> active_resolution) as Hnot.
  { intros e' He' Hr. apply (co_entries c e' He') in Hr as (? & _ & ? & _). done. }
  case_decide as Hact; [|by apply Hnot in Hin].
  destruct (omap_get finalized c) as [e'|]; [|done]. simpl in Hin. injection Hin as <-.
  rewrite decide_False by auto. split; [done|]. apply co_closure in Hact as (d & (? & _ & ? & _) & Hr). by exists d.
Qed.

Lemma co_depends_closed c d :
  c ∈ active_ids plan -> module_depends (definitions_of (cp_protocol_version plan)) c d -> d ∈ active_ids plan.
Proof using Hc Hversion.
  rewrite !co_active_ids. destruct co_closure as [_ Hcl]. rewrite !Hcl. intros (x & Hx & Hr) Hcd.
  exists x. split; [done|]. eapply rtc_r; [done|]. eapply module_depends_inclusion, Hcd; [|done].
  rewrite (co_version _ _ _ _ _ _ _ _ _ Hc). unfold emitted_version. destruct (_ && _) eqn:E; [|by right].
  bool_hyps. left. done.
Qed.
End facts.
End compiled.

(** ** The invalidation graph *)

(** A drifted binding of the kind invalidates the capability directly. *)
Definition consumes_binding (v : string) (kind : BindingKind) (c : CapabilityId) : Prop :=
  exists m, module_map (definitions_of v) !! c = Some m /\ kind ∈ invalidated_by m.

Lemma link_kinds (c : CapabilityId) kinds : forall es : list (BindingKind * list CapabilityId),
  let es' := foldl (fun es kind => omap_set es kind (default [] (omap_get es kind) ++ [c])) es kinds in
  (NoDup es.*1 -> NoDup es'.*1) /\
  forall k x, x ∈ default [] (omap_get es' k) <-> x ∈ default [] (omap_get es k) \/ (x = c /\ k ∈ kinds).
Proof.
  induction kinds as [|kind kinds IH]; intros es; simpl.
  { split; [done|]. intros k x. rewrite elem_of_nil. tauto. }
  destruct (IH (omap_set es kind (default [] (omap_get es kind) ++ [c]))) as [Hn Hk]. split.
  { intros Hes. by apply Hn, omap_set_NoDup. }
  intros k x. rewrite Hk, omap_get_set, elem_of_cons. case_decide as Hd; [subst k; simpl|].
  - rewrite elem_of_app, list_elem_of_singleton. tauto.
  - split; [tauto|]. intros [?|[? [->|?]]]; tauto.
Qed.

Lemma invalidation_edges v active :
  v ∈ versions -> active ⊆ ids_of_version v ->
  exists graph, compileInvalidationGraph active v = Ok graph /\
    forall k c, (exists e, e ∈ graph /\ binding_kind e = k /\ c ∈ invalidates e) <-> c ∈ active /\ consumes_binding v k c.
Proof.
  intros Hv Hsub. unfold compileInvalidationGraph.
  assert (exists es, foldM (link_invalidation v) [] active = Ok es /\ NoDup es.*1 /\
    forall k x, x ∈ default [] (omap_get es k) <-> x ∈ active /\ consumes_binding v k x) as (es & -> & Hn & Hes).
  { revert Hsub. induction active as [|c active IH] using rev_ind; intros Hsub.
    { exists []. split; [done|]. split; [constructor|]. intros k x. simpl. rewrite elem_of_nil. tauto. }
    destruct IH as (es & E & Hn & Hes); [intros x Hx; apply Hsub, elem_of_app; by left|].
    destruct (module_known v c Hv) as (m & Em & Hm); [apply Hsub, elem_of_app; right; by left|].
    rewrite foldM_app, E. simpl. unfold link_invalidation. rewrite Em. simpl. eexists. split; [done|].
    destruct (link_kinds c (invalidated_by m) es) as [Hn' Hk]. split; [by apply Hn'|].
    intros k x. rewrite Hk, Hes, elem_of_app, list_elem_of_singleton. unfold consumes_binding. split.
    - intros [?|[-> ?]]; [tauto|]. split; [by right|]. by exists m.
    - intros [[?| ->] Hx]; [left; tauto|]. right. destruct Hx as (m' & Hm' & Hx). split; [done|congruence]. }
  simpl. eexists. split; [done|]. intros k c. rewrite <- Hes. setoid_rewrite elem_of_js_sort.
  setoid_rewrite list_elem_of_fmap. split.
  - intros (e & ((k' & l) & -> & Hin) & <- & Hc). simpl in *. rewrite elem_of_sort_strings in Hc.
    rewrite (elem_omap_get es k' l Hn Hin). exact Hc.
  - intros Hc. destruct (omap_get es k) as [l|] eqn:El; [|by apply elem_of_nil in Hc].
    exists (Edge k (sort_strings l)). split; [exists (k, l); split; [done|by apply omap_get_elem]|].
    split; [done|]. by apply elem_of_sort_strings.
Qed.

(** ** The invalidation loop *)

Section invalidation.
Variables (v : string) (ids : list CapabilityId).
Hypotheses (Hv : v ∈ versions) (Hids : ids ⊆ ids_of_version v).

Abbreviation needs := (module_depends (definitions_of v)).

Lemma depends_test c m l :
  module_map (definitions_of v) !! c = Some m ->
  existsb (fun d => mem d l) (md_depends_on m) = true <-> exists d, needs c d /\ d ∈ l.
Proof.
  intros Hm. rewrite existsb_Exists. setoid_rewrite mem_spec. split.
  - intros (d & Hd & Hl). exists d. split; [by exists m|done].
  - intros (d & (m' & Hm' & Hd) & Hl). exists d. split; [congruence|done].
Qed.

Lemma pass_spec todo : todo ⊆ ids -> forall l b,
  exists new, foldM (invalidation_step v) (l, b) todo = Ok (l ++ new, b || negb (bool_decide (new = []))) /\
    NoDup new /\ (forall x, x ∈ new -> x ∈ todo /\ x ∉ l) /\
    (forall P : CapabilityId -> Prop, (forall x, x ∈ l -> P x) ->
       (forall c d, c ∈ todo -> needs c d -> P d -> P c) -> forall x, x ∈ new -> P x) /\
    (new = [] -> forall c d, c ∈ todo -> needs c d -> d ∈ l -> c ∈ l).
Proof using Hv Hids.
  induction todo as [|c todo IH]; intros Hsub l b; simpl.
  { exists []. rewrite app_nil_r, bool_decide_eq_true_2, orb_false_r by done. split; [done|].
    split; [constructor|]. split; [by intros x ?%elem_of_nil|]. split; [by intros ? ? ? ? ?%elem_of_nil|].
    by intros ? ? ? ?%elem_of_nil. }
  assert (todo ⊆ ids) as Hsub' by (intros x Hx; apply Hsub; by right).
  destruct (module_known v c Hv) as (m & Em & Hm); [apply Hids, Hsub; left|].
  assert (invalidation_step v (l, b) c = Ok (if mem c l || negb (existsb (fun d => mem d l) (md_depends_on m))
    then (l, b) else (l ++ [c], true))) as ->.
  { unfold invalidation_step. simpl. destruct (mem c l); simpl; [done|]. rewrite Em. simpl. by destruct (existsb _ _). }
  simpl. pose proof (depends_test c m l Hm) as Ht. destruct (mem c l || _) eqn:Et.
  - destruct (IH Hsub' l b) as (new & -> & Hn & Hnew & HP & Hfix). exists new. split; [done|]. split; [done|].
    split; [|split].
    + intros x [? ?]%Hnew. split; [by right|done].
    + intros P Hl Hstep. apply HP; [done|]. intros ? ? ?. apply Hstep. by right.
    + intros Hnil c' d [->|Hc']%elem_of_cons Hd Hl; [|by eapply Hfix].
      apply orb_true_iff in Et as [Et%mem_spec|Et%negb_true_iff]; [done|].
      rewrite (proj2 Ht) in Et; [done|]. by exists d.
  - bool_hyps. assert (c ∉ l) as Hcl by by apply mem_false.
    destruct (IH Hsub' (l ++ [c]) true) as (new & -> & Hn & Hnew & HP & _). exists (c :: new).
    rewrite <- app_assoc. simpl. rewrite orb_true_r.
    split; [done|]. setoid_rewrite elem_of_app in Hnew. setoid_rewrite list_elem_of_singleton in Hnew. split; [|split; [|split]].
    + constructor; [|done]. intros [_ Hx]%Hnew. tauto.
    + intros x [->|Hx]%elem_of_cons; [split; [left|done]|]. apply Hnew in Hx as [? ?]. split; [by right|tauto].
    + intros P Hl Hstep x. destruct (proj1 Ht) as (d & Hd & Hdl); [done|].
      assert (P c) as Pc by (apply (Hstep c d); [left|done|by apply Hl]). intros [->|Hx]%elem_of_cons; [done|].
      revert x Hx. apply HP; [|intros ? ? ?; apply Hstep; by right].
      intros x [Hx| ->%list_elem_of_singleton]%elem_of_app; [by apply Hl|done].
    + done.
Qed.

(** The active capabilities not yet invalidated: what bounds the passes. *)
Lemma fewer_left (l new : list CapabilityId) :
  (exists x, x ∈ new /\ x ∈ ids /\ x ∉ l) ->
  (length (List.filter (fun c => negb (mem c (l ++ new))) ids) < length (List.filter (fun c => negb (mem c l)) ids))%nat.
Proof.
  intros (x & Hn & Hi & Hl). assert (forall k, (length (List.filter (fun c => negb (mem c (l ++ new))) k)
    <= length (List.filter (fun c => negb (mem c l)) k))%nat) as Hle.
  { intros k. induction k as [|c k IH]; simpl; [done|].
    destruct (mem c (l ++ new)) eqn:E1, (mem c l) eqn:E2; simpl; try lia.
    apply mem_spec in E2. apply mem_false in E1. rewrite elem_of_app in E1. tauto. }
  apply list_elem_of_split in Hi as (k1 & k2 & ->). rewrite !List.filter_app, !length_app. simpl.
  rewrite (proj2 (mem_spec x (l ++ new))) by (apply elem_of_app; by right). rewrite (proj2 (mem_false x l)) by done.
  simpl. pose proof (Hle k1). pose proof (Hle k2). lia.
Qed.

Lemma loop_spec fuel : forall l,
  (length (List.filter (fun c => negb (mem c l)) ids) < fuel)%nat -> NoDup l ->
  exists l', invalidation_loop fuel v ids l = Ok l' /\ NoDup l' /\ l ⊆ l' /\
    (forall P : CapabilityId -> Prop, (forall x, x ∈ l -> P x) ->
       (forall c d, c ∈ ids -> needs c d -> P d -> P c) -> forall x, x ∈ l' -> P x) /\
    (forall c d, c ∈ ids -> needs c d -> d ∈ l' -> c ∈ l').
Proof using Hv Hids.
  induction fuel as [|fuel IH]; intros l Hf Hl; [lia|]. simpl.
  destruct (pass_spec ids ltac:(done) l false) as (new & -> & Hn & Hnew & HP & Hfix). simpl.
  destruct (decide (new = [])) as [->|Hne].
  - simpl. rewrite app_nil_r. exists l. split; [done|]. split; [done|]. split; [done|]. split; [auto|]. by apply Hfix.
  - rewrite bool_decide_eq_false_2 by done. simpl.
    assert (NoDup (l ++ new)) as Hln.
    { apply NoDup_app. split; [done|]. split; [|done]. intros x Hx [_ ?]%Hnew. done. }
    destruct (IH (l ++ new)) as (l' & -> & Hn' & Hs & HP' & Hc); [|done|].
    { destruct new as [|x new]; [done|]. pose proof (fewer_left l (x :: new)
        (ex_intro _ x (conj (list_elem_of_here _ _) (Hnew x (list_elem_of_here _ _))))). lia. }
    exists l'. split; [done|]. split; [done|]. split; [intros x Hx; apply Hs, elem_of_app; by left|].
    split; [|done]. intros P HPl Hstep. apply HP'; [|done]. intros x [Hx|Hx]%elem_of_app; [by apply HPl|].
    revert x Hx. by apply HP.
Qed.
End invalidation.

(** The loop computes what reaches a direct consumer through active capabilities. *)
Lemma invalidated_spec plan kind :
  cp_protocol_version plan ∈ versions -> active_ids plan ⊆ ids_of_version (cp_protocol_version plan) ->
  exists l, invalidatedCapabilities plan kind = Ok l /\ NoDup l /\
    forall c, c ∈ l <-> exists d e, e ∈ cp_invalidation_graph plan /\ binding_kind e = kind /\ d ∈ invalidates e /\
      rtc (fun x y => x ∈ active_ids plan /\ module_depends (definitions_of (cp_protocol_version plan)) x y) c d.
Proof.
  intros Hv Hids. unfold invalidatedCapabilities. set (direct := dedup _).
  assert (forall d, d ∈ direct <-> exists e, e ∈ cp_invalidation_graph plan /\ binding_kind e = kind /\ d ∈ invalidates e) as Hd.
  { intros d. unfold direct. rewrite elem_of_dedup, list_elem_of_In, in_concat. setoid_rewrite in_map_iff.
    setoid_rewrite filter_In. setoid_rewrite bool_decide_eq_true. setoid_rewrite <- list_elem_of_In. naive_solver. }
  destruct (loop_spec _ _ Hv Hids (S (length (active_ids plan))) direct) as (l & -> & Hn & Hs & HP & Hc).
  { pose proof (List.filter_length_le (fun c => negb (mem c direct)) (active_ids plan)). lia. }
  { apply NoDup_dedup. }
  simpl. exists (sort_strings l). split; [done|]. split; [by rewrite sort_strings_Permutation|].
  intros c. rewrite elem_of_sort_strings. split.
  - revert c. apply HP.
    + intros d (e & He)%Hd. exists d, e. destruct He as (? & ? & ?). auto using rtc_refl.
    + intros c d Hci Hcd (d' & e & He & Hk & Hi & Hr). exists d', e. split; [done|]. split; [done|]. split; [done|].
      by eapply rtc_l.
  - intros (d & e & He & Hk & Hi & Hr). assert (d ∈ l) as Hdl by (apply Hs, Hd; by exists e).
    induction Hr as [|x y z [Hx Hxy] _ IH]; [done|]. apply (Hc x y Hx Hxy). by apply IH.
Qed.

(** ** Errors *)

(** The computation throws nothing but the compiler's own errors. *)
Definition compile_only {A} (m : compiling A) : Prop :=
  forall e, m = Err e -> match e with CapabilityCompileError _ | BindingScopeError => True | _ => False end.

Create HintDb compile_only discriminated.

Lemma only_Ok {A} (a : A) : compile_only (Ok a).
Proof. by intros e. Qed.
Lemma only_refuse {A} k : @compile_only A (refuse k).
Proof. by intros e [= <-]. Qed.
Lemma only_refuse_if b k : compile_only (refuse_if b k).
Proof. destruct b; [apply only_refuse|apply only_Ok]. Qed.
Lemma only_bind {A B} (m : compiling A) (f : A -> compiling B) :
  compile_only m -> (forall a, compile_only (f a)) -> compile_only (mbind f m).
Proof. intros Hm Hf e. destruct m as [a|e']; simpl; [apply Hf|]. intros [= <-]. by apply Hm. Qed.
Lemma only_foldM {A B} (f : B -> A -> compiling B) l :
  (forall b x, compile_only (f b x)) -> forall b, compile_only (foldM f b l).
Proof. intros Hf. induction l as [|x l IH]; intros b; simpl; [apply only_Ok|]. by apply only_bind. Qed.
Lemma only_forM {A} (f : A -> compiling unit) l : (forall x, compile_only (f x)) -> compile_only (forM_ f l).
Proof. intros Hf. induction l as [|x l IH]; simpl; [apply only_Ok|]. by apply only_bind. Qed.
Lemma only_mapM {A B} (f : A -> compiling B) l : (forall x, compile_only (f x)) -> compile_only (mapM f l).
Proof.
  intros Hf. induction l as [|x l IH]; [apply only_Ok|]. rewrite mapM_cons.
  apply only_bind; [done|]. intros y. apply only_bind; [done|]. intros k. apply only_Ok.
Qed.

#[export] Hint Resolve only_Ok only_refuse only_refuse_if only_bind only_foldM only_forM only_mapM : compile_only.

(** The binds and the cases of a definition, then the hints. *)
Ltac only_compile :=
  cbv zeta;
  repeat match goal with
  | |- compile_only (mbind _ _) => apply only_bind; [|intros ?]
  | |- compile_only (if ?b then _ else _) => destruct b
  | |- compile_only (match ?x with _ => _ end) => destruct x
  end; auto with compile_only.

Section errors.
Context `{Hash}.
Implicit Types input : CapabilityPlanCompileInput.

Lemma only_bindings input active : compile_only (compileModelProviderBindings input active).
Proof.
  assert (forall b, compile_only (reject_if b BindingScopeError)) as Hscope by (intros [] ? [= <-]; done).
  assert (forall cs c, compile_only (index_config cs c)) as Hindex.
  { intros cs c. unfold index_config, check_purpose. only_compile. }
  assert (forall cs sl, compile_only (bind_slot input active cs sl)) as Hslot.
  { intros cs sl. unfold bind_slot. only_compile. }
  unfold compileModelProviderBindings, assertBindingScopesDisjoint. only_compile.
Qed.

Lemma only_resolve input definition digest c : compile_only (resolve_capability input definition digest c).
Proof. unfold resolve_capability, profileCapabilityMode. only_compile. Qed.
Lemma only_finalize input resolved : compile_only (finalize_strict_tdd input resolved).
Proof. unfold finalize_strict_tdd. only_compile. Qed.
Lemma only_deferred input resolved : compile_only (check_deferred input resolved).
Proof. unfold check_deferred. only_compile. Qed.
Lemma only_supersedes input : compile_only (check_supersedes input).
Proof. unfold check_supersedes. only_compile. Qed.
Lemma only_providers needed provided : compile_only (check_providers needed provided).
Proof. unfold check_providers. only_compile. Qed.

(** What each error of a compilation says about its input. *)
Definition compile_blame input (e : compile_error) : Prop :=
  match e with
  | OperationDagError _ => False
  | CapabilityRegistryError k => k = unknown_capability /\
      exists a, a ∈ ci_activations input /\ ac_capability_id a ∉ ids_of_version (ci_protocol_version input)
  | ProfileRegistryError => ci_profile_id input ∉ PROFILE_IDS
  | _ => True
  end.

Lemma only_blame {A} input (m : compiling A) e : compile_only m -> m = Err e -> compile_blame input e.
Proof. intros Hm Hr. specialize (Hm _ Hr). by destruct e. Qed.

(** Both registries are complete and free of cycles. *)
Lemma closure_Ok v requested :
  v ∈ versions -> requested ⊆ ids_of_version v -> exists active, capabilityDependencyClosure requested v = Ok active.
Proof.
  intros Hv Hr. unfold capabilityDependencyClosure. rewrite definitions_version by done. simpl.
  assert (exists l, dependencyClosure (definitions_of v) (ids_of_version v) = Ok l /\
    forallb (fun c => mem c l) (ids_of_version v) = true) as (l & El & Hl).
  { revert Hv. unfold versions. rewrite !elem_of_cons.
    intros [->|[->|[]%not_elem_of_nil]]; (eexists; split; [vm_compute; reflexivity|vm_compute; reflexivity]). }
  pose proof (dependencyClosure_result (definitions_of v) (ids_of_version v)) as Hall. rewrite El in Hall.
  destruct Hall as ([Hk _] & _ & _ & _ & Hac).
  pose proof (dependencyClosure_result (definitions_of v) requested) as Hres.
  destruct (dependencyClosure (definitions_of v) requested) as [active|e]; [by exists active|]. exfalso.
  destruct e; simpl in Hres; try done.
  - apply Hres. by split.
  - destruct Hres as (_ & x & _ & _ & Hx). refine (Hac x _ Hx). apply mem_spec.
    rewrite forallb_forall in Hl. apply Hl, list_elem_of_In.
    apply tc_rtc in Hx as Hr'. assert (exists y, module_depends (definitions_of v) x y) as (y & m & Hm & _).
    { inversion Hx; subst; by eexists. }
    apply module_map_known. by exists m.
Qed.

Lemma resolve_blame input definition digest e :
  ci_protocol_version input ∈ versions -> resolveCapabilities input definition digest = Err e -> compile_blame input e.
Proof.
  intros Hv. unfold resolveCapabilities. intros [E|(u & _ & E)]%bind_Err.
  - apply forM_Err in E as (a & Ha & E). rewrite bind_Err in E. destruct E as [E|(m & _ & [=])].
    apply map_err_Err in E as (k & E & ->). unfold capabilityModuleDefinition in E.
    rewrite definitions_version in E by done. simpl in E. destruct (find_first _ _) eqn:Ef; [done|]. injection E as <-.
    split; [done|]. exists a. split; [done|]. intros (m & Hm & Hin)%list_elem_of_fmap.
    rewrite find_first_None, Forall_forall in Ef. specialize (Ef _ Hin). by bool_hyps.
  - destruct (registered_version _ Hv) as (ids & Hids & _). rewrite Hids in E. simpl in E. revert E. apply only_blame, only_mapM.
    intros c. apply only_bind; [apply only_resolve|]. intros r. apply only_Ok.
Qed.


Lemma compile_blame_spec input e :
  ci_protocol_version input ∈ versions -> compileCapabilityPlan input = Err e -> compile_blame input e.
Proof.
  intros Hv. unfold compileCapabilityPlan. cbv zeta.
  intros [E|(_ & _ & E)]%bind_Err; [by eapply only_blame, E; apply only_refuse_if|].
  apply bind_Err in E as [E|(_ & _ & E)]; [by eapply only_blame, E; apply only_refuse_if|].
  apply bind_Err in E as [E|(_ & _ & E)]; [by eapply only_blame, E; apply only_supersedes|].
  apply bind_Err in E as [E|(v & Hdv & E)].
  { exfalso. revert Hv E. unfold versions. rewrite !elem_of_cons. by intros [->|[->|[]%not_elem_of_nil]]. }
  apply bind_Err in E as [E|(definition & Hdef & E)].
  { unfold profileDefinitionForProtocol in E. destruct (find_first _ _) eqn:Ef; [done|]. injection E as <-. simpl.
    assert (map pd_profile_id PROFILE_DEFINITIONS = PROFILE_IDS /\ map pd_profile_id PROFILE_DEFINITIONS_1_3 = PROFILE_IDS)
      as [H1 H2] by done.
    intros Hin. rewrite find_first_None, Forall_forall in Ef.
    case_decide; [rewrite <- H2 in Hin|rewrite <- H1 in Hin]; apply list_elem_of_fmap in Hin as (d & Hd & Hin);
      specialize (Ef d Hin); by bool_hyps. }
  apply bind_Err in E as [(k & _ & ->)%map_err_Err|(digest & _ & E)]; [done|].
  apply bind_Err in E as [E|(resolved & Hres & E)]; [by eapply resolve_blame|].
  apply bind_Err in E as [E|(finalized & Hfin & E)]; [by eapply only_blame, E; apply only_finalize|].
  apply bind_Err in E as [E|(_ & _ & E)]; [by eapply only_blame, E; apply only_deferred|].
  destruct (closure_Ok _ (map fst (List.filter is_active finalized)) Hv) as (active & Ha).
  { destruct (resolved_entries _ _ _ _ Hv Hres) as (_ & Hk & _). intros c (x & -> & Hx)%list_elem_of_fmap.
    apply Hk. rewrite <- (proj1 (finalized_cases _ _ _ Hfin)). apply list_elem_of_fmap. exists x. split; [done|].
    apply list_elem_of_In, filter_In in Hx. by apply list_elem_of_In, Hx. }
  rewrite Ha in E. simpl in E. destruct (emission_version _ _ _ Hv Ha) as (Hk & Hv' & nodes & Hb & Hval).
  apply bind_Err in E as [E|(modules & _ & E)].
  { exfalso. destruct (mapM_total (fun c => map_err CapabilityRegistryError (capabilityModuleDefinition c
      (emitted_version (ci_protocol_version input) active))) active) as [ms Hms].
    - intros c Hc. destruct (module_known _ c Hv' (Hk _ Hc)) as (m & -> & _). by exists m.
    - unfold active_modules in E. congruence. }
  apply bind_Err in E as [E|(_ & _ & E)]; [by eapply only_blame, E; apply only_providers|].
  apply bind_Err in E as [E|(bindings & _ & E)]; [by eapply only_blame, E; apply only_bindings|].
  rewrite Hb in E. simpl in E. rewrite Hval in E. simpl in E.
  destruct (registered_version _ Hv') as (ids & Hids & _). rewrite Hids in E. simpl in E.
  destruct (invalidation_edges _ active Hv' Hk) as (graph & Hg & _). rewrite Hg in E. done.
Qed.
End errors.

(** ** Sample inputs *)

Definition sample_config (slot : string * option string) : ModelProviderConfig :=
  ProviderConfig slot.1 slot.2 "provider" "config" "1" "1" "default" None [].

Definition sample_resolver : string -> option string -> string -> result string PromptContract :=
  fun port _ version => Ok (Contract port version "digest" "schema").

(** A Standard operation before its DesignSet. *)
Definition sample_standard : CapabilityPlanCompileInput :=
  CompileInput (Bindings "op-1" "standard" "p" "d" "r" "k" "y" "b") provisional [] [] []
    ["isolated_workspace_provider"; "structured_gate_provider"] (map (fun s => sample_config s.1) OPERATION_SCOPE_SLOTS)
    (Some sample_resolver) [] None None PROTOCOL_1_1_VERSION.

(** A Lite operation whose policy denies what an activation depends on. *)
Definition sample_denied : CapabilityPlanCompileInput :=
  CompileInput (Bindings "op-1" "lite" "p" "d" "r" "k" "y" "b") final ["impact_analysis"] []
    [Activation "design_governance" false None] [] (map sample_config [("impact_advisory", None); ("design_review", None)])
    (Some sample_resolver) [] None None PROTOCOL_1_1_VERSION.

(** ** Properties *)

Section properties.
Context `{Hash}.
Implicit Types input : CapabilityPlanCompileInput.

(** Exactly these capabilities are active in a compiled plan: the ones the
    profile requires, the policy requires or an activation asks for, with the
    deferral of [strict_tdd] in Standard, and none the policy denies, closed
    under the module dependencies. *)
Theorem active_capabilities_exact input plan definition :
  ci_protocol_version input ∈ versions -> compileCapabilityPlan input = Ok plan ->
  profileDefinitionForProtocol (ci_profile_id input) (ci_protocol_version input) = Ok definition ->
  forall c, c ∈ active_ids plan <->
    exists d, directly_active input definition d /\ rtc (module_depends (definitions_of (ci_protocol_version input))) d c.
Proof.
  intros Hv Hp Hd c. destruct (compilation_Ok _ _ Hv Hp) as (definition' & dg & r & f & active & ms & em & Hc).
  pose proof (co_lookup _ _ _ _ _ _ _ _ _ Hc) as Hd'. assert (definition' = definition) as -> by congruence.
  rewrite (co_active_ids Hv Hc). by apply (co_closure Hv Hc).
Qed.

(** A compiled plan is consistent: its operation DAG is the DAG of its active
    capabilities and validates; the providers its modules require are listed
    and were offered; a capability is deferred only as [strict_tdd] of a
    provisional Standard plan, so every final plan passes the execution gate. *)
Theorem compiled_plan_sound input plan :
  ci_protocol_version input ∈ versions -> compileCapabilityPlan input = Ok plan ->
  buildOperationDag (active_ids plan) (cp_protocol_version plan) = Ok (cp_nodes plan) /\
  validateOperationDag (cp_nodes plan) = Ok tt /\
  (forall c m p, c ∈ active_ids plan -> capabilityModuleDefinition c (cp_protocol_version plan) = Ok m ->
     p ∈ required_providers m -> p ∈ cp_providers plan /\ p ∈ ci_providers input) /\
  (forall c e, (c, e) ∈ cp_capabilities plan -> resolution e = deferred ->
     c = "strict_tdd" /\ cp_stage plan = provisional /\ ci_profile_id input = "standard") /\
  (cp_stage plan = final -> assertCapabilityPlanFinal plan = Ok tt).
Proof.
  intros Hv Hp. destruct (compilation_Ok _ _ Hv Hp) as (definition & dg & r & f & active & ms & em & Hc).
  destruct (co_nodes _ _ _ _ _ _ _ _ _ Hc) as [Hb Hval].
  assert (forall c e, (c, e) ∈ cp_capabilities plan -> resolution e = deferred ->
     c = "strict_tdd" /\ cp_stage plan = provisional /\ ci_profile_id input = "standard") as Hdef
    by exact (co_deferred_entries Hv Hc).
  split; [by rewrite (build_ext _ active) by (intros; apply (co_active_ids Hv Hc))|]. split; [done|].
  split; [intros c m p Hin; apply (co_active_ids Hv Hc) in Hin; by apply (co_required_providers Hc)|].
  split; [exact Hdef|]. intros Hs. unfold assertCapabilityPlanFinal.
  rewrite bool_decide_eq_true_2 by done. simpl. destruct (existsb _ _) eqn:Ee; [|done].
  apply existsb_Exists in Ee as ([c e] & Hin & He). bool_hyps. destruct (Hdef c e Hin He) as (_ & Hst & _). congruence.
Qed.

(** On a supported protocol a compilation fails only for what its input says:
    never with a DAG error or a cycle, with a registry error exactly for an
    activation of an unregistered capability, with a profile error for an
    unknown profile. *)
Theorem compilation_errors input e :
  ci_protocol_version input ∈ versions -> compileCapabilityPlan input = Err e ->
  match e with
  | OperationDagError _ => False
  | CapabilityRegistryError k => k = unknown_capability /\
      exists a, a ∈ ci_activations input /\ ac_capability_id a ∉ ids_of_version (ci_protocol_version input)
  | ProfileRegistryError => ci_profile_id input ∉ PROFILE_IDS
  | _ => True
  end.
Proof. apply compile_blame_spec. Qed.

(** On every compiled plan the invalidation loop ends, and a drifted binding
    invalidates, without repetition, exactly the active capabilities that
    depend, directly or not, on one whose module the binding invalidates. *)
Theorem invalidation_exact input plan kind :
  ci_protocol_version input ∈ versions -> compileCapabilityPlan input = Ok plan ->
  exists l, invalidatedCapabilities plan kind = Ok l /\ NoDup l /\
    forall c, c ∈ l <-> c ∈ active_ids plan /\
      exists d m, rtc (module_depends (definitions_of (cp_protocol_version plan))) c d /\
        module_map (definitions_of (cp_protocol_version plan)) !! d = Some m /\ kind ∈ invalidated_by m.
Proof.
  intros Hv Hp. destruct (compilation_Ok _ _ Hv Hp) as (definition & dg & r & f & active & ms & em & Hc).
  pose proof (co_emitted_version Hv Hc) as Hv'. pose proof (co_active_ids Hv Hc) as Hids.
  destruct (invalidation_edges _ active Hv' (co_active_emitted Hv Hc)) as (graph & Hg & Hedges).
  pose proof (co_invalidation _ _ _ _ _ _ _ _ _ Hc) as Hg'. assert (graph = cp_invalidation_graph plan) as -> by congruence.
  destruct (invalidated_spec plan kind Hv') as (l & El & Hn & Hl).
  { intros c Hin. by apply (co_active_emitted Hv Hc), Hids. }
  exists l. split; [done|]. split; [done|]. intros c. rewrite Hl. split.
  - intros (d & e & He & Hk & Hi & Hr). destruct (proj1 (Hedges kind d)) as [Hd (m & Hm & Hkm)]; [by exists e|].
    split; [|exists d, m; split; [|done]; by eapply rtc_subrel, Hr; intros ? ? []].
    apply rtc_inv in Hr as [->|(y & [? _] & _)]; [by apply Hids|done].
  - intros [Hin (d & m & Hr & Hm & Hk)].
    assert (d ∈ active_ids plan /\ rtc (fun x y => x ∈ active_ids plan /\
      module_depends (definitions_of (cp_protocol_version plan)) x y) c d) as [Hd Hr'].
    { clear Hl. induction Hr as [c|c c' d Hcc _ IH]; [split; [done|constructor]|].
      destruct IH as [Hd Hr']; [by apply (co_depends_closed Hv Hc c)|done|]. split; [done|]. by eapply rtc_l. }
    destruct (proj2 (Hedges kind d)) as (e & He & Hek & Hi); [split; [by apply Hids|by exists m]|].
    by exists d, e.
Qed.

(** Policy denies an activation cannot override hold only for the activation
    itself: the one way a denied capability is active is as a dependency of
    another active capability, and that way is open: a policy that denies
    impact_analysis and an activation of design_governance compile to a plan
    in which impact_analysis is active. *)
Theorem policy_deny_overridden_by_closure :
  (forall input plan c e,
     ci_protocol_version input ∈ versions -> compileCapabilityPlan input = Ok plan ->
     (c, e) ∈ cp_capabilities plan -> c ∈ ci_denied input -> resolution e = active_resolution ->
     resolution_source e = dependency_closure /\
     exists d, (d ∉ ci_denied input) /\ rtc (module_depends (definitions_of (ci_protocol_version input))) d c) /\
  exists plan e, compileCapabilityPlan sample_denied = Ok plan /\
    "impact_analysis" ∈ ci_denied sample_denied /\ ("impact_analysis", e) ∈ cp_capabilities plan /\
    resolution e = active_resolution.
Proof.
  split.
  - intros input plan c e Hv Hp Hin Hden Ha.
    destruct (compilation_Ok _ _ Hv Hp) as (definition & dg & r & f & active & ms & em & Hc).
    by apply (co_denied_entries Hv Hc).
  - eexists _, _. split; [vm_compute; reflexivity|]. split; [by left|].
    split; [apply omap_get_elem; vm_compute; reflexivity|done].
Qed.
End properties.

(** ** Witnesses *)

Lemma sample_hashed : { plan | @compileCapabilityPlan {| sha256 := fun s => s |} sample_standard = Ok plan }.
Proof. eexists. vm_compute. reflexivity. Defined.

Definition sample_plan : CapabilityPlan := Eval vm_compute in proj1_sig sample_hashed.

Lemma sample_compiled_Ok : @compileCapabilityPlan {| sha256 := fun s => s |} sample_standard = Ok sample_plan.
Proof. vm_compute. reflexivity. Qed.

Lemma active_capabilities_exact_witness :
  "design_governance" ∈ active_ids sample_plan /\ exists definition, @directly_active sample_standard definition "design_governance".
Proof.
  assert ("design_governance" ∈ active_ids sample_plan) as Ha by (apply mem_spec; vm_compute; reflexivity).
  split; [exact Ha|].
  destruct (proj1 (@active_capabilities_exact {| sha256 := fun s => s |} sample_standard sample_plan
    (defineProfileV11 "standard" [required; required; required; conditional; conditional])
    (list_elem_of_here _ _) sample_compiled_Ok eq_refl "design_governance") Ha) as (d & Hd & Hr).
  exists (defineProfileV11 "standard" [required; required; required; conditional; conditional]).
  exists required. split; [vm_compute; reflexivity|]. split; [by apply not_elem_of_nil|by left].
Defined.

Lemma compiled_plan_sound_witness : validateOperationDag (cp_nodes sample_plan) = Ok tt.
Proof. apply (@compiled_plan_sound {| sha256 := fun s => s |} sample_standard sample_plan); [left|exact sample_compiled_Ok]. Defined.

(** There is no profile [none]. *)
Lemma compilation_errors_witness :
  let input := CompileInput (Bindings "op-1" "none" "p" "d" "r" "k" "y" "b") final [] [] [] [] [] None [] None None
                 PROTOCOL_1_1_VERSION in
  ci_profile_id input ∉ PROFILE_IDS.
Proof.
  apply (@compilation_errors {| sha256 := fun s => s |}
    (CompileInput (Bindings "op-1" "none" "p" "d" "r" "k" "y" "b") final [] [] [] [] [] None [] None None
       PROTOCOL_1_1_VERSION) ProfileRegistryError); [left|vm_compute; reflexivity].
Defined.

Lemma invalidation_exact_witness :
  exists l, invalidatedCapabilities sample_plan "requirement_baseline" = Ok l /\ NoDup l.
Proof.
  destruct (@invalidation_exact {| sha256 := fun s => s |} sample_standard sample_plan "requirement_baseline")
    as (l & Hl & Hn & _); [left|exact sample_compiled_Ok|]. by exists l.
Defined.

Lemma policy_deny_overridden_by_closure_witness :
  exists plan e, ("impact_analysis", e) ∈ cp_capabilities plan /\ resolution_source e = dependency_closure.
Proof.
  destruct (@policy_deny_overridden_by_closure {| sha256 := fun s => s |}) as [Hsource (plan & e & Hp & Hd & Hin & Ha)].
  exists plan, e. split; [exact Hin|]. refine (proj1 (Hsource sample_denied plan _ e _ Hp Hin Hd Ha)). left.
Defined.
