(* ===== verification/Grant.v ===== *)
(** * Capability grants

    [packages/runtime/src/policy/capability-grant.ts]: issuing a grant as a
    narrowing of the effective policy, narrowing it further, and the test
    whether an action stays inside it. *)

From S2P Require Import Prelude Locator Json Policy.

(** ** Data *)

(** [string | number | boolean] *)
Inductive scalar : Type := SStr (s : string) | SNum (n : number) | SBool (b : bool).
#[export] Instance number_eq_dec : EqDecision number.
Proof. solve_decision. Defined.
#[export] Instance scalar_eq_dec : EqDecision scalar.
Proof. solve_decision. Defined.

Definition scalar_json (s : scalar) : jsval :=
  match s with SStr s => JStr s | SNum n => JNum n | SBool b => JBool b end.
Definition scalar_of (value : jsval) : option scalar :=
  match value with JStr s => Some (SStr s) | JNum n => Some (SNum n) | JBool b => Some (SBool b) | _ => None end.

Abbreviation bounds := (list (string * list scalar)).

Record GrantedTool : Type := Tool { tool_name : string; parameter_bounds : option bounds }.

(** A number that is not finite stands for NaN. *)
Record GrantBudget : Type := Budget_ { steps : number; tokens : number }.

(** [issued_by] is always [harness]. *)
Record CapabilityGrant : Type := CapGrant
  { grant_id : string;
    grant_task_id : string;
    capabilities : list string;
    read_paths : list string;
    write_paths : list string;
    state_fields : list string;
    tools : list GrantedTool;
    grant_phase : string;
    budget : GrantBudget;
    grant_approvals : list string;
    grant_policy_digest : string;
    grant_digest : string }.

Record GrantRequest : Type := Request
  { rq_grant_id : string;
    rq_task_id : string;
    rq_capabilities : list string;
    rq_read_paths : list string;
    rq_write_paths : list string;
    rq_state_fields : list string;
    rq_tools : list GrantedTool;
    rq_phase : string;
    rq_budget : GrantBudget;
    rq_approvals : list string }.

Record GrantNarrowing : Type := Narrowing
  { nw_capabilities : option (list string);
    nw_read_paths : option (list string);
    nw_write_paths : option (list string);
    nw_state_fields : option (list string);
    nw_tools : option (list GrantedTool);
    nw_budget : option GrantBudget }.

(** ** Digest *)

Definition tool_json (t : GrantedTool) : jsval :=
  JObj (("name", JStr (tool_name t)) ::
        match parameter_bounds t with
        | Some b => [("parameter_bounds", JObj (map (fun e => (e.1, JArr (map scalar_json e.2))) b))]
        | None => []
        end).

Definition budget_json (b : GrantBudget) : jsval := JObj [("steps", JNum (steps b)); ("tokens", JNum (tokens b))].

Definition grant_json (g : CapabilityGrant) : jsval :=
  JObj [("grant_id", JStr (grant_id g)); ("task_id", JStr (grant_task_id g)); ("issued_by", JStr "harness");
        ("capabilities", strings (capabilities g)); ("read_paths", strings (read_paths g));
        ("write_paths", strings (write_paths g)); ("state_fields", strings (state_fields g));
        ("tools", JArr (map tool_json (tools g))); ("phase", JStr (grant_phase g)); ("budget", budget_json (budget g));
        ("approval_digests", strings (grant_approvals g));
        ("effective_policy_digest", JStr (grant_policy_digest g))].

Section grant.
Context `{Hash}.

(** [{ ...next, digest: grantDigest(next) }] *)
Definition seal_grant (g : CapabilityGrant) : policy_result CapabilityGrant :=
  d ← map_err PolicyCanonicalError (contentDigest (grant_json g));
  Ok (CapGrant (grant_id g) (grant_task_id g) (capabilities g) (read_paths g) (write_paths g) (state_fields g) (tools g)
        (grant_phase g) (budget g) (grant_approvals g) (grant_policy_digest g) d).

(** ** Issuing *)

Definition sortedUnique (values : list string) : list string := sort_strings (dedup values).

(** [assertSubset], when the policy declares the allow set. *)
Definition assertSubset (requested : list string) (allowed : option (list string)) : policy_result unit :=
  match allowed with
  | None => Ok tt
  | Some l => forM_ (fun v => reject_if (negb (mem v l)) capability_expansion) requested
  end.

Definition within_allowed (allowed : option (list string)) (path : string) : bool :=
  match allowed with None => true | Some l => isPathWithinScopes l path end.

Definition tool_cmp (l r : GrantedTool) : Z := str_cmp (tool_name l) (tool_name r).

(** [max === undefined ? value : Math.min(value, max)] *)
Definition clamp (value : number) (max : option number) : number :=
  match max with
  | None => value
  | Some m => match finite_value value with Some _ => num_min value m | None => value end
  end.

Definition issueGrant (request : GrantRequest) (e : EffectivePolicy) : policy_result CapabilityGrant :=
  let denyCapabilities := default [] (policyStrings e "capabilities.deny") in
  let caps := sortedUnique (rq_capabilities request) in
  _ ← assertSubset caps (policyStrings e "capabilities.allow");
  _ ← forM_ (fun c => reject_if (mem c denyCapabilities) capability_expansion) caps;
  let denyPaths := default [] (policyStrings e "paths.deny") in
  reads ← mapM normalizeRepoRelativePath (rq_read_paths request);
  writes ← mapM normalizeRepoRelativePath (rq_write_paths request);
  let readPaths := sortedUnique reads in
  let writePaths := sortedUnique writes in
  _ ← forM_ (fun p => reject_if (negb (within_allowed (policyStrings e "paths.read.allow") p)) capability_expansion)
        readPaths;
  _ ← forM_ (fun p =>
        _ ← reject_if (negb (within_allowed (policyStrings e "paths.write.allow") p)) capability_expansion;
        reject_if (isPathWithinScopes denyPaths p) capability_expansion) writePaths;
  let granted := js_sort tool_cmp (rq_tools request) in
  _ ← assertSubset (map tool_name granted) (policyStrings e "resources.allow");
  _ ← assertSubset [rq_phase request] (policyStrings e "phases.allow");
  let ceilings := Budget_ (clamp (steps (rq_budget request)) (policyNumber e "budgets.max_steps"))
                    (clamp (tokens (rq_budget request)) (policyNumber e "budgets.max_tokens")) in
  seal_grant (CapGrant (rq_grant_id request) (rq_task_id request) caps readPaths writePaths
    (sortedUnique (rq_state_fields request)) granted (rq_phase request) ceilings
    (sortedUnique (rq_approvals request)) (ep_digest e) "").

(** ** Narrowing *)

Definition assertSetNarrowing (current narrowed : list string) : policy_result (list string) :=
  let next := sortedUnique narrowed in
  _ ← forM_ (fun v => reject_if (negb (mem v current)) capability_expansion) next;
  Ok next.

(** [previous.parameter_bounds?.[key]], then its [includes] on every value. *)
Definition check_bound (previous : GrantedTool) (bound : string * list scalar) : policy_result unit :=
  match parameter_bounds previous with
  | None => Ok tt
  | Some b =>
      match omap_get b bound.1 with
      | None => reject_if (mem bound.1 inherited_names && negb (bool_decide (bound.2 = []))) PolicyTypeError
      | Some previousValues =>
          forM_ (fun v => reject_if (negb (mem v previousValues)) capability_expansion) bound.2
      end
  end.

Definition find_tool (l : list GrantedTool) (name : string) : option GrantedTool :=
  find_first (fun t => bool_decide (tool_name t = name)) l.

Definition assertToolNarrowing (current narrowed : list GrantedTool) : policy_result (list GrantedTool) :=
  let next := js_sort tool_cmp narrowed in
  _ ← forM_ (fun tool =>
        match find_tool current (tool_name tool) with
        | None => Err capability_expansion
        | Some previous => forM_ (check_bound previous) (default [] (parameter_bounds tool))
        end) next;
  Ok next.

(** [narrowing.x === undefined ? grant.x : narrow(narrowing.x)] *)
Definition narrowed_or {A} (current : A) (narrowing : option A) (narrow : A -> policy_result A) : policy_result A :=
  match narrowing with None => Ok current | Some v => narrow v end.

Definition narrow_paths (current : list string) (paths : list string) : policy_result (list string) :=
  normalized ← mapM normalizeRepoRelativePath paths; assertSetNarrowing current normalized.

Definition narrowGrant (grant : CapabilityGrant) (narrowing : GrantNarrowing) : policy_result CapabilityGrant :=
  caps ← narrowed_or (capabilities grant) (nw_capabilities narrowing) (assertSetNarrowing (capabilities grant));
  reads ← narrowed_or (read_paths grant) (nw_read_paths narrowing) (narrow_paths (read_paths grant));
  writes ← narrowed_or (write_paths grant) (nw_write_paths narrowing) (narrow_paths (write_paths grant));
  fields ← narrowed_or (state_fields grant) (nw_state_fields narrowing) (assertSetNarrowing (state_fields grant));
  granted ← narrowed_or (tools grant) (nw_tools narrowing) (assertToolNarrowing (tools grant));
  let next := default (budget grant) (nw_budget narrowing) in
  _ ← reject_if (num_lt (steps (budget grant)) (steps next) || num_lt (tokens (budget grant)) (tokens next))
        capability_expansion;
  seal_grant (CapGrant (grant_id grant) (grant_task_id grant) caps reads writes fields granted (grant_phase grant) next
    (grant_approvals grant) (grant_policy_digest grant) "").

(** ** Using *)

(** [typeof value] is string, number or boolean, and no allowed value is it. *)
Definition outside_bound (params : list (string * jsval)) (bound : string * list scalar) : bool :=
  match scalar_of (jfield params bound.1) with Some v => negb (mem v bound.2) | None => false end.

(** [grantDenialReason(grant, action) !== undefined] *)
Definition grantDenies (grant : CapabilityGrant) (action : PolicyAction) : bool :=
  negb (bool_decide (phase action = grant_phase grant)) ||
  match kind action with
  | read_path =>
      match resource action with Some r => negb (isPathWithinScopes (read_paths grant) r) | None => true end
  | write_path =>
      match resource action with Some r => negb (isPathWithinScopes (write_paths grant) r) | None => true end
  | propose_state =>
      match resource action with Some r => negb (mem r (state_fields grant)) | None => true end
  | invoke_tool =>
      match resource action with
      | None => true
      | Some r =>
          match find_tool (tools grant) r with
          | None => true
          | Some tool => existsb (outside_bound (parameters action)) (default [] (parameter_bounds tool))
          end
      end
  | _ => false
  end.
End grant.

(* ------------------------------------------------------------------ *)
(** ** Paths and scopes *)

Lemma try_normal_fixed p q : tryNormalizeRepoRelativePath p = Some q -> tryNormalizeRepoRelativePath q = Some q.
Proof.
  unfold tryNormalizeRepoRelativePath, normalizeRepoRelativePath.
  destruct (normalizeLocatorPath p) as [q'|] eqn:E; [|done]. intros [= <-].
  by rewrite (normalizeLocatorPath_fixed q') by (by eapply normalizeLocatorPath_canonical).
Qed.

Lemma normalize_try p q : normalizeRepoRelativePath p = Ok q -> tryNormalizeRepoRelativePath q = Some q.
Proof. intros E. apply (try_normal_fixed p). unfold tryNormalizeRepoRelativePath. by rewrite E. Qed.

(** One scope covers the path. *)
Definition covers (scope path : string) : Prop :=
  exists s t, tryNormalizeRepoRelativePath scope = Some s /\ tryNormalizeRepoRelativePath path = Some t /\
    (t = s \/ exists u, t = s +:+ "/" +:+ u).

Lemma within_covers scopes path :
  isPathWithinScopes scopes path = true <-> exists scope, scope ∈ scopes /\ covers scope path.
Proof.
  unfold isPathWithinScopes, covers. destruct (tryNormalizeRepoRelativePath path) as [t|]; [|naive_solver].
  rewrite existsb_Exists. apply exist_proper. intros scope. apply and_iff_compat_l.
  destruct (tryNormalizeRepoRelativePath scope) as [s|]; [|naive_solver].
  rewrite orb_true_iff, bool_decide_eq_true, starts_with_spec. setoid_rewrite <- string_app_assoc. naive_solver.
Qed.

Lemma covers_trans a b c : covers a b -> covers b c -> covers a c.
Proof.
  intros (s & t & Hs & Ht & Hst) (t' & u & Ht' & Hu & Htu). assert (t' = t) as -> by congruence.
  exists s, u. split; [done|]. split; [done|]. destruct Htu as [->|[y ->]]; [done|].
  destruct Hst as [->|[x ->]]; right; [by exists y|]. exists (x +:+ "/" +:+ y). by rewrite !string_app_assoc.
Qed.

(** Scopes that are each inside other scopes cover no more than these. *)
Lemma within_mono inner outer path :
  (forall p, p ∈ inner -> isPathWithinScopes outer p = true) ->
  isPathWithinScopes inner path = true -> isPathWithinScopes outer path = true.
Proof.
  intros Hin. rewrite !within_covers. intros (p & Hp & Hc). apply Hin, within_covers in Hp as (s & Hs & Hsp).
  exists s. split; [done|]. by eapply covers_trans.
Qed.

Lemma within_subset inner outer path :
  inner ⊆ outer -> isPathWithinScopes inner path = true -> isPathWithinScopes outer path = true.
Proof. intros Hs. rewrite !within_covers. intros (p & Hp & Hc). exists p. split; [by apply Hs|done]. Qed.

(** ** What a grant was checked for *)

Section facts.
Context `{Hash}.

Lemma forM_reject_false {A} (p : A -> bool) e l u :
  forM_ (fun x => reject_if (E := policy_error) (p x) e) l = Ok u -> forall x, x ∈ l -> p x = false.
Proof. intros Hl x Hx. apply forM_Ok_u in Hl. rewrite Forall_forall in Hl. by apply Hl, reject_if_Ok in Hx. Qed.

Lemma elem_of_sortedUnique x l : x ∈ sortedUnique l <-> x ∈ l.
Proof. unfold sortedUnique. by rewrite elem_of_sort_strings, elem_of_dedup. Qed.

Lemma assertSubset_Ok requested allowed u l :
  assertSubset requested allowed = Ok u -> allowed = Some l -> requested ⊆ l.
Proof.
  intros Ha ->. simpl in Ha. intros x Hx. apply mem_spec. apply negb_false_iff.
  exact (forM_reject_false (fun v => negb (mem v l)) _ _ _ Ha x Hx).
Qed.

Lemma seal_grant_Ok g g' : seal_grant g = Ok g' ->
  g' = CapGrant (grant_id g) (grant_task_id g) (capabilities g) (read_paths g) (write_paths g) (state_fields g) (tools g)
         (grant_phase g) (budget g) (grant_approvals g) (grant_policy_digest g) (grant_digest g').
Proof. unfold seal_grant. rewrite bind_Ok. intros (d & _ & [= <-]). done. Qed.

(** A grant asks for nothing the effective policy does not allow. *)
Record issued (rq : GrantRequest) (e : EffectivePolicy) (g : CapabilityGrant) : Prop := {
  is_capabilities : forall c, c ∈ capabilities g <-> c ∈ rq_capabilities rq;
  is_capability_allow : forall l, policyStrings e "capabilities.allow" = Some l -> capabilities g ⊆ l;
  is_capability_deny : forall l c, policyStrings e "capabilities.deny" = Some l -> c ∈ capabilities g -> c ∉ l;
  is_read : forall l p, policyStrings e "paths.read.allow" = Some l -> p ∈ read_paths g -> isPathWithinScopes l p = true;
  is_write : forall l p, policyStrings e "paths.write.allow" = Some l -> p ∈ write_paths g -> isPathWithinScopes l p = true;
  is_write_deny : forall l p, policyStrings e "paths.deny" = Some l -> p ∈ write_paths g -> isPathWithinScopes l p = false;
  is_tools : forall l t, policyStrings e "resources.allow" = Some l -> t ∈ tools g -> tool_name t ∈ l;
  is_phase : forall l, policyStrings e "phases.allow" = Some l -> grant_phase g ∈ l;
  is_steps : forall m, policyNumber e "budgets.max_steps" = Some m -> num_lt m (steps (budget g)) = false;
  is_tokens : forall m, policyNumber e "budgets.max_tokens" = Some m -> num_lt m (tokens (budget g)) = false;
  is_digest : grant_policy_digest g = ep_digest e
}.

Lemma clamp_bound value max m : max = Some m -> num_lt m (clamp value max) = false.
Proof.
  intros ->. unfold clamp. destruct (finite_value value) as [x|] eqn:Ev; [|unfold num_lt; rewrite Ev; by destruct (finite_value m)].
  unfold num_min. destruct (num_lt m value) eqn:El; [|done]. unfold num_lt. destruct (finite_value m) as [y|]; [|done].
  apply negb_false_iff, QArith_base.Qle_bool_iff, QArith_base.Qle_refl.
Qed.

Lemma issueGrant_Ok rq e g : issueGrant rq e = Ok g -> issued rq e g.
Proof.
  unfold issueGrant. cbv zeta. rewrite bind_Ok. intros ([] & Hcap & E). rewrite bind_Ok in E. destruct E as ([] & Hdeny & E).
  rewrite bind_Ok in E. destruct E as (reads & Hreads & E). rewrite bind_Ok in E. destruct E as (writes & Hwrites & E).
  rewrite bind_Ok in E. destruct E as ([] & Hr & E). rewrite bind_Ok in E. destruct E as ([] & Hw & E).
  rewrite bind_Ok in E. destruct E as ([] & Ht & E). rewrite bind_Ok in E. destruct E as ([] & Hp & E).
  apply seal_grant_Ok in E. rewrite E. apply forM_Ok_u in Hw. rewrite Forall_forall in Hw.
  constructor; cbn [capabilities read_paths write_paths tools grant_phase budget steps tokens grant_policy_digest].
  - intros c. apply elem_of_sortedUnique.
  - intros l Hl. by eapply assertSubset_Ok.
  - intros l c Hl Hc Hin. pose proof (forM_reject_false _ _ _ _ Hdeny c Hc) as Hm. rewrite Hl in Hm. by apply mem_false in Hm.
  - intros l p Hl Hin. pose proof (forM_reject_false _ _ _ _ Hr p Hin) as Hm. rewrite Hl in Hm. by apply negb_false_iff in Hm.
  - intros l p Hl Hin. specialize (Hw p Hin). rewrite reject_bind_Ok in Hw. destruct Hw as [Hm _]. rewrite Hl in Hm.
    by apply negb_false_iff in Hm.
  - intros l p Hl Hin. specialize (Hw p Hin). rewrite reject_bind_Ok, reject_if_Ok in Hw. destruct Hw as [_ Hm].
    by rewrite Hl in Hm.
  - intros l t Hl Hin. eapply assertSubset_Ok; [exact Ht|done|]. by apply (list_elem_of_fmap_2 tool_name).
  - intros l Hl. eapply assertSubset_Ok; [exact Hp|done|]. left.
  - intros m Hm. by apply clamp_bound.
  - intros m Hm. by apply clamp_bound.
  - done.
Qed.

(** The fields of an issued grant that are taken from the request. *)
Lemma issueGrant_fields rq e g : issueGrant rq e = Ok g ->
  grant_id g = rq_grant_id rq /\ grant_task_id g = rq_task_id rq /\ grant_phase g = rq_phase rq /\
  capabilities g = sortedUnique (rq_capabilities rq) /\ tools g = js_sort tool_cmp (rq_tools rq) /\
  exists writes, mapM normalizeRepoRelativePath (rq_write_paths rq) = Ok writes /\ write_paths g = sortedUnique writes.
Proof.
  unfold issueGrant. cbv zeta. intros E. inv_result. apply seal_grant_Ok in E. rewrite E.
  split_and!; try done. eexists. done.
Qed.

(** ** What a narrowing was checked for *)

Lemma narrowed_or_Ok {A} (current : A) narrowing narrow v :
  narrowed_or current narrowing narrow = Ok v ->
  v = current \/ exists w, narrowing = Some w /\ narrow w = Ok v.
Proof. destruct narrowing as [w|]; simpl; [eauto|]. intros [= <-]. by left. Qed.

Lemma assertSetNarrowing_Ok current narrowed v : assertSetNarrowing current narrowed = Ok v -> v ⊆ current.
Proof.
  unfold assertSetNarrowing. rewrite bind_Ok. intros ([] & Hf & [= <-]) x Hx. apply mem_spec. apply negb_false_iff.
  exact (forM_reject_false (fun v => negb (mem v current)) _ _ _ Hf x Hx).
Qed.

Lemma narrow_paths_Ok current paths v : narrow_paths current paths = Ok v -> v ⊆ current.
Proof. unfold narrow_paths. rewrite bind_Ok. intros (n & _ & Hn). by eapply assertSetNarrowing_Ok. Qed.

Lemma find_tool_Some l name t : find_tool l name = Some t -> t ∈ l /\ tool_name t = name.
Proof. intros [Ht Hn]%find_first_Some. by bool_hyps. Qed.

(** Each bound of a narrowed tool is inside the previous one of its key. *)
Lemma assertToolNarrowing_Ok current narrowed v :
  assertToolNarrowing current narrowed = Ok v ->
  v ≡ₚ narrowed /\
  forall t, t ∈ v -> exists previous, find_tool current (tool_name t) = Some previous /\
    forall key values b previousValues, (key, values) ∈ default [] (parameter_bounds t) ->
      parameter_bounds previous = Some b -> omap_get b key = Some previousValues -> values ⊆ previousValues.
Proof.
  unfold assertToolNarrowing. rewrite bind_Ok. intros ([] & Hf & [= <-]). split; [apply js_sort_Permutation|].
  intros t Ht. apply forM_Ok_u in Hf. rewrite Forall_forall in Hf. specialize (Hf t Ht).
  destruct (find_tool current (tool_name t)) as [previous|]; [|done]. exists previous. split; [done|].
  intros key values b previousValues Hin Hb Hk x Hx. apply forM_Ok_u in Hf. rewrite Forall_forall in Hf.
  specialize (Hf _ Hin). unfold check_bound in Hf. rewrite Hb in Hf. cbn [fst snd] in Hf. rewrite Hk in Hf.
  apply mem_spec. apply negb_false_iff.
  exact (forM_reject_false (fun v => negb (mem v previousValues)) _ _ _ Hf x Hx).
Qed.

Record narrows (g : CapabilityGrant) (n : GrantNarrowing) (g' : CapabilityGrant) : Prop := {
  nr_capabilities : capabilities g' ⊆ capabilities g;
  nr_read : read_paths g' ⊆ read_paths g;
  nr_write : write_paths g' ⊆ write_paths g;
  nr_fields : state_fields g' ⊆ state_fields g;
  nr_tools : tools g' = tools g \/ exists ts, nw_tools n = Some ts /\ assertToolNarrowing (tools g) ts = Ok (tools g');
  nr_phase : grant_phase g' = grant_phase g;
  nr_approvals : grant_approvals g' = grant_approvals g;
  nr_policy : grant_policy_digest g' = grant_policy_digest g;
  nr_steps : num_lt (steps (budget g)) (steps (budget g')) = false;
  nr_tokens : num_lt (tokens (budget g)) (tokens (budget g')) = false
}.

Lemma narrowGrant_Ok g n g' : narrowGrant g n = Ok g' -> narrows g n g'.
Proof.
  unfold narrowGrant. cbv zeta. rewrite bind_Ok. intros (caps & Hcaps & E). rewrite bind_Ok in E.
  destruct E as (reads & Hreads & E). rewrite bind_Ok in E. destruct E as (writes & Hwrites & E).
  rewrite bind_Ok in E. destruct E as (fields & Hfields & E). rewrite bind_Ok in E. destruct E as (granted & Ht & E).
  rewrite reject_bind_Ok in E. destruct E as (Hb & E). apply orb_false_iff in Hb as [Hs Htk].
  apply seal_grant_Ok in E. rewrite E.
  constructor; cbn [capabilities read_paths write_paths state_fields tools grant_phase budget grant_approvals
    grant_policy_digest]; try done.
  - apply narrowed_or_Ok in Hcaps as [->|(w & _ & Hw)]; [done|by eapply assertSetNarrowing_Ok].
  - apply narrowed_or_Ok in Hreads as [->|(w & _ & Hw)]; [done|by eapply narrow_paths_Ok].
  - apply narrowed_or_Ok in Hwrites as [->|(w & _ & Hw)]; [done|by eapply narrow_paths_Ok].
  - apply narrowed_or_Ok in Hfields as [->|(w & _ & Hw)]; [done|by eapply assertSetNarrowing_Ok].
  - apply narrowed_or_Ok in Ht as [->|(w & Hw & Hn)]; [by left|]. right. by exists w.
Qed.

(** The tools named keep a bound for every key that had one. *)
Definition keeps_bounds (g : CapabilityGrant) (n : GrantNarrowing) : Prop :=
  forall ts t previous b key values,
    nw_tools n = Some ts -> t ∈ ts -> find_tool (tools g) (tool_name t) = Some previous ->
    parameter_bounds previous = Some b -> (key, values) ∈ b ->
    exists values', (key, values') ∈ default [] (parameter_bounds t).

(** A JavaScript object has each key once. *)
Definition bounds_wf (g : CapabilityGrant) : Prop :=
  forall t b, t ∈ tools g -> parameter_bounds t = Some b -> NoDup b.*1.

Lemma find_tool_narrowed g n g' name t :
  narrowGrant g n = Ok g' -> bounds_wf g -> keeps_bounds g n -> find_tool (tools g') name = Some t ->
  exists previous, find_tool (tools g) name = Some previous /\
    forall params, existsb (outside_bound params) (default [] (parameter_bounds t)) = false ->
      existsb (outside_bound params) (default [] (parameter_bounds previous)) = false.
Proof.
  intros Hn Hwf Hk Ht. destruct (nr_tools _ _ _ (narrowGrant_Ok _ _ _ Hn)) as [E|(ts & Hts & E)].
  { rewrite E in Ht. by exists t. }
  destruct (assertToolNarrowing_Ok _ _ _ E) as [Hp Hin]. apply find_tool_Some in Ht as [Hm <-].
  destruct (Hin t Hm) as (previous & Hprev & Hb). exists previous. split; [done|]. intros params Hout.
  destruct (existsb (outside_bound params) (default [] (parameter_bounds previous))) eqn:Eo; [|done].
  apply existsb_Exists in Eo as ([key values] & Hkv & Ho).
  destruct (parameter_bounds previous) as [b|] eqn:Eb; [|by apply elem_of_nil in Hkv]. simpl in Hkv.
  destruct (Hk ts t previous b key values) as (values' & Hkv'); [done|by rewrite <- Hp|done..|].
  rewrite <- Hout. symmetry. apply existsb_Exists. exists (key, values'). split; [done|].
  unfold outside_bound in *. simpl in *. destruct (scalar_of _) as [v|]; [|done].
  apply negb_true_iff, mem_false. apply negb_true_iff, mem_false in Ho. intros Hv. apply Ho.
  apply (Hb key values' b values); [done|done| |done]. apply elem_omap_get; [|done].
  apply (Hwf previous); [|done]. by apply find_tool_Some in Hprev as [? _].
Qed.
End facts.

(** ** Properties *)

(** A sample: one tool, bound to one mode. *)
Definition tool_grant (b : option bounds) : CapabilityGrant :=
  CapGrant "grant-1" "task-1" ["edit"] ["src"] ["src"] [] [Tool "apply_patch" b] "execute"
    (Budget_ (NInt 20) (NInt 5000)) [] "policy" "digest".
Definition sample_bounds : option bounds := Some [("mode", [SStr "dry-run"])].
Definition sample_narrowing (b : option bounds) : GrantNarrowing :=
  Narrowing None None None None (Some [Tool "apply_patch" b]) None.
Definition sample_call : PolicyAction :=
  Action invoke_tool "agent-1" agent control_plane "execute" (Some "apply_patch") [("mode", JStr "force")] low None None.

(** C29. A narrowed grant admits no action the grant did not admit, and raises no
    budget, provided the tools it names keep the parameter bounds they had.
    Nothing enforces that: a narrowing that names a tool without its bounds is
    accepted, and admits calls the grant refuses. *)
Theorem narrowing_widens_only_by_dropped_bounds `{Hash} :
  (forall g n g' action,
     narrowGrant g n = Ok g' -> bounds_wf g -> keeps_bounds g n ->
     (grantDenies g' action = false -> grantDenies g action = false) /\
     capabilities g' ⊆ capabilities g /\ grant_approvals g' = grant_approvals g /\
     num_lt (steps (budget g)) (steps (budget g')) = false /\
     num_lt (tokens (budget g)) (tokens (budget g')) = false) /\
  exists g', narrowGrant (tool_grant sample_bounds) (sample_narrowing None) = Ok g' /\
    grantDenies (tool_grant sample_bounds) sample_call = true /\ grantDenies g' sample_call = false.
Proof.
  split.
  - intros g n g' action Hn Hwf Hk. destruct (narrowGrant_Ok _ _ _ Hn) as [Hc Hr Hw Hf _ Hp Ha _ Hs Ht].
    split; [|by split_and!]. unfold grantDenies. rewrite Hp, !orb_false_iff. intros [? Hd]. split; [done|].
    destruct (kind action), (resource action) as [r|]; try done.
    + apply negb_false_iff in Hd. apply negb_false_iff. by eapply within_subset.
    + apply negb_false_iff in Hd. apply negb_false_iff. by eapply within_subset.
    + destruct (find_tool (tools g') r) as [t|] eqn:Et; [|done].
      destruct (find_tool_narrowed _ _ _ _ _ Hn Hwf Hk Et) as (previous & -> & Hb). by apply Hb.
    + apply negb_false_iff, mem_spec in Hd. apply negb_false_iff, mem_spec. by apply Hf.
  - eexists. split; [vm_compute; reflexivity|]. split; vm_compute; reflexivity.
Qed.

(** Keeping the bounds, the narrowed grant still refuses the call. *)
Lemma narrowing_widens_only_by_dropped_bounds_witness :
  exists g', @narrowGrant {| sha256 := fun s => s |} (tool_grant sample_bounds) (sample_narrowing sample_bounds) = Ok g' /\
    capabilities g' ⊆ capabilities (tool_grant sample_bounds).
Proof.
  destruct (@narrowing_widens_only_by_dropped_bounds {| sha256 := fun s => s |}) as [Hnarrow _].
  eexists. split; [vm_compute; reflexivity|].
  refine (proj1 (proj2 (Hnarrow (tool_grant sample_bounds) (sample_narrowing sample_bounds) _ sample_call _ _ _))).
  - vm_compute. reflexivity.
  - intros t b Ht Hb. apply list_elem_of_singleton in Ht. rewrite Ht in Hb. injection Hb as <-. apply NoDup_singleton.
  - intros ts t previous b key values [= <-] Ht Hp Hb Hk. apply list_elem_of_singleton in Ht. rewrite Ht in *.
    vm_compute in Hp. injection Hp as <-. injection Hb as <-. by exists values.
Defined.
