(* ===== verification/Evaluator.v ===== *)
(** * The policy evaluator

    [decideAction] and [resolveSchedulerCeilings] of
    [packages/runtime/src/policy/evaluator.ts], over the merge of [Policy] and
    the grants of [Grant]. *)

From Stdlib Require Import QArith.
From S2P Require Import Prelude Locator Json Policy Lease Grant.

(** ** Deciding an action *)

Definition isEscalation (action : PolicyAction) : bool := mem (kind action) ESCALATION_ACTION_KINDS.

(** [TRAJECTORY_STRENGTH.indexOf(visibility)] *)
Definition trajectoryRank (visibility : string) : Z :=
  index_of (map trajectory_text (reverse TRAJECTORY_VISIBILITIES)) visibility.

(** The risk of a [risk:...] token of approvals.required. *)
Definition riskThreshold (entry : string) : option PolicyRisk :=
  if starts_with entry "risk:"
  then find_first (fun r => bool_decide (risk_text r = str_drop 5 entry)) POLICY_RISKS
  else None.

Definition is_path_action (action : PolicyAction) : bool :=
  mem (kind action) [read_path; write_path].

Definition by_agent (action : PolicyAction) : bool := mem (actor_kind action) [agent; adapter].

(** The explicit denies on the resource. *)
Definition resource_denied (e : EffectivePolicy) (action : PolicyAction) : bool :=
  match resource action with
  | None => false
  | Some r =>
      is_path_action action && bool_decide (tryNormalizeRepoRelativePath r = None)
      || is_path_action action && isPathWithinScopes (default [] (policyStrings e "paths.deny")) r
      || mem r (default [] (policyStrings e "resources.deny"))
      || bool_decide (kind action = invoke_tool) && mem r (default [] (policyStrings e "capabilities.deny"))
  end.

(** The grant, unless the action is an escalation. *)
Definition grant_denied (e : EffectivePolicy) (action : PolicyAction) (grant : option CapabilityGrant) : bool :=
  match grant with
  | None => false
  | Some g => negb (isEscalation action) &&
      (grantDenies g action || negb (bool_decide (grant_policy_digest g = ep_digest e)))
  end.

(** [allow !== undefined && !inside(allow, resource)] *)
Definition outside (allowed : option (list string)) (inside : list string -> bool) : bool :=
  match allowed with Some l => negb (inside l) | None => false end.

Definition not_allowed (e : EffectivePolicy) (action : PolicyAction) : bool :=
  match resource action with
  | None => false
  | Some r =>
      match kind action with
      | read_path => outside (policyStrings e "paths.read.allow") (fun l => isPathWithinScopes l r)
      | write_path => outside (policyStrings e "paths.write.allow") (fun l => isPathWithinScopes l r)
      | invoke_tool => outside (policyStrings e "resources.allow") (mem r)
      | _ => false
      end
  end
  || outside (policyStrings e "phases.allow") (mem (phase action)).

(** The controls an agent's or adapter's profile must provide. *)
Definition control_missing (e : EffectivePolicy) (action : PolicyAction) : bool :=
  by_agent action &&
  (match policyString e "controls.trajectory" with
   | None => false
   | Some required =>
       match control_profile action with
       | None => true
       | Some p => (trajectoryRank (trajectory_text (trajectory_visibility p)) <? trajectoryRank required)%Z
       end
   end
   || bool_decide (policyString e "controls.side_effect_interception" = Some "required") &&
      negb (match control_profile action with Some p => side_effect_interception p | None => false end)).

Definition requiresApproval (e : EffectivePolicy) (action : PolicyAction) : bool :=
  let required := default [] (policyStrings e "approvals.required") in
  mem (kind_text (kind action)) required ||
  existsb (fun entry => match riskThreshold entry with
                        | Some t => (riskRank t <=? riskRank (risk action))%nat
                        | None => false
                        end) required.

(** The claimed approval, when the grant accepts it. *)
Definition accepted_approval (action : PolicyAction) (grant : option CapabilityGrant) : option string :=
  match pa_approval_digest action with
  | Some approval =>
      match grant with
      | None => Some approval
      | Some g => if mem approval (grant_approvals g) then Some approval else None
      end
  | None => None
  end.

(** The outcome, and the approval the decision names. *)
Definition judge (e : EffectivePolicy) (action : PolicyAction) (grant : option CapabilityGrant) :
  DecisionOutcome * option string :=
  if bool_decide (origin action = prompt) && isEscalation action then (deny, None)
  else if bool_decide (origin action = prompt) && bool_decide (is_Some (pa_approval_digest action)) &&
          mem (kind action) SCHEDULER_POLICY_ACTION_KINDS then (deny, None)
  else if isEscalation action && by_agent action then (deny, None)
  else if resource_denied e action then (deny, None)
  else if grant_denied e action grant then (deny, None)
  else if not_allowed e action then (deny, None)
  else if control_missing e action then (deny, None)
  else if requiresApproval e action then
    match accepted_approval action grant with
    | Some approval => (allow, Some approval)
    | None => (requires_approval, None)
    end
  else (allow, None).

Definition decideAction `{Hash} (layers : list PolicyLayerInput) (action : PolicyAction)
    (grant : option CapabilityGrant) : policy_result PolicyDecision :=
  merged ← mergePolicyLayers layers;
  let e := effective merged in
  let verdict := if decide (conflicts merged = []) then judge e action grant else (block, None) in
  digest ← actionDigest action;
  Ok (buildDecision verdict.1 digest e verdict.2).

(** ** Scheduler ceilings *)

Definition SCHEDULER_MAX_CONCURRENCY_PATH : string := "scheduler.max_concurrency".
Definition PROFILE_DEFAULT_MAX_CONCURRENCY : Z := 2.

(** Each iteration ceiling with its fallback. *)
Definition LOOP_CEILING_FALLBACKS : list (string * string) :=
  [("budgets.iteration.max_steps", "loop.max_steps"); ("budgets.iteration.max_tokens", "loop.max_tokens");
   ("budgets.iteration.max_duration_ms", "loop.max_duration_ms")].

Inductive CeilingValue : Type := missing | invalid | ok (value : number).

Definition ceilingValue (e : EffectivePolicy) (path : string) : CeilingValue :=
  match fieldAt e path with
  | None => missing
  | Some f => match ef_value f with
              | JNum NNonFinite => invalid
              | JNum n => ok n
              | _ => invalid
              end
  end.

(** [value <= 0] *)
Definition non_positive (n : number) : bool := negb (num_lt (NInt 0) n).

Record SchedulerCeilings : Type := Ceilings { max_concurrency : Z; iteration : list (string * number) }.

Inductive SchedulerCeilingResolution : Type := resolved (ceilings : SchedulerCeilings) | blocked.

(** The concurrency ceiling; [None] is a violation. *)
Definition concurrency_ceiling_of (e : EffectivePolicy) : option Z :=
  match ceilingValue e SCHEDULER_MAX_CONCURRENCY_PATH with
  | missing => Some PROFILE_DEFAULT_MAX_CONCURRENCY
  | ok (NInt z) => if (z <=? 0)%Z then None else Some z
  | _ => None
  end.

(** One iteration ceiling, if there is one; [None] is a violation. *)
Definition iteration_ceiling (e : EffectivePolicy) (paths : string * string) : option (list (string * number)) :=
  let key := str_drop (String.length "budgets.iteration.") paths.1 in
  match ceilingValue e paths.1 with
  | invalid => None
  | ok n => if non_positive n then None else Some [(key, n)]
  | missing =>
      match ceilingValue e paths.2 with
      | ok n => Some (if non_positive n then [] else [(key, n)])
      | _ => Some []
      end
  end.

Definition resolveSchedulerCeilings (e : EffectivePolicy) : SchedulerCeilingResolution :=
  match concurrency_ceiling_of e, mapM (iteration_ceiling e) LOOP_CEILING_FALLBACKS with
  | Some c, Some l => resolved (Ceilings c (concat l))
  | _, _ => blocked
  end.

(* ------------------------------------------------------------------ *)
(** ** What an outcome says *)

(** The refusals, in any order. *)
Definition denied (e : EffectivePolicy) (action : PolicyAction) (grant : option CapabilityGrant) : bool :=
  bool_decide (origin action = prompt) && isEscalation action ||
  bool_decide (origin action = prompt) && bool_decide (is_Some (pa_approval_digest action)) &&
    mem (kind action) SCHEDULER_POLICY_ACTION_KINDS ||
  isEscalation action && by_agent action || resource_denied e action || grant_denied e action grant ||
  not_allowed e action || control_missing e action.

Lemma judge_denied e action grant :
  judge e action grant =
    if denied e action grant then (deny, None)
    else if requiresApproval e action then
      match accepted_approval action grant with
      | Some approval => (allow, Some approval)
      | None => (requires_approval, None)
      end
    else (allow, None).
Proof.
  unfold judge, denied.
  repeat match goal with |- (if ?b then (deny, None) else _) = _ => destruct b; simpl; [done|] end. done.
Qed.

Section decide.
Context `{Hash}.

Lemma decide_Ok layers action grant d :
  decideAction layers action grant = Ok d ->
  exists m, mergePolicyLayers layers = Ok m /\ actionDigest action = Ok (action_digest d) /\
    effective_policy_digest d = ep_digest (effective m) /\
    (outcome d, approval_digest d) =
      if decide (conflicts m = []) then judge (effective m) action grant else (block, None).
Proof.
  unfold decideAction. rewrite bind_Ok. intros (m & Hm & E). cbv zeta in E. rewrite bind_Ok in E.
  destruct E as (digest & Hd & [= <-]). exists m. split; [done|]. split; [done|]. split; [done|].
  simpl. by destruct (if decide (conflicts m = []) then _ else _).
Qed.

(** An allowed action passed every refusal of the merged policy. *)
Lemma allowed_Ok layers action grant d :
  decideAction layers action grant = Ok d -> outcome d = allow ->
  exists m, mergePolicyLayers layers = Ok m /\ conflicts m = [] /\ denied (effective m) action grant = false /\
    approval_digest d = (if requiresApproval (effective m) action then accepted_approval action grant else None) /\
    (requiresApproval (effective m) action = true -> is_Some (accepted_approval action grant)).
Proof.
  intros Hd Ho. destruct (decide_Ok _ _ _ _ Hd) as (m & Hm & _ & _ & E). exists m. split; [done|].
  rewrite Ho in E. destruct (decide (conflicts m = [])) as [Hc|]; [|done]. split; [done|].
  rewrite judge_denied in E. destruct (denied _ _ _); [done|]. split; [done|].
  destruct (requiresApproval _ _); [|by injection E].
  destruct (accepted_approval action grant) as [x|]; [|done]. injection E as ->. split; [done|]. by intros _.
Qed.

(** The allow set of the effective policy is inside the set each layer allows. *)
Lemma effective_allow layers m l f t :
  mergePolicyLayers layers = Ok m -> conflicts m = [] -> l ∈ layers -> f ∈ layer_fields l ->
  fi_merge_operator f = "allow_intersection" -> string_array (fi_value f) = Some t ->
  exists s, policyStrings (effective m) (fi_path f) = Some s /\ s ⊆ t.
Proof.
  intros Hm Hc Hl Hf Ho Ht. destruct (effective_field _ _ _ _ allow_intersection Hm Hc Hl Hf Ho) as (ef & Hef & s & Hv & _ & _ & Hx).
  exists s. unfold policyStrings. rewrite Hef. simpl. rewrite Hv, string_array_strings. split; [done|].
  intros x Hxs. apply (proj1 (Hx x) Hxs (Entry allow_intersection (fi_value f) (layerRef l)) t); [|done]. by apply declares.
Qed.

(** The deny set of the effective policy holds what each layer denies. *)
Lemma effective_deny layers m l f t :
  mergePolicyLayers layers = Ok m -> conflicts m = [] -> l ∈ layers -> f ∈ layer_fields l ->
  fi_merge_operator f = "deny_union" -> string_array (fi_value f) = Some t ->
  t ⊆ default [] (policyStrings (effective m) (fi_path f)).
Proof.
  intros Hm Hc Hl Hf Ho Ht. destruct (effective_field _ _ _ _ deny_union Hm Hc Hl Hf Ho) as (ef & Hef & s & Hv & _ & _ & Hx).
  unfold policyStrings. rewrite Hef. simpl. rewrite Hv, string_array_strings. intros x Hxt. apply Hx.
  exists (Entry deny_union (fi_value f) (layerRef l)), t. split; [by apply declares|done].
Qed.

Lemma denied_parts e action grant :
  denied e action grant = false ->
  bool_decide (origin action = prompt) && isEscalation action = false /\ isEscalation action && by_agent action = false /\
  resource_denied e action = false /\ grant_denied e action grant = false /\ not_allowed e action = false /\
  control_missing e action = false.
Proof. unfold denied. rewrite !orb_false_iff. tauto. Qed.
End decide.

(** ** Ceilings *)

Lemma effective_ceiling `{Hash} layers m l f v :
  mergePolicyLayers layers = Ok m -> conflicts m = [] -> l ∈ layers -> f ∈ layer_fields l ->
  fi_merge_operator f = "hard_ceiling" -> fi_value f = JNum v ->
  exists n, ceilingValue (effective m) (fi_path f) = ok n /\ num_le n v.
Proof.
  intros Hm Hc Hl Hf Ho Hv. destruct (effective_field _ _ _ _ hard_ceiling Hm Hc Hl Hf Ho) as (ef & Hef & n & Hn & _ & Hall).
  destruct (Hall _ (declares _ _ _ hard_ceiling Hl Hf Ho)) as (k & Hk & Hle). simpl in Hk. assert (k = v) as -> by congruence.
  exists n. split; [|done]. unfold ceilingValue. rewrite Hef, Hn. destruct Hle as (x & _ & Hx & _). by destruct n.
Qed.

Lemma concurrency_positive e z : concurrency_ceiling_of e = Some z -> (0 < z)%Z.
Proof.
  unfold concurrency_ceiling_of. destruct (ceilingValue _ _) as [| |[]]; try done; [by intros [= <-]|].
  destruct (_ <=? _)%Z eqn:E; [done|]. intros [= <-]. by apply Z.leb_gt in E.
Qed.

Lemma iteration_positive e ps x k n : iteration_ceiling e ps = Some x -> (k, n) ∈ x -> num_lt (NInt 0) n = true.
Proof.
  assert (forall key m, (k, n) ∈ (if non_positive m then [] else [(key, m)]) -> num_lt (NInt 0) n = true) as Hone.
  { intros key m. unfold non_positive. destruct (num_lt (NInt 0) m) eqn:E; simpl; [|by intros ?%elem_of_nil].
    intros Hin%list_elem_of_singleton. congruence. }
  unfold iteration_ceiling. destruct (ceilingValue e ps.1) as [| |m].
  - destruct (ceilingValue e ps.2) as [| |m]; intros [= <-]; [by intros ?%elem_of_nil..|apply Hone].
  - done.
  - destruct (non_positive m) eqn:E; [done|]. intros [= <-] Hin. apply (Hone (str_drop (String.length "budgets.iteration.") ps.1) m).
    by rewrite E.
Qed.

(** ** Approvals *)

Definition with_approval (action : PolicyAction) (o : option string) : PolicyAction :=
  Action (kind action) (actor action) (actor_kind action) (origin action) (phase action) (resource action)
    (parameters action) (risk action) o (control_profile action).

(** The approval matters to one refusal only. *)
Lemma denied_approval e action grant o :
  denied e (with_approval action o) grant =
    denied e (with_approval action None) grant ||
    bool_decide (origin action = prompt) && bool_decide (is_Some o) && mem (kind action) SCHEDULER_POLICY_ACTION_KINDS.
Proof.
  unfold denied.
  change (grant_denied e (with_approval action o) grant) with (grant_denied e (with_approval action None) grant).
  change (not_allowed e (with_approval action o)) with (not_allowed e (with_approval action None)).
  change (control_missing e (with_approval action o)) with (control_missing e (with_approval action None)).
  change (resource_denied e (with_approval action o)) with (resource_denied e (with_approval action None)).
  destruct (grant_denied _ _ _), (not_allowed _ _), (control_missing _ _), (resource_denied _ _);
    rewrite ?orb_true_r; simpl; try done.
  change (isEscalation (with_approval action o)) with (isEscalation action).
  change (isEscalation (with_approval action None)) with (isEscalation action).
  change (by_agent (with_approval action o)) with (by_agent action).
  change (by_agent (with_approval action None)) with (by_agent action).
  cbn [origin pa_approval_digest kind with_approval].
  destruct (bool_decide (origin action = prompt)), (isEscalation action), (by_agent action),
    (bool_decide (is_Some o)), (mem (kind action) SCHEDULER_POLICY_ACTION_KINDS); done.
Qed.

(** ** Properties *)

Section properties.
Context `{Hash}.

(** C27. What an allowed action is safe from. An escalation was asked for by the
    control plane on behalf of the harness or a human. The resource of a path
    action, when it has one, is a legal repository path that no layer denies
    which declares [paths.deny] as a union of denials, and that is inside the
    read or write scope of every layer which declares one as an intersection of
    allowances. (A path action without a resource names no path and is not
    checked against any: [pathless_write_allowed].) An action under a grant that
    is no escalation is inside the grant, and the grant was issued under this
    very policy. An approval the decision names is the one the action claims,
    and one the grant lists. *)
Theorem allowed_action_safe layers action grant d :
  decideAction layers action grant = Ok d -> outcome d = allow ->
  (isEscalation action = true -> origin action = control_plane /\ (actor_kind action = harness \/ actor_kind action = human)) /\
  (forall r, resource action = Some r -> is_path_action action = true ->
     is_Some (tryNormalizeRepoRelativePath r) /\
     forall l f t, l ∈ layers -> f ∈ layer_fields l -> string_array (fi_value f) = Some t ->
       (fi_path f = "paths.deny" -> fi_merge_operator f = "deny_union" -> isPathWithinScopes t r = false) /\
       (fi_path f = (if decide (kind action = read_path) then "paths.read.allow" else "paths.write.allow") ->
        fi_merge_operator f = "allow_intersection" -> isPathWithinScopes t r = true)) /\
  (forall g, grant = Some g -> isEscalation action = false ->
     grantDenies g action = false /\ grant_policy_digest g = effective_policy_digest d) /\
  (forall a, approval_digest d = Some a ->
     pa_approval_digest action = Some a /\ forall g, grant = Some g -> a ∈ grant_approvals g).
Proof.
  intros Hd Ho. destruct (allowed_Ok _ _ _ _ Hd Ho) as (m & Hm & Hc & Hden & Hap & _).
  destruct (decide_Ok _ _ _ _ Hd) as (m' & Hm' & _ & Hdig & _). assert (m' = m) as -> by congruence. clear Hm'.
  destruct (denied_parts _ _ _ Hden) as (Hp & Hag & Hres & Hg & Hal & _). split; [|split; [|split]].
  - intros He. rewrite He in Hp, Hag. rewrite andb_true_r in Hp. apply bool_decide_eq_false in Hp. simpl in Hag.
    unfold by_agent in Hag. split; [by destruct (origin action)|]. destruct (actor_kind action); [by left|by right|done|done].
  - intros r Hr Hpa. unfold resource_denied in Hres. rewrite Hr, Hpa in Hres. simpl in Hres.
    apply orb_false_iff in Hres as [Hres _]. apply orb_false_iff in Hres as [Hres _].
    apply orb_false_iff in Hres as [Hnorm Hdeny]. apply bool_decide_eq_false, not_eq_None_Some in Hnorm. split; [done|].
    intros l f t Hl Hf Ht. split.
    + intros Hpath Hop. pose proof (effective_deny _ _ _ _ _ Hm Hc Hl Hf Hop Ht) as Hs. rewrite Hpath in Hs.
      destruct (isPathWithinScopes t r) eqn:Ew; [|done]. rewrite <- Hdeny. symmetry. by eapply within_subset.
    + intros Hpath Hop. destruct (effective_allow _ _ _ _ _ Hm Hc Hl Hf Hop Ht) as (s & Hs & Hst). rewrite Hpath in Hs.
      unfold not_allowed in Hal. rewrite Hr in Hal. apply orb_false_iff in Hal as [Hal _]. unfold is_path_action in Hpa.
      destruct (kind action); try done; simpl in Hs; rewrite Hs in Hal; apply negb_false_iff in Hal; by eapply within_subset.
  - intros g -> He. unfold grant_denied in Hg. rewrite He in Hg. simpl in Hg. apply orb_false_iff in Hg as [? Hpd].
    split; [done|]. apply negb_false_iff, bool_decide_eq_true in Hpd. congruence.
  - intros a Ha. rewrite Ha in Hap. destruct (requiresApproval _ _); [|done]. unfold accepted_approval in Hap.
    destruct (pa_approval_digest action) as [x|]; [|done]. destruct grant as [g|].
    + destruct (mem x (grant_approvals g)) eqn:Ex; [|done]. injection Hap as ->. split; [done|]. intros g' [= <-]. by apply mem_spec.
    + injection Hap as ->. split; [done|]. by intros g [=].
Qed.

(** An approval satisfies a requires-approval outcome and nothing else: it
    turns neither a deny nor a block into anything, and an allow it takes part
    in was an allow without it, or required an approval and names this one. *)
Theorem approval_overrides_no_refusal layers action grant x d0 d1 :
  decideAction layers (with_approval action None) grant = Ok d0 ->
  decideAction layers (with_approval action (Some x)) grant = Ok d1 ->
  (outcome d0 = deny -> outcome d1 = deny) /\ (outcome d0 = block <-> outcome d1 = block) /\
  (outcome d1 = allow -> outcome d0 = allow \/ (outcome d0 = requires_approval /\ approval_digest d1 = Some x)).
Proof.
  intros (m & Hm & _ & _ & E0)%decide_Ok (m' & Hm' & _ & _ & E1)%decide_Ok. assert (m' = m) as -> by congruence.
  case_decide as Hc; [|injection E0 as -> _; injection E1 as -> _; split_and!; done].
  rewrite judge_denied in E0, E1. rewrite denied_approval in E1.
  destruct (denied _ (with_approval action None) grant); simpl in E1.
  { injection E0 as -> _. injection E1 as -> _. done. }
  change (requiresApproval (effective m) (with_approval action (Some x))) with (requiresApproval (effective m) action) in E1.
  change (requiresApproval (effective m) (with_approval action None)) with (requiresApproval (effective m) action) in E0.
  destruct (_ && _) in E1.
  { injection E1 as -> _. destruct (requiresApproval _ _); injection E0 as -> _; done. }
  destruct (requiresApproval _ _); [|injection E0 as -> _; injection E1 as -> _; split_and!; auto; done].
  injection E0 as -> _. destruct (accepted_approval _ _) as [y|] eqn:Ea in E1; injection E1 as -> ->; [|done].
  split; [done|]. split; [done|]. intros _. right. split; [done|]. unfold accepted_approval in Ea. simpl in Ea.
  destruct grant as [g|]; [destruct (mem x (grant_approvals g)); [|done]|]; by injection Ea as ->.
Qed.

(** A grant issued under a policy admits nothing the policy's allow sets
    refuse, holds exactly the requested capabilities, none of them denied, and
    its budget is within the policy's ceilings. *)
Theorem issued_grant_within_policy request e g action :
  issueGrant request e = Ok g ->
  (grantDenies g action = false -> not_allowed e action = false) /\
  (forall c, c ∈ capabilities g <-> c ∈ rq_capabilities request) /\
  (forall l, policyStrings e "capabilities.allow" = Some l -> capabilities g ⊆ l) /\
  (forall l c, policyStrings e "capabilities.deny" = Some l -> c ∈ capabilities g -> c ∉ l) /\
  (forall m, policyNumber e "budgets.max_steps" = Some m -> num_lt m (steps (budget g)) = false) /\
  (forall m, policyNumber e "budgets.max_tokens" = Some m -> num_lt m (tokens (budget g)) = false).
Proof.
  intros [Hc Hca Hcd Hr Hw _ Ht Hp Hs Htk _]%issueGrant_Ok. split; [|by split_and!].
  unfold grantDenies, not_allowed. rewrite orb_false_iff, negb_false_iff, bool_decide_eq_true. intros [Hph Hd].
  apply orb_false_iff. split.
  - destruct (resource action) as [r|]; [|done]. destruct (kind action); try done.
    + destruct (policyStrings e "paths.read.allow") as [l|]; [|done]. simpl. apply negb_false_iff. apply negb_false_iff in Hd.
      eapply within_mono; [|exact Hd]. intros p Hin. by apply (Hr l p).
    + destruct (policyStrings e "paths.write.allow") as [l|]; [|done]. simpl. apply negb_false_iff. apply negb_false_iff in Hd.
      eapply within_mono; [|exact Hd]. intros p Hin. by apply (Hw l p).
    + destruct (policyStrings e "resources.allow") as [l|]; [|done]. simpl. apply negb_false_iff, mem_spec.
      destruct (find_tool (tools g) r) as [t|] eqn:Et; [|done]. apply find_tool_Some in Et as [Hin <-]. by apply Ht.
  - destruct (policyStrings e "phases.allow") as [l|]; [|done]. simpl. apply negb_false_iff, mem_spec. rewrite Hph. by apply Hp.
Qed.

(** The scheduler's ceilings are positive and never above what any layer
    declares as a hard ceiling, for the concurrency and for each iteration
    budget. *)
Theorem scheduler_ceilings_bounded layers m c :
  mergePolicyLayers layers = Ok m -> conflicts m = [] -> resolveSchedulerCeilings (effective m) = resolved c ->
  (0 < max_concurrency c)%Z /\ (forall k n, (k, n) ∈ iteration c -> num_lt (NInt 0) n = true) /\
  forall l f v, l ∈ layers -> f ∈ layer_fields l -> fi_merge_operator f = "hard_ceiling" -> fi_value f = JNum v ->
    (fi_path f = SCHEDULER_MAX_CONCURRENCY_PATH -> num_le (NInt (max_concurrency c)) v) /\
    (forall fallback, (fi_path f, fallback) ∈ LOOP_CEILING_FALLBACKS ->
       exists n, (str_drop (String.length "budgets.iteration.") (fi_path f), n) ∈ iteration c /\ num_le n v).
Proof.
  intros Hm Hc. unfold resolveSchedulerCeilings. set (e := effective m).
  destruct (concurrency_ceiling_of e) as [z|] eqn:Ez; [|done].
  destruct (mapM (iteration_ceiling e) LOOP_CEILING_FALLBACKS) as [ls|] eqn:El; [|done]. intros [= <-].
  cbn [max_concurrency iteration]. apply mapM_Some in El. split; [by eapply concurrency_positive|]. split.
  - intros k n Hin. apply list_elem_of_In, in_concat in Hin as (x & Hx & Hin). apply list_elem_of_In in Hx, Hin.
    apply list_elem_of_lookup in Hx as (i & Hx). destruct (Forall2_lookup_r _ _ _ _ _ El Hx) as (ps & _ & Hps).
    by eapply iteration_positive.
  - intros l f v Hl Hf Ho Hv. destruct (effective_ceiling _ _ _ _ _ Hm Hc Hl Hf Ho Hv) as (n & Hn & Hle). fold e in Hn. split.
    + intros Hp. unfold concurrency_ceiling_of in Ez. rewrite <- Hp, Hn in Ez. destruct n; try done.
      destruct (_ <=? _)%Z; [done|]. by injection Ez as ->.
    + intros fallback Hin. apply list_elem_of_lookup in Hin as (i & Hi).
      destruct (Forall2_lookup_l _ _ _ _ _ El Hi) as (x & Hx & Hps). unfold iteration_ceiling in Hps. cbn [fst snd] in Hps.
      rewrite Hn in Hps. destruct (non_positive n); [done|]. injection Hps as <-. exists n. split; [|done].
      apply list_elem_of_In, in_concat. eexists. split; [apply list_elem_of_In; by eapply list_elem_of_lookup_2|]. by left.
Qed.
End properties.

(** ** Samples and witnesses *)

Definition sample_layers : list PolicyLayerInput :=
  [Layer "project" 1 "p"
     [FieldInput "paths.write.allow" "allow_intersection" (strings ["src"]);
      FieldInput "scheduler.max_concurrency" "hard_ceiling" (JNum (NInt 4));
      FieldInput "approvals.required" "approval_union" (strings ["dispatch_task"])];
   Layer "installation" 1 "i"
     [FieldInput "paths.write.allow" "allow_intersection" (strings ["docs"; "src"]);
      FieldInput "paths.deny" "deny_union" (strings ["src/secret"]);
      FieldInput "scheduler.max_concurrency" "hard_ceiling" (JNum (NDec "2.5"));
      FieldInput "budgets.max_steps" "hard_ceiling" (JNum (NInt 10))]].

Definition sample_write : PolicyAction :=
  Action write_path "agent-1" agent control_plane "execute" (Some "src/a.ts") [] low None None.
Definition sample_dispatch : PolicyAction :=
  Action dispatch_task "harness" harness control_plane "execute" None [] medium None None.
Definition sample_request : GrantRequest :=
  Request "grant-1" "task-1" ["edit"] ["src"] ["src"] [] [] "execute" (Budget_ (NInt 20) (NInt 5000)) [].

Definition decided (d : policy_result PolicyDecision) : PolicyDecision :=
  match d with Ok d => d | Err _ => Decision_ block "" "" [] [] None end.
Definition merged (m : policy_result MergedPolicy) : MergedPolicy :=
  match m with Ok m => m | Err _ => Merged (Effective [] [] "") [] end.

(** A write that names no path passes the scopes and the denials of the layers. *)
Example pathless_write_allowed :
  outcome (decided (@decideAction toy_hash sample_layers
    (Action write_path "agent-1" agent control_plane "execute" None [] low None None) None)) = allow.
Proof. vm_compute. reflexivity. Qed.

Definition dispatch_approved : PolicyAction := with_approval sample_dispatch (Some (hex_digits 64 7)).

Definition approved_decision : PolicyDecision := decided (@decideAction toy_hash sample_layers dispatch_approved None).

(** The lease request of the scheduler for that decision. *)
Definition approved_grant : GrantTaskLeaseInput :=
  Grant approved_decision (action_digest approved_decision) "operation_1" "iteration_1" (hex_digits 64 1) "task_1"
    (hex_digits 64 2) "run_1" "slot_1" "abcdef0123456" (hex_digits 64 3) (Amount 10 1000) "2026-01-01T00:00:00Z"
    "2026-01-01T01:00:00Z" "command_1" None.

(** A decision of the evaluator never grants a lease by its approval: it names
    an approval only when it allows, and a lease granted on an allow records
    none. So a lease dispatched on an approval, as the sample is, does not say
    which. *)
Theorem lease_drops_the_approval `{Hash, DateTime} :
  (forall layers action grant chain input r,
     decideAction layers action grant = Ok (g_decision input) -> grantTaskLease chain input = Ok r ->
     outcome (g_decision input) = allow /\ approval_digests r = []) /\
  exists r, @decideAction toy_hash sample_layers dispatch_approved None = Ok (g_decision approved_grant) /\
    approval_digest (g_decision approved_grant) = Some (hex_digits 64 7) /\
    @grantTaskLease toy_hash any_date (Chain [] []) approved_grant = Ok r.
Proof.
  split.
  - intros layers action grant chain input r (m & _ & _ & _ & E)%decide_Ok Hr%grant_Ok.
    destruct (gr_allowed _ _ _ Hr) as [Ha|(Ho & d & Hd & _)]; [done|]. exfalso. rewrite Ho, Hd in E.
    case_decide; [|done]. rewrite judge_denied in E. destruct (denied _ _ _); [done|].
    destruct (requiresApproval _ _); [|done]. by destruct (accepted_approval action grant).
  - eexists. split; [vm_compute; reflexivity|]. split; vm_compute; reflexivity.
Qed.

Definition sample_merged : MergedPolicy := Eval vm_compute in merged (@mergePolicyLayers toy_hash sample_layers).
Lemma sample_merged_Ok : @mergePolicyLayers toy_hash sample_layers = Ok sample_merged.
Proof. vm_compute. reflexivity. Qed.

Lemma allowed_action_safe_witness :
  outcome (decided (@decideAction toy_hash sample_layers sample_write None)) = allow /\
  isPathWithinScopes ["src/secret"] "src/a.ts" = false /\ isPathWithinScopes ["src"] "src/a.ts" = true.
Proof.
  split; [vm_compute; reflexivity|].
  destruct (@allowed_action_safe toy_hash sample_layers sample_write None
    (decided (@decideAction toy_hash sample_layers sample_write None))) as (_ & Hpath & _);
    [vm_compute; reflexivity..|].
  destruct (Hpath "src/a.ts" eq_refl eq_refl) as [_ Hl]. split.
  - refine (proj1 (Hl _ (FieldInput "paths.deny" "deny_union" (strings ["src/secret"])) ["src/secret"] _ _ eq_refl) eq_refl eq_refl).
    + right. left.
    + right. left.
  - refine (proj2 (Hl _ (FieldInput "paths.write.allow" "allow_intersection" (strings ["src"])) ["src"] _ _ eq_refl) eq_refl eq_refl).
    + left.
    + left.
Defined.

Lemma approval_overrides_no_refusal_witness :
  outcome (decided (@decideAction toy_hash sample_layers sample_dispatch None)) = requires_approval /\
  approval_digest approved_decision = Some (hex_digits 64 7).
Proof.
  assert (outcome (decided (@decideAction toy_hash sample_layers sample_dispatch None)) = requires_approval) as Hr
    by (vm_compute; reflexivity).
  split; [exact Hr|].
  destruct (@approval_overrides_no_refusal toy_hash sample_layers sample_dispatch None (hex_digits 64 7)
    (decided (@decideAction toy_hash sample_layers sample_dispatch None)) approved_decision) as (_ & _ & Ha);
    [vm_compute; reflexivity..|].
  destruct Ha as [Ha|[_ Ha]]; [vm_compute; reflexivity| |exact Ha].
  rewrite Hr in Ha. discriminate Ha.
Defined.

Lemma issued_grant_within_policy_witness :
  exists g, @issueGrant toy_hash sample_request (effective sample_merged) = Ok g /\
    not_allowed (effective sample_merged) sample_write = false.
Proof.
  eexists. split; [vm_compute; reflexivity|].
  refine (proj1 (@issued_grant_within_policy toy_hash sample_request (effective sample_merged) _ sample_write _) _);
    vm_compute; reflexivity.
Defined.

Lemma scheduler_ceilings_bounded_witness :
  exists m c, @mergePolicyLayers toy_hash [Layer "project" 1 "p"
      [FieldInput SCHEDULER_MAX_CONCURRENCY_PATH "hard_ceiling" (JNum (NInt 4))]] = Ok m /\
    resolveSchedulerCeilings (effective m) = resolved c /\ (0 < max_concurrency c)%Z.
Proof.
  eexists _, (Ceilings 4 []). split; [vm_compute; reflexivity|]. split; [vm_compute; reflexivity|].
  refine (proj1 (@scheduler_ceilings_bounded toy_hash [Layer "project" 1 "p"
      [FieldInput SCHEDULER_MAX_CONCURRENCY_PATH "hard_ceiling" (JNum (NInt 4))]] _ (Ceilings 4 []) _ _ _));
    [vm_compute; reflexivity| |vm_compute; reflexivity]. vm_compute. reflexivity.
Defined.

Lemma lease_drops_the_approval_witness :
  exists r, @grantTaskLease toy_hash any_date (Chain [] []) approved_grant = Ok r /\ approval_digests r = [].
Proof.
  destruct (@lease_drops_the_approval toy_hash any_date) as [Hdrop (r & Hd & _ & Hr)].
  exists r. split; [exact Hr|]. exact (proj2 (Hdrop _ _ _ _ _ _ Hd Hr)).
Defined.
