(* ===== verification/Tdd.v ===== *)
(** * Phase grants of the TDD cycle

    [packages/runtime/src/tdd/phase-grants.ts]: the write scopes of a phase,
    the intersection of scope sets, and the grants issued per phase. *)

From S2P Require Import Prelude Locator Json Policy Grant.

(** ** Scopes *)

Inductive TddPhaseGrantState : Type :=
| baseline_guard | test_authoring | red_verification | implementation | refactor.
#[export] Instance TddPhaseGrantState_eq_dec : EqDecision TddPhaseGrantState.
Proof. solve_decision. Defined.

Definition state_text (s : TddPhaseGrantState) : string :=
  match s with
  | baseline_guard => "baseline_guard" | test_authoring => "test_authoring"
  | red_verification => "red_verification" | implementation => "implementation" | refactor => "refactor"
  end.

Record TddPathPolicy : Type := PathPolicy
  { pp_test : list string; pp_test_config : list string; pp_production : list string; pp_immutable : list string }.

Definition tddPhaseWriteScopes (state : TddPhaseGrantState) (policy : TddPathPolicy) : list string :=
  match state with
  | baseline_guard | red_verification => []
  | test_authoring => sort_strings (pp_test policy ++ pp_test_config policy)
  | implementation | refactor => sort_strings (pp_production policy)
  end.

(** [scope.endsWith("/**") ? scope.slice(0, -3) : scope] *)
Fixpoint without_glob (scope : string) : string :=
  if decide (scope = "/**") then "" else
  match scope with EmptyString => "" | String a s => String a (without_glob s) end.

Definition scopePrefix (scope : string) : option string := tryNormalizeRepoRelativePath (without_glob scope).

(** [covers(ancestor, descendant)] *)
Definition scope_covers (ancestor descendant : string) : bool :=
  bool_decide (descendant = ancestor) || starts_with descendant (ancestor +:+ "/").

Definition some_covers (scopes : list string) (path : string) : bool :=
  existsb (fun candidate => scope_covers candidate path) scopes.

Definition normalized_sets (sets : list (list string)) : list (list string) :=
  map (fun scopes => dedup (omap scopePrefix scopes)) sets.

(** The scopes every set covers, in the order they are found. *)
Definition kept_scopes (normalized : list (list string)) : list string :=
  dedup (concat (map (fun set =>
    List.filter (fun scope => forallb (fun other => some_covers other scope) normalized) set) normalized)).

Definition intersectWriteScopes (sets : list (list string)) : list string :=
  let normalized := normalized_sets sets in
  if existsb (fun set => bool_decide (set = [])) normalized then []
  else
    let sorted := sort_strings (kept_scopes normalized) in
    List.filter (fun scope =>
      negb (existsb (fun other => negb (bool_decide (other = scope)) && scope_covers other scope) sorted)) sorted.

Definition effectiveTddWriteScopes (task_write_paths task_grant phase_policy phase_grant : list string) : list string :=
  intersectWriteScopes [task_write_paths; task_grant; phase_policy; phase_grant].

Example intersect_nested :
  intersectWriteScopes [["src/**"; "docs"]; ["src/app"; "src/app/ui"; "docs/"]] = ["src/app"].
Proof. vm_compute. reflexivity. Qed.

(** ** Grants *)

Inductive tdd_error : Type :=
| missing_precondition | grant_drift | GrantError (e : policy_error) | GrantIdError (e : canonical_error).

Record TddGrantInput : Type := TddInput
  { ti_state : TddPhaseGrantState;
    ti_task_id : string;
    ti_policy : TddPathPolicy;
    ti_budget : GrantBudget;
    ti_effective : EffectivePolicy;
    ti_approvals : list string;
    ti_proof : option string }.

Section grants.
Context `{Hash}.

Definition grantIdFor (taskId : string) (state : TddPhaseGrantState) (writeScopes : list string) :
  result tdd_error string :=
  d ← map_err GrantIdError (contentDigest (JObj
        [("task_id", JStr taskId); ("state", JStr (state_text state)); ("write_paths", strings writeScopes)]));
  Ok ("tdd-grant_" +:+ str_take 16 d).

(** The phases [PROOF_GATED] names. *)
Definition proof_gated (state : TddPhaseGrantState) : bool := mem state [implementation; refactor].

Definition phase_request (input : TddGrantInput) (grantId : string) : GrantRequest :=
  Request grantId (ti_task_id input) []
    (sort_strings (pp_test (ti_policy input) ++ pp_test_config (ti_policy input) ++ pp_production (ti_policy input)))
    (tddPhaseWriteScopes (ti_state input) (ti_policy input)) [] [] (state_text (ti_state input)) (ti_budget input)
    (ti_approvals input).

(** The grant, and whether it is one of the existing ones. *)
Definition issueTddPhaseGrant (input : TddGrantInput) (existing : list CapabilityGrant) :
  result tdd_error (CapabilityGrant * bool) :=
  _ ← reject_if (proof_gated (ti_state input) && bool_decide (ti_proof input = None)) missing_precondition;
  grantId ← grantIdFor (ti_task_id input) (ti_state input) (tddPhaseWriteScopes (ti_state input) (ti_policy input));
  match find_first (fun g => bool_decide (grant_id g = grantId)) existing with
  | Some g => Ok (g, true)
  | None => g ← map_err GrantError (issueGrant (phase_request input grantId) (ti_effective input)); Ok (g, false)
  end.

Definition assertTddPhaseGrantCurrent (grant : CapabilityGrant) (state : TddPhaseGrantState) (taskId : string)
    (policy : TddPathPolicy) : result tdd_error unit :=
  expectedId ← grantIdFor taskId state (tddPhaseWriteScopes state policy);
  reject_if (negb (bool_decide (grant_id grant = expectedId)) || negb (bool_decide (grant_task_id grant = taskId)))
    grant_drift.
End grants.

(* ------------------------------------------------------------------ *)
(** ** The prefix order of scopes *)

Definition under (a d : string) : Prop := d = a \/ exists u, d = a +:+ "/" +:+ u.

Lemma scope_covers_spec a d : scope_covers a d = true <-> under a d.
Proof.
  unfold scope_covers, under. rewrite orb_true_iff, bool_decide_eq_true, starts_with_spec.
  setoid_rewrite <- string_app_assoc. done.
Qed.

Lemma under_trans a b c : under a b -> under b c -> under a c.
Proof.
  intros [->|[u ->]] [->|[v ->]]; [by left|right; by eexists|right; by eexists|].
  right. exists (u +:+ "/" +:+ v). by rewrite !string_app_assoc.
Qed.

(** Two prefixes of a string are nested. *)
Lemma prefixes_nested a : forall b u v, a +:+ u = b +:+ v -> (exists w, b = a +:+ w) \/ (exists w, a = b +:+ w).
Proof.
  induction a as [|x a IH]; intros b u v E; [left; by exists b|].
  destruct b as [|y b]; [right; by exists (String x a)|]. injection E as -> E.
  destruct (IH b u v E) as [[w ->]|[w ->]]; [left|right]; by exists w.
Qed.

Lemma under_slash a d : under a d <-> exists u, d +:+ "/" = (a +:+ "/") +:+ u.
Proof.
  split.
  - intros [->|[u ->]]; [by exists ""; rewrite string_app_nil_r|].
    exists (u +:+ "/"). by rewrite !string_app_assoc.
  - revert d. induction a as [|x a IH]; intros [|y d] [u E]; cbn in E.
    + by left.
    + injection E as -> E. right. by exists d.
    + destruct a; discriminate E.
    + injection E as -> E. destruct (IH d) as [->|[v ->]]; [by exists u|by left|right; by exists v].
Qed.

(** Two scopes over one path are nested. *)
Lemma scopes_nested a b p : under a p -> under b p -> under a b \/ under b a.
Proof.
  rewrite (under_slash a p), (under_slash b p). intros [u E] [v F]. rewrite E in F.
  destruct (prefixes_nested _ _ _ _ F) as [W|W]; [left|right]; by apply under_slash.
Qed.

Lemma under_length a d : under a d -> d = a \/ (String.length a < String.length d)%nat.
Proof.
  intros [->|[u ->]]; [by left|right]. induction a as [|x a IH]; cbn in *; lia.
Qed.

(** ** The intersection *)

Definition covered (set : list string) (path : string) : Prop := exists c, c ∈ set /\ under c path.

Lemma some_covers_spec set path : some_covers set path = true <-> covered set path.
Proof. unfold some_covers, covered. rewrite existsb_Exists. by setoid_rewrite scope_covers_spec. Qed.

Lemma covered_under set a b : covered set a -> under a b -> covered set b.
Proof. intros (c & Hc & Ha) Hb. exists c. split; [done|]. by eapply under_trans. Qed.

Lemma elem_of_kept sets scope :
  scope ∈ kept_scopes sets <->
  (exists set, set ∈ sets /\ scope ∈ set) /\ forall set, set ∈ sets -> covered set scope.
Proof.
  unfold kept_scopes. rewrite elem_of_dedup, list_elem_of_In, in_concat. setoid_rewrite in_map_iff. split.
  - intros (x & (set & <- & Hset) & Hx). apply filter_In in Hx as [Hx Hall].
    rewrite forallb_forall in Hall. setoid_rewrite list_elem_of_In. split; [by exists set|].
    intros other Ho. by apply some_covers_spec, Hall.
  - intros ((set & Hset & Hx) & Hall). eexists. split; [exists set; split; [done|by apply list_elem_of_In]|].
    apply filter_In. split; [by apply list_elem_of_In|]. apply forallb_forall. intros other Ho.
    apply some_covers_spec, Hall. by apply list_elem_of_In.
Qed.

(** The longest of the scopes the sets cover a path with. *)
Lemma longest_witness sets path : sets <> [] -> (forall set, set ∈ sets -> covered set path) ->
  exists w, under w path /\ (exists set, set ∈ sets /\ w ∈ set) /\ forall set, set ∈ sets -> covered set w.
Proof.
  induction sets as [|s sets IH]; [done|]. intros _ Hall.
  destruct (Hall s) as (c & Hc & Hp); [left|].
  assert (Halone : covered s c) by (exists c; split; [done|by left]).
  destruct (decide (sets = [])) as [->|Hne].
  { exists c. split; [done|]. split; [exists s; split; [left|done]|]. intros set ->%list_elem_of_singleton. done. }
  destruct IH as (w & Hw & (set & Hset & Hin) & Hcov); [done|intros; apply Hall; by right|].
  destruct (scopes_nested c w path Hp Hw) as [Hcw|Hwc].
  - exists w. split; [done|]. split; [exists set; split; [by right|done]|].
    intros other [->|Ho]%elem_of_cons; [by exists c|by apply Hcov].
  - exists c. split; [done|]. split; [exists s; split; [left|done]|].
    intros other [->|Ho]%elem_of_cons; [done|]. eapply covered_under; [by apply Hcov|done].
Qed.

Definition top_scopes (l : list string) : list string :=
  List.filter (fun scope => negb (existsb (fun other => negb (bool_decide (other = scope)) && scope_covers other scope) l)) l.

Lemma elem_of_top l s : s ∈ top_scopes l <-> s ∈ l /\ forall o, o ∈ l -> under o s -> o = s.
Proof.
  unfold top_scopes. rewrite list_elem_of_In, filter_In, <- list_elem_of_In, negb_true_iff. apply and_iff_compat_l.
  rewrite <- not_true_iff_false, existsb_Exists. setoid_rewrite andb_true_iff. setoid_rewrite scope_covers_spec. split.
  - intros Hno o Ho Hu. destruct (decide (o = s)) as [|Hne]; [done|]. exfalso. apply Hno. exists o.
    rewrite bool_decide_false by done. done.
  - intros Hall (o & Ho & Hn & Hu). rewrite (Hall o Ho Hu), bool_decide_true in Hn; done.
Qed.

Lemma top_covers l s : s ∈ l -> exists t, t ∈ top_scopes l /\ under t s.
Proof.
  remember (String.length s) as n eqn:En. revert s En. induction (lt_wf n) as [n _ IH]. intros s -> Hs.
  destruct (decide (Exists (fun o => o <> s /\ scope_covers o s = true) l)) as [He|Hn].
  - apply Exists_exists in He as (o & Ho & Hne & Hu). apply scope_covers_spec in Hu.
    destruct (under_length o s Hu) as [->|Hlt]; [done|].
    destruct (IH _ Hlt o eq_refl Ho) as (t & Ht & Hto). exists t. split; [done|]. by eapply under_trans.
  - exists s. split; [|by left]. apply elem_of_top. split; [done|]. intros o Ho Hu.
    destruct (decide (o = s)) as [|Hne]; [done|]. exfalso. apply Hn, Exists_exists. exists o.
    split; [done|]. split; [done|]. by apply scope_covers_spec.
Qed.

(** What a declared scope set covers, the scopes that do not normalise left out. *)
Definition declares (scopes : list string) (path : string) : Prop :=
  exists scope prefix, scope ∈ scopes /\ scopePrefix scope = Some prefix /\ under prefix path.

Lemma normalized_covered scopes path : covered (dedup (omap scopePrefix scopes)) path <-> declares scopes path.
Proof.
  unfold covered, declares. setoid_rewrite elem_of_dedup. setoid_rewrite list_elem_of_omap. naive_solver.
Qed.

Lemma intersect_spec sets path : sets <> [] ->
  covered (intersectWriteScopes sets) path <-> forall set, set ∈ sets -> declares set path.
Proof.
  intros Hne. unfold intersectWriteScopes. cbv zeta.
  assert (Hnorm : (forall set, set ∈ normalized_sets sets -> covered set path) <->
                  forall set, set ∈ sets -> declares set path).
  { unfold normalized_sets. setoid_rewrite list_elem_of_In. setoid_rewrite in_map_iff.
    setoid_rewrite <- list_elem_of_In. setoid_rewrite <- normalized_covered. naive_solver. }
  rewrite <- Hnorm. clear Hnorm. destruct (existsb _ _) eqn:Ee.
  - apply existsb_Exists in Ee as (set & Hset & ->%bool_decide_eq_true). split; [by intros (c & ?%elem_of_nil & _)|].
    intros Hall. by destruct (Hall _ Hset) as (c & ?%elem_of_nil & _).
  - fold (top_scopes (sort_strings (kept_scopes (normalized_sets sets)))). split.
    + intros (c & Hc & Hu) set Hset. apply elem_of_top in Hc as [Hc _].
      rewrite elem_of_sort_strings, elem_of_kept in Hc. by eapply covered_under; [apply Hc|].
    + intros Hall. destruct (longest_witness (normalized_sets sets) path) as (w & Hw & Hin & Hcov); [|done|].
      { unfold normalized_sets. by destruct sets. }
      destruct (top_covers (sort_strings (kept_scopes (normalized_sets sets))) w) as (t & Ht & Htw).
      { by apply elem_of_sort_strings, elem_of_kept. }
      exists t. split; [done|]. by eapply under_trans.
Qed.

(** ** Grants *)

Lemma omap_normalized sets set c : set ∈ normalized_sets sets -> c ∈ set -> tryNormalizeRepoRelativePath c = Some c.
Proof.
  unfold normalized_sets. rewrite list_elem_of_In, in_map_iff. intros (l & <- & _) Hc.
  rewrite elem_of_dedup, list_elem_of_omap in Hc. destruct Hc as (x & _ & Hx). by eapply try_normal_fixed.
Qed.

Lemma intersect_cases sets : intersectWriteScopes sets = [] \/
  intersectWriteScopes sets = top_scopes (sort_strings (kept_scopes (normalized_sets sets))).
Proof. unfold intersectWriteScopes. cbv zeta. destruct (existsb _ _); [by left|by right]. Qed.

Lemma intersect_antichain sets a b :
  a ∈ intersectWriteScopes sets -> b ∈ intersectWriteScopes sets -> under a b -> a = b.
Proof.
  destruct (intersect_cases sets) as [-> | ->]; [by intros ?%elem_of_nil|].
  rewrite !elem_of_top. intros [Ha _] [_ Hb]. by apply Hb.
Qed.

Lemma intersect_canonical sets a : a ∈ intersectWriteScopes sets -> tryNormalizeRepoRelativePath a = Some a.
Proof.
  destruct (intersect_cases sets) as [-> | ->]; [by intros ?%elem_of_nil|].
  rewrite elem_of_top, elem_of_sort_strings, elem_of_kept. intros [[(set & Hs & Ha) _] _]. by eapply omap_normalized.
Qed.

Lemma intersect_sorted sets : StronglySorted (cmp_le str_cmp) (intersectWriteScopes sets).
Proof.
  destruct (intersect_cases sets) as [-> | ->]; [constructor|]. apply StronglySorted_list_filter, sort_strings_sorted.
Qed.

Section facts.
Context `{Hash}.

Definition grant_body (taskId : string) (state : TddPhaseGrantState) (scopes : list string) : jsval :=
  JObj [("task_id", JStr taskId); ("state", JStr (state_text state)); ("write_paths", strings scopes)].

(** The ids of two different bodies share their sixteen characters. *)
Definition same_short_id (taskId : string) (state : TddPhaseGrantState) (scopes : list string)
    (taskId' : string) (state' : TddPhaseGrantState) (scopes' : list string) : Prop :=
  exists s s', canonicalizeJson (grant_body taskId state scopes) = Ok s /\
    canonicalizeJson (grant_body taskId' state' scopes') = Ok s' /\
    s <> s' /\ str_take 16 (sha256 s) = str_take 16 (sha256 s').

Lemma literals_body taskId state scopes : literals_ok (grant_body taskId state scopes) = true.
Proof.
  unfold grant_body. simpl. rewrite andb_true_r. apply forallb_forall. intros v (x & <- & _)%in_map_iff. done.
Qed.

Lemma state_text_inj : Inj (=) (=) state_text.
Proof. by intros [] []. Qed.

Lemma body_inj t s w t' s' w' : canon (grant_body t s w) = canon (grant_body t' s' w') -> t = t' /\ s = s' /\ w = w'.
Proof.
  intros E.
  assert (Hn : forall t s w, NoDup (match grant_body t s w with JObj f => f.*1 | _ => [] end)).
  { intros. cbn. by vm_compute; repeat constructor; set_solver. }
  pose proof (fun k => canon_fields _ _ k (Hn t s w) (Hn t' s' w') E) as Hk.
  assert (H1 : canon (JStr t) = canon (JStr t')) by exact (Some_inj _ _ (Hk "task_id")).
  assert (H2 : canon (JStr (state_text s)) = canon (JStr (state_text s'))) by exact (Some_inj _ _ (Hk "state")).
  assert (H3 : canon (strings w) = canon (strings w')) by exact (Some_inj _ _ (Hk "write_paths")).
  rewrite !canon_strings in H3. apply strings_inj in H3. injection H1 as ->. injection H2 as H2%state_text_inj. done.
Qed.

Lemma grantId_inj t s w t' s' w' id : grantIdFor t s w = Ok id -> grantIdFor t' s' w' = Ok id ->
  (t = t' /\ s = s' /\ w = w') \/ same_short_id t s w t' s' w'.
Proof.
  unfold grantIdFor, contentDigest. fold (grant_body t s w) (grant_body t' s' w').
  destruct (canonicalizeJson (grant_body t s w)) as [x|] eqn:Ex; [|done].
  destruct (canonicalizeJson (grant_body t' s' w')) as [y|] eqn:Ey; [|done].
  cbn [mbind result_bind map_err]. intros E1 E2. rewrite <- E1 in E2.
  assert (Hs : str_take 16 (sha256 x) = str_take 16 (sha256 y)) by (injection E2; done).
  destruct (decide (x = y)) as [<-|Hne]; [left|right; by exists x, y].
  apply body_inj. by eapply canonical_text_inj; eauto using literals_body.
Qed.

Lemma current_Ok g state task policy : assertTddPhaseGrantCurrent g state task policy = Ok tt <->
  grantIdFor task state (tddPhaseWriteScopes state policy) = Ok (grant_id g) /\ grant_task_id g = task.
Proof.
  unfold assertTddPhaseGrantCurrent. rewrite bind_Ok. setoid_rewrite reject_if_Ok. setoid_rewrite orb_false_iff.
  setoid_rewrite negb_false_iff. setoid_rewrite bool_decide_eq_true. split.
  - by intros (id & Hid & <- & <-).
  - intros [Hid <-]. by eexists.
Qed.

Lemma fresh_grant input g :
  grantIdFor (ti_task_id input) (ti_state input) (tddPhaseWriteScopes (ti_state input) (ti_policy input)) = Ok (grant_id g) ->
  issueGrant (phase_request input (grant_id g)) (ti_effective input) = Ok g ->
  issued (phase_request input (grant_id g)) (ti_effective input) g /\
  grant_phase g = state_text (ti_state input) /\ capabilities g = [] /\ tools g = [] /\
  (forall p, p ∈ write_paths g <->
     exists s, s ∈ tddPhaseWriteScopes (ti_state input) (ti_policy input) /\ normalizeRepoRelativePath s = Ok p) /\
  assertTddPhaseGrantCurrent g (ti_state input) (ti_task_id input) (ti_policy input) = Ok tt.
Proof.
  intros Hid Hg. split; [by apply issueGrant_Ok|].
  apply issueGrant_fields in Hg as (_ & Ht & Hp & Hc & Htools & writes & Hw & Hwp). split_and!; try done.
  - intros p. rewrite Hwp, elem_of_sortedUnique. by apply elem_of_mapM.
  - by apply current_Ok.
Qed.

Lemma current_bound input g state' task' policy' :
  grantIdFor (ti_task_id input) (ti_state input) (tddPhaseWriteScopes (ti_state input) (ti_policy input)) = Ok (grant_id g) ->
  assertTddPhaseGrantCurrent g state' task' policy' = Ok tt ->
  task' = grant_task_id g /\
  ((task' = ti_task_id input /\ state' = ti_state input /\
    tddPhaseWriteScopes state' policy' = tddPhaseWriteScopes (ti_state input) (ti_policy input)) \/
   same_short_id task' state' (tddPhaseWriteScopes state' policy') (ti_task_id input) (ti_state input)
     (tddPhaseWriteScopes (ti_state input) (ti_policy input))).
Proof. intros Hid [Hid' <-]%current_Ok. split; [done|]. by eapply grantId_inj. Qed.

Lemma issue_Ok input existing g reused : issueTddPhaseGrant input existing = Ok (g, reused) ->
  (proof_gated (ti_state input) = true -> ti_proof input <> None) /\
  grantIdFor (ti_task_id input) (ti_state input) (tddPhaseWriteScopes (ti_state input) (ti_policy input)) = Ok (grant_id g) /\
  let found := find_first (fun x => bool_decide (grant_id x = grant_id g)) existing in
  if reused then found = Some g
  else found = None /\ issueGrant (phase_request input (grant_id g)) (ti_effective input) = Ok g.
Proof.
  unfold issueTddPhaseGrant. rewrite reject_bind_Ok, bind_Ok. intros (Hp & id & Hid & E).
  assert (Hproof : proof_gated (ti_state input) = true -> ti_proof input <> None).
  { intros Hg Hn. rewrite Hg, Hn in Hp. done. }
  destruct (find_first _ existing) as [x|] eqn:Ef.
  - injection E as <- <-. pose proof (proj2 (find_first_Some _ _ _ Ef)) as Hx. apply bool_decide_eq_true in Hx.
    rewrite Hx. by rewrite Ef.
  - rewrite bind_Ok in E. destruct E as (x & Hx%map_err_Ok & [= <- <-]).
    assert (grant_id x = id) as Hxid by (by apply issueGrant_fields in Hx as [? _]).
    rewrite Hxid. done.
Qed.

Lemma reissue_Ok input existing g :
  grantIdFor (ti_task_id input) (ti_state input) (tddPhaseWriteScopes (ti_state input) (ti_policy input)) = Ok (grant_id g) ->
  (proof_gated (ti_state input) = true -> ti_proof input <> None) ->
  find_first (fun x => bool_decide (grant_id x = grant_id g)) existing = Some g ->
  issueTddPhaseGrant input existing = Ok (g, true).
Proof.
  intros Hid Hp Hf. unfold issueTddPhaseGrant. rewrite reject_bind_Ok. split.
  - apply andb_false_iff. destruct (proof_gated _); [right|by left]. apply bool_decide_eq_false. by apply Hp.
  - rewrite Hid. cbn [mbind result_bind]. by rewrite Hf.
Qed.
End facts.

(** ** Properties *)

(** A sample: scopes declared with and without the glob. *)
Definition sample_path_policy : TddPathPolicy := PathPolicy ["tests/**"] ["vitest.config.ts"] ["src/**"] [".harness"].
Definition implement (proof : option string) : TddGrantInput :=
  TddInput implementation "task-1" sample_path_policy (Budget_ (NInt 20) (NInt 5000)) (Effective [] [] "policy") [] proof.
Definition write_source : PolicyAction :=
  Action write_path "agent-1" agent control_plane "implementation" (Some "src/a.ts") [] low None None.


(** The effective write scopes cover a path exactly when every set declares a
    scope that covers it; they are canonical paths in order, and none of them
    covers another. *)
Theorem intersection_exact sets :
  sets <> [] ->
  let scopes := intersectWriteScopes sets in
  (forall path, some_covers scopes path = true <->
     forall set, set ∈ sets -> exists scope prefix, scope ∈ set /\ scopePrefix scope = Some prefix /\ under prefix path) /\
  (forall a b, a ∈ scopes -> b ∈ scopes -> scope_covers a b = true -> a = b) /\
  (forall a, a ∈ scopes -> tryNormalizeRepoRelativePath a = Some a) /\
  StronglySorted (cmp_le str_cmp) scopes.
Proof.
  intros Hne scopes. split_and!.
  - intros path. rewrite some_covers_spec. by apply intersect_spec.
  - intros a b Ha Hb Hab%scope_covers_spec. by eapply intersect_antichain.
  - apply intersect_canonical.
  - apply intersect_sorted.
Qed.

(** A phase grant unlocks no proof-gated phase without a proof. A fresh one is
    issued under the policy for exactly the scopes of its phase, without
    capabilities or tools; asking again gives the same grant back; and it counts
    as current for no other task, phase or scopes, unless two short ids
    coincide. *)
Theorem phase_grant_bound `{Hash} input existing g reused :
  issueTddPhaseGrant input existing = Ok (g, reused) ->
  let state := ti_state input in
  let scopes := tddPhaseWriteScopes state (ti_policy input) in
  (state = implementation \/ state = refactor -> is_Some (ti_proof input)) /\
  (reused = true -> g ∈ existing) /\
  (reused = false ->
     issued (phase_request input (grant_id g)) (ti_effective input) g /\
     grant_phase g = state_text state /\ capabilities g = [] /\ tools g = [] /\
     (forall p, p ∈ write_paths g <-> exists s, s ∈ scopes /\ normalizeRepoRelativePath s = Ok p) /\
     assertTddPhaseGrantCurrent g state (ti_task_id input) (ti_policy input) = Ok tt) /\
  (forall again, ti_state again = state -> ti_task_id again = ti_task_id input -> ti_policy again = ti_policy input ->
     (proof_gated state = true -> ti_proof again <> None) ->
     issueTddPhaseGrant again (if reused then existing else existing ++ [g]) = Ok (g, true)) /\
  (forall state' task' policy', assertTddPhaseGrantCurrent g state' task' policy' = Ok tt ->
     task' = grant_task_id g /\
     ((task' = ti_task_id input /\ state' = state /\ tddPhaseWriteScopes state' policy' = scopes) \/
      same_short_id task' state' (tddPhaseWriteScopes state' policy') (ti_task_id input) state scopes)).
Proof.
  intros (Hp & Hid & Hg)%issue_Ok state scopes. cbv zeta in Hg. split_and!.
  - intros Hs. assert (proof_gated (ti_state input) = true) as Hgate by (unfold state in Hs; destruct Hs as [E|E]; by rewrite E).
    apply not_eq_None_Some. by apply Hp.
  - intros ->. by apply find_first_Some in Hg as [? _].
  - intros ->. destruct Hg as [_ Hg]. by apply fresh_grant.
  - intros again Hs Ht Hpol Hproof. apply reissue_Ok; [by rewrite Hs, Ht, Hpol|by rewrite Hs|].
    destruct reused; [done|]. destruct Hg as [Hnone _]. rewrite find_first_snoc, Hnone. by rewrite bool_decide_true.
  - intros state' task' policy' Ha. by eapply current_bound.
Qed.

(** A scope that does not normalise is dropped from its set, where the comment of
    the code says that it empties the intersection. And the write scope of a
    phase grant is read in two ways: as declared with a glob it makes a source
    file writable for the effective scopes, and refuses it as an action. *)
Theorem unreadable_scopes_ignored `{Hash} :
  (forall before set bad after, scopePrefix bad = None ->
     intersectWriteScopes (before ++ (set ++ [bad]) :: after) = intersectWriteScopes (before ++ set :: after)) /\
  intersectWriteScopes [["src"; "../etc"]; ["src"]] = ["src"] /\
  (forall g, issueTddPhaseGrant (implement (Some "proof")) [] = Ok (g, false) ->
     some_covers (effectiveTddWriteScopes ["src"] (write_paths g) ["src/**"] (write_paths g)) "src/a.ts" = true /\
     grantDenies g write_source = true).
Proof.
  split_and!.
  - intros before set bad after Hbad. unfold intersectWriteScopes, normalized_sets. rewrite !map_app, !map_cons.
    rewrite omap_app. cbn [omap list_omap]. rewrite Hbad. by rewrite app_nil_r.
  - vm_compute. reflexivity.
  - intros g (_ & _ & Hg)%issue_Ok. cbv zeta in Hg. destruct Hg as [_ Hg].
    apply issueGrant_fields in Hg as (_ & _ & Hp & _ & _ & writes & Hw & Hwp). vm_compute in Hw. injection Hw as <-.
    rewrite Hwp. split; [vm_compute; reflexivity|]. unfold grantDenies. rewrite Hp, Hwp. vm_compute. reflexivity.
Qed.

Lemma intersection_exact_witness :
  some_covers (intersectWriteScopes [["src/**"; "docs"]; ["src/app"; "src/app/ui"]]) "src/app/x.ts" = true.
Proof.
  apply (proj1 (intersection_exact [["src/**"; "docs"]; ["src/app"; "src/app/ui"]] ltac:(done))).
  intros set [-> | ->%list_elem_of_singleton]%elem_of_cons.
  - exists "src/**", "src". split; [left|]. split; [vm_compute; reflexivity|]. right. by exists "app/x.ts".
  - exists "src/app", "src/app". split; [left|]. split; [vm_compute; reflexivity|]. right. by exists "x.ts".
Defined.

Definition sample_issue : tdd_error + CapabilityGrant * bool := Eval vm_compute in
  match @issueTddPhaseGrant {| sha256 := fun s => s |} (implement (Some "proof")) [] with Ok r => inr r | Err e => inl e end.
Definition sample_phase_grant : CapabilityGrant :=
  match sample_issue with inr (g, _) => g | inl _ => CapGrant "" "" [] [] [] [] [] "" (Budget_ (NInt 0) (NInt 0)) [] "" "" end.

Lemma phase_grant_bound_witness :
  exists g, @issueTddPhaseGrant {| sha256 := fun s => s |} (implement (Some "proof")) [] = Ok (g, false) /\
    @issueTddPhaseGrant {| sha256 := fun s => s |} (implement (Some "other")) [g] = Ok (g, true).
Proof.
  exists sample_phase_grant.
  assert (E : @issueTddPhaseGrant {| sha256 := fun s => s |} (implement (Some "proof")) [] = Ok (sample_phase_grant, false))
    by (vm_compute; reflexivity).
  split; [exact E|].
  exact (proj1 (proj2 (proj2 (proj2 (@phase_grant_bound {| sha256 := fun s => s |} _ _ _ _ E))))
    (implement (Some "other")) eq_refl eq_refl eq_refl (fun _ => ltac:(done))).
Defined.

Lemma unreadable_scopes_ignored_witness :
  @grantDenies sample_phase_grant write_source = true /\
  intersectWriteScopes [["src"; "../x"]; ["src/app"]] = intersectWriteScopes [["src"]; ["src/app"]].
Proof.
  destruct (@unreadable_scopes_ignored {| sha256 := fun s => s |}) as (Hbad & _ & Hgrant). split.
  - refine (proj2 (Hgrant sample_phase_grant _)). vm_compute. reflexivity.
  - refine (Hbad [] ["src"] "../x" [["src/app"]] _). vm_compute. reflexivity.
Defined.
