(* ===== verification/Blockers.v ===== *)
(** * Live blockers

    [packages/runtime/src/workflow/blockers.ts]: the reading of blocker messages
    and their reconciliation with the approvals, tasks and findings. *)

From S2P Require Import Prelude Json.

Inductive LiveBlockerKind : Type := approval | task_run | finding | recovery | other.
#[export] Instance LiveBlockerKind_eq_dec : EqDecision LiveBlockerKind.
Proof. solve_decision. Defined.

Definition blocker_text (k : LiveBlockerKind) : string :=
  match k with
  | approval => "approval" | task_run => "task_run" | finding => "finding" | recovery => "recovery" | other => "other"
  end.

Record LiveBlocker : Type := Live
  { lb_kind : LiveBlockerKind;
    lb_subject : option string;
    lb_identity : string;
    lb_message : string;
    lb_digest : string }.

(** An absent list is an empty one. *)
Record LiveBlockerReconciliationInput : Type := Reconciliation
  { blocker_messages : list string;
    pending_approval_ids : list string;
    resolved_approval_ids : list string;
    passed_task_ids : list string;
    blocking_finding_ids : list string;
    inactive_finding_ids : list string;
    terminal_iteration : bool }.

(** ** The patterns *)

(** [\S+] at the start of a string, and the rest. *)
Fixpoint split_word (s : string) : string * string :=
  match s with
  | EmptyString => ("", "")
  | String a s' => if is_space a then ("", s) else let (w, r) := split_word s' in (String a w, r)
  end.

(** The group of [/^prefix(\S+)rest/], where [rest] starts with a space or ends. *)
Definition capture (prefix : string) (rest : string -> bool) (message : string) : option string :=
  if starts_with message prefix then
    let (w, r) := split_word (str_drop (String.length prefix) message) in
    if negb (bool_decide (w = "")) && rest r then Some w else None
  else None.

Definition APPROVAL : string -> option string :=
  capture "approval request " (fun r => bool_decide (r = " awaiting a decision")).
Definition TASK_RUN : string -> option string := capture "task " (fun r => starts_with r " did not complete:").
Definition FINDING : string -> option string := capture "blocking finding " (fun r => bool_decide (r = "")).
Definition RECOVERY (message : string) : bool := starts_with message "recovered from an interrupted process".

(** ** Reconciliation *)

Section reconcile.
Context `{Hash}.

Definition blocker (kind : LiveBlockerKind) (message : string) (subjectId : option string) : LiveBlocker :=
  let identity := match subjectId with
                  | None => blocker_text kind +:+ ":" +:+ str_take 24 (sha256 message)
                  | Some id => blocker_text kind +:+ ":" +:+ id
                  end in
  Live kind subjectId identity message (sha256 (identity +:+ String (ascii_of_nat 10) message)).

Definition parseLegacyBlocker (message : string) : LiveBlocker :=
  match APPROVAL message with
  | Some id => blocker approval message (Some id)
  | None =>
      match TASK_RUN message with
      | Some id => blocker task_run message (Some id)
      | None =>
          match FINDING message with
          | Some id => blocker finding message (Some id)
          | None => if RECOVERY message then blocker recovery message None else blocker other message None
          end
      end
  end.

Definition approval_blocker (id : string) : LiveBlocker :=
  blocker approval ("approval request " +:+ id +:+ " awaiting a decision") (Some id).
Definition finding_blocker (id : string) : LiveBlocker := blocker finding ("blocking finding " +:+ id) (Some id).

(** The messages the loop skips. *)
Definition settled (input : LiveBlockerReconciliationInput) (candidate : LiveBlocker) : bool :=
  match lb_kind candidate, lb_subject candidate with
  | approval, Some id =>
      mem id (resolved_approval_ids input) ||
      negb (bool_decide (pending_approval_ids input = [])) && negb (mem id (pending_approval_ids input))
  | task_run, Some id => mem id (passed_task_ids input)
  | finding, Some id => mem id (inactive_finding_ids input)
  | recovery, _ => terminal_iteration input
  | _, _ => false
  end.

(** What is put into the map, in order. *)
Definition candidates (input : LiveBlockerReconciliationInput) : list LiveBlocker :=
  List.filter (fun c => negb (settled input c)) (map parseLegacyBlocker (blocker_messages input)) ++
  map approval_blocker (dedup (pending_approval_ids input)) ++
  map finding_blocker (List.filter (fun id => negb (mem id (inactive_finding_ids input))) (blocking_finding_ids input)).

Definition by_identity (l : list LiveBlocker) : list (string * LiveBlocker) :=
  fold_left (fun live c => omap_set live (lb_identity c) c) l [].

Definition message_cmp (l r : LiveBlocker) : Z := str_cmp (lb_message l) (lb_message r).

Definition reconcileLiveBlockers (input : LiveBlockerReconciliationInput) : list LiveBlocker :=
  js_sort message_cmp (map snd (by_identity (candidates input))).

Definition liveBlockerMessages (input : LiveBlockerReconciliationInput) : list string :=
  map lb_message (reconcileLiveBlockers input).
End reconcile.

Example reconcile_sample :
  @liveBlockerMessages {| sha256 := fun s => s |}
    (Reconciliation ["task t1 did not complete: x"; "approval request a1 awaiting a decision"; "note"] ["a2"] []
       ["t1"] ["f1"] [] false)
  = ["approval request a2 awaiting a decision"; "blocking finding f1"; "note"].
Proof. vm_compute. reflexivity. Qed.

(* ------------------------------------------------------------------ *)
(** ** The map of the live blockers *)

Definition same_identity (k : string) (c : LiveBlocker) : Prop := lb_identity c = k.
#[export] Instance same_identity_dec k c : Decision (same_identity k c).
Proof. unfold same_identity. apply _. Defined.

Section facts.
Context `{Hash}.


Lemma by_identity_snoc l c : by_identity (l ++ [c]) = omap_set (by_identity l) (lb_identity c) c.
Proof. unfold by_identity. by rewrite fold_left_app. Qed.

Lemma by_identity_get l k : omap_get (by_identity l) k = last (filter (same_identity k) l).
Proof.
  induction l as [|c l IH] using rev_ind; [done|].
  rewrite by_identity_snoc, omap_get_set, filter_app, filter_cons, filter_nil.
  destruct (decide (lb_identity c = k)) as [Hk|Hne].
  - rewrite (decide_True (P := same_identity k c)) by done. by rewrite last_snoc.
  - rewrite (decide_False (P := same_identity k c)) by done. by rewrite app_nil_r.
Qed.

Lemma by_identity_NoDup l : NoDup (by_identity l).*1.
Proof.
  induction l as [|c l IH] using rev_ind; [constructor|]. rewrite by_identity_snoc. by apply omap_set_NoDup.
Qed.

Lemma by_identity_keys l k c : (k, c) ∈ by_identity l -> lb_identity c = k /\ c ∈ l.
Proof.
  intros Hin. apply elem_omap_get in Hin; [|apply by_identity_NoDup]. rewrite by_identity_get in Hin.
  apply last_Some_elem_of in Hin. by apply list_elem_of_filter in Hin.
Qed.

Lemma elem_of_reconcile input c :
  c ∈ reconcileLiveBlockers input <->
  last (filter (same_identity (lb_identity c)) (candidates input)) = Some c.
Proof.
  unfold reconcileLiveBlockers. rewrite elem_of_js_sort, <- by_identity_get, list_elem_of_fmap. split.
  - intros ((k & c') & -> & Hin). cbn. destruct (by_identity_keys _ _ _ Hin) as [-> _].
    apply elem_omap_get; [apply by_identity_NoDup|done].
  - intros Hget. exists (lb_identity c, c). split; [done|]. by apply omap_get_elem.
Qed.

Lemma by_identity_id l : NoDup (map lb_identity l) -> by_identity l = map (fun c => (lb_identity c, c)) l.
Proof.
  induction l as [|c l IH] using rev_ind; [done|]. rewrite map_app, NoDup_app. intros (Hl & Hd & _).
  rewrite by_identity_snoc, IH, map_app by done. cbn. clear IH Hl.
  induction l as [|d l IH]; [done|]. cbn. rewrite decide_False.
  - f_equal. apply IH. intros x Hx. apply Hd. by right.
  - intros E. apply (Hd (lb_identity d)); [left|]. rewrite <- E. left.
Qed.

Lemma elem_of_candidates input c : c ∈ candidates input <->
  (exists m, m ∈ blocker_messages input /\ c = parseLegacyBlocker m /\ settled input c = false) \/
  (exists id, id ∈ pending_approval_ids input /\ c = approval_blocker id) \/
  (exists id, id ∈ blocking_finding_ids input /\ (id ∉ inactive_finding_ids input) /\ c = finding_blocker id).
Proof.
  unfold candidates. rewrite !elem_of_app, !list_elem_of_In, filter_In, !in_map_iff, negb_true_iff.
  setoid_rewrite filter_In. setoid_rewrite negb_true_iff. setoid_rewrite mem_false. setoid_rewrite <- list_elem_of_In.
  setoid_rewrite elem_of_dedup. naive_solver.
Qed.

(** ** Reading back the messages *)

Definition is_word (s : string) : Prop := s <> "" /\ str_forallb (fun a => negb (is_space a)) s = true.

Lemma split_word_app w r : str_forallb (fun a => negb (is_space a)) w = true ->
  (forall a r', r = String a r' -> is_space a = true) -> split_word (w +:+ r) = (w, r).
Proof.
  intros Hw Hr. induction w as [|a w IH]; cbn in *.
  - destruct r as [|a r']; [done|]. cbn. by rewrite (Hr a r').
  - apply andb_true_iff in Hw as [Ha%negb_true_iff Hw]. by rewrite Ha, IH.
Qed.

Lemma capture_word prefix rest w r : is_word w -> rest r = true ->
  (forall a r', r = String a r' -> is_space a = true) -> capture prefix rest (prefix +:+ w +:+ r) = Some w.
Proof.
  intros [Hne Hw] Hrest Hr. unfold capture. rewrite (proj2 (starts_with_spec _ _)) by (by eexists).
  rewrite str_drop_app, split_word_app by done. by rewrite bool_decide_false, Hrest by done.
Qed.

Lemma parse_approval id : is_word id -> parseLegacyBlocker ("approval request " +:+ id +:+ " awaiting a decision") = approval_blocker id.
Proof.
  intros Hid. unfold parseLegacyBlocker, APPROVAL. rewrite (capture_word _ _ id); [done|done|by apply bool_decide_true|].
  by intros a r' [= <- _].
Qed.

Lemma parse_finding id : is_word id -> parseLegacyBlocker ("blocking finding " +:+ id) = finding_blocker id.
Proof.
  intros Hid. unfold parseLegacyBlocker.
  assert (E : APPROVAL ("blocking finding " +:+ id) = None) by done. rewrite E.
  assert (E' : TASK_RUN ("blocking finding " +:+ id) = None) by done. rewrite E'.
  pose proof (capture_word "blocking finding " (fun r => bool_decide (r = "")) id "" Hid eq_refl) as Hc.
  rewrite string_app_nil_r in Hc. unfold FINDING. by rewrite Hc.
Qed.

Lemma parse_message m : lb_message (parseLegacyBlocker m) = m.
Proof.
  unfold parseLegacyBlocker. destruct (APPROVAL m); [done|]. destruct (TASK_RUN m); [done|].
  destruct (FINDING m); [done|]. by destruct (RECOVERY m).
Qed.

Definition only_messages (messages : list string) : LiveBlockerReconciliationInput :=
  Reconciliation messages [] [] [] [] [] false.

Lemma settled_nothing messages c : settled (only_messages messages) c = false.
Proof. unfold settled. cbn. by destruct (lb_kind c), (lb_subject c). Qed.

Lemma reparse input c :
  (forall id, id ∈ pending_approval_ids input -> is_word id) ->
  (forall id, id ∈ blocking_finding_ids input -> is_word id) ->
  c ∈ reconcileLiveBlockers input -> parseLegacyBlocker (lb_message c) = c.
Proof.
  intros Ha Hf Hc%elem_of_reconcile%last_Some_elem_of.
  apply list_elem_of_filter in Hc as [_ Hc].
  apply elem_of_candidates in Hc as [(m & _ & -> & _)|[(id & Hid & ->)|(id & Hid & _ & ->)]].
  - by rewrite parse_message.
  - cbn. by apply parse_approval, Ha.
  - cbn. by apply parse_finding, Hf.
Qed.

Lemma reconcile_identities input : NoDup (map lb_identity (reconcileLiveBlockers input)).
Proof.
  unfold reconcileLiveBlockers. rewrite js_sort_Permutation.
  pose proof (by_identity_NoDup (candidates input)) as Hn.
  assert (E : map lb_identity (map snd (by_identity (candidates input))) = (by_identity (candidates input)).*1); [|by rewrite E].
  assert (Hk : forall k c, (k, c) ∈ by_identity (candidates input) -> lb_identity c = k) by (intros; by eapply by_identity_keys).
  revert Hk. generalize (by_identity (candidates input)). intros l Hk. induction l as [|[k c] l IH]; [done|].
  cbn. f_equal; [apply (Hk k c); left|]. apply IH. intros k' c' Hin. apply Hk. by right.
Qed.

Lemma reconcile_sorted input : StronglySorted (cmp_le message_cmp) (reconcileLiveBlockers input).
Proof.
  apply js_sort_StronglySorted.
  - intros x y. apply str_cmp_total.
  - intros x y z. apply str_cmp_trans.
Qed.

(** A later candidate of the same identity would replace this one. *)
Lemma last_candidate input l1 c l2 :
  candidates input = l1 ++ c :: l2 -> (forall d, d ∈ l2 -> lb_identity d = lb_identity c -> d = c) ->
  c ∈ reconcileLiveBlockers input.
Proof.
  intros E Hl. apply elem_of_reconcile. rewrite E, filter_app, filter_cons, decide_True by done.
  rewrite last_app_cons, last_cons.
  destruct (last (filter _ l2)) as [d|] eqn:Ed; [|done]. apply last_Some_elem_of, list_elem_of_filter in Ed as [Hd Hin].
  f_equal. by apply Hl.
Qed.
End facts.

(** ** Properties *)

(** What a live blocker says is still open. *)
Definition still_open (input : LiveBlockerReconciliationInput) (c : LiveBlocker) : Prop :=
  match lb_kind c, lb_subject c with
  | approval, Some id => id ∈ pending_approval_ids input \/ (id ∉ resolved_approval_ids input) /\ pending_approval_ids input = []
  | task_run, Some id => id ∉ passed_task_ids input
  | finding, Some id => id ∉ inactive_finding_ids input
  | recovery, _ => terminal_iteration input = false
  | _, _ => True
  end.

Section properties.
Context `{Hash}.

Lemma unsettled_open input c : settled input c = false -> still_open input c.
Proof.
  unfold settled, still_open. destruct (lb_kind c), (lb_subject c) as [id|]; try done.
  - intros [Hr%mem_false Hp]%orb_false_iff. apply andb_false_iff in Hp as [Hp|Hp].
    + right. split; [done|]. by apply negb_false_iff, bool_decide_eq_true in Hp.
    + left. by apply negb_false_iff, mem_spec in Hp.
  - apply mem_false.
  - apply mem_false.
Qed.

Lemma reconcile_open input c : c ∈ reconcileLiveBlockers input -> still_open input c.
Proof.
  intros Hc%elem_of_reconcile%last_Some_elem_of. apply list_elem_of_filter in Hc as [_ Hc].
  apply elem_of_candidates in Hc as [(m & _ & -> & Hs)|[(id & Hid & ->)|(id & Hid & Hin & ->)]].
  - by apply unsettled_open.
  - by left.
  - done.
Qed.

Lemma pending_live input id : id ∈ pending_approval_ids input -> approval_blocker id ∈ reconcileLiveBlockers input.
Proof.
  intros Hid. rewrite <- elem_of_dedup in Hid. apply list_elem_of_split in Hid as (p1 & p2 & E).
  assert (Hc : exists l1 l2, candidates input = l1 ++ approval_blocker id :: map approval_blocker p2 ++ map finding_blocker l2).
  { unfold candidates. rewrite E, map_app, map_cons, <- (app_assoc (map _ p1)), app_assoc. by eexists _, _. }
  destruct Hc as (l1 & l2 & Hc). eapply last_candidate; [exact Hc|].
  intros d [Hd|Hd]%elem_of_app.
  - apply list_elem_of_fmap in Hd as (x & -> & _). cbn. intros Ei. by simplify_eq.
  - apply list_elem_of_fmap in Hd as (x & -> & _). done.
Qed.

Lemma finding_live input id : id ∈ blocking_finding_ids input -> (id ∉ inactive_finding_ids input) ->
  finding_blocker id ∈ reconcileLiveBlockers input.
Proof.
  intros Hid Hact. set (active := List.filter (fun id => negb (mem id (inactive_finding_ids input))) (blocking_finding_ids input)).
  assert (Hin : id ∈ active).
  { apply list_elem_of_In, filter_In. rewrite <- list_elem_of_In, negb_true_iff, mem_false. done. }
  apply list_elem_of_split in Hin as (p1 & p2 & E). assert (Hc : exists l1, candidates input = l1 ++ finding_blocker id :: map finding_blocker p2).
  { unfold candidates. fold active. rewrite E, map_app, map_cons, !app_assoc. by eexists. }
  destruct Hc as (l1 & Hc). eapply last_candidate; [exact Hc|].
  intros d Hd. apply list_elem_of_fmap in Hd as (x & -> & _). cbn. intros Ei. by simplify_eq.
Qed.

Lemma message_live input m : m ∈ blocker_messages input -> settled input (parseLegacyBlocker m) = false ->
  exists c, c ∈ reconcileLiveBlockers input /\ lb_identity c = lb_identity (parseLegacyBlocker m).
Proof.
  intros Hm Hs. assert (Hc : parseLegacyBlocker m ∈ candidates input) by (apply elem_of_candidates; left; by exists m).
  destruct (last (filter (same_identity (lb_identity (parseLegacyBlocker m))) (candidates input))) as [c|] eqn:El.
  - pose proof (last_Some_elem_of _ _ El) as Hl. apply list_elem_of_filter in Hl as [Hi _]. unfold same_identity in Hi.
    exists c. split; [|done]. apply elem_of_reconcile. by rewrite Hi.
  - apply last_None in El. exfalso. eapply (not_elem_of_nil (parseLegacyBlocker m)). rewrite <- El.
    by apply list_elem_of_filter.
Qed.

(** The live blockers name each subject once, in order of their messages. Each of
    them is still open: no resolved approval, passed task or inactive finding
    survives; and every pending approval, active blocking finding and unsettled
    message is among them. *)
Theorem live_blockers_exact input :
  let live := reconcileLiveBlockers input in
  NoDup (map lb_identity live) /\ StronglySorted (cmp_le message_cmp) live /\
  (forall c, c ∈ live -> still_open input c) /\
  (forall id, id ∈ pending_approval_ids input -> approval_blocker id ∈ live) /\
  (forall id, id ∈ blocking_finding_ids input -> (id ∉ inactive_finding_ids input) -> finding_blocker id ∈ live) /\
  (forall m, m ∈ blocker_messages input -> settled input (parseLegacyBlocker m) = false ->
     exists c, c ∈ live /\ lb_identity c = lb_identity (parseLegacyBlocker m)).
Proof.
  split_and!.
  - apply reconcile_identities.
  - apply reconcile_sorted.
  - apply reconcile_open.
  - apply pending_live.
  - apply finding_live.
  - apply message_live.
Qed.

(** The messages of the live blockers read back as the same blockers: a list that
    has been reconciled stays as it is, provided the ids are words. *)
Theorem reconcile_idempotent input :
  (forall id, id ∈ pending_approval_ids input -> is_word id) ->
  (forall id, id ∈ blocking_finding_ids input -> is_word id) ->
  reconcileLiveBlockers (only_messages (liveBlockerMessages input)) = reconcileLiveBlockers input.
Proof.
  intros Ha Hf. unfold reconcileLiveBlockers at 1, candidates. cbn [blocker_messages only_messages]. cbn [pending_approval_ids blocking_finding_ids].
  assert (E : map parseLegacyBlocker (liveBlockerMessages input) = reconcileLiveBlockers input).
  { unfold liveBlockerMessages. rewrite map_map. erewrite map_ext_in; [apply map_id|].
    intros c Hc%list_elem_of_In. by eapply reparse. }
  rewrite E, forallb_filter_id by (apply forallb_forall; intros c _; by rewrite settled_nothing). cbn. rewrite app_nil_r.
  rewrite by_identity_id, map_map, map_id by apply reconcile_identities. apply js_sort_id, reconcile_sorted.
Qed.
End properties.

Lemma live_blockers_exact_witness :
  @approval_blocker {| sha256 := fun s => s |} "a1" ∈ @reconcileLiveBlockers {| sha256 := fun s => s |} 
     (Reconciliation ["note"] ["a1"] [] [] [] [] false).
Proof.
  destruct (@live_blockers_exact {| sha256 := fun s => s |} (Reconciliation ["note"] ["a1"] [] [] [] [] false))
    as (_ & _ & _ & Hp & _).
  apply Hp. left.
Defined.

Lemma reconcile_idempotent_witness :
  @liveBlockerMessages {| sha256 := fun s => s |} (only_messages ["approval request a1 awaiting a decision"; "note"]) =
  ["approval request a1 awaiting a decision"; "note"].
Proof.
  assert (Hw : forall id, id ∈ ["a1"] -> is_word id) by (intros id ->%list_elem_of_singleton; done).
  exact (f_equal (map lb_message) (@reconcile_idempotent {| sha256 := fun s => s |}
    (Reconciliation ["note"] ["a1"] [] [] [] [] false) Hw (fun id Hid => match not_elem_of_nil id Hid with end))).
Defined.
