(* ===== verification/WorkingState.v ===== *)
(** * The working state

    [packages/runtime/src/workflow/working-state.ts]: the state a checkpoint
    holds, the proposals that change it, and its structural validation. *)

From S2P Require Import Prelude Regex Json Blockers.

(** ** Data *)

Record ConfirmedFact : Type := Fact { fact : string; fact_evidence : string }.
Record RejectedHypothesis : Type := Hypo { hypothesis : string; hypothesis_evidence : string }.

Record BudgetUse : Type := Use { used_steps : Z; used_tokens : Z; ceiling_steps : Z; ceiling_tokens : Z }.

Inductive ExternalActionStatus : Type := pending | completed | uncertain.
Definition status_text (s : ExternalActionStatus) : string :=
  match s with pending => "pending" | completed => "completed" | uncertain => "uncertain" end.
Definition EXTERNAL_ACTION_STATUSES : list string := map status_text [pending; completed; uncertain].

Record ExternalActionIntent : Type := Intent
  { intent_id : string; intent_tool : string; request_digest : string; idempotency_key : string;
    intent_status : ExternalActionStatus }.

Record WorkingState : Type := State
  { goal : string;
    baseline_commit : string;
    requirement_baseline_digest : string;
    ws_policy_digest : string;
    ws_phase : string;
    ws_task_id : option string;
    previous_checkpoint_id : option string;
    confirmed_facts : list ConfirmedFact;
    rejected_hypotheses : list RejectedHypothesis;
    open_questions : list string;
    blockers : list string;
    next_action : option string;
    completed_task_ids : list string;
    pending_task_ids : list string;
    ws_budget : BudgetUse;
    capability_grants : list string;
    approval_digests : list string;
    context_bundle_digest : option string;
    context_bundle_digests : option (list (string * string));
    input_digests : list string;
    external_action_intents : list ExternalActionIntent }.

(** An absent list adds nothing. [p_other_keys] are the own keys of the object
    that carry no proposal: unknown ones, and known ones set to undefined. *)
Record WorkingStateProposal : Type := Proposal
  { p_phase : option string;
    p_task_id : option string;
    p_add_confirmed_facts : option (list ConfirmedFact);
    p_add_rejected_hypotheses : option (list RejectedHypothesis);
    p_add_open_questions : option (list string);
    p_add_blockers : option (list string);
    p_clear_blockers : option (list string);
    p_reconcile_blockers : option LiveBlockerReconciliationInput;
    p_set_next_action : option string;
    p_set_requirement_baseline_digest : option string;
    p_complete_task_ids : option (list string);
    p_add_pending_task_ids : option (list string);
    p_budget_use : option (option Z * option Z);
    p_add_capability_grants : option (list string);
    p_add_approval_digests : option (list string);
    p_set_context_bundle_digest : option string;
    p_set_context_bundle_digests : option (list (string * string));
    p_add_input_digests : option (list string);
    p_upsert_external_action_intents : option (list ExternalActionIntent);
    p_other_keys : list string }.

Inductive WorkingStateErrorKind : Type := working_state_writer_required | invalid_working_state | budget_ceiling.

(** ** Applying a proposal *)

(** The first of the values with the same key. *)
Fixpoint unique_by {A} (key : A -> string) (seen : list string) (l : list A) : list A :=
  match l with
  | [] => []
  | x :: l' => if mem (key x) seen then unique_by key seen l' else x :: unique_by key (key x :: seen) l'
  end.

Definition uniqueStrings (values : list string) : list string := dedup values.
Definition uniqueFacts : list ConfirmedFact -> list ConfirmedFact :=
  unique_by (fun f => fact f +:+ fact_evidence f) [].
Definition uniqueHypotheses : list RejectedHypothesis -> list RejectedHypothesis :=
  unique_by (fun h => hypothesis h +:+ hypothesis_evidence h) [].

Definition or_none {A} (o : option (list A)) : list A := default [] o.

Definition upsert_intent (intents : list (string * ExternalActionIntent)) (i : ExternalActionIntent) :
  list (string * ExternalActionIntent) := omap_set intents (intent_id i) i.

(** The lists of [reconcile_blockers], none if it is absent. *)
Definition reconciliation (messages : list string) (r : option LiveBlockerReconciliationInput) :
  LiveBlockerReconciliationInput :=
  match r with
  | None => only_messages messages
  | Some r => Reconciliation messages (pending_approval_ids r) (resolved_approval_ids r) (passed_task_ids r)
                (blocking_finding_ids r) (inactive_finding_ids r) (terminal_iteration r)
  end.

Definition steps_after (state : WorkingState) (proposal : WorkingStateProposal) : Z :=
  (used_steps (ws_budget state) + default 0 (b ← p_budget_use proposal; b.1))%Z.
Definition tokens_after (state : WorkingState) (proposal : WorkingStateProposal) : Z :=
  (used_tokens (ws_budget state) + default 0 (b ← p_budget_use proposal; b.2))%Z.

Section apply.
Context `{Hash}.

Definition applyWorkingStateProposal (state : WorkingState) (proposal : WorkingStateProposal) :
  result WorkingStateErrorKind WorkingState :=
  let usedSteps := steps_after state proposal in
  let usedTokens := tokens_after state proposal in
  let b := ws_budget state in
  _ ← reject_if ((ceiling_steps b <? usedSteps)%Z || (ceiling_tokens b <? usedTokens)%Z) budget_ceiling;
  let completed := dedup (completed_task_ids state ++ or_none (p_complete_task_ids proposal)) in
  let open := List.filter (fun t => negb (mem t completed)) in
  let still_blocked := List.filter (fun m => negb (mem m (or_none (p_clear_blockers proposal)))) (blockers state) in
  Ok (State (goal state) (baseline_commit state)
    (default (requirement_baseline_digest state) (p_set_requirement_baseline_digest proposal))
    (ws_policy_digest state)
    (default (ws_phase state) (p_phase proposal))
    (match p_task_id proposal with Some t => Some t | None => ws_task_id state end)
    (previous_checkpoint_id state)
    (uniqueFacts (confirmed_facts state ++ or_none (p_add_confirmed_facts proposal)))
    (uniqueHypotheses (rejected_hypotheses state ++ or_none (p_add_rejected_hypotheses proposal)))
    (uniqueStrings (open_questions state ++ or_none (p_add_open_questions proposal)))
    (liveBlockerMessages (reconciliation (uniqueStrings (still_blocked ++ or_none (p_add_blockers proposal)))
       (p_reconcile_blockers proposal)))
    (match p_set_next_action proposal with Some a => Some a | None => next_action state end)
    completed
    (uniqueStrings (open (pending_task_ids state) ++ open (or_none (p_add_pending_task_ids proposal))))
    (Use usedSteps usedTokens (ceiling_steps b) (ceiling_tokens b))
    (uniqueStrings (capability_grants state ++ or_none (p_add_capability_grants proposal)))
    (uniqueStrings (approval_digests state ++ or_none (p_add_approval_digests proposal)))
    (match p_set_context_bundle_digest proposal with Some d => Some d | None => context_bundle_digest state end)
    (match p_set_context_bundle_digests proposal with Some d => Some d | None => context_bundle_digests state end)
    (uniqueStrings (input_digests state ++ or_none (p_add_input_digests proposal)))
    (map snd (fold_left upsert_intent (external_action_intents state ++ or_none (p_upsert_external_action_intents proposal)) []))).
End apply.

(** ** The state as JSON *)

Definition optional (key : string) (v : option jsval) : list (string * jsval) :=
  match v with Some v => [(key, v)] | None => [] end.

Definition fact_json (f : ConfirmedFact) : jsval :=
  JObj [("fact", JStr (fact f)); ("evidence_id", JStr (fact_evidence f))].
Definition hypothesis_json (h : RejectedHypothesis) : jsval :=
  JObj [("hypothesis", JStr (hypothesis h)); ("evidence_id", JStr (hypothesis_evidence h))].
Definition use_json (b : BudgetUse) : jsval :=
  JObj [("used_steps", JNum (NInt (used_steps b))); ("used_tokens", JNum (NInt (used_tokens b)));
        ("ceiling_steps", JNum (NInt (ceiling_steps b))); ("ceiling_tokens", JNum (NInt (ceiling_tokens b)))].
Definition intent_json (i : ExternalActionIntent) : jsval :=
  JObj [("intent_id", JStr (intent_id i)); ("tool", JStr (intent_tool i)); ("request_digest", JStr (request_digest i));
        ("idempotency_key", JStr (idempotency_key i)); ("status", JStr (status_text (intent_status i)))].

(** The fields other than [budget]. *)
Definition semantic_fields (s : WorkingState) : list (string * jsval) :=
  [("goal", JStr (goal s)); ("baseline_commit", JStr (baseline_commit s));
   ("requirement_baseline_digest", JStr (requirement_baseline_digest s)); ("policy_digest", JStr (ws_policy_digest s));
   ("phase", JStr (ws_phase s)); ("confirmed_facts", JArr (map fact_json (confirmed_facts s)));
   ("rejected_hypotheses", JArr (map hypothesis_json (rejected_hypotheses s)));
   ("open_questions", strings (open_questions s)); ("blockers", strings (blockers s));
   ("completed_task_ids", strings (completed_task_ids s)); ("pending_task_ids", strings (pending_task_ids s));
   ("capability_grants", strings (capability_grants s)); ("approval_digests", strings (approval_digests s));
   ("input_digests", strings (input_digests s));
   ("external_action_intents", JArr (map intent_json (external_action_intents s)))] ++
  optional "task_id" (JStr <$> ws_task_id s) ++
  optional "previous_checkpoint_id" (JStr <$> previous_checkpoint_id s) ++
  optional "next_action" (JStr <$> next_action s) ++
  optional "context_bundle_digest" (JStr <$> context_bundle_digest s) ++
  optional "context_bundle_digests" ((fun m => JObj (map (fun e => (e.1, JStr e.2)) m)) <$> context_bundle_digests s).

Definition state_json (s : WorkingState) : jsval := JObj (("budget", use_json (ws_budget s)) :: semantic_fields s).

Definition workingStateDigest `{Hash} (s : WorkingState) : result canonical_error string := contentDigest (state_json s).

(** ** Structural validation *)

(** [DIGEST_PATTERN.test(value)]: the value is read as text first, and an array
    of one value reads as that value. *)
Fixpoint digest_test (value : jsval) : bool :=
  match value with
  | JStr s => re_match digest_regex s
  | JArr [v] => digest_test v
  | _ => false
  end.

Definition is_text (p : string -> bool) (value : jsval) : bool := match value with JStr s => p s | _ => false end.
Definition any_text : string -> bool := fun _ => true.
Definition non_empty (s : string) : bool := negb (bool_decide (s = "")).

Definition isStringArray (value : jsval) : bool :=
  match value with JArr l => forallb (is_text any_text) l | _ => false end.
Definition isDigestArray (value : jsval) : bool :=
  match value with JArr l => forallb (is_text any_text) l && forallb digest_test l | _ => false end.
Definition isDigestMap (value : jsval) : bool :=
  match value with
  | JObj m => forallb (fun e => non_empty e.1 && is_text (re_match digest_regex) e.2) m
  | _ => false
  end.

(** An array whose entries are objects with the fields. *)
Definition entries (ok : list (string * jsval) -> bool) (value : jsval) : bool :=
  match value with JArr l => forallb (fun v => match v with JObj f => ok f | _ => false end) l | _ => false end.
Definition isFactArray : jsval -> bool :=
  entries (fun f => is_text any_text (jfield f "fact") && is_text any_text (jfield f "evidence_id")).
Definition isHypothesisArray : jsval -> bool :=
  entries (fun f => is_text any_text (jfield f "hypothesis") && is_text any_text (jfield f "evidence_id")).
Definition isIntentArray : jsval -> bool :=
  entries (fun f =>
    is_text any_text (jfield f "intent_id") && is_text any_text (jfield f "tool") &&
    digest_test (jfield f "request_digest") && is_text any_text (jfield f "idempotency_key") &&
    is_text (fun s => mem s EXTERNAL_ACTION_STATUSES) (jfield f "status")).

(** [Number.isInteger(value) && value >= 0] *)
Definition natural (value : jsval) : bool := match value with JNum (NInt z) => (0 <=? z)%Z | _ => false end.
Definition isBudget (value : jsval) : bool :=
  match value with
  | JObj f => natural (jfield f "used_steps") && natural (jfield f "used_tokens") &&
              natural (jfield f "ceiling_steps") && natural (jfield f "ceiling_tokens")
  | _ => false
  end.

Definition absent_or (ok : jsval -> bool) (value : jsval) : bool :=
  match value with JUndefined => true | v => ok v end.

Definition isWorkingState (value : jsval) : bool :=
  match value with
  | JObj f =>
      is_text non_empty (jfield f "goal") &&
      is_text (fun s => 7 <=? String.length s)%nat (jfield f "baseline_commit") &&
      digest_test (jfield f "requirement_baseline_digest") && digest_test (jfield f "policy_digest") &&
      is_text non_empty (jfield f "phase") &&
      absent_or (is_text any_text) (jfield f "task_id") &&
      absent_or (is_text any_text) (jfield f "previous_checkpoint_id") &&
      isFactArray (jfield f "confirmed_facts") && isHypothesisArray (jfield f "rejected_hypotheses") &&
      isStringArray (jfield f "open_questions") && isStringArray (jfield f "blockers") &&
      absent_or (is_text any_text) (jfield f "next_action") &&
      isStringArray (jfield f "completed_task_ids") && isStringArray (jfield f "pending_task_ids") &&
      isBudget (jfield f "budget") && isStringArray (jfield f "capability_grants") &&
      isDigestArray (jfield f "approval_digests") &&
      absent_or digest_test (jfield f "context_bundle_digest") &&
      absent_or isDigestMap (jfield f "context_bundle_digests") &&
      isDigestArray (jfield f "input_digests") && isIntentArray (jfield f "external_action_intents")
  | _ => false
  end.

Definition assertWorkingState (value : jsval) : result WorkingStateErrorKind unit :=
  reject_if (negb (isWorkingState value)) invalid_working_state.

(* ------------------------------------------------------------------ *)
(** ** What validation asks of a state *)

Definition budget_natural (b : BudgetUse) : bool :=
  (0 <=? used_steps b)%Z && (0 <=? used_tokens b)%Z && (0 <=? ceiling_steps b)%Z && (0 <=? ceiling_tokens b)%Z.

Definition is_digest_text (s : string) : bool := re_match digest_regex s.
Definition opt_ok {A} (ok : A -> bool) (o : option A) : bool := match o with Some x => ok x | None => true end.
Definition digest_map_ok (m : list (string * string)) : bool :=
  forallb (fun e => non_empty e.1 && is_digest_text e.2) m.

Definition valid_state (s : WorkingState) : bool :=
  non_empty (goal s) && (7 <=? String.length (baseline_commit s))%nat &&
  is_digest_text (requirement_baseline_digest s) && is_digest_text (ws_policy_digest s) && non_empty (ws_phase s) &&
  budget_natural (ws_budget s) && forallb is_digest_text (approval_digests s) &&
  opt_ok is_digest_text (context_bundle_digest s) && opt_ok digest_map_ok (context_bundle_digests s) &&
  forallb is_digest_text (input_digests s) && forallb (fun i => is_digest_text (request_digest i)) (external_action_intents s).

Definition valid_proposal (p : WorkingStateProposal) : bool :=
  opt_ok is_digest_text (p_set_requirement_baseline_digest p) && opt_ok non_empty (p_phase p) &&
  (0 <=? default 0 (b ← p_budget_use p; b.1))%Z && (0 <=? default 0 (b ← p_budget_use p; b.2))%Z &&
  forallb is_digest_text (or_none (p_add_approval_digests p)) &&
  opt_ok is_digest_text (p_set_context_bundle_digest p) && opt_ok digest_map_ok (p_set_context_bundle_digests p) &&
  forallb is_digest_text (or_none (p_add_input_digests p)) &&
  forallb (fun i => is_digest_text (request_digest i)) (or_none (p_upsert_external_action_intents p)).

Lemma forallb_map {A B} (f : A -> B) (p : B -> bool) l : forallb p (map f l) = forallb (fun x => p (f x)) l.
Proof. induction l as [|x l IH]; [done|]. cbn. by rewrite IH. Qed.

Lemma forallb_true {A} (p : A -> bool) l : (forall x, p x = true) -> forallb p l = true.
Proof. intros Hp. apply forallb_forall. auto. Qed.

Lemma forallb_eq {A} (p q : A -> bool) l : (forall x, p x = q x) -> forallb p l = forallb q l.
Proof. intros E. induction l as [|x l IH]; [done|]. cbn. by rewrite E, IH. Qed.

Lemma string_array_ok l : isStringArray (strings l) = true.
Proof. unfold isStringArray, strings. rewrite forallb_map. by apply forallb_true. Qed.

Lemma digest_array_ok l : isDigestArray (strings l) = forallb is_digest_text l.
Proof. unfold isDigestArray, strings. rewrite !forallb_map, forallb_true by done. done. Qed.

Lemma digest_map_json m :
  isDigestMap (JObj (map (fun e => (e.1, JStr e.2)) m)) = digest_map_ok m.
Proof. unfold isDigestMap, digest_map_ok. by rewrite forallb_map. Qed.

Lemma fact_array_ok l : isFactArray (JArr (map fact_json l)) = true.
Proof. unfold isFactArray, entries. rewrite forallb_map. by apply forallb_true. Qed.

Lemma hypothesis_array_ok l : isHypothesisArray (JArr (map hypothesis_json l)) = true.
Proof. unfold isHypothesisArray, entries. rewrite forallb_map. by apply forallb_true. Qed.

Lemma jfield_cons k v f key : jfield ((k, v) :: f) key = if decide (key = k) then v else jfield f key.
Proof. unfold jfield. cbn. by case_decide. Qed.
Lemma budget_json_ok b : isBudget (use_json b) = budget_natural b.
Proof. reflexivity. Qed.

Lemma absent_or_text o : absent_or (is_text any_text) (default JUndefined (JStr <$> o)) = true.
Proof. by destruct o. Qed.
Lemma absent_or_digest o : absent_or digest_test (default JUndefined (JStr <$> o)) = opt_ok is_digest_text o.
Proof. by destruct o. Qed.
Lemma absent_or_map o :
  absent_or isDigestMap (default JUndefined ((fun m => JObj (map (fun e => (e.1, JStr e.2)) m)) <$> o)) = opt_ok digest_map_ok o.
Proof. destruct o as [m|]; [|done]. apply digest_map_json. Qed.

(** Look the fields of a literal object up. *)
Ltac decide_keys :=
  repeat match goal with
  | |- context [decide (?a = ?b :> string)] =>
      first [rewrite (decide_True (P := a = b :> string)) by reflexivity
            |rewrite (decide_False (P := a = b :> string)) by discriminate]
  end.
Ltac read_field := repeat rewrite jfield_cons; decide_keys.

Lemma known_status s : mem (status_text s) EXTERNAL_ACTION_STATUSES = true.
Proof. by destruct s. Qed.

Lemma intent_array_ok l : isIntentArray (JArr (map intent_json l)) = forallb (fun i => is_digest_text (request_digest i)) l.
Proof.
  unfold isIntentArray, entries. rewrite forallb_map. apply forallb_eq. intros i. unfold intent_json. cbv beta iota. read_field.
  cbn [is_text digest_test]. unfold is_digest_text. rewrite !andb_true_r, andb_true_l. by rewrite known_status, andb_true_r.
Qed.

(** The state as the list of its fields. *)
Definition all_fields (s : WorkingState) : list (string * jsval) := ("budget", use_json (ws_budget s)) :: semantic_fields s.

Lemma optional_fields s :
  jfield (all_fields s) "task_id" = default JUndefined (JStr <$> ws_task_id s) /\
  jfield (all_fields s) "previous_checkpoint_id" = default JUndefined (JStr <$> previous_checkpoint_id s) /\
  jfield (all_fields s) "next_action" = default JUndefined (JStr <$> next_action s) /\
  jfield (all_fields s) "context_bundle_digest" = default JUndefined (JStr <$> context_bundle_digest s) /\
  jfield (all_fields s) "context_bundle_digests" =
    default JUndefined ((fun m => JObj (map (fun e => (e.1, JStr e.2)) m)) <$> context_bundle_digests s).
Proof.
  unfold all_fields, semantic_fields.
  destruct (ws_task_id s), (previous_checkpoint_id s), (next_action s), (context_bundle_digest s), (context_bundle_digests s);
    split_and!; reflexivity.
Qed.

(** A state passes validation exactly when its texts do. *)
Lemma isWorkingState_spec s : isWorkingState (state_json s) = valid_state s.
Proof.
  destruct (optional_fields s) as (E1 & E2 & E3 & E4 & E5).
  unfold isWorkingState, state_json. fold (all_fields s). rewrite E1, E2, E3, E4, E5.
  change (jfield (all_fields s) "goal") with (JStr (goal s)).
  change (jfield (all_fields s) "baseline_commit") with (JStr (baseline_commit s)).
  change (jfield (all_fields s) "requirement_baseline_digest") with (JStr (requirement_baseline_digest s)).
  change (jfield (all_fields s) "policy_digest") with (JStr (ws_policy_digest s)).
  change (jfield (all_fields s) "phase") with (JStr (ws_phase s)).
  change (jfield (all_fields s) "confirmed_facts") with (JArr (map fact_json (confirmed_facts s))).
  change (jfield (all_fields s) "rejected_hypotheses") with (JArr (map hypothesis_json (rejected_hypotheses s))).
  change (jfield (all_fields s) "open_questions") with (strings (open_questions s)).
  change (jfield (all_fields s) "blockers") with (strings (blockers s)).
  change (jfield (all_fields s) "completed_task_ids") with (strings (completed_task_ids s)).
  change (jfield (all_fields s) "pending_task_ids") with (strings (pending_task_ids s)).
  change (jfield (all_fields s) "capability_grants") with (strings (capability_grants s)).
  change (jfield (all_fields s) "approval_digests") with (strings (approval_digests s)).
  change (jfield (all_fields s) "input_digests") with (strings (input_digests s)).
  change (jfield (all_fields s) "external_action_intents") with (JArr (map intent_json (external_action_intents s))).
  change (jfield (all_fields s) "budget") with (use_json (ws_budget s)).
  rewrite !absent_or_text, absent_or_digest, absent_or_map, fact_array_ok, hypothesis_array_ok, !string_array_ok,
    !digest_array_ok, intent_array_ok, budget_json_ok.
  cbn [is_text digest_test]. unfold valid_state, is_digest_text. rewrite !andb_true_r. reflexivity.
Qed.

(* ------------------------------------------------------------------ *)
(** ** What a proposal does *)

Lemma elem_of_open (completed : list string) t l :
  t ∈ List.filter (fun t => negb (mem t completed)) l <-> t ∈ l /\ (t ∉ completed).
Proof. by rewrite list_elem_of_In, filter_In, <- list_elem_of_In, negb_true_iff, mem_false. Qed.

Lemma forallb_elem {A} (p : A -> bool) l : forallb p l = true <-> forall x, x ∈ l -> p x = true.
Proof. rewrite forallb_forall. by setoid_rewrite list_elem_of_In. Qed.

Lemma forallb_unique p l l' : forallb p l = true -> forallb p l' = true -> forallb p (uniqueStrings (l ++ l')) = true.
Proof.
  rewrite !forallb_elem. intros Hl Hl' x Hx. apply elem_of_dedup, elem_of_app in Hx as [Hx|Hx]; auto.
Qed.

(** The intents a map holds are among those put in, and the last one under its id. *)
Lemma upsert_get l k : omap_get (fold_left upsert_intent l []) k = last (filter (fun i => intent_id i = k) l).
Proof.
  induction l as [|i l IH] using rev_ind; [done|].
  rewrite fold_left_app, filter_app, filter_cons, filter_nil. cbn [fold_left]. unfold upsert_intent at 1.
  rewrite omap_get_set. destruct (decide (intent_id i = k)); [by rewrite last_snoc|by rewrite app_nil_r].
Qed.

Lemma upsert_NoDup l : NoDup (fold_left upsert_intent l []).*1.
Proof.
  induction l as [|i l IH] using rev_ind; [constructor|]. rewrite fold_left_app. by apply omap_set_NoDup.
Qed.

Lemma elem_of_upsert l i : i ∈ map snd (fold_left upsert_intent l []) <->
  last (filter (fun j => intent_id j = intent_id i) l) = Some i.
Proof.
  rewrite <- upsert_get, list_elem_of_fmap. split.
  - intros ((k & j) & -> & Hin). cbn. pose proof (elem_omap_get _ _ _ (upsert_NoDup l) Hin) as Hg.
    assert (intent_id j = k) as ->; [|done]. rewrite upsert_get in Hg.
    apply last_Some_elem_of, list_elem_of_filter in Hg. by destruct Hg.
  - intros Hg%omap_get_elem. by exists (intent_id i, i).
Qed.

Lemma upsert_In l i : i ∈ map snd (fold_left upsert_intent l []) -> i ∈ l.
Proof. intros Hi%elem_of_upsert%last_Some_elem_of. by apply list_elem_of_filter in Hi as [_ Hi]. Qed.

Lemma elem_of_unique_by {A} (key : A -> string) l : forall seen x,
  x ∈ unique_by key seen l ->
  x ∈ l /\ (key x ∉ seen).
Proof.
  induction l as [|y l IH]; intros seen x; cbn; [by intros ?%elem_of_nil|].
  destruct (mem (key y) seen) eqn:E.
  - intros [Hx Hs]%IH. split; [by right|done].
  - apply mem_false in E. intros [->|[Hx Hs]%IH]%elem_of_cons; [by split; [left|]|]. apply not_elem_of_cons in Hs as [_ Hs].
    split; [by right|done].
Qed.

(** One value of each key is kept, the first. *)
Lemma unique_by_find {A} (key : A -> string) l : forall seen k, (k ∉ seen) ->
  find_first (fun x => bool_decide (key x = k)) (unique_by key seen l) = find_first (fun x => bool_decide (key x = k)) l.
Proof.
  induction l as [|y l IH]; intros seen k Hk; [done|]. cbn [unique_by]. destruct (mem (key y) seen) eqn:E.
  - apply mem_spec in E. cbn [find_first]. rewrite bool_decide_false by (intros E'; apply Hk; by rewrite <- E'). by apply IH.
  - cbn [find_first]. case_bool_decide as Hy; [done|]. apply IH. by apply not_elem_of_cons.
Qed.

Lemma unique_by_keys {A} (key : A -> string) l : forall seen, NoDup (map key (unique_by key seen l)).
Proof.
  induction l as [|y l IH]; intros seen; cbn; [constructor|]. destruct (mem (key y) seen); [apply IH|].
  cbn. constructor; [|apply IH]. intros (x & Hk & Hx)%list_elem_of_fmap. apply elem_of_unique_by in Hx as [_ Hx].
  apply Hx. rewrite <- Hk. left.
Qed.

Section facts.
Context `{Hash}.

Lemma apply_Ok state p state' : applyWorkingStateProposal state p = Ok state' ->
  (steps_after state p <= ceiling_steps (ws_budget state))%Z /\ (tokens_after state p <= ceiling_tokens (ws_budget state))%Z /\
  ws_budget state' = Use (steps_after state p) (tokens_after state p) (ceiling_steps (ws_budget state)) (ceiling_tokens (ws_budget state)).
Proof.
  unfold applyWorkingStateProposal. rewrite reject_bind_Ok. intros [[Hs Ht]%orb_false_iff [= <-]]. cbn.
  apply Z.ltb_ge in Hs, Ht. done.
Qed.

Lemma apply_Err state p e : applyWorkingStateProposal state p = Err e <->
  e = budget_ceiling /\ (ceiling_steps (ws_budget state) < steps_after state p \/
                         ceiling_tokens (ws_budget state) < tokens_after state p)%Z.
Proof.
  unfold applyWorkingStateProposal. rewrite <- !Z.ltb_lt, <- orb_true_iff.
  destruct (_ || _); cbn; [|split; [done|by intros []]]. split; [intros [= <-]; done|intros [-> _]; done].
Qed.

Lemma opt_or {A} (ok : A -> bool) (o o' : option A) : opt_ok ok o = true -> opt_ok ok o' = true ->
  opt_ok ok (match o with Some x => Some x | None => o' end) = true.
Proof. by destruct o. Qed.

Lemma default_ok {A} (ok : A -> bool) (o : option A) (x : A) : opt_ok ok o = true -> ok x = true -> ok (default x o) = true.
Proof. by destruct o. Qed.

Lemma apply_valid state p state' : applyWorkingStateProposal state p = Ok state' ->
  valid_state state = true -> valid_proposal p = true -> valid_state state' = true.
Proof.
  unfold applyWorkingStateProposal. rewrite reject_bind_Ok. intros [_ [= <-]]. unfold valid_state, valid_proposal.
  rewrite !andb_true_iff. intros [[[[[[[[[[Hg Hb] Hr] Hp] Hph] Hbud] Ha] Hc] Hcs] Hi] Hin]
    [[[[[[[[Pr Pph] Ps] Pt] Pa] Pc] Pcs] Pi] Pin]. split_and!; try assumption.
  - by apply default_ok.
  - by apply default_ok.
  - unfold budget_natural in *. cbn. rewrite !andb_true_iff, !Z.leb_le in *. unfold steps_after, tokens_after.
    destruct Hbud as [[[? ?] ?] ?]. split_and!; lia.
  - by apply forallb_unique.
  - by apply opt_or.
  - by apply opt_or.
  - by apply forallb_unique.
  - apply forallb_elem. intros i Hx%upsert_In%elem_of_app. rewrite forallb_elem in Hin, Pin. destruct Hx; auto.
Qed.
End facts.

(** ** Properties *)

Definition no_proposal : WorkingStateProposal :=
  Proposal None None None None None None None None None None None None None None None None None None None [].

(** A sample: one fact, one task to do. *)
Definition digest_of (c : ascii) : string := Nat.iter 64 (String c) "".
Definition sample_state : WorkingState :=
  State "goal" "0123456789" (digest_of "1") (digest_of "2") "implement" (Some "task_1") None
    [Fact "a" "bc"] [] [] [] None [] ["task_1"] (Use 0 0 3 1000) [] [] None None [] [].
Definition add_facts (facts : list ConfirmedFact) : WorkingStateProposal :=
  Proposal None None (Some facts) None None None None None None None None None None None None None None None None [].
Definition finish_task (t : string) : WorkingStateProposal :=
  Proposal None None None None None None None None None None (Some [t]) (Some ["task_2"; t]) (Some (Some 1%Z, Some 10%Z))
    None None None None None None [].

Section properties.
Context `{Hash}.

(** A proposal whose digests are digests, whose phase is not empty and whose use of
    the budget is not negative takes a state that validates to one that
    validates. *)
Theorem proposal_preserves_validity state p state' :
  isWorkingState (state_json state) = true -> valid_proposal p = true ->
  applyWorkingStateProposal state p = Ok state' -> isWorkingState (state_json state') = true.
Proof. rewrite !isWorkingState_spec. intros Hs Hp Ha. by eapply apply_valid. Qed.

(** A proposal is refused exactly when it exceeds a ceiling. Otherwise the tasks it
    completes join the completed ones and leave the pending ones, each once; the
    intents are the last put in under each id; grants, approvals and questions
    only grow; the ceilings stay; and the blockers are those still live. *)
Theorem proposal_exact state p :
  (forall e, applyWorkingStateProposal state p = Err e <->
     e = budget_ceiling /\ (ceiling_steps (ws_budget state) < steps_after state p \/
                            ceiling_tokens (ws_budget state) < tokens_after state p)%Z) /\
  forall state', applyWorkingStateProposal state p = Ok state' ->
    (forall t, t ∈ completed_task_ids state' <-> t ∈ completed_task_ids state \/ t ∈ or_none (p_complete_task_ids p)) /\
    (forall t, t ∈ pending_task_ids state' <->
       (t ∈ pending_task_ids state \/ t ∈ or_none (p_add_pending_task_ids p)) /\ (t ∉ completed_task_ids state')) /\
    NoDup (completed_task_ids state') /\ NoDup (pending_task_ids state') /\
    (forall i, i ∈ external_action_intents state' <->
       last (filter (fun j => intent_id j = intent_id i)
         (external_action_intents state ++ or_none (p_upsert_external_action_intents p))) = Some i) /\
    capability_grants state ⊆ capability_grants state' /\ approval_digests state ⊆ approval_digests state' /\
    open_questions state ⊆ open_questions state' /\
    ws_budget state' = Use (steps_after state p) (tokens_after state p) (ceiling_steps (ws_budget state)) (ceiling_tokens (ws_budget state)) /\
    (forall m, m ∈ blockers state' -> exists input c, lb_message c = m /\ still_open input c /\
       reconciliation (blocker_messages input) (p_reconcile_blockers p) = input).
Proof.
  split; [intros e; apply apply_Err|]. intros state' Ha. pose proof (apply_Ok _ _ _ Ha) as (_ & _ & Hb). revert Ha.
  unfold applyWorkingStateProposal. rewrite reject_bind_Ok. intros [_ [= <-]]. cbn in Hb |- *.
  assert (Hgrow : forall l l' : list string, l ⊆ uniqueStrings (l ++ l')).
  { intros l l' x Hx. apply elem_of_dedup, elem_of_app. by left. }
  split_and!; auto; try apply NoDup_dedup.
  - intros t. by rewrite elem_of_dedup, elem_of_app.
  - intros t. unfold uniqueStrings. rewrite elem_of_dedup, elem_of_app, !elem_of_open. naive_solver.
  - intros i. apply elem_of_upsert.
  - intros m (c & -> & Hc)%list_elem_of_fmap. eexists _, c. split; [done|]. split; [by apply reconcile_open|].
    unfold reconciliation. by destruct (p_reconcile_blockers p).
Qed.

(** Of the facts whose text and evidence id concatenate to the same string the
    working state keeps the first: a different fact with the same concatenation
    is dropped, though it was confirmed. *)
Theorem confirmed_facts_collide :
  (forall state p state' key, applyWorkingStateProposal state p = Ok state' ->
     find_first (fun f => bool_decide (fact f +:+ fact_evidence f = key)) (confirmed_facts state') =
     find_first (fun f => bool_decide (fact f +:+ fact_evidence f = key))
       (confirmed_facts state ++ or_none (p_add_confirmed_facts p)) /\
     NoDup (map (fun f => fact f +:+ fact_evidence f) (confirmed_facts state'))) /\
  exists state', applyWorkingStateProposal sample_state (add_facts [Fact "ab" "c"]) = Ok state' /\
    (Fact "ab" "c" ∉ confirmed_facts state').
Proof.
  split.
  - intros state p state' key. unfold applyWorkingStateProposal. rewrite reject_bind_Ok. intros [_ [= <-]]. cbn.
    split; [apply unique_by_find, not_elem_of_nil|apply unique_by_keys].
  - eexists. split; [reflexivity|]. cbn. intros [=]%list_elem_of_singleton.
Qed.
End properties.

Lemma proposal_preserves_validity_witness :
  exists state', @applyWorkingStateProposal {| sha256 := fun s => s |} sample_state (finish_task "task_1") = Ok state' /\
    isWorkingState (state_json state') = true /\ pending_task_ids state' = ["task_2"].
Proof.
  eexists. split; [vm_compute; reflexivity|]. split; [|reflexivity].
  refine (@proposal_preserves_validity {| sha256 := fun s => s |} sample_state (finish_task "task_1") _ _ _ _); vm_compute; reflexivity.
Defined.

Lemma proposal_exact_witness :
  exists state', @applyWorkingStateProposal {| sha256 := fun s => s |} sample_state (finish_task "task_1") = Ok state' /\
    NoDup (pending_task_ids state').
Proof.
  eexists. split; [vm_compute; reflexivity|].
  refine (proj1 (proj2 (proj2 (proj2 (proj2 (@proposal_exact {| sha256 := fun s => s |} sample_state (finish_task "task_1")) _ _))))).
  vm_compute. reflexivity.
Defined.

Lemma confirmed_facts_collide_witness :
  exists state', @applyWorkingStateProposal {| sha256 := fun s => s |} sample_state (add_facts [Fact "ab" "c"]) = Ok state' /\
    NoDup (map (fun f => fact f +:+ fact_evidence f) (confirmed_facts state')).
Proof.
  eexists. split; [vm_compute; reflexivity|].
  refine (proj2 (proj1 (@confirmed_facts_collide {| sha256 := fun s => s |}) sample_state (add_facts [Fact "ab" "c"]) _ "" _)).
  vm_compute. reflexivity.
Defined.
