(* ===== verification/LoopPolicy.v ===== *)
(** * The rules of a managed loop

    [packages/runtime/src/loop/policy.ts], [repeat-detector.ts] and
    [outcome.ts]: the ceilings and termination rules of a loop, the detection
    of repeated actions, and the phases a run goes through. *)

From S2P Require Import Prelude Regex Json Policy Lease Projection.

(** ** Policy *)

Inductive LoopErrorKind : Type :=
| invalid_loop_policy | invalid_task_envelope | invalid_loop_phase | loop_already_terminated | invalid_step_result.
#[export] Instance LoopErrorKind_eq_dec : EqDecision LoopErrorKind.
Proof. solve_decision. Defined.

Inductive loop_error : Type := LoopError (kind : LoopErrorKind) | LoopPolicyError (e : policy_error).

Inductive BudgetCeilingMode : Type := hard | soft.
#[export] Instance BudgetCeilingMode_eq_dec : EqDecision BudgetCeilingMode.
Proof. solve_decision. Defined.
Definition mode_text (m : BudgetCeilingMode) : string := match m with hard => "hard" | soft => "soft" end.

Record RepeatDetectionPolicy : Type := RepeatPolicy { window : Z; identical_action_limit : Z }.

Record TerminationPolicy : Type := Termination
  { require_structured_signal : bool; require_external_verification : bool; ceiling_mode : BudgetCeilingMode }.

Record LoopPolicy : Type := LoopPol
  { max_steps : Z;
    max_tokens : Z;
    max_duration_ms : Z;
    max_tool_retries : Z;
    repeat_detection : RepeatDetectionPolicy;
    termination : TerminationPolicy;
    lp_policy_digest : string;
    lp_digest : string }.

Inductive BudgetField : Type := field_steps | field_tokens | field_duration | field_retries.
#[export] Instance BudgetField_eq_dec : EqDecision BudgetField.
Proof. solve_decision. Defined.
Definition field_text (f : BudgetField) : string :=
  match f with
  | field_steps => "max_steps" | field_tokens => "max_tokens" | field_duration => "max_duration_ms"
  | field_retries => "max_tool_retries"
  end.

(** [GENERIC_PACK_LOOP_DEFAULTS] *)
Definition default_budget (f : BudgetField) : Z :=
  match f with field_steps => 30 | field_tokens => 120000 | field_duration => 2700000 | field_retries => 2 end.
Definition default_repeat : RepeatDetectionPolicy := RepeatPolicy 6 2.
Definition default_termination : TerminationPolicy := Termination true true hard.

Record TerminationOverrides : Type := TermOverrides
  { over_structured : option bool; over_external : option bool; over_mode : option BudgetCeilingMode }.
Record LoopPolicyOverrides : Type := LoopOverrides
  { over_budget : BudgetField -> option number; over_termination : option TerminationOverrides }.
Record LoopPolicyRequest : Type := LoopRequest
  { lr_overrides : option LoopPolicyOverrides; authorization_digest : option string }.

Definition policyBoolean (effective : EffectivePolicy) (path : string) : option bool :=
  f ← fieldAt effective path; match ef_value f with JBool b => Some b | _ => None end.

Definition positiveInteger (value : number) : bool := match value with NInt z => (0 <=? z)%Z | _ => false end.

(** ** Validation *)

(** The integer of a value, if it is at least [low]. *)
Definition integer_from (low : Z) (value : jsval) : option Z :=
  match value with JNum (NInt z) => if (low <=? z)%Z then Some z else None | _ => None end.
Definition bool_of (value : jsval) : option bool := match value with JBool b => Some b | _ => None end.
Definition mode_of (value : jsval) : option BudgetCeilingMode :=
  match value with JStr s => find_first (fun m => bool_decide (mode_text m = s)) [hard; soft] | _ => None end.
Definition digest_of_value (value : jsval) : option string :=
  match value with JStr s => if re_match digest_regex s then Some s else None | _ => None end.
Definition fields_of (value : jsval) : option (list (string * jsval)) :=
  match value with JObj f => Some f | _ => None end.

(** The policy a value is, if [isLoopPolicy] holds of it. *)
Definition loop_policy_of (value : jsval) : option LoopPolicy :=
  f ← fields_of value;
  s ← integer_from 1 (jfield f "max_steps");
  t ← integer_from 1 (jfield f "max_tokens");
  d ← integer_from 1 (jfield f "max_duration_ms");
  r ← integer_from 0 (jfield f "max_tool_retries");
  repeat_fields ← fields_of (jfield f "repeat_detection");
  w ← integer_from 1 (jfield repeat_fields "window");
  l ← integer_from 2 (jfield repeat_fields "identical_action_limit");
  term ← fields_of (jfield f "termination");
  structured ← bool_of (jfield term "require_structured_signal");
  external ← bool_of (jfield term "require_external_verification");
  mode ← mode_of (jfield term "budget_ceiling");
  policy_digest ← digest_of_value (jfield f "effective_policy_digest");
  digest ← digest_of_value (jfield f "digest");
  Some (LoopPol s t d r (RepeatPolicy w l) (Termination structured external mode) policy_digest digest).

Definition isLoopPolicy (value : jsval) : bool := bool_decide (is_Some (loop_policy_of value)).

Definition assertLoopPolicy (value : jsval) : result loop_error unit :=
  reject_if (negb (isLoopPolicy value)) (LoopError invalid_loop_policy).

(** ** Resolution *)

Definition declared_budget (effective : EffectivePolicy) (name : BudgetField) : number :=
  default (NInt (default_budget name)) (policyNumber effective ("loop." +:+ field_text name)).

Definition resolveBudget (effective : EffectivePolicy) (name : BudgetField) (override : option number) (authorized : bool) :
  result loop_error number :=
  let declared := declared_budget effective name in
  let minimum := if decide (name = field_retries) then 0%Z else 1%Z in
  value ← match override with
          | None => Ok declared
          | Some v =>
              _ ← reject_if (negb (positiveInteger v) || num_lt v (NInt minimum)) (LoopError invalid_loop_policy);
              _ ← reject_if (num_lt declared v && negb authorized) (LoopPolicyError capability_expansion);
              Ok v
          end;
  match policyNumber effective ("loop.ceiling." +:+ field_text name) with
  | Some ceiling => Ok (if num_lt ceiling value then ceiling else value)
  | None => Ok value
  end.

Definition declared_termination (effective : EffectivePolicy) : TerminationPolicy :=
  Termination
    (default (require_structured_signal default_termination)
       (policyBoolean effective "loop.termination.require_structured_signal"))
    (default (require_external_verification default_termination)
       (policyBoolean effective "loop.termination.require_external_verification"))
    (if decide (policyString effective "loop.termination.budget_ceiling" = Some "soft") then soft else hard).

Definition weakened (base next : TerminationPolicy) : bool :=
  require_structured_signal base && negb (require_structured_signal next) ||
  require_external_verification base && negb (require_external_verification next) ||
  bool_decide (ceiling_mode base = hard) && bool_decide (ceiling_mode next = soft).

Definition resolveTermination (effective : EffectivePolicy) (overrides : option TerminationOverrides) (authorized : bool) :
  result loop_error TerminationPolicy :=
  let base := declared_termination effective in
  match overrides with
  | None => Ok base
  | Some o =>
      let next := Termination (default (require_structured_signal base) (over_structured o))
                    (default (require_external_verification base) (over_external o))
                    (default (ceiling_mode base) (over_mode o)) in
      _ ← reject_if (weakened base next && negb authorized) (LoopPolicyError capability_expansion);
      Ok next
  end.

Definition declared_window (effective : EffectivePolicy) : number :=
  default (NInt (window default_repeat)) (policyNumber effective "loop.repeat_detection.window").
Definition declared_limit (effective : EffectivePolicy) : number :=
  default (NInt (identical_action_limit default_repeat))
    (policyNumber effective "loop.repeat_detection.identical_action_limit").

Definition repeat_fields (w l : number) : list (string * jsval) :=
  [("window", JNum w); ("identical_action_limit", JNum l)].
Definition termination_fields (t : TerminationPolicy) : list (string * jsval) :=
  [("require_structured_signal", JBool (require_structured_signal t));
   ("require_external_verification", JBool (require_external_verification t));
   ("budget_ceiling", JStr (mode_text (ceiling_mode t)))].
Definition policy_parts (s t d r w l : number) (term : TerminationPolicy) (policy_digest : string) : list (string * jsval) :=
  [("max_steps", JNum s); ("max_tokens", JNum t); ("max_duration_ms", JNum d); ("max_tool_retries", JNum r);
   ("repeat_detection", JObj (repeat_fields w l)); ("termination", JObj (termination_fields term));
   ("effective_policy_digest", JStr policy_digest)].

(** ["0".repeat(64)] *)
Definition zero_digest : string := Nat.iter 64 (String "0") "".

Definition with_digest (p : LoopPolicy) (digest : string) : LoopPolicy :=
  LoopPol (max_steps p) (max_tokens p) (max_duration_ms p) (max_tool_retries p) (repeat_detection p) (termination p)
    (lp_policy_digest p) digest.

Section resolve.
Context `{Hash}.

Definition resolveLoopPolicy (effective : EffectivePolicy) (request : LoopPolicyRequest) : result loop_error LoopPolicy :=
  let authorized := bool_decide (is_Some (authorization_digest request)) in
  let override name := o ← lr_overrides request; over_budget o name in
  s ← resolveBudget effective field_steps (override field_steps) authorized;
  t ← resolveBudget effective field_tokens (override field_tokens) authorized;
  d ← resolveBudget effective field_duration (override field_duration) authorized;
  r ← resolveBudget effective field_retries (override field_retries) authorized;
  term ← resolveTermination effective (o ← lr_overrides request; over_termination o) authorized;
  let parts := policy_parts s t d r (declared_window effective) (declared_limit effective) term (ep_digest effective) in
  match loop_policy_of (JObj (parts ++ [("digest", JStr zero_digest)])) with
  | None => Err (LoopError invalid_loop_policy)
  | Some policy =>
      digest ← map_err (fun e => LoopPolicyError (PolicyCanonicalError e)) (contentDigest (JObj parts));
      Ok (with_digest policy digest)
  end.
End resolve.

(** ** Repeat detection *)

Record RepeatObservation : Type := Observation
  { fingerprint : string; state_digest : string; evidence_digest : string }.
#[export] Instance RepeatObservation_eq_dec : EqDecision RepeatObservation.
Proof. solve_decision. Defined.

Record RepeatDetectionResult : Type := Detection { repeated : bool; occurrences : Z; repeated_fingerprint : option string }.

(** [actionFingerprint]: parameters are plain JSON already. *)
Definition actionFingerprint `{Hash} (tool : string) (parameters : list (string * jsval)) (resource : option string) :
  result canonical_error string :=
  contentDigest (JObj [("tool", JStr tool); ("parameters", JObj parameters);
                       ("resource", match resource with Some r => JStr r | None => JNull end)]).

(** The observations after one more, and what the detector says of it. *)
Definition observe (policy : RepeatDetectionPolicy) (observations : list RepeatObservation) (latest : RepeatObservation) :
  list RepeatObservation * RepeatDetectionResult :=
  let pushed := observations ++ [latest] in
  let kept := if (window policy <? Z.of_nat (length pushed))%Z
              then drop (Z.to_nat (Z.of_nat (length pushed) - window policy)) pushed else pushed in
  let n := Z.of_nat (length (filter (fun c => c = latest) kept)) in
  let hit := (identical_action_limit policy <=? n)%Z in
  (kept, Detection hit n (if hit then Some (fingerprint latest) else None)).

(** ** Outcome and phases *)

Inductive LoopRunPhase : Type := running | verifying | terminated.
#[export] Instance LoopRunPhase_eq_dec : EqDecision LoopRunPhase.
Proof. solve_decision. Defined.

(** The detail text is left out. *)
Record TerminalDecision : Type := Terminal { td_outcome : RunOutcome; td_reason : TerminationReason }.
#[export] Instance TerminalDecision_eq_dec : EqDecision TerminalDecision.
Proof. solve_decision. Defined.

Definition completionDecision (verified : bool) : TerminalDecision :=
  if verified then Terminal success completion else Terminal failed gate_failure.
Definition budgetCeilingDecision : TerminalDecision := Terminal partial budget_ceiling.
Definition repeatDetectionDecision : TerminalDecision := Terminal partial Projection.repeat_detection.
Definition timeoutDecision : TerminalDecision := Terminal partial timeout.
Definition adapterFailureDecision : TerminalDecision := Terminal failed adapter_failure.
Definition cancellationDecision : TerminalDecision := Terminal handoff user_cancellation.

(** [LoopPhaseMachine] *)
Record PhaseMachine : Type := Machine { pm_phase : LoopRunPhase; pm_terminal : option TerminalDecision }.
Definition new_machine : PhaseMachine := Machine running None.

Definition terminateInternal (m : PhaseMachine) (decision : TerminalDecision) : result loop_error PhaseMachine :=
  _ ← reject_if (bool_decide (pm_phase m = terminated)) (LoopError loop_already_terminated);
  Ok (Machine terminated (Some decision)).
Definition signalCompletion (m : PhaseMachine) : result loop_error PhaseMachine :=
  _ ← reject_if (negb (bool_decide (pm_phase m = running))) (LoopError invalid_loop_phase);
  Ok (Machine verifying (pm_terminal m)).
Definition verify_evidence (m : PhaseMachine) (evidenceCurrent : bool) : result loop_error PhaseMachine :=
  _ ← reject_if (negb (bool_decide (pm_phase m = verifying))) (LoopError invalid_loop_phase);
  terminateInternal m (completionDecision evidenceCurrent).
Definition terminate (m : PhaseMachine) (decision : TerminalDecision) : result loop_error PhaseMachine :=
  _ ← reject_if (bool_decide (td_outcome decision = success)) (LoopError invalid_loop_phase);
  terminateInternal m decision.

(* ------------------------------------------------------------------ *)
(** ** Resolution *)

Lemma num_lt_trans a b c : num_lt a b = true -> num_lt b c = true -> num_lt a c = true.
Proof.
  unfold num_lt. destruct (finite_value a) as [x|] eqn:Ea, (finite_value b) as [y|] eqn:Eb, (finite_value c) as [z|] eqn:Ec; try done.
  rewrite !negb_true_iff, <- !not_true_iff_false, !QArith_base.Qle_bool_iff. intros H1 H2 H3.
  apply QArith_base.Qnot_le_lt in H1, H2. apply (QArith_base.Qlt_irrefl x).
  eapply QArith_base.Qlt_le_trans; [|exact H3]. by eapply QArith_base.Qlt_trans.
Qed.
Lemma num_lt_irrefl a : num_lt a a = false.
Proof.
  unfold num_lt. destruct (finite_value a) as [x|]; [|done]. apply negb_false_iff, QArith_base.Qle_bool_iff, QArith_base.Qle_refl.
Qed.

(** A clamp never passes a bound its argument respects. *)
Lemma clamped_below d c v : num_lt d v = false -> num_lt d (if num_lt c v then c else v) = false.
Proof.
  intros Hv. destruct (num_lt c v) eqn:E; [|done]. apply not_true_iff_false. intros Hd.
  by rewrite (num_lt_trans d c v) in Hv.
Qed.

Lemma resolveBudget_Ok e f override authorized v : resolveBudget e f override authorized = Ok v ->
  let declared := declared_budget e f in
  let value := default declared override in
  (authorized = false -> num_lt declared value = false) /\
  match policyNumber e ("loop.ceiling." +:+ field_text f) with
  | Some c => v = (if num_lt c value then c else value)
  | None => v = value
  end.
Proof.
  unfold resolveBudget. rewrite bind_Ok. intros (x & Hx & Hv). cbv zeta.
  assert (x = default (declared_budget e f) override /\
          (authorized = false -> num_lt (declared_budget e f) x = false)) as [-> Ha].
  { destruct override as [o|]; cbn [default].
    - rewrite !reject_bind_Ok in Hx. destruct Hx as (_ & Hr & [= <-]). split; [done|]. intros ->.
      by rewrite andb_true_r in Hr.
    - injection Hx as <-. split; [done|]. intros _. apply num_lt_irrefl. }
  split; [done|]. by destruct (policyNumber _ _); injection Hv.
Qed.

(** The ceilings a policy holds, by field. *)
Definition budget_of (p : LoopPolicy) (f : BudgetField) : Z :=
  match f with
  | field_steps => max_steps p | field_tokens => max_tokens p | field_duration => max_duration_ms p
  | field_retries => max_tool_retries p
  end.
Definition least (f : BudgetField) : Z := match f with field_retries => 0 | _ => 1 end.

Lemma integer_from_Some low v z : integer_from low v = Some z -> v = JNum (NInt z) /\ (low <= z)%Z.
Proof.
  unfold integer_from. destruct v as [| | |[z'| |]| | |]; try done. destruct (Z.leb_spec low z'); [|done]. by intros [= <-].
Qed.

Lemma parts_read s t d r w l term pd p :
  loop_policy_of (JObj (policy_parts s t d r w l term pd ++ [("digest", JStr zero_digest)])) = Some p ->
  s = NInt (max_steps p) /\ t = NInt (max_tokens p) /\ d = NInt (max_duration_ms p) /\ r = NInt (max_tool_retries p) /\
  w = NInt (window (repeat_detection p)) /\ l = NInt (identical_action_limit (repeat_detection p)) /\
  (1 <= window (repeat_detection p))%Z /\ (2 <= identical_action_limit (repeat_detection p))%Z /\
  (forall f, (least f <= budget_of p f)%Z) /\ termination p = term /\ lp_policy_digest p = pd.
Proof.
  unfold loop_policy_of. set (F := policy_parts s t d r w l term pd ++ _).
  change (fields_of (JObj F)) with (Some F). cbn [mbind option_bind].
  change (jfield F "max_steps") with (JNum s). change (jfield F "max_tokens") with (JNum t).
  change (jfield F "max_duration_ms") with (JNum d). change (jfield F "max_tool_retries") with (JNum r).
  change (jfield F "effective_policy_digest") with (JStr pd).
  destruct (integer_from 1 (JNum s)) as [s'|] eqn:Es; [|done]. destruct (integer_from 1 (JNum t)) as [t'|] eqn:Et; [|done].
  destruct (integer_from 1 (JNum d)) as [d'|] eqn:Ed; [|done]. destruct (integer_from 0 (JNum r)) as [r'|] eqn:Er; [|done].
  apply integer_from_Some in Es as [[= ->] ?], Et as [[= ->] ?], Ed as [[= ->] ?], Er as [[= ->] ?].
  change (fields_of (jfield F "repeat_detection")) with (Some (repeat_fields w l)).
  change (fields_of (jfield F "termination")) with (Some (termination_fields term)).
  cbn [mbind option_bind]. change (jfield (repeat_fields w l) "window") with (JNum w).
  change (jfield (repeat_fields w l) "identical_action_limit") with (JNum l).
  change (mode_of (jfield (termination_fields term) "budget_ceiling")) with (mode_of (JStr (mode_text (ceiling_mode term)))).
  change (bool_of (jfield (termination_fields term) "require_structured_signal")) with (Some (require_structured_signal term)).
  change (bool_of (jfield (termination_fields term) "require_external_verification")) with (Some (require_external_verification term)).
  destruct (integer_from 1 (JNum w)) as [w'|] eqn:Ew; [|done]. destruct (integer_from 2 (JNum l)) as [l'|] eqn:El; [|done].
  apply integer_from_Some in Ew as [[= ->] ?], El as [[= ->] ?]. cbn [mbind option_bind].
  destruct (mode_of (JStr _)) as [m|] eqn:Em; [|done].
  assert (m = ceiling_mode term) as -> by (destruct (ceiling_mode term); vm_compute in Em; congruence).
  destruct (digest_of_value (JStr pd)) as [pd'|] eqn:Ep; [|done].
  assert (pd' = pd) as -> by (unfold digest_of_value in Ep; destruct (re_match _ _); congruence).
  cbn [mbind option_bind]. destruct (digest_of_value _); [|done]. intros [= <-]. cbn. split_and!; try done.
  - intros []; done.
  - by destruct term.
Qed.

Section resolution.
Context `{Hash}.

Definition override_of (request : LoopPolicyRequest) (f : BudgetField) : option number :=
  o ← lr_overrides request; over_budget o f.

Lemma resolveLoopPolicy_Ok e request p : resolveLoopPolicy e request = Ok p ->
  let authorized := bool_decide (is_Some (authorization_digest request)) in
  (forall f, (least f <= budget_of p f)%Z /\ resolveBudget e f (override_of request f) authorized = Ok (NInt (budget_of p f))) /\
  resolveTermination e (o ← lr_overrides request; over_termination o) authorized = Ok (termination p) /\
  declared_window e = NInt (window (repeat_detection p)) /\
  declared_limit e = NInt (identical_action_limit (repeat_detection p)) /\
  (1 <= window (repeat_detection p))%Z /\ (2 <= identical_action_limit (repeat_detection p))%Z /\
  lp_policy_digest p = ep_digest e.
Proof.
  unfold resolveLoopPolicy. cbv zeta. rewrite bind_Ok. intros (s & Hs & E). rewrite bind_Ok in E. destruct E as (t & Ht & E).
  rewrite bind_Ok in E. destruct E as (d & Hd & E). rewrite bind_Ok in E. destruct E as (r & Hr & E).
  rewrite bind_Ok in E. destruct E as (term & Hterm & E).
  destruct (loop_policy_of _) as [q|] eqn:Eq; [|done]. rewrite bind_Ok in E. destruct E as (digest & _ & [= <-]).
  apply parts_read in Eq as (-> & -> & -> & -> & Hw & Hl & Hw1 & Hl2 & Hmin & Hterm' & Hpd).
  cbn [with_digest repeat_detection termination lp_policy_digest]. rewrite Hterm'. split_and!; try done.
  intros f. split; [apply (Hmin f)|]. by destruct f.
Qed.
End resolution.

(** ** Repeat detection *)

Definition observe_all (policy : RepeatDetectionPolicy) (os : list RepeatObservation) : list RepeatObservation :=
  fold_left (fun seen o => (observe policy seen o).1) os [].

(** The last [n] of a list. *)
Definition last_n {A} (n : Z) (l : list A) : list A := drop (Z.to_nat (Z.of_nat (length l) - n)) l.

Lemma kept_last_n policy seen latest : (observe policy seen latest).1 = last_n (window policy) (seen ++ [latest]).
Proof.
  unfold observe, last_n. cbn [fst]. destruct (Z.ltb_spec (window policy) (Z.of_nat (length (seen ++ [latest])))); [done|].
  by replace (Z.to_nat _) with 0 by lia.
Qed.

Lemma last_n_snoc {A} n (l : list A) x : (1 <= n)%Z -> last_n n (last_n n l ++ [x]) = last_n n (l ++ [x]).
Proof.
  intros Hn. unfold last_n. rewrite !length_app, length_drop. cbn [length].
  rewrite !drop_app_le by (rewrite ?length_drop; lia). rewrite drop_drop. f_equal. f_equal. lia.
Qed.

Lemma observe_all_window policy os : (1 <= window policy)%Z -> observe_all policy os = last_n (window policy) os.
Proof.
  intros Hw. unfold observe_all. induction os as [|o os IH] using rev_ind; [by unfold last_n; rewrite drop_nil|].
  rewrite fold_left_app. cbn [fold_left]. rewrite IH, kept_last_n. by apply last_n_snoc.
Qed.

Lemma last_n_length {A} n (l : list A) : (Z.of_nat (length (last_n n l)) <= Z.max 0 n)%Z.
Proof. unfold last_n. rewrite length_drop. lia. Qed.

Lemma never_trips policy os latest : (1 <= window policy)%Z -> (window policy < identical_action_limit policy)%Z ->
  repeated (observe policy (observe_all policy os) latest).2 = false.
Proof.
  intros Hw Hl. assert (Hk : (observe policy (observe_all policy os) latest).1 = last_n (window policy) (os ++ [latest]))
    by (by rewrite kept_last_n, observe_all_window, last_n_snoc).
  change (repeated _) with (identical_action_limit policy <=?
    Z.of_nat (length (filter (fun c => c = latest) (observe policy (observe_all policy os) latest).1)))%Z.
  rewrite Hk. apply Z.leb_gt. pose proof (length_filter (fun c => c = latest) (last_n (window policy) (os ++ [latest]))).
  pose proof (last_n_length (window policy) (os ++ [latest])). lia.
Qed.

(** ** Phases *)

(** The operations of the phase machine; one that throws leaves it as it is. *)
Inductive phase_op : Type := op_signal | op_verify (current : bool) | op_terminate (decision : TerminalDecision).
Definition phase_step (m : PhaseMachine) (op : phase_op) : result loop_error PhaseMachine :=
  match op with
  | op_signal => signalCompletion m
  | op_verify current => verify_evidence m current
  | op_terminate decision => terminate m decision
  end.
Definition attempt (m : PhaseMachine) (op : phase_op) : PhaseMachine :=
  match phase_step m op with Ok m' => m' | Err _ => m end.
Definition phase_run (ops : list phase_op) : PhaseMachine := fold_left attempt ops new_machine.

(** What the phase says of the operations so far. *)
Definition phase_inv (ops : list phase_op) (m : PhaseMachine) : Prop :=
  match pm_phase m with
  | running => pm_terminal m = None /\ (op_signal ∉ ops)
  | verifying => pm_terminal m = None /\ op_signal ∈ ops
  | terminated => exists d, pm_terminal m = Some d /\
      (td_outcome d = success -> exists before after, ops = before ++ op_verify true :: after /\ op_signal ∈ before)
  end.

(** Terminating, by whether the decision claims success. *)
Lemma attempt_terminate m d : attempt m (op_terminate d) =
  if decide (td_outcome d = success) then m
  else if decide (pm_phase m = terminated) then m else Machine terminated (Some d).
Proof.
  unfold attempt, phase_step, terminate, terminateInternal. destruct (decide (td_outcome d = success)) as [Hd|Hd].
  - by rewrite (bool_decide_true (td_outcome d = success)).
  - rewrite (bool_decide_false (td_outcome d = success)) by done. cbn. destruct (decide (pm_phase m = terminated)) as [Hm|Hm].
    + by rewrite bool_decide_true.
    + by rewrite bool_decide_false.
Qed.

Lemma phase_inv_step ops m op : phase_inv ops m -> phase_inv (ops ++ [op]) (attempt m op).
Proof.
  unfold phase_inv. destruct op as [|c|d]; [..|rewrite attempt_terminate]; destruct m as [[] t]; cbn [pm_phase pm_terminal].
  - intros [-> Hs]. cbn. split; [done|]. apply elem_of_app. right. left.
  - intros [-> Hs]. cbn. split; [done|]. apply elem_of_app. by left.
  - intros (d & -> & Hd). exists d. split; [done|]. intros Ho. destruct (Hd Ho) as (b & a & -> & Hb).
    exists b, (a ++ [op_signal]). by rewrite <- app_assoc.
  - intros [-> Hs]. cbn. split; [done|]. rewrite elem_of_app. intros [?|[=]%list_elem_of_singleton]. done.
  - intros [-> Hs]. cbn. exists (completionDecision c). split; [done|]. destruct c; [|done]. intros _. by exists ops, [].
  - intros (d & -> & Hd). exists d. split; [done|]. intros Ho. destruct (Hd Ho) as (b & a & -> & Hb).
    exists b, (a ++ [op_verify c]). by rewrite <- app_assoc.
  - intros [-> Hs]. case_decide; cbn; [|by exists d].
    split; [done|]. rewrite elem_of_app. intros [?|[=]%list_elem_of_singleton]. done.
  - intros [-> Hs]. case_decide; cbn; [|by exists d]. split; [done|]. apply elem_of_app. by left.
  - intros (d' & -> & Hd). assert (E : (if decide (td_outcome d = success) then Machine terminated (Some d')
      else if decide (terminated = terminated) then Machine terminated (Some d') else Machine terminated (Some d)) =
      Machine terminated (Some d')) by (by case_decide). rewrite E. exists d'. split; [done|]. intros Ho.
    destruct (Hd Ho) as (b & a & -> & Hb). exists b, (a ++ [op_terminate d]). by rewrite <- app_assoc.
Qed.

Lemma phase_run_inv ops : phase_inv ops (phase_run ops).
Proof.
  induction ops as [|op ops IH] using rev_ind.
  - split; [done|apply not_elem_of_nil].
  - unfold phase_run. rewrite fold_left_app. by apply phase_inv_step.
Qed.

Lemma terminal_sticks m d ops : pm_phase m = terminated -> pm_terminal m = Some d ->
  fold_left attempt ops m = m.
Proof.
  intros Hp Hd. induction ops as [|op ops IH]; [done|]. cbn [fold_left].
  assert (attempt m op = m) as ->; [|done]. destruct m as [p t]; cbn in Hp, Hd. subst.
  destruct op as [|c|d']; [done..|]. rewrite attempt_terminate. by case_decide.
Qed.

(** ** Properties *)

Section properties.
Context `{Hash}.

(** C35. The policy a loop runs under is valid, and bounded: every ceiling is at least
    its minimum, never above the one the installation sets, and without an
    authorization never above the one declared; without an authorization no
    termination rule is weaker than declared; and repeat detection is the
    declared one whatever the request asks. *)
Theorem resolved_policy_bounded e request p :
  resolveLoopPolicy e request = Ok p ->
  (forall f, (least f <= budget_of p f)%Z /\
     (forall c, policyNumber e ("loop.ceiling." +:+ field_text f) = Some c -> num_lt c (NInt (budget_of p f)) = false) /\
     (authorization_digest request = None -> num_lt (declared_budget e f) (NInt (budget_of p f)) = false) /\
     (policyNumber e ("loop.ceiling." +:+ field_text f) = None ->
        NInt (budget_of p f) = default (declared_budget e f) (override_of request f))) /\
  (authorization_digest request = None -> weakened (declared_termination e) (termination p) = false) /\
  NInt (window (repeat_detection p)) = declared_window e /\
  NInt (identical_action_limit (repeat_detection p)) = declared_limit e /\
  (1 <= window (repeat_detection p))%Z /\ (2 <= identical_action_limit (repeat_detection p))%Z.
Proof.
  intros (Hb & Ht & Hw & Hl & Hw1 & Hl2 & _)%resolveLoopPolicy_Ok. cbv zeta in Hb, Ht. split_and!; try done.
  - intros f. destruct (Hb f) as [Hmin Hf]. apply resolveBudget_Ok in Hf as [Ha Hv]. cbv zeta in Ha, Hv. split_and!; [done|..].
    + intros c Hc. rewrite Hc in Hv. rewrite Hv. destruct (num_lt c _) eqn:E; [apply num_lt_irrefl|done].
    + intros Hn. rewrite Hn in Ha. specialize (Ha eq_refl). destruct (policyNumber _ _) as [c|]; rewrite Hv; [|done].
      by apply clamped_below.
    + intros Hn. by rewrite Hn in Hv.
  - intros Hn. rewrite Hn in Ht. unfold resolveTermination in Ht. destruct (_ ≫= _) as [o|].
    + apply reject_bind_Ok in Ht as [Hr [= <-]]. by rewrite andb_true_r in Hr.
    + injection Ht as <-. unfold weakened. by destruct (declared_termination e) as [[] [] []].
Qed.

(** The detector sees the last observations of its window, and trips exactly when
    the newest one is among them as often as the limit; a window smaller than the
    limit never trips. *)
Theorem repeat_detection_exact policy os latest :
  (1 <= window policy)%Z ->
  let seen := last_n (window policy) (os ++ [latest]) in
  let r := (observe policy (observe_all policy os) latest).2 in
  occurrences r = Z.of_nat (length (filter (fun o => o = latest) seen)) /\
  (repeated r = true <-> (identical_action_limit policy <= occurrences r)%Z) /\
  (1 <= occurrences r <= window policy)%Z /\
  ((window policy < identical_action_limit policy)%Z -> repeated r = false).
Proof.
  intros Hw seen r.
  assert (Ho : occurrences r = Z.of_nat (length (filter (fun o => o = latest) seen))).
  { assert (Hk : (observe policy (observe_all policy os) latest).1 = seen)
      by (by rewrite kept_last_n, observe_all_window, last_n_snoc).
    rewrite <- Hk. reflexivity. }
  assert (Hr : repeated r = (identical_action_limit policy <=? occurrences r)%Z) by done.
  assert (Hlow : (1 <= occurrences r)%Z).
  { rewrite Ho. assert (Hin : latest ∈ filter (fun o => o = latest) seen).
    { apply list_elem_of_filter. split; [done|]. subst seen. unfold last_n. rewrite length_app. cbn [length].
      rewrite drop_app_le by lia. apply elem_of_app. right. left. }
    destruct (filter _ seen); [by apply elem_of_nil in Hin|]. cbn [length]. lia. }
  assert (Hhigh : (occurrences r <= window policy)%Z).
  { rewrite Ho. pose proof (length_filter (fun o => o = latest) seen). pose proof (last_n_length (window policy) (os ++ [latest])) as Hn.
    fold seen in Hn. lia. }
  split_and!; try done; [by rewrite Hr, Z.leb_le|]. intros Hlt. rewrite Hr. apply Z.leb_gt. lia.
Qed.

(** However its operations are called, a run has one terminal decision, which
    later calls do not change, and its outcome is success only if a completion
    signal was followed by a verification that found the evidence current. *)
Theorem success_only_verified ops more :
  (pm_phase (phase_run ops) = terminated <-> is_Some (pm_terminal (phase_run ops))) /\
  (forall d, pm_terminal (phase_run ops) = Some d ->
     phase_run (ops ++ more) = phase_run ops /\
     (td_outcome d = success -> exists before after, ops = before ++ op_verify true :: after /\ op_signal ∈ before)).
Proof.
  pose proof (phase_run_inv ops) as Hi. unfold phase_inv in Hi. destruct (pm_phase (phase_run ops)) eqn:Ep.
  - destruct Hi as [Hn _]. rewrite Hn. split; [split; [done|by intros []]|done].
  - destruct Hi as [Hn _]. rewrite Hn. split; [split; [done|by intros []]|done].
  - destruct Hi as (d & Hd & Hs). rewrite Hd. split; [done|]. intros d' [= <-]. split; [|done].
    unfold phase_run. rewrite fold_left_app. by eapply terminal_sticks.
Qed.
End properties.

(** A sample: a project that lowers the window below the limit. *)
Definition window_layers : list PolicyLayerInput :=
  [Layer "installation" 1 "i" [FieldInput "loop.repeat_detection.window" "hard_ceiling" (JNum (NInt 6));
                               FieldInput "loop.ceiling.max_steps" "hard_ceiling" (JNum (NInt 20))];
   Layer "project" 1 "p" [FieldInput "loop.repeat_detection.window" "hard_ceiling" (JNum (NInt 1))]].
Definition plain_request : LoopPolicyRequest := LoopRequest None None.
Definition raise_request : LoopPolicyRequest :=
  LoopRequest (Some (LoopOverrides (fun f => match f with field_steps => Some (NInt 40) | _ => None end) None)) None.

Definition sample_effective : EffectivePolicy := Eval vm_compute in
  match @mergePolicyLayers toy_hash window_layers with Ok m => effective m | Err _ => Effective [] [] "" end.
Definition sample_loop_policy : LoopPolicy := Eval vm_compute in
  match @resolveLoopPolicy toy_hash sample_effective plain_request with
  | Ok p => p
  | Err _ => LoopPol 0 0 0 0 default_repeat default_termination "" ""
  end.

Example raise_refused :
  @resolveLoopPolicy toy_hash sample_effective raise_request = Err (LoopPolicyError capability_expansion).
Proof. vm_compute. reflexivity. Qed.

(** Repeat detection has no switch, but a declared window below the declared limit
    turns it off: the policy resolves, without any authorization, and the
    detector never trips. A project layer can lower the window so, as a ceiling
    that only ever goes down. *)
Theorem repeat_detection_can_be_off :
  (forall `{Hash} e request p w l os latest,
     resolveLoopPolicy e request = Ok p -> declared_window e = NInt w -> declared_limit e = NInt l -> (w < l)%Z ->
     repeated (observe (repeat_detection p) (observe_all (repeat_detection p) os) latest).2 = false) /\
  exists m p, @mergePolicyLayers toy_hash window_layers = Ok m /\ conflicts m = [] /\
    @resolveLoopPolicy toy_hash (effective m) plain_request = Ok p /\
    declared_window (effective m) = NInt 1 /\ declared_limit (effective m) = NInt 2.
Proof.
  split.
  - intros ? e request p w l os latest (_ & _ & Hw & Hl & Hw1 & _)%resolveLoopPolicy_Ok Ew El Hlt.
    rewrite Ew in Hw. rewrite El in Hl. injection Hw as Hw. injection Hl as Hl. apply never_trips; lia.
  - eexists _, _. split; [vm_compute; reflexivity|]. split; [reflexivity|]. split; [vm_compute; reflexivity|].
    split; vm_compute; reflexivity.
Qed.

Lemma sample_loop_policy_Ok : @resolveLoopPolicy toy_hash sample_effective plain_request = Ok sample_loop_policy.
Proof. vm_compute. reflexivity. Qed.

Lemma resolved_policy_bounded_witness :
  max_steps sample_loop_policy = 20%Z /\ num_lt (NInt 20) (NInt (max_steps sample_loop_policy)) = false.
Proof.
  split; [reflexivity|].
  refine (proj1 (proj2 (proj1 (@resolved_policy_bounded toy_hash _ _ _ sample_loop_policy_Ok) field_steps)) (NInt 20) _).
  vm_compute. reflexivity.
Defined.

Lemma repeat_detection_exact_witness :
  repeated (observe default_repeat (observe_all default_repeat [Observation "f" "s" "e"]) (Observation "f" "s" "e")).2 = true /\
  (1 <= occurrences (observe default_repeat (observe_all default_repeat [Observation "f" "s" "e"]) (Observation "f" "s" "e")).2 <= 6)%Z.
Proof.
  split; [reflexivity|].
  exact (proj1 (proj2 (proj2 (repeat_detection_exact default_repeat [Observation "f" "s" "e"] (Observation "f" "s" "e")
    ltac:(vm_compute; discriminate))))).
Defined.

Lemma success_only_verified_witness :
  phase_run [op_signal; op_verify true; op_terminate cancellationDecision] = phase_run [op_signal; op_verify true].
Proof.
  apply (proj2 (success_only_verified [op_signal; op_verify true] [op_terminate cancellationDecision])
    (Terminal success completion) eq_refl).
Defined.

Lemma repeat_detection_can_be_off_witness :
  repeated (observe (repeat_detection sample_loop_policy)
    (observe_all (repeat_detection sample_loop_policy) [Observation "f" "s" "e"; Observation "f" "s" "e"]) (Observation "f" "s" "e")).2 = false.
Proof.
  exact (proj1 repeat_detection_can_be_off toy_hash sample_effective plain_request sample_loop_policy 1%Z 2%Z _ _
    sample_loop_policy_Ok eq_refl eq_refl ltac:(done)).
Defined.
