(* ===== verification/TaskEnvelope.v ===== *)
(** * Task envelopes

    [packages/runtime/src/loop/task-envelope.ts]: the contract of one managed
    run, its structural validation, and its digest. *)

From S2P Require Import Prelude Regex Locator Json Policy Lease Projection Grant LoopPolicy.

(** ** Data *)

Inductive ExternalSideEffectPolicy : Type := forbidden | approval_required | allowed.
Definition side_effect_text (p : ExternalSideEffectPolicy) : string :=
  match p with forbidden => "forbidden" | approval_required => "approval_required" | allowed => "allowed" end.
Definition EXTERNAL_SIDE_EFFECT_POLICIES : list string := map side_effect_text [forbidden; approval_required; allowed].

Inductive StaleInputBehavior : Type := block_stale | recompile.
Definition stale_text (b : StaleInputBehavior) : string := match b with block_stale => "block" | recompile => "recompile" end.
Definition STALE_INPUT_BEHAVIORS : list string := map stale_text [block_stale; recompile].

(** The fields before the digest. *)
Record TaskEnvelopeSpec : Type := EnvelopeSpec
  { te_task_id : string;
    te_plan_id : string;
    te_iteration_id : string;
    te_repository_id : string;
    te_baseline_id : string;
    te_objective : string;
    te_expected_output : string;
    te_acceptance_criteria : list string;
    te_dependency_task_ids : list string;
    te_required_gate_ids : list string;
    te_input_node_revisions : list (string * number);
    te_context_bundle_id : string;
    te_context_bundle_digest : string;
    te_protected_context_fields : list string;
    te_allowed_read_paths : list string;
    te_proposed_write_paths : list string;
    te_state_read_fields : list string;
    te_state_proposal_fields : list string;
    te_tools : list GrantedTool;
    te_risk : PolicyRisk;
    te_required_approval_digests : list string;
    te_external_side_effect : ExternalSideEffectPolicy;
    te_idempotency_scope : string;
    te_loop_policy : LoopPolicy;
    te_baseline_commit : string;
    te_input_digest : string;
    te_stale_input_behavior : StaleInputBehavior }.

Record TaskEnvelope : Type := Envelope { te_spec : TaskEnvelopeSpec; te_digest : string }.

(** ** The envelope as JSON *)

Definition loop_policy_json (p : LoopPolicy) : jsval :=
  JObj (policy_parts (NInt (max_steps p)) (NInt (max_tokens p)) (NInt (max_duration_ms p)) (NInt (max_tool_retries p))
          (NInt (window (repeat_detection p))) (NInt (identical_action_limit (repeat_detection p))) (termination p)
          (lp_policy_digest p) ++ [("digest", JStr (lp_digest p))]).

Definition envelope_fields (s : TaskEnvelopeSpec) : list (string * jsval) :=
  [("task_id", JStr (te_task_id s)); ("plan_id", JStr (te_plan_id s)); ("iteration_id", JStr (te_iteration_id s));
   ("repository_id", JStr (te_repository_id s)); ("baseline_id", JStr (te_baseline_id s));
   ("objective", JStr (te_objective s)); ("expected_output", JStr (te_expected_output s));
   ("acceptance_criteria", strings (te_acceptance_criteria s));
   ("dependency_task_ids", strings (te_dependency_task_ids s)); ("required_gate_ids", strings (te_required_gate_ids s));
   ("input_node_revisions", JObj (map (fun e => (e.1, JNum e.2)) (te_input_node_revisions s)));
   ("context_bundle_id", JStr (te_context_bundle_id s)); ("context_bundle_digest", JStr (te_context_bundle_digest s));
   ("protected_context_fields", strings (te_protected_context_fields s));
   ("allowed_read_paths", strings (te_allowed_read_paths s));
   ("proposed_write_paths", strings (te_proposed_write_paths s));
   ("state_read_fields", strings (te_state_read_fields s));
   ("state_proposal_fields", strings (te_state_proposal_fields s));
   ("tools", JArr (map tool_json (te_tools s))); ("risk", JStr (risk_text (te_risk s)));
   ("required_approval_digests", strings (te_required_approval_digests s));
   ("external_side_effect", JStr (side_effect_text (te_external_side_effect s)));
   ("idempotency_scope", JStr (te_idempotency_scope s)); ("loop_policy", loop_policy_json (te_loop_policy s));
   ("baseline_commit", JStr (te_baseline_commit s)); ("input_digest", JStr (te_input_digest s));
   ("stale_input_behavior", JStr (stale_text (te_stale_input_behavior s)))].

Definition envelope_json (e : TaskEnvelope) : jsval := JObj (envelope_fields (te_spec e) ++ [("digest", JStr (te_digest e))]).

(** ** Structural validation *)

Definition isNonEmptyString (value : jsval) : bool := match value with JStr s => negb (bool_decide (s = "")) | _ => false end.
Definition isStringArray (value : jsval) : bool := match value with JArr l => forallb isNonEmptyString l | _ => false end.
Definition is_digest (value : jsval) : bool := match value with JStr s => re_match digest_regex s | _ => false end.
(** [DIGEST_PATTERN.test(value)], which reads an array of one value as the value. *)
Fixpoint tests_digest (value : jsval) : bool :=
  match value with JStr s => re_match digest_regex s | JArr [v] => tests_digest v | _ => false end.
Definition isDigestArray (value : jsval) : bool := match value with JArr l => forallb is_digest l | _ => false end.
(** An entry is an object, or an array, which has no name. *)
Definition isGrantedToolArray (value : jsval) : bool :=
  match value with
  | JArr l => forallb (fun v => match v with JObj f => isNonEmptyString (jfield f "name") | _ => false end) l
  | _ => false
  end.
Definition isNodeRevisionMap (value : jsval) : bool :=
  match value with
  | JObj m => forallb (fun e => match e.2 with JNum n => positiveInteger n | _ => false end) m
  | _ => false
  end.
Definition one_of (texts : list string) (value : jsval) : bool := match value with JStr s => mem s texts | _ => false end.

Definition isTaskEnvelope (value : jsval) : bool :=
  match value with
  | JObj f =>
      forallb (fun key => isNonEmptyString (jfield f key))
        ["task_id"; "plan_id"; "iteration_id"; "repository_id"; "baseline_id"; "objective"; "expected_output"] &&
      forallb (fun key => isStringArray (jfield f key)) ["acceptance_criteria"; "dependency_task_ids"; "required_gate_ids"] &&
      isNodeRevisionMap (jfield f "input_node_revisions") && isNonEmptyString (jfield f "context_bundle_id") &&
      tests_digest (jfield f "context_bundle_digest") &&
      forallb (fun key => isStringArray (jfield f key))
        ["protected_context_fields"; "allowed_read_paths"; "proposed_write_paths"; "state_read_fields";
         "state_proposal_fields"] &&
      isGrantedToolArray (jfield f "tools") && one_of (map risk_text POLICY_RISKS) (jfield f "risk") &&
      isDigestArray (jfield f "required_approval_digests") &&
      one_of EXTERNAL_SIDE_EFFECT_POLICIES (jfield f "external_side_effect") &&
      isNonEmptyString (jfield f "idempotency_scope") && isLoopPolicy (jfield f "loop_policy") &&
      isNonEmptyString (jfield f "baseline_commit") && tests_digest (jfield f "input_digest") &&
      one_of STALE_INPUT_BEHAVIORS (jfield f "stale_input_behavior") && is_digest (jfield f "digest")
  | _ => false
  end.

(** ** Building *)

Inductive envelope_error : Type :=
| EnvelopeInvalid | EnvelopePolicyError (e : policy_error) | EnvelopeCanonicalError (e : canonical_error).

Definition with_paths (s : TaskEnvelopeSpec) (reads writes : list string) (granted : list GrantedTool) : TaskEnvelopeSpec :=
  EnvelopeSpec (te_task_id s) (te_plan_id s) (te_iteration_id s) (te_repository_id s) (te_baseline_id s) (te_objective s)
    (te_expected_output s) (te_acceptance_criteria s) (te_dependency_task_ids s) (te_required_gate_ids s)
    (te_input_node_revisions s) (te_context_bundle_id s) (te_context_bundle_digest s) (te_protected_context_fields s)
    reads writes (te_state_read_fields s) (te_state_proposal_fields s) granted (te_risk s) (te_required_approval_digests s)
    (te_external_side_effect s) (te_idempotency_scope s) (te_loop_policy s) (te_baseline_commit s) (te_input_digest s)
    (te_stale_input_behavior s).

Section build.
Context `{Hash}.

Definition envelopeDigest (s : TaskEnvelopeSpec) : result envelope_error string :=
  map_err EnvelopeCanonicalError (contentDigest (JObj (envelope_fields s))).

Definition normalize_spec (s : TaskEnvelopeSpec) : result envelope_error TaskEnvelopeSpec :=
  reads ← map_err EnvelopePolicyError (mapM normalizeRepoRelativePath (te_allowed_read_paths s));
  writes ← map_err EnvelopePolicyError (mapM normalizeRepoRelativePath (te_proposed_write_paths s));
  Ok (with_paths s (sort_strings (dedup reads)) (sort_strings (dedup writes)) (js_sort tool_cmp (te_tools s))).

Definition buildTaskEnvelope (s : TaskEnvelopeSpec) : result envelope_error TaskEnvelope :=
  normalized ← normalize_spec s;
  digest ← envelopeDigest normalized;
  let envelope := Envelope normalized digest in
  _ ← reject_if (negb (isTaskEnvelope (envelope_json envelope))) EnvelopeInvalid;
  Ok envelope.
End build.

(* ------------------------------------------------------------------ *)
(** ** Normal form *)

Lemma normalize_fixed p q : normalizeRepoRelativePath p = Ok q -> normalizeRepoRelativePath q = Ok q.
Proof.
  intros Hq%normalize_try. unfold tryNormalizeRepoRelativePath in Hq.
  destruct (normalizeRepoRelativePath q); [congruence|done].
Qed.

(** The paths a list of declared paths names. *)
Definition names_path (declared : list string) (p : string) : Prop :=
  exists q, q ∈ declared /\ normalizeRepoRelativePath q = Ok p.

Lemma sorted_paths declared k p : mapM normalizeRepoRelativePath declared = Ok k ->
  p ∈ sort_strings (dedup k) <-> names_path declared p.
Proof. intros Hk. rewrite elem_of_sort_strings, elem_of_dedup. by apply elem_of_mapM. Qed.

Lemma sorted_paths_unique declared declared' k k' :
  mapM normalizeRepoRelativePath declared = Ok k -> mapM normalizeRepoRelativePath declared' = Ok k' ->
  (forall p, names_path declared p <-> names_path declared' p) ->
  sort_strings (dedup k) = sort_strings (dedup k').
Proof.
  intros Hk Hk' Hp. apply sort_strings_unique, NoDup_Permutation; [apply NoDup_dedup|apply NoDup_dedup|].
  intros p. specialize (Hp p). rewrite <- (sorted_paths _ _ _ Hk), <- (sorted_paths _ _ _ Hk') in Hp.
  by rewrite !elem_of_sort_strings in Hp.
Qed.

Lemma sorted_paths_again declared k : mapM normalizeRepoRelativePath declared = Ok k ->
  mapM normalizeRepoRelativePath (sort_strings (dedup k)) = Ok (sort_strings (dedup k)).
Proof.
  intros Hk. apply mapM_id, Forall_forall. intros p Hp. apply (sorted_paths _ _ _ Hk) in Hp as (q & _ & Hq). by eapply normalize_fixed.
Qed.

Lemma sort_dedup_again l : sort_strings (dedup (sort_strings (dedup l))) = sort_strings (dedup l).
Proof. rewrite (dedup_id (sort_strings _)); [apply sort_strings_idem|]. rewrite sort_strings_Permutation. apply NoDup_dedup. Qed.

Lemma tool_cmp_total : cmp_total tool_cmp.
Proof. intros x y. apply str_cmp_total. Qed.
Lemma tool_cmp_trans : cmp_trans tool_cmp.
Proof. intros x y z. apply str_cmp_trans. Qed.

Lemma tool_sort_again l : js_sort tool_cmp (js_sort tool_cmp l) = js_sort tool_cmp l.
Proof. apply js_sort_id, js_sort_StronglySorted; [apply tool_cmp_total|apply tool_cmp_trans]. Qed.

Lemma tool_sort_unique l l' : NoDup (map tool_name l) -> l ≡ₚ l' -> js_sort tool_cmp l = js_sort tool_cmp l'.
Proof.
  intros Hn Hp. apply js_sort_unique; [apply tool_cmp_total|apply tool_cmp_trans| |done].
  intros x y Hx Hy H1 H2. assert (En : tool_name x = tool_name y) by (by apply str_cmp_antisym).
  apply list_elem_of_lookup in Hx as (i & Hi), Hy as (j & Hj).
  assert (i = j) as ->; [|congruence]. eapply (NoDup_lookup (map tool_name l)); [done|..].
  - rewrite list_lookup_fmap, Hi. reflexivity.
  - rewrite list_lookup_fmap, Hj. cbn. by rewrite En.
Qed.

Lemma with_paths_with s r w t r' w' t' : with_paths (with_paths s r w t) r' w' t' = with_paths s r' w' t'.
Proof. reflexivity. Qed.

Section facts.
Context `{Hash}.

Lemma normalize_Ok s n : normalize_spec s = Ok n -> exists reads writes,
  mapM normalizeRepoRelativePath (te_allowed_read_paths s) = Ok reads /\
  mapM normalizeRepoRelativePath (te_proposed_write_paths s) = Ok writes /\
  n = with_paths s (sort_strings (dedup reads)) (sort_strings (dedup writes)) (js_sort tool_cmp (te_tools s)).
Proof.
  unfold normalize_spec. rewrite bind_Ok. intros (reads & Hr%map_err_Ok & E). rewrite bind_Ok in E.
  destruct E as (writes & Hw%map_err_Ok & [= <-]). by exists reads, writes.
Qed.

Lemma normalize_again s n : normalize_spec s = Ok n -> normalize_spec n = Ok n.
Proof.
  intros (reads & writes & Hr & Hw & ->)%normalize_Ok. unfold normalize_spec. cbn [te_allowed_read_paths te_proposed_write_paths te_tools with_paths].
  rewrite (sorted_paths_again _ _ Hr), (sorted_paths_again _ _ Hw). cbn [mbind result_bind map_err].
  by rewrite with_paths_with, !sort_dedup_again, tool_sort_again.
Qed.

(** Two specifications that differ in how they write their paths and order their tools. *)
Definition same_spec (s s' : TaskEnvelopeSpec) : Prop :=
  with_paths s [] [] [] = with_paths s' [] [] [] /\
  (forall p, names_path (te_allowed_read_paths s) p <-> names_path (te_allowed_read_paths s') p) /\
  (forall p, names_path (te_proposed_write_paths s) p <-> names_path (te_proposed_write_paths s') p) /\
  NoDup (map tool_name (te_tools s)) /\ te_tools s ≡ₚ te_tools s'.

Lemma normalize_same s s' n n' : same_spec s s' -> normalize_spec s = Ok n -> normalize_spec s' = Ok n' -> n = n'.
Proof.
  intros (He & Hr & Hw & Hn & Ht) (r & w & Er & Ew & ->)%normalize_Ok (r' & w' & Er' & Ew' & ->)%normalize_Ok.
  rewrite (sorted_paths_unique _ _ _ _ Er Er' Hr), (sorted_paths_unique _ _ _ _ Ew Ew' Hw), (tool_sort_unique _ _ Hn Ht).
  rewrite <- (with_paths_with s [] [] []), He. apply with_paths_with.
Qed.

Lemma build_Ok s e : buildTaskEnvelope s = Ok e <->
  normalize_spec s = Ok (te_spec e) /\ envelopeDigest (te_spec e) = Ok (te_digest e) /\ isTaskEnvelope (envelope_json e) = true.
Proof.
  unfold buildTaskEnvelope. rewrite bind_Ok. setoid_rewrite bind_Ok. setoid_rewrite reject_bind_Ok. split.
  - intros (n & Hn & d & Hd & Hv & [= <-]). apply negb_false_iff in Hv. done.
  - intros (Hn & Hd & Hv). exists (te_spec e). split; [done|]. exists (te_digest e). split; [done|].
    destruct e as [spec digest]. cbn in *. by rewrite Hv.
Qed.

(** ** Property *)

(** An envelope that is built validates and carries the digest of its own fields;
    its paths are exactly the canonical forms of the declared ones, in order and
    once; building it again gives it back; and so does any other way of writing
    the same paths and ordering the same tools. *)
Theorem envelope_canonical s e :
  buildTaskEnvelope s = Ok e ->
  isTaskEnvelope (envelope_json e) = true /\ envelopeDigest (te_spec e) = Ok (te_digest e) /\
  (forall p, p ∈ te_allowed_read_paths (te_spec e) <-> names_path (te_allowed_read_paths s) p) /\
  (forall p, p ∈ te_proposed_write_paths (te_spec e) <-> names_path (te_proposed_write_paths s) p) /\
  te_tools (te_spec e) ≡ₚ te_tools s /\
  buildTaskEnvelope (te_spec e) = Ok e /\
  (forall s' n', same_spec s s' -> normalize_spec s' = Ok n' -> buildTaskEnvelope s' = Ok e).
Proof.
  rewrite !build_Ok. intros (Hn & Hd & Hv). destruct (normalize_Ok _ _ Hn) as (r & w & Hr & Hw & E). split_and!; try done.
  - intros p. rewrite E. by apply sorted_paths.
  - intros p. rewrite E. by apply sorted_paths.
  - rewrite E. apply js_sort_Permutation.
  - by eapply normalize_again.
  - intros s' n' Hs Hn'. rewrite build_Ok, Hn'. by rewrite <- (normalize_same _ _ _ _ Hs Hn Hn').
Qed.
End facts.

(** A sample. *)
Definition sample_spec (reads : list string) : TaskEnvelopeSpec :=
  EnvelopeSpec "task_1" "plan_1" "iteration_1" "repository_1" "baseline_1" "objective" "output" ["works"] [] [] [("node_1", NInt 2)]
    "bundle_1" (hex_digits 64 1) [] reads ["src"] [] [] [Tool "b" None; Tool "a" None] low [] forbidden "scope" sample_loop_policy
    "0123456789" (hex_digits 64 2) block_stale.
Definition sample_envelope : option TaskEnvelope := Eval vm_compute in
  to_option (@buildTaskEnvelope toy_hash (sample_spec ["./src"; "docs"])).

Lemma envelope_canonical_witness :
  exists e, sample_envelope = Some e /\ @buildTaskEnvelope toy_hash (sample_spec ["./docs"; "src"]) = Ok e.
Proof.
  eexists. split; [reflexivity|].
  refine (proj2 (proj2 (proj2 (proj2 (proj2 (proj2 (@envelope_canonical toy_hash (sample_spec ["./src"; "docs"]) _ _))))))
    (sample_spec ["./docs"; "src"]) _ _ _).
  - vm_compute. reflexivity.
  - split; [reflexivity|]. split; [|split; [done|split; [|done]]].
    + intros p. split.
      * intros (q & [-> | ->%list_elem_of_singleton]%elem_of_cons & Hq); [exists "src"|exists "./docs"];
          (split; [set_solver|]); rewrite <- Hq; vm_compute; reflexivity.
      * intros (q & [-> | ->%list_elem_of_singleton]%elem_of_cons & Hq); [exists "docs"|exists "./src"];
          (split; [set_solver|]); rewrite <- Hq; vm_compute; reflexivity.
    + cbn. repeat constructor; set_solver.
  - vm_compute. reflexivity.
Defined.
