(* ===== verification/Secrets.v ===== *)
(** * Environment secret references

    [packages/runtime/src/secrets/environment-reference.ts]: references to
    environment variables in tool parameters, their resolution at the call and
    the redaction of their values from what the call leaves behind. *)

From S2P Require Import Prelude Regex Json.

(** ** Data *)

Inductive SecretErrorKind : Type :=
| invalid_secret_reference | undeclared_secret_parameter | unresolved_secret | secret_leak.
#[export] Instance SecretErrorKind_eq_dec : EqDecision SecretErrorKind.
Proof. solve_decision. Defined.
Abbreviation secret_result A := (result SecretErrorKind A).

Record ReferenceSite : Type := Site { site_path : string; site_name : string }.

(** [values] is the [Map] of resolved names in insertion order. *)
Record ResolvedSecrets : Type := Resolved { rs_parameters : jsval; rs_values : list (string * string) }.

Definition SECRET_REFERENCE_KEY : string := "$env".
(** [^[A-Z][A-Z0-9_]{0,127}$] *)
Definition SECRET_NAME_PATTERN : re :=
  RCat (RCls is_upper) (RUpto (RCls (fun a => is_upper a || is_digit a || is_one_of "_" a)) 127).
Definition REDACTED_SECRET : string := "[redacted:secret]".

(** ** References *)

(** The name [value] refers to, when [isSecretReference(value)]. *)
Definition secret_reference (value : jsval) : option string :=
  match value with
  | JObj [(key, JStr name)] =>
      if decide (key = SECRET_REFERENCE_KEY) then if re_match SECRET_NAME_PATTERN name then Some name else None else None
  | _ => None
  end.

Definition isSecretReference (value : jsval) : bool :=
  match secret_reference value with Some _ => true | None => false end.

Definition index_path (path : string) (index : Z) : string := path +:+ "[" +:+ dec index +:+ "]".
Definition key_path (path key : string) : string := path +:+ "." +:+ key.

Fixpoint collectReferences (value : jsval) (path : string) : list ReferenceSite :=
  match secret_reference value with
  | Some name => [Site path name]
  | None =>
      match value with
      | JArr values =>
          (fix go (index : Z) (l : list jsval) : list ReferenceSite :=
             match l with
             | [] => []
             | entry :: l' => collectReferences entry (index_path path index) ++ go (index + 1)%Z l'
             end) 0%Z values
      | JObj fields => concat (map (fun e => collectReferences e.2 (key_path path e.1)) fields)
      | _ => []
      end
  end.

Definition findSecretReferences (parameters : jsval) : list ReferenceSite := collectReferences parameters "".

(** ** Resolution *)

Definition is_path_separator (a : ascii) : bool := is_one_of ".[" a.

(** [s.split(/[.[]/u)[0]] *)
Fixpoint first_segment (s : string) : string :=
  match s with
  | EmptyString => ""
  | String a s' => if is_path_separator a then "" else String a (first_segment s')
  end.

(** [path.replace(/^\./u, "")] *)
Definition drop_leading_dot (path : string) : string :=
  match path with String a s => if decide (a = "."%char) then s else path | EmptyString => "" end.

Definition topLevel (path : string) : string := first_segment (drop_leading_dot path).

Definition resolve_site (declared : list string) (env : string -> option string)
    (values : list (string * string)) (site : ReferenceSite) : secret_result (list (string * string)) :=
  if negb (mem (topLevel (site_path site)) declared) then Err undeclared_secret_parameter
  else
    match env (site_name site) with
    | None | Some "" => Err unresolved_secret
    | Some value => Ok (omap_set values (site_name site) value)
    end.

(** The closure [resolve] of [resolveSecretParameters]. *)
Fixpoint resolve_value (values : list (string * string)) (value : jsval) : secret_result jsval :=
  match secret_reference value with
  | Some name =>
      match omap_get values name with Some v => Ok (JStr v) | None => Err invalid_secret_reference end
  | None =>
      match value with
      | JArr items => l ← mapM (resolve_value values) items; Ok (JArr l)
      | JObj fields => l ← mapM (fun e => v ← resolve_value values e.2; Ok (e.1, v)) fields; Ok (JObj l)
      | _ => Ok value
      end
  end.

Definition resolveSecretParameters (parameters : jsval) (declared : list string) (env : string -> option string) :
    secret_result ResolvedSecrets :=
  values ← foldM (resolve_site declared env) [] (findSecretReferences parameters);
  resolved ← resolve_value values parameters;
  Ok (Resolved resolved values).

(** ** Redaction *)

(** [s.includes(sub)] *)
Fixpoint includes (s sub : string) : bool :=
  starts_with s sub || match s with String _ s' => includes s' sub | EmptyString => false end.

Definition holds_secret (secrets : list (string * string)) (s : string) : bool :=
  existsb (fun e => includes s e.2) secrets.

Fixpoint containsSecret (secrets : list (string * string)) (value : jsval) : bool :=
  match value with
  | JStr s => holds_secret secrets s
  | JArr values => existsb (containsSecret secrets) values
  | JObj fields => existsb (fun e => containsSecret secrets e.2) fields
  | _ => false
  end.

(** The recursion of [redactSecretValues] when [secrets] is not empty. *)
Fixpoint redact (secrets : list (string * string)) (value : jsval) : jsval :=
  match value with
  | JStr s => JStr (if holds_secret secrets s then REDACTED_SECRET else s)
  | JArr values => JArr (map (redact secrets) values)
  | JObj fields => JObj (map (fun e => (e.1, redact secrets e.2)) fields)
  | _ => value
  end.

Definition redactSecretValues (value : jsval) (secrets : list (string * string)) : jsval :=
  match secrets with [] => value | _ => redact secrets value end.

Definition assertNoSecretValues (value : jsval) (secrets : list (string * string)) : secret_result unit :=
  reject_if (containsSecret secrets value) secret_leak.

(* ------------------------------------------------------------------ *)
(** ** The references of a value *)

(** [refers v name]: a reference to [name] occurs in [v]. *)
Inductive refers : jsval -> string -> Prop :=
| refers_here v name : secret_reference v = Some name -> refers v name
| refers_item l v name : v ∈ l -> refers v name -> refers (JArr l) name
| refers_field l k v name : secret_reference (JObj l) = None -> (k, v) ∈ l -> refers v name -> refers (JObj l) name.
#[export] Hint Constructors refers : harness.

Lemma refers_reference v name name' : secret_reference v = Some name -> refers v name' -> name' = name.
Proof. intros Hv. destruct 1; [congruence|discriminate Hv|congruence]. Qed.

Lemma collect_reference v name path : secret_reference v = Some name -> collectReferences v path = [Site path name].
Proof. intros Hv. destruct v; simpl in *; try discriminate. by rewrite Hv. Qed.

Lemma collect_object l path : secret_reference (JObj l) = None ->
  collectReferences (JObj l) path = concat (map (fun e => collectReferences e.2 (key_path path e.1)) l).
Proof. intros Hl. cbn [collectReferences]. by rewrite Hl. Qed.

(** The sites of an array, its entries numbered from [i]. *)
Fixpoint item_sites (path : string) (i : Z) (l : list jsval) : list ReferenceSite :=
  match l with
  | [] => []
  | v :: l' => collectReferences v (index_path path i) ++ item_sites path (i + 1) l'
  end.

Lemma collect_array l path : collectReferences (JArr l) path = item_sites path 0 l.
Proof. cbn. generalize 0%Z. induction l as [|v l IH]; intros i; simpl; [done|]. by rewrite IH. Qed.

Lemma elem_of_item_sites path s l : forall i, s ∈ item_sites path i l <->
  exists j v, l !! j = Some v /\ s ∈ collectReferences v (index_path path (i + Z.of_nat j)).
Proof.
  induction l as [|v l IH]; intros i; simpl; [set_solver|]. rewrite elem_of_app, IH. split.
  - intros [Hs|(j & w & Hw & Hs)].
    + exists 0, v. by rewrite Z.add_0_r.
    + exists (S j), w. split; [done|]. by replace (i + Z.of_nat (S j))%Z with (i + 1 + Z.of_nat j)%Z by lia.
  - intros ([|j] & w & Hw & Hs); simpl in Hw.
    + left. injection Hw as <-. by rewrite Z.add_0_r in Hs.
    + right. exists j, w. split; [done|]. by replace (i + 1 + Z.of_nat j)%Z with (i + Z.of_nat (S j))%Z by lia.
Qed.

Lemma elem_of_object_sites l path s : secret_reference (JObj l) = None ->
  s ∈ collectReferences (JObj l) path <-> exists k v, (k, v) ∈ l /\ s ∈ collectReferences v (key_path path k).
Proof.
  intros Hl. rewrite collect_object, list_elem_of_In, in_concat by done.
  setoid_rewrite in_map_iff. split.
  - intros (? & ((k & v) & <- & Hin) & Hs). exists k, v. by rewrite !list_elem_of_In.
  - intros (k & v & Hin%list_elem_of_In & Hs%list_elem_of_In). eauto.
Qed.

(** A name is collected from every place it is referred to. *)
Lemma collect_refers v : forall path name,
  (exists s, s ∈ collectReferences v path /\ site_name s = name) <-> refers v name.
Proof.
  induction v as [| |b|n|t|l IH|l IH] using jsval_rect'; intros path name.
  1-5: split; [intros (? & Hs & _); cbn in Hs; set_solver|by inversion 1].
  - rewrite collect_array. setoid_rewrite elem_of_item_sites. rewrite Forall_lookup in IH. split.
    + intros (s & (j & v & Hv & Hs) & Hn). apply refers_item with v; [by eapply list_elem_of_lookup_2|].
      eapply IH; eauto.
    + inversion 1 as [|? v ? [j Hj]%list_elem_of_lookup Hr|]; subst; [done|].
      apply (IH _ _ Hj (index_path path (0 + Z.of_nat j))) in Hr as (s & ? & ?). eauto 10.
  - destruct (secret_reference (JObj l)) as [n|] eqn:Hl.
    { rewrite (collect_reference _ n) by done. split.
      - intros (s & ->%list_elem_of_singleton & <-). by apply refers_here.
      - intros Hr%(refers_reference _ n); [|done]. subst. eexists. split; [by apply list_elem_of_singleton|done]. }
    setoid_rewrite elem_of_object_sites; [|done]. rewrite Forall_forall in IH. split.
    + intros (s & (k & v & Hv & Hs) & Hn). eapply refers_field; [done..|]. eapply (IH (k, v)); eauto.
    + inversion 1 as [|?|? k v ? _ Hv Hr]; subst; [congruence|].
      apply (IH _ Hv (key_path path k)) in Hr as (s & ? & ?). eauto 10.
Qed.

(** ** Paths *)

(** What may follow a key in a path. *)
Definition at_boundary (rest : string) : Prop :=
  match rest with EmptyString => True | String a _ => is_path_separator a = true end.

Lemma collect_path v : forall path s, s ∈ collectReferences v path ->
  exists rest, site_path s = path +:+ rest /\ at_boundary rest.
Proof.
  induction v as [| |b|n|t|l IH|l IH] using jsval_rect'; intros path s Hs; try (cbn in Hs; set_solver).
  - rewrite collect_array, elem_of_item_sites in Hs. destruct Hs as (j & v & Hv & Hs).
    rewrite Forall_lookup in IH. destruct (IH _ _ Hv _ _ Hs) as (rest & -> & _).
    eexists. split; [unfold index_path; by rewrite <- !string_app_assoc|]. done.
  - destruct (secret_reference (JObj l)) as [n|] eqn:Hl.
    { rewrite (collect_reference _ n) in Hs by done. apply list_elem_of_singleton in Hs as ->. exists "". simpl.
      by rewrite string_app_nil_r. }
    rewrite elem_of_object_sites in Hs by done. destruct Hs as (k & v & Hv & Hs).
    rewrite Forall_forall in IH. destruct (IH _ Hv _ _ Hs) as (rest & -> & _).
    eexists. split; [unfold key_path; by rewrite <- !string_app_assoc|]. done.
Qed.

Lemma first_segment_app k rest : at_boundary rest -> first_segment (k +:+ rest) = first_segment k.
Proof.
  intros Hr. induction k as [|a k IH]; simpl.
  - destruct rest as [|a rest]; simpl in *; [done|]. by rewrite Hr.
  - by rewrite IH.
Qed.

Definition plain_key (k : string) : bool := negb (str_existsb is_path_separator k).

Lemma first_segment_plain k : plain_key k = true -> first_segment k = k.
Proof.
  unfold plain_key, str_existsb. rewrite negb_involutive. induction k as [|a k IH]; simpl; [done|].
  intros [Ha Hk]%andb_true_iff. apply negb_true_iff in Ha. by rewrite Ha, IH.
Qed.

(** The parameter a site is charged to is what precedes the first separator
    of its key. *)
Lemma site_top_level fields s : secret_reference (JObj fields) = None -> s ∈ findSecretReferences (JObj fields) ->
  exists k v, (k, v) ∈ fields /\ refers v (site_name s) /\ topLevel (site_path s) = first_segment k.
Proof.
  intros Hf Hs. unfold findSecretReferences in Hs. rewrite elem_of_object_sites in Hs by done.
  destruct Hs as (k & v & Hin & Hs). exists k, v. split; [done|]. split; [apply (collect_refers v (key_path "" k)); eauto|].
  destruct (collect_path _ _ _ Hs) as (rest & -> & Hr). unfold topLevel, key_path. cbn. by apply first_segment_app.
Qed.

Lemma top_level_site fields k v name : secret_reference (JObj fields) = None -> (k, v) ∈ fields -> refers v name ->
  exists s, s ∈ findSecretReferences (JObj fields) /\ site_name s = name /\ topLevel (site_path s) = first_segment k.
Proof.
  intros Hf Hin Hr. apply (collect_refers v (key_path "" k)) in Hr as (s & Hs & Hn). exists s. split; [|split; [done|]].
  - unfold findSecretReferences. rewrite elem_of_object_sites by done. eauto.
  - destruct (collect_path _ _ _ Hs) as (rest & -> & Hb). unfold topLevel, key_path. cbn. by apply first_segment_app.
Qed.

(** ** Resolution *)

Lemma mapM_Ok_map {E A B} (f : A -> result E B) (g : A -> B) l :
  (forall x, x ∈ l -> f x = Ok (g x)) -> mapM f l = Ok (map g l).
Proof.
  intros Hf. apply mapM_Ok. induction l as [|x l IH]; simpl; constructor.
  - apply Hf. left.
  - apply IH. intros. apply Hf. by right.
Qed.

(** The value with every reference replaced by what the environment holds. *)
Fixpoint substitute (env : string -> option string) (value : jsval) : jsval :=
  match secret_reference value with
  | Some name => JStr (default "" (env name))
  | None =>
      match value with
      | JArr items => JArr (map (substitute env) items)
      | JObj fields => JObj (map (fun e => (e.1, substitute env e.2)) fields)
      | _ => value
      end
  end.

Definition set_in (env : string -> option string) (name : string) : Prop := exists s, env name = Some s /\ s <> "".

Lemma resolve_value_spec env values v :
  (forall name, refers v name -> exists s, env name = Some s /\ omap_get values name = Some s) ->
  resolve_value values v = Ok (substitute env v).
Proof.
  induction v as [| |b|n|t|l IH|l IH] using jsval_rect'; intros Hv; try done.
  - cbn. rewrite (mapM_Ok_map _ (substitute env)); [done|]. rewrite Forall_forall in IH.
    intros v Hin. apply IH; [done|]. eauto with harness.
  - destruct (secret_reference (JObj l)) as [n|] eqn:Hl.
    { destruct (Hv n) as (s & Hs & Hg); [by apply refers_here|].
      cbn [resolve_value substitute]. by rewrite Hl, Hg, Hs. }
    cbn [resolve_value substitute]. rewrite Hl, (mapM_Ok_map _ (fun e => (e.1, substitute env e.2))); [done|].
    rewrite Forall_forall in IH. intros [k v] Hin.
    pose proof (IH _ Hin) as Hkv. cbn in *. rewrite Hkv; [done|]. eauto with harness.
Qed.

Definition good_site (declared : list string) (env : string -> option string) (s : ReferenceSite) : Prop :=
  topLevel (site_path s) ∈ declared /\ set_in env (site_name s).

Lemma resolve_site_Ok declared env values s values' :
  resolve_site declared env values s = Ok values' <->
  good_site declared env s /\ exists v, env (site_name s) = Some v /\ values' = omap_set values (site_name s) v.
Proof.
  unfold resolve_site, good_site, set_in. destruct (mem _ _) eqn:Hm; simpl; [apply mem_spec in Hm|apply mem_false in Hm].
  - destruct (env (site_name s)) as [[|a v]|]; split; try discriminate.
    + intros [[_ (v & [= <-] & Hv)] _]. done.
    + intros [= <-]. split; [split; [done|eexists; split; [done|done]]|eauto].
    + by intros [_ (v' & [= <-] & ->)].
    + by intros [_ (? & ? & _)].
  - split; [discriminate|]. by intros [[? _] _].
Qed.

Lemma resolve_sites_Ok declared env sites : forall values values',
  foldM (resolve_site declared env) values sites = Ok values' ->
  Forall (good_site declared env) sites /\
  forall name, omap_get values' name = if decide (name ∈ site_name <$> sites) then env name else omap_get values name.
Proof.
  induction sites as [|s sites IH]; intros values values' Hf; cbn in Hf.
  - inv_result. split; [constructor|]. intros name. case_decide; [set_solver|done].
  - inv_result. apply resolve_site_Ok in E as [Hs (v & Hv & ->)]. apply IH in Hf as [Hl Hg].
    split; [by constructor|]. intros name. rewrite Hg, omap_get_set. csimpl.
    destruct (decide (name ∈ site_name <$> sites)), (decide (name ∈ site_name s :: (site_name <$> sites))),
      (decide (site_name s = name)); set_solver.
Qed.

Lemma resolve_sites_total declared env sites : forall values,
  Forall (good_site declared env) sites -> exists values', foldM (resolve_site declared env) values sites = Ok values'.
Proof.
  induction sites as [|s sites IH]; intros values Hs; cbn; [eauto|]. apply Forall_cons in Hs as [Hs Hl].
  assert (exists values', resolve_site declared env values s = Ok values') as [values' ->].
  { destruct Hs as [Ht (v & Hv & Hn)]. eexists. apply resolve_site_Ok. split; [split; [done|by exists v]|eauto]. }
  by apply IH.
Qed.

Lemma site_names v name : name ∈ site_name <$> findSecretReferences v <-> refers v name.
Proof.
  rewrite list_elem_of_fmap, <- (collect_refers v ""). split; intros (s & ? & ?); eauto.
Qed.

(** The conditions of a resolution: every reference lies under a declared
    parameter and names a variable that is set. *)
Definition resolvable (fields : list (string * jsval)) (declared : list string) (env : string -> option string) : Prop :=
  forall k v name, (k, v) ∈ fields -> refers v name -> first_segment k ∈ declared /\ set_in env name.

Lemma resolvable_sites fields declared env : secret_reference (JObj fields) = None ->
  Forall (good_site declared env) (findSecretReferences (JObj fields)) <-> resolvable fields declared env.
Proof.
  intros Hf. rewrite Forall_forall. split.
  - intros Hs k v name Hin Hr. destruct (top_level_site _ _ _ _ Hf Hin Hr) as (s & Hsite & <- & <-). by apply Hs.
  - intros Hr s Hs. destruct (site_top_level _ _ Hf Hs) as (k & v & Hin & Hv & Ht). unfold good_site. rewrite Ht. eauto.
Qed.

(** What a resolution answers. *)
Lemma resolve_Ok parameters declared env r : resolveSecretParameters parameters declared env = Ok r ->
  rs_parameters r = substitute env parameters /\
  forall name s, omap_get (rs_values r) name = Some s <-> refers parameters name /\ env name = Some s.
Proof.
  unfold resolveSecretParameters. intros H. inv_result. apply resolve_sites_Ok in E as [Hs Hg].
  rewrite Forall_forall in Hs.
  assert (Hvals : forall name, refers parameters name -> omap_get a name = env name /\ set_in env name).
  { intros name Hr. rewrite Hg. pose proof Hr as Hr'. apply site_names in Hr.
    rewrite decide_True by done. split; [done|]. apply list_elem_of_fmap in Hr as (s & -> & Hin). by apply Hs. }
  rewrite (resolve_value_spec env) in E0.
  - inv_result. simpl. split; [done|]. intros name s. rewrite Hg. case_decide as Hd; rewrite site_names in Hd; [tauto|].
    simpl. split; [discriminate|tauto].
  - intros name Hr. destruct (Hvals _ Hr) as [-> (s & ? & _)]. eauto.
Qed.

Lemma resolve_total fields declared env : secret_reference (JObj fields) = None -> resolvable fields declared env ->
  exists r, resolveSecretParameters (JObj fields) declared env = Ok r.
Proof.
  intros Hf Hr%(resolvable_sites _ _ _ Hf). unfold resolveSecretParameters.
  destruct (resolve_sites_total declared env (findSecretReferences (JObj fields)) [] Hr) as (values & Hv).
  rewrite Hv. apply resolve_sites_Ok in Hv as [_ Hg]. cbn -[resolve_value].
  rewrite (resolve_value_spec env); [by eauto|]. intros name Hn. rewrite Hg. pose proof Hn as Hn'.
  apply site_names in Hn. rewrite decide_True by done. apply list_elem_of_fmap in Hn as (s & -> & Hin).
  rewrite Forall_forall in Hr. destruct (Hr _ Hin) as [_ (t & -> & _)]. eauto.
Qed.

(** ** Redaction *)

Lemma redact_clean secrets v : holds_secret secrets REDACTED_SECRET = false -> containsSecret secrets (redact secrets v) = false.
Proof.
  intros Hp. induction v as [| |b|n|t|l IH|l IH] using jsval_rect'; try done.
  - cbn. destruct (holds_secret secrets t) eqn:E; [apply Hp|apply E].
  - cbn. apply not_true_is_false. rewrite existsb_Exists. intros (v & Hv & Hc).
    apply list_elem_of_In, in_map_iff in Hv as (w & <- & Hw%list_elem_of_In). rewrite Forall_forall in IH.
    by rewrite IH in Hc.
  - cbn. apply not_true_is_false. rewrite existsb_Exists. intros (e & Hv & Hc).
    apply list_elem_of_In, in_map_iff in Hv as (w & <- & Hw%list_elem_of_In). rewrite Forall_forall in IH.
    cbn in Hc. by rewrite IH in Hc.
Qed.

Lemma no_secret_contained v : containsSecret [] v = false.
Proof.
  induction v as [| |b|n|t|l IH|l IH] using jsval_rect'; try done; cbn;
    apply not_true_is_false; rewrite existsb_Exists; intros (x & Hx & Hc); rewrite Forall_forall in IH; by rewrite IH in Hc.
Qed.

Lemma redactSecretValues_clean secrets v : holds_secret secrets REDACTED_SECRET = false ->
  containsSecret secrets (redactSecretValues v secrets) = false.
Proof. intros Hp. destruct secrets; [apply no_secret_contained|by apply redact_clean]. Qed.

Lemma redact_id secrets v : containsSecret secrets v = false -> redact secrets v = v.
Proof.
  induction v as [| |b|n|t|l IH|l IH] using jsval_rect'; intros Hc; try done; cbn in *.
  - by rewrite Hc.
  - f_equal. rewrite <- (map_id l) at 2. apply map_ext_in. intros v Hv. rewrite Forall_forall in IH.
    apply IH; [by apply list_elem_of_In|]. apply not_true_iff_false. intros Ht. apply not_true_iff_false in Hc. apply Hc.
    apply existsb_exists. eauto.
  - f_equal. rewrite <- (map_id l) at 2. apply map_ext_in. intros [k v] Hv. rewrite Forall_forall in IH. cbn.
    f_equal. apply (IH (k, v)); [by apply list_elem_of_In|]. apply not_true_iff_false. intros Ht.
    apply not_true_iff_false in Hc. apply Hc. apply existsb_exists. exists (k, v). eauto.
Qed.

(* ------------------------------------------------------------------ *)
(** ** Properties *)

(** Secrets enter a call only through declared parameters. The parameters are
    resolved exactly when every reference in them lies under a declared
    parameter and names a set, non-empty variable; the answer is then the
    parameters with each reference replaced by the value of its variable, and
    the values to redact are exactly those of the variables referred to. *)
Theorem secret_channel_exact fields declared env :
  secret_reference (JObj fields) = None -> Forall (fun e => plain_key e.1 = true) fields ->
  ((exists r, resolveSecretParameters (JObj fields) declared env = Ok r) <->
     forall k v name, (k, v) ∈ fields -> refers v name -> k ∈ declared /\ exists s, env name = Some s /\ s <> "") /\
  (forall r, resolveSecretParameters (JObj fields) declared env = Ok r ->
     rs_parameters r = substitute env (JObj fields) /\
     forall name s, omap_get (rs_values r) name = Some s <-> refers (JObj fields) name /\ env name = Some s).
Proof.
  intros Hf Hk. rewrite Forall_forall in Hk. split; [|apply resolve_Ok].
  assert (Hseg : resolvable fields declared env <->
    forall k v name, (k, v) ∈ fields -> refers v name -> k ∈ declared /\ set_in env name).
  { unfold resolvable. split; intros Hr k v name Hin Hn; destruct (Hr k v name Hin Hn) as [? ?];
      rewrite (first_segment_plain k) in * by apply (Hk _ Hin); done. }
  rewrite <- Hseg. split; [|by apply resolve_total].
  intros (r & Hr). apply resolvable_sites; [done|]. unfold resolveSecretParameters in Hr. inv_result.
  by apply resolve_sites_Ok in E as [? _].
Qed.

(** A key that holds a dot or a bracket is charged to the parameter its first
    segment names: under a declared parameter [k], the undeclared key [k.rest]
    receives the value of any variable the caller names. *)
Theorem undeclared_parameter_smuggled declared env k rest name s :
  k ∈ declared -> plain_key k = true -> re_match SECRET_NAME_PATTERN name = true -> env name = Some s -> s <> "" ->
  resolveSecretParameters (JObj [(key_path k rest, JObj [(SECRET_REFERENCE_KEY, JStr name)])]) declared env =
    Ok (Resolved (JObj [(key_path k rest, JStr s)]) [(name, s)]).
Proof.
  intros Hk Hp Hm He Hs.
  assert (Href : secret_reference (JObj [(SECRET_REFERENCE_KEY, JStr name)]) = Some name)
    by (cbn -[re_match SECRET_NAME_PATTERN]; by rewrite Hm).
  assert (Hno : secret_reference (JObj [(key_path k rest, JObj [(SECRET_REFERENCE_KEY, JStr name)])]) = None) by done.
  set (v := JObj [(SECRET_REFERENCE_KEY, JStr name)]) in *.
  unfold resolveSecretParameters, findSecretReferences. rewrite collect_object by done. cbn [map concat app fst snd].
  rewrite (collect_reference _ name), app_nil_r by done.
  assert (Hsite : resolve_site declared env [] (Site (key_path "" (key_path k rest)) name) = Ok [(name, s)]).
  { apply resolve_site_Ok. split; [split; [|by exists s]|by exists s].
    change (first_segment (k +:+ String "." rest) ∈ declared).
    rewrite first_segment_app by done. by rewrite first_segment_plain. }
  cbn [foldM]. rewrite Hsite. cbn -[resolve_value key_path].
  rewrite (resolve_value_spec env).
  - cbn [substitute]. rewrite Hno. cbn [map fst snd]. subst v. cbn [substitute]. by rewrite Href, He.
  - inversion 1 as [|?|l k' v' ? _ Hin Hr]; subst; [congruence|]. apply list_elem_of_singleton in Hin as [= -> ->].
    apply (refers_reference _ name) in Hr; [|done]. subst. exists s. split; [done|]. cbn. by rewrite decide_True.
Qed.

(** Redaction is complete on strings and changes nothing else: unless a
    secret is part of the placeholder itself, no string of a redacted value
    holds a secret, the guard against leaks passes, and a value without
    secrets is left as it is. *)
Theorem redaction_complete secrets v :
  holds_secret secrets REDACTED_SECRET = false ->
  assertNoSecretValues (redactSecretValues v secrets) secrets = Ok tt /\
  (assertNoSecretValues v secrets = Ok tt -> redactSecretValues v secrets = v).
Proof.
  intros Hp. unfold assertNoSecretValues. rewrite !reject_if_Ok. split; [by apply redactSecretValues_clean|].
  intros Hv. destruct secrets; [done|by apply redact_id].
Qed.

(** Redaction does not look at the keys of objects: a secret that a tool
    answers as a key stays in the evidence, and the guard against leaks lets
    it pass. *)
Theorem secret_keys_survive secrets name s v :
  (name, s) ∈ secrets -> containsSecret secrets v = false ->
  redactSecretValues (JObj [(s, v)]) secrets = JObj [(s, v)] /\
  assertNoSecretValues (JObj [(s, v)]) secrets = Ok tt.
Proof.
  intros Hs Hv. unfold assertNoSecretValues. cbn. rewrite orb_false_r, Hv. split; [|done].
  destruct secrets as [|e secrets]; [set_solver|]. cbn [redactSecretValues redact map fst snd].
  by rewrite redact_id.
Qed.

(* ------------------------------------------------------------------ *)
(** ** Witnesses *)

Definition sample_env (name : string) : option string := if decide (name = "API_TOKEN") then Some "s3cr3t" else None.
Definition token_reference : jsval := JObj [(SECRET_REFERENCE_KEY, JStr "API_TOKEN")].

Lemma secret_channel_exact_witness :
  exists r, resolveSecretParameters (JObj [("auth", JArr [token_reference]); ("id", JStr "7")]) ["auth"] sample_env = Ok r /\
    rs_parameters r = JObj [("auth", JArr [JStr "s3cr3t"]); ("id", JStr "7")] /\
    omap_get (rs_values r) "API_TOKEN" = Some "s3cr3t".
Proof.
  pose proof (secret_channel_exact [("auth", JArr [token_reference]); ("id", JStr "7")] ["auth"] sample_env
    eq_refl ltac:(by repeat constructor)) as [[_ Hok] Hr].
  destruct Hok as [r Heq].
  - intros k v name Hin Hn. apply elem_of_cons in Hin as [[= -> ->]|Hin%list_elem_of_singleton].
    + inversion Hn as [|? v' ? Hv Hn'|]; subst; [done|]. apply list_elem_of_singleton in Hv as ->.
      apply (refers_reference _ "API_TOKEN") in Hn'; [|reflexivity]. subst. split; [set_solver|by exists "s3cr3t"].
    + injection Hin as -> ->. by inversion Hn.
  - exists r. destruct (Hr r Heq) as [-> Hg]. split; [done|]. split; [reflexivity|]. apply Hg. split; [|done].
    eapply refers_field; [done|by left|]. eapply refers_item; [by left|]. by apply refers_here.
Defined.

Lemma undeclared_parameter_smuggled_witness :
  resolveSecretParameters (JObj [("auth.url", token_reference)]) ["auth"] sample_env =
    Ok (Resolved (JObj [("auth.url", JStr "s3cr3t")]) [("API_TOKEN", "s3cr3t")]).
Proof. apply (undeclared_parameter_smuggled ["auth"] sample_env "auth" "url"); [by left|done..]. Defined.

Lemma redaction_complete_witness :
  assertNoSecretValues (redactSecretValues (JArr [JStr "token s3cr3t"]) [("API_TOKEN", "s3cr3t")])
    [("API_TOKEN", "s3cr3t")] = Ok tt.
Proof. apply (redaction_complete [("API_TOKEN", "s3cr3t")] (JArr [JStr "token s3cr3t"])). reflexivity. Defined.

Lemma secret_keys_survive_witness :
  redactSecretValues (JObj [("s3cr3t", JBool true)]) [("API_TOKEN", "s3cr3t")] = JObj [("s3cr3t", JBool true)].
Proof. apply (secret_keys_survive [("API_TOKEN", "s3cr3t")] "API_TOKEN" "s3cr3t" (JBool true)); [by left|done]. Defined.
