(* ===== verification/ToolDefinition.v ===== *)
(** * Tool descriptors

    [packages/runtime/src/tools/definition.ts]: the versioned descriptor of a
    tool, its validation, the order of versions and the match of a resource
    against the declared patterns. *)

From S2P Require Import Prelude Regex Locator Json Policy Grant Secrets.

(** ** Data *)

Inductive ToolErrorKind : Type :=
| invalid_definition | unknown_tool | invalid_input | invalid_output | phase_not_allowed | resource_not_allowed
| parameter_out_of_bounds | grant_violation | approval_required | approval_invalid | quota_exceeded
| idempotency_key_required | invalid_intent_transition | reconciliation_required | tool_timeout | tool_failed
| uncertain_result.
#[export] Instance ToolErrorKind_eq_dec : EqDecision ToolErrorKind.
Proof. solve_decision. Defined.

(** What the tool pipeline throws, by class. *)
Inductive tool_thrown : Type :=
| ThrewTool (kind : ToolErrorKind) | ThrewSecret (kind : SecretErrorKind) | ThrewCanonical (e : canonical_error).
#[export] Instance tool_thrown_eq_dec : EqDecision tool_thrown.
Proof. solve_decision. Defined.
Abbreviation tool_result A := (result tool_thrown A).

Inductive SideEffectClass : Type := effect_none | effect_repository | effect_external.
Definition side_effect_name (c : SideEffectClass) : string :=
  match c with effect_none => "none" | effect_repository => "repository" | effect_external => "external" end.
Definition SIDE_EFFECT_CLASSES : list SideEffectClass := [effect_none; effect_repository; effect_external].

Inductive RetryClass : Type := retry_none | idempotent_only.
Definition retry_class_name (c : RetryClass) : string :=
  match c with retry_none => "none" | idempotent_only => "idempotent_only" end.
Definition RETRY_CLASSES : list RetryClass := [retry_none; idempotent_only].

Inductive ReconciliationMode : Type := by_provider | by_human.
Definition reconciliation_name (m : ReconciliationMode) : string :=
  match m with by_provider => "provider" | by_human => "manual" end.
Definition RECONCILIATION_MODES : list ReconciliationMode := [by_provider; by_human].

(** [^[a-z0-9][a-z0-9._-]{0,127}$] *)
Definition TOOL_NAME_PATTERN : re :=
  let first := fun a => is_lower a || is_digit a in
  RCat (RCls first) (RUpto (RCls (fun a => first a || is_one_of "._-" a)) 127).

(** A zero, or a run of digits that starts with no zero. *)
Definition version_number : re := RAlt (RChr "0") (RCat (RCls (in_range "1" "9")) (RStar (RCls is_digit))).
Definition version_tag : re := RPlus (RCls (fun a => is_alnum a || is_one_of ".-" a)).
Definition TOOL_VERSION_PATTERN : re :=
  RCat version_number (RCat (RChr ".") (RCat version_number (RCat (RChr ".") (RCat version_number
    (RCat (ROpt (RCat (RChr "-") version_tag)) (ROpt (RCat (RChr "+") version_tag))))))).

(** [^[a-zA-Z][a-zA-Z0-9_]{0,127}$] *)
Definition SECRET_PARAMETER_PATTERN : re :=
  RCat (RCls is_alpha) (RUpto (RCls (fun a => is_alnum a || is_one_of "_" a)) 127).

Record ToolDefinition : Type := Definition_
  { td_name : string;
    td_version : string;
    td_description : string;
    input_schema : list (string * jsval);
    output_schema : list (string * jsval);
    allowed_phases : list string;
    resource_patterns : list string;
    td_bounds : bounds;
    td_risk : PolicyRisk;
    side_effect_class : SideEffectClass;
    requires_approval : bool;
    redacted_output_fields : list string;
    secret_parameters : list string;
    timeout_ms : Z;
    retry_class : RetryClass;
    max_retries : Z;
    max_invocations_per_run : Z;
    idempotent : bool;
    td_reconciliation : ReconciliationMode;
    td_digest : string }.

(** The object [definition], before the digest is added. *)
Definition definition_fields (d : ToolDefinition) : list (string * jsval) :=
  [("name", JStr (td_name d)); ("version", JStr (td_version d)); ("description", JStr (td_description d));
   ("input_schema", JObj (input_schema d)); ("output_schema", JObj (output_schema d));
   ("allowed_phases", strings (allowed_phases d)); ("resource_patterns", strings (resource_patterns d));
   ("parameter_bounds", JObj (map (fun e => (e.1, JArr (map scalar_json e.2))) (td_bounds d)));
   ("risk", JStr (risk_text (td_risk d))); ("side_effect_class", JStr (side_effect_name (side_effect_class d)));
   ("requires_approval", JBool (requires_approval d)); ("redacted_output_fields", strings (redacted_output_fields d));
   ("secret_parameters", strings (secret_parameters d)); ("timeout_ms", JNum (NInt (timeout_ms d)));
   ("retry_class", JStr (retry_class_name (retry_class d))); ("max_retries", JNum (NInt (max_retries d)));
   ("max_invocations_per_run", JNum (NInt (max_invocations_per_run d))); ("idempotent", JBool (idempotent d));
   ("reconciliation", JStr (reconciliation_name (td_reconciliation d)))].

(** ** Validation *)

Definition invalid {A} : tool_result A := Err (ThrewTool invalid_definition).

Definition readToolEnum {T} (text : T -> string) (allowed : list T) (value : jsval) : tool_result T :=
  match value with
  | JStr s => match find_first (fun t => bool_decide (text t = s)) allowed with Some t => Ok t | None => invalid end
  | _ => invalid
  end.

Definition non_empty_text (value : jsval) : option string :=
  match value with JStr s => if decide (s = "") then None else Some s | _ => None end.

Definition readStringArray (value : jsval) (allowEmpty : bool) : tool_result (list string) :=
  match value with
  | JArr values =>
      match mapM non_empty_text values with
      | None => invalid
      | Some l => if negb allowEmpty && bool_decide (l = []) then invalid else Ok (sort_strings (dedup l))
      end
  | _ => invalid
  end.

Definition readPositiveInteger (value : jsval) (allowZero : bool) : tool_result Z :=
  match value with
  | JNum (NInt z) => if (z <? if allowZero then 0 else 1)%Z then invalid else Ok z
  | _ => invalid
  end.

Definition readSchema (value : jsval) : tool_result (list (string * jsval)) :=
  match value with JObj fields => Ok fields | _ => invalid end.

Definition readParameterBounds (value : jsval) : tool_result bounds :=
  match value with
  | JUndefined => Ok []
  | JObj fields =>
      l ← mapM (fun e =>
            match e.2 with
            | JArr ((_ :: _) as items) =>
                match mapM scalar_of items with Some scalars => Ok (e.1, scalars) | None => invalid end
            | _ => invalid
            end) fields;
      (* [bounds[key] = ..]: the key [__proto__] sets the prototype instead. *)
      Ok (filter (fun e => e.1 <> "__proto__") l)
  | _ => invalid
  end.

(** [value ?? fallback] *)
Definition or_else (value fallback : jsval) : jsval :=
  match value with JUndefined | JNull => fallback | _ => value end.

Definition readText (value : jsval) (legal : string -> bool) : tool_result string :=
  match value with JStr s => if legal s then Ok s else invalid | _ => invalid end.

Definition is_true_value (value : jsval) : bool := match value with JBool true => true | _ => false end.

Section normalize.
Context `{Hash}.

Definition seal_definition (d : ToolDefinition) : tool_result ToolDefinition :=
  digest ← map_err ThrewCanonical (contentDigest (JObj (definition_fields d)));
  Ok (Definition_ (td_name d) (td_version d) (td_description d) (input_schema d) (output_schema d) (allowed_phases d)
    (resource_patterns d) (td_bounds d) (td_risk d) (side_effect_class d) (requires_approval d) (redacted_output_fields d)
    (secret_parameters d) (timeout_ms d) (retry_class d) (max_retries d) (max_invocations_per_run d) (idempotent d)
    (td_reconciliation d) digest).

Definition normalizeToolDefinition (raw : jsval) : tool_result ToolDefinition :=
  match raw with
  | JObj f =>
      let get := jfield f in
      name ← readText (get "name") (re_match TOOL_NAME_PATTERN);
      version ← readText (get "version") (re_match TOOL_VERSION_PATTERN);
      description ← readText (get "description") (fun s => negb (bool_decide (trim s = "")));
      risk ← readToolEnum risk_text POLICY_RISKS (get "risk");
      effects ← readToolEnum side_effect_name SIDE_EFFECT_CLASSES (get "side_effect_class");
      retry ← readToolEnum retry_class_name RETRY_CLASSES (get "retry_class");
      reconcile ← readToolEnum reconciliation_name RECONCILIATION_MODES (get "reconciliation");
      let idempotent := is_true_value (get "idempotent") in
      maxRetries ← readPositiveInteger (or_else (get "max_retries") (JNum (NInt 0))) true;
      _ ← reject_if (match retry with retry_none => negb (maxRetries =? 0)%Z | idempotent_only => negb idempotent end)
            (ThrewTool invalid_definition);
      secrets ← readStringArray (or_else (get "secret_parameters") (JArr [])) true;
      _ ← reject_if (negb (forallb (re_match SECRET_PARAMETER_PATTERN) secrets)) (ThrewTool invalid_definition);
      input ← readSchema (get "input_schema");
      output ← readSchema (get "output_schema");
      phases ← readStringArray (get "allowed_phases") false;
      resources ← readStringArray (or_else (get "resource_patterns") (JArr [])) true;
      params ← readParameterBounds (get "parameter_bounds");
      redacted ← readStringArray (or_else (get "redacted_output_fields") (JArr [])) true;
      timeout ← readPositiveInteger (get "timeout_ms") false;
      quota ← readPositiveInteger (get "max_invocations_per_run") false;
      seal_definition (Definition_ name version description input output phases resources params risk effects
        (is_true_value (get "requires_approval")) redacted secrets timeout retry maxRetries quota idempotent reconcile "")
  | _ => invalid
  end.
End normalize.

(** ** Versions and resources *)

Fixpoint take_digits (s : string) : string :=
  match s with String a s' => if is_digit a then String a (take_digits s') else "" | EmptyString => "" end.

Definition leading_digits (s : string) : option Z :=
  match take_digits s with EmptyString => None | ds => Some (digits_value ds 0) end.

(** [Number.parseInt(s, 10)], exact; [None] is NaN. *)
Definition parse_int (s : string) : option Z :=
  match trim_start s with
  | String "-" ds => Z.opp <$> leading_digits ds
  | String "+" ds => leading_digits ds
  | ds => leading_digits ds
  end.

Definition before (c : ascii) (s : string) : string := default "" (head (split_on c s)).

(** The closure [parse] of [compareToolVersions]. *)
Definition version_parts (version : string) : list (option Z) :=
  map parse_int (split_on "." (before "-" (before "+" version))).

(** [parts[index] ?? 0] *)
Definition version_part (parts : list (option Z)) (index : nat) : option Z := default (Some 0%Z) (parts !! index).

Definition text_order (left right : string) : Z := if str_lt left right then -1 else if str_lt right left then 1 else 0.

Fixpoint compare_parts (a b : list (option Z)) (indices : list nat) (otherwise : Z) : Z :=
  match indices with
  | [] => otherwise
  | index :: rest =>
      match version_part a index, version_part b index with
      | Some x, Some y => if (x - y =? 0)%Z then compare_parts a b rest otherwise else (x - y)%Z
      | _, _ => 0%Z (* NaN, which is not zero and which a sort reads as zero *)
      end
  end.

(** Negative, zero or positive. *)
Definition compareToolVersions (left right : string) : Z :=
  compare_parts (version_parts left) (version_parts right) [0; 1; 2] (text_order left right).

(** [s.slice(0, -1)] *)
Definition drop_last (s : string) : string := str_take (String.length s - 1) s.
(** [s.endsWith("*")] *)
Fixpoint ends_with_star (s : string) : bool :=
  match s with EmptyString => false | String a EmptyString => bool_decide (a = "*"%char) | String _ s' => ends_with_star s' end.

Definition pattern_matches (resource pattern : string) : bool :=
  if ends_with_star pattern then starts_with resource (drop_last pattern) else bool_decide (pattern = resource).

Definition resourceMatchesPatterns (patterns : list string) (resource : string) : bool :=
  existsb (pattern_matches resource) patterns.

(* ------------------------------------------------------------------ *)
(** ** Legal descriptors *)

(** The lists a descriptor holds: sorted, without duplicates, no empty text. *)
Definition normal_list (l : list string) : Prop := sort_strings (dedup l) = l /\ "" ∉ l.

Section legal.
Context `{Hash}.

Record legal_definition (d : ToolDefinition) : Prop := {
  legal_name : re_match TOOL_NAME_PATTERN (td_name d) = true;
  legal_version : re_match TOOL_VERSION_PATTERN (td_version d) = true;
  legal_description : trim (td_description d) <> "";
  legal_retries : (0 <= max_retries d)%Z;
  legal_no_retry : retry_class d = retry_none -> max_retries d = 0%Z;
  legal_retry : retry_class d = idempotent_only -> idempotent d = true;
  legal_phases : normal_list (allowed_phases d) /\ allowed_phases d <> [];
  legal_resources : normal_list (resource_patterns d);
  legal_redactions : normal_list (redacted_output_fields d);
  legal_secrets : normal_list (secret_parameters d) /\
    Forall (fun s => re_match SECRET_PARAMETER_PATTERN s = true) (secret_parameters d);
  legal_bounds : Forall (fun e => e.1 <> "__proto__" /\ e.2 <> []) (td_bounds d);
  legal_timeout : (0 < timeout_ms d)%Z;
  legal_quota : (0 < max_invocations_per_run d)%Z;
  legal_digest : contentDigest (JObj (definition_fields d)) = Ok (td_digest d) }.
End legal.

Lemma normal_sorted l : "" ∉ l -> normal_list (sort_strings (dedup l)).
Proof.
  intros Hl. split; [|rewrite elem_of_sort_strings, elem_of_dedup; done].
  rewrite (dedup_id (sort_strings _)); [apply sort_strings_idem|]. rewrite sort_strings_Permutation. apply NoDup_dedup.
Qed.

Lemma mapM_texts values l : mapM non_empty_text values = Some l -> "" ∉ l.
Proof.
  intros Hm%mapM_Some. induction Hm as [|v s values l Hv _ IH]; [set_solver|].
  destruct v as [| | | |t| |]; cbn in Hv; try discriminate. case_decide; [discriminate|]. set_solver.
Qed.

Lemma mapM_nonempty_texts l : "" ∉ l -> mapM non_empty_text (map JStr l) = Some l.
Proof.
  intros Hl. apply mapM_Some. induction l as [|s l IH]; cbn; [constructor|]. constructor; [|apply IH; set_solver].
  cbn. rewrite decide_False by set_solver. done.
Qed.

Lemma readStringArray_Ok value allowEmpty l : readStringArray value allowEmpty = Ok l ->
  normal_list l /\ (allowEmpty = false -> l <> []).
Proof.
  unfold readStringArray, invalid. destruct value as [| | | | |values|]; try discriminate.
  destruct (mapM non_empty_text values) as [k|] eqn:E; [|discriminate].
  destruct (_ && _) eqn:Ee; [discriminate|]. intros [= <-]. split; [by apply normal_sorted, (mapM_texts values)|].
  intros ->. cbn in Ee. apply bool_decide_eq_false in Ee. destruct k as [|x k]; [done|].
  intros Hn. assert (x ∈ sort_strings (dedup (x :: k))) as Hx by (rewrite elem_of_sort_strings, elem_of_dedup; left).
  rewrite Hn in Hx. set_solver.
Qed.

Lemma readStringArray_strings l allowEmpty : normal_list l -> (allowEmpty = false -> l <> []) ->
  readStringArray (strings l) allowEmpty = Ok l.
Proof.
  intros [Hl He] Hn. unfold strings, readStringArray. rewrite mapM_nonempty_texts by done.
  destruct allowEmpty; cbn; [by rewrite Hl|]. rewrite bool_decide_false by auto. by rewrite Hl.
Qed.

Lemma readPositiveInteger_Ok value allowZero z : readPositiveInteger value allowZero = Ok z ->
  ((if allowZero then 0 else 1) <= z)%Z.
Proof. unfold readPositiveInteger, invalid. destruct value as [| | |[?| |]| | |]; try discriminate. case_match eqn:E; [discriminate|]. intros [= <-]. lia. Qed.

Lemma readText_Ok value legal s : readText value legal = Ok s -> value = JStr s /\ legal s = true.
Proof. unfold readText, invalid. destruct value; try discriminate. destruct (legal s0) eqn:E; [|discriminate]. by intros [= ->]. Qed.

Lemma mapM_scalars l : mapM scalar_of (map scalar_json l) = Some l.
Proof. apply mapM_Some. induction l as [|[] l IH]; cbn; constructor; done. Qed.

Lemma mapM_scalar_nonempty items l : items <> [] -> mapM scalar_of items = Some l -> l <> [].
Proof. intros Hi Hm%mapM_Some. destruct Hm; done. Qed.

Lemma readParameterBounds_Ok value b : readParameterBounds value = Ok b ->
  Forall (fun e => e.1 <> "__proto__" /\ e.2 <> []) b.
Proof.
  unfold readParameterBounds, invalid. destruct value as [| | | | | |fields]; try discriminate; [by intros [= <-]|].
  intros Hb. inv_result. rewrite Forall_forall. intros e [Hp He]%list_elem_of_filter. split; [done|].
  apply (elem_of_mapM _ _ _ _ E) in He as ((k & v) & _ & Hv). cbn in Hv.
  destruct v as [| | | | |[|i items]|]; try discriminate. destruct (mapM scalar_of (i :: items)) eqn:Es; [|discriminate].
  injection Hv as <-. cbn. eapply mapM_scalar_nonempty; [|exact Es]. done.
Qed.

Lemma readParameterBounds_json b : Forall (fun e => e.1 <> "__proto__" /\ e.2 <> []) b ->
  readParameterBounds (JObj (map (fun e => (e.1, JArr (map scalar_json e.2))) b)) = Ok b.
Proof.
  intros Hb. rewrite Forall_forall in Hb. cbn [readParameterBounds].
  assert (forall l : bounds, (forall e, e ∈ l -> e.2 <> []) ->
    mapM (fun e => match e.2 with
            | JArr ((_ :: _) as items) =>
                match mapM scalar_of items with Some scalars => Ok (e.1, scalars) | None => invalid end
            | _ => invalid
            end) (map (fun e => (e.1, JArr (map scalar_json e.2))) l) = Ok l) as Hm.
  { intros l Hl. apply mapM_Ok. induction l as [|[k v] l IH]; cbn; constructor.
    - cbn. destruct v as [|s v]; [by edestruct (Hl (k, [])); [left|]|].
      change (scalar_json s :: map scalar_json v) with (map scalar_json (s :: v)). rewrite mapM_scalars. done.
    - apply IH. intros e He. apply Hl. by right. }
  rewrite Hm by (intros e He; by apply Hb). cbn. rewrite list_filter_all; [done|]. intros e He. by apply Hb.
Qed.

Section canonical.
Context `{Hash}.

Lemma seal_definition_Ok d d' : seal_definition d = Ok d' ->
  definition_fields d' = definition_fields d /\ contentDigest (JObj (definition_fields d')) = Ok (td_digest d').
Proof. unfold seal_definition. intros Hd. inv_result. apply map_err_Ok in E. split; [done|exact E]. Qed.

Lemma seal_definition_id d : contentDigest (JObj (definition_fields d)) = Ok (td_digest d) ->
  seal_definition d = Ok d.
Proof. intros Hd. unfold seal_definition. rewrite Hd. cbn. by destruct d. Qed.

Lemma normalize_legal raw d : normalizeToolDefinition raw = Ok d -> legal_definition d.
Proof.
  unfold normalizeToolDefinition. destruct raw as [| | | | | |f]; try discriminate. cbv zeta. intros Hd.
  inv_result. apply readText_Ok in E as [_ ?]. apply readText_Ok in E0 as [_ ?]. apply readText_Ok in E1 as [_ Hdesc].
  apply negb_true_iff, bool_decide_eq_false in Hdesc.
  repeat match goal with
  | H : readStringArray _ _ = Ok _ |- _ => apply readStringArray_Ok in H as [? ?]
  | H : readPositiveInteger _ _ = Ok _ |- _ => apply readPositiveInteger_Ok in H
  | H : readParameterBounds _ = Ok _ |- _ => apply readParameterBounds_Ok in H
  | H : negb _ = false |- _ => apply negb_false_iff in H
  end.
  unfold seal_definition in Hd. inv_result.
  match goal with Hd : map_err _ _ = Ok _ |- _ => apply map_err_Ok in Hd end.
  split; cbn; try done; try lia; try (by auto).
  all: try (intros ->; bool_hyps; done).
  split; [done|]. by apply forallb_Forall'.
Qed.

(** Reading back the fields of a legal descriptor gives the descriptor. *)
Lemma normalize_fields d : legal_definition d -> normalizeToolDefinition (JObj (definition_fields d)) = Ok d.
Proof.
  intros [Hname Hversion Hdesc Hret Hno Hre [Hph Hphn] Hres Hred [Hsec Hsecp] Hb Ht Hq Hd].
  unfold normalizeToolDefinition. cbv zeta. set (F := definition_fields d).
  change (jfield F "name") with (JStr (td_name d)). change (jfield F "version") with (JStr (td_version d)).
  change (jfield F "description") with (JStr (td_description d)).
  change (jfield F "input_schema") with (JObj (input_schema d)).
  change (jfield F "output_schema") with (JObj (output_schema d)).
  change (jfield F "allowed_phases") with (strings (allowed_phases d)).
  change (or_else (jfield F "resource_patterns") (JArr [])) with (strings (resource_patterns d)).
  change (jfield F "parameter_bounds") with (JObj (map (fun e => (e.1, JArr (map scalar_json e.2))) (td_bounds d))).
  change (jfield F "risk") with (JStr (risk_text (td_risk d))).
  change (jfield F "side_effect_class") with (JStr (side_effect_name (side_effect_class d))).
  change (jfield F "requires_approval") with (JBool (requires_approval d)).
  change (or_else (jfield F "redacted_output_fields") (JArr [])) with (strings (redacted_output_fields d)).
  change (or_else (jfield F "secret_parameters") (JArr [])) with (strings (secret_parameters d)).
  change (jfield F "timeout_ms") with (JNum (NInt (timeout_ms d))).
  change (jfield F "retry_class") with (JStr (retry_class_name (retry_class d))).
  change (or_else (jfield F "max_retries") (JNum (NInt 0))) with (JNum (NInt (max_retries d))).
  change (jfield F "max_invocations_per_run") with (JNum (NInt (max_invocations_per_run d))).
  change (jfield F "idempotent") with (JBool (idempotent d)).
  change (jfield F "reconciliation") with (JStr (reconciliation_name (td_reconciliation d))).
  assert (Htext : forall s legal, legal s = true -> readText (JStr s) legal = Ok s) by (intros s legal Hs; cbn; by rewrite Hs).
  rewrite (Htext _ _ Hname). cbn [mbind result_bind]. rewrite (Htext _ _ Hversion). cbn [mbind result_bind].
  rewrite Htext by (by rewrite bool_decide_false). cbn [mbind result_bind].
  assert (readToolEnum risk_text POLICY_RISKS (JStr (risk_text (td_risk d))) = Ok (td_risk d)) as -> by (by destruct (td_risk d)).
  assert (readToolEnum side_effect_name SIDE_EFFECT_CLASSES (JStr (side_effect_name (side_effect_class d))) =
    Ok (side_effect_class d)) as -> by (by destruct (side_effect_class d)).
  assert (readToolEnum retry_class_name RETRY_CLASSES (JStr (retry_class_name (retry_class d))) = Ok (retry_class d)) as ->
    by (by destruct (retry_class d)).
  assert (readToolEnum reconciliation_name RECONCILIATION_MODES (JStr (reconciliation_name (td_reconciliation d))) =
    Ok (td_reconciliation d)) as -> by (by destruct (td_reconciliation d)).
  assert (Hpos : forall z (zero : bool), ((if zero then 0 else 1) <= z)%Z -> readPositiveInteger (JNum (NInt z)) zero = Ok z).
  { intros z zero Hz. cbn. rewrite (proj2 (Z.ltb_ge _ _)) by done. done. }
  cbn [mbind result_bind]. rewrite (Hpos _ true) by done. cbn [mbind result_bind].
  assert (match retry_class d with
          | retry_none => negb (max_retries d =? 0)%Z
          | idempotent_only => negb (is_true_value (JBool (idempotent d)))
          end = false) as ->.
  { destruct (retry_class d); [by rewrite Hno|by rewrite Hre]. }
  cbn [reject_if mbind result_bind]. rewrite !readStringArray_strings by done. cbn [mbind result_bind].
  rewrite (proj2 (forallb_Forall' _ _)) by done. cbn [negb reject_if mbind result_bind readSchema].
  rewrite readParameterBounds_json by done. cbn [mbind result_bind].
  rewrite !(Hpos _ false) by lia. cbn [mbind result_bind].
  assert (forall b, is_true_value (JBool b) = b) as Hbool by (by intros []). rewrite !Hbool.
  unfold seal_definition. change (contentDigest (JObj (definition_fields d)) = Ok (td_digest d)) in Hd.
  match goal with |- context [contentDigest (JObj (definition_fields ?x))] =>
    change (definition_fields x) with (definition_fields d) end.
  rewrite Hd. cbn. by destruct d.
Qed.
End canonical.

(* ------------------------------------------------------------------ *)
(** ** The order of versions *)

Definition part (version : string) (index : nat) : Z := default 0%Z (version_part (version_parts version) index).
Definition part_cmp (index : nat) (left right : string) : Z := (part left index - part right index)%Z.

(** The order on the numbers of the versions, then on their text. *)
Definition version_cmp : string -> string -> Z :=
  then_cmp (part_cmp 0) (then_cmp (part_cmp 1) (then_cmp (part_cmp 2) text_order)).

Lemma text_order_sgn x y : text_order x y = Z.sgn (str_cmp x y).
Proof.
  unfold text_order, str_lt, str_cmp. rewrite (String.compare_antisym y x). by destruct (String.compare x y).
Qed.

Lemma part_cmp_flip i : cmp_flip (part_cmp i).
Proof. intros x y. unfold part_cmp. lia. Qed.
Lemma part_cmp_trans i : cmp_trans (part_cmp i).
Proof. intros x y z. unfold part_cmp. lia. Qed.
Lemma text_order_flip : cmp_flip text_order.
Proof. intros x y. rewrite !text_order_sgn. pose proof (str_cmp_flip x y). lia. Qed.
Lemma text_order_trans : cmp_trans text_order.
Proof. intros x y z. rewrite !text_order_sgn. pose proof (str_cmp_trans x y z). lia. Qed.

Lemma version_cmp_flip : cmp_flip version_cmp.
Proof. repeat apply then_cmp_flip; auto using part_cmp_flip, text_order_flip. Qed.
Lemma version_cmp_trans : cmp_trans version_cmp.
Proof.
  repeat (apply then_cmp_trans; [apply part_cmp_flip|apply part_cmp_trans|]). apply text_order_trans.
Qed.
Lemma version_cmp_total : cmp_total version_cmp.
Proof. apply cmp_flip_total, version_cmp_flip. Qed.

Lemma version_cmp_antisym x y : (version_cmp x y <= 0)%Z -> (version_cmp y x <= 0)%Z -> x = y.
Proof.
  intros H1 H2. pose proof (version_cmp_flip x y). assert (version_cmp x y = 0)%Z as H0 by lia. clear -H0.
  unfold version_cmp, then_cmp in H0.
  destruct (Z.eqb_spec (part_cmp 0 x y) 0), (Z.eqb_spec (part_cmp 1 x y) 0), (Z.eqb_spec (part_cmp 2 x y) 0); try lia.
  rewrite text_order_sgn in H0. by apply str_cmp_eq, Z.sgn_null_iff.
Qed.

(** A version whose numbers can be read. *)
Definition readable (version : string) : Prop := Forall (fun p => is_Some p) (version_parts version).

Lemma readable_part v i : readable v -> version_part (version_parts v) i = Some (part v i).
Proof.
  intros Hv. unfold part, version_part. destruct (version_parts v !! i) as [p|] eqn:E; [|done]. cbn.
  unfold readable in Hv. rewrite Forall_lookup in Hv. by destruct (Hv _ _ E) as [z ->].
Qed.

Lemma compare_versions x y : readable x -> readable y -> compareToolVersions x y = version_cmp x y.
Proof.
  intros Hx Hy. unfold compareToolVersions, version_cmp, then_cmp, part_cmp, compare_parts.
  rewrite !readable_part by done. done.
Qed.

Lemma before_app c x y : no_char c x = true -> before c (x +:+ String c y) = x.
Proof. intros Hx. unfold before. by rewrite split_on_app. Qed.
Lemma before_none c x : no_char c x = true -> before c x = x.
Proof. intros Hx. unfold before. by rewrite split_on_no_char. Qed.

Lemma re_all_upto q r n : re_all q r -> re_all q (RUpto r n).
Proof. intros Hr. induction n; cbn; auto. Qed.

(** Neither a tool name nor a version holds the sign that joins them. *)
Lemma tool_name_chars s : re_match TOOL_NAME_PATTERN s = true -> no_char "@" s = true.
Proof. intros Hs. eapply re_all_forallb; [|exact Hs]. split; [all_chars|apply re_all_upto; all_chars]. Qed.

Lemma tool_version_chars s : re_match TOOL_VERSION_PATTERN s = true -> no_char "@" s = true.
Proof. intros Hs. eapply re_all_forallb; [|exact Hs]. repeat split; all_chars. Qed.

Lemma digits_read s : s <> "" -> str_forallb is_digit s = true -> is_Some (parse_int s).
Proof.
  intros Hn Hs. unfold parse_int.
  assert (trim_start s = s) as ->.
  { destruct s as [|a s]; [done|]. cbn in *. apply andb_true_iff in Hs as [Ha _].
    assert (negb (is_space a) = true) as Hsp%negb_true_iff by (clear Hn; revert a Ha; all_chars). by rewrite Hsp. }
  assert (Hl : is_Some (leading_digits s)).
  { unfold leading_digits. destruct s as [|a s]; [done|]. cbn in *. apply andb_true_iff in Hs as [-> _]. eauto. }
  destruct s as [|a s]; [done|]. cbn in Hs. apply andb_true_iff in Hs as [Ha _].
  assert (a <> "-"%char /\ a <> "+"%char) as [? ?] by (split; intros ->; discriminate Ha).
  destruct a as [[] [] [] [] [] [] [] []]; try done.
Qed.

(** The numbers of a legal version can be read. *)
Lemma version_number_text s : re_match version_number s = true -> s <> "" /\ str_forallb is_digit s = true.
Proof.
  intros Hs. split; [by intros ->|]. eapply re_all_forallb; [|exact Hs]. repeat split; all_chars.
Qed.

Lemma re_match_cat r1 r2 s : re_match (RCat r1 r2) s = true ->
  exists s1 s2, s = s1 +:+ s2 /\ re_match r1 s1 = true /\ re_match r2 s2 = true.
Proof.
  rewrite re_match_spec. inversion 1; subst. eexists _, _. by rewrite !re_match_spec.
Qed.

Lemma re_match_chr c s : re_match (RChr c) s = true -> s = String c "".
Proof. rewrite re_match_spec. inversion 1 as [|a p Ha| | | | |]; subst. apply bool_decide_eq_true in Ha. by subst. Qed.

Lemma re_match_opt r s : re_match (ROpt r) s = true -> s = "" \/ re_match r s = true.
Proof. rewrite !re_match_spec. inversion 1 as [| | |? ? ? He|? ? ? He| |]; subst; [left; by inversion He|by right]. Qed.

Lemma digits_no_char c s : is_digit c = false -> str_forallb is_digit s = true -> no_char c s = true.
Proof.
  intros Hc. apply str_forallb_impl. intros a Ha. apply negb_true_iff, bool_decide_eq_false. intros ->. congruence.
Qed.

Lemma legal_version_shape v : re_match TOOL_VERSION_PATTERN v = true ->
  exists a b c pre build, v = a +:+ "." +:+ b +:+ "." +:+ c +:+ pre +:+ build /\
    Forall (fun s => s <> "" /\ str_forallb is_digit s = true) [a; b; c] /\
    (pre = "" \/ exists t, pre = String "-" t /\ no_char "+" t = true) /\ (build = "" \/ exists t, build = String "+" t).
Proof.
  intros (a & ? & -> & Ha & (? & ? & -> & ->%re_match_chr & (b & ? & -> & Hb & (? & ? & -> & ->%re_match_chr &
    (c & ? & -> & Hc & (pre & build & -> & Hp & Hbu)%re_match_cat)%re_match_cat)%re_match_cat)%re_match_cat)%re_match_cat)%re_match_cat.
  exists a, b, c, pre, build. split; [done|]. split; [repeat constructor; by apply version_number_text|]. split.
  - apply re_match_opt in Hp as [->|(? & t & -> & ->%re_match_chr & Ht)%re_match_cat]; [by left|]. right. exists t. split; [done|].
    eapply re_all_forallb; [|exact Ht]. repeat split; all_chars.
  - apply re_match_opt in Hbu as [->|(? & t & -> & ->%re_match_chr & _)%re_match_cat]; [by left|]. right. by exists t.
Qed.

Lemma legal_version_readable v : re_match TOOL_VERSION_PATTERN v = true -> readable v.
Proof.
  intros (a & b & c & pre & build & -> & Hd & Hp & Hb)%legal_version_shape. unfold readable, version_parts.
  apply Forall_cons in Hd as [[Ha Da] [[Hb' Db] [[Hc Dc] _]%Forall_cons]%Forall_cons].
  assert (Hplus : before "+" (a +:+ "." +:+ b +:+ "." +:+ c +:+ pre +:+ build) = a +:+ "." +:+ b +:+ "." +:+ c +:+ pre).
  { assert (no_char "+" (a +:+ "." +:+ b +:+ "." +:+ c +:+ pre) = true) as Hn.
    { rewrite !no_char_app, (digits_no_char _ a), (digits_no_char _ b), (digits_no_char _ c) by done. cbn. destruct Hp as [->|(t & -> & Ht)]; [done|]. by apply no_char_cons. }
    destruct Hb as [->|(t & ->)].
    - rewrite string_app_nil_r. by apply before_none.
    - rewrite !string_app_assoc. rewrite !string_app_assoc in Hn. by apply before_app. }
  rewrite Hplus.
  assert (Hminus : before "-" (a +:+ "." +:+ b +:+ "." +:+ c +:+ pre) = a +:+ "." +:+ b +:+ "." +:+ c).
  { assert (no_char "-" (a +:+ "." +:+ b +:+ "." +:+ c) = true) as Hn by (rewrite !no_char_app, (digits_no_char _ a), (digits_no_char _ b), (digits_no_char _ c) by done; done).
    destruct Hp as [->|(t & -> & _)].
    - rewrite string_app_nil_r. by apply before_none.
    - rewrite !string_app_assoc. rewrite !string_app_assoc in Hn. by apply before_app. }
  rewrite Hminus. cbn [String.append].
  rewrite split_on_app, split_on_app, split_on_no_char by (by apply digits_no_char).
  repeat constructor; by apply digits_read.
Qed.

(** A version with a tag reads as the release and follows it in the text. *)
Lemma before_tagged c r t : no_char c r = true -> c <> "-"%char ->
  before c (r +:+ String "-" t) = r +:+ String "-" (before c t).
Proof.
  intros Hr Hc. induction r as [|a r IH]; cbn.
  - unfold before. cbn. rewrite decide_False by done. pose proof (split_on_nonnil c t). by destruct (split_on c t).
  - apply no_char_cons in Hr as [Ha Hr]. specialize (IH Hr). unfold before in *. cbn. rewrite decide_False by done.
    pose proof (split_on_nonnil c (r +:+ String "-" t)). destruct (split_on c _); [done|]. cbn in *. by rewrite IH.
Qed.

Lemma tagged_parts r t : no_char "+" r = true -> no_char "-" r = true ->
  version_parts (r +:+ String "-" t) = version_parts r.
Proof.
  intros Hp Hm. unfold version_parts. rewrite before_tagged by done. rewrite before_app by done.
  by rewrite (before_none "+"), (before_none "-").
Qed.

Lemma str_cmp_extend r a t : str_cmp r (r +:+ String a t) = (-1)%Z.
Proof.
  unfold str_cmp. induction r as [|b r IH]; [done|]. cbn.
  assert (Ascii.compare b b = Eq) as -> by (unfold Ascii.compare; apply N.compare_refl). exact IH.
Qed.

Lemma release_before_tag r t : readable r -> no_char "+" r = true -> no_char "-" r = true ->
  (compareToolVersions r (r +:+ String "-" t) < 0)%Z.
Proof.
  intros Hr Hp Hm. assert (readable (r +:+ String "-" t)) as Ht by (unfold readable; by rewrite tagged_parts).
  rewrite compare_versions by done. unfold version_cmp, then_cmp, part_cmp, part.
  rewrite !tagged_parts, !Z.sub_diag by done. cbn [Z.eqb]. by rewrite text_order_sgn, str_cmp_extend.
Qed.

(** ** Resources *)

Lemma ends_with_star_spec p : ends_with_star p = true <-> exists q, p = q +:+ "*".
Proof.
  induction p as [|a p IH]; cbn.
  - split; [done|]. intros ([|] & Hq); discriminate Hq.
  - destruct p as [|b p].
    + rewrite bool_decide_eq_true. split; [intros ->; by exists ""|]. intros ([|? [|]] & Hq); by injection Hq.
    + rewrite IH. split; intros (q & Hq); [exists (String a q); cbn; by rewrite Hq|].
      destruct q as [|c q]; [discriminate Hq|]. injection Hq as <- Hq. by exists q.
Qed.

Lemma drop_last_app q a : drop_last (q +:+ String a "") = q.
Proof.
  unfold drop_last. assert (String.length (q +:+ String a "") - 1 = String.length q) as ->.
  { induction q as [|b q IH]; cbn in *; [done|]. rewrite Nat.sub_0_r. destruct q; cbn in *; lia. }
  apply str_take_app.
Qed.

(** A resource is in scope when a pattern is it, or is a prefix of it and a star. *)
Lemma resource_scope patterns r : resourceMatchesPatterns patterns r = true <->
  exists p, p ∈ patterns /\ ((ends_with_star p = false /\ p = r) \/ exists q t, p = q +:+ "*" /\ r = q +:+ t).
Proof.
  unfold resourceMatchesPatterns. rewrite existsb_Exists. split; intros (p & Hp & Hm); exists p; (split; [done|]);
    unfold pattern_matches in *; destruct (ends_with_star p) eqn:E.
  - right. apply ends_with_star_spec in E as (q & ->). rewrite drop_last_app in Hm.
    apply starts_with_spec in Hm as (t & ->). eauto.
  - left. by apply bool_decide_eq_true in Hm.
  - destruct Hm as [[? _]|(q & t & -> & ->)]; [done|]. rewrite drop_last_app. apply starts_with_app.
  - destruct Hm as [[_ ->]|(q & t & -> & ->)]; [by apply bool_decide_eq_true|].
    assert (ends_with_star (q +:+ "*") = true) by (apply ends_with_star_spec; eauto). congruence.
Qed.

(* ------------------------------------------------------------------ *)
(** ** Properties *)

(** C34. Only legal descriptors pass the validation, and a descriptor is its own
    normal form: a name and a version in their patterns, sorted lists without
    duplicates, at least one phase, no retries unless declared idempotent,
    positive bounds, a digest of all of it; and reading the fields back gives
    the same descriptor with the same digest. *)
Theorem descriptor_canonical `{Hash} raw d : normalizeToolDefinition raw = Ok d ->
  legal_definition d /\ normalizeToolDefinition (JObj (definition_fields d)) = Ok d.
Proof. intros Hd%normalize_legal. split; [done|by apply normalize_fields]. Qed.

(** The comparison of versions is a strict total order on legal versions: it
    is antisymmetric, transitive and zero only on equal versions. *)
Theorem version_order_total x y z :
  re_match TOOL_VERSION_PATTERN x = true -> re_match TOOL_VERSION_PATTERN y = true -> re_match TOOL_VERSION_PATTERN z = true ->
  Z.sgn (compareToolVersions y x) = (- Z.sgn (compareToolVersions x y))%Z /\
  ((compareToolVersions x y <= 0)%Z -> (compareToolVersions y z <= 0)%Z -> (compareToolVersions x z <= 0)%Z) /\
  (compareToolVersions x y = 0%Z <-> x = y).
Proof.
  intros Hx%legal_version_readable Hy%legal_version_readable Hz%legal_version_readable.
  rewrite !compare_versions by done. split; [apply version_cmp_flip|]. split; [apply version_cmp_trans|].
  pose proof (version_cmp_flip x y). pose proof (version_cmp_antisym x y).
  split; [intros; lia || (apply version_cmp_antisym; lia)|]. intros ->. pose proof (version_cmp_flip y y). lia.
Qed.

(* ------------------------------------------------------------------ *)
(** ** Witnesses *)

Definition sample_raw : jsval :=
  JObj [("name", JStr "issues.create"); ("version", JStr "1.2.0"); ("description", JStr "Creates an issue");
        ("input_schema", JObj [("type", JStr "object")]); ("output_schema", JObj []);
        ("allowed_phases", JArr [JStr "verify"; JStr "implement"; JStr "verify"]);
        ("resource_patterns", JArr [JStr "issue:*"]); ("parameter_bounds", JObj [("priority", JArr [JNum (NInt 1); JNum (NInt 2)])]);
        ("risk", JStr "high"); ("side_effect_class", JStr "external"); ("requires_approval", JBool true);
        ("secret_parameters", JArr [JStr "auth"]); ("timeout_ms", JNum (NInt 5000)); ("retry_class", JStr "idempotent_only");
        ("max_retries", JNum (NInt 2)); ("max_invocations_per_run", JNum (NInt 3)); ("idempotent", JBool true);
        ("reconciliation", JStr "provider")].

Lemma descriptor_canonical_witness :
  exists d, @normalizeToolDefinition {| sha256 := fun s => s |} sample_raw = Ok d /\
    allowed_phases d = ["implement"; "verify"] /\
    @normalizeToolDefinition {| sha256 := fun s => s |} (JObj (definition_fields d)) = Ok d.
Proof.
  destruct (@normalizeToolDefinition {| sha256 := fun s => s |} sample_raw) as [d|e] eqn:E; [|by vm_compute in E].
  exists d. split; [done|]. split; [|exact (proj2 (descriptor_canonical sample_raw d E))].
  vm_compute in E. injection E as <-. reflexivity.
Defined.

Lemma version_order_total_witness :
  Z.sgn (compareToolVersions "1.10.0" "1.9.3") = 1%Z /\ (compareToolVersions "1.9.3" "2.0.0-rc.1" <= 0)%Z.
Proof.
  destruct (version_order_total "1.9.3" "1.10.0" "2.0.0-rc.1" eq_refl eq_refl eq_refl) as (Hf & Ht & _).
  split; [rewrite Hf; reflexivity|]. by apply Ht; vm_compute.
Defined.
