(* ===== verification/ToolRegistry.v ===== *)
(** * The tool registry

    [packages/runtime/src/tools/registry.ts]: registration of descriptors with
    their handlers, lookup by version and the quota of a run. The schema
    compiler is Ajv's and stays a parameter. *)

From S2P Require Import Prelude Regex Json Policy Grant Secrets ToolDefinition.

(** ** Data *)

(** What a call of a handler under its timeout comes to: a value, an error, an
    error that is itself a [ToolError] of kind [invalid_output], or the timeout. *)
Inductive settlement : Type := Returned (raw : jsval) | Threw | ThrewInvalidOutput | TimedOut.

(** A handler takes the resolved parameters and the resource; the world is
    whatever it acts on. *)
Abbreviation ToolHandler W := (jsval -> option string -> W -> settlement * W).

(** [ajv.compile], which throws on an illegal schema, for the call of
    core/src/schema/validator.ts; a validator answers whether a value is valid. *)
Class SchemaCompiler : Type := { compileAjvSchema : jsval -> option (jsval -> bool) }.

(** Takes the schema without its [$id]. *)
Definition compileSchemaValidator `{SchemaCompiler} (schema : jsval) : option (jsval -> bool) :=
  match schema with JObj fields => compileAjvSchema (JObj (without_field "$id" fields)) | _ => None end.
#[global] Arguments compileSchemaValidator : simpl never.

Record RegisteredTool (W : Type) : Type := Registered
  { definition : ToolDefinition; handler : ToolHandler W; validateInput : jsval -> bool; validateOutput : jsval -> bool }.
Arguments Registered {W}. Arguments definition {W}. Arguments handler {W}. Arguments validateInput {W}.
Arguments validateOutput {W}.

Record ToolRegistry (W : Type) : Type := Registry
  { reg_tools : list (string * list (string * RegisteredTool W)); reg_invocations : gmap string Z }.
Arguments Registry {W}. Arguments reg_tools {W}. Arguments reg_invocations {W}.

Record ToolInvocationSummary : Type := Summary { sum_tool : string; sum_version : string; sum_invocations : Z; sum_quota : Z }.

Definition keyOf (name version : string) : string := name +:+ "@" +:+ version.
Definition definition_key (d : ToolDefinition) : string := keyOf (td_name d) (td_version d).

Definition empty_registry {W} : ToolRegistry W := Registry [] ∅.

(** ** Operations *)

Section registry.
Context {W : Type} `{Hash} `{SchemaCompiler}.
Implicit Types reg : ToolRegistry W.

(** A handler that is not a function is [None]. *)
Definition register reg (raw : jsval) (h : option (ToolHandler W)) : tool_result (ToolDefinition * ToolRegistry W) :=
  d ← normalizeToolDefinition raw;
  match h with
  | None => invalid
  | Some h =>
      match compileSchemaValidator (JObj (input_schema d)), compileSchemaValidator (JObj (output_schema d)) with
      | Some input, Some output =>
          let entry := Registered d h input output in
          let versions := default [] (omap_get (reg_tools reg) (td_name d)) in
          match omap_get versions (td_version d) with
          | Some existing =>
              if decide (td_digest (definition existing) = td_digest d) then Ok (definition existing, reg) else invalid
          | None =>
              Ok (d, Registry (omap_set (reg_tools reg) (td_name d) (omap_set versions (td_version d) entry))
                       (reg_invocations reg))
          end
      | _, _ => invalid
      end
  end.

Definition get_tool reg (name : string) (version : option string) : option (RegisteredTool W) :=
  match omap_get (reg_tools reg) name with
  | None => None
  | Some versions =>
      match version with
      | Some v => omap_get versions v
      | None =>
          match last (js_sort compareToolVersions (map fst versions)) with
          | None => None
          | Some latest => omap_get versions latest
          end
      end
  end.

Definition definition_cmp (left right : ToolDefinition) : Z :=
  if decide (td_name left = td_name right) then compareToolVersions (td_version left) (td_version right)
  else if str_lt (td_name left) (td_name right) then -1 else 1.

Definition list_tools reg : list ToolDefinition :=
  js_sort definition_cmp (map definition (concat (map (fun e => map snd e.2) (reg_tools reg)))).

Definition used_quota reg (d : ToolDefinition) : Z := default 0%Z (reg_invocations reg !! definition_key d).

Definition quotaRemaining reg (d : ToolDefinition) : Z := (max_invocations_per_run d - used_quota reg d)%Z.

Definition consumeQuota reg (d : ToolDefinition) : tool_result (ToolRegistry W) :=
  if (quotaRemaining reg d <=? 0)%Z then Err (ThrewTool quota_exceeded)
  else Ok (Registry (reg_tools reg) (<[definition_key d := (used_quota reg d + 1)%Z]> (reg_invocations reg))).

Definition invocationSummaries reg : list ToolInvocationSummary :=
  map (fun d => Summary (td_name d) (td_version d) (used_quota reg d) (max_invocations_per_run d)) (list_tools reg).

(** The operations that change a registry. *)
Inductive registry_step : ToolRegistry W -> ToolRegistry W -> Prop :=
| step_register reg raw h d reg' : register reg raw h = Ok (d, reg') -> registry_step reg reg'
| step_consume reg name version e reg' : get_tool reg name (Some version) = Some e ->
    consumeQuota reg (definition e) = Ok reg' -> registry_step reg reg'.

(** ** Invariant *)

Record registry_ok reg : Prop := {
  ok_names : NoDup (reg_tools reg).*1;
  ok_versions : forall name versions, (name, versions) ∈ reg_tools reg -> NoDup versions.*1;
  ok_entries : forall name version e, get_tool reg name (Some version) = Some e ->
    td_name (definition e) = name /\ td_version (definition e) = version /\ legal_definition (definition e);
  ok_counted : forall key n, reg_invocations reg !! key = Some n ->
    exists name version e, get_tool reg name (Some version) = Some e /\ key = keyOf name version;
  ok_quota : forall name version e, get_tool reg name (Some version) = Some e ->
    (0 <= used_quota reg (definition e) <= max_invocations_per_run (definition e))%Z }.

Lemma get_tool_set tools inv name version n v e :
  get_tool (Registry (omap_set tools n (omap_set (default [] (omap_get tools n)) v e)) inv) name (Some version) =
    if decide (name = n /\ version = v) then Some e else get_tool (Registry tools inv) name (Some version).
Proof.
  unfold get_tool. cbn. rewrite omap_get_set. destruct (decide (n = name)) as [->|Hn].
  - rewrite omap_get_set. destruct (decide (v = version)) as [->|Hv]; [by rewrite decide_True|].
    rewrite decide_False by naive_solver. destruct (omap_get tools name); done.
  - rewrite decide_False by naive_solver. done.
Qed.

Lemma keyOf_inj n v n' v' : no_char "@" n = true -> no_char "@" n' = true -> keyOf n v = keyOf n' v' -> n = n' /\ v = v'.
Proof.
  intros Hn Hn' Hk. assert (split_on "@" (keyOf n v) = split_on "@" (keyOf n' v')) as Hs by (by rewrite Hk).
  unfold keyOf in *. cbn [String.append] in *. rewrite !split_on_app in Hs by done. injection Hs as -> _. split; [done|].
  apply (inj (String.append n')) in Hk. by injection Hk.
Qed.

Lemma register_Ok reg raw h d reg' : register reg raw h = Ok (d, reg') ->
  exists f, h = Some f /\
  ((reg' = reg /\ exists e d', get_tool reg (td_name d') (Some (td_version d')) = Some e /\ definition e = d /\
      normalizeToolDefinition raw = Ok d' /\ td_digest d = td_digest d') \/
   (normalizeToolDefinition raw = Ok d /\ get_tool reg (td_name d) (Some (td_version d)) = None /\
    exists input output, compileSchemaValidator (JObj (input_schema d)) = Some input /\
      compileSchemaValidator (JObj (output_schema d)) = Some output /\
      reg' = Registry (omap_set (reg_tools reg) (td_name d)
               (omap_set (default [] (omap_get (reg_tools reg) (td_name d))) (td_version d) (Registered d f input output)))
               (reg_invocations reg))).
Proof.
  unfold register, invalid. intros Hr. inv_result. destruct h as [f|]; [|discriminate Hr]. exists f. split; [done|].
  destruct (compileSchemaValidator (JObj (input_schema a))) as [input|] eqn:Ei; [|discriminate Hr].
  destruct (compileSchemaValidator (JObj (output_schema a))) as [output|] eqn:Eo; [|discriminate Hr].
  destruct (omap_get (default [] (omap_get (reg_tools reg) (td_name a))) (td_version a)) as [existing|] eqn:Eg.
  - case_decide as Hd; [|discriminate Hr]. injection Hr as <- <-. left. split; [done|]. exists existing, a.
    split; [|done]. unfold get_tool. by destruct (omap_get (reg_tools reg) (td_name a)).
  - injection Hr as <- <-. right. split; [done|]. split; [|eauto 10].
    unfold get_tool. by destruct (omap_get (reg_tools reg) (td_name a)).
Qed.

Lemma registry_ok_empty : registry_ok empty_registry.
Proof. split; cbn; try (intros; set_solver); [constructor|done..]. Qed.

Lemma step_keeps reg reg' name version e :
  registry_step reg reg' -> get_tool reg name (Some version) = Some e -> get_tool reg' name (Some version) = Some e.
Proof.
  destruct 1 as [reg raw h d reg' (f & -> & [[-> _]|(_ & Hn & i & o & _ & _ & ->)])%register_Ok|reg n v e' reg' _ Hc]; [done| |].
  - intros He. rewrite get_tool_set. rewrite decide_False; [by destruct reg|]. intros [-> ->]. congruence.
  - unfold consumeQuota in Hc. case_match; [discriminate|]. injection Hc as <-. done.
Qed.

Lemma register_ok reg raw h d reg' : registry_ok reg -> register reg raw h = Ok (d, reg') -> registry_ok reg'.
Proof.
  intros Hok (f & -> & [[-> _]|(Hd & Hn & i & o & _ & _ & ->)])%register_Ok; [done|]. destruct Hok as [Ho Hv He Hc Hq].
  apply normalize_legal in Hd.
  assert (Hget : forall name version, get_tool (Registry (reg_tools reg) (reg_invocations reg)) name (Some version) =
    get_tool reg name (Some version)) by (by destruct reg).
  split; cbn.
  - by apply omap_set_NoDup.
  - intros name versions Hin. apply elem_omap_get in Hin; [|by apply omap_set_NoDup]. rewrite omap_get_set in Hin.
    case_decide as Hname; [|by eapply Hv, omap_get_elem]. injection Hin as <-. subst name. apply omap_set_NoDup.
    destruct (omap_get (reg_tools reg) (td_name d)) eqn:E; [|constructor]. by eapply Hv, omap_get_elem.
  - intros name version e. rewrite get_tool_set, Hget. case_decide as Hk; [|apply He]. destruct Hk as [-> ->]. by intros [= <-].
  - intros key n (name & version & e & Hg & ->)%Hc. exists name, version, e. rewrite get_tool_set, Hget.
    rewrite decide_False; [done|]. intros [-> ->]. congruence.
  - intros name version e. rewrite get_tool_set, Hget. case_decide as Hk; [|apply Hq]. destruct Hk as [-> ->].
    intros [= <-]. unfold used_quota. cbn. destruct (reg_invocations reg !! _) as [n|] eqn:E.
    + apply Hc in E as (n' & v' & e' & Hg & Hkey). pose proof (He _ _ _ Hg) as (Hn' & Hv' & Hl').
      apply keyOf_inj in Hkey as [<- <-]; [congruence|by apply tool_name_chars, legal_name|].
      rewrite <- Hn'. by apply tool_name_chars, legal_name.
    + pose proof (legal_quota _ Hd). cbn. lia.
Qed.

Lemma consume_ok reg name version e reg' : registry_ok reg -> get_tool reg name (Some version) = Some e ->
  consumeQuota reg (definition e) = Ok reg' -> registry_ok reg'.
Proof.
  intros [Ho Hv He Hc Hq] Hg Hr. unfold consumeQuota in Hr. case_match eqn:Eq; [discriminate|]. apply Z.leb_gt in Eq.
  injection Hr as <-. destruct (He _ _ _ Hg) as (<- & <- & Hl). split; cbn; [done..| |].
  - intros key n. destruct (decide (key = definition_key (definition e))) as [->|Hk]; [eauto|].
    rewrite lookup_insert_ne by done. apply Hc.
  - intros name version e' Hg'. change (get_tool reg name (Some version) = Some e') in Hg'.
    destruct (He _ _ _ Hg') as (<- & <- & Hl'). unfold used_quota. cbn.
    destruct (decide (definition_key (definition e) = definition_key (definition e'))) as [Hk|Hk].
    + apply keyOf_inj in Hk as [Hn' Hv']; [|by apply tool_name_chars, legal_name..].
      rewrite Hn', Hv' in Hg. assert (e = e') as -> by congruence. rewrite lookup_insert_eq. cbn.
      specialize (Hq _ _ _ Hg'). unfold quotaRemaining, used_quota in *. cbn in *. lia.
    + rewrite lookup_insert_ne by done. by apply Hq in Hg'.
Qed.

Lemma registry_step_ok reg reg' : registry_ok reg -> registry_step reg reg' -> registry_ok reg'.
Proof. intros Hok. destruct 1; [by eapply register_ok|by eapply consume_ok]. Qed.

Lemma registry_reachable reg : rtc registry_step empty_registry reg -> registry_ok reg.
Proof.
  intros Hr. assert (registry_ok empty_registry) as H1 by apply registry_ok_empty. induction Hr; eauto using registry_step_ok.
Qed.

Lemma registry_keeps reg reg' name version e : rtc registry_step reg reg' ->
  get_tool reg name (Some version) = Some e -> get_tool reg' name (Some version) = Some e.
Proof. induction 1; eauto using step_keeps. Qed.
End registry.

(* ------------------------------------------------------------------ *)
(** ** Lookup without a version *)

Section latest.
Context {W : Type} `{Hash} `{SchemaCompiler}.
Implicit Types reg : ToolRegistry W.

Lemma get_tool_elem reg name versions version e : registry_ok reg -> omap_get (reg_tools reg) name = Some versions ->
  get_tool reg name (Some version) = Some e <-> (version, e) ∈ versions.
Proof.
  intros Hok Hv. unfold get_tool. rewrite Hv. split; [apply omap_get_elem|]. apply elem_omap_get.
  eapply ok_versions; [done|]. by apply omap_get_elem.
Qed.

Lemma entry_readable reg name version e : registry_ok reg -> get_tool reg name (Some version) = Some e -> readable version.
Proof. intros Hok He. destruct (ok_entries _ Hok _ _ _ He) as (_ & <- & Hl). by apply legal_version_readable, legal_version. Qed.

Lemma sorted_versions reg name versions : registry_ok reg -> omap_get (reg_tools reg) name = Some versions ->
  js_sort compareToolVersions (map fst versions) = js_sort version_cmp (map fst versions).
Proof.
  intros Hok Hv. apply js_sort_ext. intros pre x post y Hl Hy.
  assert (Hread : forall z, z ∈ map fst versions -> readable z).
  { intros z ((z' & e) & -> & Hin)%list_elem_of_fmap. eapply entry_readable; [done|]. by apply (get_tool_elem _ _ versions). }
  rewrite compare_versions; [done|apply Hread..]; rewrite Hl; set_solver.
Qed.

Lemma unversioned_spec reg name e : registry_ok reg ->
  get_tool reg name None = Some e <->
  exists version, get_tool reg name (Some version) = Some e /\
    forall version' e', get_tool reg name (Some version') = Some e' -> (compareToolVersions version' version <= 0)%Z.
Proof.
  intros Hok. destruct (omap_get (reg_tools reg) name) as [versions|] eqn:Hv.
  2:{ unfold get_tool. rewrite Hv. split; [done|by intros (? & ? & _)]. }
  pose proof (sorted_versions _ _ _ Hok Hv) as Hs.
  assert (Hget : get_tool reg name None = match last (js_sort version_cmp (map fst versions)) with
    | None => None | Some latest => get_tool reg name (Some latest) end).
  { unfold get_tool. rewrite Hv, Hs. done. }
  rewrite Hget. clear Hget Hs.
  assert (Hle : forall v w ev ew, get_tool reg name (Some v) = Some ev -> get_tool reg name (Some w) = Some ew ->
    compareToolVersions v w = version_cmp v w).
  { intros v w ev ew Hev Hew. apply compare_versions; eapply entry_readable; eauto. }
  assert (Hmax : forall latest v ev, last (js_sort version_cmp (map fst versions)) = Some latest ->
    get_tool reg name (Some v) = Some ev -> (version_cmp v latest <= 0)%Z).
  { intros latest v ev Hl Hev. apply (get_tool_elem _ _ versions) in Hev; [|done..].
    destruct (StronglySorted_last (cmp_le version_cmp) (js_sort version_cmp (map fst versions)) latest v) as [->|Hr].
    - apply js_sort_StronglySorted; [apply version_cmp_total|apply version_cmp_trans].
    - done.
    - apply elem_of_js_sort, list_elem_of_fmap. by exists (v, ev).
    - pose proof (version_cmp_flip latest latest). lia.
    - exact Hr. }
  split.
  - destruct (last _) as [latest|] eqn:El; [|done]. intros He. exists latest. split; [done|].
    intros v ev Hev. rewrite (Hle _ _ _ _ Hev He). by eapply Hmax.
  - intros (v & He & Hall). destruct (last _) as [latest|] eqn:El.
    + assert (exists el, get_tool reg name (Some latest) = Some el) as [el Hel].
      { apply last_Some_elem_of, elem_of_js_sort, list_elem_of_fmap in El as ((? & el) & -> & Hin). exists el.
        by apply (get_tool_elem _ _ versions). }
      specialize (Hall _ _ Hel). rewrite (Hle _ _ _ _ Hel He) in Hall.
      assert (latest = v) as -> by (apply version_cmp_antisym; [done|by eapply Hmax]). congruence.
    + apply last_None in El. assert (v ∈ js_sort version_cmp (map fst versions)) as Hin.
      { apply elem_of_js_sort, list_elem_of_fmap. exists (v, e). by rewrite <- (get_tool_elem reg name versions v e). }
      rewrite El in Hin. set_solver.
Qed.

(* ------------------------------------------------------------------ *)
(** ** Properties *)

(** Descriptors are immutable. Whatever is registered and consumed after it,
    an entry stays the one its name and version find; its descriptor is legal
    and carries that name and version; registering other content under them is
    refused; and it is invoked at most as often as its quota says. *)
Theorem registered_tools_immutable reg reg' name version e :
  rtc registry_step empty_registry reg -> rtc registry_step reg reg' -> get_tool reg name (Some version) = Some e ->
  get_tool reg' name (Some version) = Some e /\
  td_name (definition e) = name /\ td_version (definition e) = version /\ legal_definition (definition e) /\
  (0 <= used_quota reg' (definition e) <= max_invocations_per_run (definition e))%Z /\
  forall raw h d, normalizeToolDefinition raw = Ok d -> td_name d = name -> td_version d = version ->
    td_digest d <> td_digest (definition e) -> register reg' raw h = Err (ThrewTool invalid_definition).
Proof.
  intros Hr Hs He. assert (registry_ok reg') as Hok by (apply registry_reachable; by etrans).
  pose proof (registry_keeps _ _ _ _ _ Hs He) as He'. split; [done|].
  destruct (ok_entries _ Hok _ _ _ He') as (? & ? & ?). do 3 (split; [done|]). split; [by eapply ok_quota|].
  intros raw h d Hd Hn Hv Hne. destruct (register reg' raw h) as [[d' reg'']|t] eqn:E.
  - apply register_Ok in E as (f & -> & [(_ & e' & d2 & Hg & <- & Hd2 & Hdig)|(Hd2 & Hg & _)]); congruence.
  - unfold register, invalid in E. rewrite Hd in E. cbn in E. destruct h; [|congruence].
    repeat case_match; congruence.
Qed.

(** Without a version, the lookup answers the entry of the greatest
    registered version, and only that. *)
Theorem unversioned_lookup_exact reg name e : rtc registry_step empty_registry reg ->
  get_tool reg name None = Some e <->
  exists version, get_tool reg name (Some version) = Some e /\
    forall version' e', get_tool reg name (Some version') = Some e' -> (compareToolVersions version' version <= 0)%Z.
Proof. intros Hr%registry_reachable. by apply unversioned_spec. Qed.

(** A release is never the latest version while one of its own prereleases is
    registered: the order puts [1.0.0] before [1.0.0-rc], which semantic
    versioning puts after it. *)
Theorem prerelease_outranks_release reg name release tag e e' :
  rtc registry_step empty_registry reg -> no_char "-" release = true -> no_char "+" release = true ->
  get_tool reg name (Some release) = Some e -> get_tool reg name (Some (release +:+ "-" +:+ tag)) = Some e' ->
  get_tool reg name None <> Some e.
Proof.
  intros Hr%registry_reachable Hm Hp He He' Hl. apply unversioned_spec in Hl as (v & Hv & Hall); [|done].
  destruct (ok_entries _ Hr _ _ _ Hv) as (_ & Hv1 & _), (ok_entries _ Hr _ _ _ He) as (_ & Hv2 & _).
  assert (v = release) as -> by congruence.
  pose proof (Hall _ _ He') as Hle. pose proof (entry_readable _ _ _ _ Hr He) as Hread.
  pose proof (release_before_tag release tag Hread Hp Hm) as Hlt. pose proof (entry_readable _ _ _ _ Hr He') as Hread'.
  cbn [String.append] in *. rewrite compare_versions in Hlt, Hle by done.
  pose proof (version_cmp_flip release (release +:+ String "-" tag)). lia.
Qed.
End latest.

(* ------------------------------------------------------------------ *)
(** ** Witnesses *)

Definition text_hash : Hash := {| sha256 := fun s => s |}.
(** A compiler that accepts every schema. *)
Definition any_schema : SchemaCompiler := {| compileAjvSchema := fun _ => Some (fun _ => true) |}.
Definition no_handler : ToolHandler unit := fun _ _ w => (Returned JNull, w).

(** A descriptor of the tool [t] with a version and a quota. *)
Definition raw_tool (version : string) (quota : Z) : jsval :=
  JObj [("name", JStr "t"); ("version", JStr version); ("description", JStr "d"); ("input_schema", JObj []);
        ("output_schema", JObj []); ("allowed_phases", JArr [JStr "verify"]); ("risk", JStr "low");
        ("side_effect_class", JStr "none"); ("timeout_ms", JNum (NInt 10)); ("retry_class", JStr "none");
        ("max_invocations_per_run", JNum (NInt quota)); ("reconciliation", JStr "manual")].

Definition register_raw (raw : jsval) (reg : ToolRegistry unit) : ToolRegistry unit :=
  match @register unit text_hash any_schema reg raw (Some no_handler) with Ok (_, reg') => reg' | Err _ => reg end.

Definition two_versions : ToolRegistry unit := register_raw (raw_tool "1.0.0-rc.1" 1) (register_raw (raw_tool "1.0.0" 2) empty_registry).

Lemma register_raw_step raw reg : rtc (@registry_step unit text_hash any_schema) reg (register_raw raw reg).
Proof.
  unfold register_raw. destruct (register _ _ _) as [[d reg']|] eqn:E; [|done].
  apply rtc_once. by eapply (@step_register unit text_hash any_schema).
Qed.

Lemma two_versions_reachable : rtc (@registry_step unit text_hash any_schema) empty_registry two_versions.
Proof. etrans; apply register_raw_step. Qed.

Definition tool_at (reg : ToolRegistry unit) (version : string) : option (string * Z) :=
  (fun e => (td_version (definition e), max_invocations_per_run (definition e))) <$> get_tool reg "t" (Some version).

Lemma registered_tools_immutable_witness :
  tool_at two_versions "1.0.0" = Some ("1.0.0", 2%Z) /\
  @register unit text_hash any_schema two_versions (raw_tool "1.0.0" 9) (Some no_handler) = Err (ThrewTool invalid_definition).
Proof.
  split; [vm_compute; reflexivity|].
  destruct (get_tool two_versions "t" (Some "1.0.0")) as [e|] eqn:E; [|by vm_compute in E].
  destruct (registered_tools_immutable two_versions two_versions "t" "1.0.0" e two_versions_reachable (rtc_refl _ _) E)
    as (_ & _ & _ & _ & _ & Hno).
  destruct (@normalizeToolDefinition text_hash (raw_tool "1.0.0" 9)) as [d|] eqn:Ed; [|by vm_compute in Ed].
  apply (Hno _ _ d Ed); vm_compute in Ed; injection Ed as <-; [reflexivity..|].
  vm_compute in E. injection E as <-. vm_compute. discriminate.
Defined.

Lemma unversioned_lookup_exact_witness :
  exists e version, get_tool two_versions "t" None = Some e /\ get_tool two_versions "t" (Some version) = Some e.
Proof.
  destruct (get_tool two_versions "t" None) as [e|] eqn:E; [|by vm_compute in E]. exists e.
  destruct (proj1 (unversioned_lookup_exact two_versions "t" e two_versions_reachable) E) as (v & Hv & _).
  exists v. split; [reflexivity|exact Hv].
Defined.

Lemma prerelease_outranks_release_witness : exists e, get_tool two_versions "t" (Some "1.0.0") = Some e /\
  get_tool two_versions "t" None <> Some e.
Proof.
  destruct (get_tool two_versions "t" (Some "1.0.0")) as [e|] eqn:E; [|by vm_compute in E].
  destruct (get_tool two_versions "t" (Some "1.0.0-rc.1")) as [e'|] eqn:E'; [|by vm_compute in E'].
  exists e. split; [done|]. by apply (prerelease_outranks_release two_versions "t" "1.0.0" "rc.1" e e' two_versions_reachable eq_refl eq_refl).
Defined.
