(* ===== verification/ActionIntent.v ===== *)
(** * The journal of external actions

    [packages/runtime/src/tools/action-intent.ts] and [reconciliation.ts]: the
    intents committed before external side effects, their transitions, the
    projection into the working state, and the decision on what an
    interruption left open. *)

From S2P Require Import Prelude Regex Json Policy Grant Secrets ToolDefinition ToolRegistry WorkingState.

(** ** Data *)

Record ActionIntentRecord : Type := IntentRecord
  { ai_id : string;
    ai_tool : string;
    ai_request_digest : string;
    ai_resource : option string;
    ai_approval_digest : option string;
    ai_key : string;
    ai_status : ExternalActionStatus;
    ai_result_digest : option string }.
#[export] Instance ExternalActionStatus_eq_dec : EqDecision ExternalActionStatus.
Proof. solve_decision. Defined.
#[export] Instance ActionIntentRecord_eq_dec : EqDecision ActionIntentRecord.
Proof. solve_decision. Defined.

Record OpenIntentInput : Type := OpenIntent
  { oi_id : string; oi_tool : string; oi_request_digest : string; oi_resource : option string;
    oi_approval_digest : option string; oi_key : string }.

(** The order of neither map is observable. *)
Record ActionIntentJournal : Type := Journal
  { intents : gmap string ActionIntentRecord; outputs : gmap string jsval }.

Definition empty_journal : ActionIntentJournal := Journal ∅ ∅.

(** ** Operations *)

Definition requestDigest `{Hash} (tool : string) (parameters : jsval) (resource : option string) : tool_result string :=
  map_err ThrewCanonical (contentDigest (JObj [("tool", JStr tool); ("parameters", parameters); ("resource", or_null resource)])).

Definition transition (intent : ActionIntentRecord) (status : ExternalActionStatus) (resultDigest : option string) :
    tool_result ActionIntentRecord :=
  let legal :=
    match ai_status intent, status with
    | pending, completed | pending, uncertain | uncertain, completed => true
    | _, _ => false
    end in
  if legal then
    Ok (IntentRecord (ai_id intent) (ai_tool intent) (ai_request_digest intent) (ai_resource intent)
          (ai_approval_digest intent) (ai_key intent) status resultDigest)
  else Err (ThrewTool invalid_intent_transition).

Definition restore_journal (records : list ActionIntentRecord) : ActionIntentJournal :=
  foldl (fun j r => Journal (<[ai_id r := r]> (intents j)) (outputs j)) empty_journal records.

Definition open_intent (j : ActionIntentJournal) (input : OpenIntentInput) :
    tool_result (ActionIntentRecord * ActionIntentJournal) :=
  match intents j !! oi_id input with
  | Some _ => Err (ThrewTool invalid_intent_transition)
  | None =>
      let record := IntentRecord (oi_id input) (oi_tool input) (oi_request_digest input) (oi_resource input)
                      (oi_approval_digest input) (oi_key input) pending None in
      Ok (record, Journal (<[oi_id input := record]> (intents j)) (outputs j))
  end.

Definition replace_intent (j : ActionIntentJournal) (record : ActionIntentRecord) : ActionIntentJournal :=
  Journal (<[ai_id record := record]> (intents j)) (outputs j).

Definition move_intent (j : ActionIntentJournal) (intent : ActionIntentRecord) (status : ExternalActionStatus)
    (resultDigest : option string) : tool_result (ActionIntentRecord * ActionIntentJournal) :=
  record ← transition intent status resultDigest; Ok (record, replace_intent j record).

Definition complete_intent (j : ActionIntentJournal) (intent : ActionIntentRecord) (resultDigest : string) :=
  move_intent j intent completed (Some resultDigest).
Definition markUncertain (j : ActionIntentJournal) (intent : ActionIntentRecord) := move_intent j intent uncertain None.
Definition markReconciledApplied (j : ActionIntentJournal) (intent : ActionIntentRecord) := move_intent j intent completed None.

Definition rememberOutput (j : ActionIntentJournal) (id : string) (output : jsval) : ActionIntentJournal :=
  Journal (intents j) (<[id := output]> (outputs j)).

Definition outputOf (j : ActionIntentJournal) (id : string) : jsval := default JUndefined (outputs j !! id).

Definition releaseForRetry (j : ActionIntentJournal) (intent : ActionIntentRecord) : tool_result ActionIntentJournal :=
  if decide (ai_status intent = completed) then Err (ThrewTool invalid_intent_transition)
  else Ok (Journal (delete (ai_id intent) (intents j)) (delete (ai_id intent) (outputs j))).

Definition intent_cmp (left right : ActionIntentRecord) : Z := text_order (ai_id left) (ai_id right).

Definition all_intents (j : ActionIntentJournal) : list ActionIntentRecord :=
  js_sort intent_cmp (map_to_list (intents j)).*2.

Definition holds_key (tool key : string) (intent : ActionIntentRecord) : bool :=
  bool_decide (ai_tool intent = tool) && bool_decide (ai_key intent = key).

Definition findByIdempotencyKey (j : ActionIntentJournal) (tool key : string) : option ActionIntentRecord :=
  find_first (holds_key tool key) (all_intents j).

Definition unresolved (j : ActionIntentJournal) : list ActionIntentRecord :=
  filter (fun intent => ai_status intent <> completed) (all_intents j).

Definition workingStateIntents (j : ActionIntentJournal) : list ExternalActionIntent :=
  map (fun i => Intent (ai_id i) (ai_tool i) (ai_request_digest i) (ai_key i) (ai_status i)) (all_intents j).

Definition isActionIntentRecord (value : jsval) : bool :=
  match value with
  | JObj f =>
      let text key := match jfield f key with JStr _ => true | _ => false end in
      let text_or_null key := match jfield f key with JStr _ | JNull => true | _ => false end in
      text "intent_id" && text "tool" && text "request_digest" && text_or_null "resource" &&
      text_or_null "approval_digest" && text "idempotency_key" &&
      match jfield f "status" with JStr s => mem s EXTERNAL_ACTION_STATUSES | _ => false end &&
      text_or_null "result_digest"
  | _ => false
  end.

Definition intent_record_json (i : ActionIntentRecord) : jsval :=
  JObj [("intent_id", JStr (ai_id i)); ("tool", JStr (ai_tool i)); ("request_digest", JStr (ai_request_digest i));
        ("resource", or_null (ai_resource i)); ("approval_digest", or_null (ai_approval_digest i));
        ("idempotency_key", JStr (ai_key i)); ("status", JStr (status_text (ai_status i)));
        ("result_digest", or_null (ai_result_digest i))].

(** ** Reconciliation *)

Inductive ProbeOutcome : Type := applied | not_applied | unknown.
Inductive ReconciliationDecisionKind : Type := reuse_result | retry_allowed | manual_required.
#[export] Instance ReconciliationDecisionKind_eq_dec : EqDecision ReconciliationDecisionKind.
Proof. solve_decision. Defined.

Record ReconciliationDecision : Type := Reconciliation
  { rd_intent_id : string; rd_tool : string; rd_key : string; rd_decision : ReconciliationDecisionKind }.

Definition decide_intent (intent : ActionIntentRecord) (k : ReconciliationDecisionKind) : ReconciliationDecision :=
  Reconciliation (ai_id intent) (ai_tool intent) (ai_key intent) k.

Section reconcile.
Context {W : Type}.
Implicit Types reg : ToolRegistry W.

(** [registry.get(tool.split("@")[0], tool.split("@")[1])] *)
Definition tool_of_key reg (key : string) : option (RegisteredTool W) :=
  get_tool reg (default "" (split_on "@" key !! 0)) (split_on "@" key !! 1).

(** The probe asks the provider, which is part of the world. *)
Definition reconcileIntent reg (probe : option (ActionIntentRecord -> W -> ProbeOutcome * W))
    (intent : ActionIntentRecord) (w : W) : ReconciliationDecision * W :=
  match tool_of_key reg (ai_tool intent) with
  | None => (decide_intent intent manual_required, w)
  | Some entry =>
      match td_reconciliation (definition entry) with
      | by_human => (decide_intent intent manual_required, w)
      | by_provider =>
          match probe with
          | None => (decide_intent intent manual_required, w)
          | Some probe =>
              let (outcome, w') := probe intent w in
              (decide_intent intent
                 match outcome with applied => reuse_result | not_applied => retry_allowed | unknown => manual_required end, w')
          end
      end
  end.

Fixpoint reconcile_all reg (probe : option (ActionIntentRecord -> W -> ProbeOutcome * W))
    (l : list ActionIntentRecord) (w : W) : list ReconciliationDecision * W :=
  match l with
  | [] => ([], w)
  | intent :: rest =>
      let (d, w') := reconcileIntent reg probe intent w in
      let (ds, w'') := reconcile_all reg probe rest w' in
      (d :: ds, w'')
  end.

Definition reconcileJournal (j : ActionIntentJournal) reg (probe : option (ActionIntentRecord -> W -> ProbeOutcome * W))
    (w : W) : list ReconciliationDecision * W := reconcile_all reg probe (unresolved j) w.
End reconcile.

(* ------------------------------------------------------------------ *)
(** ** The journal *)

(** Every record is under its own id. *)
Definition journal_ok (j : ActionIntentJournal) : Prop := forall id r, intents j !! id = Some r -> ai_id r = id.

Lemma intent_cmp_flip : cmp_flip intent_cmp.
Proof. intros x y. apply text_order_flip. Qed.
Lemma intent_cmp_trans : cmp_trans intent_cmp.
Proof. intros x y z. apply text_order_trans. Qed.

Lemma elem_of_all_intents j r : r ∈ all_intents j <-> exists id, intents j !! id = Some r.
Proof.
  unfold all_intents. rewrite elem_of_js_sort, list_elem_of_fmap. split.
  - intros ([id r'] & -> & Hin%elem_of_map_to_list). eauto.
  - intros (id & Hid%elem_of_map_to_list). by exists (id, r).
Qed.

Lemma find_key_None j tool key : findByIdempotencyKey j tool key = None <->
  forall id r, intents j !! id = Some r -> holds_key tool key r = false.
Proof.
  unfold findByIdempotencyKey. rewrite find_first_None, Forall_forall. split.
  - intros Hall id r Hr. apply Hall, elem_of_all_intents. eauto.
  - intros Hall r (id & Hr)%elem_of_all_intents. eauto.
Qed.

Lemma find_key_Some j tool key r : findByIdempotencyKey j tool key = Some r ->
  (exists id, intents j !! id = Some r) /\ ai_tool r = tool /\ ai_key r = key.
Proof.
  intros [Hin Hk]%find_first_Some. apply elem_of_all_intents in Hin. unfold holds_key in Hk. bool_hyps. done.
Qed.

Lemma open_intent_Ok j input r j' : open_intent j input = Ok (r, j') ->
  intents j !! oi_id input = None /\ j' = Journal (<[oi_id input := r]> (intents j)) (outputs j) /\
  r = IntentRecord (oi_id input) (oi_tool input) (oi_request_digest input) (oi_resource input)
        (oi_approval_digest input) (oi_key input) pending None.
Proof. unfold open_intent. destruct (intents j !! oi_id input); [done|]. by intros [= <- <-]. Qed.

(** A record that moves keeps everything but its status and result. *)
Definition same_intent (r r' : ActionIntentRecord) : Prop :=
  ai_id r' = ai_id r /\ ai_tool r' = ai_tool r /\ ai_key r' = ai_key r /\ ai_request_digest r' = ai_request_digest r.

Lemma move_intent_Ok j r status digest r' j' : move_intent j r status digest = Ok (r', j') ->
  same_intent r r' /\ ai_status r <> completed /\ ai_status r' = status /\ status <> pending /\
  j' = Journal (<[ai_id r := r']> (intents j)) (outputs j).
Proof.
  unfold move_intent, transition. destruct (ai_status r) eqn:Es, status; cbn; intros Hm; try discriminate Hm;
    injection Hm as <- <-; done.
Qed.

Lemma move_pending j r status digest : ai_status r = pending -> status <> pending ->
  exists r' j', move_intent j r status digest = Ok (r', j').
Proof. intros Hp Hs. unfold move_intent, transition. rewrite Hp. destruct status; [done|cbn; eauto..]. Qed.

Lemma restore_ok l : journal_ok (restore_journal l).
Proof.
  unfold restore_journal. assert (Hj : journal_ok empty_journal) by (intros id r; cbn; by rewrite lookup_empty).
  revert Hj. generalize empty_journal. induction l as [|r l IH]; intros j Hj; cbn; [done|]. apply IH.
  intros id r'. cbn. rewrite lookup_insert_Some. intros [[<- <-]|[_ Hr]]; [done|by apply Hj].
Qed.

Lemma restore_intents l j : intents (foldl (fun j r => Journal (<[ai_id r := r]> (intents j)) (outputs j)) j l) =
  foldl (fun m r => <[ai_id r := r]> m) (intents j) l.
Proof. revert j. induction l as [|r l IH]; intros j; cbn; [done|]. by rewrite IH. Qed.

Lemma restore_lookup (l : list ActionIntentRecord) : forall (m : gmap string ActionIntentRecord) id,
  NoDup (ai_id <$> l) -> foldl (fun m r => <[ai_id r := r]> m) m l !! id =
    match find_first (fun r => bool_decide (ai_id r = id)) l with Some r => Some r | None => m !! id end.
Proof.
  induction l as [|r l IH]; intros m id Hl; [done|]. apply NoDup_cons in Hl as [Hr Hl].
  cbn -[find_first]. rewrite IH by done. cbn. destruct (bool_decide_reflect (ai_id r = id)) as [<-|Hne].
  - assert (find_first (fun r0 => bool_decide (ai_id r0 = ai_id r)) l = None) as ->; [|by rewrite lookup_insert_eq].
    apply find_first_None, Forall_forall. intros r' Hr'. apply bool_decide_eq_false. intros He. apply Hr, list_elem_of_fmap. eauto.
  - destruct (find_first _ l); [done|]. by rewrite lookup_insert_ne.
Qed.

Lemma NoDup_all_ids j : journal_ok j -> NoDup (ai_id <$> all_intents j).
Proof.
  intros Hj. unfold all_intents. rewrite js_sort_Permutation.
  rewrite <- list_fmap_compose.
  rewrite (list_fmap_ext _ fst); [apply NoDup_fst_map_to_list|].
  intros i [id r] Hi%list_elem_of_lookup_2. apply elem_of_map_to_list in Hi. cbn. by apply Hj.
Qed.

(** ** Reconciliation *)

Section reconciliation_facts.
Context {W : Type} `{Hash} `{SchemaCompiler}.
Implicit Types reg : ToolRegistry W.

Lemma tool_of_key_spec reg name version : no_char "@" name = true -> no_char "@" version = true ->
  tool_of_key reg (keyOf name version) = get_tool reg name (Some version).
Proof.
  intros Hn Hv. unfold tool_of_key, keyOf. cbn [String.append]. rewrite split_on_app, split_on_no_char by done. done.
Qed.

Lemma reconcileIntent_kind reg probe intent w d w' : reconcileIntent reg probe intent w = (d, w') ->
  rd_intent_id d = ai_id intent /\ rd_key d = ai_key intent /\ rd_tool d = ai_tool intent /\
  (rd_decision d <> manual_required -> exists entry p outcome, tool_of_key reg (ai_tool intent) = Some entry /\
     td_reconciliation (definition entry) = by_provider /\ probe = Some p /\ p intent w = (outcome, w') /\
     rd_decision d = match outcome with applied => reuse_result | not_applied => retry_allowed | unknown => manual_required end).
Proof.
  unfold reconcileIntent. destruct (tool_of_key reg (ai_tool intent)) as [e|]; [|by intros [= <- <-]].
  destruct (td_reconciliation (definition e)) eqn:Em; [|by intros [= <- <-]].
  destruct probe as [p|]; [|by intros [= <- <-]]. destruct (p intent w) as [o w1] eqn:Ep. intros [= <- <-].
  cbn. do 3 (split; [done|]). intros _. eauto 10.
Qed.

Lemma reconcile_all_ids reg probe l : forall w, rd_intent_id <$> (reconcile_all reg probe l w).1 = ai_id <$> l.
Proof.
  induction l as [|i l IH]; intros w; cbn; [done|]. destruct (reconcileIntent reg probe i w) as [d w'] eqn:Ed.
  specialize (IH w'). destruct (reconcile_all reg probe l w') as [ds w'']. csimpl in *. rewrite IH.
  by apply reconcileIntent_kind in Ed as [-> _].
Qed.

Lemma reconcile_all_elem reg probe l : forall w d, d ∈ (reconcile_all reg probe l w).1 ->
  exists i v v', i ∈ l /\ reconcileIntent reg probe i v = (d, v').
Proof.
  induction l as [|i l IH]; intros w d; cbn; [set_solver|]. destruct (reconcileIntent reg probe i w) as [d0 w'] eqn:Ed.
  specialize (IH w'). destruct (reconcile_all reg probe l w') as [ds w'']. cbn in *.
  intros [->|Hd]%elem_of_cons; [exists i, w, w'; split; [left|done]|].
  apply IH in Hd as (i' & v & v' & ? & ?). exists i', v, v'. split; [by right|done].
Qed.
End reconciliation_facts.

(* ------------------------------------------------------------------ *)
(** ** Properties *)

(** The journal survives an interruption: each of its records reads back from
    its JSON as a record, and the journal restored from all of them holds the
    same intents, with no remembered output. *)
Theorem journal_restores j : journal_ok j ->
  Forall (fun r => isActionIntentRecord (intent_record_json r) = true) (all_intents j) /\
  restore_journal (all_intents j) = Journal (intents j) ∅.
Proof.
  intros Hj. split.
  - rewrite Forall_forall. intros [id t d r a k s g] _. destruct r, a, s, g; reflexivity.
  - unfold restore_journal. assert (forall l j0, outputs (foldl (fun j r => Journal (<[ai_id r := r]> (intents j)) (outputs j)) j0 l) = outputs j0) as Ho.
    { intros l. induction l as [|r l IH]; intros j0; cbn; [done|]. by rewrite IH. }
    pose proof (restore_intents (all_intents j) empty_journal) as Hi. specialize (Ho (all_intents j) empty_journal).
    destruct (foldl _ empty_journal _) as [m o]. cbn in *. rewrite Ho, Hi. f_equal. apply map_eq. intros id.
    rewrite restore_lookup by (by apply NoDup_all_ids).
    destruct (find_first _ _) as [r|] eqn:Ef.
    + apply find_first_Some in Ef as [(id' & Hr)%elem_of_all_intents He%bool_decide_eq_true].
      rewrite <- He, (Hj _ _ Hr). done.
    + rewrite lookup_empty. destruct (intents j !! id) as [r|] eqn:Er; [|done]. exfalso.
      assert (r ∈ all_intents j) as Hin by (apply elem_of_all_intents; eauto).
      rewrite find_first_None, Forall_forall in Ef. specialize (Ef _ Hin). apply bool_decide_eq_false in Ef. by apply Ef, Hj.
Qed.

(** The projection of the journal into the working state cannot be restored:
    it drops the resource, the approval and the result of each intent, and no
    intent read back from a checkpoint is then a record of the journal. *)
Theorem projection_not_restorable j :
  Forall (fun intent => isActionIntentRecord (intent_json intent) = false) (workingStateIntents j).
Proof. apply Forall_forall. by intros [] _. Qed.

(** Reconciliation decides every unresolved intent once, in the order of
    their ids, and allows a retry only where the descriptor of exactly the
    intent's tool and version leaves the decision to the provider and the
    provider proves that the effect was not applied. *)
Theorem retry_needs_proof `{Hash} `{SchemaCompiler} {W} (reg : ToolRegistry W) probe j w :
  rtc registry_step empty_registry reg ->
  (forall id r, intents j !! id = Some r -> exists d, legal_definition d /\ ai_tool r = definition_key d) ->
  rd_intent_id <$> (reconcileJournal j reg probe w).1 = ai_id <$> unresolved j /\
  forall decision, decision ∈ (reconcileJournal j reg probe w).1 -> rd_decision decision = retry_allowed ->
    exists intent entry p v v', intent ∈ unresolved j /\ ai_id intent = rd_intent_id decision /\
      ai_tool intent = definition_key (definition entry) /\
      get_tool reg (td_name (definition entry)) (Some (td_version (definition entry))) = Some entry /\
      td_reconciliation (definition entry) = by_provider /\ probe = Some p /\ p intent v = (not_applied, v').
Proof.
  intros Hreg%registry_reachable Hkeys. split; [apply reconcile_all_ids|]. intros d (i & v & v' & Hi & Hd)%reconcile_all_elem Hr.
  apply reconcileIntent_kind in Hd as (Hid & _ & _ & Hk). destruct Hk as (e & p & o & He & Hm & Hp & Ho & Hdec); [congruence|].
  exists i, e, p, v, v'. split; [done|]. split; [done|].
  assert (exists d', legal_definition d' /\ ai_tool i = definition_key d') as (d' & Hl & Ht).
  { unfold unresolved in Hi. apply list_elem_of_filter in Hi as [_ (id & Hid')%elem_of_all_intents]. eauto. }
  rewrite Ht in He. unfold definition_key in He.
  rewrite tool_of_key_spec in He by (apply tool_name_chars, legal_name, Hl || apply tool_version_chars, legal_version, Hl).
  destruct (ok_entries _ Hreg _ _ _ He) as (Hn & Hv & _). unfold definition_key in *. rewrite Hn, Hv.
  do 4 (split; [done|]). rewrite Ho. f_equal. destruct o; congruence.
Qed.

(* ------------------------------------------------------------------ *)
(** ** Witnesses *)

Definition sample_intent (id key : string) (status : ExternalActionStatus) : ActionIntentRecord :=
  IntentRecord id "t@1.0.0" "digest" (Some "issue:7") None key status None.

Definition sample_journal : ActionIntentJournal :=
  restore_journal [sample_intent "b" "k2" uncertain; sample_intent "a" "k1" completed].

Lemma journal_restores_witness : restore_journal (all_intents sample_journal) = sample_journal.
Proof.
  destruct (journal_restores sample_journal) as [_ Hr]; [apply restore_ok|exact Hr].
Defined.

Definition provider_tool : jsval :=
  match raw_tool "1.0.0" 2 with JObj f => JObj (omap_set f "reconciliation" (JStr "provider")) | v => v end.
Definition probed_registry : ToolRegistry unit := register_raw provider_tool empty_registry.
Definition unapplied : ActionIntentRecord -> unit -> ProbeOutcome * unit := fun _ w => (not_applied, w).

Lemma retry_needs_proof_witness :
  exists d, d ∈ (reconcileJournal sample_journal probed_registry (Some unapplied) tt).1 /\ rd_decision d = retry_allowed /\
    exists intent, intent ∈ unresolved sample_journal /\ ai_id intent = rd_intent_id d.
Proof.
  exists (Reconciliation "b" "t@1.0.0" "k2" retry_allowed).
  assert (Hin : Reconciliation "b" "t@1.0.0" "k2" retry_allowed ∈ (reconcileJournal sample_journal probed_registry (Some unapplied) tt).1).
  { assert ((reconcileJournal sample_journal probed_registry (Some unapplied) tt).1 = [Reconciliation "b" "t@1.0.0" "k2" retry_allowed]) as ->
      by (vm_compute; reflexivity). by left. }
  split; [exact Hin|]. split; [reflexivity|].
  destruct (@normalizeToolDefinition text_hash provider_tool) as [d|] eqn:Ed; [|by vm_compute in Ed].
  destruct (@retry_needs_proof text_hash any_schema unit probed_registry (Some unapplied) sample_journal tt) as [_ Hd].
  - apply register_raw_step.
  - intros id r Hr. exists d. split; [by eapply normalize_legal|].
    assert (definition_key d = "t@1.0.0") as -> by (vm_compute in Ed; injection Ed as <-; reflexivity).
    unfold sample_journal in Hr. cbn in Hr. rewrite !lookup_insert_Some, lookup_empty in Hr. naive_solver.
  - destruct (Hd _ Hin eq_refl) as (i & _ & _ & _ & _ & Hi & Hid & _). by exists i.
Defined.
