(* ===== verification/Invocation.v ===== *)
(** * Tool invocation

    [packages/runtime/src/tools/invocation.ts]: the pipeline of a tool call.
    [prepare] is its synchronous part, up to the first call of the handler;
    [settle] is what follows an attempt; [invokeTool] runs one call alone, and
    the step relation [tool_step] interleaves any number of them with the
    reconciliation of the journal. The live observations are lossy by design,
    feed back into nothing and are left out. *)

From S2P Require Import Prelude Regex Locator Json Policy Grant Secrets ToolDefinition ToolRegistry WorkingState ActionIntent.

(** ** Data *)

Record ToolInvocationRequest : Type := InvocationRequest
  { rq_intent_id : string;
    rq_tool : string;
    rq_version : option string;
    rq_phase : string;
    rq_resource : option string;
    rq_parameters : list (string * jsval);
    rq_approval_digest : option string;
    rq_key : option string }.

(** The journal of the context is part of [Shared]. *)
Record ToolInvocationContext : Type := InvocationContext
  { ctx_grant : option CapabilityGrant;
    ctx_validateApproval : option (string -> string -> bool);
    ctx_env : string -> option string }.

Record ToolInvocationEvidence : Type := ToolEvidence
  { ev_tool : string; ev_request_digest : string; ev_output : jsval; output_digest : string; ev_attempts : Z;
    ev_redacted : bool; ev_replayed : bool; ev_intent : option ActionIntentRecord }.

(** What calls share and change. *)
Record Shared (W : Type) : Type := Share { sh_registry : ToolRegistry W; sh_journal : option ActionIntentJournal }.
Arguments Share {W}. Arguments sh_registry {W}. Arguments sh_journal {W}.

(** A call that passed the checks. *)
Record Call (W : Type) : Type := MkCall
  { c_entry : RegisteredTool W; c_request : ToolInvocationRequest; c_digest : string; c_secrets : ResolvedSecrets;
    c_intent : option ActionIntentRecord }.
Arguments MkCall {W}. Arguments c_entry {W}. Arguments c_request {W}. Arguments c_digest {W}. Arguments c_secrets {W}.
Arguments c_intent {W}.

Inductive prepared (W : Type) : Type := Replay (evidence : ToolInvocationEvidence) | Run (call : Call W).
Arguments Replay {W}. Arguments Run {W}.

(** How an attempt fails, and what follows an attempt. *)
Inductive failure : Type := FailInvalidOutput | FailTimeout | FailOther.
Inductive outcome : Type := Answered (evidence : ToolInvocationEvidence) | Failed (e : tool_thrown) | Again.

Definition fail {A} (k : ToolErrorKind) : tool_result A := Err (ThrewTool k).

(** ** Before the call *)

Section checks.
Context {W : Type} `{Hash}.
Implicit Types reg : ToolRegistry W.

Definition requireEntry reg (request : ToolInvocationRequest) : tool_result (RegisteredTool W) :=
  match get_tool reg (rq_tool request) (rq_version request) with Some entry => Ok entry | None => fail unknown_tool end.

Definition checkPhase (d : ToolDefinition) (phase : string) : tool_result unit :=
  reject_if (negb (mem phase (allowed_phases d))) (ThrewTool phase_not_allowed).

Definition checkResource (d : ToolDefinition) (resource : option string) : tool_result unit :=
  match resource_patterns d, resource with
  | [], None => Ok tt
  | [], Some _ => fail resource_not_allowed
  | _, None => fail resource_not_allowed
  | patterns, Some r => reject_if (negb (resourceMatchesPatterns patterns r)) (ThrewTool resource_not_allowed)
  end.

Definition json_fields (value : jsval) : list (string * jsval) := match value with JObj fields => fields | _ => [] end.

Definition checkParameterBounds (d : ToolDefinition) (parameters : jsval) : tool_result unit :=
  reject_if (existsb (outside_bound (json_fields parameters)) (td_bounds d)) (ThrewTool parameter_out_of_bounds).

Definition tool_action (d : ToolDefinition) (request : ToolInvocationRequest) : PolicyAction :=
  Action invoke_tool "harness" harness control_plane (rq_phase request) (Some (td_name d)) (rq_parameters request)
    (td_risk d) None None.

Definition checkGrant (d : ToolDefinition) (request : ToolInvocationRequest) (grant : option CapabilityGrant) : tool_result unit :=
  match grant with
  | None => Ok tt
  | Some g => reject_if (grantDenies g (tool_action d request)) (ThrewTool grant_violation)
  end.

Definition checkApproval (d : ToolDefinition) (request : ToolInvocationRequest) (digest : string)
    (ctx : ToolInvocationContext) : tool_result unit :=
  if negb (requires_approval d) then Ok tt
  else
    match rq_approval_digest request with
    | None => fail approval_required
    | Some approval =>
        match ctx_validateApproval ctx with
        | None => fail approval_invalid
        | Some validate =>
            if negb (validate approval digest) then fail approval_invalid
            else
              match ctx_grant ctx with
              | None => Ok tt
              | Some g => reject_if (negb (mem approval (grant_approvals g))) (ThrewTool approval_invalid)
              end
        end
    end.

Definition is_external (d : ToolDefinition) : bool :=
  match side_effect_class d with effect_external => true | _ => false end.

(** The checks from [requireEntry] to [checkApproval]. *)
Definition authorize reg (request : ToolInvocationRequest) (ctx : ToolInvocationContext) :
    tool_result (RegisteredTool W * ResolvedSecrets * string) :=
  entry ← requireEntry reg request;
  let d := definition entry in
  secrets ← map_err ThrewSecret (resolveSecretParameters (JObj (rq_parameters request)) (secret_parameters d) (ctx_env ctx));
  digest ← requestDigest (definition_key d) (JObj (rq_parameters request)) (rq_resource request);
  _ ← reject_if (negb (validateInput entry (rs_parameters secrets))) (ThrewTool invalid_input);
  _ ← checkPhase d (rq_phase request);
  _ ← checkResource d (rq_resource request);
  _ ← checkParameterBounds d (rs_parameters secrets);
  _ ← checkGrant d request (ctx_grant ctx);
  _ ← checkApproval d request digest ctx;
  Ok (entry, secrets, digest).

(** The intent an external call finds under its idempotency key. *)
Definition existing_intent (journal : option ActionIntentJournal) (d : ToolDefinition) (request : ToolInvocationRequest) :
    tool_result (option ActionIntentRecord) :=
  match rq_key request, journal with
  | None, _ | Some "", _ | _, None => fail idempotency_key_required
  | Some key, Some j =>
      match findByIdempotencyKey j (definition_key d) key with
      | None => Ok None
      | Some existing => if decide (ai_status existing = completed) then Ok (Some existing) else fail reconciliation_required
      end
  end.

Definition evidenceOf (d : ToolDefinition) (digest : string) (output : jsval) (attempts : Z) (redacted replayed : bool)
    (intent : option ActionIntentRecord) : tool_result ToolInvocationEvidence :=
  dg ← map_err ThrewCanonical (contentDigest (or_else output JNull));
  Ok (ToolEvidence (definition_key d) digest output dg attempts redacted replayed intent).

(** [journal.open({..})] for the call; without a journal there is no intent. *)
Definition open_for (journal : option ActionIntentJournal) (d : ToolDefinition) (request : ToolInvocationRequest)
    (digest : string) : tool_result (option ActionIntentRecord * option ActionIntentJournal) :=
  match journal with
  | Some j =>
      if is_external d then
        p ← open_intent j (OpenIntent (rq_intent_id request) (definition_key d) digest (rq_resource request)
              (rq_approval_digest request) (default "" (rq_key request)));
        Ok (Some p.1, Some p.2)
      else Ok (None, journal)
  | None => Ok (None, None)
  end.

(** [invokeTool] up to the first call of the handler. *)
Definition prepare (sh : Shared W) (request : ToolInvocationRequest) (ctx : ToolInvocationContext) :
    tool_result (prepared W) * Shared W :=
  match authorize (sh_registry sh) request ctx with
  | Err e => (Err e, sh)
  | Ok (entry, secrets, digest) =>
      let d := definition entry in
      match (if is_external d then existing_intent (sh_journal sh) d request else Ok None) with
      | Err e => (Err e, sh)
      | Ok (Some existing) =>
          let output := match sh_journal sh with Some j => or_else (outputOf j (ai_id existing)) JNull | None => JNull end in
          (Replay <$> evidenceOf d digest output 0 false true (Some existing), sh)
      | Ok None =>
          match consumeQuota (sh_registry sh) d with
          | Err e => (Err e, sh)
          | Ok reg =>
              match open_for (sh_journal sh) d request digest with
              | Err e => (Err e, Share reg (sh_journal sh))
              | Ok (intent, journal) => (Ok (Run (MkCall entry request digest secrets intent)), Share reg journal)
              end
          end
      end
  end.
End checks.

(** ** After an attempt *)

(** [field in clone], and [clone[field] = value]. *)
Definition has_property (fields : list (string * jsval)) (field : string) : bool :=
  mem field fields.*1 || mem field inherited_names.
Definition set_property (fields : list (string * jsval)) (field : string) (value : jsval) : list (string * jsval) :=
  if decide (field = "__proto__" /\ field ∉ fields.*1) then fields else omap_set fields field value.

Definition redact_field (st : list (string * jsval) * bool) (field : string) : list (string * jsval) * bool :=
  if has_property st.1 field then (set_property st.1 field (JStr "[redacted]"), true) else st.

Definition redact_fields (d : ToolDefinition) (output : jsval) : jsval * bool :=
  match output with
  | JObj fields => let (clone, changed) := foldl redact_field (fields, false) (redacted_output_fields d) in (JObj clone, changed)
  | _ => (output, false)
  end.

(** [scrubbed !== redacted]: with secrets, an object is always another one. *)
Definition not_same (redacted scrubbed : jsval) (secrets : list (string * string)) : bool :=
  match redacted, scrubbed with
  | JStr s, JStr t => negb (bool_decide (s = t))
  | JArr _, _ | JObj _, _ => negb (bool_decide (secrets = []))
  | _, _ => false
  end.

Definition redactOutput (d : ToolDefinition) (output : jsval) (secrets : list (string * string)) : jsval * bool :=
  let (redacted, changed) := redact_fields d output in
  let scrubbed := redactSecretValues redacted secrets in
  (scrubbed, changed || not_same redacted scrubbed secrets).

Section attempts.
Context {W : Type} `{Hash}.
Implicit Types call : Call W.

(** [journal.complete(intent, contentDigest(output ?? null))]; [None] when
    either throws. *)
Definition close_intent (intent : option ActionIntentRecord) (journal : option ActionIntentJournal) (output : jsval) :
    option (option ActionIntentRecord * option ActionIntentJournal) :=
  match intent, journal with
  | Some i, Some j =>
      match contentDigest (or_else output JNull) with
      | Err _ => None
      | Ok dg => match complete_intent j i dg with Err _ => None | Ok (r, j') => Some (Some r, Some j') end
      end
  | _, _ => Some (None, journal)
  end.

(** The [try] block of an attempt. *)
Definition attempt call (attempts : Z) (s : settlement) (journal : option ActionIntentJournal) :
    result failure ToolInvocationEvidence * option ActionIntentJournal :=
  match s with
  | TimedOut => (Err FailTimeout, journal)
  | Threw => (Err FailOther, journal)
  | ThrewInvalidOutput => (Err FailInvalidOutput, journal)
  | Returned raw =>
      if negb (validateOutput (c_entry call) raw) then
        match close_intent (c_intent call) journal raw with
        | None => (Err FailOther, journal)
        | Some (_, journal') => (Err FailInvalidOutput, journal')
        end
      else
        let d := definition (c_entry call) in
        let (redacted, wasRedacted) := redactOutput d raw (rs_values (c_secrets call)) in
        match close_intent (c_intent call) journal redacted with
        | None => (Err FailOther, journal)
        | Some (closed, journal') =>
            let journal'' :=
              match closed, journal' with
              | Some r, Some j => Some (rememberOutput j (ai_id r) redacted)
              | _, _ => journal'
              end in
            match evidenceOf d (c_digest call) redacted attempts wasRedacted false closed with
            | Ok evidence => (Ok evidence, journal'')
            | Err _ => (Err FailOther, journal'')
            end
        end
  end.

Definition retryable (d : ToolDefinition) : bool := match retry_class d with retry_none => false | idempotent_only => true end.
Definition maxAttempts (d : ToolDefinition) : Z := if retryable d then (1 + max_retries d)%Z else 1%Z.

(** One round of the loop: the [try] block and the [catch] block. *)
Definition settle call (attempts : Z) (s : settlement) (journal : option ActionIntentJournal) :
    outcome * option ActionIntentJournal :=
  let d := definition (c_entry call) in
  match attempt call attempts s journal with
  | (Ok evidence, journal') => (Answered evidence, journal')
  | (Err FailInvalidOutput, journal') => (Failed (ThrewTool invalid_output), journal')
  | (Err f, journal') =>
      if is_external d then
        match c_intent call, journal' with
        | Some i, Some j =>
            match markUncertain j i with
            | Ok (_, j') => (Failed (ThrewTool uncertain_result), Some j')
            | Err e => (Failed e, journal')
            end
        | _, _ => (Failed (ThrewTool uncertain_result), journal')
        end
      else if retryable d && (attempts <? maxAttempts d)%Z then (Again, journal')
      else (Failed (ThrewTool match f with FailTimeout => tool_timeout | _ => tool_failed end), journal')
  end.

Definition call_handler call (w : W) : settlement * W :=
  handler (c_entry call) (rs_parameters (c_secrets call)) (rq_resource (c_request call)) w.

(** The loop [for (;;)]; [None] is out of fuel. *)
Fixpoint attempt_loop (fuel : nat) call (attempts : Z) (sh : Shared W) (w : W) :
    option (tool_result ToolInvocationEvidence * Shared W * W) :=
  match fuel with
  | 0 => None
  | S fuel' =>
      let (s, w') := call_handler call w in
      let (o, journal) := settle call (attempts + 1) s (sh_journal sh) in
      let sh' := Share (sh_registry sh) journal in
      match o with
      | Answered evidence => Some (Ok evidence, sh', w')
      | Failed e => Some (Err e, sh', w')
      | Again => attempt_loop fuel' call (attempts + 1) sh' w'
      end
  end.

Definition invokeTool (sh : Shared W) (request : ToolInvocationRequest) (ctx : ToolInvocationContext) (w : W) :
    option (tool_result ToolInvocationEvidence * Shared W * W) :=
  match prepare sh request ctx with
  | (Err e, sh') => Some (Err e, sh', w)
  | (Ok (Replay evidence), sh') => Some (Ok evidence, sh', w)
  | (Ok (Run call), sh') => attempt_loop (Z.to_nat (maxAttempts (definition (c_entry call)))) call 0 sh' w
  end.
End attempts.

(* ------------------------------------------------------------------ *)
(** ** The checks *)

Section check_facts.
Context {W : Type} `{Hash}.
Implicit Types reg : ToolRegistry W.

(** What a call needs before its tool is looked at for effects. *)
Record authorized reg (request : ToolInvocationRequest) (ctx : ToolInvocationContext)
    (entry : RegisteredTool W) (secrets : ResolvedSecrets) (digest : string) : Prop := {
  au_entry : get_tool reg (rq_tool request) (rq_version request) = Some entry;
  au_secrets : resolveSecretParameters (JObj (rq_parameters request)) (secret_parameters (definition entry)) (ctx_env ctx) = Ok secrets;
  au_digest : requestDigest (definition_key (definition entry)) (JObj (rq_parameters request)) (rq_resource request) = Ok digest;
  au_input : validateInput entry (rs_parameters secrets) = true;
  au_phase : rq_phase request ∈ allowed_phases (definition entry);
  au_resource : (resource_patterns (definition entry) = [] /\ rq_resource request = None) \/
    exists r, rq_resource request = Some r /\ resourceMatchesPatterns (resource_patterns (definition entry)) r = true;
  au_bounds : forall key allowed v, (key, allowed) ∈ td_bounds (definition entry) ->
    scalar_of (jfield (json_fields (rs_parameters secrets)) key) = Some v -> v ∈ allowed;
  au_grant : forall g, ctx_grant ctx = Some g -> grantDenies g (tool_action (definition entry) request) = false;
  au_approval : requires_approval (definition entry) = true -> exists approval validate,
    rq_approval_digest request = Some approval /\ ctx_validateApproval ctx = Some validate /\ validate approval digest = true /\
    forall g, ctx_grant ctx = Some g -> approval ∈ grant_approvals g }.

Lemma checkResource_Ok d resource : checkResource d resource = Ok tt <->
  (resource_patterns d = [] /\ resource = None) \/
  exists r, resource = Some r /\ resourceMatchesPatterns (resource_patterns d) r = true.
Proof.
  unfold checkResource, fail. destruct (resource_patterns d) as [|p l], resource as [r|].
  - split; [done|]. intros [[_ ?]|(r' & _ & Hm)]; [done|]. discriminate Hm.
  - split; [by left|done].
  - rewrite reject_if_Ok, negb_false_iff. split; [intros; right; eauto|]. intros [[? _]|(r' & [= <-] & Hm)]; done.
  - split; [done|]. intros [[? _]|(? & ? & _)]; done.
Qed.

Lemma checkParameterBounds_Ok d params : checkParameterBounds d params = Ok tt <->
  forall key allowed v, (key, allowed) ∈ td_bounds d -> scalar_of (jfield (json_fields params) key) = Some v -> v ∈ allowed.
Proof.
  unfold checkParameterBounds. rewrite reject_if_Ok, <- not_true_iff_false, existsb_Exists. unfold outside_bound. split.
  - intros Hn key allowed v Hin Hv. destruct (decide (v ∈ allowed)) as [|Ha]; [done|]. exfalso. apply Hn.
    exists (key, allowed). split; [done|]. cbn. rewrite Hv. by apply negb_true_iff, mem_false.
  - intros Hall ([key allowed] & Hin & Hb). cbn in Hb. destruct (scalar_of _) as [v|] eqn:Ev; [|done].
    apply negb_true_iff, mem_false in Hb. by eapply Hb, Hall.
Qed.

Lemma checkApproval_Ok d request digest ctx : checkApproval d request digest ctx = Ok tt <->
  (requires_approval d = true -> exists approval validate,
    rq_approval_digest request = Some approval /\ ctx_validateApproval ctx = Some validate /\ validate approval digest = true /\
    forall g, ctx_grant ctx = Some g -> approval ∈ grant_approvals g).
Proof.
  unfold checkApproval, fail. destruct (requires_approval d); cbn; [|split; [done|done]].
  destruct (rq_approval_digest request) as [a|]; [|split; [done|intros Hx; by destruct (Hx eq_refl) as (? & ? & ? & _)]].
  destruct (ctx_validateApproval ctx) as [f|]; [|split; [done|intros Hx; by destruct (Hx eq_refl) as (? & ? & _ & ? & _)]].
  destruct (f a digest) eqn:Ef; cbn.
  - destruct (ctx_grant ctx) as [g|].
    + rewrite reject_if_Ok, negb_false_iff, mem_spec. split.
      * intros Ha _. exists a, f. split; [done|]. split; [done|]. split; [done|]. by intros ? [= <-].
      * intros Hx. destruct (Hx eq_refl) as (? & ? & [= <-] & _ & _ & Hg). by apply Hg.
    + split; [|done]. intros _ _. exists a, f. done.
  - split; [done|]. intros Hx. destruct (Hx eq_refl) as (? & ? & [= <-] & [= <-] & ? & _). congruence.
Qed.

Lemma authorize_Ok reg request ctx entry secrets digest :
  authorize reg request ctx = Ok (entry, secrets, digest) <-> authorized reg request ctx entry secrets digest.
Proof.
  unfold authorize, requireEntry, fail. split.
  - intros Ha. destruct (get_tool reg _ _) as [e|] eqn:Ee; [|done]. cbn [mbind result_bind] in Ha.
    apply bind_Ok in Ha as (s & Hs%map_err_Ok & Ha). apply bind_Ok in Ha as (dg & Hdg & Ha).
    apply bind_Ok in Ha as ([] & Hin%reject_if_Ok & Ha). apply bind_Ok in Ha as ([] & Hph%reject_if_Ok & Ha).
    apply bind_Ok in Ha as ([] & Hre%checkResource_Ok & Ha). apply bind_Ok in Ha as ([] & Hbo & Ha).
    apply bind_Ok in Ha as ([] & Hgr & Ha). apply bind_Ok in Ha as ([] & Hap & Ha).
    pose proof (proj1 (checkParameterBounds_Ok _ _) Hbo) as Hbo'. pose proof (proj1 (checkApproval_Ok _ _ _ _) Hap) as Hap'.
    injection Ha as <- <- <-. apply negb_false_iff in Hin, Hph. apply mem_spec in Hph. split; try done.
    intros g Hg. unfold checkGrant in Hgr. rewrite Hg in Hgr. by apply reject_if_Ok in Hgr.
  - intros [He Hs Hd Hi Hp Hr Hb Hg Ha]. rewrite He. cbn [mbind result_bind]. rewrite Hs. cbn [map_err mbind result_bind].
    rewrite Hd. cbn [mbind result_bind]. rewrite Hi. cbn [negb reject_if mbind result_bind].
    unfold checkPhase. rewrite (proj2 (mem_spec _ _)) by done. cbn [negb reject_if mbind result_bind].
    rewrite (proj2 (checkResource_Ok _ _)) by done. cbn [mbind result_bind].
    rewrite (proj2 (checkParameterBounds_Ok _ _)) by done. cbn [mbind result_bind].
    assert (checkGrant (definition entry) request (ctx_grant ctx) = Ok tt) as ->.
    { unfold checkGrant. destruct (ctx_grant ctx); [|done]. by apply reject_if_Ok, Hg. }
    cbn [mbind result_bind]. by rewrite (proj2 (checkApproval_Ok _ _ _ _)).
Qed.

Lemma existing_intent_Ok journal d request o : existing_intent journal d request = Ok o <->
  exists key j, rq_key request = Some key /\ key <> "" /\ journal = Some j /\ findByIdempotencyKey j (definition_key d) key = o /\
    forall i, o = Some i -> ai_status i = completed.
Proof.
  unfold existing_intent, fail. split.
  - destruct (rq_key request) as [[|a key]|]; [done| |done]. destruct journal as [j|]; [|done].
    intros He. exists (String a key), j. destruct (findByIdempotencyKey _ _ _) as [i|] eqn:Ef.
    + case_decide; [|done]. injection He as <-. repeat (split; [done|]). by intros ? [= <-].
    + injection He as <-. repeat (split; [done|]). done.
  - intros (key & j & -> & Hk & -> & Hf & Ho). destruct key as [|a key]; [done|]. rewrite Hf.
    destruct o as [i|]; [|done]. by rewrite decide_True by (by apply Ho).
Qed.

(** What lets an external call through: a key and a journal that hold no
    intent for it yet, neither under the key nor under the id. *)
Definition unclaimed (journal : option ActionIntentJournal) (d : ToolDefinition) (request : ToolInvocationRequest) : Prop :=
  is_external d = true -> exists key j, rq_key request = Some key /\ key <> "" /\ journal = Some j /\
    findByIdempotencyKey j (definition_key d) key = None /\ intents j !! rq_intent_id request = None.

(** The intent of a call that starts, and the journal it leaves. *)
Definition opened (journal : option ActionIntentJournal) (d : ToolDefinition) (request : ToolInvocationRequest) (digest : string)
    (intent : option ActionIntentRecord) (journal' : option ActionIntentJournal) : Prop :=
  if is_external d then
    exists j i, journal = Some j /\ intents j !! rq_intent_id request = None /\ intent = Some i /\
      i = IntentRecord (rq_intent_id request) (definition_key d) digest (rq_resource request) (rq_approval_digest request)
            (default "" (rq_key request)) pending None /\
      journal' = Some (Journal (<[rq_intent_id request := i]> (intents j)) (outputs j))
  else intent = None /\ journal' = journal.

Lemma open_for_Ok journal d request digest intent journal' : (is_external d = true -> is_Some journal) ->
  open_for journal d request digest = Ok (intent, journal') <-> opened journal d request digest intent journal'.
Proof.
  intros Hj. unfold open_for, opened. destruct journal as [j|], (is_external d).
  - split.
    + intros Ho. apply bind_Ok in Ho as ([i j'] & (Hn & -> & Hi)%open_intent_Ok & [= <- <-]). cbn in *. eauto 10.
    + intros (j0 & i & [= <-] & Hn & -> & -> & ->). unfold open_intent. cbn. rewrite Hn. done.
  - split; [by intros [= <- <-]|by intros [-> ->]].
  - by destruct (Hj eq_refl).
  - split; [by intros [= <- <-]|by intros [-> ->]].
Qed.

Lemma consumeQuota_Ok reg d reg' : consumeQuota reg d = Ok reg' <-> (0 < quotaRemaining reg d)%Z /\
  reg' = Registry (reg_tools reg) (<[definition_key d := (used_quota reg d + 1)%Z]> (reg_invocations reg)).
Proof.
  unfold consumeQuota. destruct (Z.leb_spec (quotaRemaining reg d) 0); split; try done; try lia.
  - by intros [= <-].
  - by intros [_ ->].
Qed.

(** A call starts exactly when it is authorized, its quota is not spent and,
    if it is external, its key is unclaimed. *)
Lemma prepare_Run sh request ctx call sh' : prepare sh request ctx = (Ok (Run call), sh') <->
  exists entry secrets digest intent reg journal, authorized (sh_registry sh) request ctx entry secrets digest /\
    unclaimed (sh_journal sh) (definition entry) request /\ consumeQuota (sh_registry sh) (definition entry) = Ok reg /\
    opened (sh_journal sh) (definition entry) request digest intent journal /\
    call = MkCall entry request digest secrets intent /\ sh' = Share reg journal.
Proof.
  unfold prepare. split.
  - destruct (authorize _ _ _) as [[[entry secrets] digest]|] eqn:Ea; [|done]. apply authorize_Ok in Ea. cbv zeta.
    destruct (if is_external (definition entry) then _ else _) as [[i|]|] eqn:Ex; [by destruct (evidenceOf _ _ _ _ _ _ _)| |done].
    destruct (consumeQuota _ _) as [reg|] eqn:Eq; [|done].
    destruct (open_for _ _ _ _) as [[intent journal]|] eqn:Eo; [|done]. intros [= <- <-].
    assert (Hu : is_external (definition entry) = true -> exists key j, rq_key request = Some key /\ key <> "" /\
      sh_journal sh = Some j /\ findByIdempotencyKey j (definition_key (definition entry)) key = None).
    { intros He. rewrite He in Ex. apply existing_intent_Ok in Ex as (key & j & ? & ? & ? & ? & _). eauto 10. }
    apply open_for_Ok in Eo; [|intros He; by destruct (Hu He) as (? & ? & _ & _ & -> & _)].
    exists entry, secrets, digest, intent, reg, journal. split; [done|]. split; [|done].
    intros He. destruct (Hu He) as (key & j & ? & ? & Hj & ?). exists key, j. unfold opened in Eo. rewrite He, Hj in Eo.
    destruct Eo as (? & ? & [= <-] & ? & _). done.
  - intros (entry & secrets & digest & intent & reg & journal & Ha%authorize_Ok & Hu & Hq & Ho & -> & ->). rewrite Ha. cbv zeta.
    assert ((if is_external (definition entry) then existing_intent (sh_journal sh) (definition entry) request else Ok None) = Ok None) as ->.
    { destruct (is_external (definition entry)) eqn:He; [|done]. destruct (Hu He) as (key & j & ? & ? & ? & ? & _).
      apply existing_intent_Ok. exists key, j. done. }
    rewrite Hq. apply open_for_Ok in Ho as ->; [done|].
    intros He. by destruct (Hu He) as (? & ? & _ & _ & -> & _).
Qed.

Lemma prepare_Err sh request ctx e sh' : prepare sh request ctx = (Err e, sh') ->
  sh_journal sh' = sh_journal sh /\
  (sh_registry sh' = sh_registry sh \/
   e = ThrewTool invalid_intent_transition /\ exists entry secrets digest, authorized (sh_registry sh) request ctx entry secrets digest /\
     consumeQuota (sh_registry sh) (definition entry) = Ok (sh_registry sh')).
Proof.
  unfold prepare. destruct (authorize _ _ _) as [[[entry secrets] digest]|] eqn:Ea; [|intros [= <- <-]; auto].
  apply authorize_Ok in Ea. cbv zeta.
  destruct (if is_external (definition entry) then _ else _) as [[i|]|] eqn:Ex; [| |intros [= <- <-]; auto].
  { intros [= _ <-]. auto. }
  destruct (consumeQuota _ _) as [reg|] eqn:Eq; [|intros [= <- <-]; auto].
  destruct (open_for _ _ _ _) as [[intent journal]|t] eqn:Eo; intros [= <- <-]. split; [done|]. right. split; [|eauto 10].
  unfold open_for in Eo. destruct (sh_journal sh) as [j|], (is_external _); try done.
  apply bind_Err in Eo as [Eo|(? & ? & Eo)]; [|done]. unfold open_intent in Eo. destruct (intents j !! _); [|done]. by injection Eo.
Qed.

Lemma prepare_Replay sh request ctx evidence sh' : prepare sh request ctx = (Ok (Replay evidence), sh') ->
  sh' = sh /\ exists entry secrets digest key j i, authorized (sh_registry sh) request ctx entry secrets digest /\
    rq_key request = Some key /\ sh_journal sh = Some j /\ findByIdempotencyKey j (definition_key (definition entry)) key = Some i /\
    ai_status i = completed /\
    evidenceOf (definition entry) digest (or_else (outputOf j (ai_id i)) JNull) 0 false true (Some i) = Ok evidence.
Proof.
  unfold prepare. destruct (authorize _ _ _) as [[[entry secrets] digest]|] eqn:Ea; [|done]. apply authorize_Ok in Ea. cbv zeta.
  destruct (is_external (definition entry)).
  - destruct (existing_intent _ _ _) as [[i|]|] eqn:Ex; [| |done].
    + apply existing_intent_Ok in Ex as (key & j & Hk & _ & Hj & Hf & Hc). rewrite Hj. intros [= He <-]. split; [done|].
      exists entry, secrets, digest, key, j, i. repeat (split; [done || auto|]).
      destruct (evidenceOf _ _ _ _ _ _ _); [|done]. by injection He as ->.
    + destruct (consumeQuota _ _); [|done]. by destruct (open_for _ _ _ _) as [[? ?]|].
  - destruct (consumeQuota _ _); [|done]. by destruct (open_for _ _ _ _) as [[? ?]|].
Qed.
End check_facts.

(* ------------------------------------------------------------------ *)
(** ** What an attempt leaves *)

Section settle_facts.
Context {W : Type} `{Hash}.
Implicit Types call : Call W.

Lemma close_no_intent journal output : close_intent None journal output = Some (None, journal).
Proof. done. Qed.

Lemma settle_no_intent call n s journal : c_intent call = None -> (settle call n s journal).2 = journal.
Proof.
  intros Hi. unfold settle, attempt. rewrite Hi.
  assert (forall f, (match f with
    | FailInvalidOutput => (Failed (ThrewTool invalid_output), journal)
    | _ => if is_external (definition (c_entry call)) then (Failed (ThrewTool uncertain_result), journal)
           else if retryable (definition (c_entry call)) && (n <? maxAttempts (definition (c_entry call)))%Z then (Again, journal)
           else (Failed (ThrewTool match f with FailTimeout => tool_timeout | _ => tool_failed end), journal)
    end).2 = journal) as Hf by (intros []; repeat case_match; done).
  destruct s as [raw| | |]; [|apply (Hf FailOther)|done|apply (Hf FailTimeout)].
  destruct (validateOutput _ raw); cbn [negb]; [|done]. destruct (redactOutput _ _ _) as [redacted was]. cbn.
  destruct (evidenceOf _ _ _ _ _ _ _); [done|]. apply (Hf FailOther).
Qed.

(** What the call of an external tool leaves its intent in. *)
Definition digestible (output : jsval) : bool := is_ok (contentDigest (or_else output JNull)).

Definition final_status call (s : settlement) : ExternalActionStatus :=
  match s with
  | ThrewInvalidOutput => pending
  | Threw | TimedOut => uncertain
  | Returned raw =>
      let kept := if validateOutput (c_entry call) raw
                  then (redactOutput (definition (c_entry call)) raw (rs_values (c_secrets call))).1 else raw in
      if digestible kept then completed else uncertain
  end.

(** What the caller sees of it. *)
Definition final_outcome call (s : settlement) (o : outcome) (r : ActionIntentRecord) : Prop :=
  match final_status call s with
  | pending => o = Failed (ThrewTool invalid_output)
  | uncertain => o = Failed (ThrewTool uncertain_result)
  | completed =>
      exists raw, s = Returned raw /\
        (o = Failed (ThrewTool invalid_output) /\ validateOutput (c_entry call) raw = false \/
         exists evidence, o = Answered evidence /\ validateOutput (c_entry call) raw = true /\ ev_intent evidence = Some r /\
           ev_replayed evidence = false /\ ai_result_digest r = Some (output_digest evidence) /\
           ev_output evidence = (redactOutput (definition (c_entry call)) raw (rs_values (c_secrets call))).1)
  end.

Lemma close_pending i j output : ai_status i = pending ->
  match contentDigest (or_else output JNull) with
  | Err _ => close_intent (Some i) (Some j) output = None
  | Ok dg => exists r, close_intent (Some i) (Some j) output = Some (Some r, Some (Journal (<[ai_id i := r]> (intents j)) (outputs j))) /\
      same_intent i r /\ ai_status r = completed /\ ai_result_digest r = Some dg
  end.
Proof.
  intros Hp. unfold close_intent. destruct (contentDigest _) as [dg|]; [|done].
  unfold complete_intent, move_intent, transition. rewrite Hp. cbn. eexists. split; [done|]. done.
Qed.

Lemma uncertain_pending i j : ai_status i = pending ->
  exists r, markUncertain j i = Ok (r, Journal (<[ai_id i := r]> (intents j)) (outputs j)) /\ same_intent i r /\ ai_status r = uncertain.
Proof. intros Hp. unfold markUncertain, move_intent, transition. rewrite Hp. cbn. eexists. split; [done|]. done. Qed.

Lemma settle_external call n s j i : is_external (definition (c_entry call)) = true -> c_intent call = Some i -> ai_status i = pending ->
  exists o j' r, settle call n s (Some j) = (o, Some j') /\ o <> Again /\ same_intent i r /\ ai_status r = final_status call s /\
    intents j' = (if decide (final_status call s = pending) then intents j else <[ai_id i := r]> (intents j)) /\
    final_outcome call s o r.
Proof.
  intros He Hi Hp. unfold settle, final_outcome.
  destruct (uncertain_pending i j Hp) as (ru & Hu & Hsu & Hstu).
  assert (Hunc : forall f, f <> FailInvalidOutput -> attempt call n s (Some j) = (Err f, Some j) -> final_status call s = uncertain ->
    exists o j' r, (match attempt call n s (Some j) with
      | (Ok evidence, journal') => (Answered evidence, journal')
      | (Err FailInvalidOutput, journal') => (Failed (ThrewTool invalid_output), journal')
      | (Err f, journal') =>
        if is_external (definition (c_entry call)) then
          match c_intent call, journal' with
          | Some i, Some j => match markUncertain j i with
            | Ok (_, j') => (Failed (ThrewTool uncertain_result), Some j') | Err e => (Failed e, journal') end
          | _, _ => (Failed (ThrewTool uncertain_result), journal') end
        else if retryable (definition (c_entry call)) && (n <? maxAttempts (definition (c_entry call)))%Z then (Again, journal')
        else (Failed (ThrewTool match f with FailTimeout => tool_timeout | _ => tool_failed end), journal')
      end) = (o, Some j') /\ o <> Again /\ same_intent i r /\ ai_status r = uncertain /\
      intents j' = (if decide (uncertain = pending) then intents j else <[ai_id i := r]> (intents j)) /\
      o = Failed (ThrewTool uncertain_result)).
  { intros f Hf Ha Hs. rewrite Ha, He, Hi, Hu. exists (Failed (ThrewTool uncertain_result)), (Journal (<[ai_id i := ru]> (intents j)) (outputs j)), ru.
    destruct f; done. }
  destruct s as [raw| | |].
  - unfold attempt in *. unfold final_status in *. destruct (validateOutput _ raw) eqn:Ev; cbn [negb] in *.
    + destruct (redactOutput _ raw _) as [kept was] eqn:Er. cbn [fst] in *. pose proof (close_pending i j kept Hp) as Hc.
      unfold digestible in *. rewrite Hi in *. unfold evidenceOf in *.
      destruct (contentDigest (or_else kept JNull)) as [dg|] eqn:Ed; cbn in *.
      * destruct Hc as (r & -> & Hsame & Hst & Hres). cbn. eexists _, _, r. split; [done|]. split; [done|].
        split; [done|]. split; [done|]. split; [done|]. exists raw. split; [done|]. right. eexists. split; [done|].
        split_and!; try done. by rewrite Er.
      * rewrite Hc in *. by apply (Hunc FailOther).
    + pose proof (close_pending i j raw Hp) as Hc. unfold digestible in *. rewrite Hi in *.
      destruct (contentDigest (or_else raw JNull)) as [dg|] eqn:Ed; cbn in *.
      * destruct Hc as (r & -> & Hsame & Hst & Hres). cbn. eexists _, _, r. split; [done|]. split; [done|].
        split; [done|]. split; [done|]. split; [done|]. exists raw. split; [done|]. by left.
      * rewrite Hc in *. by apply (Hunc FailOther).
  - by apply (Hunc FailOther).
  - cbn. eexists _, j, i. split; [done|]. done.
  - by apply (Hunc FailTimeout).
Qed.

Lemma settle_journal call n s j o journal : settle call n s (Some j) = (o, journal) -> exists j', journal = Some j'.
Proof.
  intros Hs. assert (exists j', (settle call n s (Some j)).2 = Some j') as [j' Hj]; [|rewrite Hs in Hj; by exists j'].
  assert (exists r j1, attempt call n s (Some j) = (r, Some j1)) as (r & j1 & Ha).
  { unfold attempt. destruct s as [raw| | |]; [|by eauto..].
    assert (forall v, match close_intent (c_intent call) (Some j) v with Some (_, o') => exists j1, o' = Some j1 | None => True end) as Hclose.
    { intros v. unfold close_intent. destruct (c_intent call) as [i|]; [|by exists j]. destruct (contentDigest _); [|done].
      destruct (complete_intent _ _ _) as [[r1 j1]|]; [by exists j1|done]. }
    destruct (negb _).
    - specialize (Hclose raw). destruct (close_intent _ _ raw) as [[c1 o1]|]; [destruct Hclose as [j1 ->]|]; by eauto.
    - destruct (redactOutput _ _ _) as [v was]. specialize (Hclose v). destruct (close_intent _ _ v) as [[c1 o1]|]; [destruct Hclose as [j1 ->]|by eauto].
      destruct c1, (evidenceOf _ _ _ _ _ _ _); by eauto. }
  unfold settle. rewrite Ha. destruct r as [ev|f]; [by eauto|].
  repeat case_match; by eauto.
Qed.

Lemma settle_again call n s journal o journal' : settle call n s journal = (o, journal') -> o = Again ->
  is_external (definition (c_entry call)) = false /\ (n < maxAttempts (definition (c_entry call)))%Z.
Proof.
  unfold settle. destruct (attempt _ _ _ _) as [[ev|f] j0]; [by intros [= <- _]|].
  destruct (is_external _).
  - intros Hs ->. destruct f; try discriminate Hs; repeat case_match; discriminate Hs.
  - intros Hs ->. split; [done|]. destruct f; [discriminate Hs|..]; destruct (_ && _) eqn:E; try discriminate Hs;
      apply andb_true_iff in E as [_ ?%Z.ltb_lt]; lia.
Qed.
End settle_facts.

(* ------------------------------------------------------------------ *)
(** ** One call alone *)

Section alone.
Context {W : Type} `{Hash} `{SchemaCompiler}.

(** The world after [m] calls of the handler. *)
Fixpoint calls (m : nat) (call : Call W) (w : W) : W :=
  match m with 0 => w | S m' => calls m' call (call_handler call w).2 end.

Lemma entry_legal (reg : ToolRegistry W) name version e : registry_ok reg -> get_tool reg name version = Some e ->
  legal_definition (definition e).
Proof.
  intros Hok. destruct version as [v|].
  - intros He. by destruct (ok_entries _ Hok _ _ _ He) as (_ & _ & Hl).
  - intros (v & He & _)%unversioned_spec; [|done]. by destruct (ok_entries _ Hok _ _ _ He) as (_ & _ & Hl).
Qed.

Lemma attempt_loop_total fuel : forall (call : Call W) k sh w,
  (Z.of_nat fuel = maxAttempts (definition (c_entry call)) - k)%Z -> 0 < fuel ->
  exists r sh' m, attempt_loop fuel call k sh w = Some (r, sh', calls m call w) /\ 1 <= m <= fuel /\
    (is_external (definition (c_entry call)) = true -> m = 1).
Proof.
  induction fuel as [|fuel IH]; intros call k sh w Hf Hpos; [lia|]. cbn.
  destruct (call_handler call w) as [s w'] eqn:Ec. destruct (settle call (k + 1) s (sh_journal sh)) as [o journal] eqn:Es.
  assert (Hw : w' = calls 1 call w) by (cbn; by rewrite Ec).
  destruct o as [ev|e|].
  - exists (Ok ev), (Share (sh_registry sh) journal), 1. rewrite Hw. split; [done|]. split; [lia|done].
  - exists (Err e), (Share (sh_registry sh) journal), 1. rewrite Hw. split; [done|]. split; [lia|done].
  - destruct (settle_again _ _ _ _ _ _ Es eq_refl) as [Hn Hlt].
    destruct (IH call (k + 1)%Z (Share (sh_registry sh) journal) w') as (r & sh' & m & -> & Hm & _); [lia..|].
    exists r, sh', (S m). cbn. rewrite Ec. split; [done|]. split; [lia|congruence].
Qed.

Lemma maxAttempts_pos d : legal_definition d -> (1 <= maxAttempts d)%Z.
Proof. intros Hl. pose proof (legal_retries _ Hl). unfold maxAttempts. destruct (retryable d); lia. Qed.

Lemma external_once fuel (call : Call W) k sh w : is_external (definition (c_entry call)) = true ->
  attempt_loop (S fuel) call k sh w =
    let (s, w') := call_handler call w in
    let (o, journal) := settle call (k + 1) s (sh_journal sh) in
    match o with
    | Answered ev => Some (Ok ev, Share (sh_registry sh) journal, w')
    | Failed e => Some (Err e, Share (sh_registry sh) journal, w')
    | Again => None
    end.
Proof.
  intros He. cbn. destruct (call_handler call w) as [s w']. destruct (settle _ _ _ _) as [o journal] eqn:Es.
  destruct o; [done..|]. destruct (settle_again _ _ _ _ _ _ Es eq_refl). congruence.
Qed.
(** Every invocation ends, after so many calls of its handler. *)
Lemma invocation_ends (sh : Shared W) request ctx w : registry_ok (sh_registry sh) ->
  exists r sh' w', invokeTool sh request ctx w = Some (r, sh', w') /\
    match (prepare sh request ctx).1 with
    | Ok (Run call) => exists m, w' = calls m call w /\ (1 <= Z.of_nat m <= 1 + max_retries (definition (c_entry call)))%Z /\
        (is_external (definition (c_entry call)) = true -> m = 1)
    | _ => w' = w
    end.
Proof.
  intros Hreg. unfold invokeTool. destruct (prepare sh request ctx) as [[[ev|call]|e] sh'] eqn:Hp.
  1,3: by (do 3 eexists).
  assert (Hl : legal_definition (definition (c_entry call))).
  { apply prepare_Run in Hp as (entry & secrets & digest & intent & reg & journal & Ha & _ & _ & _ & -> & _).
    eapply entry_legal; [exact Hreg|]. exact (au_entry _ _ _ _ _ _ Ha). }
  pose proof (maxAttempts_pos _ Hl). pose proof (legal_retries _ Hl).
  destruct (attempt_loop_total (Z.to_nat (maxAttempts (definition (c_entry call)))) call 0 sh' w) as (r & sh2 & m & -> & Hm & Hx); [lia..|].
  exists r, sh2, (calls m call w). split; [done|]. cbn. exists m. split; [done|]. split; [|done].
  unfold maxAttempts in Hm. destruct (retryable _); lia.
Qed.
(** An invocation changes the registry as the registry's operations do. *)
Lemma prepare_registry (sh : Shared W) request ctx r sh' : registry_ok (sh_registry sh) -> prepare sh request ctx = (r, sh') ->
  rtc registry_step (sh_registry sh) (sh_registry sh').
Proof.
  intros Hok Hp. assert (Hstep : forall entry secrets digest reg, authorized (sh_registry sh) request ctx entry secrets digest ->
    consumeQuota (sh_registry sh) (definition entry) = Ok reg -> rtc registry_step (sh_registry sh) reg).
  { intros entry secrets digest reg Ha Hq. pose proof (au_entry _ _ _ _ _ _ Ha) as He. apply rtc_once.
    destruct (rq_version request) as [v|]; [by eapply step_consume|].
    apply unversioned_spec in He as (v & He & _); [by eapply step_consume|done]. }
  destruct r as [[ev|call]|e].
  - by destruct (prepare_Replay _ _ _ _ _ Hp) as [-> _].
  - apply prepare_Run in Hp as (entry & secrets & digest & intent & reg & journal & Ha & _ & Hq & _ & _ & ->). by eapply Hstep.
  - destruct (prepare_Err _ _ _ _ _ Hp) as [_ [->|(_ & entry & secrets & digest & Ha & Hq)]]; [done|]. by eapply Hstep.
Qed.

Lemma loop_registry fuel : forall (call : Call W) k sh w r sh' w',
  attempt_loop fuel call k sh w = Some (r, sh', w') -> sh_registry sh' = sh_registry sh.
Proof.
  induction fuel as [|fuel IH]; intros call k sh w r sh' w'; cbn; [done|].
  destruct (call_handler call w) as [s w1]. destruct (settle _ _ _ _) as [[] journal]; [by intros [= _ <- _]..|]. by intros ->%IH.
Qed.

Lemma invoke_registry (sh : Shared W) request ctx w r sh' w' : registry_ok (sh_registry sh) ->
  invokeTool sh request ctx w = Some (r, sh', w') -> rtc registry_step (sh_registry sh) (sh_registry sh').
Proof.
  intros Hok. unfold invokeTool. destruct (prepare sh request ctx) as [p sh1] eqn:Hp. pose proof (prepare_registry _ _ _ _ _ Hok Hp) as Hr.
  destruct p as [[ev|call]|e]; [by intros [= _ <- _]| |by intros [= _ <- _]]. by intros ->%loop_registry.
Qed.
End alone.

(* ------------------------------------------------------------------ *)
(** ** Calls that interleave *)

(** The records of [j] that [j'] does not hold: their id is gone, or is taken by
    a record of another tool or key. *)
Definition still_holds (j : ActionIntentJournal) (id : string) (r : ActionIntentRecord) : bool :=
  match intents j !! id with Some r' => holds_key (ai_tool r) (ai_key r) r' | None => false end.
Definition lost (j j' : ActionIntentJournal) : list (string * string) :=
  (fun p => (ai_tool p.2, ai_key p.2)) <$> map_to_list (filter (fun p => still_holds j' p.1 p.2 = false) (intents j)).
Definition lost_of (j j' : option ActionIntentJournal) : list (string * string) :=
  match j, j' with Some j, Some j' => lost j j' | _, _ => [] end.

(** Everything a call does before its handler runs, and everything between
    two waits, is one step of the event loop. [sys_flights] are the calls
    whose handler runs, with the number of the attempt; [sys_effects] records
    the executions of external handlers and [sys_released] the intents the
    journal lost, each by tool and key. *)
Record System (W : Type) : Type := Sys
  { sys_shared : Shared W; sys_flights : list (Call W * Z); sys_effects : list (string * string);
    sys_released : list (string * string) }.
Arguments Sys {W}. Arguments sys_shared {W}. Arguments sys_flights {W}. Arguments sys_effects {W}. Arguments sys_released {W}.

Definition effect_of {W} (call : Call W) : list (string * string) :=
  match c_intent call with Some i => [(ai_tool i, ai_key i)] | None => [] end.

Section system.
Context {W : Type} `{Hash}.

Definition in_flight (s : System W) (id : string) : Prop :=
  exists call n i, (call, n) ∈ sys_flights s /\ c_intent call = Some i /\ ai_id i = id.

(** The journal does not look at what it holds when a reconciliation comes back
    with a record: any record will do, also one that was read long ago, as far
    as its own status admits the move. [may] says which of them come back. *)
Inductive tool_step (may : System W -> ActionIntentRecord -> Prop) : System W -> System W -> Prop :=
| step_begin s request ctx call sh' :
    prepare (sys_shared s) request ctx = (Ok (Run call), sh') ->
    tool_step may s (Sys sh' (sys_flights s ++ [(call, 1%Z)]) (sys_effects s ++ effect_of call) (sys_released s))
| step_answer_at_once s request ctx r sh' :
    prepare (sys_shared s) request ctx = (r, sh') -> (forall call, r <> Ok (Run call)) ->
    tool_step may s (Sys sh' (sys_flights s) (sys_effects s) (sys_released s))
| step_settle s before_ call n after_ outcome_ o journal :
    sys_flights s = before_ ++ (call, n) :: after_ ->
    settle call n outcome_ (sh_journal (sys_shared s)) = (o, journal) -> o <> Again ->
    tool_step may s (Sys (Share (sh_registry (sys_shared s)) journal) (before_ ++ after_) (sys_effects s)
                       (sys_released s ++ lost_of (sh_journal (sys_shared s)) journal))
| step_retry s before_ call n after_ outcome_ journal :
    sys_flights s = before_ ++ (call, n) :: after_ ->
    settle call n outcome_ (sh_journal (sys_shared s)) = (Again, journal) ->
    tool_step may s (Sys (Share (sh_registry (sys_shared s)) journal) (before_ ++ (call, n + 1)%Z :: after_)
                       (sys_effects s ++ effect_of call) (sys_released s))
| step_release s j intent j' :
    may s intent -> sh_journal (sys_shared s) = Some j -> releaseForRetry j intent = Ok j' ->
    tool_step may s (Sys (Share (sh_registry (sys_shared s)) (Some j')) (sys_flights s) (sys_effects s)
                       (sys_released s ++ lost j j'))
| step_applied s j intent r j' :
    may s intent -> sh_journal (sys_shared s) = Some j -> markReconciledApplied j intent = Ok (r, j') ->
    tool_step may s (Sys (Share (sh_registry (sys_shared s)) (Some j')) (sys_flights s) (sys_effects s)
                       (sys_released s ++ lost j j')).

(** Any record, and the record the journal holds of a call that is not running. *)
Definition any_record (s : System W) (intent : ActionIntentRecord) : Prop := True.
Definition idle_record (s : System W) (intent : ActionIntentRecord) : Prop :=
  (exists j, sh_journal (sys_shared s) = Some j /\ intents j !! ai_id intent = Some intent) /\ ~ in_flight s (ai_id intent).

(** The number of intents of [j] under a key, and of records of a log. *)
Definition claims (j : ActionIntentJournal) (tool key : string) : nat :=
  size (filter (fun p => holds_key tool key p.2 = true) (intents j)).
Definition occurs (log : list (string * string)) (tool key : string) : nat :=
  length (filter (fun p => p = (tool, key)) log).
#[global] Arguments claims : simpl never.
#[global] Arguments occurs : simpl never.

Lemma occurs_app l l' tool key : occurs (l ++ l') tool key = occurs l tool key + occurs l' tool key.
Proof. unfold occurs. by rewrite filter_app, length_app. Qed.

Lemma occurs_one t k tool key : occurs [(t, k)] tool key = if decide (t = tool /\ k = key) then 1 else 0.
Proof. unfold occurs. rewrite filter_cons, filter_nil. repeat case_decide; naive_solver. Qed.

Lemma holds_key_spec tool key r : holds_key tool key r = true <-> ai_tool r = tool /\ ai_key r = key.
Proof. unfold holds_key. by rewrite andb_true_iff, !bool_decide_eq_true. Qed.

Lemma claims_insert m o id r tool key : m !! id = None ->
  claims (Journal (<[id := r]> m) o) tool key = occurs [(ai_tool r, ai_key r)] tool key + claims (Journal m o) tool key.
Proof.
  intros Hn. rewrite occurs_one. unfold claims. cbn [intents]. case_decide as Hk; rewrite <- holds_key_spec in Hk.
  - rewrite map_filter_insert_True by done. rewrite map_size_insert_None; [done|]. apply map_lookup_filter_None. by left.
  - rewrite map_filter_insert_not'; [done|done|]. intros y. congruence.
Qed.

Lemma claims_delete m o id r tool key : m !! id = Some r ->
  claims (Journal m o) tool key = occurs [(ai_tool r, ai_key r)] tool key + claims (Journal (delete id m) o) tool key.
Proof. intros Hr. rewrite <- (insert_delete_id m id r) at 1 by done. apply claims_insert, lookup_delete_eq. Qed.

Lemma claims_outputs m o o' tool key : claims (Journal m o) tool key = claims (Journal m o') tool key.
Proof. done. Qed.

Lemma claims_replace m o id r r' tool key : m !! id = Some r -> ai_tool r' = ai_tool r -> ai_key r' = ai_key r ->
  claims (Journal (<[id := r']> m) o) tool key = claims (Journal m o) tool key.
Proof.
  intros Hr Ht Hk. rewrite (claims_delete m o id r), <- (insert_delete_eq m id r') by done.
  rewrite claims_insert by apply lookup_delete_eq. by rewrite Ht, Hk.
Qed.

Lemma unclaimed_zero j tool key : findByIdempotencyKey j tool key = None -> claims j tool key = 0.
Proof.
  rewrite find_key_None. intros Hn. unfold claims. apply map_size_empty_iff, map_empty. intros id.
  apply map_lookup_filter_None. right. intros r Hr Hk. specialize (Hn _ _ Hr). cbn in Hk. congruence.
Qed.

(** What a change at one id loses. *)
Lemma lost_delete m o o' id r : m !! id = Some r -> lost (Journal m o) (Journal (delete id m) o') = [(ai_tool r, ai_key r)].
Proof.
  intros Hr. unfold lost. cbn [intents].
  assert (filter (fun p => still_holds (Journal (delete id m) o') p.1 p.2 = false) m = {[id := r]}) as ->; [|by rewrite map_to_list_singleton].
  apply map_eq. intros i. destruct (decide (i = id)) as [->|Hne].
  - rewrite lookup_singleton_eq. apply map_lookup_filter_Some. split; [done|]. unfold still_holds. cbn. by rewrite lookup_delete_eq.
  - rewrite lookup_singleton_ne by done. apply map_lookup_filter_None. right. intros x Hx. cbn. unfold still_holds. cbn.
    rewrite lookup_delete_ne, Hx by done. by rewrite (proj2 (holds_key_spec _ _ _)).
Qed.

Lemma lost_same j j' : (forall id r, intents j !! id = Some r -> exists r', intents j' !! id = Some r' /\ ai_tool r' = ai_tool r /\ ai_key r' = ai_key r) ->
  lost j j' = [].
Proof.
  intros Hsame. unfold lost.
  assert (filter (fun p => still_holds j' p.1 p.2 = false) (intents j) = ∅) as ->; [|by rewrite map_to_list_empty].
  apply map_empty. intros id. apply map_lookup_filter_None. right. intros r Hr. cbn. destruct (Hsame _ _ Hr) as (r' & Hr' & Hk). unfold still_holds.
  by rewrite Hr', (proj2 (holds_key_spec _ _ _) Hk).
Qed.

Lemma lost_refl j : lost j j = [].
Proof. apply lost_same. intros id r Hr. by exists r. Qed.

Lemma lost_replace j o id r r' : intents j !! id = Some r -> ai_tool r' = ai_tool r -> ai_key r' = ai_key r ->
  lost j (Journal (<[id := r']> (intents j)) o) = [].
Proof.
  intros Hr Ht Hk. apply lost_same. intros id' x Hx. cbn. destruct (decide (id' = id)) as [->|Hne].
  - rewrite lookup_insert_eq. assert (x = r) as -> by congruence. by exists r'.
  - rewrite lookup_insert_ne by done. by exists x.
Qed.

(** A key is unclaimed again only when an intent was lost. *)
Lemma claims_lost j j' tool key : 1 `min` claims j tool key <= 1 `min` claims j' tool key + occurs (lost j j') tool key.
Proof.
  destruct (decide (claims j tool key = 0)) as [->|Hj]; [lia|]. destruct (decide (claims j' tool key = 0)) as [Hj'|]; [|lia].
  assert (1 <= occurs (lost j j') tool key); [|lia]. unfold claims in Hj, Hj'. apply map_size_empty_iff in Hj'.
  rewrite map_size_ne_0_lookup in Hj. destruct Hj as (id & r & [Hr Hk]%map_lookup_filter_Some). cbn in Hk.
  assert ((tool, key) ∈ lost j j') as Hin.
  { unfold lost. apply list_elem_of_fmap. exists (id, r). apply holds_key_spec in Hk as [<- <-]. split; [done|].
    apply elem_of_map_to_list, map_lookup_filter_Some. split; [done|]. cbn. unfold still_holds.
    destruct (intents j' !! id) as [r'|] eqn:E; [|done]. apply not_true_is_false. intros Hk.
    apply (f_equal (lookup id)) in Hj'. rewrite lookup_empty, map_lookup_filter, E in Hj'. cbn in Hj'. by case_guard. }
  unfold occurs. destruct (length _) eqn:E; [|lia]. apply nil_length_inv in E. exfalso.
  apply (elem_of_nil (tool, key)). rewrite <- E. by apply list_elem_of_filter.
Qed.

(** ** The invariant of the interleaving *)

(** The intents of a list of flights. *)
Definition flight_ids (flights : list (Call W * Z)) : list string :=
  omap (fun f => ai_id <$> c_intent f.1) flights.

Record system_ok (j0 : ActionIntentJournal) (s : System W) (j : ActionIntentJournal) : Prop := {
  so_journal : sh_journal (sys_shared s) = Some j;
  so_ids : journal_ok j;
  so_flights : forall call n, (call, n) ∈ sys_flights s ->
    if is_external (definition (c_entry call)) then
      exists i, c_intent call = Some i /\ intents j !! ai_id i = Some i /\ ai_status i = pending
    else c_intent call = None;
  so_distinct : NoDup (flight_ids (sys_flights s));
  so_count : forall tool key,
    occurs (sys_effects s) tool key + claims j0 tool key = claims j tool key + occurs (sys_released s) tool key;
  so_unique : forall tool key, claims j0 tool key <= 1 -> claims j tool key <= 1 }.

(** A change of the journal at one intent, which keeps its tool and key. *)
Lemma so_count_replace j o id r r' (effects released : list (string * string)) j0 :
  intents j !! id = Some r -> ai_tool r' = ai_tool r -> ai_key r' = ai_key r ->
  (forall tool key, occurs effects tool key + claims j0 tool key = claims j tool key + occurs released tool key) ->
  forall tool key, occurs effects tool key + claims j0 tool key =
    claims (Journal (<[id := r']> (intents j)) o) tool key + occurs released tool key.
Proof.
  intros Hr Ht Hk Hc tool key. rewrite (claims_replace _ _ _ r r') by done. rewrite Hc. by destruct j.
Qed.

Lemma in_flight_ids s id : in_flight s id <-> id ∈ flight_ids (sys_flights s).
Proof.
  unfold in_flight, flight_ids. rewrite list_elem_of_omap. split.
  - intros (call & n & i & Hin & Hi & <-). exists (call, n). split; [done|]. cbn. by rewrite Hi.
  - intros ([call n] & Hin & Hi). cbn in Hi. destruct (c_intent call) as [i|] eqn:E; [|done]. injection Hi as <-. eauto 10.
Qed.

Lemma flight_ids_app l l' : flight_ids (l ++ l') = flight_ids l ++ flight_ids l'.
Proof. apply omap_app. Qed.

Lemma claims_intents j j' tool key : intents j = intents j' -> claims j tool key = claims j' tool key.
Proof. unfold claims. by intros ->. Qed.

Definition flight_ok (j : ActionIntentJournal) (f : Call W * Z) : Prop :=
  if is_external (definition (c_entry f.1)) then
    exists i, c_intent f.1 = Some i /\ intents j !! ai_id i = Some i /\ ai_status i = pending
  else c_intent f.1 = None.

(** A flight is untouched by a change at an intent that is not its own. *)
Lemma flights_elsewhere j j' id (flights : list (Call W * Z)) :
  (forall id', id' <> id -> intents j' !! id' = intents j !! id') -> id ∉ flight_ids flights ->
  Forall (flight_ok j) flights -> Forall (flight_ok j') flights.
Proof.
  intros Hj Hid Hf. rewrite Forall_forall in Hf. apply Forall_forall. intros f Hin. specialize (Hf f Hin). unfold flight_ok in *.
  destruct (is_external _); [|done]. destruct Hf as (i & Hi & Hl & Hp). exists i. split; [done|]. split; [|done].
  rewrite Hj; [done|]. intros Heq. apply Hid. unfold flight_ids. rewrite list_elem_of_omap. exists f. by rewrite Hi, <- Heq.
Qed.

Lemma system_flights j0 s j : system_ok j0 s j -> Forall (flight_ok j) (sys_flights s).
Proof. intros Hok. apply Forall_forall. intros [call n] Hin. by apply (so_flights _ _ _ Hok) in Hin. Qed.

Lemma flight_known j flights id : Forall (flight_ok j) flights -> id ∈ flight_ids flights ->
  exists i, intents j !! id = Some i /\ ai_status i = pending /\ ai_id i = id.
Proof.
  unfold flight_ids. rewrite list_elem_of_omap, Forall_forall. intros Hf (f & Hin & Hi). specialize (Hf f Hin).
  unfold flight_ok in Hf. destruct (c_intent f.1) as [i|] eqn:E; [|done]. injection Hi as <-.
  destruct (is_external _); [|done]. destruct Hf as (i' & [= <-] & Hl & Hp). eauto.
Qed.

(** The invariant, from what a step shows of it. *)
Lemma system_intro j0 sh flights effects released j :
  sh_journal sh = Some j -> journal_ok j -> Forall (flight_ok j) flights -> NoDup (flight_ids flights) ->
  (forall tool key, occurs effects tool key + claims j0 tool key = claims j tool key + occurs released tool key) ->
  (forall tool key, claims j0 tool key <= 1 -> claims j tool key <= 1) ->
  system_ok j0 (Sys sh flights effects released) j.
Proof. intros ? ? Hf ? ? ?. rewrite Forall_forall in Hf. split; try done. intros call n Hin. by apply (Hf (call, n)). Qed.

(** A completed intent stays, and no effect is added under a claimed key. *)
Definition keeps (j : ActionIntentJournal) (effects : list (string * string)) (j' : ActionIntentJournal)
    (effects' : list (string * string)) : Prop :=
  (forall id r, intents j !! id = Some r -> ai_status r = completed -> intents j' !! id = Some r) /\
  (forall tool key id r, intents j !! id = Some r -> holds_key tool key r = true ->
     occurs effects' tool key = occurs effects tool key).

Lemma keeps_at j effects j' id : (forall id', id' <> id -> intents j' !! id' = intents j !! id') ->
  (forall r, intents j !! id = Some r -> ai_status r <> completed) -> keeps j effects j' effects.
Proof.
  intros Hj Hid. split; [|done]. intros id' r Hr Hc. rewrite Hj; [done|]. intros ->. by eapply Hid.
Qed.

Lemma begin_ok j0 s j request ctx call sh' : system_ok j0 s j ->
  prepare (sys_shared s) request ctx = (Ok (Run call), sh') ->
  exists j', system_ok j0 (Sys sh' (sys_flights s ++ [(call, 1%Z)]) (sys_effects s ++ effect_of call) (sys_released s)) j' /\
    keeps j (sys_effects s) j' (sys_effects s ++ effect_of call).
Proof.
  intros Hok (entry & secrets & digest & intent & reg & journal & _ & Hu & _ & Ho & -> & ->)%prepare_Run.
  pose proof (system_flights _ _ _ Hok) as Hf. destruct Hok as [Hj Hids _ Hd Hc Hq]. unfold opened in Ho. unfold unclaimed in Hu.
  rewrite Hj in Hu, Ho. destruct (is_external (definition entry)) eqn:He.
  - destruct Ho as (j1 & i & [= <-] & Hn & -> & Hi & ->). destruct (Hu eq_refl) as (key & ? & Hkey & _ & [= <-] & Hfind & _).
    assert (Hnew : rq_intent_id request ∉ flight_ids (sys_flights s)).
    { intros Hin. destruct (flight_known _ _ _ Hf Hin) as (? & Hs & _). congruence. }
    eexists. split; [apply system_intro; [done|..]|split].
    + intros id r. cbn. rewrite lookup_insert_Some. intros [[<- <-]|[_ Hr]]; [by rewrite Hi|by apply Hids].
    + apply Forall_app. split; [|apply Forall_singleton].
      * eapply (flights_elsewhere j _ (rq_intent_id request)); [|done|done]. intros id' Hid. cbn. by rewrite lookup_insert_ne.
      * unfold flight_ok. cbn. rewrite He. exists i. split; [done|]. rewrite Hi. cbn. rewrite lookup_insert_eq. done.
    + rewrite flight_ids_app. apply NoDup_app. split; [done|]. unfold flight_ids at 2 3. cbn. rewrite Hi. cbn. split; [|apply NoDup_singleton].
      intros id Hin ->%list_elem_of_singleton. done.
    + intros tool k. rewrite occurs_app. unfold effect_of. cbn [c_intent]. rewrite claims_insert by done.
      specialize (Hc tool k). destruct j as [m o]. cbn [intents outputs] in *. lia.
    + intros tool k Hle. rewrite claims_insert by done. rewrite occurs_one. specialize (Hq _ _ Hle). destruct j as [m o]. cbn [intents outputs] in *.
      case_decide as Hk; [|lia]. destruct Hk as [Ht Hk]. rewrite Hi in Ht, Hk. cbn in Ht, Hk. rewrite Hkey in Hk. cbn in Hk. subst tool k.
      rewrite (unclaimed_zero _ _ _ Hfind). lia.
    + intros id r Hr _. cbn. rewrite lookup_insert_ne; [done|]. congruence.
    + intros tool k id r Hr Hk. rewrite occurs_app. unfold effect_of. cbn [c_intent]. rewrite occurs_one.
      rewrite decide_False; [lia|]. rewrite Hi. cbn. rewrite Hkey. cbn. intros [<- <-]. rewrite find_key_None in Hfind.
      specialize (Hfind _ _ Hr). congruence.
  - destruct Ho as [-> ->]. exists j. split; [apply system_intro; [done|done|..|done]|].
    + apply Forall_app. split; [done|]. apply Forall_singleton. unfold flight_ok. cbn. by rewrite He.
    + rewrite flight_ids_app. unfold flight_ids at 2. cbn. by rewrite app_nil_r.
    + unfold effect_of. cbn. by rewrite app_nil_r.
    + unfold effect_of. cbn. by rewrite app_nil_r.
Qed.

Lemma settle_flight_ok j0 s j before_ call n after_ outcome_ o journal : system_ok j0 s j ->
  sys_flights s = before_ ++ (call, n) :: after_ -> settle call n outcome_ (sh_journal (sys_shared s)) = (o, journal) ->
  exists j', system_ok j0 (Sys (Share (sh_registry (sys_shared s)) journal) (before_ ++ after_) (sys_effects s) (sys_released s)) j' /\
    keeps j (sys_effects s) j' (sys_effects s) /\ lost_of (sh_journal (sys_shared s)) journal = [].
Proof.
  intros Hok Hfl Hs. pose proof (system_flights _ _ _ Hok) as Hf. destruct Hok as [Hj Hids _ Hd Hc Hq].
  rewrite Hfl in Hf, Hd. apply Forall_app in Hf as [Hf1 [Hf0 Hf2]%Forall_cons].
  assert (Hd' : NoDup (flight_ids (before_ ++ after_)) /\
    forall i, c_intent call = Some i -> ai_id i ∉ flight_ids (before_ ++ after_)).
  { rewrite flight_ids_app in *. change ((call, n) :: after_) with ([(call, n)] ++ after_) in Hd. rewrite flight_ids_app in Hd.
    unfold flight_ids in Hd at 2. cbn in Hd. destruct (c_intent call) as [i|]; cbn in Hd.
    - apply NoDup_app in Hd as (H1 & H2 & [H3 H4]%NoDup_cons). split.
      + apply NoDup_app. split; [done|]. split; [|done]. intros x Hx. specialize (H2 x Hx). set_solver.
      + intros ? [= <-]. rewrite elem_of_app. intros [Hx|Hx]; [|done]. specialize (H2 _ Hx). set_solver.
    - split; [done|]. done. }
  destruct Hd' as [Hd1 Hd2]. unfold flight_ok in Hf0. cbn in Hf0. destruct (is_external _) eqn:He.
  - destruct Hf0 as (i & Hi & Hl & Hp). rewrite Hj in Hs.
    destruct (settle_external call n outcome_ j i He Hi Hp) as (o' & j' & r & Hs' & _ & Hsame & _ & Hint & _).
    rewrite Hs in Hs'. injection Hs' as <- ->. exists j'. destruct Hsame as (Hid & Htool & Hkey & _).
    assert (Hother : forall id', id' <> ai_id i -> intents j' !! id' = intents j !! id').
    { intros id' Hne. rewrite Hint. case_decide; [done|]. by rewrite lookup_insert_ne. }
    assert (Hclaims : forall tool key, claims j' tool key = claims j tool key).
    { intros tool key. case_decide; [by apply claims_intents|].
      rewrite (claims_intents j' (Journal (<[ai_id i := r]> (intents j)) (outputs j))) by done.
      rewrite (claims_replace _ _ _ i r) by done. by destruct j. }
    assert (lost j j' = []) as Hlost.
    { apply lost_same. intros id x Hx. rewrite Hint. case_decide; [by exists x|]. destruct (decide (id = ai_id i)) as [->|Hne].
      - rewrite lookup_insert_eq. assert (x = i) as -> by congruence. by exists r.
      - rewrite lookup_insert_ne by done. by exists x. }
    split; [apply system_intro; [done|..]|split; [|by rewrite Hj]].
    + intros id r'. rewrite Hint. case_decide; [apply Hids|]. rewrite lookup_insert_Some.
      intros [[<- <-]|[_ Hr]]; [congruence|by apply Hids].
    + eapply flights_elsewhere; [exact Hother|by apply Hd2|]. by apply Forall_app.
    + done.
    + intros tool key. by rewrite Hclaims.
    + intros tool key. rewrite Hclaims. apply Hq.
    + apply (keeps_at _ _ _ (ai_id i)); [done|]. intros r' Hr'. assert (r' = i) as -> by congruence. by rewrite Hp.
  - pose proof (settle_no_intent call n outcome_ (sh_journal (sys_shared s)) Hf0) as Hn. rewrite Hs in Hn. cbn in Hn. subst journal.
    exists j. split; [apply system_intro; try done|split; [done|rewrite Hj; apply lost_refl]]. by apply Forall_app.
Qed.

Lemma retry_ok j0 s j before_ call n after_ outcome_ journal : system_ok j0 s j ->
  sys_flights s = before_ ++ (call, n) :: after_ -> settle call n outcome_ (sh_journal (sys_shared s)) = (Again, journal) ->
  effect_of call = [] /\
  system_ok j0 (Sys (Share (sh_registry (sys_shared s)) journal) (before_ ++ (call, n + 1)%Z :: after_) (sys_effects s) (sys_released s)) j.
Proof.
  intros Hok Hfl Hs. pose proof (system_flights _ _ _ Hok) as Hf. destruct Hok as [Hj Hids _ Hd Hc Hq].
  destruct (settle_again _ _ _ _ _ _ Hs eq_refl) as [He _]. rewrite Hfl in Hf, Hd. apply Forall_app in Hf as [Hf1 [Hf0 Hf2]%Forall_cons].
  assert (Hi : c_intent call = None) by (unfold flight_ok in Hf0; cbn in Hf0; by rewrite He in Hf0).
  split; [unfold effect_of; by rewrite Hi|]. apply system_intro; try done.
  - cbn. pose proof (settle_no_intent call n outcome_ (sh_journal (sys_shared s)) Hi) as Hn. rewrite Hs in Hn. cbn in Hn. congruence.
  - apply Forall_app. split; [done|]. constructor; [|done]. unfold flight_ok in *. cbn in *. by rewrite He.
  - rewrite flight_ids_app in *. unfold flight_ids in *. cbn in *. by rewrite Hi in *.
Qed.

(** A change, outside the flights, of an intent that is not completed. *)
Lemma outside_ok j0 s j intent j' released' : system_ok j0 s j -> intents j !! ai_id intent = Some intent ->
  ~ in_flight s (ai_id intent) -> ai_status intent <> completed ->
  (forall id, id <> ai_id intent -> intents j' !! id = intents j !! id) -> journal_ok j' ->
  (forall tool key, claims j' tool key + occurs released' tool key = claims j tool key + occurs (sys_released s) tool key) ->
  (forall tool key, claims j' tool key <= claims j tool key) ->
  system_ok j0 (Sys (Share (sh_registry (sys_shared s)) (Some j')) (sys_flights s) (sys_effects s) released') j' /\
  keeps j (sys_effects s) j' (sys_effects s).
Proof.
  intros Hok Hi Hn Hs Hother Hids' Hcount Hle. pose proof (system_flights _ _ _ Hok) as Hf. destruct Hok as [Hj Hids _ Hd Hc Hq].
  rewrite in_flight_ids in Hn. split.
  - apply system_intro; [done|done| |done|..].
    + by apply (flights_elsewhere j _ (ai_id intent)).
    + intros tool key. by rewrite Hc, Hcount.
    + intros tool key H0. specialize (Hq _ _ H0). specialize (Hle tool key). lia.
  - apply (keeps_at _ _ _ (ai_id intent)); [done|]. intros r Hr. assert (r = intent) as -> by congruence. done.
Qed.

Lemma step_system j0 s j s' : system_ok j0 s j -> tool_step idle_record s s' ->
  exists j', system_ok j0 s' j' /\ keeps j (sys_effects s) j' (sys_effects s').
Proof.
  intros Hok Hstep. destruct Hstep as [s request ctx call sh' Hp|s request ctx r sh' Hp Hr|s pre call n post oc o journal Hfl Hs Ho
    |s pre call n post oc journal Hfl Hs|s j1 intent j' [(j2 & Hj2 & Hi) Hn] Hj1 Hrel|s j1 intent r j' [(j2 & Hj2 & Hi) Hn] Hj1 Hrel].
  - by apply (begin_ok j0 s j request ctx).
  - exists j. split; [|done]. assert (sh_journal sh' = sh_journal (sys_shared s)) as Hj.
    { destruct r as [[ev|call]|e]; [|by destruct (Hr call)|].
      - by apply prepare_Replay in Hp as [-> _].
      - by apply prepare_Err in Hp as [? _]. }
    pose proof (system_flights _ _ _ Hok). destruct Hok. apply system_intro; try done. congruence.
  - destruct (settle_flight_ok j0 s j pre call n post oc o journal) as (j' & ? & ? & ->); [done..|]. exists j'. by rewrite app_nil_r.
  - destruct (retry_ok _ _ _ _ _ _ _ _ _ Hok Hfl Hs) as [He Hok']. exists j. cbn. rewrite He, app_nil_r. done.
  - assert (j1 = j) as -> by (pose proof (so_journal _ _ _ Hok); congruence). assert (j2 = j) as -> by congruence. exists j'.
    unfold releaseForRetry in Hrel. case_decide as Hs; [done|]. injection Hrel as <-.
    assert (lost j (Journal (delete (ai_id intent) (intents j)) (delete (ai_id intent) (outputs j))) = [(ai_tool intent, ai_key intent)]) as ->
      by (destruct j; by apply lost_delete).
    apply (outside_ok j0 s j intent); try done.
    + intros id Hid. cbn. by rewrite lookup_delete_ne.
    + intros id r. cbn. rewrite lookup_delete_Some. intros [_ Hr]. by apply (so_ids _ _ _ Hok).
    + intros tool key. rewrite occurs_app. destruct j as [m outs]. cbn in *.
      rewrite (claims_delete m outs (ai_id intent) intent) by done. rewrite (claims_outputs _ (delete (ai_id intent) outs) outs). lia.
    + intros tool key. destruct j as [m outs]. cbn in *. rewrite (claims_delete m outs (ai_id intent) intent) by done.
      rewrite (claims_outputs _ (delete (ai_id intent) outs) outs). lia.
  - assert (j1 = j) as -> by (pose proof (so_journal _ _ _ Hok); congruence). assert (j2 = j) as -> by congruence. exists j'.
    apply move_intent_Ok in Hrel as ((Hid & Ht & Hk & _) & Hs & _ & _ & ->). rewrite (lost_replace j _ _ intent r), app_nil_r by done.
    assert (Hcl : forall tool key, claims (Journal (<[ai_id intent := r]> (intents j)) (outputs j)) tool key = claims j tool key).
    { intros tool key. rewrite (claims_replace _ _ _ intent) by done. by destruct j. }
    apply (outside_ok j0 s j intent); try done.
    + intros id Hne. cbn. by rewrite lookup_insert_ne.
    + intros id r'. cbn. rewrite lookup_insert_Some. intros [[<- <-]|[_ Hr]]; [done|by apply (so_ids _ _ _ Hok)].
    + intros tool key. by rewrite Hcl.
    + intros tool key. by rewrite Hcl.
Qed.

Lemma steps_system j0 s s' : rtc (tool_step idle_record) s s' -> forall j, system_ok j0 s j ->
  exists j', system_ok j0 s' j' /\
    forall tool key id r, intents j !! id = Some r -> ai_status r = completed -> holds_key tool key r = true ->
      intents j' !! id = Some r /\ occurs (sys_effects s') tool key = occurs (sys_effects s) tool key.
Proof.
  induction 1 as [s|s1 s2 s3 Hstep _ IH]; intros j Hok; [eauto|].
  destruct (step_system _ _ _ _ Hok Hstep) as (j2 & Hok2 & Hk1 & Hk2). destruct (IH _ Hok2) as (j3 & Hok3 & Hk3).
  exists j3. split; [done|]. intros tool key id r Hr Hc Hh. destruct (Hk3 tool key id r) as [? ->]; [by apply Hk1|done..|].
  split; [done|]. by eapply Hk2.
Qed.

(** Whatever comes back, an execution under a key that is claimed needs that an
    intent under it was lost. Calls that retry open no intent. *)
Definition flight_shape (f : Call W * Z) : Prop := is_external (definition (c_entry f.1)) = false -> c_intent f.1 = None.

Lemma step_counted s s' j : tool_step any_record s s' -> sh_journal (sys_shared s) = Some j -> Forall flight_shape (sys_flights s) ->
  Forall flight_shape (sys_flights s') /\ exists j', sh_journal (sys_shared s') = Some j' /\
    forall tool key, occurs (sys_effects s') tool key + 1 `min` claims j tool key + occurs (sys_released s) tool key <=
      occurs (sys_effects s) tool key + 1 `min` claims j' tool key + occurs (sys_released s') tool key.
Proof.
  intros Hstep Hj Hf. destruct Hstep as [s request ctx call sh' Hp|s request ctx r sh' Hp Hr|s pre call n post oc o journal Hfl Hs Ho
    |s pre call n post oc journal Hfl Hs|s j1 intent j' _ Hj1 Hrel|s j1 intent r j' _ Hj1 Hrel]; cbn [sys_flights sys_shared sys_effects sys_released sh_journal].
  - apply prepare_Run in Hp as (entry & secrets & digest & intent & reg & journal & _ & Hu & _ & Ho & -> & ->).
    unfold opened in Ho. unfold unclaimed in Hu. rewrite Hj in Hu, Ho. destruct (is_external (definition entry)) eqn:He.
    + destruct Ho as (j1 & i & [= <-] & Hn & -> & Hi & ->). destruct (Hu eq_refl) as (key & ? & Hkey & _ & [= <-] & Hfind & _).
      split; [apply Forall_app; split; [done|]; apply Forall_singleton; unfold flight_shape; cbn; congruence|].
      eexists. split; [done|]. intros tool k. rewrite occurs_app. unfold effect_of. cbn [c_intent].
      rewrite claims_insert by done. rewrite occurs_one. destruct j as [m outs]. cbn [intents outputs] in *.
      case_decide as Hk; [|lia]. destruct Hk as [Ht Hk]. rewrite Hi in Ht, Hk. cbn in Ht, Hk. rewrite Hkey in Hk. cbn in Hk. subst tool k.
      rewrite (unclaimed_zero _ _ _ Hfind). lia.
    + destruct Ho as [-> ->]. split; [by apply Forall_app; split; [|apply Forall_singleton]|]. exists j. split; [done|]. intros tool k. unfold effect_of. cbn [c_intent].
      rewrite app_nil_r. lia.
  - split; [done|]. exists j. split; [|intros; lia]. assert (sh_journal sh' = sh_journal (sys_shared s)) as ->; [|done].
    destruct r as [[ev|call]|e]; [by apply prepare_Replay in Hp as [-> _]|by destruct (Hr call eq_refl)|by apply prepare_Err in Hp as [? _]].
  - rewrite Hfl in Hf. apply Forall_app in Hf as [Hf1 [Hf0 Hf2]%Forall_cons]. split; [by apply Forall_app|]. rewrite Hj in Hs |- *.
    destruct (settle_journal call n oc j o journal Hs) as [j' ->]. exists j'. split; [done|]. intros tool key. cbn [lost_of].
    rewrite occurs_app. pose proof (claims_lost j j' tool key). lia.
  - rewrite Hfl in Hf. apply Forall_app in Hf as [Hf1 [Hf0 Hf2]%Forall_cons]. destruct (settle_again _ _ _ _ _ _ Hs eq_refl) as [He _].
    split; [apply Forall_app; split; [done|]; by constructor|]. pose proof (settle_no_intent call n oc (sh_journal (sys_shared s)) (Hf0 He)) as Hn.
    rewrite Hs in Hn. cbn in Hn. exists j. split; [congruence|]. intros tool key. unfold effect_of. rewrite (Hf0 He : c_intent call = None), app_nil_r. lia.
  - split; [done|]. exists j'. split; [done|]. assert (j1 = j) as -> by congruence. intros tool key. rewrite occurs_app.
    pose proof (claims_lost j j' tool key). lia.
  - split; [done|]. exists j'. split; [done|]. assert (j1 = j) as -> by congruence. intros tool key. rewrite occurs_app.
    pose proof (claims_lost j j' tool key). lia.
Qed.

Lemma steps_counted s s' : rtc (tool_step any_record) s s' -> forall j, sh_journal (sys_shared s) = Some j -> Forall flight_shape (sys_flights s) ->
  exists j', sh_journal (sys_shared s') = Some j' /\ Forall flight_shape (sys_flights s') /\
    forall tool key, occurs (sys_effects s') tool key + 1 `min` claims j tool key + occurs (sys_released s) tool key <=
      occurs (sys_effects s) tool key + 1 `min` claims j' tool key + occurs (sys_released s') tool key.
Proof.
  induction 1 as [s|s1 s2 s3 Hstep _ IH]; intros j Hj Hf.
  - exists j. split_and!; [done|done|]. intros; lia.
  - destruct (step_counted _ _ _ Hstep Hj Hf) as (Hf2 & j2 & Hj2 & Hc2). destruct (IH _ Hj2 Hf2) as (j3 & Hj3 & Hf3 & Hc3).
    exists j3. split_and!; [done|done|]. intros tool key. specialize (Hc2 tool key). specialize (Hc3 tool key). lia.
Qed.

Lemma claimed_positive j id r tool key : intents j !! id = Some r -> ai_tool r = tool -> ai_key r = key -> 1 <= claims j tool key.
Proof.
  intros Hr Ht Hk. destruct (decide (claims j tool key = 0)) as [Hz|]; [|lia]. unfold claims in Hz. apply map_size_empty_iff in Hz.
  apply (f_equal (lookup id)) in Hz. rewrite lookup_empty, map_lookup_filter, Hr in Hz. cbn in Hz. case_guard as Hg; [done|].
  exfalso. apply Hg. by apply holds_key_spec.
Qed.

(** A start: a journal, no flights and nothing done. *)
Definition started (reg : ToolRegistry W) (j : ActionIntentJournal) : System W := Sys (Share reg (Some j)) [] [] [].

Lemma started_ok reg j : journal_ok j -> system_ok j (started reg j) j.
Proof.
  intros Hj. apply system_intro; [done|done|constructor|constructor| |done]. intros tool key. cbn. lia.
Qed.
End system.

(* ------------------------------------------------------------------ *)
(** ** Properties *)

Section properties.
Context {W : Type} `{Hash} `{SchemaCompiler}.

(** C9. The gate is exact. The handler of a tool is reached exactly when the tool
    is registered, its secrets resolve, the input is valid, the phase, the
    resource, the bounded parameters, the grant and the approval admit the
    call, the quota is not spent and, for an external tool, the idempotency
    key is given and unclaimed. A refused call reaches no handler and leaves
    the journal as it was, and the registry too, unless the intent id is
    taken: then one unit of the quota is gone. *)
Theorem invocation_gate_exact (sh : Shared W) request ctx :
  ((exists call sh', prepare sh request ctx = (Ok (Run call), sh')) <->
   exists entry secrets digest, authorized (sh_registry sh) request ctx entry secrets digest /\
     unclaimed (sh_journal sh) (definition entry) request /\ (0 < quotaRemaining (sh_registry sh) (definition entry))%Z) /\
  (forall e sh', prepare sh request ctx = (Err e, sh') ->
     (forall w, invokeTool sh request ctx w = Some (Err e, sh', w)) /\ sh_journal sh' = sh_journal sh /\
     (sh_registry sh' = sh_registry sh \/
      e = ThrewTool invalid_intent_transition /\ exists entry,
        get_tool (sh_registry sh) (rq_tool request) (rq_version request) = Some entry /\
        used_quota (sh_registry sh') (definition entry) = (used_quota (sh_registry sh) (definition entry) + 1)%Z)).
Proof.
  split; [split|].
  - intros (call & sh' & (entry & secrets & digest & _ & reg & _ & Ha & Hu & [Hq _]%consumeQuota_Ok & _)%prepare_Run).
    exists entry, secrets, digest. done.
  - intros (entry & secrets & digest & Ha & Hu & Hq).
    assert (exists intent journal, opened (sh_journal sh) (definition entry) request digest intent journal) as (intent & journal & Ho).
    { unfold opened. destruct (is_external (definition entry)) eqn:He; [|eauto].
      destruct (Hu He) as (key & j & _ & _ & Hj & _ & Hn). eexists _, _, j, _. split_and!; done. }
    eexists (MkCall entry request digest secrets intent), (Share _ journal). apply prepare_Run.
    eexists entry, secrets, digest, intent, _, journal. split_and!; try done. by apply consumeQuota_Ok.
  - intros e sh' Hp. split; [intros w; unfold invokeTool; by rewrite Hp|].
    destruct (prepare_Err _ _ _ _ _ Hp) as [Hj [Hr|(He & entry & secrets & digest & Ha & [_ Hq]%consumeQuota_Ok)]]; split; auto.
    right. split; [done|]. exists entry. split; [by apply au_entry in Ha|]. rewrite Hq. unfold used_quota. cbn.
    by rewrite lookup_insert_eq.
Qed.

(** Every invocation ends. Its handler is called at most once and as many
    times more as the descriptor allows retries, and exactly once if the tool
    is external, whatever its retry class. *)
Theorem invocation_calls_bounded (sh : Shared W) request ctx w :
  rtc registry_step empty_registry (sh_registry sh) ->
  exists r sh' w', invokeTool sh request ctx w = Some (r, sh', w') /\
    match (prepare sh request ctx).1 with
    | Ok (Run call) => exists m, w' = calls m call w /\ (1 <= Z.of_nat m <= 1 + max_retries (definition (c_entry call)))%Z /\
        (is_external (definition (c_entry call)) = true -> m = 1)
    | _ => w' = w
    end.
Proof. intros Hreg%registry_reachable. by apply invocation_ends. Qed.

(** C10. An external effect is always on record. The handler runs once under an
    intent committed before it, and afterwards that intent is completed when
    the provider answered something that has a digest, uncertain when it
    failed or timed out; the caller gets the evidence, the refusal of an
    invalid output or the uncertain result accordingly. Only a handler that
    itself throws a refusal of an invalid output leaves it pending. *)
Theorem external_effect_recorded (sh : Shared W) request ctx call sh1 w :
  rtc registry_step empty_registry (sh_registry sh) ->
  prepare sh request ctx = (Ok (Run call), sh1) -> is_external (definition (c_entry call)) = true ->
  exists j1 i, sh_journal sh1 = Some j1 /\ intents j1 !! rq_intent_id request = Some i /\ ai_status i = pending /\
  exists r sh2 w2 j2 i2, invokeTool sh request ctx w = Some (r, sh2, w2) /\ w2 = (call_handler call w).2 /\
    sh_journal sh2 = Some j2 /\ intents j2 !! rq_intent_id request = Some i2 /\ same_intent i i2 /\
    ai_status i2 = final_status call (call_handler call w).1 /\
    final_outcome call (call_handler call w).1 (match r with Ok ev => Answered ev | Err e => Failed e end) i2.
Proof.
  intros Hreg%registry_reachable Hp He. pose proof Hp as Hp'.
  apply prepare_Run in Hp' as (entry & secrets & digest & intent & reg & journal & Ha & _ & _ & Ho & -> & ->).
  cbn [c_entry] in He. unfold opened in Ho. rewrite He in Ho. destruct Ho as (j & i & _ & _ & -> & Hi & ->). cbn [sh_journal].
  eexists _, i. split; [done|]. cbn [intents]. rewrite lookup_insert_eq. split; [done|]. split; [by rewrite Hi|].
  set (call := MkCall entry request digest secrets (Some i)) in *. unfold invokeTool. rewrite Hp.
  pose proof (maxAttempts_pos (definition entry) (entry_legal _ _ _ _ Hreg (au_entry _ _ _ _ _ _ Ha))) as Hpos.
  change (definition (c_entry call)) with (definition entry).
  destruct (Z.to_nat (maxAttempts (definition entry))) as [|fuel] eqn:Ef; [lia|]. rewrite external_once by done.
  destruct (call_handler call w) as [s w'] eqn:Ec. cbn [sh_journal sh_registry fst snd].
  destruct (settle_external call (0 + 1) s (Journal (<[rq_intent_id request := i]> (intents j)) (outputs j)) i)
    as (o & j' & i' & -> & Hag & Hsame & Hst & Hint & Hout); [done|done|by rewrite Hi|].
  assert (ai_id i = rq_intent_id request) as Hid by (by rewrite Hi).
  assert (Hl : intents j' !! rq_intent_id request = Some (if decide (final_status call s = pending) then i else i')).
  { rewrite Hint. case_decide; cbn; [by rewrite lookup_insert_eq|]. by rewrite <- Hid, lookup_insert_eq. }
  assert (exists r, o = match r with Ok ev => Answered ev | Err e => Failed e end) as [r ->].
  { destruct o as [ev|e|]; [by exists (Ok ev)|by exists (Err e)|done]. }
  exists r. do 4 eexists. split; [by destruct r|]. split; [done|]. split; [done|]. split; [exact Hl|]. case_decide as Hpe.
  - split; [done|]. split; [by rewrite Hi, Hpe|]. unfold final_outcome in *. by rewrite Hpe in *.
  - done.
Qed.

(** A completed key is replayed without looking at the request: two calls
    with the same tool and key answer the same output, each as evidence under
    the digest of its own request, whatever their parameters are. *)
Theorem replay_ignores_request (sh : Shared W) request1 request2 ctx ev1 ev2 sh1 sh2 :
  prepare sh request1 ctx = (Ok (Replay ev1), sh1) -> prepare sh request2 ctx = (Ok (Replay ev2), sh2) ->
  rq_tool request1 = rq_tool request2 -> rq_version request1 = rq_version request2 -> rq_key request1 = rq_key request2 ->
  ev_output ev1 = ev_output ev2 /\ output_digest ev1 = output_digest ev2 /\ ev_intent ev1 = ev_intent ev2 /\
  Ok (ev_request_digest ev1) = requestDigest (ev_tool ev1) (JObj (rq_parameters request1)) (rq_resource request1) /\
  Ok (ev_request_digest ev2) = requestDigest (ev_tool ev2) (JObj (rq_parameters request2)) (rq_resource request2).
Proof.
  intros (_ & e1 & s1 & d1 & k1 & j1 & i1 & Ha1 & Hk1 & Hj1 & Hf1 & _ & He1)%prepare_Replay
    (_ & e2 & s2 & d2 & k2 & j2 & i2 & Ha2 & Hk2 & Hj2 & Hf2 & _ & He2)%prepare_Replay Ht Hv Hk.
  assert (k1 = k2) as -> by congruence. assert (j1 = j2) as -> by congruence.
  pose proof (au_entry _ _ _ _ _ _ Ha1) as Hg1. pose proof (au_entry _ _ _ _ _ _ Ha2) as Hg2.
  rewrite Ht, Hv in Hg1. assert (e1 = e2) as -> by congruence. assert (i1 = i2) as -> by congruence.
  unfold evidenceOf in *. destruct (contentDigest _) as [dg|]; [|done]. cbn in *. injection He1 as <-. injection He2 as <-. cbn.
  split_and!; try done; symmetry; [by apply au_digest in Ha1|by apply au_digest in Ha2].
Qed.

(** C7. One effect per key. In every interleaving of calls, answers and
    reconciliations, whatever records the reconciliations come back with, the
    external handlers are executed under a key at most once more than the
    journal lost an intent under it, and not once more when it started with
    one. As long as a reconciliation comes back with the record the journal
    holds, of a call that is not running, the count is exact: the executions
    and the intents at the start are the intents held and those released, and
    a key that had at most one intent keeps at most one. *)
Theorem one_effect_per_key (reg : ToolRegistry W) j0 s tool key :
  (rtc (tool_step any_record) (started reg j0) s ->
   exists j, sh_journal (sys_shared s) = Some j /\
     occurs (sys_effects s) tool key + 1 `min` claims j0 tool key <= 1 `min` claims j tool key + occurs (sys_released s) tool key) /\
  (journal_ok j0 -> rtc (tool_step idle_record) (started reg j0) s ->
   exists j, sh_journal (sys_shared s) = Some j /\
     occurs (sys_effects s) tool key + claims j0 tool key = claims j tool key + occurs (sys_released s) tool key /\
     (claims j0 tool key <= 1 -> claims j tool key <= 1 /\
        occurs (sys_effects s) tool key + claims j0 tool key <= 1 + occurs (sys_released s) tool key)).
Proof.
  split.
  - intros Hs. destruct (steps_counted _ _ Hs j0 eq_refl) as (j & Hj & _ & Hc); [constructor|]. exists j. split; [done|].
    specialize (Hc tool key). cbn [started sys_released sys_effects] in Hc. change (occurs [] tool key) with 0 in Hc. lia.
  - intros Hj Hs. destruct (steps_system _ _ _ Hs _ (started_ok reg j0 Hj)) as (j & [Hsj _ _ _ Hc Hq] & _).
    exists j. split; [done|]. split; [apply Hc|]. intros H1. specialize (Hq _ _ H1). specialize (Hc tool key). lia.
Qed.

(** C8. A completed effect is final as far as the journal is told the truth. Once it
    holds a completed intent under a key, and whatever records reconciliations
    come back with, a later execution under the key needs that the journal lost
    an intent under it; and as long as a reconciliation comes back with the
    record the journal holds, of a call that is not running, the intent stays
    and the key is not executed again. (A record that was read before the
    intent completed does reopen it: [stale_release_reopens].) *)
Theorem completed_effect_final (reg : ToolRegistry W) j0 s j id r tool key :
  sh_journal (sys_shared s) = Some j -> intents j !! id = Some r -> ai_status r = completed ->
  ai_tool r = tool -> ai_key r = key ->
  (forall s', rtc (tool_step any_record) (started reg j0) s -> rtc (tool_step any_record) s s' ->
     occurs (sys_effects s') tool key + occurs (sys_released s) tool key <= occurs (sys_effects s) tool key + occurs (sys_released s') tool key) /\
  (forall s', journal_ok j0 -> rtc (tool_step idle_record) (started reg j0) s -> rtc (tool_step idle_record) s s' ->
     occurs (sys_effects s') tool key = occurs (sys_effects s) tool key /\
     exists j', sh_journal (sys_shared s') = Some j' /\ intents j' !! id = Some r).
Proof.
  intros Hsj Hr Hc Ht Hk. split; intros s'.
  - intros Hs Hs'. destruct (steps_counted _ _ Hs j0 eq_refl) as (j1 & Hj1 & Hf & _); [constructor|].
    destruct (steps_counted _ _ Hs' j Hsj Hf) as (j' & _ & _ & Hcount). specialize (Hcount tool key).
    pose proof (claimed_positive j id r tool key Hr Ht Hk). lia.
  - intros Hj Hs Hs'. destruct (steps_system _ _ _ Hs _ (started_ok reg j0 Hj)) as (j1 & Hok & _).
    assert (j1 = j) as -> by (pose proof (so_journal _ _ _ Hok); congruence).
    destruct (steps_system _ _ _ Hs' _ Hok) as (j' & Hok' & Hkeep).
    destruct (Hkeep tool key id r Hr Hc) as [? ?]; [by apply holds_key_spec|]. split; [done|]. exists j'. split; [|done].
    apply (so_journal _ _ _ Hok').
Qed.

(** The evidence of a call holds none of the secrets it resolved, in any
    string of its output. *)
Theorem evidence_holds_no_secret (call : Call W) n s journal evidence journal' :
  holds_secret (rs_values (c_secrets call)) REDACTED_SECRET = false ->
  settle call n s journal = (Answered evidence, journal') ->
  containsSecret (rs_values (c_secrets call)) (ev_output evidence) = false /\ ev_tool evidence = definition_key (definition (c_entry call)) /\
  Ok (output_digest evidence) = map_err ThrewCanonical (contentDigest (or_else (ev_output evidence) JNull)).
Proof.
  intros Hp Hs. unfold settle in Hs. destruct (attempt call n s journal) as [[ev|f] j1] eqn:Ea.
  2:{ destruct f; repeat case_match; discriminate Hs. }
  injection Hs as <- _. unfold attempt in Ea. destruct s as [raw| | |]; try discriminate Ea.
  destruct (negb _); [by destruct (close_intent _ _ _) as [[? ?]|]|].
  destruct (redactOutput _ _ _) as [kept was] eqn:Er. destruct (close_intent _ _ _) as [[closed j2]|]; [|done].
  destruct (evidenceOf _ _ _ _ _ _ _) as [ev'|] eqn:Ee; [|done]. injection Ea as -> _.
  unfold evidenceOf in Ee. destruct (contentDigest _) as [dg|] eqn:Ed; [|done]. cbn in Ee. injection Ee as <-. cbn. rewrite Ed.
  split; [|done]. unfold redactOutput in Er. destruct (redact_fields _ _) as [v c]. injection Er as <- _.
  by apply redactSecretValues_clean.
Qed.
(** The flag on the evidence says less than its comment: with any secret
    resolved, an output that is an object is reported as redacted. *)
Theorem redacted_flag_overreports (d : ToolDefinition) fields secrets :
  secrets <> [] -> (redactOutput d (JObj fields) secrets).2 = true.
Proof.
  intros Hs. unfold redactOutput, redact_fields. destruct (foldl _ _ _) as [clone changed]. cbn.
  by rewrite bool_decide_false, orb_true_r.
Qed.
End properties.

(* ------------------------------------------------------------------ *)
(** ** Witnesses *)

Definition counting_handler : ToolHandler Z := fun _ _ w => (Returned (JObj [("id", JNum (NInt w)); ("by", JStr "s3cr3t")]), (w + 1)%Z).

Definition issue_registry : ToolRegistry Z :=
  match @register Z text_hash any_schema empty_registry sample_raw (Some counting_handler) with Ok (_, reg) => reg | Err _ => empty_registry end.

Lemma issue_registry_reachable : rtc (@registry_step Z text_hash any_schema) empty_registry issue_registry.
Proof.
  unfold issue_registry. destruct (register _ _ _) as [[d reg]|] eqn:E; [|done]. apply rtc_once.
  by eapply (@step_register Z text_hash any_schema).
Qed.

Definition issue_request (id key : string) (priority : Z) : ToolInvocationRequest :=
  InvocationRequest id "issues.create" None "implement" (Some "issue:7")
    [("auth", token_reference); ("priority", JNum (NInt priority))] (Some "approved") (Some key).
Definition issue_context : ToolInvocationContext :=
  InvocationContext None (Some (fun approval _ => bool_decide (approval = "approved"))) sample_env.
Definition issue_start : Shared Z := Share issue_registry (Some empty_journal).
Abbreviation issue_prepare := (@prepare Z text_hash).

Definition issue_done : Shared Z :=
  match @invokeTool Z text_hash issue_start (issue_request "i1" "k1" 1) issue_context 0%Z with
  | Some (_, sh, _) => sh | None => issue_start end.

Lemma invocation_gate_exact_witness : exists entry secrets digest,
  @authorized Z text_hash issue_registry (issue_request "i1" "k1" 1) issue_context entry secrets digest /\
  td_name (definition entry) = "issues.create".
Proof.
  destruct (issue_prepare issue_start (issue_request "i1" "k1" 1) issue_context) as [[[ev|call]|e] sh'] eqn:E;
    [by vm_compute in E| |by vm_compute in E].
  destruct (@invocation_gate_exact Z text_hash issue_start (issue_request "i1" "k1" 1) issue_context) as [[Hg _] _].
  destruct Hg as (entry & secrets & digest & Ha & _); [by exists call, sh'|]. exists entry, secrets, digest. split; [exact Ha|].
  destruct Ha as [Hn _ _ _ _ _ _ _ _]. vm_compute in Hn. injection Hn as <-. reflexivity.
Defined.

Lemma invocation_calls_bounded_witness :
  exists r sh', @invokeTool Z text_hash issue_start (issue_request "i1" "k1" 1) issue_context 0%Z = Some (r, sh', 1%Z).
Proof.
  destruct (@invocation_calls_bounded Z text_hash any_schema issue_start (issue_request "i1" "k1" 1) issue_context 0%Z
    issue_registry_reachable) as (r & sh' & w' & Hi & Hw). exists r, sh'. rewrite Hi. do 2 f_equal.
  destruct (issue_prepare issue_start (issue_request "i1" "k1" 1) issue_context) as [[[ev|call]|e] sh1] eqn:E;
    [by vm_compute in E| |by vm_compute in E].
  cbn [fst] in Hw. destruct Hw as (m & -> & _ & Hm). vm_compute in E. injection E as <- _. rewrite Hm by reflexivity. reflexivity.
Defined.

Lemma external_effect_recorded_witness : exists j i, sh_journal issue_done = Some j /\ intents j !! "i1" = Some i /\ ai_status i = completed.
Proof.
  destruct (issue_prepare issue_start (issue_request "i1" "k1" 1) issue_context) as [[[ev|call]|e] sh1] eqn:E;
    [by vm_compute in E| |by vm_compute in E].
  assert (He : is_external (definition (c_entry call)) = true) by (vm_compute in E; by injection E as <- _).
  destruct (@external_effect_recorded Z text_hash any_schema issue_start (issue_request "i1" "k1" 1) issue_context call sh1 0%Z
    issue_registry_reachable E He) as (_ & _ & _ & _ & _ & r & sh2 & w2 & j2 & i2 & Hinv & _ & Hj & Hi & _ & Hst & _).
  exists j2, i2. unfold issue_done. rewrite Hinv. split; [exact Hj|]. split; [exact Hi|]. rewrite Hst.
  vm_compute in E. injection E as <- _. reflexivity.
Defined.

Lemma replay_ignores_request_witness : exists ev1 ev2 sh1 sh2,
  issue_prepare issue_done (issue_request "i1" "k1" 1) issue_context = (Ok (Replay ev1), sh1) /\
  issue_prepare issue_done (issue_request "i2" "k1" 2) issue_context = (Ok (Replay ev2), sh2) /\
  ev_output ev1 = ev_output ev2 /\ ev_request_digest ev1 <> ev_request_digest ev2.
Proof.
  destruct (issue_prepare issue_done (issue_request "i1" "k1" 1) issue_context) as [[[ev1|call]|e] sh1] eqn:E1;
    [|by vm_compute in E1|by vm_compute in E1].
  destruct (issue_prepare issue_done (issue_request "i2" "k1" 2) issue_context) as [[[ev2|call]|e] sh2] eqn:E2;
    [|by vm_compute in E2|by vm_compute in E2].
  exists ev1, ev2, sh1, sh2. split; [reflexivity|]. split; [reflexivity|].
  split; [exact (proj1 (@replay_ignores_request Z text_hash _ _ _ _ _ _ _ _ E1 E2 eq_refl eq_refl eq_refl))|].
  vm_compute in E1, E2. injection E1 as <- _. injection E2 as <- _. vm_compute. discriminate.
Defined.

Lemma one_effect_per_key_witness : exists s, rtc (@tool_step Z text_hash any_record) (started issue_registry empty_journal) s /\
  occurs (sys_effects s) "issues.create@1.2.0" "k1" = 1 /\ occurs (sys_effects s) "issues.create@1.2.0" "k1" <= 1 + occurs (sys_released s) "issues.create@1.2.0" "k1".
Proof.
  destruct (issue_prepare issue_start (issue_request "i1" "k1" 1) issue_context) as [[[ev|call]|e] sh1] eqn:E;
    [by vm_compute in E| |by vm_compute in E].
  assert (Hs : forall may, rtc (@tool_step Z text_hash may) (started issue_registry empty_journal) (Sys sh1 [(call, 1%Z)] (effect_of call) [])).
  { intros may. apply rtc_once. exact (@step_begin Z text_hash may (started issue_registry empty_journal) _ _ call sh1 E). }
  destruct (@one_effect_per_key Z text_hash issue_registry empty_journal (Sys sh1 [(call, 1%Z)] (effect_of call) []) "issues.create@1.2.0" "k1")
    as [_ Hidle]. destruct (Hidle ltac:(done) (Hs _)) as (j & _ & _ & Hle).
  eexists. split; [exact (Hs _)|]. split.
  - vm_compute in E. injection E as <- _. reflexivity.
  - destruct Hle as [_ Hle]; [vm_compute; lia|]. etrans; [apply Nat.le_add_r|exact Hle].
Defined.

Lemma completed_effect_final_witness : exists s s', rtc (@tool_step Z text_hash idle_record) s s' /\ s <> s' /\
  occurs (sys_effects s') "t@1.0.0" "k1" = occurs (sys_effects s) "t@1.0.0" "k1".
Proof.
  destruct (issue_prepare (Share issue_registry (Some sample_journal)) (issue_request "i1" "k1" 1) issue_context)
    as [[[ev|call]|e] sh1] eqn:E; [by vm_compute in E| |by vm_compute in E].
  set (s0 := started issue_registry sample_journal).
  assert (Hs : rtc (@tool_step Z text_hash idle_record) s0 (Sys sh1 [(call, 1%Z)] (effect_of call) [])).
  { apply rtc_once. exact (@step_begin Z text_hash idle_record s0 _ _ call sh1 E). }
  exists s0. eexists. split; [exact Hs|]. split; [intros Heq; apply (f_equal sys_flights) in Heq; discriminate Heq|].
  exact (proj1 (proj2 (@completed_effect_final Z text_hash issue_registry sample_journal s0 sample_journal "a"
    (sample_intent "a" "k1" completed) "t@1.0.0" "k1" eq_refl eq_refl eq_refl eq_refl eq_refl) _ (restore_ok _) (rtc_refl _ _) Hs)).
Defined.

(** *** A record that was read too early *)

Definition issue_intent (status : ExternalActionStatus) : ActionIntentRecord :=
  IntentRecord "i0" "issues.create@1.2.0" "digest" None None "k1" status None.
Definition journal_of (status : ExternalActionStatus) : ActionIntentJournal := Journal {["i0" := issue_intent status]} ∅.

(** Two reconciliations read the same uncertain intent; the first finds the
    effect applied and completes it, the second, which asked earlier, gives the
    record it read back for a retry. [releaseForRetry] looks at the status of
    that record and deletes the completed intent, and the next call executes the
    effect again. *)
Lemma stale_release_reopens : exists s s',
  rtc (@tool_step Z text_hash any_record) (started issue_registry (journal_of uncertain)) s /\ sh_journal (sys_shared s) = Some (journal_of completed) /\
  rtc (@tool_step Z text_hash any_record) s s' /\
  occurs (sys_effects s') "issues.create@1.2.0" "k1" = S (occurs (sys_effects s) "issues.create@1.2.0" "k1").
Proof.
  destruct (issue_prepare issue_start (issue_request "i1" "k1" 1) issue_context) as [[[ev|call]|e] sh1] eqn:E;
    [by vm_compute in E| |by vm_compute in E].
  exists (Sys (Share issue_registry (Some (journal_of completed))) [] [] []). eexists. split_and!.
  - apply rtc_once. exact (@step_applied Z text_hash any_record (started issue_registry (journal_of uncertain)) (journal_of uncertain) (issue_intent uncertain)
      (issue_intent completed) (journal_of completed) I eq_refl eq_refl).
  - reflexivity.
  - eapply rtc_l; [exact (@step_release Z text_hash any_record (Sys (Share issue_registry (Some (journal_of completed))) [] [] []) (journal_of completed) (issue_intent uncertain) empty_journal I eq_refl eq_refl)|].
    apply rtc_once. exact (@step_begin Z text_hash any_record (Sys (Share issue_registry (Some empty_journal)) [] [] [("issues.create@1.2.0", "k1")]) _ _ call sh1 E).
  - vm_compute in E. injection E as <- _. reflexivity.
Qed.

Lemma evidence_holds_no_secret_witness : exists call s evidence journal,
  @settle Z text_hash call 1 s (Some empty_journal) = (Answered evidence, journal) /\
  containsSecret (rs_values (c_secrets call)) (ev_output evidence) = false.
Proof.
  destruct (issue_prepare issue_start (issue_request "i1" "k1" 1) issue_context) as [[[ev|call]|e] sh1] eqn:E;
    [by vm_compute in E| |by vm_compute in E].
  exists call, (Returned (JStr "token s3cr3t")).
  destruct (@settle Z text_hash call 1 (Returned (JStr "token s3cr3t")) (Some empty_journal)) as [[ev|e|] journal] eqn:Es.
  - exists ev, journal. split; [reflexivity|].
    apply (@evidence_holds_no_secret Z text_hash call 1 (Returned (JStr "token s3cr3t")) (Some empty_journal) ev journal); [|exact Es].
    vm_compute in E. by injection E as <- _.
  - exfalso. vm_compute in E. injection E as <- _. by vm_compute in Es.
  - exfalso. vm_compute in E. injection E as <- _. by vm_compute in Es.
Defined.
