(* ===== verification/Governance.v ===== *)
(** * Governance of findings

    [packages/runtime/src/finding/governance.ts]: the metadata by which
    findings are grouped and triaged, its validation and its reading back from
    a record. *)

From S2P Require Import Prelude Regex Json Lease.

(** ** Data *)

Inductive FindingSeverity : Type := blocker_severity | warning_severity.
#[export] Instance FindingSeverity_eq_dec : EqDecision FindingSeverity.
Proof. solve_decision. Defined.
Definition severity_text (s : FindingSeverity) : string :=
  match s with blocker_severity => "blocker" | warning_severity => "warning" end.
Definition FINDING_SEVERITIES : list FindingSeverity := [blocker_severity; warning_severity].

Inductive FindingActionability : Type := auto_close | human_review | upstream_change.
#[export] Instance FindingActionability_eq_dec : EqDecision FindingActionability.
Proof. solve_decision. Defined.
Definition actionability_text (a : FindingActionability) : string :=
  match a with auto_close => "auto_close" | human_review => "human_review" | upstream_change => "upstream_change" end.
Definition FINDING_ACTIONABILITIES : list FindingActionability := [auto_close; human_review; upstream_change].

(** The two interfaces have the same fields; [undefined] lists are empty. *)
Record FindingGovernanceMetadata : Type := Governance
  { fg_rule : string; fg_scope_prefix : string; fg_severity : FindingSeverity; fg_actionability : FindingActionability;
    fg_subject_ids : list string; fg_subject_digests : list string }.

(** [FindingGovernanceError] *)
Inductive governance_error : Type := invalid_finding_governance.
Abbreviation governed A := (result governance_error A).

Inductive AuditFindingKind : Type :=
| traceability_gap | stale_knowledge | contradictory_constraint | orphan_node | missing_verification
| unpromoted_high_risk_improvement | unhealthy_context_source | missing_design_artifact | task_orphan
| api_contract_coverage | task_stale.
Definition audit_kind_text (k : AuditFindingKind) : string :=
  match k with
  | traceability_gap => "traceability_gap" | stale_knowledge => "stale_knowledge"
  | contradictory_constraint => "contradictory_constraint" | orphan_node => "orphan_node"
  | missing_verification => "missing_verification"
  | unpromoted_high_risk_improvement => "unpromoted_high_risk_improvement"
  | unhealthy_context_source => "unhealthy_context_source" | missing_design_artifact => "missing_design_artifact"
  | task_orphan => "task_orphan" | api_contract_coverage => "api_contract_coverage" | task_stale => "task_stale"
  end.
Definition audit_kinds : list AuditFindingKind :=
  [traceability_gap; stale_knowledge; contradictory_constraint; orphan_node; missing_verification;
   unpromoted_high_risk_improvement; unhealthy_context_source; missing_design_artifact; task_orphan;
   api_contract_coverage; task_stale].

(** The domain and the actionability of an audit rule. *)
Definition AUDIT_GOVERNANCE_RULES (k : AuditFindingKind) : string * FindingActionability :=
  match k with
  | traceability_gap => ("traceability", auto_close)
  | stale_knowledge => ("knowledge", auto_close)
  | contradictory_constraint => ("requirements", human_review)
  | orphan_node => ("graph", human_review)
  | missing_verification => ("verification", auto_close)
  | unpromoted_high_risk_improvement => ("improvement", human_review)
  | unhealthy_context_source => ("context", upstream_change)
  | missing_design_artifact => ("design", auto_close)
  | task_orphan => ("plan", auto_close)
  | api_contract_coverage => ("design", auto_close)
  | task_stale => ("execution", auto_close)
  end.

(** ** Building *)

Definition stableUnique (values : list string) : list string := sort_strings (dedup values).

Definition stable_label (value : string) : bool :=
  negb (bool_decide (value = "")) && (String.length value <=? 500)%nat && str_forallb (fun a => (32 <=? code a)%N) value.

Definition assertLabel (value : string) : governed unit := reject_if (negb (stable_label value)) invalid_finding_governance.

Definition buildFindingGovernanceMetadata (input : FindingGovernanceMetadata) : governed FindingGovernanceMetadata :=
  _ ← assertLabel (fg_rule input);
  _ ← assertLabel (fg_scope_prefix input);
  let ids := stableUnique (fg_subject_ids input) in
  let digests := stableUnique (fg_subject_digests input) in
  _ ← forM_ assertLabel ids;
  _ ← forM_ (fun d => reject_if (negb (re_match digest_regex d)) invalid_finding_governance) digests;
  Ok (Governance (fg_rule input) (fg_scope_prefix input) (fg_severity input) (fg_actionability input) ids digests).

Definition findingGovernanceForAudit (k : AuditFindingKind) (subjects : list string) (blocking : bool)
    (repositoryId : string) (subjectDigests : list string) : governed FindingGovernanceMetadata :=
  _ ← assertLabel repositoryId;
  let (domain, actionability) := AUDIT_GOVERNANCE_RULES k in
  buildFindingGovernanceMetadata (Governance ("audit/" +:+ audit_kind_text k)
    ("project/" +:+ repositoryId +:+ "/" +:+ domain) (if blocking then blocker_severity else warning_severity)
    actionability subjects subjectDigests).

(** ** Reading *)

(** [recordValue(value)?.[key]]; an array has no such keys. *)
Definition record_field (value : jsval) (key : string) : jsval :=
  match value with JObj fields => jfield fields key | _ => JUndefined end.

Definition text_of (value : jsval) : option string := match value with JStr s => Some s | _ => None end.

Definition stringArray (value : jsval) : option (list string) :=
  match value with JArr values => mapM text_of values | _ => None end.

(** [isSeverity] and [isActionability], with the member the value is. *)
Definition member_of {T} (text : T -> string) (members : list T) (value : jsval) : option T :=
  match value with JStr s => find_first (fun t => bool_decide (text t = s)) members | _ => None end.

(** The metadata a record declares, if it is well formed. *)
Definition declared_governance (extension : jsval) : option FindingGovernanceMetadata :=
  match text_of (record_field extension "rule"), text_of (record_field extension "scope_prefix"),
        member_of severity_text FINDING_SEVERITIES (record_field extension "severity"),
        member_of actionability_text FINDING_ACTIONABILITIES (record_field extension "actionability"),
        stringArray (record_field extension "subject_ids"), stringArray (record_field extension "subject_digests") with
  | Some rule, Some prefix, Some severity, Some actionability, Some ids, Some digests =>
      to_option (buildFindingGovernanceMetadata (Governance rule prefix severity actionability ids digests))
  | _, _, _, _, _, _ => None
  end.

Definition is_false (value : jsval) : bool := match value with JBool false => true | _ => false end.

Definition readFindingGovernance (extensions : list (string * jsval)) : governed FindingGovernanceMetadata :=
  let extension := jfield extensions "harness.finding" in
  match declared_governance extension with
  | Some metadata => Ok metadata
  | None =>
      let severity := if is_false (record_field extension "blocking") then warning_severity else blocker_severity in
      let audit := jfield extensions "harness.audit" in
      let kind := member_of audit_kind_text audit_kinds (record_field audit "kind") in
      let legacy := buildFindingGovernanceMetadata (Governance "legacy/unknown" "legacy/unknown" severity human_review [] []) in
      match text_of (record_field extension "origin"), kind, stringArray (record_field audit "subjects") with
      | Some origin, Some kind, Some subjects =>
          if decide (origin = "audit") then
            let (domain, actionability) := AUDIT_GOVERNANCE_RULES kind in
            buildFindingGovernanceMetadata (Governance ("audit/" +:+ audit_kind_text kind) ("legacy/audit/" +:+ domain)
              severity actionability subjects [])
          else legacy
      | _, _, _ => legacy
      end
  end.

(** The fields [...governance] adds to a record. *)
Definition governance_fields (g : FindingGovernanceMetadata) : list (string * jsval) :=
  [("rule", JStr (fg_rule g)); ("scope_prefix", JStr (fg_scope_prefix g)); ("severity", JStr (severity_text (fg_severity g)));
   ("actionability", JStr (actionability_text (fg_actionability g))); ("subject_ids", strings (fg_subject_ids g));
   ("subject_digests", strings (fg_subject_digests g))].

(* ------------------------------------------------------------------ *)
(** ** Facts *)

Definition legal_governance (g : FindingGovernanceMetadata) : Prop :=
  stable_label (fg_rule g) = true /\ stable_label (fg_scope_prefix g) = true /\
  stableUnique (fg_subject_ids g) = fg_subject_ids g /\ stableUnique (fg_subject_digests g) = fg_subject_digests g /\
  Forall (fun s => stable_label s = true) (fg_subject_ids g) /\
  Forall (fun d => re_match digest_regex d = true) (fg_subject_digests g).

Lemma stableUnique_idem l : stableUnique (stableUnique l) = stableUnique l.
Proof.
  unfold stableUnique. rewrite (dedup_id (sort_strings _)); [apply sort_strings_idem|].
  rewrite sort_strings_Permutation. apply NoDup_dedup.
Qed.

Lemma assertLabel_Ok s : assertLabel s = Ok tt <-> stable_label s = true.
Proof. unfold assertLabel. by rewrite reject_if_Ok, negb_false_iff. Qed.

Lemma build_governance_Ok input g : buildFindingGovernanceMetadata input = Ok g ->
  legal_governance g /\ fg_rule g = fg_rule input /\ fg_scope_prefix g = fg_scope_prefix input /\
  fg_severity g = fg_severity input /\ fg_actionability g = fg_actionability input /\
  fg_subject_ids g = stableUnique (fg_subject_ids input) /\ fg_subject_digests g = stableUnique (fg_subject_digests input).
Proof.
  unfold buildFindingGovernanceMetadata. intros Hb. apply bind_Ok in Hb as ([] & Hr%assertLabel_Ok & Hb).
  apply bind_Ok in Hb as ([] & Hp%assertLabel_Ok & Hb). apply bind_Ok in Hb as (u & Hi%forM_Ok_u & Hb).
  apply bind_Ok in Hb as (u' & Hd%forM_Ok_u & Hb). injection Hb as <-. split; [|done].
  unfold legal_governance. cbn [fg_rule fg_scope_prefix fg_subject_ids fg_subject_digests].
  rewrite !stableUnique_idem. split_and!; try done.
  - eapply Forall_impl; [exact Hi|]. intros s. apply assertLabel_Ok.
  - eapply Forall_impl; [exact Hd|]. intros s. by rewrite reject_if_Ok, negb_false_iff.
Qed.

Lemma build_legal g : legal_governance g -> buildFindingGovernanceMetadata g = Ok g.
Proof.
  intros (Hr & Hp & Hi & Hd & Fi & Fd). unfold buildFindingGovernanceMetadata.
  rewrite (proj2 (assertLabel_Ok _) Hr). cbn [mbind result_bind]. rewrite (proj2 (assertLabel_Ok _) Hp). cbn [mbind result_bind].
  rewrite Hi, Hd. assert (forM_ assertLabel (fg_subject_ids g) = Ok tt) as ->.
  { apply forM_Ok. eapply Forall_impl; [exact Fi|]. intros s. apply assertLabel_Ok. }
  cbn [mbind result_bind]. rewrite (proj2 (forM_Ok _ (fg_subject_digests g))).
  2:{ eapply Forall_impl; [exact Fd|]. intros s Hs. by rewrite reject_if_Ok, negb_false_iff. }
  cbn. by destruct g.
Qed.

Lemma mapM_texts_strings l : mapM text_of (map JStr l) = Some l.
Proof. apply mapM_Some. induction l; cbn; constructor; done. Qed.

(* ------------------------------------------------------------------ *)
(** ** Properties *)

(** What is written is read: a record that carries governance metadata a
    producer built reads back as that metadata, whatever else the record and
    its extension hold. *)
Theorem governance_roundtrip input g extensions extension :
  buildFindingGovernanceMetadata input = Ok g -> jfield extensions "harness.finding" = JObj extension ->
  (forall e, e ∈ governance_fields g -> jfield extension e.1 = e.2) ->
  readFindingGovernance extensions = Ok g.
Proof.
  intros [Hl _]%build_governance_Ok He Hf. unfold readFindingGovernance. rewrite He. cbv zeta.
  assert (declared_governance (JObj extension) = Some g) as ->; [|done].
  unfold declared_governance, record_field.
  pose proof (Hf ("rule", _) ltac:(by left)) as H1. pose proof (Hf ("scope_prefix", _) ltac:(by right; left)) as H2.
  pose proof (Hf ("severity", _) ltac:(by do 2 right; left)) as H3. pose proof (Hf ("actionability", _) ltac:(by do 3 right; left)) as H4.
  pose proof (Hf ("subject_ids", _) ltac:(by do 4 right; left)) as H5. pose proof (Hf ("subject_digests", _) ltac:(by do 5 right; left)) as H6.
  cbn [fst snd] in *. rewrite H1, H2, H3, H4, H5, H6. cbn [text_of].
  assert (member_of severity_text FINDING_SEVERITIES (JStr (severity_text (fg_severity g))) = Some (fg_severity g)) as ->
    by (by destruct (fg_severity g)).
  assert (member_of actionability_text FINDING_ACTIONABILITIES (JStr (actionability_text (fg_actionability g))) = Some (fg_actionability g)) as ->
    by (by destruct (fg_actionability g)).
  unfold strings, stringArray. rewrite !mapM_texts_strings.
  replace (Governance _ _ _ _ _ _) with g by (by destruct g). by rewrite build_legal.
Qed.

(** Metadata that is malformed does not always fall back to the legacy group:
    an audit finding with an illegal subject, such as the empty one, is not
    read at all. *)
Theorem legacy_audit_subject_throws kind s subjects severity_blocking :
  s ∈ subjects -> stable_label s = false ->
  readFindingGovernance
    [("harness.finding", JObj [("origin", JStr "audit"); ("blocking", JBool severity_blocking)]);
     ("harness.audit", JObj [("kind", JStr (audit_kind_text kind)); ("subjects", strings subjects)])] =
  Err invalid_finding_governance.
Proof.
  intros Hs Hl. set (extension := JObj [("origin", _); _]). set (audit := JObj [("kind", _); _]).
  unfold readFindingGovernance. change (jfield _ "harness.finding") with extension. change (jfield _ "harness.audit") with audit.
  cbv zeta. change (declared_governance extension) with (@None FindingGovernanceMetadata).
  change (record_field extension "origin") with (JStr "audit"). change (record_field audit "subjects") with (strings subjects).
  change (record_field audit "kind") with (JStr (audit_kind_text kind)).
  assert (member_of audit_kind_text audit_kinds (JStr (audit_kind_text kind)) = Some kind) as -> by (by destruct kind).
  assert (stringArray (strings subjects) = Some subjects) as -> by apply mapM_texts_strings.
  cbn [text_of]. rewrite decide_True by done. destruct (AUDIT_GOVERNANCE_RULES kind) as [domain act].
  match goal with |- buildFindingGovernanceMetadata ?g = _ => destruct (buildFindingGovernanceMetadata g) as [g'|[]] eqn:E end; [|done].
  exfalso. apply build_governance_Ok in E as ((_ & _ & _ & _ & Fi & _) & _ & _ & _ & _ & Hi & _). rewrite Hi in Fi.
  rewrite Forall_forall in Fi. specialize (Fi s). rewrite Fi in Hl; [done|]. cbn [fg_subject_ids]. unfold stableUnique.
  by rewrite elem_of_sort_strings, elem_of_dedup.
Qed.

(* ------------------------------------------------------------------ *)
(** ** Witnesses *)

Definition sample_governance : FindingGovernanceMetadata :=
  Governance "gate/failure" "project/p/gate/gate_a" blocker_severity human_review ["test_b"; "test_a"; "test_b"] [].

Lemma governance_roundtrip_witness : exists g, buildFindingGovernanceMetadata sample_governance = Ok g /\
  readFindingGovernance [("harness.finding", JObj (("origin", JStr "test") :: governance_fields g))] = Ok g.
Proof.
  destruct (buildFindingGovernanceMetadata sample_governance) as [g|] eqn:E; [|by vm_compute in E].
  exists g. split; [done|]. apply (governance_roundtrip sample_governance g _ (("origin", JStr "test") :: governance_fields g) E).
  - reflexivity.
  - vm_compute in E. injection E as <-. intros e He. repeat (apply elem_of_cons in He as [->|He]; [reflexivity|]). by apply elem_of_nil in He.
Defined.

Lemma legacy_audit_subject_throws_witness :
  readFindingGovernance
    [("harness.finding", JObj [("origin", JStr "audit"); ("blocking", JBool true)]);
     ("harness.audit", JObj [("kind", JStr "task_stale"); ("subjects", strings [""])])] = Err invalid_finding_governance.
Proof. apply (legacy_audit_subject_throws task_stale "" [""] true); [by left|reflexivity]. Defined.
