(* ===== verification/Gates.v ===== *)
(** * Verification gates

    [packages/runtime/src/gates]: a gate run through the tool pipeline
    ([provider.ts]), the evidence record of its outcome ([evidence.ts]) and the
    freshness of that evidence ([freshness.ts]). Ajv's [date-time] format is a
    parameter ([Lease.DateTime]). *)

From S2P Require Import Prelude Regex Json Policy Lease Secrets ToolDefinition ToolRegistry WorkingState ActionIntent Invocation Governance.

(** ** Data *)

Inductive GateLayer : Type := universal | stack | project_layer.
#[export] Instance GateLayer_eq_dec : EqDecision GateLayer.
Proof. solve_decision. Defined.
Definition layer_text (l : GateLayer) : string :=
  match l with universal => "universal" | stack => "stack" | project_layer => "project" end.
Definition GATE_LAYERS : list GateLayer := [universal; stack; project_layer].

Definition GATE_PHASE : string := "verification".

Inductive GateErrorKind : Type := invalid_gate_definition | invalid_evidence_record | invalid_finding_record.

(** What code that runs gates throws, by class. *)
Inductive gate_thrown : Type :=
| ThrewGate (kind : GateErrorKind) | GateTool (e : tool_thrown) | GateGovernance (e : governance_error).
Abbreviation gate_result A := (result gate_thrown A).

(** [error.kind] *)
Definition tool_error_text (k : ToolErrorKind) : string :=
  match k with
  | invalid_definition => "invalid_definition" | unknown_tool => "unknown_tool" | invalid_input => "invalid_input"
  | invalid_output => "invalid_output" | phase_not_allowed => "phase_not_allowed"
  | resource_not_allowed => "resource_not_allowed" | parameter_out_of_bounds => "parameter_out_of_bounds"
  | grant_violation => "grant_violation" | approval_required => "approval_required"
  | approval_invalid => "approval_invalid" | quota_exceeded => "quota_exceeded"
  | idempotency_key_required => "idempotency_key_required" | invalid_intent_transition => "invalid_intent_transition"
  | reconciliation_required => "reconciliation_required" | tool_timeout => "tool_timeout" | tool_failed => "tool_failed"
  | uncertain_result => "uncertain_result"
  end.

(** [^gate_[A-Za-z0-9_-]{1,150}$] *)
Definition id_char (a : ascii) : bool := is_alnum a || is_one_of "_-" a.
Definition GATE_ID_PATTERN : re := RCat (RLit "gate_") (RCat (RCls id_char) (RUpto (RCls id_char) 149)).
(** [^[a-z][a-z0-9-]*_[A-Za-z0-9_-]{1,150}$] *)
Definition SUBJECT_ID_PATTERN : re :=
  RCat (RCls is_lower) (RCat (RStar (RCls (fun a => is_lower a || is_digit a || is_one_of "-" a)))
    (RCat (RChr "_") (RCat (RCls id_char) (RUpto (RCls id_char) 149)))).

Record GateDefinition : Type := Gate
  { gd_id : string; gd_layer : GateLayer; gd_name : string; gd_mandatory : bool; gd_subject_id : string; gd_tool : string;
    gd_version : option string; gd_parameters : list (string * jsval); gd_resource : option string; gd_digest : string }.

Record GateOutcome : Type := MkOutcome
  { go_gate_id : string; go_layer : GateLayer; go_mandatory : bool; go_subject_id : string; go_passed : bool;
    go_exit_code : option Z; go_summary : string; go_log_summary : string; go_artifact_hashes : list (string * string);
    go_output_digest : string; go_error : option ToolErrorKind; go_extensions : option (list (string * jsval)) }.

(** The argument [fields] of [outcomeOf]. *)
Record OutcomeFields : Type := OFields
  { of_passed : bool; of_exit_code : option Z; of_summary : string; of_log_summary : string;
    of_artifact_hashes : list (string * string); of_error : option ToolErrorKind;
    of_extensions : option (list (string * jsval)) }.

(** ** [normalizeGateDefinition] *)

Definition invalid {A} : gate_result A := Err (ThrewGate invalid_gate_definition).

Definition digest_value `{Hash} (value : jsval) : gate_result string :=
  map_err (fun e => GateTool (ThrewCanonical e)) (contentDigest value).

Definition string_matching (ok : string -> bool) (value : jsval) : gate_result string :=
  match value with JStr s => if ok s then Ok s else invalid | _ => invalid end.

Definition string_if_present (value : jsval) : gate_result (option string) :=
  match value with JUndefined => Ok None | JStr s => Ok (Some s) | _ => invalid end.

Definition is_true (value : jsval) : bool := match value with JBool true => true | _ => false end.

Definition definition_json (g : GateDefinition) : jsval :=
  JObj ([("gate_id", JStr (gd_id g)); ("layer", JStr (layer_text (gd_layer g))); ("name", JStr (gd_name g));
         ("mandatory", JBool (gd_mandatory g)); ("subject_id", JStr (gd_subject_id g)); ("tool", JStr (gd_tool g))] ++
        optional "version" (JStr <$> gd_version g) ++ [("parameters", JObj (gd_parameters g))] ++
        optional "resource" (JStr <$> gd_resource g)).

Definition normalizeGateDefinition `{Hash} (raw : jsval) : gate_result GateDefinition :=
  match raw with
  | JObj fields =>
      id ← string_matching (re_match GATE_ID_PATTERN) (jfield fields "gate_id");
      layer ← match member_of layer_text GATE_LAYERS (jfield fields "layer") with Some l => Ok l | None => invalid end;
      let non_blank s := negb (bool_decide (trim s = "")) in
      name ← string_matching non_blank (jfield fields "name");
      subject ← string_matching (re_match SUBJECT_ID_PATTERN) (jfield fields "subject_id");
      tool ← string_matching non_blank (jfield fields "tool");
      version ← string_if_present (jfield fields "version");
      resource ← string_if_present (jfield fields "resource");
      parameters ← match jfield fields "parameters" with JUndefined => Ok [] | JObj p => Ok p | _ => invalid end;
      let gate := Gate id layer name (is_true (jfield fields "mandatory")) subject tool version parameters resource in
      digest ← digest_value (definition_json (gate ""));
      Ok (gate digest)
  | _ => invalid
  end.

(** ** [runGate] *)

Definition readArtifactHashes (value : jsval) : list (string * string) :=
  match value with
  | JObj fields =>
      foldl (fun hashes e => match e.2 with
               | JStr hash => if decide (e.1 = "__proto__") then hashes else omap_set hashes e.1 hash
               | _ => hashes
               end) [] fields
  | _ => []
  end.

Definition hashes_json (hashes : list (string * string)) : jsval := JObj (map (fun e => (e.1, JStr e.2)) hashes).
Definition exit_code_json (code : option Z) : jsval := match code with Some z => JNum (NInt z) | None => JNull end.

Definition observed_json (gate_id : string) (f : OutcomeFields) : jsval :=
  JObj ([("gate_id", JStr gate_id); ("passed", JBool (of_passed f)); ("exit_code", exit_code_json (of_exit_code f));
         ("summary", JStr (of_summary f)); ("log_summary", JStr (of_log_summary f));
         ("artifact_hashes", hashes_json (of_artifact_hashes f))] ++
        optional "error" ((fun k => JStr (tool_error_text k)) <$> of_error f) ++
        optional "extensions" (JObj <$> of_extensions f)).

Definition outcomeOf `{Hash} (g : GateDefinition) (f : OutcomeFields) : gate_result GateOutcome :=
  digest ← digest_value (observed_json (gd_id g) f);
  Ok (MkOutcome (gd_id g) (gd_layer g) (gd_mandatory g) (gd_subject_id g) (of_passed f) (of_exit_code f) (of_summary f)
        (of_log_summary f) (of_artifact_hashes f) digest (of_error f) (of_extensions f)).

Definition exit_code_of (output : list (string * jsval)) : option Z :=
  match jfield output "exit_code" with JNum (NInt z) => Some z | _ => None end.

(** The result a handler's output is read as. *)
Definition fields_of_output (value : jsval) : OutcomeFields :=
  let output := json_fields value in
  let exitCode := exit_code_of output in
  OFields
    (match jfield output "passed" with JBool b => b | _ => bool_decide (exitCode = Some 0%Z) end)
    exitCode
    (match jfield output "summary" with
     | JStr s => if decide (s = "") then
                   match exitCode with None => "gate tool returned no exit code" | Some z => "exit code " +:+ dec z end
                 else s
     | _ => match exitCode with None => "gate tool returned no exit code" | Some z => "exit code " +:+ dec z end
     end)
    (match jfield output "log_summary" with JStr s => s | _ => "" end)
    (readArtifactHashes (jfield output "artifacts"))
    None
    (match jfield output "extensions" with JObj fields => Some fields | _ => None end).

Definition fields_of_error (k : ToolErrorKind) : OutcomeFields :=
  OFields false None ("gate tool invocation failed: " +:+ tool_error_text k) "" [] (Some k) None.

Definition gate_request (g : GateDefinition) (intentId : string) : ToolInvocationRequest :=
  InvocationRequest intentId (gd_tool g) (gd_version g) GATE_PHASE (gd_resource g) (gd_parameters g) None None.

Definition runGate {W} `{Hash} (sh : Shared W) (g : GateDefinition) (intentId : string) (ctx : ToolInvocationContext)
    (w : W) : option (gate_result GateOutcome * Shared W * W) :=
  match invokeTool sh (gate_request g intentId) ctx w with
  | None => None
  | Some (Ok evidence, sh', w') => Some (outcomeOf g (fields_of_output (ev_output evidence)), sh', w')
  | Some (Err (ThrewTool k), sh', w') => Some (outcomeOf g (fields_of_error k), sh', w')
  | Some (Err e, sh', w') => Some (Err (GateTool e), sh', w')
  end.

(** ** Evidence *)

Record EvidenceBindings : Type := Bindings
  { eb_artifact_digests : list string; eb_code_digests : list string; eb_context_bundle_digest : option string;
    eb_gate_digest : string; eb_evaluation_case_digests : list string; eb_policy_digest : string }.

Record GateEvidenceExtension : Type := Extension
  { gx_gate_id : string; gx_layer : GateLayer; gx_mandatory : bool; gx_passed : bool; gx_exit_code : option Z;
    gx_summary : string; gx_log_summary : string; gx_artifact_hashes : list (string * string); gx_bindings : EvidenceBindings }.

(** [extensions] is split: [er_gate] is its field [harness.gate]. *)
Record GateEvidenceRecord : Type := EvidenceRecord
  { er_evidence_id : string; er_evidence_type : string; er_subject_id : string; er_digest : string; er_provisional : bool;
    er_created_at : string; er_extensions : list (string * jsval); er_gate : option GateEvidenceExtension }.

Record GateEvidenceSpec : Type := EvidenceSpec
  { es_evidenceId : string; es_createdAt : string; es_provisional : bool; es_outcome : GateOutcome; es_bindings : EvidenceBindings }.

Definition GATE_EVIDENCE_EXTENSION_KEY : string := "harness.gate".
Definition GATE_EVIDENCE_TYPE : string := "gate_result".

Definition sorted_bindings (b : EvidenceBindings) : EvidenceBindings :=
  Bindings (sort_strings (eb_artifact_digests b)) (sort_strings (eb_code_digests b)) (eb_context_bundle_digest b)
    (eb_gate_digest b) (sort_strings (eb_evaluation_case_digests b)) (eb_policy_digest b).

Definition extensionOf (o : GateOutcome) (b : EvidenceBindings) : GateEvidenceExtension :=
  Extension (go_gate_id o) (go_layer o) (go_mandatory o) (go_passed o) (go_exit_code o) (go_summary o) (go_log_summary o)
    (go_artifact_hashes o) (sorted_bindings b).

Definition bindings_json (b : EvidenceBindings) : jsval :=
  JObj ([("artifact_digests", strings (eb_artifact_digests b)); ("code_digests", strings (eb_code_digests b))] ++
        optional "context_bundle_digest" (JStr <$> eb_context_bundle_digest b) ++
        [("gate_digest", JStr (eb_gate_digest b)); ("evaluation_case_digests", strings (eb_evaluation_case_digests b));
         ("policy_digest", JStr (eb_policy_digest b))]).

Definition outcome_json (o : GateOutcome) : jsval :=
  JObj [("gate_id", JStr (go_gate_id o)); ("layer", JStr (layer_text (go_layer o))); ("mandatory", JBool (go_mandatory o));
        ("passed", JBool (go_passed o)); ("exit_code", exit_code_json (go_exit_code o)); ("summary", JStr (go_summary o));
        ("log_summary", JStr (go_log_summary o)); ("artifact_hashes", hashes_json (go_artifact_hashes o));
        ("output_digest", JStr (go_output_digest o))].

Definition evidence_json (o : GateOutcome) (b : EvidenceBindings) : jsval :=
  JObj [("evidence_type", JStr GATE_EVIDENCE_TYPE); ("subject_id", JStr (go_subject_id o)); ("outcome", outcome_json o);
        ("bindings", bindings_json (sorted_bindings b))].

(** [^[a-z][a-z0-9]*(?:[.-][a-z0-9]+)+$], the keys [ExtensionsSchema] admits. *)
Definition EXTENSION_KEY_REGEX : re :=
  let word := RCls (fun a => is_lower a || is_digit a) in
  RCat (RCls is_lower) (RCat (RStar word) (RPlus (RCat (RCls (is_one_of ".-")) (RPlus word)))).

(** [EvidenceRecordSchema]; the field [harness.gate] has a legal key. *)
Definition evidence_schema_ok `{DateTime} (r : GateEvidenceRecord) : bool :=
  identifier_ok (er_evidence_id r) && negb (bool_decide (er_evidence_type r = "")) && identifier_ok (er_subject_id r) &&
  re_match digest_regex (er_digest r) && is_date_time (er_created_at r) &&
  forallb (fun e => re_match EXTENSION_KEY_REGEX e.1) (er_extensions r).

Definition buildGateEvidence `{Hash} `{DateTime} (spec : GateEvidenceSpec) : gate_result GateEvidenceRecord :=
  let o := es_outcome spec in
  digest ← digest_value (evidence_json o (es_bindings spec));
  let record := EvidenceRecord (es_evidenceId spec) GATE_EVIDENCE_TYPE (go_subject_id o) digest (es_provisional spec)
    (es_createdAt spec) (without_field GATE_EVIDENCE_EXTENSION_KEY (default [] (go_extensions o)))
    (Some (extensionOf o (es_bindings spec))) in
  _ ← reject_if (negb (evidence_schema_ok record)) (ThrewGate invalid_evidence_record);
  Ok record.

Definition readGateEvidenceExtension (r : GateEvidenceRecord) : option GateEvidenceExtension := er_gate r.
Definition evidenceBindingsOf (r : GateEvidenceRecord) : option EvidenceBindings := gx_bindings <$> readGateEvidenceExtension r.

(** ** Freshness *)

(** The interface [CurrentEvidenceState] has the fields of the bindings. *)
Definition CurrentEvidenceState : Type := EvidenceBindings.

(** [left.every((value) => remaining.delete(value))] *)
Fixpoint delete_each (remaining left_ : list string) : bool :=
  match left_ with
  | [] => true
  | v :: left' => mem v remaining && delete_each (filter (fun x => x <> v) remaining) left'
  end.

Definition sameSet (left_ right_ : list string) : bool :=
  (length left_ =? length right_)%nat && delete_each (dedup right_) left_.

Definition setReasons (label : string) (bound current : list string) : list string :=
  if sameSet bound current then [] else ["bound " +:+ label +:+ " set changed"].
Definition scalarReason (label : string) (bound current : option string) : list string :=
  if decide (bound = current) then [] else ["bound " +:+ label +:+ " digest changed"].

Definition bindingsStalenessReasons (b : EvidenceBindings) (current : CurrentEvidenceState) : list string :=
  setReasons "artifact" (eb_artifact_digests b) (eb_artifact_digests current) ++
  setReasons "code" (eb_code_digests b) (eb_code_digests current) ++
  scalarReason "context bundle" (eb_context_bundle_digest b) (eb_context_bundle_digest current) ++
  scalarReason "gate" (Some (eb_gate_digest b)) (Some (eb_gate_digest current)) ++
  setReasons "evaluation case" (eb_evaluation_case_digests b) (eb_evaluation_case_digests current) ++
  scalarReason "policy" (Some (eb_policy_digest b)) (Some (eb_policy_digest current)).

Definition evidenceStalenessReasons (r : GateEvidenceRecord) (current : CurrentEvidenceState) : list string :=
  match evidenceBindingsOf r with
  | None => ["evidence carries no gate bindings"]
  | Some b => bindingsStalenessReasons b current
  end.

Definition isEvidenceStale (r : GateEvidenceRecord) (current : CurrentEvidenceState) : bool :=
  negb (bool_decide (evidenceStalenessReasons r current = [])).

Definition findingClosableBy (r : GateEvidenceRecord) (current : CurrentEvidenceState) : bool :=
  if er_provisional r then false
  else
    match readGateEvidenceExtension r with
    | None => false
    | Some x => if negb (gx_passed x) then false else negb (isEvidenceStale r current)
    end.

(* ------------------------------------------------------------------ *)
(** ** What is written without an error *)

Lemma writes_text s : writes (JStr s).
Proof. by eexists. Qed.
Lemma writes_bool b : writes (JBool b).
Proof. by eexists. Qed.
Lemma writes_exit_code c : writes (exit_code_json c).
Proof. destruct c; by eexists. Qed.

Lemma writes_hashes l : NoDup l.*1 -> writes (hashes_json l).
Proof.
  intros Hn. apply writes_object.
  - assert ((map (fun e : string * string => (e.1, JStr e.2)) l).*1 = l.*1) as ->; [|done].
    clear Hn. induction l as [|e l IH]; [done|]. cbn. by f_equal.
  - intros e (x & -> & _)%list_elem_of_fmap. apply writes_text.
Qed.

Lemma hash_keys_NoDup value : NoDup (readArtifactHashes value).*1.
Proof.
  destruct value as [| | | | | |fields]; try apply NoDup_nil_2. unfold readArtifactHashes.
  assert (forall acc, NoDup acc.*1 -> NoDup (foldl (fun hashes (e : string * jsval) => match e.2 with
    | JStr hash => if decide (e.1 = "__proto__") then hashes else omap_set hashes e.1 hash
    | _ => hashes end) acc fields).*1) as Hg; [|apply Hg, NoDup_nil_2].
  induction fields as [|[k v] fields IH]; intros acc Ha; [done|]. cbn. apply IH.
  destruct v; try done. case_decide; [done|]. by apply omap_set_NoDup.
Qed.

(** The fields of a value that is written are written. *)
Lemma writes_field fields key v : writes (JObj fields) -> omap_get fields key = Some v -> writes v.
Proof.
  intros [s Hs] He%omap_get_elem. cbn in Hs. unfold write_entries in Hs. destruct (adjacent_duplicate _); [done|].
  apply bind_Ok in Hs as (body & Hb%mapM_Ok & _).
  assert ((key, writeValue v) ∈ js_sort key_cmp (map (fun e : string * jsval => (nfc e.1, writeValue e.2)) fields)) as Hin.
  { rewrite elem_of_js_sort. apply list_elem_of_fmap. by exists (key, v). }
  apply list_elem_of_lookup in Hin as [i Hi]. destruct (Forall2_lookup_l _ _ _ _ _ Hb Hi) as (y & _ & Hy).
  apply bind_Ok in Hy as (t & Ht & _). by exists t.
Qed.

Definition clean (f : OutcomeFields) : Prop :=
  NoDup (of_artifact_hashes f).*1 /\ forall x, of_extensions f = Some x -> writes (JObj x).

Lemma observed_writes id f : clean f -> writes (observed_json id f).
Proof.
  intros [Hn Hx]. unfold observed_json. apply writes_object.
  - destruct (of_error f), (of_extensions f); cbn; by apply (bool_decide_unpack _).
  - intros e He. repeat first [apply elem_of_app in He as [He|He] | apply elem_of_cons in He as [->|He]]; cbn [snd];
      try apply writes_text; try apply writes_bool; try apply writes_exit_code; try by apply writes_hashes.
    + by apply elem_of_nil in He.
    + destruct (of_error f); cbn in He; [|by apply elem_of_nil in He]. apply list_elem_of_singleton in He as ->. apply writes_text.
    + destruct (of_extensions f) eqn:E; cbn in He; [|by apply elem_of_nil in He]. apply list_elem_of_singleton in He as ->. by apply Hx.
Qed.

Lemma digest_value_Ok `{Hash} v d : digest_value v = Ok d <-> contentDigest v = Ok d.
Proof. apply map_err_Ok. Qed.

Lemma digest_writes `{Hash} v : writes v <-> exists d, contentDigest v = Ok d.
Proof.
  unfold writes, contentDigest, canonicalizeJson. split; intros [x Hx]; [exists (sha256 x); by rewrite Hx|].
  destruct (writeValue v) as [s|]; [by exists s|done].
Qed.

Lemma clean_error k : clean (fields_of_error k).
Proof. split; [apply NoDup_nil_2|done]. Qed.

Lemma clean_output value : writes value -> clean (fields_of_output value).
Proof.
  intros Hw. split; [apply hash_keys_NoDup|]. cbn. intros x Hx.
  destruct (jfield (json_fields value) "extensions") as [| | | | | |ext] eqn:E; try discriminate Hx. injection Hx as <-.
  destruct value as [| | | | | |fields]; try discriminate E. cbn in E. unfold jfield in E.
  destruct (omap_get fields "extensions") eqn:Eg; cbn in E; [|discriminate E]. rewrite E in Eg. by eapply writes_field.
Qed.

Lemma outcomeOf_Ok `{Hash} g f o : outcomeOf g f = Ok o <->
  exists d, contentDigest (observed_json (gd_id g) f) = Ok d /\
    o = MkOutcome (gd_id g) (gd_layer g) (gd_mandatory g) (gd_subject_id g) (of_passed f) (of_exit_code f) (of_summary f)
          (of_log_summary f) (of_artifact_hashes f) d (of_error f) (of_extensions f).
Proof.
  unfold outcomeOf. rewrite bind_Ok. setoid_rewrite digest_value_Ok. split.
  - intros (d & Hd & [= <-]). by exists d.
  - intros (d & Hd & ->). by exists d.
Qed.

Lemma outcomeOf_total `{Hash} g f : clean f -> exists o, outcomeOf g f = Ok o.
Proof.
  intros Hc. destruct (proj1 (digest_writes _) (observed_writes (gd_id g) f Hc)) as [d Hd].
  eexists. apply outcomeOf_Ok. by exists d.
Qed.

(* ------------------------------------------------------------------ *)
(** ** Gates and the tool pipeline *)

Section pipeline.
Context {W : Type} `{Hash}.
Implicit Types call : Call W.

(** What an invocation leaves of the registry, and what it answers. *)
Definition same_tools (sh sh' : Shared W) : Prop := reg_tools (sh_registry sh') = reg_tools (sh_registry sh).

Lemma attempt_digest call n s journal ev journal' : attempt call n s journal = (Ok ev, journal') ->
  contentDigest (or_else (ev_output ev) JNull) = Ok (output_digest ev).
Proof.
  unfold attempt. destruct s as [raw| | |]; try done. destruct (negb _); [by destruct (close_intent _ _ _) as [[? ?]|]|].
  destruct (redactOutput _ _ _) as [redacted was]. destruct (close_intent _ _ _) as [[closed j]|]; [|done].
  destruct (evidenceOf _ _ _ _ _ _ _) as [ev'|] eqn:E; [|done]. intros [= <- _]. unfold evidenceOf in E.
  apply bind_Ok in E as (dg & Hd%map_err_Ok & [= <-]). done.
Qed.

Lemma settle_answers call n s journal o journal' : settle call n s journal = (o, journal') -> c_intent call = None ->
  match o with
  | Answered ev => contentDigest (or_else (ev_output ev) JNull) = Ok (output_digest ev)
  | Failed e => exists k, e = ThrewTool k
  | Again => True
  end.
Proof.
  intros Hs Hi. unfold settle in Hs. destruct (attempt call n s journal) as [[ev|f] j] eqn:Ea.
  - injection Hs as <- _. by eapply attempt_digest.
  - rewrite Hi in Hs. destruct f; [injection Hs as <- _; eauto|..];
      destruct (is_external _); try (injection Hs as <- _; by eauto); destruct (_ && _); injection Hs as <- _; eauto.
Qed.

(** A loop without an intent touches neither registry nor journal. *)
Lemma loop_answers fuel : forall call k sh w r sh' w', c_intent call = None ->
  attempt_loop fuel call k sh w = Some (r, sh', w') -> sh' = sh /\
  match r with
  | Ok ev => contentDigest (or_else (ev_output ev) JNull) = Ok (output_digest ev)
  | Err e => exists k, e = ThrewTool k
  end.
Proof.
  induction fuel as [|fuel IH]; intros call k sh w r sh' w' Hi; cbn; [done|].
  destruct (call_handler call w) as [s w1]. destruct (settle call (k + 1) s (sh_journal sh)) as [o journal] eqn:Es.
  pose proof (settle_answers _ _ _ _ _ _ Es Hi) as Ho.
  pose proof (settle_no_intent call (k + 1)%Z s (sh_journal sh) Hi) as Hj. rewrite Es in Hj. cbn in Hj. subst journal.
  assert (Share (sh_registry sh) (sh_journal sh) = sh) as Hsh by (by destruct sh). rewrite Hsh.
  destruct o; [intros [= <- <- <-]; done..|]. by apply IH.
Qed.

(** A request without an idempotency key never reaches an external tool. *)
Lemma prepare_keyless sh request ctx r sh' : rq_key request = None -> prepare sh request ctx = (r, sh') ->
  same_tools sh sh' /\ sh_journal sh' = sh_journal sh /\
  match r with
  | Ok (Replay _) => False
  | Ok (Run call) => c_intent call = None /\ exists entry secrets digest,
      authorized (sh_registry sh) request ctx entry secrets digest /\ is_external (definition entry) = false /\
      (0 < quotaRemaining (sh_registry sh) (definition entry))%Z /\ c_entry call = entry
  | Err e => (exists k, e = ThrewTool k) \/ sh' = sh
  end.
Proof.
  intros Hk Hp. unfold same_tools. destruct r as [[ev|call]|e].
  - destruct (prepare_Replay _ _ _ _ _ Hp) as (-> & ? & ? & ? & key & ? & ? & _ & Hkey & _). congruence.
  - apply prepare_Run in Hp as (entry & secrets & digest & intent & reg & journal & Ha & Hu & Hq & Ho & -> & ->).
    destruct (is_external (definition entry)) eqn:He; [by destruct (Hu He) as (? & ? & ? & _); congruence|].
    apply consumeQuota_Ok in Hq as [Hq ->]. unfold opened in Ho. rewrite He in Ho. destruct Ho as [-> ->].
    split; [done|]. split; [done|]. cbn. split; [done|]. exists entry, secrets, digest. done.
  - destruct (prepare_Err _ _ _ _ _ Hp) as [Hj [Hr|(-> & entry & secrets & digest & _ & [_ Hq]%consumeQuota_Ok)]].
    + rewrite Hr. split; [done|]. split; [done|]. right. destruct sh, sh'. cbn in *. congruence.
    + rewrite Hq. split; [done|]. split; [done|]. left. eauto.
Qed.

Lemma invoke_keyless sh request ctx w r sh' w' : rq_key request = None -> invokeTool sh request ctx w = Some (r, sh', w') ->
  same_tools sh sh' /\ sh_journal sh' = sh_journal sh /\
  match r with
  | Ok ev => contentDigest (or_else (ev_output ev) JNull) = Ok (output_digest ev) /\ exists entry secrets digest,
      authorized (sh_registry sh) request ctx entry secrets digest /\ is_external (definition entry) = false /\
      (0 < quotaRemaining (sh_registry sh) (definition entry))%Z
  | Err e => (exists k, e = ThrewTool k) \/ sh' = sh /\ w' = w
  end.
Proof.
  intros Hk. unfold invokeTool. destruct (prepare sh request ctx) as [p sh1] eqn:Hp.
  pose proof (prepare_keyless _ _ _ _ _ Hk Hp) as (Ht & Hj & Hr). destruct p as [[ev|call]|e]; [done| |].
  - destruct Hr as (Hi & entry & secrets & digest & Ha & He & Hq & Hc). intros Hl.
    apply loop_answers in Hl as [-> Hl]; [|done]. split; [done|]. split; [done|]. destruct r; [|by left].
    split; [done|]. by exists entry, secrets, digest.
  - intros [= <- <- <-]. split; [done|]. split; [done|]. destruct Hr; auto.
Qed.

(** When the output of a gate's tool reports success. *)
Definition reports_success (output : list (string * jsval)) : Prop :=
  jfield output "passed" = JBool true \/
  (forall b, jfield output "passed" <> JBool b) /\ exit_code_of output = Some 0%Z.

Lemma passed_spec value : of_passed (fields_of_output value) = true <-> reports_success (json_fields value).
Proof.
  cbn. unfold reports_success. destruct (jfield (json_fields value) "passed") as [|  |[]| | | |];
    rewrite ?bool_decide_eq_true; naive_solver.
Qed.
End pipeline.

Lemma runGate_answers {W} `{Hash} `{SchemaCompiler} (sh : Shared W) g id ctx w : registry_ok (sh_registry sh) ->
  exists r sh' w', runGate sh g id ctx w = Some (r, sh', w') /\ same_tools sh sh' /\ sh_journal sh' = sh_journal sh /\
    match invokeTool sh (gate_request g id) ctx w with
    | Some (Ok ev, sh1, w1) => (exists o, r = Ok o /\ outcomeOf g (fields_of_output (ev_output ev)) = Ok o) /\ sh1 = sh' /\ w1 = w' /\
        exists entry secrets digest, authorized (sh_registry sh) (gate_request g id) ctx entry secrets digest /\
          is_external (definition entry) = false /\ (0 < quotaRemaining (sh_registry sh) (definition entry))%Z
    | Some (Err (ThrewTool k), sh1, w1) => (exists o, r = Ok o /\ outcomeOf g (fields_of_error k) = Ok o) /\ sh1 = sh' /\ w1 = w'
    | Some (Err t, _, _) => r = Err (GateTool t) /\ sh' = sh /\ w' = w
    | None => False
    end.
Proof.
  intros Hreg. destruct (invocation_ends sh (gate_request g id) ctx w Hreg) as (ri & sh' & w' & Hi & _).
  pose proof (invoke_keyless sh (gate_request g id) ctx w ri sh' w' eq_refl Hi) as (Ht & Hj & Hr).
  unfold runGate. rewrite Hi. destruct ri as [ev|t].
  - destruct Hr as [Hd Ha]. assert (writes (or_else (ev_output ev) JNull)) as Hw by (apply digest_writes; eauto).
    assert (clean (fields_of_output (ev_output ev))) as Hc.
    { destruct (ev_output ev) eqn:E; [|by apply clean_output..]. split; [apply NoDup_nil_2|done]. }
    destruct (outcomeOf_total g _ Hc) as [o Ho]. exists (Ok o), sh', w'. rewrite Ho. eauto 10.
  - destruct t as [k|k|c].
    + destruct (outcomeOf_total g _ (clean_error k)) as [o Ho]. exists (Ok o), sh', w'. rewrite Ho. eauto 10.
    + destruct Hr as [(k' & Hk)|[-> ->]]; [done|]. by exists (Err (GateTool (ThrewSecret k))), sh, w.
    + destruct Hr as [(k' & Hk)|[-> ->]]; [done|]. by exists (Err (GateTool (ThrewCanonical c))), sh, w.
Qed.

(** The verdict of a gate, given the answer of its tool. *)
Lemma runGate_passed {W} `{Hash} `{SchemaCompiler} (sh : Shared W) g id ctx w r sh' w' o : registry_ok (sh_registry sh) ->
  runGate sh g id ctx w = Some (r, sh', w') -> r = Ok o ->
  (go_passed o = true <-> exists ev, invokeTool sh (gate_request g id) ctx w = Some (Ok ev, sh', w') /\
     reports_success (json_fields (ev_output ev))) /\
  (forall k, go_error o = Some k <-> invokeTool sh (gate_request g id) ctx w = Some (Err (ThrewTool k), sh', w')).
Proof.
  intros Hreg Hrun ->. destruct (runGate_answers sh g id ctx w Hreg) as (r1 & sh1 & w1 & Hrun' & _ & _ & Hm).
  rewrite Hrun in Hrun'. injection Hrun' as <- <- <-.
  destruct (invokeTool sh (gate_request g id) ctx w) as [[[[ev|[k|k|c]] sh2] w2]|]; [| |by destruct Hm|by destruct Hm|done].
  - destruct Hm as ((o' & [= <-] & (d & _ & ->)%outcomeOf_Ok) & -> & -> & _). cbn [go_passed go_error].
    change (of_error (fields_of_output (ev_output ev))) with (@None ToolErrorKind). rewrite passed_spec. naive_solver.
  - destruct Hm as ((o' & [= <-] & (d & _ & ->)%outcomeOf_Ok) & -> & ->). cbn. naive_solver.
Qed.

(* ------------------------------------------------------------------ *)
(** ** What the digest of an evidence record binds *)

Lemma hashes_canon l l' : NoDup l.*1 -> NoDup l'.*1 -> canon (hashes_json l) = canon (hashes_json l') <-> l ≡ₚ l'.
Proof.
  intros Hn Hn'. unfold hashes_json. cbn [canon]. rewrite !map_map. cbn [fst snd canon].
  assert (forall m : list (string * string), (map (fun e => (e.1, JStr e.2)) m).*1 = m.*1) as Hkeys.
  { induction m as [|e m IH]; [done|]. cbn. by f_equal. }
  split.
  - intros [= E]. assert (map (fun e : string * string => (e.1, JStr e.2)) l ≡ₚ map (fun e => (e.1, JStr e.2)) l') as Hp.
    { rewrite <- (js_sort_Permutation key_cmp (map _ l)), E. apply js_sort_Permutation. }
    apply (Permutation_map (fun e : string * jsval => (e.1, default "" (text_of e.2)))) in Hp.
    rewrite !map_map in Hp.
    assert (forall m : list (string * string), map (fun x => (x.1, default "" (text_of (JStr x.2)))) m = m) as Hid.
    { induction m as [|[] m IH]; [done|]. cbn. by f_equal. }
    by rewrite !Hid in Hp.
  - intros Hp. f_equal. apply key_sort_unique; [by rewrite Hkeys|]. by apply Permutation_map.
Qed.

Lemma literals_hashes l : literals_ok (hashes_json l) = true.
Proof. cbn. apply forallb_Forall'. apply Forall_forall. by intros ? (e & -> & _)%list_elem_of_fmap. Qed.

Lemma canon_object l l' : Forall2 (fun e e' : string * jsval => e.1 = e'.1 /\ canon e.2 = canon e'.2) l l' -> canon (JObj l) = canon (JObj l').
Proof. intros Hl. cbn. do 2 f_equal. induction Hl as [|e e' l l' [H1 H2] _ IH]; [done|]. cbn. by rewrite H1, H2, IH. Qed.

(** What two records agree on. *)
Record same_observation (o o' : GateOutcome) : Prop := {
  so_gate : go_gate_id o = go_gate_id o'; so_layer : go_layer o = go_layer o'; so_mandatory : go_mandatory o = go_mandatory o';
  so_subject : go_subject_id o = go_subject_id o'; so_passed : go_passed o = go_passed o';
  so_exit : go_exit_code o = go_exit_code o'; so_summary : go_summary o = go_summary o';
  so_log : go_log_summary o = go_log_summary o'; so_hashes : go_artifact_hashes o ≡ₚ go_artifact_hashes o';
  so_output : go_output_digest o = go_output_digest o' }.

Record same_bindings (b b' : EvidenceBindings) : Prop := {
  sb_artifacts : eb_artifact_digests b ≡ₚ eb_artifact_digests b'; sb_code : eb_code_digests b ≡ₚ eb_code_digests b';
  sb_context : eb_context_bundle_digest b = eb_context_bundle_digest b'; sb_gate : eb_gate_digest b = eb_gate_digest b';
  sb_cases : eb_evaluation_case_digests b ≡ₚ eb_evaluation_case_digests b'; sb_policy : eb_policy_digest b = eb_policy_digest b' }.

Lemma sort_strings_eq l l' : sort_strings l = sort_strings l' <-> l ≡ₚ l'.
Proof.
  split; [|apply sort_strings_unique]. intros E. by rewrite <- (sort_strings_Permutation l), E, sort_strings_Permutation.
Qed.

Lemma exit_code_inj c c' : canon (exit_code_json c) = canon (exit_code_json c') -> c = c'.
Proof. destruct c, c'; cbn; congruence. Qed.

Lemma layer_text_inj l l' : layer_text l = layer_text l' -> l = l'.
Proof. by destruct l, l'. Qed.

Definition outcome_fields (o : GateOutcome) : list (string * jsval) :=
  match outcome_json o with JObj fields => fields | _ => [] end.

(** The field [key] of two objects with the same canonical value. *)
Ltac canon_at H key :=
  let E := fresh "E" in
  match type of H with
  | canon (JObj ?f) = canon (JObj ?g) =>
      let x := eval hnf in (omap_get f key) in
      let y := eval hnf in (omap_get g key) in
      assert (canon <$> x = canon <$> y) as E
        by (change (canon <$> omap_get f key = canon <$> omap_get g key);
            apply canon_fields; [cbn; by apply (bool_decide_unpack _)..|exact H]);
      try apply (inj Some) in E
  end.

Lemma outcome_canon o o' : NoDup (go_artifact_hashes o).*1 -> NoDup (go_artifact_hashes o').*1 -> go_subject_id o = go_subject_id o' ->
  canon (outcome_json o) = canon (outcome_json o') <-> same_observation o o'.
Proof.
  intros Hn Hn' Hs. split.
  - intros H. unfold outcome_json in H. canon_at H "gate_id". canon_at H "layer". canon_at H "mandatory". canon_at H "passed".
    canon_at H "exit_code". canon_at H "summary". canon_at H "log_summary". canon_at H "artifact_hashes". canon_at H "output_digest".
    apply hashes_canon in E6; [|done..]. apply exit_code_inj in E3. cbn [canon] in *. injection E0 as E0%layer_text_inj.
    split; try congruence; done.
  - intros [Hg Hl Hm _ Hp He Hsu Hlo Hh Ho]. unfold outcome_json. rewrite Hg, Hl, Hm, Hp, He, Hsu, Hlo, Ho.
    apply canon_object. repeat (constructor; [done|]). repeat constructor. by apply hashes_canon.
Qed.

Lemma bindings_canon b b' : canon (bindings_json (sorted_bindings b)) = canon (bindings_json (sorted_bindings b')) <-> same_bindings b b'.
Proof.
  split.
  - destruct b as [a c [x|] g e p], b' as [a' c' [x'|] g' e' p']; intros H; unfold bindings_json, sorted_bindings in H;
      cbn [eb_artifact_digests eb_code_digests eb_context_bundle_digest eb_gate_digest eb_evaluation_case_digests eb_policy_digest
           fmap option_fmap option_map optional app] in H;
      canon_at H "context_bundle_digest"; try discriminate E;
      canon_at H "artifact_digests"; canon_at H "code_digests"; canon_at H "gate_digest"; canon_at H "evaluation_case_digests";
      canon_at H "policy_digest"; rewrite !canon_strings in *; apply (inj strings) in E0, E1, E3;
      apply sort_strings_eq in E0, E1, E3; cbn [canon] in *; split; try done; cbn; congruence.
  - intros [Ha Hc Hx Hg He Hp]. assert (sorted_bindings b = sorted_bindings b') as ->; [|done].
    unfold sorted_bindings. apply sort_strings_eq in Ha, Hc, He. congruence.
Qed.

Lemma evidence_canon o b o' b' : NoDup (go_artifact_hashes o).*1 -> NoDup (go_artifact_hashes o').*1 ->
  canon (evidence_json o b) = canon (evidence_json o' b') <-> same_observation o o' /\ same_bindings b b'.
Proof.
  intros Hn Hn'. split.
  - intros H. unfold evidence_json in H. canon_at H "subject_id". canon_at H "outcome". canon_at H "bindings".
    apply bindings_canon in E1. cbn [canon] in E. injection E as E. by apply outcome_canon in E0.
  - intros [Ho Hb]. unfold evidence_json. rewrite (so_subject _ _ Ho). apply canon_object. repeat (constructor; [done|]).
    constructor; [|constructor; [|done]]; split; try done; [|by apply bindings_canon]. apply outcome_canon; try done. apply Ho.
Qed.

Lemma literals_strings l : literals_ok (strings l) = true.
Proof. unfold strings. cbn. apply forallb_Forall', Forall_forall. by intros ? (s & -> & _)%(list_elem_of_fmap_1 JStr). Qed.

Lemma evidence_literals o b : literals_ok (evidence_json o b) = true.
Proof.
  unfold evidence_json, outcome_json, bindings_json. destruct (eb_context_bundle_digest (sorted_bindings b)), (go_exit_code o);
    cbn -[hashes_json]; by rewrite ?literals_strings, ?literals_hashes.
Qed.

(** A record that was built. *)
Lemma buildGateEvidence_Ok `{Hash} `{DateTime} spec r : buildGateEvidence spec = Ok r ->
  contentDigest (evidence_json (es_outcome spec) (es_bindings spec)) = Ok (er_digest r) /\ er_provisional r = es_provisional spec /\
  er_gate r = Some (extensionOf (es_outcome spec) (es_bindings spec)) /\ er_subject_id r = go_subject_id (es_outcome spec) /\
  er_evidence_id r = es_evidenceId spec /\ evidence_schema_ok r = true.
Proof.
  unfold buildGateEvidence. intros Hb. apply bind_Ok in Hb as (d & Hd%digest_value_Ok & Hb).
  apply bind_Ok in Hb as (u & Hv%reject_if_Ok & [= <-]). cbn. apply negb_false_iff in Hv. done.
Qed.

(* ------------------------------------------------------------------ *)
(** ** Freshness *)

Lemma delete_each_spec l : forall rem, delete_each rem l = true <-> NoDup l /\ l ⊆ rem.
Proof.
  induction l as [|v l IH]; intros rem; cbn; [split; [split; [apply NoDup_nil_2|set_solver]|done]|].
  rewrite andb_true_iff, mem_spec, IH, NoDup_cons. split.
  - intros (Hv & Hn & Hs). assert (Hnot : v ∉ l) by (intros Hin; apply Hs, list_elem_of_filter in Hin; naive_solver).
    split; [done|]. intros x [->|Hx]%elem_of_cons; [done|]. by apply Hs, list_elem_of_filter in Hx as [_ ?].
  - intros ([Hv Hn] & Hs). split; [apply Hs; by left|]. split; [done|]. intros x Hx. apply list_elem_of_filter.
    split; [by intros ->|]. apply Hs. by right.
Qed.

Lemma sameSet_spec l r : sameSet l r = true <-> NoDup l /\ l ≡ₚ r.
Proof.
  unfold sameSet. rewrite andb_true_iff, Nat.eqb_eq, delete_each_spec. split.
  - intros (Hlen & Hn & Hs). split; [done|]. assert (Hr : l ⊆ r) by (intros x Hx; by apply elem_of_dedup, Hs).
    by apply submseteq_length_Permutation; [apply NoDup_submseteq|rewrite Hlen].
  - intros [Hn Hp]. rewrite Hp at 1. split; [done|]. split; [done|]. intros x Hx. apply elem_of_dedup. by rewrite <- Hp.
Qed.

Lemma setReasons_nil label l r : setReasons label l r = [] <-> NoDup l /\ l ≡ₚ r.
Proof. unfold setReasons. rewrite <- sameSet_spec. by destruct (sameSet l r). Qed.

Lemma scalarReason_nil label x y : scalarReason label x y = [] <-> x = y.
Proof. unfold scalarReason. case_decide; naive_solver. Qed.

(** Every digest list of the bindings is without repetition. *)
Definition distinct_bindings (b : EvidenceBindings) : Prop :=
  NoDup (eb_artifact_digests b) /\ NoDup (eb_code_digests b) /\ NoDup (eb_evaluation_case_digests b).

Lemma staleness_nil b current : bindingsStalenessReasons b current = [] <-> distinct_bindings b /\ same_bindings b current.
Proof.
  unfold bindingsStalenessReasons, distinct_bindings. rewrite !app_nil, !setReasons_nil, !scalarReason_nil. split.
  - intros ((? & ?) & (? & ?) & ? & ? & (? & ?) & ?). split; [done|]. split; try done; congruence.
  - intros ((? & ? & ?) & []). split_and!; try done; congruence.
Qed.

Lemma sorted_same b current : same_bindings (sorted_bindings b) current <-> same_bindings b current.
Proof. split; intros [Ha Hc Hx Hg He Hp]; split; cbn in *; rewrite ?sort_strings_Permutation in *; done. Qed.

Lemma sorted_distinct b : distinct_bindings (sorted_bindings b) <-> distinct_bindings b.
Proof. unfold distinct_bindings. cbn. by rewrite !sort_strings_Permutation. Qed.

(** A built record is stale exactly when a binding has changed or a bound
    list repeats a digest. *)
Lemma built_fresh `{Hash} `{DateTime} spec r current : buildGateEvidence spec = Ok r ->
  isEvidenceStale r current = false <-> distinct_bindings (es_bindings spec) /\ same_bindings (es_bindings spec) current.
Proof.
  intros (_ & _ & Hg & _)%buildGateEvidence_Ok. unfold isEvidenceStale, evidenceStalenessReasons, evidenceBindingsOf, readGateEvidenceExtension.
  rewrite Hg. cbn [fmap option_fmap option_map extensionOf gx_bindings]. rewrite negb_false_iff, bool_decide_eq_true, staleness_nil.
  by rewrite sorted_same, sorted_distinct.
Qed.

(* ------------------------------------------------------------------ *)
(** ** Properties *)

(** The verdict of a gate is exact. Running a gate always ends; it takes
    nothing from the registry but quota and never touches the journal of
    external actions. The gate passes exactly when its tool answered and the
    answer reports success: [passed] if it is a boolean, else an exit code
    of zero. Only a registered tool that admits the verification phase, the
    parameters and the resource, whose quota is not spent, that has no
    external effect and needs no approval can make a gate pass. Every typed
    refusal of the pipeline is a failed gate with its kind; what is thrown
    instead is an unresolved secret or a value without canonical form, and
    then nothing has changed. *)
Theorem gate_verdict_exact {W} `{Hash} `{SchemaCompiler} (sh : Shared W) g id ctx w :
  rtc registry_step empty_registry (sh_registry sh) ->
  exists r sh' w', runGate sh g id ctx w = Some (r, sh', w') /\ same_tools sh sh' /\ sh_journal sh' = sh_journal sh /\
    match r with
    | Ok o =>
        (go_passed o = true <-> exists ev, invokeTool sh (gate_request g id) ctx w = Some (Ok ev, sh', w') /\
           reports_success (json_fields (ev_output ev))) /\
        (go_passed o = true -> exists entry secrets digest,
           authorized (sh_registry sh) (gate_request g id) ctx entry secrets digest /\ is_external (definition entry) = false /\
           requires_approval (definition entry) = false /\ (0 < quotaRemaining (sh_registry sh) (definition entry))%Z) /\
        (forall k, go_error o = Some k <-> invokeTool sh (gate_request g id) ctx w = Some (Err (ThrewTool k), sh', w'))
    | Err e => sh' = sh /\ w' = w /\ ((exists k, e = GateTool (ThrewSecret k)) \/ exists c, e = GateTool (ThrewCanonical c))
    end.
Proof.
  intros Hreg%registry_reachable. destruct (runGate_answers sh g id ctx w Hreg) as (r & sh' & w' & Hrun & Ht & Hj & Hm).
  exists r, sh', w'. split; [done|]. split; [done|]. split; [done|]. destruct r as [o|e].
  - destruct (runGate_passed _ _ _ _ _ _ _ _ o Hreg Hrun eq_refl) as [Hp He]. split; [done|]. split; [|done].
    intros (ev & Hi & _)%Hp. rewrite Hi in Hm. destruct Hm as (_ & _ & _ & entry & secrets & digest & Ha & Hx & Hq).
    exists entry, secrets, digest. split; [done|]. split; [done|]. split; [|done].
    destruct (requires_approval (definition entry)) eqn:E; [|done].
    by destruct (au_approval _ _ _ _ _ _ Ha E) as (? & ? & ? & _).
  - destruct (invokeTool sh (gate_request g id) ctx w) as [[[[ev|[k|k|c]] sh2] w2]|]; [| | | |done].
    + by destruct Hm as ((? & ? & _) & _).
    + by destruct Hm as ((? & ? & _) & _).
    + destruct Hm as ([= ->] & -> & ->). split; [done|]. split; [done|]. left. eauto.
    + destruct Hm as ([= ->] & -> & ->). split; [done|]. split; [done|]. right. eauto.
Qed.

(** The digest of an evidence record binds what was observed. Two records
    have the same digest exactly when they tell the same outcome against
    the same bindings, the lists compared without their order; otherwise
    they exhibit a collision of the hash. *)
Theorem evidence_digest_exact `{Hash} `{DateTime} spec spec' r r' :
  NoDup (go_artifact_hashes (es_outcome spec)).*1 -> NoDup (go_artifact_hashes (es_outcome spec')).*1 ->
  buildGateEvidence spec = Ok r -> buildGateEvidence spec' = Ok r' ->
  (er_digest r = er_digest r' <->
   same_observation (es_outcome spec) (es_outcome spec') /\ same_bindings (es_bindings spec) (es_bindings spec')) \/
  hash_collision.
Proof.
  intros Hn Hn' (Hd & _)%buildGateEvidence_Ok (Hd' & _)%buildGateEvidence_Ok.
  pose proof (evidence_canon (es_outcome spec) (es_bindings spec) (es_outcome spec') (es_bindings spec') Hn Hn') as Hc.
  destruct (decide (er_digest r = er_digest r')) as [E|Hne].
  - rewrite E in Hd. destruct (contentDigest_inj _ _ _ (evidence_literals _ _) (evidence_literals _ _) Hd Hd'); [|by right].
    left. split; [intros _; by apply Hc|done].
  - left. split; [done|]. intros Hs. destruct Hne. apply Hc in Hs. unfold contentDigest, canonicalizeJson in Hd, Hd'.
    apply bind_Ok in Hd as (s & Hs1 & [= <-]), Hd' as (s' & Hs2 & [= <-]). f_equal.
    apply writeValue_print in Hs1 as [-> _]; [|apply evidence_literals]. apply writeValue_print in Hs2 as [-> _]; [|apply evidence_literals].
    by rewrite Hs.
Qed.

(** Evidence closes a finding exactly when it is not provisional, its gate
    passed, every bound digest still holds and no bound list repeats a
    digest: with two artifacts of the same content, no state makes the
    evidence fresh, not even the one it was bound to. *)
Theorem closable_exact `{Hash} `{DateTime} spec r current : buildGateEvidence spec = Ok r ->
  findingClosableBy r current = true <->
  es_provisional spec = false /\ go_passed (es_outcome spec) = true /\
  distinct_bindings (es_bindings spec) /\ same_bindings (es_bindings spec) current.
Proof.
  intros Hb. pose proof (built_fresh spec r current Hb) as Hf. apply buildGateEvidence_Ok in Hb as (_ & Hp & Hg & _).
  unfold findingClosableBy, readGateEvidenceExtension. rewrite Hp, Hg. cbn [extensionOf gx_passed].
  destruct (es_provisional spec), (go_passed (es_outcome spec)); cbn [negb]; try (split; [done|by intros (? & ? & _)]).
  rewrite negb_true_iff, Hf. naive_solver.
Qed.

(** A gate may pass without an exit code. *)
Lemma passes_without_exit_code `{Hash} g : exists o, outcomeOf g (fields_of_output (JObj [("passed", JBool true)])) = Ok o /\
  go_passed o = true /\ go_exit_code o = None /\ go_error o = None.
Proof.
  destruct (outcomeOf_total g (fields_of_output (JObj [("passed", JBool true)]))) as [o Ho].
  - apply clean_output, writes_object; [by apply (bool_decide_unpack _)|]. intros e ->%list_elem_of_singleton. apply writes_bool.
  - exists o. split; [done|]. by apply outcomeOf_Ok in Ho as (d & _ & ->).
Qed.

(* ------------------------------------------------------------------ *)
(** ** Witnesses *)

(** A hash whose values have the form of a digest. *)
Definition fixed_hash : Hash := {| sha256 := fun s => digest_of (if decide (s = "") then "0" else "1") |}.

(** A tool that exits with a code, and a gate over it. *)
Definition exit_tool : jsval :=
  JObj [("name", JStr "exit"); ("version", JStr "1.0.0"); ("description", JStr "d"); ("input_schema", JObj []);
        ("output_schema", JObj []); ("allowed_phases", JArr [JStr GATE_PHASE]); ("risk", JStr "low");
        ("side_effect_class", JStr "none"); ("timeout_ms", JNum (NInt 10)); ("retry_class", JStr "none");
        ("max_invocations_per_run", JNum (NInt 9)); ("reconciliation", JStr "manual"); ("secret_parameters", JArr [JStr "token"])].
Definition exit_handler : ToolHandler unit := fun parameters _ w =>
  (Returned (JObj [("exit_code", jfield (json_fields parameters) "code"); ("artifacts", JObj [("out", JStr "h")])]), w).
Definition gate_registry : ToolRegistry unit :=
  match @register unit fixed_hash any_schema empty_registry exit_tool (Some exit_handler) with Ok (_, reg) => reg | Err _ => empty_registry end.

Lemma gate_registry_reachable : rtc (@registry_step unit fixed_hash any_schema) empty_registry gate_registry.
Proof.
  unfold gate_registry. destruct (register _ _ _) as [[d reg]|] eqn:E; [|done]. apply rtc_once.
  by eapply (@step_register unit fixed_hash any_schema).
Qed.

Definition exit_gate (id : string) (mandatory : bool) (parameters : list (string * jsval)) : GateDefinition :=
  Gate id universal "n" mandatory "test_a" "exit" None parameters None "d".
Definition gate_start : Shared unit := Share gate_registry None.
Definition no_secrets : ToolInvocationContext := InvocationContext None None (fun _ => None).
Abbreviation run_exit code :=
  (@runGate unit fixed_hash gate_start (exit_gate "gate_a" true [("code", JNum (NInt code))]) "intent_a" no_secrets tt).

Lemma gate_verdict_exact_witness : exists o sh', run_exit 0%Z = Some (Ok o, sh', tt) /\ go_passed o = true /\ sh_journal sh' = None.
Proof.
  destruct (@gate_verdict_exact unit fixed_hash any_schema gate_start (exit_gate "gate_a" true [("code", JNum (NInt 0))]) "intent_a"
    no_secrets tt gate_registry_reachable) as (r & sh' & [] & Hr & _ & Hj & Hm).
  destruct r as [o|e]; [|vm_compute in Hr; discriminate Hr]. exists o, sh'. split; [exact Hr|]. split; [|exact Hj].
  vm_compute in Hr. injection Hr as <- _. reflexivity.
Defined.

Definition any_date : DateTime := {| is_date_time := fun _ => true |}.
Definition sample_bindings (artifacts : list string) : EvidenceBindings := Bindings artifacts [digest_of "c"] None (digest_of "e") [] (digest_of "f").
Definition sample_outcome : GateOutcome :=
  MkOutcome "gate_a" universal true "test_a" true (Some 0%Z) "exit code 0" "" [("out", "h")] (digest_of "o") None None.
Definition sample_spec (artifacts : list string) : GateEvidenceSpec :=
  EvidenceSpec "evidence_a" "now" false sample_outcome (sample_bindings artifacts).
Abbreviation build_sample artifacts := (@buildGateEvidence fixed_hash any_date (sample_spec artifacts)).

Lemma evidence_digest_exact_witness : exists r r', build_sample ["a"; "b"] = Ok r /\ build_sample ["b"; "a"] = Ok r' /\
  ((er_digest r = er_digest r' <-> same_observation sample_outcome sample_outcome /\
    same_bindings (sample_bindings ["a"; "b"]) (sample_bindings ["b"; "a"])) \/ @hash_collision fixed_hash).
Proof.
  destruct (build_sample ["a"; "b"]) as [r|] eqn:E; [|by vm_compute in E].
  destruct (build_sample ["b"; "a"]) as [r'|] eqn:E'; [|by vm_compute in E']. exists r, r'. split; [done|]. split; [done|].
  apply (@evidence_digest_exact fixed_hash any_date (sample_spec ["a"; "b"]) (sample_spec ["b"; "a"]) r r'); [..|exact E|exact E'];
    by apply (bool_decide_unpack _).
Defined.

Lemma closable_exact_witness : exists r r', build_sample ["a"; "b"] = Ok r /\ findingClosableBy r (sample_bindings ["b"; "a"]) = true /\
  build_sample ["a"; "a"] = Ok r' /\ findingClosableBy r' (sample_bindings ["a"; "a"]) = false.
Proof.
  destruct (build_sample ["a"; "b"]) as [r|] eqn:E; [|by vm_compute in E].
  destruct (build_sample ["a"; "a"]) as [r'|] eqn:E'; [|by vm_compute in E']. exists r, r'. split; [done|].
  split; [|split; [done|vm_compute in E'; injection E' as <-; reflexivity]].
  apply (@closable_exact fixed_hash any_date _ r (sample_bindings ["b"; "a"]) E). split; [done|]. split; [done|]. split.
  - repeat split; by apply (bool_decide_unpack _).
  - split; try done. cbn. apply Permutation_swap.
Defined.
