(* ===== verification/GateSuite.v ===== *)
(** * The gate suite

    [packages/runtime/src/gates/runner.ts]: the suite runs its gates in layer
    order, records evidence for each and a finding for each failed one, and
    says whether the iteration may be completed. The observations are lossy by
    design, decide nothing and are left out. *)

From S2P Require Import Prelude Regex Json Lease Secrets ToolDefinition ToolRegistry WorkingState ActionIntent Invocation Governance Gates.

(** ** Data *)

(** [gs_bindings] has no gate digest of its own: [bind_gate] sets it. The
    clock is part of the world. *)
Record GateSuiteSpec (W : Type) : Type := SuiteSpec
  { gs_iterationId : string; gs_repositoryId : string; gs_gates : list GateDefinition; gs_bindings : EvidenceBindings;
    gs_clock : W -> string * W; gs_provisional : bool }.
Arguments SuiteSpec {W}. Arguments gs_iterationId {W}. Arguments gs_repositoryId {W}. Arguments gs_gates {W}.
Arguments gs_bindings {W}. Arguments gs_clock {W}. Arguments gs_provisional {W}.

Record GateRunResult : Type := RunResult
  { gr_gate : GateDefinition; gr_outcome : GateOutcome; gr_evidence : GateEvidenceRecord }.

(** A [FeedbackRecord] of type [Finding]; its fields [fr_blocking] to
    [fr_governance] are those of the extension [harness.finding]. *)
Record FindingRecord : Type := Finding
  { fr_id : string; fr_iteration_id : string; fr_summary : string; fr_created_at : string; fr_digest : string;
    fr_blocking : bool; fr_violates : list string; fr_blocks : list string; fr_evidence : list string;
    fr_governance : FindingGovernanceMetadata }.

Record GateSuiteOutcome : Type := SuiteOutcome
  { results : list GateRunResult; findings : list FindingRecord; completed_allowed : bool }.

(** ** Order *)

Definition layerRank (g : GateDefinition) : Z := index_of (gd_layer g) GATE_LAYERS.

Definition gate_cmp (left_ right_ : GateDefinition) : Z :=
  let layerDifference := (layerRank left_ - layerRank right_)%Z in
  if (layerDifference =? 0)%Z then
    if str_lt (gd_id left_) (gd_id right_) then -1 else if str_lt (gd_id right_) (gd_id left_) then 1 else 0
  else layerDifference.

Definition orderGates (gates : list GateDefinition) : list GateDefinition := js_sort gate_cmp gates.

Definition idSuffix (g : GateDefinition) : string := str_drop (String.length "gate_") (gd_id g).

(** ** Findings *)

Definition FINDING_SUMMARY_LIMIT : nat := N.to_nat 10000.

Definition bind_gate (b : EvidenceBindings) (digest : string) : EvidenceBindings :=
  Bindings (eb_artifact_digests b) (eb_code_digests b) (eb_context_bundle_digest b) digest (eb_evaluation_case_digests b)
    (eb_policy_digest b).

Definition subject_digests (b : EvidenceBindings) : list string :=
  eb_artifact_digests b ++ eb_code_digests b ++ eb_evaluation_case_digests b ++ [eb_policy_digest b] ++
  match eb_context_bundle_digest b with Some d => [d] | None => [] end.

Definition finding_summary (g : GateDefinition) (o : GateOutcome) : string :=
  str_take FINDING_SUMMARY_LIMIT
    ((if gd_mandatory g then "Mandatory" else "Advisory") +:+ " " +:+ layer_text (gd_layer g) +:+ " gate " +:+ gd_id g +:+
     " failed: " +:+ go_summary o).

(** The record without its digest. *)
Definition finding_json (f : FindingRecord) : jsval :=
  JObj [("protocol_version", JStr PROTOCOL_VERSION); ("record_kind", JStr "feedback"); ("id", JStr (fr_id f));
        ("type", JStr "Finding"); ("iteration_id", JStr (fr_iteration_id f)); ("status", JStr "proposed");
        ("summary", JStr (fr_summary f)); ("created_at", JStr (fr_created_at f));
        ("extensions", JObj [("harness.finding",
           JObj ([("origin", JStr "test"); ("blocking", JBool (fr_blocking f)); ("violates", strings (fr_violates f));
                  ("blocks", strings (fr_blocks f)); ("evidence", strings (fr_evidence f))] ++
                 governance_fields (fr_governance f)))])].

(** [FeedbackSchema] *)
Definition finding_schema_ok `{DateTime} (f : FindingRecord) : bool :=
  identifier_ok (fr_id f) && identifier_ok (fr_iteration_id f) && negb (bool_decide (fr_summary f = "")) &&
  (String.length (fr_summary f) <=? FINDING_SUMMARY_LIMIT)%nat && is_date_time (fr_created_at f) &&
  re_match digest_regex (fr_digest f).

Section suite.
Context {W : Type} `{Hash} `{DateTime}.
Implicit Types spec : GateSuiteSpec W.

Definition buildGateFinding spec (g : GateDefinition) (o : GateOutcome) (w : W) : gate_result FindingRecord * W :=
  match buildFindingGovernanceMetadata (Governance "gate/failure"
          ("project/" +:+ gs_repositoryId spec +:+ "/gate/" +:+ gd_id g)
          (if gd_mandatory g then blocker_severity else warning_severity) human_review [gd_subject_id g]
          (subject_digests (gs_bindings spec))) with
  | Err e => (Err (GateGovernance e), w)
  | Ok governance =>
      let (created_at, w') := gs_clock spec w in
      let finding digest :=
        Finding ("finding_" +:+ idSuffix g) (gs_iterationId spec) (finding_summary g o) created_at digest (gd_mandatory g)
          [gd_subject_id g] (if gd_mandatory g then [gs_iterationId spec] else []) ["evidence_" +:+ idSuffix g] governance in
      (digest ← digest_value (finding_json (finding ""));
       _ ← reject_if (negb (finding_schema_ok (finding digest))) (ThrewGate invalid_finding_record);
       Ok (finding digest), w')
  end.

(** ** The suite *)

(** The evidence of one gate, whose time is asked for first. *)
Definition record_evidence spec (g : GateDefinition) (o : GateOutcome) (w : W) : gate_result GateEvidenceRecord * W :=
  let (created_at, w') := gs_clock spec w in
  (buildGateEvidence (EvidenceSpec ("evidence_" +:+ idSuffix g) created_at (gs_provisional spec) o
     (bind_gate (gs_bindings spec) (gd_digest g))), w').

(** The body of the loop: the results and findings so far, and the gate. *)
Definition run_one spec (ctx : ToolInvocationContext) (rs : list GateRunResult) (fs : list FindingRecord) (g : GateDefinition)
    (sh : Shared W) (w : W) : option (gate_result (list GateRunResult * list FindingRecord) * Shared W * W) :=
  match runGate sh g ("intent_" +:+ idSuffix g) ctx w with
  | None => None
  | Some (Err e, sh1, w1) => Some (Err e, sh1, w1)
  | Some (Ok o, sh1, w1) =>
      match record_evidence spec g o w1 with
      | (Err e, w2) => Some (Err e, sh1, w2)
      | (Ok evidence, w2) =>
          let rs' := rs ++ [RunResult g o evidence] in
          if go_passed o then Some (Ok (rs', fs), sh1, w2)
          else
            match buildGateFinding spec g o w2 with
            | (Err e, w3) => Some (Err e, sh1, w3)
            | (Ok f, w3) => Some (Ok (rs', fs ++ [f]), sh1, w3)
            end
      end
  end.

Fixpoint run_gates spec (ctx : ToolInvocationContext) (rs : list GateRunResult) (fs : list FindingRecord)
    (gates : list GateDefinition) (sh : Shared W) (w : W) :
    option (gate_result (list GateRunResult * list FindingRecord) * Shared W * W) :=
  match gates with
  | [] => Some (Ok (rs, fs), sh, w)
  | g :: gates' =>
      match run_one spec ctx rs fs g sh w with
      | Some (Ok (rs', fs'), sh', w') => run_gates spec ctx rs' fs' gates' sh' w'
      | stopped => stopped
      end
  end.

Definition allows_completion (r : GateRunResult) : bool :=
  negb (gd_mandatory (gr_gate r)) || (go_passed (gr_outcome r) && negb (er_provisional (gr_evidence r))).

Definition runGateSuite (sh : Shared W) spec (ctx : ToolInvocationContext) (w : W) :
    option (gate_result GateSuiteOutcome * Shared W * W) :=
  match run_gates spec ctx [] [] (orderGates (gs_gates spec)) sh w with
  | None => None
  | Some (Err e, sh', w') => Some (Err e, sh', w')
  | Some (Ok (rs, fs), sh', w') => Some (Ok (SuiteOutcome rs fs (forallb allows_completion rs)), sh', w')
  end.
End suite.

(** What [completionBlockers] pushes for a result. *)
Definition blocker_of (currentFor : option (GateDefinition -> CurrentEvidenceState)) (r : GateRunResult) : list string :=
  if negb (gd_mandatory (gr_gate r)) then []
  else if negb (go_passed (gr_outcome r)) then
    ["mandatory gate " +:+ gd_id (gr_gate r) +:+ " failed: " +:+ go_summary (gr_outcome r)]
  else if er_provisional (gr_evidence r) then ["mandatory gate " +:+ gd_id (gr_gate r) +:+ " evidence is provisional"]
  else
    match currentFor with
    | Some current =>
        if isEvidenceStale (gr_evidence r) (current (gr_gate r))
        then ["mandatory gate " +:+ gd_id (gr_gate r) +:+ " evidence is stale"] else []
    | None => []
    end.

Definition completionBlockers (o : GateSuiteOutcome) (currentFor : option (GateDefinition -> CurrentEvidenceState)) : list string :=
  concat (map (blocker_of currentFor) (results o)).

(* ------------------------------------------------------------------ *)
(** ** Order and verdict *)

Lemma gate_cmp_then : gate_cmp = then_cmp (fun x y => layerRank x - layerRank y)%Z
  (fun x y => if str_lt (gd_id x) (gd_id y) then -1 else if str_lt (gd_id y) (gd_id x) then 1 else 0)%Z.
Proof. reflexivity. Qed.

Lemma str_lt_spec a b : str_lt a b = true <-> (str_cmp a b < 0)%Z.
Proof. unfold str_lt. by rewrite bool_decide_eq_true. Qed.

Lemma id_cmp_sign a b :
  Z.sgn (if str_lt a b then -1 else if str_lt b a then 1 else 0)%Z = Z.sgn (str_cmp a b).
Proof.
  pose proof (str_cmp_flip a b) as Hf. destruct (str_lt a b) eqn:E; [apply str_lt_spec in E; lia|].
  destruct (str_lt b a) eqn:E'; [apply str_lt_spec in E'; lia|]. apply not_true_iff_false in E, E'. rewrite str_lt_spec in E, E'. lia.
Qed.

Lemma gate_cmp_total : cmp_total gate_cmp.
Proof.
  apply cmp_flip_total. rewrite gate_cmp_then. apply then_cmp_flip; intros x y; [lia|]. rewrite !id_cmp_sign. apply str_cmp_flip.
Qed.

Definition lower_layer (x y : GateDefinition) : Prop := (layerRank x < layerRank y)%Z.

Lemma gate_cmp_trans : cmp_trans gate_cmp.
Proof.
  rewrite gate_cmp_then. intros x y z. unfold then_cmp.
  pose proof (id_cmp_sign (gd_id x) (gd_id y)). pose proof (id_cmp_sign (gd_id y) (gd_id z)). pose proof (id_cmp_sign (gd_id x) (gd_id z)).
  pose proof (str_cmp_trans (gd_id x) (gd_id y) (gd_id z)).
  destruct (Z.eqb_spec (layerRank x - layerRank y) 0), (Z.eqb_spec (layerRank y - layerRank z) 0),
    (Z.eqb_spec (layerRank x - layerRank z) 0); try lia.
Qed.

Lemma StronglySorted_nth {A} (R : A -> A -> Prop) l : StronglySorted R l -> forall i j x y,
  l !! i = Some x -> l !! j = Some y -> i < j -> R x y.
Proof.
  induction 1 as [|z l Hs IH Hz]; intros i j x y Hi Hj Hlt; [done|]. rewrite Forall_forall in Hz.
  destruct i as [|i], j as [|j]; cbn in *; try lia.
  - injection Hi as <-. apply Hz. by eapply list_elem_of_lookup_2.
  - eapply IH; eauto. lia.
Qed.

(** In suite order, a gate of a lower layer comes first. *)
Lemma ordered_layers gates i j x y : orderGates gates !! i = Some x -> orderGates gates !! j = Some y -> lower_layer x y -> i < j.
Proof.
  intros Hi Hj Hl. destruct (decide (i < j)) as [|Hn]; [done|]. exfalso. unfold lower_layer in Hl.
  destruct (decide (i = j)) as [->|Hne]; [rewrite Hi in Hj; injection Hj as ->; lia|].
  assert (Hle : (gate_cmp y x <= 0)%Z).
  { eapply (StronglySorted_nth (cmp_le gate_cmp) (orderGates gates)); [|exact Hj|exact Hi|lia].
    apply js_sort_StronglySorted; [apply gate_cmp_total|apply gate_cmp_trans]. }
  unfold gate_cmp in Hle. destruct (Z.eqb_spec (layerRank y - layerRank x) 0); lia.
Qed.

Lemma blocker_nil current r : blocker_of current r = [] <->
  allows_completion r = true /\
  (gd_mandatory (gr_gate r) = true -> forall f, current = Some f -> isEvidenceStale (gr_evidence r) (f (gr_gate r)) = false).
Proof.
  unfold blocker_of, allows_completion. destruct (gd_mandatory (gr_gate r)); cbn; [|split; [split; [done|congruence]|done]].
  destruct (go_passed (gr_outcome r)), (er_provisional (gr_evidence r)); cbn; try (split; [done|by intros [? _]]).
  destruct current as [f|]; [|split; [split; [done|by intros _ ? ?]|done]].
  destruct (isEvidenceStale _ _) eqn:E; split; try done.
  - intros [_ Hs]. specialize (Hs eq_refl f eq_refl). congruence.
  - intros _. split; [done|]. by intros _ ? [= <-].
Qed.

Lemma concat_nil {A} (ls : list (list A)) : concat ls = [] <-> forall l, l ∈ ls -> l = [].
Proof.
  induction ls as [|l ls IH]; cbn; [split; [intros _ l Hl; by apply elem_of_nil in Hl|done]|].
  rewrite app_nil, IH. split; [intros [-> Hl] x [->|Hx]%elem_of_cons; auto|]. intros Hl. split; [apply Hl; by left|]. intros x Hx. apply Hl. by right.
Qed.

Lemma blockers_nil o current : completionBlockers o current = [] <-> forall r, r ∈ results o -> blocker_of current r = [].
Proof.
  unfold completionBlockers. rewrite concat_nil. split.
  - intros Hc r Hr. apply Hc, list_elem_of_fmap. by exists r.
  - intros Hc l (r & -> & Hr)%list_elem_of_fmap. by apply Hc.
Qed.

(* ------------------------------------------------------------------ *)
(** ** Runs *)

Section runs.
Context {W : Type} `{Hash} `{DateTime} `{SchemaCompiler}.
Implicit Types spec : GateSuiteSpec W.

(** The states a suite goes through keep tools and journal. *)
Definition kept (sh sh' : Shared W) : Prop := rtc registry_step (sh_registry sh) (sh_registry sh') /\
  same_tools sh sh' /\ sh_journal sh' = sh_journal sh.

Lemma kept_trans sh1 sh2 sh3 : kept sh1 sh2 -> kept sh2 sh3 -> kept sh1 sh3.
Proof. unfold kept, same_tools. intros (? & ? & ?) (? & ? & ?). split; [by etrans|]. split; congruence. Qed.

Lemma kept_refl sh : kept sh sh.
Proof. done. Qed.

Lemma kept_ok sh sh' : registry_ok (sh_registry sh) -> kept sh sh' -> registry_ok (sh_registry sh').
Proof. intros Hok [Hr _]. induction Hr; eauto using registry_step_ok. Qed.

(** What a result of the suite records. *)
Definition gate_ran spec ctx (sh0 : Shared W) (r : GateRunResult) : Prop :=
  exists sh w sh' w' created_at, kept sh0 sh /\
    runGate sh (gr_gate r) ("intent_" +:+ idSuffix (gr_gate r)) ctx w = Some (Ok (gr_outcome r), sh', w') /\
    buildGateEvidence (EvidenceSpec ("evidence_" +:+ idSuffix (gr_gate r)) created_at (gs_provisional spec) (gr_outcome r)
      (bind_gate (gs_bindings spec) (gd_digest (gr_gate r)))) = Ok (gr_evidence r).

Definition finding_for spec (r : GateRunResult) (f : FindingRecord) : Prop :=
  fr_id f = "finding_" +:+ idSuffix (gr_gate r) /\ fr_blocking f = gd_mandatory (gr_gate r) /\
  fr_violates f = [gd_subject_id (gr_gate r)] /\ fr_evidence f = [er_evidence_id (gr_evidence r)] /\
  fr_blocks f = (if gd_mandatory (gr_gate r) then [gs_iterationId spec] else []) /\ fg_rule (fr_governance f) = "gate/failure" /\
  finding_schema_ok f = true.

Definition failed_result (r : GateRunResult) : Prop := go_passed (gr_outcome r) = false.
#[global] Instance failed_result_dec r : Decision (failed_result r).
Proof. unfold failed_result. apply _. Defined.

Lemma buildGateFinding_Ok spec g o w f w' : buildGateFinding spec g o w = (Ok f, w') ->
  fr_id f = "finding_" +:+ idSuffix g /\ fr_blocking f = gd_mandatory g /\ fr_violates f = [gd_subject_id g] /\
  fr_evidence f = ["evidence_" +:+ idSuffix g] /\ fr_blocks f = (if gd_mandatory g then [gs_iterationId spec] else []) /\
  fg_rule (fr_governance f) = "gate/failure" /\ finding_schema_ok f = true.
Proof.
  unfold buildGateFinding. destruct (buildFindingGovernanceMetadata _) as [gov|] eqn:Eg; [|done].
  apply build_governance_Ok in Eg as (_ & Hr & _). cbn in Hr. destruct (gs_clock spec w) as [t w1]. cbv zeta.
  destruct (digest_value _) as [d|]; cbn [mbind result_bind]; [|done].
  destruct (reject_if _ _) as [u|] eqn:Ev; cbn [mbind result_bind]; [|done].
  apply reject_if_Ok, negb_false_iff in Ev. intros [= <- _]. done.
Qed.

Lemma run_one_Ok spec ctx rs fs g sh w r sh' w' : registry_ok (sh_registry sh) -> run_one spec ctx rs fs g sh w = Some (r, sh', w') ->
  kept sh sh' /\ forall p, r = Ok p -> exists o ev, gate_ran spec ctx sh (RunResult g o ev) /\ p.1 = rs ++ [RunResult g o ev] /\
    (if decide (failed_result (RunResult g o ev)) then exists f, p.2 = fs ++ [f] /\ finding_for spec (RunResult g o ev) f else p.2 = fs).
Proof.
  intros Hok. unfold run_one. destruct (runGate_answers sh g ("intent_" +:+ idSuffix g) ctx w Hok) as (rg & sh1 & w1 & Hrun & Ht & Hj & Hm).
  rewrite Hrun. assert (Hk : kept sh sh1).
  { split; [|done]. unfold runGate in Hrun. destruct (invokeTool _ _ _ _) as [[[ri sh2] w2]|] eqn:Ei; [|done].
    pose proof (invoke_registry _ _ _ _ _ _ _ Hok Ei). by destruct ri as [|[]]; injection Hrun as _ <- _. }
  clear Hm. destruct rg as [o|e]; [|by intros [= <- <- _]].
  destruct (record_evidence spec g o w1) as [[ev|e] w2] eqn:Ee; [|by intros [= <- <- _]].
  unfold record_evidence in Ee. destruct (gs_clock spec w1) as [t w1'] eqn:Ec. injection Ee as Ee _.
  assert (Hran : gate_ran spec ctx sh (RunResult g o ev)).
  { exists sh, w, sh1, w1, t. split; [apply kept_refl|]. done. }
  destruct (buildGateEvidence_Ok _ _ Ee) as (_ & _ & _ & _ & Hid & _). cbn in Hid.
  destruct (go_passed o) eqn:Ep.
  - intros [= <- <- _]. split; [done|]. intros p [= <-]. exists o, ev. split; [done|]. split; [done|].
    rewrite decide_False; [done|]. unfold failed_result. cbn. congruence.
  - destruct (buildGateFinding spec g o w2) as [[f|e] w3] eqn:Ef; [|by intros [= <- <- _]].
    intros [= <- <- _]. split; [done|]. intros p [= <-]. exists o, ev. split; [done|]. split; [done|].
    rewrite decide_True by done. exists f. split; [done|]. apply buildGateFinding_Ok in Ef.
    unfold finding_for. cbn [gr_gate gr_evidence]. rewrite Hid. done.
Qed.

Lemma gate_ran_kept spec ctx sh sh' r : kept sh sh' -> gate_ran spec ctx sh' r -> gate_ran spec ctx sh r.
Proof. intros Hk (sh1 & w & sh2 & w' & t & Hk' & Hr). exists sh1, w, sh2, w', t. split; [by eapply kept_trans|done]. Qed.

Lemma run_gates_Ok spec ctx gates : forall rs fs sh w r sh' w', registry_ok (sh_registry sh) ->
  run_gates spec ctx rs fs gates sh w = Some (r, sh', w') -> kept sh sh' /\
  forall p, r = Ok p -> exists new newf, p = (rs ++ new, fs ++ newf) /\ map gr_gate new = gates /\
    Forall (gate_ran spec ctx sh) new /\ Forall2 (finding_for spec) (filter failed_result new) newf.
Proof.
  induction gates as [|g gates IH]; intros rs fs sh w r sh' w' Hok; cbn.
  - intros [= <- <- _]. split; [done|]. intros p [= <-]. exists [], []. rewrite !app_nil_r. split; [done|]. split; [done|]. split; constructor.
  - destruct (run_one spec ctx rs fs g sh w) as [[[r1 sh1] w1]|] eqn:E1; [|done].
    destruct (run_one_Ok _ _ _ _ _ _ _ _ _ _ Hok E1) as [Hk Hone]. destruct r1 as [[rs1 fs1]|e]; [|by intros [= <- <- _]].
    intros Hrest. destruct (IH _ _ _ _ _ _ _ (kept_ok _ _ Hok Hk) Hrest) as [Hk' Hall]. split; [by eapply kept_trans|].
    intros p Hp. destruct (Hall p Hp) as (new & newf & -> & Hg & Hn & Hf). destruct (Hone _ eq_refl) as (o & ev & Hran & Hrs & Hfs).
    cbn [fst snd] in *. subst rs1. exists (RunResult g o ev :: new). rewrite filter_cons. cbn [map gr_gate]. rewrite Hg.
    assert (Hn' : Forall (gate_ran spec ctx sh) (RunResult g o ev :: new)).
    { constructor; [done|]. eapply Forall_impl; [exact Hn|]. intros x. by apply gate_ran_kept. }
    case_decide.
    + destruct Hfs as (f & -> & Hff). exists (f :: newf). rewrite <- !app_assoc. cbn. split; [done|]. split; [done|]. split; [done|]. by constructor.
    + subst fs1. exists newf. rewrite <- app_assoc. done.
Qed.

Lemma run_gates_total spec ctx gates : forall rs fs sh w, registry_ok (sh_registry sh) ->
  is_Some (run_gates spec ctx rs fs gates sh w).
Proof.
  induction gates as [|g gates IH]; intros rs fs sh w Hok; [by eexists|]. cbn.
  destruct (run_one spec ctx rs fs g sh w) as [[[r1 sh1] w1]|] eqn:E1.
  - destruct (run_one_Ok _ _ _ _ _ _ _ _ _ _ Hok E1) as [Hk _]. destruct r1 as [[rs1 fs1]|e]; [|by eexists].
    apply IH. by eapply kept_ok.
  - exfalso. unfold run_one in E1. destruct (runGate_answers sh g ("intent_" +:+ idSuffix g) ctx w Hok) as (rg & sh1 & w1 & Hrun & _).
    rewrite Hrun in E1. destruct rg; [|done]. destruct (record_evidence _ _ _ _) as [[] ?]; [|done]. destruct (go_passed _); [done|].
    by destruct (buildGateFinding _ _ _ _) as [[] ?].
Qed.

Lemma suite_runs spec ctx sh w o sh' w' : registry_ok (sh_registry sh) -> runGateSuite sh spec ctx w = Some (Ok o, sh', w') ->
  kept sh sh' /\ map gr_gate (results o) = orderGates (gs_gates spec) /\ Forall (gate_ran spec ctx sh) (results o) /\
  Forall2 (finding_for spec) (filter failed_result (results o)) (findings o) /\
  completed_allowed o = forallb allows_completion (results o).
Proof.
  intros Hok. unfold runGateSuite. destruct (run_gates _ _ _ _ _ _ _) as [[[[[rs fs]|e] sh1] w1]|] eqn:E; [|done|done].
  intros [= <- <- _]. destruct (run_gates_Ok _ _ _ _ _ _ _ _ _ _ Hok E) as [Hk Hall].
  destruct (Hall _ eq_refl) as (new & newf & [= -> ->] & Hg & Hn & Hf). done.
Qed.

(** A gate whose secrets do not resolve throws in every state of the suite. *)
Lemma secret_gate_throws (sh : Shared W) g id ctx w entry k :
  get_tool (sh_registry sh) (gd_tool g) (gd_version g) = Some entry ->
  resolveSecretParameters (JObj (gd_parameters g)) (secret_parameters (definition entry)) (ctx_env ctx) = Err k ->
  runGate sh g id ctx w = Some (Err (GateTool (ThrewSecret k)), sh, w).
Proof.
  intros Hg Hs. unfold runGate, invokeTool, prepare, authorize, requireEntry. cbn [gate_request rq_tool rq_version rq_parameters].
  rewrite Hg. cbn [mbind result_bind]. by rewrite Hs.
Qed.

Lemma same_tools_get (sh sh' : Shared W) name version : same_tools sh sh' ->
  get_tool (sh_registry sh') name version = get_tool (sh_registry sh) name version.
Proof. unfold same_tools, get_tool. by intros ->. Qed.

Lemma run_gates_throws spec ctx g entry k gates : forall rs fs (sh : Shared W) w r sh' w', registry_ok (sh_registry sh) ->
  get_tool (sh_registry sh) (gd_tool g) (gd_version g) = Some entry ->
  resolveSecretParameters (JObj (gd_parameters g)) (secret_parameters (definition entry)) (ctx_env ctx) = Err k ->
  g ∈ gates -> run_gates spec ctx rs fs gates sh w = Some (r, sh', w') -> exists e, r = Err e.
Proof.
  induction gates as [|g' gates IH]; intros rs fs sh w r sh' w' Hok He Hs Hin; [by apply elem_of_nil in Hin|]. cbn.
  destruct (run_one spec ctx rs fs g' sh w) as [[[r1 sh1] w1]|] eqn:E1; [|done].
  destruct (run_one_Ok _ _ _ _ _ _ _ _ _ _ Hok E1) as [Hk _]. destruct r1 as [[rs1 fs1]|e]; [|intros [= <- _ _]; by exists e].
  apply elem_of_cons in Hin as [->|Hin].
  - unfold run_one in E1. by rewrite (secret_gate_throws _ _ _ _ _ _ _ He Hs) in E1.
  - apply IH; [by eapply kept_ok| |done|done]. by rewrite (same_tools_get sh sh1) by apply Hk.
Qed.
End runs.

(* ------------------------------------------------------------------ *)
(** ** Properties *)

Section properties.
Context {W : Type} `{Hash} `{DateTime} `{SchemaCompiler}.
Implicit Types spec : GateSuiteSpec W.


(** C11. Completion is earned. If the suite allows completion, then for every
    mandatory gate of the suite some tool of the registry as it was given,
    admitted to the verification phase and without external effect, answered
    and reported success, and there is a record that is not provisional, is
    bound to the definition of the gate and to the inputs of the suite, and
    tells that the gate passed. *)
Theorem completion_earned spec ctx sh w o sh' w' g : rtc registry_step empty_registry (sh_registry sh) ->
  runGateSuite sh spec ctx w = Some (Ok o, sh', w') -> completed_allowed o = true -> g ∈ gs_gates spec -> gd_mandatory g = true ->
  exists r sh1 w1 sh2 w2 ev entry, r ∈ results o /\ gr_gate r = g /\ kept sh sh1 /\
    invokeTool sh1 (gate_request g ("intent_" +:+ idSuffix g)) ctx w1 = Some (Ok ev, sh2, w2) /\
    reports_success (json_fields (ev_output ev)) /\
    get_tool (sh_registry sh) (gd_tool g) (gd_version g) = Some entry /\ GATE_PHASE ∈ allowed_phases (definition entry) /\
    is_external (definition entry) = false /\
    er_provisional (gr_evidence r) = false /\
    (gx_passed <$> er_gate (gr_evidence r)) = Some true /\
    evidenceBindingsOf (gr_evidence r) = Some (sorted_bindings (bind_gate (gs_bindings spec) (gd_digest g))).
Proof.
  intros Hreg%registry_reachable Hrun Hc Hg Hm. destruct (suite_runs _ _ _ _ _ _ _ Hreg Hrun) as (_ & Hgates & Hran & _ & Hall).
  assert (Hin : g ∈ map gr_gate (results o)) by (rewrite Hgates; by apply elem_of_js_sort).
  apply list_elem_of_fmap in Hin as (r & -> & Hr). rewrite Hall, forallb_Forall in Hc. specialize (Hc r Hr).
  unfold allows_completion in Hc. rewrite Hm in Hc. cbn in Hc. apply andb_true_iff in Hc as [Hp Hprov%negb_true_iff].
  rewrite Forall_forall in Hran. destruct (Hran r Hr) as (sh1 & w1 & sh2 & w2 & t & Hk & Hgate & Hev).
  pose proof (kept_ok _ _ Hreg Hk) as Hreg1. destruct (runGate_passed _ _ _ _ _ _ _ _ _ Hreg1 Hgate eq_refl) as [Hpass _].
  apply Hpass in Hp as (ev & Hinv & Hsucc).
  destruct (invoke_keyless sh1 (gate_request (gr_gate r) _) ctx w1 _ sh2 w2 eq_refl Hinv) as (_ & _ & _ & entry & secrets & digest & Ha & Hx & _).
  apply buildGateEvidence_Ok in Hev as (_ & _ & Hgx & _).
  exists r, sh1, w1, sh2, w2, ev, entry. split; [done|]. split; [done|]. split; [done|]. split; [done|]. split; [done|].
  split; [rewrite <- (same_tools_get sh sh1) by apply Hk; apply (au_entry _ _ _ _ _ _ Ha)|].
  split; [apply (au_phase _ _ _ _ _ _ Ha)|]. split; [done|]. split; [done|].
  unfold evidenceBindingsOf, readGateEvidenceExtension. rewrite Hgx. cbn. split; [|done]. f_equal. apply Hpass. by exists ev.
Qed.

(** C33. A gate whose tool exists but whose secrets do not resolve leaves no
    verdict at all: the suite throws, whatever its other gates found. *)
Theorem secret_aborts_suite spec ctx sh w g entry k : rtc registry_step empty_registry (sh_registry sh) ->
  g ∈ gs_gates spec -> get_tool (sh_registry sh) (gd_tool g) (gd_version g) = Some entry ->
  resolveSecretParameters (JObj (gd_parameters g)) (secret_parameters (definition entry)) (ctx_env ctx) = Err k ->
  exists e sh' w', runGateSuite sh spec ctx w = Some (Err e, sh', w').
Proof.
  intros Hreg%registry_reachable Hg He Hs. unfold runGateSuite.
  destruct (run_gates_total spec ctx (orderGates (gs_gates spec)) [] [] sh w Hreg) as [[[r sh'] w'] Hr]. rewrite Hr.
  destruct (run_gates_throws spec ctx g entry k _ _ _ _ _ _ _ _ Hreg He Hs ltac:(by apply elem_of_js_sort) Hr) as [e ->]. by exists e, sh', w'.
Qed.

(** So does a tool that reports an extension under an illegal key. *)
Lemma illegal_extension_throws spec g o w x key v : go_extensions o = Some x -> (key, v) ∈ x ->
  key <> GATE_EVIDENCE_EXTENSION_KEY -> re_match EXTENSION_KEY_REGEX key = false ->
  exists e w', record_evidence spec g o w = (Err e, w').
Proof.
  intros Hx Hin Hk Hm. unfold record_evidence. destruct (gs_clock spec w) as [t w']. destruct (buildGateEvidence _) as [r|e] eqn:E; [|by exists e, w'].
  exfalso. unfold buildGateEvidence in E. apply bind_Ok in E as (d & _ & E). apply bind_Ok in E as (u & Hv%reject_if_Ok%negb_false_iff & _).
  unfold evidence_schema_ok in Hv. apply andb_true_iff in Hv as [_ Hf]. cbn in Hf. rewrite Hx, forallb_Forall in Hf.
  specialize (Hf (key, v)). cbn [fst] in Hf. rewrite Hf in Hm; [done|]. unfold without_field. cbn. by apply list_elem_of_filter.
Qed.
End properties.

(* ------------------------------------------------------------------ *)
(** ** Witnesses *)

Definition sample_suite (gates : list GateDefinition) : GateSuiteSpec unit :=
  SuiteSpec "iteration_a" "p" gates (sample_bindings [digest_of "a"]) (fun w => ("now", w)) false.
Definition code_gate (id : string) (mandatory : bool) (code : Z) : GateDefinition := exit_gate id mandatory [("code", JNum (NInt code))].
Definition secret_gate : GateDefinition := exit_gate "gate_s" false [("token", token_reference)].
Abbreviation run_suite gates := (@runGateSuite unit fixed_hash any_date gate_start (sample_suite gates) no_secrets tt).


Lemma completion_earned_witness : exists o sh' r, run_suite [code_gate "gate_b" true 0; code_gate "gate_a" false 1] = Some (Ok o, sh', tt) /\
  r ∈ results o /\ gr_gate r = code_gate "gate_b" true 0 /\ er_provisional (gr_evidence r) = false.
Proof.
  destruct (run_suite [code_gate "gate_b" true 0; code_gate "gate_a" false 1]) as [[[[o|e] sh'] []]|] eqn:E;
    [|vm_compute in E; discriminate E..].
  assert (Hc : completed_allowed o = true) by (vm_compute in E; injection E as <- _; reflexivity).
  destruct (@completion_earned unit fixed_hash any_date any_schema _ _ gate_start _ _ _ _ (code_gate "gate_b" true 0) gate_registry_reachable E Hc)
    as (r & sh1 & w1 & sh2 & w2 & ev & entry & Hr & Hg & _ & _ & _ & _ & _ & _ & Hp & _); [by left|reflexivity|].
  exists o, sh', r. split; [reflexivity|]. split; [exact Hr|]. split; [exact Hg|exact Hp].
Defined.

Lemma secret_aborts_suite_witness : exists e sh' w', run_suite [code_gate "gate_b" true 0; secret_gate] = Some (Err e, sh', w').
Proof.
  destruct (get_tool (sh_registry gate_start) "exit" None) as [entry|] eqn:E; [|vm_compute in E; discriminate E].
  eapply (@secret_aborts_suite unit fixed_hash any_date any_schema _ _ gate_start _ secret_gate entry _ gate_registry_reachable);
    [by right; left|exact E|]. vm_compute in E. injection E as <-. vm_compute. reflexivity.
Defined.
