(* ===== verification/Loop.v ===== *)
(** * The managed loop

    [packages/runtime/src/loop/controller.ts]: one run of an agent under a task
    envelope. The model, the tools, the verification, the clock and the token
    meter are ports over a world the loop does not look into. *)

From S2P Require Import ToolDefinition ActionIntent Invocation Prelude Json Policy Lease Projection Grant LoopPolicy TaskEnvelope WorkingState.

(** ** Data *)

(** What can be thrown, by class; any other error is [OtherError]. *)
Inductive thrown : Type :=
| ToolError (kind : ToolErrorKind) | StateError (kind : WorkingStateErrorKind) | LoopFailure (e : loop_error) | OtherError.

Record LoopToolCall : Type := ToolCall
  { call_tool : string; call_parameters : list (string * jsval); call_resource : option string }.

Record PartialOutput : Type := PartialOut { summary : string; partial_evidence_ids : list string }.

Record LoopStepRemaining : Type := Remaining { left_steps : Z; left_tokens : Z; left_duration_ms : Z }.

Record LoopStepInput : Type := StepInput
  { in_step : Z; in_envelope : TaskEnvelope; in_state : WorkingState; in_grant : CapabilityGrant;
    in_remaining : LoopStepRemaining }.

Inductive ModelStepOutcome : Type :=
| work (tool_calls : list LoopToolCall) (proposal : option WorkingStateProposal) (partial_output : option PartialOutput)
| complete (proposal : option WorkingStateProposal).

(** The details of an event that are not messages. *)
Inductive LoopProgressKind : Type :=
| step_started | tool_call (tool : string) | tool_retried (tool : string) (attempts : Z) | proposal_applied
| grant_narrowed (digest : string) | completion_signaled | loop_terminated (reason : TerminationReason).

Record LoopProgressEvent : Type := Progress { pr_step : Z; pr_kind : LoopProgressKind }.

(** [ManagedLoopDependencies]: each port may change the world; [step],
    [invokeTool] and [verify] may also throw. *)
Class LoopPorts (W : Type) : Type :=
  { clock : W -> Z * W;
    usedTokens : W -> Z * W;
    isCancelled : W -> bool * W;
    step : LoopStepInput -> W -> result thrown ModelStepOutcome * W;
    invokeTool : LoopToolCall -> CapabilityGrant -> W -> result thrown ToolInvocationEvidence * W;
    verify : W -> result thrown bool * W }.

(** The variables of [runManagedLoop]. *)
Record LoopVars (W : Type) : Type := Vars
  { lv_world : W;
    lv_machine : PhaseMachine;
    lv_seen : list RepeatObservation;
    lv_state : WorkingState;
    lv_grant : CapabilityGrant;
    lv_used_steps : Z;
    lv_evidence : list ToolInvocationEvidence;
    lv_digests : list string;
    lv_partial : list PartialOutput;
    lv_events : list LoopProgressEvent }.
Arguments Vars {W}. Arguments lv_world {W}. Arguments lv_machine {W}. Arguments lv_seen {W}. Arguments lv_state {W}.
Arguments lv_grant {W}. Arguments lv_used_steps {W}. Arguments lv_evidence {W}. Arguments lv_digests {W}.
Arguments lv_partial {W}. Arguments lv_events {W}.

(** ** The monad of the loop: the variables, and what is thrown *)

Definition loopM (W A : Type) : Type := LoopVars W -> result thrown A * LoopVars W.

#[export] Instance loopM_ret W : MRet (loopM W) := fun A a v => (Ok a, v).
#[export] Instance loopM_bind W : MBind (loopM W) := fun A B f m v =>
  match m v with (Ok a, v') => f a v' | (Err e, v') => (Err e, v') end.

Definition throw {W A} (e : thrown) : loopM W A := fun v => (Err e, v).
Definition lift {W A} (r : result thrown A) : loopM W A := fun v => (r, v).
(** [try { m } catch (error) { handler(error) }] *)
Definition try_catch {W A} (m : loopM W A) (handler : thrown -> loopM W A) : loopM W A := fun v =>
  match m v with (Ok a, v') => (Ok a, v') | (Err e, v') => handler e v' end.

Definition gets {W A} (f : LoopVars W -> A) : loopM W A := fun v => (Ok (f v), v).

Section vars.
Context {W : Type}.

Definition set_world w (v : LoopVars W) : LoopVars W := Vars w (lv_machine v) (lv_seen v) (lv_state v) (lv_grant v) (lv_used_steps v) (lv_evidence v)
  (lv_digests v) (lv_partial v) (lv_events v).
Definition set_machine m (v : LoopVars W) : LoopVars W := Vars (lv_world v) m (lv_seen v) (lv_state v) (lv_grant v) (lv_used_steps v) (lv_evidence v)
  (lv_digests v) (lv_partial v) (lv_events v).
Definition set_seen s (v : LoopVars W) : LoopVars W := Vars (lv_world v) (lv_machine v) s (lv_state v) (lv_grant v) (lv_used_steps v) (lv_evidence v)
  (lv_digests v) (lv_partial v) (lv_events v).
Definition set_state s (v : LoopVars W) : LoopVars W := Vars (lv_world v) (lv_machine v) (lv_seen v) s (lv_grant v) (lv_used_steps v) (lv_evidence v)
  (lv_digests v) (lv_partial v) (lv_events v).
Definition set_grant g (v : LoopVars W) : LoopVars W := Vars (lv_world v) (lv_machine v) (lv_seen v) (lv_state v) g (lv_used_steps v) (lv_evidence v)
  (lv_digests v) (lv_partial v) (lv_events v).
Definition set_used n (v : LoopVars W) : LoopVars W := Vars (lv_world v) (lv_machine v) (lv_seen v) (lv_state v) (lv_grant v) n (lv_evidence v)
  (lv_digests v) (lv_partial v) (lv_events v).
Definition add_evidence e (v : LoopVars W) : LoopVars W := Vars (lv_world v) (lv_machine v) (lv_seen v) (lv_state v) (lv_grant v) (lv_used_steps v)
  (lv_evidence v ++ [e]) (dedup (lv_digests v ++ [output_digest e])) (lv_partial v) (lv_events v).
Definition add_partial p (v : LoopVars W) : LoopVars W := Vars (lv_world v) (lv_machine v) (lv_seen v) (lv_state v) (lv_grant v) (lv_used_steps v)
  (lv_evidence v) (lv_digests v) (lv_partial v ++ [p]) (lv_events v).
Definition add_event e (v : LoopVars W) : LoopVars W := Vars (lv_world v) (lv_machine v) (lv_seen v) (lv_state v) (lv_grant v) (lv_used_steps v)
  (lv_evidence v) (lv_digests v) (lv_partial v) (lv_events v ++ [e]).

Definition modify (f : LoopVars W -> LoopVars W) : loopM W unit := fun v => (Ok tt, f v).
(** A call of a port that returns, and of one that may throw. *)
Definition read {A} (port : W -> A * W) : loopM W A := fun v =>
  let (a, w) := port (lv_world v) in (Ok a, set_world w v).
Definition call {A} (port : W -> result thrown A * W) : loopM W A := fun v =>
  let (r, w) := port (lv_world v) in (r, set_world w v).

Definition emit (kind : LoopProgressKind) : loopM W unit := fun v =>
  (Ok tt, add_event (Progress (lv_used_steps v) kind) v).
End vars.

(** ** Model proposals *)

Definition MODEL_PROPOSAL_KEYS : list string :=
  ["phase"; "task_id"; "add_confirmed_facts"; "add_rejected_hypotheses"; "add_open_questions"; "add_blockers";
   "clear_blockers"; "reconcile_blockers"; "set_next_action"; "complete_task_ids"; "add_pending_task_ids";
   "add_capability_grants"; "add_approval_digests"; "set_context_bundle_digest"; "add_input_digests";
   "upsert_external_action_intents"].

Definition own {A} (key : string) (o : option A) : list string := match o with Some _ => [key] | None => [] end.

(** [Object.keys(proposal)] *)
Definition proposal_keys (p : WorkingStateProposal) : list string :=
  own "phase" (p_phase p) ++ own "task_id" (p_task_id p) ++ own "add_confirmed_facts" (p_add_confirmed_facts p) ++
  own "add_rejected_hypotheses" (p_add_rejected_hypotheses p) ++ own "add_open_questions" (p_add_open_questions p) ++
  own "add_blockers" (p_add_blockers p) ++ own "clear_blockers" (p_clear_blockers p) ++
  own "reconcile_blockers" (p_reconcile_blockers p) ++ own "set_next_action" (p_set_next_action p) ++
  own "set_requirement_baseline_digest" (p_set_requirement_baseline_digest p) ++
  own "complete_task_ids" (p_complete_task_ids p) ++ own "add_pending_task_ids" (p_add_pending_task_ids p) ++
  own "budget_use" (p_budget_use p) ++ own "add_capability_grants" (p_add_capability_grants p) ++
  own "add_approval_digests" (p_add_approval_digests p) ++
  own "set_context_bundle_digest" (p_set_context_bundle_digest p) ++
  own "set_context_bundle_digests" (p_set_context_bundle_digests p) ++
  own "add_input_digests" (p_add_input_digests p) ++
  own "upsert_external_action_intents" (p_upsert_external_action_intents p) ++ p_other_keys p.

Section apply.
Context `{Hash}.

Definition applyModelProposal (state : WorkingState) (proposal : option WorkingStateProposal) : result thrown WorkingState :=
  match proposal with
  | None => Ok state
  | Some p =>
      _ ← forM_ (fun key => reject_if (negb (mem key MODEL_PROPOSAL_KEYS)) (LoopFailure (LoopError invalid_step_result)))
            (proposal_keys p);
      _ ← reject_if (bool_decide (is_Some (p_budget_use p))) (LoopFailure (LoopError invalid_step_result));
      map_err StateError (applyWorkingStateProposal state p)
  end.

(** [progressStateDigest] *)
Definition progressStateDigest (state : WorkingState) : result thrown string :=
  map_err (fun _ => OtherError) (contentDigest (JObj (semantic_fields state))).

(** The proposal that meters one step. *)
Definition metered (tokens : Z) : WorkingStateProposal :=
  Proposal None None None None None None None None None None None None (Some (Some 1%Z, Some tokens)) None None None None None
    None [].

(** [toolFailureDecision] *)
Definition toolFailureDecision (error : thrown) : TerminalDecision :=
  match error with
  | ToolError tool_timeout => timeoutDecision
  | ToolError tool_failed => adapterFailureDecision
  | ToolError uncertain_result => Terminal partial adapter_failure
  | ToolError _ => Terminal correct_block policy_denial
  | _ => adapterFailureDecision
  end.

(** The catch clause of a step. *)
Definition workFailureDecision (error : thrown) : TerminalDecision :=
  match error with
  | StateError WorkingState.budget_ceiling => Terminal partial Projection.budget_ceiling
  | LoopFailure (LoopError invalid_step_result) => adapterFailureDecision
  | _ => toolFailureDecision error
  end.

Definition retryable (error : thrown) : bool :=
  match error with ToolError tool_timeout | ToolError tool_failed => true | _ => false end.
End apply.

(** ** The loop *)

Section loop.
Context {W : Type} `{LoopPorts W} `{Hash}.

(** [finish], up to the result it returns. *)
Definition finish (decision : TerminalDecision) : loopM W TerminalDecision :=
  machine ← gets lv_machine;
  machine' ← lift (map_err LoopFailure (terminate machine decision));
  _ ← modify (set_machine machine');
  _ ← emit (loop_terminated (td_reason decision));
  mret decision.

(** [invokeWithRetry], with the retries that are left; [attempts] is their count so far. *)
Fixpoint invokeWithRetry (left : nat) (attempts : Z) (c : LoopToolCall) : loopM W ToolInvocationEvidence := fun v =>
  match call (invokeTool c (lv_grant v)) v with
  | (Ok output, v') => (_ ← emit (tool_call (call_tool c)); mret output) v'
  | (Err error, v') =>
      match left with
      | S left' =>
          if retryable error
          then (_ ← emit (tool_retried (call_tool c) attempts); invokeWithRetry left' (attempts + 1)%Z c) v'
          else (Err error, v')
      | O => (Err error, v')
      end
  end.

(** The observation of one executed call. *)
Definition observation_of (c : LoopToolCall) (v : LoopVars W) : result thrown RepeatObservation :=
  f ← map_err (fun _ => OtherError) (actionFingerprint (call_tool c) (call_parameters c) (call_resource c));
  s ← progressStateDigest (lv_state v);
  e ← map_err (fun _ => OtherError) (contentDigest (strings (sort_strings (lv_digests v))));
  Ok (Observation f s e).

(** The calls of a step, up to the first that trips the detector. *)
Fixpoint run_calls (policy : LoopPolicy) (calls : list LoopToolCall) : loopM W (option TerminalDecision) :=
  match calls with
  | [] => mret None
  | c :: calls' =>
      output ← invokeWithRetry (Z.to_nat (max_tool_retries policy)) 1 c;
      _ ← modify (add_evidence output);
      observed ← gets (observation_of c);
      observation ← lift observed;
      seen ← gets lv_seen;
      let (seen', detection) := observe (repeat_detection policy) seen observation in
      _ ← modify (set_seen seen');
      if repeated detection then d ← finish repeatDetectionDecision; mret (Some d)
      else run_calls policy calls'
  end.

(** The body of the try block of a work step. *)
Definition work_step (policy : LoopPolicy) (tokensBefore : Z) (calls : list LoopToolCall)
    (proposal : option WorkingStateProposal) (output : option PartialOutput) : loopM W (option TerminalDecision) :=
  stopped ← run_calls policy calls;
  match stopped with
  | Some d => mret (Some d)
  | None =>
      state ← gets lv_state;
      state' ← lift (applyModelProposal state proposal);
      _ ← modify (set_state state');
      _ ← match output with Some p => modify (add_partial p) | None => mret tt end;
      _ ← emit proposal_applied;
      used ← read usedTokens;
      metered_state ← lift (map_err StateError (applyWorkingStateProposal state' (metered (used - tokensBefore))));
      _ ← modify (set_state metered_state);
      mret None
  end.

(** Shrink the grant to what is left of the run. *)
Definition narrow_step (policy : LoopPolicy) (tokensAtStart : Z) : loopM W unit :=
  grant ← gets lv_grant;
  usedSteps ← gets lv_used_steps;
  used ← read usedTokens;
  let next := Budget_ (clamp (steps (budget grant)) (Some (NInt (Z.max 0 (max_steps policy - usedSteps)))))
                (clamp (tokens (budget grant)) (Some (NInt (Z.max 0 (max_tokens policy - (used - tokensAtStart)))))) in
  narrowed ← lift (map_err (fun e => LoopFailure (LoopPolicyError e))
                     (narrowGrant grant (Narrowing None None None None None (Some next))));
  if decide (grant_digest narrowed = grant_digest grant) then mret tt
  else _ ← modify (set_grant narrowed); emit (grant_narrowed (grant_digest narrowed)).

(** The three ceilings, in order. *)
Definition check_ceilings (policy : LoopPolicy) (startMs tokensAtStart : Z) : loopM W (option TerminalDecision) :=
  usedSteps ← gets lv_used_steps;
  if (max_steps policy <=? usedSteps)%Z then mret (Some budgetCeilingDecision)
  else
    used ← read usedTokens;
    if (max_tokens policy <=? used - tokensAtStart)%Z then mret (Some budgetCeilingDecision)
    else
      now ← read clock;
      mret (if (max_duration_ms policy <=? now - startMs)%Z then Some timeoutDecision else None).

(** Stop if a ceiling is reached. *)
Definition stop_at_ceiling (policy : LoopPolicy) (startMs tokensAtStart : Z) : loopM W (option TerminalDecision) :=
  reached ← check_ceilings policy startMs tokensAtStart;
  match reached with Some d => d' ← finish d; mret (Some d') | None => mret None end.

(** A completion signal: verify, and terminate with what the verification finds. *)
Definition complete_step (policy : LoopPolicy) (proposal : option WorkingStateProposal) : loopM W TerminalDecision :=
  state ← gets lv_state;
  match applyModelProposal state proposal with
  | Err _ => finish adapterFailureDecision
  | Ok state' =>
      _ ← modify (set_state state');
      _ ← emit completion_signaled;
      machine ← gets lv_machine;
      signaled ← lift (map_err LoopFailure (signalCompletion machine));
      _ ← modify (set_machine signaled);
      verified ← (if require_external_verification (termination policy) then call verify else mret true);
      verifying ← gets lv_machine;
      machine' ← lift (map_err LoopFailure (verify_evidence verifying verified));
      _ ← modify (set_machine machine');
      let decision := completionDecision verified in
      _ ← emit (loop_terminated (td_reason decision));
      mret decision
  end.

(** One turn from the call of the model on: [Some] decision ends the run. *)
Definition turn (envelope : TaskEnvelope) (startMs tokensAtStart : Z) : loopM W (option TerminalDecision) :=
  let policy := te_loop_policy (te_spec envelope) in
  usedSteps ← gets (fun v => (lv_used_steps v + 1)%Z);
  _ ← modify (set_used usedSteps);
  tokensBefore ← read usedTokens;
  _ ← emit step_started;
  now ← read clock;
  input ← gets (fun v => StepInput usedSteps envelope (lv_state v) (lv_grant v)
      (Remaining (Z.max 0 (max_steps policy - usedSteps)) (Z.max 0 (max_tokens policy - (tokensBefore - tokensAtStart)))
         (Z.max 0 (max_duration_ms policy - (now - startMs)))));
  outcome ← try_catch (o ← call (step input); mret (inl o)) (fun _ => d ← finish adapterFailureDecision; mret (inr d));
  match outcome with
  | inr d => mret (Some d)
  | inl (complete proposal) => d ← complete_step policy proposal; mret (Some d)
  | inl (work calls proposal output) =>
      stopped ← try_catch (work_step policy tokensBefore calls proposal output)
                  (fun error => d ← finish (workFailureDecision error); mret (Some d));
      match stopped with
      | Some d => mret (Some d)
      | None => _ ← narrow_step policy tokensAtStart; mret None
      end
  end.

(** One iteration of [for (;;)]: [Some] decision is the return of the function. *)
Definition iteration (envelope : TaskEnvelope) (startMs tokensAtStart : Z) : loopM W (option TerminalDecision) :=
  let policy := te_loop_policy (te_spec envelope) in
  let is_hard := bool_decide (ceiling_mode (termination policy) = hard) in
  cancelled ← read isCancelled;
  if cancelled : bool then d ← finish cancellationDecision; mret (Some d)
  else
    before ← (if is_hard then stop_at_ceiling policy startMs tokensAtStart else mret None);
    match before with
    | Some d => mret (Some d)
    | None =>
        stopped ← turn envelope startMs tokensAtStart;
        match stopped with
        | Some d => mret (Some d)
        | None => if is_hard then mret None else stop_at_ceiling policy startMs tokensAtStart
        end
    end.

(** [None]: the fuel did not suffice. *)
Fixpoint iterate (fuel : nat) (envelope : TaskEnvelope) (startMs tokensAtStart : Z) : loopM W (option TerminalDecision) :=
  match fuel with
  | O => mret None
  | S fuel' =>
      decided ← iteration envelope startMs tokensAtStart;
      match decided with Some d => mret (Some d) | None => iterate fuel' envelope startMs tokensAtStart end
  end.

(** The outer catch clause. *)
Definition last_resort (error : thrown) : loopM W (option TerminalDecision) :=
  machine ← gets lv_machine;
  if decide (pm_phase machine = terminated) then throw error
  else d ← finish adapterFailureDecision; mret (Some d).

Record ManagedLoopResult : Type := LoopResult
  { decision : TerminalDecision;
    steps_executed : Z;
    tokens_used : Z;
    duration_ms : Z;
    final_vars : LoopVars W }.

Definition initial_vars (initialState : WorkingState) (initialGrant : CapabilityGrant) (world : W) : LoopVars W :=
  Vars world new_machine [] initialState initialGrant 0 [] [] [] [].

(** The iterations a run needs. *)
Definition enough_fuel (envelope : TaskEnvelope) : nat := S (Z.to_nat (max_steps (te_loop_policy (te_spec envelope)))).

(** [result] *)
Definition report (startMs tokensAtStart : Z) (d : TerminalDecision) : loopM W ManagedLoopResult :=
  used ← read usedTokens;
  now ← read clock;
  final ← gets id;
  mret (LoopResult d (lv_used_steps final) (used - tokensAtStart) (now - startMs) final).

Definition managed_loop (envelope : TaskEnvelope) : loopM W (option ManagedLoopResult) :=
  startMs ← read clock;
  tokensAtStart ← read usedTokens;
  decided ← try_catch (iterate (enough_fuel envelope) envelope startMs tokensAtStart) last_resort;
  match decided with
  | None => mret None
  | Some d => r ← report startMs tokensAtStart d; mret (Some r)
  end.

Definition runManagedLoop (envelope : TaskEnvelope) (initialState : WorkingState) (initialGrant : CapabilityGrant) (world : W) :
  result thrown (option ManagedLoopResult) := (managed_loop envelope (initial_vars initialState initialGrant world)).1.
End loop.

(* ------------------------------------------------------------------ *)
(** ** Postconditions *)

Section wp.
Context {W : Type}.
Implicit Types v : LoopVars W.

(** What holds of the result of a computation and of the variables after it. *)
Definition wp {A} (m : loopM W A) (Q : result thrown A -> LoopVars W -> Prop) v : Prop := Q (m v).1 (m v).2.

Lemma wp_mono {A} (m : loopM W A) (Q Q' : result thrown A -> LoopVars W -> Prop) v :
  (forall r v', Q r v' -> Q' r v') -> wp m Q v -> wp m Q' v.
Proof. intros HQ. apply HQ. Qed.

Lemma wp_bind {A B} (m : loopM W A) (f : A -> loopM W B) Q v :
  wp m (fun r v' => match r with Ok a => wp (f a) Q v' | Err e => Q (Err e) v' end) v -> wp (m ≫= f) Q v.
Proof. unfold wp, mbind, loopM_bind. by destruct (m v) as [[a|e] v']. Qed.

Lemma wp_ret {A} (a : A) (Q : result thrown A -> LoopVars W -> Prop) v : Q (Ok a) v -> wp (mret a) Q v.
Proof. done. Qed.

Lemma wp_catch {A} (m : loopM W A) handler Q v :
  wp m (fun r v' => match r with Ok a => Q (Ok a) v' | Err e => wp (handler e) Q v' end) v -> wp (try_catch m handler) Q v.
Proof. unfold wp, try_catch. by destruct (m v) as [[a|e] v']. Qed.

Lemma wp_lift {A} (r : result thrown A) (Q : result thrown A -> LoopVars W -> Prop) v : Q r v -> wp (lift r) Q v.
Proof. done. Qed.
Lemma wp_gets {A} (f : LoopVars W -> A) (Q : result thrown A -> LoopVars W -> Prop) v : Q (Ok (f v)) v -> wp (gets f) Q v.
Proof. done. Qed.
Lemma wp_modify f (Q : result thrown unit -> LoopVars W -> Prop) v : Q (Ok tt) (f v) -> wp (modify f) Q v.
Proof. done. Qed.
Lemma wp_emit k (Q : result thrown unit -> LoopVars W -> Prop) v :
  Q (Ok tt) (add_event (Progress (lv_used_steps v) k) v) -> wp (emit k) Q v.
Proof. done. Qed.
Lemma wp_read {A} (port : W -> A * W) (Q : result thrown A -> LoopVars W -> Prop) v :
  (forall a w, port (lv_world v) = (a, w) -> Q (Ok a) (set_world w v)) -> wp (read port) Q v.
Proof. intros HQ. unfold wp, read. destruct (port (lv_world v)) as [a w] eqn:E. by apply HQ. Qed.
Lemma wp_call {A} (port : W -> result thrown A * W) (Q : result thrown A -> LoopVars W -> Prop) v :
  (forall r w, port (lv_world v) = (r, w) -> Q r (set_world w v)) -> wp (call port) Q v.
Proof. intros HQ. unfold wp, call. destruct (port (lv_world v)) as [r w] eqn:E. by apply HQ. Qed.
End wp.

(** Walk through the elementary computations. *)
Ltac wp_step :=
  cbv beta iota;
  lazymatch goal with
  | |- wp (mbind _ _) _ _ => apply wp_bind
  | |- wp (mret _) _ _ => apply wp_ret
  | |- wp (lift _) _ _ => apply wp_lift
  | |- wp (gets _) _ _ => apply wp_gets
  | |- wp (modify _) _ _ => apply wp_modify
  | |- wp (emit _) _ _ => apply wp_emit
  | |- wp (read _) _ _ => apply wp_read; intros ? ? ?
  | |- wp (call _) _ _ => apply wp_call; intros ? ? ?
  end; cbv beta iota.
Ltac wp_steps := repeat wp_step.

(* ------------------------------------------------------------------ *)
(** ** The invariant of a run *)

Section invariant.
Context {W : Type} `{LoopPorts W} `{Hash}.
Implicit Types v : LoopVars W.
Variables (envelope : TaskEnvelope) (s0 : WorkingState) (g0 : CapabilityGrant).

Local Abbreviation policy := (te_loop_policy (te_spec envelope)).

(** The grant is the first one, but for a budget that does not exceed it. *)
Definition grant_within (g : CapabilityGrant) : Prop :=
  capabilities g = capabilities g0 /\ read_paths g = read_paths g0 /\ write_paths g = write_paths g0 /\
  state_fields g = state_fields g0 /\ tools g = tools g0 /\ grant_phase g = grant_phase g0 /\
  grant_approvals g = grant_approvals g0 /\
  num_lt (steps (budget g0)) (steps (budget g)) = false /\ num_lt (tokens (budget g0)) (tokens (budget g)) = false.

(** The ceilings of the state stay, and it has accounted [n] steps. *)
Definition accounted (n : Z) (s : WorkingState) : Prop :=
  ceiling_steps (ws_budget s) = ceiling_steps (ws_budget s0) /\ ceiling_tokens (ws_budget s) = ceiling_tokens (ws_budget s0) /\
  used_steps (ws_budget s) = (used_steps (ws_budget s0) + n)%Z.

Definition is_end (e : LoopProgressEvent) : bool := match pr_kind e with loop_terminated _ => true | _ => false end.
Definition no_end v : Prop := Forall (fun e => is_end e = false) (lv_events v).

(** Between the iterations, [n] steps executed. *)
Record at_head (n : Z) v : Prop := {
  ah_machine : lv_machine v = new_machine;
  ah_events : no_end v;
  ah_used : lv_used_steps v = n;
  ah_state : accounted n (lv_state v);
  ah_grant : grant_within (lv_grant v) }.

(** Before the terminal decision, [n] steps accounted. *)
Record alive (n : Z) v : Prop := {
  al_machine : pm_phase (lv_machine v) <> terminated;
  al_events : no_end v;
  al_state : accounted n (lv_state v);
  al_grant : grant_within (lv_grant v) }.

(** [w] is the world in which step [n], the last one, signalled the completion
    and, where the policy requires it, the verification that followed at once
    passed. *)
Definition verified_end (n : Z) (w : W) : Prop :=
  exists input w0 proposal w1, in_step input = n /\ in_envelope input = envelope /\ step input w0 = (Ok (complete proposal), w1) /\
    if require_external_verification (termination policy) then verify w1 = (Ok true, w) else w = w1.

(** After the terminal decision, which was taken in the world [w]. *)
Record ended_at (w : W) (n : Z) (d : TerminalDecision) v : Prop := {
  en_machine : lv_machine v = Machine terminated (Some d);
  en_events : exists before e, lv_events v = before ++ [e] /\ Forall (fun e => is_end e = false) before /\
                pr_kind e = loop_terminated (td_reason d);
  en_state : accounted n (lv_state v);
  en_grant : grant_within (lv_grant v);
  en_success : td_outcome d = success ->
    verified_end (lv_used_steps v) w /\ exists e, e ∈ lv_events v /\ pr_kind e = completion_signaled }.
Local Abbreviation ended n d v := (ended_at (lv_world v) n d v).

Lemma no_end_snoc v k : no_end v -> is_end (Progress (lv_used_steps v) k) = false -> no_end (add_event (Progress (lv_used_steps v) k) v).
Proof. intros Hn Hk. unfold no_end. cbn. apply Forall_app. by split; [|apply Forall_singleton]. Qed.

Lemma finish_ended n d v : alive n v -> td_outcome d <> success ->
  wp (finish d) (fun r v' => r = Ok d /\ ended n d v' /\ lv_used_steps v' = lv_used_steps v) v.
Proof.
  intros [Hm He Hs Hg] Hd. unfold finish, terminate, terminateInternal. wp_steps.
  rewrite bool_decide_false by done. cbn. rewrite bool_decide_false by done. cbn. wp_steps.
  split; [done|]. split; [|done]. constructor; cbn; try done. by eexists _, _.
Qed.

(** What a stretch of code that calls tools may change. *)
Record quiet v v' : Prop := {
  qu_machine : lv_machine v' = lv_machine v;
  qu_state : lv_state v' = lv_state v;
  qu_grant : lv_grant v' = lv_grant v;
  qu_used : lv_used_steps v' = lv_used_steps v;
  qu_events : no_end v -> no_end v' }.

Lemma quiet_refl v : quiet v v.
Proof. by constructor. Qed.
Lemma quiet_trans v1 v2 v3 : quiet v1 v2 -> quiet v2 v3 -> quiet v1 v3.
Proof. intros [] []. constructor; try congruence; auto. Qed.
Lemma quiet_alive n v v' : quiet v v' -> alive n v -> alive n v'.
Proof. intros [Hm Hs Hg Hu He] []. constructor; rewrite ?Hm, ?Hs, ?Hg; auto. Qed.
Lemma quiet_world w v : quiet v (set_world w v).
Proof. by constructor. Qed.
Lemma quiet_event v k : is_end (Progress (lv_used_steps v) k) = false -> quiet v (add_event (Progress (lv_used_steps v) k) v).
Proof. intros Hk. constructor; try done. intros. by apply no_end_snoc. Qed.

Lemma invoke_quiet c left : forall attempts v, wp (invokeWithRetry left attempts c) (fun _ v' => quiet v v') v.
Proof.
  induction left as [|left IH]; intros attempts v; unfold wp; cbn [invokeWithRetry]; unfold call at 1;
    destruct (invokeTool c (lv_grant v) (lv_world v)) as [[output|error] w]; cbn [fst snd].
  - eapply quiet_trans; [apply (quiet_world w)|]. by apply quiet_event.
  - apply quiet_world.
  - eapply quiet_trans; [apply (quiet_world w)|]. by apply quiet_event.
  - destruct (retryable error); [|apply quiet_world]. eapply quiet_trans; [apply (quiet_world w)|].
    eapply quiet_trans; [by apply (quiet_event _ (tool_retried (call_tool c) attempts))|]. apply IH.
Qed.

Lemma run_calls_spec n calls : forall v, alive n v -> wp (run_calls policy calls) (fun r v' =>
  match r with
  | Ok (Some d) => ended n d v' /\ lv_used_steps v' = lv_used_steps v
  | _ => quiet v v'
  end) v.
Proof.
  induction calls as [|c calls IH]; intros v Hv; cbn [run_calls]; [wp_steps; apply quiet_refl|].
  apply wp_bind. eapply wp_mono; [|apply invoke_quiet]. intros [output|e] v1 Hq; [|done]. wp_steps.
  set (v2 := add_evidence output v1). assert (Hq2 : quiet v v2) by (eapply quiet_trans; [exact Hq|by constructor]).
  destruct (observation_of c v2) as [observation|e]; [|done]. wp_steps.
  destruct (observe _ _ _) as [seen' detection]. wp_steps.
  set (v3 := set_seen seen' v2). assert (Hq3 : quiet v v3) by (eapply quiet_trans; [exact Hq2|by constructor]).
  destruct (repeated detection).
  - wp_steps. eapply wp_mono; [|apply (finish_ended n); [by eapply quiet_alive|done]].
    intros r v4 (-> & Hend & Hu). wp_steps. split; [done|]. rewrite Hu. apply Hq3.
  - eapply wp_mono; [|apply IH; by eapply quiet_alive]. intros [[d|]|e] v4.
    + intros [Hend Hu]. split; [done|]. rewrite Hu. apply Hq3.
    + intros Hq4. by eapply quiet_trans.
    + intros Hq4. by eapply quiet_trans.
Qed.

(** ** The parts of a step *)

Lemma model_proposal_budget state proposal state' : applyModelProposal state proposal = Ok state' ->
  ceiling_steps (ws_budget state') = ceiling_steps (ws_budget state) /\
  ceiling_tokens (ws_budget state') = ceiling_tokens (ws_budget state) /\
  used_steps (ws_budget state') = used_steps (ws_budget state).
Proof.
  unfold applyModelProposal. destruct proposal as [p|]; [|by intros [= <-]].
  rewrite bind_Ok. intros (u & _ & E). rewrite reject_bind_Ok in E. destruct E as [Hb E%map_err_Ok%apply_Ok].
  apply bool_decide_eq_false in Hb. destruct E as (_ & _ & ->). unfold steps_after. cbn.
  destruct (p_budget_use p); [|cbn; lia]. exfalso. apply Hb. by eexists.
Qed.

Lemma model_proposal_accounted n state proposal state' : applyModelProposal state proposal = Ok state' ->
  accounted n state -> accounted n state'.
Proof. intros (Hs & Ht & Hu)%model_proposal_budget (? & ? & ?). unfold accounted. by rewrite Hs, Ht, Hu. Qed.

Lemma metered_accounted n t state state' : applyWorkingStateProposal state (metered t) = Ok state' ->
  accounted n state -> accounted (n + 1) state'.
Proof.
  intros (_ & _ & E)%apply_Ok (Hs & Ht & Hu). unfold accounted. rewrite E. cbn. unfold steps_after. cbn. split_and!; [done..|lia].
Qed.

Lemma work_spec n tokensBefore calls proposal output v : alive n v ->
  wp (work_step policy tokensBefore calls proposal output) (fun r v' =>
    match r with
    | Ok (Some d) => ended n d v' /\ lv_used_steps v' = lv_used_steps v
    | Ok None => alive (n + 1) v' /\ lv_machine v' = lv_machine v /\ lv_used_steps v' = lv_used_steps v
    | Err _ => alive n v' /\ lv_used_steps v' = lv_used_steps v
    end) v.
Proof.
  intros Hv. unfold work_step. apply wp_bind. eapply wp_mono; [|by apply run_calls_spec].
  intros [[d|]|e] v1; [wp_steps; done| |intros Hq; split; [by eapply quiet_alive|apply Hq]].
  intros Hq. pose proof (quiet_alive n _ _ Hq Hv) as Ha. wp_steps.
  destruct (applyModelProposal (lv_state v1) proposal) as [state'|e] eqn:Ep; [|split; [done|apply Hq]].
  wp_steps. apply (model_proposal_accounted n) in Ep; [|apply Ha].
  set (v2 := set_state state' v1).
  assert (Ha2 : alive n v2) by (destruct Ha; by constructor).
  assert (Hp : wp (match output with Some p => modify (add_partial p) | None => mret tt end)
    (fun r v3 => r = Ok tt /\ alive n v3 /\ lv_machine v3 = lv_machine v /\ lv_used_steps v3 = lv_used_steps v /\ lv_state v3 = state') v2).
  { destruct output; wp_steps; (split_and!; [done| |apply Hq|apply Hq|done]); destruct Ha2; by constructor. }
  eapply wp_mono; [|exact Hp]. intros r v3 (-> & Ha3 & Hm & Hu & Hs). wp_steps.
  set (v4 := set_world _ _).
  assert (Ha4 : alive n v4).
  { eapply quiet_alive; [|exact Ha3]. eapply quiet_trans; [by apply (quiet_event v3 proposal_applied)|apply quiet_world]. }
  match goal with |- context [metered ?t] => destruct (applyWorkingStateProposal state' (metered t)) as [metered_state|e] eqn:Em end;
    cbn [map_err]; [|split; [exact Ha4|exact Hu]].
  wp_steps. split; [|done]. destruct Ha4. constructor; try done. eapply metered_accounted; [exact Em|].
  rewrite <- Hs. apply Ha3.
Qed.

Lemma clamp_keeps d (value : number) (m : number) : num_lt d value = false -> num_lt d (clamp value (Some m)) = false.
Proof.
  unfold clamp. destruct (finite_value value) as [x|]; [|done]. apply clamped_below.
Qed.

Lemma narrow_within g s t g' : grant_within g ->
  narrowGrant g (Narrowing None None None None None
    (Some (Budget_ (clamp (steps (budget g)) (Some s)) (clamp (tokens (budget g)) (Some t))))) = Ok g' -> grant_within g'.
Proof.
  intros (? & ? & ? & ? & ? & ? & ? & Hs & Ht). unfold narrowGrant. cbn [nw_capabilities nw_read_paths nw_write_paths
    nw_state_fields nw_tools nw_budget narrowed_or mbind result_bind default]. intros [_ ->%seal_grant_Ok]%reject_bind_Ok.
  unfold grant_within. cbn. split_and!; try done; by apply clamp_keeps.
Qed.

Lemma narrow_spec n tokensAtStart v : alive n v ->
  wp (narrow_step policy tokensAtStart) (fun r v' =>
    alive n v' /\ lv_machine v' = lv_machine v /\ lv_used_steps v' = lv_used_steps v) v.
Proof.
  intros Hv. unfold narrow_step. wp_steps. set (v1 := set_world _ v).
  assert (Hv1 : alive n v1) by (eapply quiet_alive; [apply quiet_world|done]).
  destruct (narrowGrant _ _) as [narrowed|e] eqn:En; cbn [map_err]; [|done]. wp_steps.
  case_decide; wp_steps; [done|]. apply narrow_within in En; [|apply Hv].
  split; [|done]. destruct Hv1 as [Hm He Hs Hg]. constructor; try done. apply no_end_snoc; [exact He|done].
Qed.

(** ** The ceilings *)

Lemma ceilings_spec startMs tokensAtStart v :
  wp (check_ceilings policy startMs tokensAtStart) (fun r v' =>
    quiet v v' /\ match r with
                  | Ok (Some d) => td_outcome d <> success
                  | Ok None => (lv_used_steps v < max_steps policy)%Z
                  | Err _ => False
                  end) v.
Proof.
  unfold check_ceilings. wp_steps. destruct (Z.leb_spec (max_steps policy) (lv_used_steps v)); wp_steps.
  { split; [apply quiet_refl|done]. }
  destruct (_ <=? _)%Z; wp_steps; [split; [apply quiet_world|done]|].
  split; [eapply quiet_trans; apply quiet_world|]. by destruct (_ <=? _)%Z.
Qed.

Lemma stop_spec n startMs tokensAtStart v : alive n v ->
  wp (stop_at_ceiling policy startMs tokensAtStart) (fun r v' =>
    match r with
    | Ok (Some d) => ended n d v' /\ lv_used_steps v' = lv_used_steps v /\ td_outcome d <> success
    | Ok None => quiet v v' /\ (lv_used_steps v < max_steps policy)%Z
    | Err _ => False
    end) v.
Proof.
  intros Hv. unfold stop_at_ceiling. apply wp_bind. eapply wp_mono; [|apply ceilings_spec].
  intros [[d|]|e] v1 [Hq Hd]; wp_steps; [|done|done].
  eapply wp_mono; [|apply (finish_ended n); [by eapply quiet_alive|done]].
  intros r v2 (-> & He & Hu). wp_steps. split; [done|]. split; [|done]. rewrite Hu. apply Hq.
Qed.

(** ** An iteration *)

Lemma complete_spec n proposal v : alive n v -> lv_machine v = new_machine ->
  (exists input w0, in_step input = lv_used_steps v /\ in_envelope input = envelope /\ step input w0 = (Ok (complete proposal), lv_world v)) ->
  wp (complete_step policy proposal) (fun r v' =>
    match r with Ok d => ended n d v' | Err _ => alive n v' end /\ lv_used_steps v' = lv_used_steps v) v.
Proof.
  intros Hv Hm (input & w0 & Hnum & Hen & Hstep). unfold complete_step. wp_steps.
  destruct (applyModelProposal (lv_state v) proposal) as [state'|e] eqn:Ep.
  2:{ eapply wp_mono; [|by apply (finish_ended n)]. by intros r v' (-> & He & Hu). }
  apply (model_proposal_accounted n) in Ep; [|apply Hv]. wp_steps.
  cbn [lv_machine add_event set_state]. rewrite Hm.
  change (map_err LoopFailure (signalCompletion new_machine)) with (Ok (E := thrown) (Machine verifying None)). wp_steps.
  match goal with |- wp _ _ ?x => set (v1 := x) end.
  assert (Hv1 : alive n v1).
  { destruct Hv as [_ He Hs Hg]. constructor; [done| |done|done]. unfold v1, no_end. cbn. apply Forall_app. split; [exact He|by apply Forall_singleton]. }
  assert (Hsig : exists e, e ∈ lv_events v1 /\ pr_kind e = completion_signaled).
  { exists (Progress (lv_used_steps v) completion_signaled). split; [|done]. cbn. apply elem_of_app. right. left. }
  assert (Hcall : wp (if require_external_verification (termination policy) then call verify else mret true)
    (fun r v2 => quiet v1 v2 /\ (lv_events v2 = lv_events v1) /\ (r = Ok true -> verified_end (lv_used_steps v) (lv_world v2))) v1).
  { unfold verified_end. destruct (require_external_verification _); wp_steps.
    - split; [apply quiet_world|]. split; [done|]. intros ->. by exists input, w0, proposal, (lv_world v).
    - split; [apply quiet_refl|]. split; [done|]. intros _. by exists input, w0, proposal, (lv_world v). }
  eapply wp_mono; [|exact Hcall]. intros [verified|e] v2 (Hq & Hevents & Hpass).
  2:{ split; [by eapply quiet_alive|apply Hq]. }
  wp_steps. rewrite (qu_machine _ _ Hq). change (lv_machine v1) with (Machine verifying None).
  change (map_err LoopFailure (verify_evidence (Machine verifying None) verified)) with
    (Ok (E := thrown) (Machine terminated (Some (completionDecision verified)))). wp_steps.
  pose proof (quiet_alive n _ _ Hq Hv1) as [_ He2 Hs2 Hg2]. split; [|apply Hq]. constructor; cbn; try done.
  - by eexists _, _.
  - destruct verified; [|done]. intros _. rewrite (qu_used _ _ Hq). split; [by apply Hpass|]. destruct Hsig as (e & Hin & Hk). exists e.
    split; [|done]. apply elem_of_app. left. by rewrite Hevents.
Qed.

Lemma turn_spec n startMs tokensAtStart v : at_head n v ->
  wp (turn envelope startMs tokensAtStart) (fun r v' =>
    match r with
    | Ok (Some d) => ended n d v'
    | Ok None => at_head (n + 1) v'
    | Err _ => exists m, (n <= m <= n + 1)%Z /\ alive m v'
    end /\ lv_used_steps v' = (n + 1)%Z) v.
Proof.
  intros [Hm He Hu Hs Hg]. unfold turn. wp_steps. set (v1 := set_world _ (add_event _ _)).
  assert (Hv1 : alive n v1).
  { constructor; [cbn; by rewrite Hm| |done|done]. unfold v1, no_end. cbn. apply Forall_app. split; [exact He|by apply Forall_singleton]. }
  assert (Hm1 : lv_machine v1 = new_machine) by done. assert (Hu1 : lv_used_steps v1 = (n + 1)%Z) by (cbn; by rewrite Hu).
  apply wp_catch. wp_steps.
  match goal with Hst : step _ _ = (?r, ?w) |- _ => set (v2 := set_world w v1); destruct r as [outcome|e] end.
  2:{ wp_steps. eapply wp_mono; [|apply (finish_ended n); [by eapply quiet_alive; [apply quiet_world|]|done]].
      intros r v3 (-> & Hend & Hu3). wp_steps. split; [done|by rewrite Hu3]. }
  assert (Hv2 : alive n v2) by (eapply quiet_alive; [apply quiet_world|done]).
  wp_steps. destruct outcome as [calls proposal output|proposal].
  - apply wp_bind, wp_catch. eapply wp_mono; [|by apply (work_spec n)]. intros [[d|]|e] v3; cbv beta iota.
    + intros [Hend Hu3]. wp_steps. split; [done|by rewrite Hu3].
    + intros (Hv3 & Hm3 & Hu3). wp_steps. eapply wp_mono; [|by apply (narrow_spec (n + 1))].
      intros r v4 (Hv4 & Hm4 & Hu4). assert (lv_used_steps v4 = (n + 1)%Z) as Hused by (by rewrite Hu4, Hu3).
      destruct r as [[]|e]; wp_steps; (split; [|done]).
      * destruct Hv4. constructor; try done. by rewrite Hm4, Hm3.
      * exists (n + 1)%Z. split; [lia|done].
    + intros [Hv3 Hu3]. wp_steps. eapply wp_mono; [|apply (finish_ended n); [done|by destruct e as [[]|[]|[[]|]|]]].
      intros r v4 (-> & Hend & Hu4). wp_steps. split; [done|by rewrite Hu4, Hu3].
  - wp_steps. eapply wp_mono; [|apply (complete_spec n); [done|done|]].
    2:{ match goal with Hst : step ?i ?w0 = (Ok (complete _), _) |- _ => by exists i, w0 end. }
    intros [d|e] v3 [Hend Hu3]; wp_steps.
    + split; [done|by rewrite Hu3].
    + split; [exists n; split; [lia|done]|by rewrite Hu3].
Qed.

(** The bounds the steps keep: under a hard ceiling the check comes first. *)
Definition room (n : Z) : Prop := if decide (ceiling_mode (termination policy) = hard) then (n <= max_steps policy)%Z else (n < max_steps policy)%Z.

(** How many of the executed steps are accounted at the end: all of them, or all but
    the last, as after a success. *)
Definition ended_within_at (w : W) (d : TerminalDecision) v : Prop :=
  (0 <= lv_used_steps v <= max_steps policy)%Z /\
  exists m, ended_at w m d v /\ (m = lv_used_steps v /\ td_outcome d <> success \/ m = (lv_used_steps v - 1)%Z).
Local Abbreviation ended_within d v := (ended_within_at (lv_world v) d v).
Definition alive_within v : Prop :=
  (0 <= lv_used_steps v <= max_steps policy)%Z /\
  exists m, alive m v /\ (m = lv_used_steps v \/ m = (lv_used_steps v - 1)%Z).

Lemma head_alive n v : at_head n v -> alive n v.
Proof. intros []. constructor; try done. by rewrite ah_machine0. Qed.

Lemma quiet_head n v v' : quiet v v' -> at_head n v -> at_head n v'.
Proof. intros [Hm Hs Hg Hu He] []. constructor; rewrite ?Hm, ?Hs, ?Hg, ?Hu; auto. Qed.

Lemma iteration_spec n startMs tokensAtStart v : at_head n v -> room n -> (0 <= n)%Z ->
  wp (iteration envelope startMs tokensAtStart) (fun r v' =>
    match r with
    | Ok (Some d) => ended_within d v'
    | Ok None => at_head (n + 1) v' /\ room (n + 1)
    | Err _ => alive_within v'
    end) v.
Proof.
  intros Hv Hroom Hn. unfold iteration. wp_steps. set (v1 := set_world _ v).
  assert (Hv1 : at_head n v1) by (eapply quiet_head; [apply quiet_world|done]).
  assert (Hle : (n <= max_steps policy)%Z) by (unfold room in Hroom; case_decide; lia).
  destruct a; wp_steps.
  { eapply wp_mono; [|apply (finish_ended n); [by apply head_alive|done]]. intros r v2 (-> & Hend & Hu). wp_steps.
    rewrite (ah_used _ _ Hv1) in Hu. split; [lia|]. exists n. split; [done|]. left. split; [lia|done]. }
  assert (Hbefore : wp (if bool_decide (ceiling_mode (termination policy) = hard) then stop_at_ceiling policy startMs tokensAtStart else mret None)
    (fun r v2 => match r with
                 | Ok (Some d) => ended_within d v2
                 | Ok None => at_head n v2 /\ (n < max_steps policy)%Z
                 | Err _ => False
                 end) v1).
  { unfold room in Hroom. destruct (decide (ceiling_mode (termination policy) = hard)) as [Hh|Hh].
    - rewrite bool_decide_true by done. eapply wp_mono; [|apply (stop_spec n); by apply head_alive].
      rewrite (ah_used _ _ Hv1). intros [[d|]|e] v2; [|intros [Hq Hlt]; split; [by eapply quiet_head|done]|done].
      intros (Hend & Hu & Hd). split; [lia|]. exists n. split; [done|]. left. split; [lia|done].
    - rewrite bool_decide_false by done. wp_steps. done. }
  eapply wp_mono; [|exact Hbefore]. intros [[d|]|e] v2; [by intros; wp_steps| |done]. intros [Hv2 Hlt]. wp_steps.
  eapply wp_mono; [|by apply (turn_spec n)]. intros [[d|]|e] v3 [Hr Hu3].
  - wp_steps. split; [lia|]. exists n. split; [done|]. right. lia.
  - wp_steps. unfold room. destruct (decide (ceiling_mode (termination policy) = hard)) as [Hh|Hh].
    + rewrite bool_decide_true by done. wp_steps. split; [done|lia].
    + rewrite bool_decide_false by done. eapply wp_mono; [|apply (stop_spec (n + 1)); by apply head_alive].
      intros [[d|]|e] v4; [| |done].
      * intros (Hend & Hu & Hd). split; [lia|]. exists (n + 1)%Z. split; [done|]. left. split; [lia|done].
      * intros [Hq Hlt']. split; [by eapply quiet_head|lia].
  - destruct Hr as (m & Hm & Ha). split; [lia|]. exists m. split; [done|]. lia.
Qed.

Lemma iterate_spec startMs tokensAtStart fuel : forall n v, at_head n v -> room n -> (0 <= n)%Z ->
  (max_steps policy < n + Z.of_nat fuel)%Z ->
  wp (iterate fuel envelope startMs tokensAtStart) (fun r v' =>
    match r with Ok (Some d) => ended_within d v' | Ok None => False | Err _ => alive_within v' end) v.
Proof.
  induction fuel as [|fuel IH]; intros n v Hv Hroom Hn Hf; cbn [iterate].
  { unfold room in Hroom. case_decide; lia. }
  apply wp_bind. eapply wp_mono; [|by apply (iteration_spec n)]. intros [[d|]|e] v1; [by intros; wp_steps| |done].
  intros [Hv1 Hr1]. apply (IH (n + 1)%Z); try done; lia.
Qed.

Lemma last_resort_spec e v : alive_within v ->
  wp (last_resort e) (fun r v' => exists d, r = Ok (Some d) /\ ended_within d v') v.
Proof.
  intros (Hu & m & Ha & Hm). unfold last_resort. wp_steps. rewrite decide_False by apply Ha. wp_steps.
  eapply wp_mono; [|by apply (finish_ended m)]. intros r v1 (-> & Hend & Hu1). wp_steps.
  exists adapterFailureDecision. split; [done|]. split; [lia|]. exists m. split; [done|]. rewrite Hu1.
  destruct Hm as [->| ->]; [by left|by right].
Qed.

Lemma report_spec startMs tokensAtStart d v : ended_within d v ->
  wp (report startMs tokensAtStart d) (fun r _ => exists res, r = Ok res /\ decision res = d /\
    ended_within_at (lv_world v) d (final_vars res) /\ steps_executed res = lv_used_steps (final_vars res) /\
    lv_world (final_vars res) = (clock (usedTokens (lv_world v)).2).2) v.
Proof.
  intros Hv. unfold report. wp_steps. eexists. split; [reflexivity|]. split; [done|]. split; [|split; [done|]]; cbn in *.
  2:{ by repeat match goal with Hp : _ = (_, _) |- _ => rewrite Hp; cbn end. }
  destruct Hv as [Hu (m & [] & Hm)]. split; [done|]. exists m. split; [by constructor|done].
Qed.

Lemma managed_loop_spec v : at_head 0 v -> (1 <= max_steps policy)%Z ->
  wp (managed_loop envelope) (fun r _ => exists res w, r = Ok (Some res) /\ ended_within_at w (decision res) (final_vars res) /\
    steps_executed res = lv_used_steps (final_vars res) /\ lv_world (final_vars res) = (clock (usedTokens w).2).2) v.
Proof.
  intros Hv Hmax. unfold managed_loop. wp_steps. match goal with |- wp _ _ ?x => set (v1 := x) end.
  assert (Hv1 : at_head 0 v1) by (destruct Hv; by constructor).
  apply (wp_mono _ (fun r v' => exists d, r = Ok (Some d) /\ ended_within d v')).
  { intros r v2 (d & -> & Hend). wp_steps. eapply wp_mono; [|by apply report_spec].
    intros r v3 (res & -> & <- & He & Hs & Hw). wp_steps. by exists res, (lv_world v2). }
  apply wp_catch. eapply wp_mono; [|apply (iterate_spec _ _ _ 0 v1 Hv1); [unfold room; case_decide; lia|done|unfold enough_fuel; lia]].
  intros [[d|]|e] v2; [intros Hd; by exists d|done|apply last_resort_spec].
Qed.

Lemma initial_head w : at_head 0 (initial_vars s0 g0 w).
Proof.
  constructor; cbn; try done.
  - by constructor.
  - unfold accounted. split_and!; [done|done|lia].
  - unfold grant_within. split_and!; try done; apply num_lt_irrefl.
Qed.

Lemma run_spec w : (1 <= max_steps policy)%Z ->
  exists res w', runManagedLoop envelope s0 g0 w = Ok (Some res) /\ ended_within_at w' (decision res) (final_vars res) /\
    steps_executed res = lv_used_steps (final_vars res) /\ lv_world (final_vars res) = (clock (usedTokens w').2).2.
Proof.
  intros Hmax. apply (managed_loop_spec (initial_vars s0 g0 w)); [apply initial_head|done].
Qed.
End invariant.

(* ------------------------------------------------------------------ *)
(** ** Runs without verification *)

(** The ports with another verification. *)
Definition with_verify {W} (f : W -> result thrown bool * W) (P : LoopPorts W) : LoopPorts W :=
  {| clock := clock; usedTokens := usedTokens; isCancelled := isCancelled; step := step; invokeTool := invokeTool; verify := f |}.

Section unverified.
Context {W : Type} (P : LoopPorts W) (h : Hash) (f : W -> result thrown bool * W) (envelope : TaskEnvelope).
Hypothesis Hreq : require_external_verification (termination (te_loop_policy (te_spec envelope))) = false.

Lemma unverified_iteration startMs tokensAtStart :
  @iteration W (with_verify f P) h envelope startMs tokensAtStart = iteration envelope startMs tokensAtStart.
Proof. unfold iteration, turn, complete_step. rewrite Hreq. reflexivity. Qed.

Lemma unverified_iterate startMs tokensAtStart fuel :
  @iterate W (with_verify f P) h fuel envelope startMs tokensAtStart = iterate fuel envelope startMs tokensAtStart.
Proof. induction fuel as [|fuel IH]; [done|]. cbn [iterate]. by rewrite unverified_iteration, IH. Qed.

Lemma unverified_run s0 g0 w : @runManagedLoop W (with_verify f P) h envelope s0 g0 w = runManagedLoop envelope s0 g0 w.
Proof.
  unfold runManagedLoop, managed_loop, mbind, loopM_bind, try_catch, read. cbn [clock usedTokens with_verify].
  destruct (clock _) as [startMs w1]. cbn [fst snd]. destruct (usedTokens _) as [tokensAtStart w2]. by rewrite unverified_iterate.
Qed.
End unverified.

(* ------------------------------------------------------------------ *)
(** ** The two modes of the ceilings *)

(** The envelope with the mode of its ceilings replaced. *)
Definition with_mode (m : BudgetCeilingMode) (e : TaskEnvelope) : TaskEnvelope :=
  let s := te_spec e in
  let p := te_loop_policy s in
  let t := termination p in
  Envelope (EnvelopeSpec (te_task_id s) (te_plan_id s) (te_iteration_id s) (te_repository_id s) (te_baseline_id s) (te_objective s)
    (te_expected_output s) (te_acceptance_criteria s) (te_dependency_task_ids s) (te_required_gate_ids s)
    (te_input_node_revisions s) (te_context_bundle_id s) (te_context_bundle_digest s) (te_protected_context_fields s)
    (te_allowed_read_paths s) (te_proposed_write_paths s) (te_state_read_fields s) (te_state_proposal_fields s) (te_tools s)
    (te_risk s) (te_required_approval_digests s) (te_external_side_effect s) (te_idempotency_scope s)
    (LoopPol (max_steps p) (max_tokens p) (max_duration_ms p) (max_tool_retries p) (repeat_detection p)
       (Termination (require_structured_signal t) (require_external_verification t) m) (lp_policy_digest p) (lp_digest p))
    (te_baseline_commit s) (te_input_digest s) (te_stale_input_behavior s)) (te_digest e).

Definition input_with_mode (m : BudgetCeilingMode) (i : LoopStepInput) : LoopStepInput :=
  StepInput (in_step i) (with_mode m (in_envelope i)) (in_state i) (in_grant i) (in_remaining i).

Section modes.
Context {W : Type} `{LoopPorts W} `{Hash}.
Implicit Types v : LoopVars W.
Variable envelope : TaskEnvelope.

(** Reading the meters changes nothing, nobody cancels, and the model does not look
    at the mode. *)
Hypothesis clock_reads : forall w : W, (clock w).2 = w.
Hypothesis tokens_reads : forall w : W, (usedTokens w).2 = w.
Hypothesis never_cancelled : forall w : W, isCancelled w = (false, w).
Hypothesis step_ignores : forall m i (w : W), step (input_with_mode m i) w = step i w.

Local Abbreviation policy := (te_loop_policy (te_spec envelope)).

Lemma bind_ext {A B} (m : loopM W A) (f g : A -> loopM W B) v : (forall a v', f a v' = g a v') -> (m ≫= f) v = (m ≫= g) v.
Proof. intros Hf. unfold mbind, loopM_bind. destruct (m v) as [[a|e] v']; [apply Hf|done]. Qed.

Lemma bind_ext2 {A B} (m m' : loopM W A) (f g : A -> loopM W B) v :
  m v = m' v -> (forall a v', f a v' = g a v') -> (m ≫= f) v = (m' ≫= g) v.
Proof. intros Hm Hf. unfold mbind, loopM_bind. rewrite Hm. destruct (m' v) as [[a|e] v']; [apply Hf|done]. Qed.

Lemma gets_bind {A B} (f : LoopVars W -> A) (k : A -> loopM W B) v : (gets f ≫= k) v = k (f v) v.
Proof. done. Qed.

Lemma catch_ext {A} (m m' : loopM W A) h v : m v = m' v -> try_catch m h v = try_catch m' h v.
Proof. unfold try_catch. by intros ->. Qed.

Lemma run_calls_mode m calls : forall v,
  run_calls (te_loop_policy (te_spec (with_mode m envelope))) calls v = run_calls policy calls v.
Proof.
  induction calls as [|c calls IH]; intros v; [done|]. cbn [run_calls]. apply bind_ext. intros output v1.
  apply bind_ext. intros u v2. apply bind_ext. intros r v3. apply bind_ext. intros o v4. apply bind_ext. intros seen v5.
  cbn [with_mode te_spec te_loop_policy repeat_detection]. destruct (observe _ _ _) as [seen' d]. apply bind_ext. intros u' v6.
  destruct (repeated d); [done|apply IH].
Qed.

Lemma work_mode m tb calls p o v :
  work_step (te_loop_policy (te_spec (with_mode m envelope))) tb calls p o v = work_step policy tb calls p o v.
Proof. unfold work_step. apply bind_ext2; [apply run_calls_mode|done]. Qed.

Lemma turn_mode m startMs tokensAtStart v :
  turn (with_mode m envelope) startMs tokensAtStart v = turn envelope startMs tokensAtStart v.
Proof.
  unfold turn. apply bind_ext. intros n v1. apply bind_ext. intros u v2. apply bind_ext. intros tb v3. apply bind_ext.
  intros u' v4. apply bind_ext. intros now v5.
  rewrite !gets_bind. apply bind_ext2.
  - apply catch_ext. apply bind_ext2; [|done]. unfold call.
    match goal with |- context [step ?i (lv_world v5)] => match goal with |- _ = ?rhs => match rhs with context [step ?j (lv_world v5)] =>
      change i with (input_with_mode m j) end end end.
    by rewrite step_ignores.
  - intros [[calls p o|p]|d] v6; [|done|done]. apply bind_ext2; [|done]. apply catch_ext, work_mode.
Qed.

(** What the ceilings say of the variables, when reading them changes nothing. *)
Definition limit (startMs tokensAtStart : Z) v : option TerminalDecision :=
  if (max_steps policy <=? lv_used_steps v)%Z then Some budgetCeilingDecision
  else if (max_tokens policy <=? (usedTokens (lv_world v)).1 - tokensAtStart)%Z then Some budgetCeilingDecision
  else if (max_duration_ms policy <=? (clock (lv_world v)).1 - startMs)%Z then Some timeoutDecision else None.

Lemma read_pure {A} (port : W -> A * W) v : (forall w, (port w).2 = w) -> read port v = (Ok (port (lv_world v)).1, v).
Proof.
  intros Hp. unfold read. specialize (Hp (lv_world v)). destruct (port (lv_world v)) as [a w]. cbn in *. subst. by destruct v.
Qed.

Lemma check_limit startMs tokensAtStart v :
  check_ceilings policy startMs tokensAtStart v = (Ok (limit startMs tokensAtStart v), v).
Proof.
  unfold check_ceilings, limit. rewrite gets_bind. destruct (_ <=? _)%Z; [done|]. unfold mbind at 1, loopM_bind at 1.
  rewrite (read_pure usedTokens) by done. destruct (_ <=? _)%Z; [done|]. unfold mbind at 1, loopM_bind at 1.
  by rewrite (read_pure clock) by done.
Qed.

Definition stop (d : TerminalDecision) : loopM W (option TerminalDecision) := d' ← finish d; mret (Some d').

Lemma stop_limit startMs tokensAtStart v : stop_at_ceiling policy startMs tokensAtStart v =
  match limit startMs tokensAtStart v with Some d => stop d v | None => (Ok None, v) end.
Proof.
  unfold stop_at_ceiling. unfold mbind at 1, loopM_bind at 1. rewrite check_limit. by destruct (limit _ _ _).
Qed.

Lemma not_cancelled v : read isCancelled v = (Ok false, v).
Proof. unfold read. rewrite never_cancelled. by destruct v. Qed.

Lemma hard_iteration startMs tokensAtStart v : ceiling_mode (termination policy) = hard ->
  iteration envelope startMs tokensAtStart v =
  match limit startMs tokensAtStart v with Some d => stop d v | None => turn envelope startMs tokensAtStart v end.
Proof.
  intros Hh. unfold iteration. rewrite Hh. rewrite bool_decide_true by done. unfold mbind at 1, loopM_bind at 1. rewrite not_cancelled.
  unfold mbind at 1, loopM_bind at 1. rewrite stop_limit. destruct (limit startMs tokensAtStart v) as [d|].
  - unfold stop, mbind, loopM_bind. destruct (finish d v) as [[d'|e] v']; done.
  - unfold mbind, loopM_bind. by destruct (turn envelope startMs tokensAtStart v) as [[[d|]|e] v'].
Qed.

Lemma soft_iteration startMs tokensAtStart v :
  iteration (with_mode soft envelope) startMs tokensAtStart v =
  match turn envelope startMs tokensAtStart v with
  | (Ok None, v') => match limit startMs tokensAtStart v' with Some d => stop d v' | None => (Ok None, v') end
  | r => r
  end.
Proof.
  unfold iteration. change (ceiling_mode (termination (te_loop_policy (te_spec (with_mode soft envelope))))) with soft.
  rewrite bool_decide_false by done. unfold mbind at 1, loopM_bind at 1. rewrite not_cancelled.
  unfold mbind, loopM_bind. cbn [mret loopM_ret]. unfold loopM_ret. rewrite turn_mode.
  destruct (turn envelope startMs tokensAtStart v) as [[[d|]|e] v']; [done| |done].
  change (te_loop_policy (te_spec (with_mode soft envelope))) with
    (LoopPol (max_steps policy) (max_tokens policy) (max_duration_ms policy) (max_tool_retries policy) (repeat_detection policy)
       (Termination (require_structured_signal (termination policy)) (require_external_verification (termination policy)) soft)
       (lp_policy_digest policy) (lp_digest policy)).
  apply stop_limit.
Qed.

(** A result that does not need more fuel. *)
Definition settled_result (r : result thrown (option TerminalDecision) * LoopVars W) : Prop := r.1 <> Ok None.

Lemma iterate_more e startMs tokensAtStart fuel : forall v, settled_result (iterate fuel e startMs tokensAtStart v) ->
  iterate (S fuel) e startMs tokensAtStart v = iterate fuel e startMs tokensAtStart v.
Proof.
  induction fuel as [|fuel IH]; intros v Hs; [by destruct Hs|].
  change (iterate (S (S fuel)) e startMs tokensAtStart v) with
    ((decided ← iteration e startMs tokensAtStart;
      match decided with Some d => mret (Some d) | None => iterate (S fuel) e startMs tokensAtStart end) v).
  cbn [iterate] in Hs |- *. unfold mbind, loopM_bind in *. destruct (iteration e startMs tokensAtStart v) as [[[d|]|err] v']; [done| |done].
  by apply IH.
Qed.

Lemma soft_is_hard_from startMs tokensAtStart fuel : ceiling_mode (termination policy) = hard -> forall v,
  limit startMs tokensAtStart v = None ->
  settled_result (iterate fuel (with_mode soft envelope) startMs tokensAtStart v) ->
  iterate (S fuel) envelope startMs tokensAtStart v = iterate fuel (with_mode soft envelope) startMs tokensAtStart v.
Proof.
  intros Hh. induction fuel as [|fuel IH]; intros v Hl Hs; [by destruct Hs|].
  change (iterate (S (S fuel)) envelope startMs tokensAtStart v) with
    ((decided ← iteration envelope startMs tokensAtStart;
      match decided with Some d => mret (Some d) | None => iterate (S fuel) envelope startMs tokensAtStart end) v).
  cbn [iterate] in Hs |- *. unfold mbind, loopM_bind in *. rewrite hard_iteration, Hl by done. rewrite soft_iteration in *.
  destruct (turn envelope startMs tokensAtStart v) as [[[d|]|err] v1]; [done| |done].
  destruct (limit startMs tokensAtStart v1) as [d|] eqn:El.
  - change (iterate (S fuel) envelope startMs tokensAtStart v1) with
      ((decided ← iteration envelope startMs tokensAtStart;
        match decided with Some d => mret (Some d) | None => iterate fuel envelope startMs tokensAtStart end) v1).
    unfold mbind, loopM_bind. rewrite hard_iteration, El by done. unfold stop, mbind, loopM_bind.
    by destruct (finish d v1) as [[d'|e] v2].
  - by apply IH.
Qed.
End modes.

Lemma bind_read {W A B} (port : W -> A * W) (k : A -> loopM W B) v : (forall w, (port w).2 = w) ->
  (read port ≫= k) v = k (port (lv_world v)).1 v.
Proof. intros Hp. unfold mbind, loopM_bind. by rewrite read_pure. Qed.

Section initial.
Context {W : Type} `{LoopPorts W} `{Hash}.
Variables (envelope : TaskEnvelope) (s0 : WorkingState) (g0 : CapabilityGrant) (w : W).
Local Abbreviation policy := (te_loop_policy (te_spec envelope)).
Local Abbreviation v := (initial_vars s0 g0 w).

(** No ceiling is reached at the start. *)
Lemma limit_initial : (1 <= max_steps policy)%Z -> (1 <= max_tokens policy)%Z -> (1 <= max_duration_ms policy)%Z ->
  limit envelope (clock (lv_world v)).1 (usedTokens (lv_world v)).1 v = None.
Proof.
  intros ? ? ?. unfold limit. cbn. rewrite !(proj2 (Z.leb_gt _ _)) by lia. done.
Qed.

Lemma settled_initial startMs tokensAtStart : (1 <= max_steps policy)%Z ->
  settled_result (iterate (enough_fuel envelope) envelope startMs tokensAtStart v).
Proof.
  intros Hmax. pose proof (iterate_spec envelope s0 g0 startMs tokensAtStart (enough_fuel envelope) 0 v (initial_head s0 g0 w)) as Hs.
  unfold settled_result. intros E. unfold wp in Hs. rewrite E in Hs. apply Hs; [unfold room; case_decide; lia|done|unfold enough_fuel; lia].
Qed.
End initial.

(* ------------------------------------------------------------------ *)
(** ** Retries *)

Section retries.
Context {W : Type} `{LoopPorts W}.
Implicit Types v : LoopVars W.

(** The events of [k] retries, from the attempt [first] on. *)
Definition retry_events (used : Z) (tool : string) (first : Z) (k : nat) : list LoopProgressEvent :=
  map (fun i => Progress used (tool_retried tool (first + Z.of_nat i))) (seq 0 k).

Lemma retry_events_S used tool first k :
  Progress used (tool_retried tool first) :: retry_events used tool (first + 1) k = retry_events used tool first (S k).
Proof.
  unfold retry_events. cbn [seq map]. rewrite Z.add_0_r. f_equal. rewrite <- seq_shift, map_map. apply map_ext. intros i. do 2 f_equal. lia.
Qed.

Lemma call_keeps {A} (port : W -> result thrown A * W) v r v1 : call port v = (r, v1) ->
  lv_events v1 = lv_events v /\ lv_used_steps v1 = lv_used_steps v.
Proof. unfold call. destruct (port (lv_world v)) as [r' w]. by intros [= _ <-]. Qed.

Lemma invoke_events c left : forall attempts v, wp (invokeWithRetry left attempts c) (fun r v' =>
  exists k, (k <= left)%nat /\
    lv_events v' = lv_events v ++ retry_events (lv_used_steps v) (call_tool c) attempts k ++
      match r with Ok _ => [Progress (lv_used_steps v) (tool_call (call_tool c))] | Err _ => [] end /\
    match r with Ok _ => True | Err e => retryable e = true -> k = left end) v.
Proof.
  induction left as [|left IH]; intros attempts v; unfold wp; cbn [invokeWithRetry];
    destruct (call (invokeTool c (lv_grant v)) v) as [[output|error] v1] eqn:Ec;
    pose proof (call_keeps _ _ _ _ Ec) as [Hev Hu]; cbn [fst snd].
  - exists 0%nat. unfold mbind, loopM_bind, emit. cbn. rewrite Hev, Hu. split_and!; [lia|done|done].
  - exists 0%nat. cbn. rewrite app_nil_r. split_and!; [lia|done|done].
  - exists 0%nat. unfold mbind, loopM_bind, emit. cbn. rewrite Hev, Hu. split_and!; [lia|done|done].
  - destruct (retryable error) eqn:Er; cbn [fst snd].
    2:{ exists 0%nat. cbn. rewrite app_nil_r, Er. split_and!; [lia|done|done]. }
    change ((emit (tool_retried (call_tool c) attempts) ≫= λ _ : (), invokeWithRetry left (attempts + 1) c) v1)
      with (invokeWithRetry left (attempts + 1) c (add_event (Progress (lv_used_steps v1) (tool_retried (call_tool c) attempts)) v1)).
    rewrite Hu. set (v2 := add_event _ v1).
    destruct (IH (attempts + 1)%Z v2) as (k & Hk & Hev2 & Hr). exists (S k). split_and!; [lia| |].
    + etransitivity; [exact Hev2|]. cbn [lv_events lv_used_steps v2 add_event]. rewrite <- retry_events_S, Hev, Hu, <- !app_assoc. reflexivity.
    + revert Hr. destruct (invokeWithRetry left (attempts + 1) c v2).1; [done|]. intros Hr He. by rewrite (Hr He).
Qed.
End retries.

(* ------------------------------------------------------------------ *)
(** ** Properties *)

Section properties.
Context {W : Type} `{LoopPorts W} `{Hash}.

(** C31. Whatever the model, the tools, the verification, the clock and the meter do, a
    run under a policy of at least one step returns, in either mode after at most
    the steps of its ceiling, with one terminal decision: the machine holds it, and
    the last event, and no other, is a termination, with its reason. *)
Theorem managed_loop_ends envelope s0 g0 (w : W) :
  (1 <= max_steps (te_loop_policy (te_spec envelope)))%Z ->
  exists res, runManagedLoop envelope s0 g0 w = Ok (Some res) /\
    (0 <= steps_executed res <= max_steps (te_loop_policy (te_spec envelope)))%Z /\
    lv_machine (final_vars res) = Machine terminated (Some (decision res)) /\
    exists before e, lv_events (final_vars res) = before ++ [e] /\ Forall (fun e => is_end e = false) before /\
      pr_kind e = loop_terminated (td_reason (decision res)).
Proof.
  intros Hmax. destruct (run_spec envelope s0 g0 w Hmax) as (res & w' & Hr & [Hu (m & [Hm He _ _ _] & _)] & Hs & _). exists res.
  split; [done|]. split; [lia|]. done.
Qed.

(** A run grows no authority and loses no accounting: its final grant is the first
    one with a budget that does not exceed it; the ceilings of the working state
    stay; and the state has accounted every executed step, or every one but the
    last, which after a success is never accounted. *)
Theorem managed_loop_authority envelope s0 g0 (w : W) res :
  (1 <= max_steps (te_loop_policy (te_spec envelope)))%Z ->
  runManagedLoop envelope s0 g0 w = Ok (Some res) ->
  grant_within g0 (lv_grant (final_vars res)) /\
  exists n, accounted s0 n (lv_state (final_vars res)) /\
    (n = steps_executed res \/ n = steps_executed res - 1)%Z /\
    (td_outcome (decision res) = success -> n = (steps_executed res - 1)%Z).
Proof.
  intros Hmax Hrun. destruct (run_spec envelope s0 g0 w Hmax) as (res' & w' & Hr & [Hu (m & [_ _ Hs Hg _] & Hm)] & Hsteps & _).
  rewrite Hrun in Hr. injection Hr as <-. split; [done|]. exists m. split; [done|]. rewrite Hsteps. naive_solver.
Qed.

(** A tool call is tried again only after a timeout or a failure of the tool, at
    most as often as the policy allows; a retryable error is reported only once
    the retries are used up. *)
Theorem tool_retries_bounded policy c (v : LoopVars W) :
  let '(r, v') := invokeWithRetry (Z.to_nat (max_tool_retries policy)) 1 c v in
  exists k, (Z.of_nat k <= Z.max 0 (max_tool_retries policy))%Z /\
    lv_events v' = lv_events v ++ retry_events (lv_used_steps v) (call_tool c) 1 k ++
      match r with Ok _ => [Progress (lv_used_steps v) (tool_call (call_tool c))] | Err _ => [] end /\
    match r with Ok _ => True | Err e => retryable e = true -> Z.of_nat k = Z.max 0 (max_tool_retries policy) end.
Proof.
  pose proof (invoke_events c (Z.to_nat (max_tool_retries policy)) 1 v) as (k & Hk & He & Hr). unfold wp in *.
  destruct (invokeWithRetry _ _ _ _) as [r v']. exists k. cbn [fst snd] in *. split_and!; [lia|done|].
  destruct r as [|e]; [done|]. intros Hre. rewrite (Hr Hre). lia.
Qed.

(** A soft ceiling is the hard one: while nobody cancels and reading the clock and
    the meter changes nothing, a run of a model that does not look at the mode
    ends with the same result in both modes. *)
Theorem soft_ceiling_is_hard envelope s0 g0 (w : W) :
  (forall w : W, (clock w).2 = w) -> (forall w : W, (usedTokens w).2 = w) -> (forall w : W, isCancelled w = (false, w)) ->
  (forall m i (w : W), step (input_with_mode m i) w = step i w) ->
  let policy := te_loop_policy (te_spec envelope) in
  ceiling_mode (termination policy) = hard ->
  (1 <= max_steps policy)%Z -> (1 <= max_tokens policy)%Z -> (1 <= max_duration_ms policy)%Z ->
  runManagedLoop (with_mode soft envelope) s0 g0 w = runManagedLoop envelope s0 g0 w.
Proof.
  intros Hc Ht Hn Hstep policy Hh Hs Htok Hd. unfold runManagedLoop, managed_loop.
  set (v := initial_vars s0 g0 w). rewrite (bind_read clock _ v Hc), (bind_read clock _ v Hc), (bind_read usedTokens _ v Ht), (bind_read usedTokens _ v Ht).
  set (startMs := (clock (lv_world v)).1). set (tokensAtStart := (usedTokens (lv_world v)).1).
  assert (Hit : iterate (enough_fuel (with_mode soft envelope)) (with_mode soft envelope) startMs tokensAtStart v =
                iterate (enough_fuel envelope) envelope startMs tokensAtStart v).
  { change (enough_fuel (with_mode soft envelope)) with (enough_fuel envelope).
    rewrite <- (soft_is_hard_from envelope Hc Ht Hn Hstep) by
      (first [done|apply (limit_initial envelope); done|apply (settled_initial (with_mode soft envelope)); done]).
    apply iterate_more. apply (settled_initial envelope); done. }
  unfold mbind, loopM_bind, try_catch. by rewrite Hit.
Qed.
End properties.

(** A sample: one call of a tool, then the completion signal; [current] is what the
    verification finds. The world counts the calls of the tool, and the first one
    fails. *)
Definition sample_ports (current : bool) : LoopPorts Z :=
  {| clock := fun w => (0%Z, w);
     usedTokens := fun w => (w, w);
     isCancelled := fun w => (false, w);
     step := fun i w =>
       (Ok (if (in_step i =? 1)%Z then work [ToolCall "lint" [] None] None None else complete None), w);
     invokeTool := fun c g w =>
       (if (w =? 0)%Z then Err (ToolError tool_failed)
        else Ok (ToolEvidence (call_tool c) "" JNull "out" 1 false false None), (w + 1)%Z);
     verify := fun w => (Ok current, w) |}.

Definition unverified_request : LoopPolicyRequest :=
  LoopRequest (Some (LoopOverrides (fun _ => None) (Some (TermOverrides None (Some false) None)))) (Some "authorization").
Definition unverified_policy : LoopPolicy := Eval vm_compute in
  match @resolveLoopPolicy toy_hash sample_effective unverified_request with Ok p => p | Err _ => sample_loop_policy end.

Definition loop_envelope (p : LoopPolicy) : TaskEnvelope :=
  let s := sample_spec [] in
  Envelope (EnvelopeSpec (te_task_id s) (te_plan_id s) (te_iteration_id s) (te_repository_id s) (te_baseline_id s)
    (te_objective s) (te_expected_output s) (te_acceptance_criteria s) (te_dependency_task_ids s) (te_required_gate_ids s)
    (te_input_node_revisions s) (te_context_bundle_id s) (te_context_bundle_digest s) (te_protected_context_fields s)
    (te_allowed_read_paths s) (te_proposed_write_paths s) (te_state_read_fields s) (te_state_proposal_fields s) (te_tools s)
    (te_risk s) (te_required_approval_digests s) (te_external_side_effect s) (te_idempotency_scope s) p
    (te_baseline_commit s) (te_input_digest s) (te_stale_input_behavior s)) "".
Definition loop_grant : CapabilityGrant :=
  CapGrant "grant-1" "task-1" [] ["src"] ["src"] [] [Tool "lint" None] "execute" (Budget_ (NInt 40) (NInt 5000)) [] "policy" "digest".

Abbreviation sample_run current p :=
  (@runManagedLoop Z (sample_ports current) toy_hash (loop_envelope p) sample_state loop_grant 0%Z).

Example verified_run : decision <$> (sample_run true sample_loop_policy ≫= from_option Ok (Err OtherError)) = Ok (Terminal success completion).
Proof. vm_compute. reflexivity. Qed.
Example refuted_run :
  (fun r => (decision r, steps_executed r)) <$> (sample_run false sample_loop_policy ≫= from_option Ok (Err OtherError)) =
  Ok (Terminal failed gate_failure, 2%Z).
Proof. vm_compute. reflexivity. Qed.

(** C32. A run ends in success only by its last step: that step, under its number and
    the envelope, answered with a completion, and where the policy requires
    external verification the verification was called in the world this answer
    left, and passed; after it the run only reads the tokens and the clock. A
    policy under which none is required consults the verification nowhere: a run
    goes on whatever it answers. Such a policy is what an authorized override
    resolves to, and a run whose verification would fail then ends in success. *)
Theorem managed_success_verified :
  (forall W (P : LoopPorts W) (h : Hash) envelope s0 g0 (w : W) res,
     (1 <= max_steps (te_loop_policy (te_spec envelope)))%Z -> runManagedLoop envelope s0 g0 w = Ok (Some res) ->
     td_outcome (decision res) = success ->
     (exists e, e ∈ lv_events (final_vars res) /\ pr_kind e = completion_signaled) /\
     exists input w0 proposal w1 w2, in_step input = steps_executed res /\ in_envelope input = envelope /\
       step input w0 = (Ok (complete proposal), w1) /\
       (if require_external_verification (termination (te_loop_policy (te_spec envelope))) then verify w1 = (Ok true, w2) else w2 = w1) /\
       lv_world (final_vars res) = (clock (usedTokens w2).2).2) /\
  (forall W (P : LoopPorts W) (h : Hash) f envelope s0 g0 (w : W),
     require_external_verification (termination (te_loop_policy (te_spec envelope))) = false ->
     @runManagedLoop W (with_verify f P) h envelope s0 g0 w = runManagedLoop envelope s0 g0 w) /\
  @resolveLoopPolicy toy_hash sample_effective unverified_request = Ok unverified_policy /\
  exists res, sample_run false unverified_policy = Ok (Some res) /\ td_outcome (decision res) = success.
Proof.
  split; [|split; [|split; [vm_compute; reflexivity|]]].
  - intros W P h envelope s0 g0 w res Hmax Hrun Hsuccess.
    destruct (run_spec envelope s0 g0 w Hmax) as (res' & w2 & Hr & [_ (m & [_ _ _ _ Hs] & _)] & Hsteps & Hw).
    rewrite Hrun in Hr. injection Hr as <-. destruct (Hs Hsuccess) as [(input & w0 & proposal & w1 & Hin & Hen & Hst & Hv) Hsig].
    split; [done|]. exists input, w0, proposal, w1, w2. rewrite Hsteps. done.
  - intros W P h f envelope s0 g0 w Hreq. by apply unverified_run.
  - eexists. split; vm_compute; reflexivity.
Qed.

(** ** Witnesses *)

Lemma managed_loop_ends_witness :
  exists res, sample_run true sample_loop_policy = Ok (Some res) /\ (0 <= steps_executed res <= 20)%Z.
Proof.
  destruct (@managed_loop_ends Z (sample_ports true) toy_hash (loop_envelope sample_loop_policy) sample_state loop_grant 0%Z ltac:(vm_compute; discriminate))
    as (res & Hr & Hs & _).
  exists res. split; [exact Hr|exact Hs].
Defined.

Lemma managed_loop_authority_witness :
  exists res, sample_run true sample_loop_policy = Ok (Some res) /\ tools (lv_grant (final_vars res)) = [Tool "lint" None] /\
    exists n, accounted sample_state n (lv_state (final_vars res)).
Proof.
  assert (E : exists res, sample_run true sample_loop_policy = Ok (Some res)) by (eexists; vm_compute; reflexivity).
  destruct E as (res & E). exists res. split; [exact E|].
  destruct (@managed_loop_authority Z (sample_ports true) toy_hash (loop_envelope sample_loop_policy) sample_state loop_grant 0%Z res
    ltac:(vm_compute; discriminate) E) as [(_ & _ & _ & _ & Ht & _) (n & Hn & _)].
  split; [exact Ht|]. by exists n.
Defined.

Lemma managed_success_verified_witness :
  exists w w' : Z, @verify Z (sample_ports true) w = (Ok true, w').
Proof.
  assert (E : exists res, sample_run true sample_loop_policy = Ok (Some res) /\ td_outcome (decision res) = success).
  { eexists. split; vm_compute; reflexivity. }
  destruct E as (res & E & Hs).
  destruct (proj1 managed_success_verified Z (sample_ports true) toy_hash (loop_envelope sample_loop_policy) sample_state
    loop_grant 0%Z res ltac:(vm_compute; discriminate) E Hs) as (_ & input & w0 & proposal & w1 & w2 & _ & _ & _ & Hv & _).
  exists w1, w2. exact Hv.
Defined.

Lemma soft_ceiling_is_hard_witness :
  @runManagedLoop Z (sample_ports true) toy_hash (with_mode soft (loop_envelope sample_loop_policy)) sample_state loop_grant 0%Z =
  sample_run true sample_loop_policy.
Proof.
  refine (@soft_ceiling_is_hard Z (sample_ports true) toy_hash (loop_envelope sample_loop_policy) sample_state loop_grant 0%Z
    (fun w => eq_refl) (fun w => eq_refl) (fun w => eq_refl) (fun m i w => eq_refl) eq_refl _ _ _); vm_compute; discriminate.
Defined.
