(* ===== verification/JsonText.v ===== *)
(** * Reading JSON text

    [JSON.parse], which the ledger and the artifact readers apply to the text
    that [canonicalizeJson] wrote. Text with a unit above U+00FF is outside the
    model, as everywhere; the literal of a number with a fraction or an exponent
    is kept as it stands. *)

From Stdlib Require Import DecimalString DecimalZ.
From S2P Require Import Prelude Regex Json.

(** ** The parser *)

Definition is_json_space (a : ascii) : bool := mem (code a) [9; 10; 13; 32]%N.

Fixpoint skip_space (s : string) : string :=
  match s with String a s' => if is_json_space a then skip_space s' else s | EmptyString => "" end.

Definition hex_digit_value (a : ascii) : option N :=
  if is_digit a then Some (code a - 48)%N
  else if in_range "a" "f" a then Some (code a - 87)%N
  else if in_range "A" "F" a then Some (code a - 55)%N
  else None.

(** One unit of a string literal: [None] is an error, [Some (None, _)] the
    closing quote. *)
Definition read_unit (s : string) : option (option ascii * string) :=
  match s with
  | EmptyString => None
  | String a r =>
      if decide (a = dquote) then Some (None, r)
      else if decide (a = "\"%char) then
        match r with
        | EmptyString => None
        | String b r' =>
            if decide (b = dquote) then Some (Some dquote, r')
            else if decide (b = "\"%char) then Some (Some b, r')
            else if decide (b = "/"%char) then Some (Some b, r')
            else if decide (b = "b"%char) then Some (Some (ascii_of_N 8), r')
            else if decide (b = "f"%char) then Some (Some (ascii_of_N 12), r')
            else if decide (b = "n"%char) then Some (Some (ascii_of_N 10), r')
            else if decide (b = "r"%char) then Some (Some (ascii_of_N 13), r')
            else if decide (b = "t"%char) then Some (Some (ascii_of_N 9), r')
            else if decide (b = "u"%char) then
              match r' with
              | String z (String z' (String h (String l r''))) =>
                  match hex_digit_value z, hex_digit_value z', hex_digit_value h, hex_digit_value l with
                  | Some 0, Some 0, Some x, Some y => Some (Some (ascii_of_N (16 * x + y)), r'')
                  | _, _, _, _ => None
                  end%N
              | _ => None
              end
            else None
        end
      else if (code a <? 32)%N then None
      else Some (Some a, r)
  end.

(** The rest of a string literal, after its opening quote. *)
Fixpoint read_string (fuel : nat) (s : string) : option (string * string) :=
  match fuel with
  | 0 => None
  | S fuel' =>
      match read_unit s with
      | None => None
      | Some (None, r) => Some ("", r)
      | Some (Some a, r) => match read_string fuel' r with Some (t, r') => Some (String a t, r') | None => None end
      end
  end.

(** A number: a sign, an integer part without a leading zero, a fraction and
    an exponent, all but the integer part optional. *)
Definition JSON_NUMBER : re :=
  let digits := RPlus (RCls is_digit) in
  RCat (ROpt (RChr "-")) (RCat (RAlt (RChr "0") (RCat (RCls (in_range "1" "9")) (RStar (RCls is_digit))))
    (RCat (ROpt (RCat (RChr ".") digits)) (ROpt (RCat (RCls (is_one_of "eE")) (RCat (ROpt (RCls (is_one_of "+-"))) digits))))).

Fixpoint number_prefix (s : string) : string * string :=
  match s with
  | String a s' => if num_char a then let (t, r) := number_prefix s' in (String a t, r) else ("", s)
  | EmptyString => ("", "")
  end.

(** An integer literal is legal when it is how its value is written, or a
    negative zero. *)
Definition number_value (literal : string) : option number :=
  if str_existsb (is_one_of ".eE") literal then
    if re_match JSON_NUMBER literal then Some (NDec literal) else None
  else
    match NilEmpty.int_of_string literal with
    | Some i => if decide (dec (Z.of_int i) = literal \/ literal = "-0") then Some (NInt (Z.of_int i)) else None
    | None => None
    end.

(** The elements of a list up to the bracket that closes it. *)
Fixpoint read_items {A} (fuel : nat) (read : string -> option (A * string)) (close : ascii) (s : string) :
    option (list A * string) :=
  match fuel with
  | 0 => None
  | S fuel' =>
      match read s with
      | None => None
      | Some (v, r) =>
          match skip_space r with
          | EmptyString => None
          | String c r' =>
              if decide (c = ","%char) then
                match read_items fuel' read close r' with Some (l, r'') => Some (v :: l, r'') | None => None end
              else if decide (c = close) then Some ([v], r')
              else None
          end
      end
  end.

(** [read_items], or nothing between the brackets. *)
Definition read_list {A} (fuel : nat) (read : string -> option (A * string)) (close : ascii) (s : string) :
    option (list A * string) :=
  match skip_space s with
  | String c r => if decide (c = close) then Some ([], r) else read_items fuel read close s
  | EmptyString => None
  end.

Definition read_member (fuel : nat) (read : string -> option (jsval * string)) (s : string) : option ((string * jsval) * string) :=
  match skip_space s with
  | String q r =>
      if decide (q = dquote) then
        match read_string fuel r with
        | None => None
        | Some (key, r') =>
            match skip_space r' with
            | String ":" r'' => match read r'' with Some (v, r3) => Some ((key, v), r3) | None => None end
            | _ => None
            end
        end
      else None
  | EmptyString => None
  end.

Fixpoint strip_prefix (p s : string) : option string :=
  match p, s with
  | EmptyString, _ => Some s
  | String a p', String b s' => if decide (a = b) then strip_prefix p' s' else None
  | String _ _, EmptyString => None
  end.

(** A key that occurs again keeps its place and takes the last value. *)
Definition object_of (members : list (string * jsval)) : list (string * jsval) :=
  foldl (fun fields e => omap_set fields e.1 e.2) [] members.

Fixpoint read_value (fuel : nat) (s : string) : option (jsval * string) :=
  match fuel with
  | 0 => None
  | S fuel' =>
      match skip_space s with
      | EmptyString => None
      | String a r as s' =>
          if num_char a then
            let (literal, r') := number_prefix s' in
            match number_value literal with Some n => Some (JNum n, r') | None => None end
          else if decide (a = "n"%char) then (fun r => (JNull, r)) <$> strip_prefix "null" s'
          else if decide (a = "t"%char) then (fun r => (JBool true, r)) <$> strip_prefix "true" s'
          else if decide (a = "f"%char) then (fun r => (JBool false, r)) <$> strip_prefix "false" s'
          else if decide (a = dquote) then (fun p => (JStr p.1, p.2)) <$> read_string fuel' r
          else if decide (a = "["%char) then (fun p => (JArr p.1, p.2)) <$> read_list fuel' (read_value fuel') "]" r
          else if decide (a = "{"%char) then
            (fun p => (JObj (object_of p.1), p.2)) <$> read_list fuel' (read_member fuel' (read_value fuel')) "}" r
          else None
      end
  end.

(** [JSON.parse(s)]; [None] is its SyntaxError. *)
Definition JSON_parse (s : string) : option jsval :=
  match read_value (S (String.length s)) s with
  | Some (v, r) => if decide (skip_space r = "") then Some v else None
  | None => None
  end.


(* ------------------------------------------------------------------ *)
(** ** Texts that are written *)

Lemma read_unit_esc a r : read_unit (esc_char a +:+ r) = Some (Some a, r).
Proof. destruct a as [[] [] [] [] [] [] [] []]; vm_compute; reflexivity. Qed.

Lemma esc_char_length a : 1 <= String.length (esc_char a).
Proof. destruct a as [[] [] [] [] [] [] [] []]; vm_compute; lia. Qed.

Lemma length_append (a b : string) : String.length (a +:+ b) = String.length a + String.length b.
Proof. induction a as [|c a IH]; cbn; [done|]. by rewrite IH. Qed.

Lemma read_string_esc t : forall fuel r, String.length t < fuel -> read_string fuel (esc t +:+ String dquote r) = Some (t, r).
Proof.
  induction t as [|a t IH]; intros [|fuel] r Hf; cbn in Hf; [lia|done|lia|]. cbn.
  rewrite <- string_app_assoc, read_unit_esc, IH by lia. done.
Qed.

Lemma esc_length t : String.length t <= String.length (esc t).
Proof. induction t as [|a t IH]; cbn; [lia|]. rewrite length_append. pose proof (esc_char_length a). lia. Qed.

Lemma number_prefix_app s r : str_forallb num_char s = true -> boundary r -> number_prefix (s +:+ r) = (s, r).
Proof.
  induction s as [|a s IH]; cbn.
  - intros _ Hr. destruct r as [|a r]; [done|]. cbn in *. by rewrite Hr.
  - intros [-> Hs]%andb_true_iff Hr. by rewrite IH.
Qed.

Lemma strip_prefix_app p s : strip_prefix p (p +:+ s) = Some s.
Proof. induction p as [|a p IH]; cbn; [done|]. by rewrite decide_True. Qed.

(** Every literal of a non-integer is one of JSON's. *)
Fixpoint json_literals (v : jsval) : bool :=
  match v with
  | JNum (NDec s) => re_match JSON_NUMBER s && dec_literal s
  | JArr l => forallb json_literals l
  | JObj l => forallb (fun e => json_literals e.2) l
  | _ => true
  end.

(** No object has a key twice. *)
Fixpoint distinct_keys (v : jsval) : Prop :=
  match v with
  | JArr l => (fix go l := match l with [] => True | x :: l' => distinct_keys x /\ go l' end) l
  | JObj l => NoDup l.*1 /\ (fix go l := match l with [] => True | e :: l' => distinct_keys e.2 /\ go l' end) l
  | _ => True
  end.

Lemma distinct_arr l : distinct_keys (JArr l) <-> Forall distinct_keys l.
Proof. induction l as [|x l IH]; cbn in *; [by rewrite Forall_nil|]. by rewrite Forall_cons, <- IH. Qed.

Lemma distinct_obj l : distinct_keys (JObj l) <-> NoDup l.*1 /\ Forall (fun e => distinct_keys e.2) l.
Proof.
  cbn. f_equiv. induction l as [|x l IH]; cbn in *; [by rewrite Forall_nil|]. by rewrite Forall_cons, <- IH.
Qed.

Lemma number_value_print n : number_ok n = true -> json_literals (JNum n) = true -> number_value (print_number n) = Some n.
Proof.
  unfold number_value, number_ok. destruct n as [z|s|]; cbn; intros H1 H2; [..|done].
  - destruct (dec_num_char z) as [_ ->]. unfold dec at 1. rewrite NilEmpty.isi, of_to. by rewrite decide_True by auto.
  - unfold dec_literal in H1. apply andb_true_iff in H1 as [_ H1]. apply andb_true_iff in H2 as [-> _]. by rewrite H1.
Qed.

Lemma object_of_id l : NoDup l.*1 -> object_of l = l.
Proof.
  unfold object_of. intros Hn. cut (forall acc, NoDup (acc ++ l).*1 -> foldl (fun fields (e : string * jsval) => omap_set fields e.1 e.2) acc l = acc ++ l).
  { intros Hc. by apply (Hc []). }
  clear Hn. induction l as [|[k v] l IH]; intros acc Hn; cbn; [by rewrite app_nil_r|].
  assert (omap_set acc k v = acc ++ [(k, v)]) as ->.
  { assert (k ∉ acc.*1) as Hk.
    { rewrite fmap_app in Hn. apply NoDup_app in Hn as (_ & Hd & _). intros Hin. apply (Hd k Hin). by left. }
    clear -Hk. induction acc as [|[k' v'] acc IH]; cbn in *; [done|]. apply not_elem_of_cons in Hk as [? Hk].
    rewrite decide_False by done. by rewrite IH. }
  rewrite IH; rewrite <- app_assoc; [done|exact Hn].
Qed.

Definition starts_otherwise (close : ascii) (s : string) : Prop :=
  exists a r, s = String a r /\ is_json_space a = false /\ a <> close.

Lemma skip_otherwise close s : starts_otherwise close s -> skip_space s = s.
Proof. intros (a & r & -> & Ha & _). cbn. by rewrite Ha. Qed.

Lemma print_starts v r close : json_ok v = true -> num_char close = false -> head_of (String close "") = HOther ->
  starts_otherwise close (print v +:+ r).
Proof.
  intros Hv Hc Hh. destruct v as [| |[]|n|s|l|l]; cbn in Hv; try discriminate Hv; cbn [print].
  4:{ destruct (number_head n Hv) as (a & s & -> & Ha). exists a, (s +:+ r). split; [done|]. split.
      - destruct a as [[] [] [] [] [] [] [] []]; cbn in Ha; vm_compute; vm_compute in Ha; congruence.
      - intros ->. congruence. }
  all: eexists _, _; split; [reflexivity|]; split; [reflexivity|]; intros <-; discriminate Hh.
Qed.

Section lists.
Context {A : Type} (p : A -> string) (read : string -> option (A * string)) (close : ascii).
Hypothesis close_space : is_json_space close = false.
Hypothesis close_comma : close <> ","%char.
Hypothesis close_num : num_char close = false.

Lemma read_items_join l : forall fuel r, l <> [] -> length l <= fuel ->
  Forall (fun x => forall r, boundary r -> read (p x +:+ r) = Some (x, r)) l ->
  read_items fuel read close (join "," (map p l) +:+ String close r) = Some (l, r).
Proof.
  induction l as [|x l IH]; intros fuel r Hl Hf Hr; [done|]. destruct fuel as [|fuel]; [cbn in Hf; lia|].
  apply Forall_cons in Hr as [Hx Hr]. destruct l as [|y l].
  - cbn [map join read_items]. rewrite Hx by exact close_num. cbn [skip_space]. rewrite close_space.
    destruct (decide (close = ","%char)); [done|]. by destruct (decide (close = close)).
  - cbn [map]. rewrite join_cons by done. rewrite <- !string_app_assoc. cbn [read_items]. rewrite Hx by reflexivity. cbn [String.append skip_space].
    change (is_json_space ",") with false. cbv iota beta. rewrite decide_True by done.
    change (p y :: map p l) with (map p (y :: l)). rewrite IH; [done|done|cbn in *; lia|done].
Qed.

Lemma read_list_join l fuel r : length l <= fuel ->
  Forall (fun x => forall r, boundary r -> read (p x +:+ r) = Some (x, r)) l ->
  Forall (fun x => forall r, starts_otherwise close (p x +:+ r)) l ->
  read_list fuel read close (join "," (map p l) +:+ String close r) = Some (l, r).
Proof.
  intros Hf Hr Hs. unfold read_list. destruct l as [|x l].
  - cbn [map join String.append skip_space]. rewrite close_space. by destruct (decide (close = close)).
  - assert (exists t, join "," (map p (x :: l)) +:+ String close r = p x +:+ t) as [t Ht].
    { cbn [map]. destruct l as [|y l]; [by eexists|]. cbn [map]. rewrite join_cons by done. rewrite <- string_app_assoc. by eexists. }
    apply Forall_cons in Hs as [Hx _]. specialize (Hx t). rewrite <- Ht in Hx. rewrite (skip_otherwise _ _ Hx).
    destruct Hx as (a & s & He & _ & Hne). rewrite He. rewrite decide_False by done. rewrite <- He. by apply read_items_join.
Qed.

Lemma join_length l : Forall (fun x => 1 <= String.length (p x)) l -> length l <= String.length (join "," (map p l)).
Proof.
  induction 1 as [|x l Hx Hl IH]; [done|]. destruct l as [|y l]; [cbn; lia|]. cbn [map] in *. rewrite join_cons by done.
  rewrite !length_append. cbn [length] in *. lia.
Qed.

Lemma join_item_length l x : x ∈ l -> String.length (p x) <= String.length (join "," (map p l)).
Proof.
  induction l as [|y l IH]; [intros Hx; by apply elem_of_nil in Hx|]. intros Hx. destruct l as [|z l].
  - apply list_elem_of_singleton in Hx as ->. cbn. lia.
  - cbn [map]. rewrite join_cons, !length_append by done. apply elem_of_cons in Hx as [->|Hx]; [lia|]. apply IH in Hx. cbn [map] in Hx. lia.
Qed.
End lists.

Lemma print_nonempty v : json_ok v = true -> 1 <= String.length (print v).
Proof.
  intros Hv. pose proof (print_starts v "" "]" Hv eq_refl eq_refl) as (a & r & Ha & _).
  rewrite string_app_nil_r in Ha. rewrite Ha. cbn. lia.
Qed.

Definition print_member (e : string * jsval) : string := quote e.1 +:+ ":" +:+ print e.2.

(** Reading what [print] writes. *)
Lemma read_value_print v : forall fuel r, json_ok v = true -> json_literals v = true -> distinct_keys v ->
  String.length (print v) < fuel -> boundary r -> read_value fuel (print v +:+ r) = Some (v, r).
Proof.
  induction v as [| |[]|n|t|l IH|l IH] using jsval_rect'; intros [|fuel] r Hok Hlit Hd Hf Hr; try lia; try done.
  - cbn [print]. destruct (number_head n Hok) as (a & s & Ha & Hna). cbn [read_value].
    pose proof (print_starts (JNum n) r "]" Hok eq_refl eq_refl) as Hs. cbn [print] in Hs. rewrite (skip_otherwise _ _ Hs).
    rewrite Ha. cbn [String.append]. rewrite Hna. change (String a (s +:+ r)) with (String a s +:+ r). rewrite <- Ha.
    rewrite number_prefix_app; [|destruct n; [apply dec_num_char|cbn in Hok; unfold dec_literal in Hok; by apply andb_true_iff in Hok as []|done]|done].
    by rewrite number_value_print.
  - cbn [print] in *. unfold quote in *. cbn [String.append read_value skip_space]. rewrite <- string_app_assoc. cbn [String.append].
    change (is_json_space dquote) with false. change (num_char dquote) with false. cbv iota beta. cbn [decide].
    rewrite !decide_False by (intros; discriminate). rewrite decide_True by done.
    cbn [String.append String.length] in Hf. rewrite length_append in Hf. cbn in Hf. pose proof (esc_length t).
    rewrite read_string_esc by lia. done.
  - cbn [print] in *. cbn [String.append String.length] in Hf. rewrite length_append in Hf. cbn [String.length] in Hf.
    cbn [json_ok json_literals] in Hok, Hlit. apply forallb_Forall' in Hok, Hlit. apply distinct_arr in Hd.
    rewrite Forall_forall in IH, Hok, Hlit, Hd.
    cbn [String.append read_value skip_space]. rewrite <- string_app_assoc. cbn [String.append].
    change (is_json_space "[") with false. change (num_char "[") with false. cbv iota beta.
    rewrite !decide_False by (intros; discriminate). rewrite decide_True by done.
    rewrite (read_list_join print (read_value fuel) "]"); try done.
    + assert (Forall (fun x => 1 <= String.length (print x)) l) as Hne by (apply Forall_forall; intros; by apply print_nonempty, Hok).
      pose proof (join_length print l Hne). lia.
    + apply Forall_forall. intros x Hx r' Hr'. apply IH; auto. pose proof (join_item_length print l x Hx). lia.
    + apply Forall_forall. intros x Hx r'. apply print_starts; [by apply Hok|done|done].
  - cbn [print] in *. change (map (fun e : string * jsval => quote e.1 +:+ ":" +:+ print e.2) l) with (map print_member l) in *.
    cbn [String.append String.length] in Hf. rewrite length_append in Hf. cbn [String.length] in Hf.
    cbn [json_ok json_literals] in Hok, Hlit. apply forallb_Forall' in Hok, Hlit. apply distinct_obj in Hd as [Hn Hd].
    rewrite Forall_forall in IH, Hok, Hlit, Hd.
    cbn [String.append read_value skip_space]. rewrite <- string_app_assoc. cbn [String.append].
    change (is_json_space "{") with false. change (num_char "{") with false. cbv iota beta.
    rewrite !decide_False by (intros; discriminate). rewrite decide_True by done.
    rewrite (read_list_join print_member (read_member fuel (read_value fuel)) "}"); try done; cbn [fmap option_fmap option_map fst snd].
    + by rewrite object_of_id.
    + assert (Forall (fun x => 1 <= String.length (print_member x)) l) as Hne.
      { apply Forall_forall. intros x _. unfold print_member, quote. cbn. lia. }
      pose proof (join_length print_member l Hne). lia.
    + apply Forall_forall. intros [k x] Hx r' Hr'. pose proof (join_item_length print_member l (k, x) Hx) as Hlen.
      set (total := String.length (join "," (map print_member l))) in *.
      unfold print_member, quote in Hlen |- *. cbn [fst snd String.append String.length] in *. rewrite !length_append in Hlen. cbn [String.length] in Hlen.
      rewrite <- !string_app_assoc. cbn [String.append]. unfold read_member. cbn [skip_space].
      change (is_json_space dquote) with false. cbv iota beta. rewrite decide_True by done. pose proof (esc_length k).
      rewrite read_string_esc by lia. cbn [skip_space]. change (is_json_space ":") with false. cbv iota beta.
      pose proof (IH (k, x) Hx fuel r') as IHx. cbn [snd] in IHx. rewrite IHx; [done|by apply (Hok (k, x))|by apply (Hlit (k, x))|by apply (Hd (k, x))| |done]. lia.
    + apply Forall_forall. intros [k x] _ r'. unfold print_member, quote. eexists _, _. split; [reflexivity|]. split; [reflexivity|done].
Qed.

(** What [canonicalizeJson] writes has every key once. *)
Lemma writeValue_distinct v : forall s, writeValue v = Ok s -> distinct_keys (canon v).
Proof.
  induction v as [| |b|n|t|l IH|l IH] using jsval_rect'; intros s Hs; try done; cbn [writeValue] in Hs.
  - apply bind_Ok in Hs as (items & Hi%mapM_Ok & _). cbn [canon]. apply distinct_arr, Forall_forall.
    intros x (v & -> & Hv)%list_elem_of_fmap. rewrite Forall_forall in IH. apply list_elem_of_lookup in Hv as Hlk. destruct Hlk as [i Hlk].
    destruct (Forall2_lookup_l _ _ _ _ _ Hi Hlk) as (y & _ & Hy). by eapply IH.
  - unfold write_entries in Hs. destruct (adjacent_duplicate _) eqn:Ed; [done|]. apply sorted_adjacent in Ed. rewrite written_keys in Ed.
    apply bind_Ok in Hs as (body & Hb%mapM_Ok & _). cbn [canon]. apply distinct_obj. split.
    + rewrite js_sort_Permutation. assert ((map (fun e : string * jsval => (e.1, canon e.2)) l).*1 = l.*1) as ->; [|done].
      clear. induction l as [|e l IH]; [done|]. cbn. by f_equal.
    + apply Forall_forall. intros e He. rewrite elem_of_js_sort in He. apply list_elem_of_fmap in He as (f & -> & Hf). cbn [snd].
      rewrite Forall_forall in IH.
      assert ((nfc f.1, writeValue f.2) ∈ js_sort key_cmp (map (fun e : string * jsval => (nfc e.1, writeValue e.2)) l)) as Hin.
      { rewrite elem_of_js_sort. apply list_elem_of_fmap. by exists f. }
      apply list_elem_of_lookup in Hin as [i Hi]. destruct (Forall2_lookup_l _ _ _ _ _ Hb Hi) as (y & _ & Hy).
      apply bind_Ok in Hy as (t & Ht & _). cbn [snd] in Ht. by eapply IH.
Qed.

Lemma json_literals_canon v : json_literals (canon v) = json_literals v.
Proof.
  induction v as [| |b|n|t|l IH|l IH] using jsval_rect'; try done; cbn [canon json_literals]; apply eq_true_iff_eq; rewrite !forallb_Forall'.
  - rewrite Forall_map. rewrite !Forall_forall in *. split; intros H x Hx; specialize (H x Hx); by rewrite IH in *.
  - rewrite js_sort_Permutation, Forall_map. cbn [snd]. rewrite !Forall_forall in *. split; intros H x Hx; specialize (H x Hx); by rewrite IH in *.
Qed.

Lemma literals_of_json v : json_literals v = true -> literals_ok v = true.
Proof.
  induction v as [| |b|n|t|l IH|l IH] using jsval_rect'; try done; cbn [json_literals literals_ok].
  - destruct n as [z|s|]; try done. by intros [_ ?]%andb_true_iff.
  - rewrite !forallb_Forall', !Forall_forall in *. eauto.
  - rewrite !forallb_Forall', !Forall_forall in *. eauto.
Qed.

(* ------------------------------------------------------------------ *)
(** ** The fuel is enough *)

Definition shortens {A} (read : string -> option (A * string)) : Prop :=
  forall s v r, read s = Some (v, r) -> String.length r < String.length s.
Definition agree {A} (n : nat) (read read' : string -> option (A * string)) : Prop :=
  forall s, String.length s <= n -> read s = read' s.

Lemma skip_space_length s : String.length (skip_space s) <= String.length s.
Proof. induction s as [|a s IH]; cbn; [lia|]. destruct (is_json_space a); cbn; lia. Qed.

Lemma read_unit_shorter s u r : read_unit s = Some (u, r) -> String.length r < String.length s.
Proof.
  unfold read_unit. destruct s as [|a s]; [done|]. intros Hs.
  repeat (case_match; simplify_eq/=; try lia).
Qed.

Lemma read_string_shorter fuel : shortens (read_string fuel).
Proof.
  induction fuel as [|fuel IH]; intros s t r; cbn; [done|]. destruct (read_unit s) as [[[a|] r1]|] eqn:E; [|intros [= <- <-]|done].
  - destruct (read_string fuel r1) as [[t1 r2]|] eqn:E2; [|done]. intros [= <- <-]. apply IH in E2. apply read_unit_shorter in E. lia.
  - by apply read_unit_shorter in E.
Qed.

Lemma read_string_stable f : forall f', agree (Nat.pred (Nat.min f f')) (read_string f) (read_string f').
Proof.
  induction f as [|f IH]; intros [|f'] s Hs; cbn in Hs; [done|..].
  - destruct s; [done|cbn in Hs; lia].
  - destruct s; [done|cbn in Hs; lia].
  - cbn. destruct (read_unit s) as [[[a|] r]|] eqn:E; [|done..]. apply read_unit_shorter in E. rewrite (IH f'); [done|lia].
Qed.

Lemma read_items_shorter {A} (read : string -> option (A * string)) close fuel : shortens read -> shortens (read_items fuel read close).
Proof.
  intros Hr. induction fuel as [|fuel IH]; intros s l r; cbn; [done|]. destruct (read s) as [[v r1]|] eqn:E; [|done]. apply Hr in E.
  pose proof (skip_space_length r1). destruct (skip_space r1) as [|c r2]; [done|]. cbn in *. repeat case_match; intros; simplify_eq; try lia.
  apply IH in H1. lia.
Qed.

Lemma read_list_shorter {A} (read : string -> option (A * string)) close fuel : shortens read -> shortens (read_list fuel read close).
Proof.
  intros Hr s l r. unfold read_list. pose proof (skip_space_length s). destruct (skip_space s) as [|c r1]; [done|].
  case_decide; [intros [= <- <-]; cbn in *; lia|]. by apply read_items_shorter.
Qed.

Lemma read_items_stable {A} (read read' : string -> option (A * string)) close n : shortens read -> agree n read read' ->
  forall f f' s, String.length s <= n -> String.length s < f -> String.length s < f' -> read_items f read close s = read_items f' read' close s.
Proof.
  intros Hr Ha. induction f as [|f IH]; intros [|f'] s Hn Hf Hf'; [lia..|]. cbn. rewrite <- Ha by done.
  destruct (read s) as [[v r]|] eqn:E; [|done]. apply Hr in E. pose proof (skip_space_length r).
  destruct (skip_space r) as [|c r1]; [done|]. cbn in *. rewrite (IH f') by lia. done.
Qed.

Lemma read_list_stable {A} (read read' : string -> option (A * string)) close n f f' s : shortens read -> agree n read read' ->
  String.length s <= n -> String.length s < f -> String.length s < f' -> read_list f read close s = read_list f' read' close s.
Proof.
  intros Hr Ha Hn Hf Hf'. unfold read_list. destruct (skip_space s); [done|]. case_decide; [done|]. by eapply read_items_stable.
Qed.

Lemma read_member_shorter fuel read : shortens read -> shortens (read_member fuel read).
Proof.
  intros Hr s e r. unfold read_member. pose proof (skip_space_length s). destruct (skip_space s) as [|q r1]; [done|]. case_decide; [|done].
  destruct (read_string fuel r1) as [[k r2]|] eqn:E; [|done]. apply read_string_shorter in E. pose proof (skip_space_length r2).
  destruct (skip_space r2) as [|c r3]; [done|]. intros Hm. destruct (read r3) as [[v r4]|] eqn:E2.
  - apply Hr in E2. assert (r4 = r) as -> by (repeat (case_match; simplify_eq/=; try done)). cbn in *. lia.
  - repeat (case_match; simplify_eq/=; try done).
Qed.

Lemma read_member_stable read read' f f' n : agree n read read' -> n < f -> n < f' -> shortens read ->
  agree n (read_member f read) (read_member f' read').
Proof.
  intros Ha Hf Hf' Hr s Hs. unfold read_member. pose proof (skip_space_length s). destruct (skip_space s) as [|q r1]; [done|]. case_decide; [|done].
  cbn in *. rewrite (read_string_stable f f') by lia. destruct (read_string f' r1) as [[k r2]|] eqn:E; [|done].
  apply read_string_shorter in E. pose proof (skip_space_length r2). destruct (skip_space r2) as [|c r3]; [done|]. cbn in *.
  rewrite (Ha r3) by lia. done.
Qed.

Lemma number_prefix_length s : String.length (number_prefix s).2 <= String.length s.
Proof. induction s as [|a s IH]; cbn; [lia|]. destruct (num_char a); [|cbn; lia]. destruct (number_prefix s). cbn in *. lia. Qed.

Lemma strip_prefix_length p : forall s r, strip_prefix p s = Some r -> String.length r + String.length p = String.length s.
Proof.
  induction p as [|a p IH]; intros s r; cbn; [intros [= ->]; lia|]. destruct s as [|b s]; [done|]. case_decide; [|done].
  intros H1%IH. cbn. lia.
Qed.

Lemma read_value_shorter fuel : shortens (read_value fuel).
Proof.
  induction fuel as [|fuel IH]; intros s v r; cbn [read_value]; [done|]. pose proof (skip_space_length s). destruct (skip_space s) as [|a s1] eqn:Es; [done|].
  cbn [String.length] in H. destruct (num_char a) eqn:En.
  - pose proof (number_prefix_length s1). cbn [number_prefix]. rewrite En. destruct (number_prefix s1) as [t r1]. cbn [snd] in *. destruct (number_value _); [|done]. intros [= <- <-]. lia.
  - intros Hv. repeat case_decide; try done.
    1-3: apply fmap_Some in Hv as (r1 & Hr%strip_prefix_length & [= -> ->]); cbn [String.length] in Hr; lia.
    + apply fmap_Some in Hv as ([t r1] & Hr%read_string_shorter & [= -> ->]). cbn [snd]. lia.
    + apply fmap_Some in Hv as ([l r1] & Hr%read_list_shorter & [= -> ->]); [|exact IH]. cbn [snd]. lia.
    + apply fmap_Some in Hv as ([l r1] & Hr%read_list_shorter & [= -> ->]); [|by apply read_member_shorter]. cbn [snd]. lia.
Qed.

Lemma read_value_stable f : forall f', agree (Nat.pred (Nat.min f f')) (read_value f) (read_value f').
Proof.
  induction f as [|f IH]; intros [|f'] s Hs; cbn in Hs; [done|..].
  - destruct s; [done|cbn in Hs; lia].
  - destruct s; [done|cbn in Hs; lia].
  - cbn [read_value]. pose proof (skip_space_length s) as Hl. destruct (skip_space s) as [|a s1]; [done|]. cbn in Hl.
    assert (Ha : agree (Nat.pred (Nat.min f f')) (read_value f) (read_value f')) by apply IH.
    assert (Hs1 : String.length s1 <= Nat.pred (Nat.min f f')) by lia.
    rewrite (read_string_stable f f' s1 Hs1).
    rewrite (read_list_stable (read_value f) (read_value f') "]" (Nat.pred (Nat.min f f')) f f' s1); [|apply read_value_shorter|done|lia..].
    rewrite (read_list_stable (read_member f (read_value f)) (read_member f' (read_value f')) "}" (Nat.pred (Nat.min f f')) f f' s1);
      [done|apply read_member_shorter, read_value_shorter|apply read_member_stable; [done|lia..|apply read_value_shorter]|lia..].
Qed.

(* ------------------------------------------------------------------ *)
(** ** Properties *)

(** C38. Reading inverts writing. The text [canonicalizeJson] writes, with any
    white space after it, is read back as the value with its object fields in
    key order; and the fuel of the reader is enough for every text, since more
    of it changes nothing. *)
Theorem parse_canonical v text space : json_literals v = true -> canonicalizeJson v = Ok text ->
  skip_space space = "" -> JSON_parse (text +:+ space) = Some (canon v) /\
  forall s fuel, String.length s < fuel -> read_value fuel s = read_value (S (String.length s)) s.
Proof.
  intros Hl Hw Hs. split; [|intros s fuel Hf; apply read_value_stable; lia].
  destruct (writeValue_print v text (literals_of_json v Hl) Hw) as [-> Hok]. unfold JSON_parse.
  rewrite read_value_print; [by rewrite decide_True|done|by rewrite json_literals_canon|by eapply writeValue_distinct| |].
  - rewrite length_append. lia.
  - destruct space as [|a space]; [done|]. cbn [skip_space] in Hs. destruct (is_json_space a) eqn:Ea; [|discriminate Hs].
    revert Ea. destruct a as [[] [] [] [] [] [] [] []]; vm_compute; congruence.
Qed.

(** The readers of committed artifacts: the text and a line feed. *)
Definition line_feed : string := String (ascii_of_nat 10) "".

Lemma parse_written v text : json_literals v = true -> canonicalizeJson v = Ok text -> JSON_parse (text +:+ line_feed) = Some (canon v).
Proof.
  intros Hl Hw. destruct (writeValue_print v text (literals_of_json v Hl) Hw) as [-> Hok]. unfold JSON_parse.
  rewrite read_value_print; [done|done|by rewrite json_literals_canon|by eapply writeValue_distinct| |reflexivity].
  rewrite length_append. lia.
Qed.

Lemma parse_text v text : json_literals v = true -> canonicalizeJson v = Ok text -> JSON_parse text = Some (canon v).
Proof.
  intros Hl Hw. destruct (writeValue_print v text (literals_of_json v Hl) Hw) as [-> Hok]. unfold JSON_parse.
  rewrite <- (string_app_nil_r (print (canon v))) at 2.
  rewrite read_value_print; [done|done|by rewrite json_literals_canon|by eapply writeValue_distinct|lia|exact I].
Qed.

(** Text that is written is one line. *)
Lemma esc_no_line_feed t : no_char (ascii_of_nat 10) (esc t) = true.
Proof.
  induction t as [|a t IH]; [done|]. cbn [esc]. rewrite no_char_app, IH, andb_true_r.
  destruct a as [[] [] [] [] [] [] [] []]; vm_compute; reflexivity.
Qed.

Lemma quote_no_line_feed t : no_char (ascii_of_nat 10) (quote t) = true.
Proof. unfold quote. rewrite no_char_cons. split; [done|]. by rewrite no_char_app, esc_no_line_feed. Qed.

Lemma print_no_line_feed v : json_ok v = true -> no_char (ascii_of_nat 10) (print v) = true.
Proof.
  induction v as [| |[]|n|t|l IH|l IH] using jsval_rect'; try done; intros Hok.
  - cbn [print]. assert (str_forallb num_char (print_number n) = true) as Hn.
    { destruct n as [z|s|]; cbn in *; [apply dec_num_char|by apply andb_true_iff in Hok as []|done]. }
    eapply str_forallb_impl; [|exact Hn]. refine (all_ascii_impl _ _ _). vm_compute. reflexivity.
  - cbn [print]. apply quote_no_line_feed.
  - cbn [print json_ok] in *. apply forallb_Forall' in Hok. rewrite !no_char_app, (no_char_join _ "," (map print l)); [done..|].
    rewrite Forall_map. rewrite Forall_forall in *. auto.
  - cbn [print json_ok] in *. apply forallb_Forall' in Hok.
    rewrite !no_char_app, (no_char_join _ "," (map (fun e : string * jsval => quote e.1 +:+ ":" +:+ print e.2) l)); [done..|].
    rewrite Forall_map. rewrite Forall_forall in *. intros e He. rewrite !no_char_app, quote_no_line_feed, IH; auto.
Qed.

Lemma text_no_line_feed v text : json_literals v = true -> canonicalizeJson v = Ok text -> no_char (ascii_of_nat 10) text = true.
Proof.
  intros Hl Hw. destruct (writeValue_print v text (literals_of_json v Hl) Hw) as [-> Hok]. by apply print_no_line_feed.
Qed.

Lemma parse_canonical_witness :
  JSON_parse ("{}" +:+ line_feed) = Some (JObj []) /\
  read_value 9 "{}" = read_value 3 "{}".
Proof.
  destruct (parse_canonical (JObj []) "{}" line_feed eq_refl eq_refl eq_refl) as [Hp Hf]. split; [exact Hp|].
  apply (Hf "{}" 9). cbn. lia.
Defined.
