(* ===== verification/Schema.v ===== *)
(** * Record schemas

    The schema combinators of [packages/core/src/schema/common.ts], the schemas
    of ledger operations, edges and events ([operation.ts], [edge.ts],
    [event.ts]), [validateSchema] of [registry.ts] on them, and the protocol
    versions of [protocol.ts] and [version.ts]; the records of [runtime.ts] and
    the operation record of [operation.ts]. A schema is the boolean function
    the validator compiles it to; its messages are dropped. The [date-time]
    format is the validator's and stays a parameter ([Lease.DateTime]). *)

From S2P Require Import Prelude Regex Json Lease JsonText.

Create HintDb schema.

(** ** Combinators *)

Definition schema : Type := jsval -> bool.

Definition is_undefined (v : jsval) : bool := match v with JUndefined => true | _ => false end.

Definition TString (p : string -> bool) : schema := fun v => match v with JStr s => p s | _ => false end.
Definition TPattern (r : re) : schema := TString (re_match r).
Definition TLiteral (s : string) : schema := TString (fun t => bool_decide (t = s)).
Definition enumerated (values : list string) : schema := TString (fun s => mem s values).
Definition TInteger (minimum : Z) : schema := fun v => match v with JNum (NInt z) => (minimum <=? z)%Z | _ => false end.
Definition TObject : schema := fun v => match v with JObj _ => true | _ => false end.

Definition TBoolean : schema := fun v => match v with JBool _ => true | _ => false end.
Definition TNonEmpty : schema := TString (fun s => negb (bool_decide (s = ""))).
Definition TArray (c : schema) : schema := fun v => match v with JArr l => forallb c l | _ => false end.
Definition minItems_1 (c : schema) : schema := fun v => match v with JArr [] => false | _ => c v end.

#[export] Instance number_eq_dec : EqDecision number.
Proof. solve_decision. Defined.

(** An array of distinct strings, numbers and booleans. *)
Definition scalar_eq (v w : jsval) : bool :=
  match v, w with
  | JStr s, JStr t => bool_decide (s = t)
  | JBool b, JBool c => bool_decide (b = c)
  | JNum m, JNum n => bool_decide (m = n)
  | _, _ => false
  end.
Definition is_scalar (v : jsval) : bool := scalar_eq v v.
Fixpoint distinct_scalars (l : list jsval) : bool :=
  match l with [] => true | v :: l' => is_scalar v && negb (existsb (scalar_eq v) l') && distinct_scalars l' end.
Definition TUniqueScalars : schema := fun v => match v with JArr l => distinct_scalars l | _ => false end.

(** [Type.Record]: the values under the keys without a line terminator. *)
Definition one_line (key : string) : bool := no_char (ascii_of_nat 10) key && no_char (ascii_of_nat 13) key.
Definition TRecord (c : schema) : schema := fun v =>
  match v with JObj fields => forallb (fun e => negb (one_line e.1) || c e.2) fields | _ => false end.

(** An array of distinct strings. *)
Definition TUniqueStrings (p : string -> bool) : schema := fun v =>
  match v with
  | JArr l => forallb (TString p) l && negb (has_duplicates (omap (fun v => match v with JStr s => Some s | _ => None end) l))
  | _ => false
  end.

(** An object with all of [required], some of [optional] and nothing else. *)
Definition strictObject (required optional : list (string * schema)) : schema := fun v =>
  match v with
  | JObj fields =>
      forallb (fun p => negb (is_undefined (jfield fields p.1)) && p.2 (jfield fields p.1)) required &&
      forallb (fun p => is_undefined (jfield fields p.1) || p.2 (jfield fields p.1)) optional &&
      forallb (fun e => mem e.1 (required ++ optional).*1) fields
  | _ => false
  end.

(** [Type.Number({ minimum: 0, maximum: 1 })]: the mantissa and the exponent of
    a literal decide. *)
Definition digits_value (s : string) : Z :=
  (fix go acc s := match s with
                   | EmptyString => acc
                   | String a s' => go (10 * acc + Z.of_N (code a - 48))%Z s'
                   end) 0%Z s.

Definition signed_value (s : string) : Z :=
  match s with
  | String a s' => if decide (a = "-"%char) then (- digits_value s')%Z else if decide (a = "+"%char) then digits_value s' else digits_value s
  | EmptyString => 0%Z
  end.

Definition literal_in_unit (s : string) : bool :=
  let (mantissa, exponent) :=
    match str_index "e" (str_replace_all "E" "e" s) with
    | Some i => (str_take i s, signed_value (str_drop (S i) s))
    | None => (s, 0%Z)
    end in
  let (whole, fraction) :=
    match str_index "." mantissa with
    | Some i => (str_take i mantissa, str_drop (S i) mantissa)
    | None => (mantissa, "")
    end in
  let m := signed_value (whole +:+ fraction) in
  let e := (exponent - Z.of_nat (String.length fraction))%Z in
  (0 <=? m)%Z && if (0 <=? e)%Z then (m =? 0)%Z || (e =? 0)%Z && (m =? 1)%Z else (m <=? 10 ^ (- e))%Z.

Definition TUnit : schema := fun v =>
  match v with
  | JNum (NInt z) => (0 <=? z)%Z && (z <=? 1)%Z
  | JNum (NDec s) => literal_in_unit s
  | _ => false
  end.

(** ** The common schemas *)

Section common.
Context `{DateTime}.

(** A number without a leading zero. *)
Definition NUMERIC_PART : re := RAlt (RChr "0") (RCat (RCls (in_range "1" "9")) (RStar (RCls is_digit))).
Definition VERSION_SUFFIX : re :=
  let part := RPlus (RCls (fun a => is_alnum a || is_one_of ".-" a)) in
  RCat (ROpt (RCat (RChr "-") part)) (ROpt (RCat (RChr "+") part)).

Definition ProtocolVersionSchema : schema :=
  TPattern (RCat (RLit "1.") (RCat NUMERIC_PART (RCat (RChr ".") (RCat NUMERIC_PART VERSION_SUFFIX)))).
Definition IdentifierSchema : schema := TString identifier_ok.
Definition DigestSchema : schema := TPattern digest_regex.
Definition TimestampSchema : schema := TString is_date_time.
Definition PERSISTED_SOURCES : list string :=
  ["human"; "scanner"; "agent"; "workflow"; "tool"; "gate"; "evaluation"; "audit"; "migration"].
Definition SourceSchema : schema := enumerated PERSISTED_SOURCES.
Definition ProvenanceSchema : schema :=
  strictObject
    [("iteration_id", IdentifierSchema);
     ("actor", TString (fun s => (1 <=? String.length s)%nat && (String.length s <=? 200)%nat));
     ("timestamp", TimestampSchema)]
    [("run_id", IdentifierSchema)].
(** A dotted or dashed name of at least two words. *)
Definition EXTENSION_KEY : re :=
  let word := RCls (fun a => is_lower a || is_digit a) in
  RCat (RCls is_lower) (RCat (RStar word) (RPlus (RCat (RCls (is_one_of ".-")) (RPlus word)))).
Definition ExtensionsSchema : schema := fun v =>
  match v with JObj fields => forallb (fun e => re_match EXTENSION_KEY e.1) fields | _ => false end.
Definition persistedRecordProperties (kind : string) : list (string * schema) :=
  [("protocol_version", ProtocolVersionSchema); ("record_kind", TLiteral kind)].

(** ** Ledger operations, edges and events *)

Definition SHARD_FILE (root : string) : re :=
  RCat (RLit root) (RCat (RRep (RCls is_digit) 4) (RCat (RChr "-") (RCat (RRep (RCls is_digit) 2)
    (RCat (RChr "/") (RCat (RPlus (RCls (fun a => negb (bool_decide (a = "/"%char))))) (RLit ".jsonl")))))).

Definition baseline_ok (s : string) : bool :=
  (7 <=? String.length s)%nat && (String.length s <=? 64)%nat && re_match (RPlus (RCls is_hex_lower)) s.

Definition LedgerOperationSchema : schema :=
  strictObject
    (persistedRecordProperties "ledger_operation" ++
     [("ledger_operation_id", IdentifierSchema); ("workflow_operation_id", IdentifierSchema);
      ("attempt_id", IdentifierSchema); ("baseline_commit", TString baseline_ok);
      ("sequence", TInteger 1); ("artifact_digests", TUniqueStrings (re_match digest_regex));
      ("edge_file", TPattern (SHARD_FILE "ledger/edges/")); ("event_file", TPattern (SHARD_FILE "events/"));
      ("committed_at", TimestampSchema); ("digest", DigestSchema)])
    [("edge_file_digest", DigestSchema); ("event_file_digest", DigestSchema);
     ("required_reader_version", enumerated [PROTOCOL_1_2_VERSION; PROTOCOL_1_3_VERSION; PROTOCOL_1_4_VERSION]);
     ("extensions", ExtensionsSchema)].

Definition RELATION_TYPES : list string :=
  ["DERIVES_FROM"; "SUPERSEDES"; "GENERATED_BY"; "RESUMES"; "DECOMPOSES_TO"; "ADDRESSES"; "CONSTRAINED_BY";
   "GOVERNED_BY"; "SHAPES"; "REALIZES"; "IMPLEMENTS"; "VERIFIES"; "EVALUATES"; "EXECUTES"; "INVOKES"; "PRODUCES";
   "SUPPORTS"; "REFUTES"; "VIOLATES"; "CONTAINS"; "SPECIFIES"; "DEPENDS_ON"; "USES_CONTEXT"; "CAPTURES"; "BLOCKS";
   "REQUESTS_APPROVAL_FOR"; "RESOLVES"; "APPROVES"; "DIAGNOSED_BY"; "PROPOSES_CHANGE_TO"; "TRIGGERS"; "MAY_IMPACT"].
Definition EDGE_STATUSES : list string := ["proposed"; "accepted"; "rejected"; "superseded"].

Definition EdgeSchema : schema :=
  strictObject
    (persistedRecordProperties "edge" ++
     [("id", IdentifierSchema); ("type", enumerated RELATION_TYPES); ("source_id", IdentifierSchema);
      ("target_id", IdentifierSchema); ("status", enumerated EDGE_STATUSES); ("source", SourceSchema);
      ("provenance", ProvenanceSchema); ("confidence", TUnit); ("digest", DigestSchema)])
    [("extensions", ExtensionsSchema)].

Definition EVENT_TYPES : list string :=
  ["OperationStarted"; "PlanAccepted"; "BeforeContextCompile"; "ContextCompiled"; "BeforeToolCall"; "AfterToolCall";
   "ApprovalRequired"; "CheckpointCommitted"; "CheckpointInvalidated"; "GateCompleted"; "EvaluationCompleted";
   "FindingCreated"; "FindingAccepted"; "FindingClosed"; "FindingSuperseded"; "OperationCompleted"; "TddCycleStarted";
   "TddBaselineAccepted"; "TddTestPatchFrozen"; "TddRedAccepted"; "TddImplementationUnlocked"; "TddGreenAccepted";
   "TddRefactorAccepted"; "TddCycleCompleted"; "TddCycleInvalidated"; "RemoteConnected"; "RemoteDisconnected";
   "RemoteApprovalMaterialized"; "IntegrationAccepted"; "TaskLeaseGranted"; "TaskDispatched"; "TaskIntegrationQueued";
   "TaskCandidateValidated"; "TaskRetryScheduled"; "WaveGateCompleted"; "WaveIntegrated"; "SchedulerRecovered";
   "ApprovalDecided"; "ArtifactAvailable"].

Definition APPROVAL_DECISIONS : list string := ["approve"; "reject"; "defer"].

Definition ApprovalDecidedPayloadSchema : schema :=
  strictObject
    [("request_id", IdentifierSchema); ("approval_id", IdentifierSchema); ("decision", enumerated APPROVAL_DECISIONS);
     ("object_digest", DigestSchema); ("decision_digest", DigestSchema); ("decided_at", TimestampSchema)] [].

Definition ARTIFACT_KINDS : list string :=
  ["approval_decision"; "prd"; "design_set"; "plan"; "context_manifest"; "run_summary"; "gate_result"; "evidence";
   "evaluation"; "snapshot"; "tdd_artifact"; "finding_group"; "wave_result"; "integration_record"; "task_lease"].

Definition ArtifactAvailablePayloadSchema : schema :=
  strictObject
    [("artifact_kind", enumerated ARTIFACT_KINDS); ("record_digest", DigestSchema);
     ("summary", TString (fun s => (String.length s <=? 200)%nat))] [].

Definition EventSchema : schema :=
  strictObject
    (persistedRecordProperties "event" ++
     [("event_id", IdentifierSchema); ("event_type", enumerated EVENT_TYPES); ("project_id", IdentifierSchema);
      ("iteration_id", IdentifierSchema); ("workflow_operation_id", IdentifierSchema);
      ("ledger_operation_id", IdentifierSchema); ("sequence", TInteger 1); ("timestamp", TimestampSchema);
      ("payload", TObject)])
    [("extensions", ExtensionsSchema)].

(** ** Operation records *)

Definition OPERATION_STATES : list string :=
  ["created"; "awaiting_input"; "awaiting_approval"; "planned"; "running"; "verifying"; "repairing"; "blocked"; "completed"; "aborted"].
Definition RESUMABLE_STATES : list string :=
  ["created"; "awaiting_input"; "awaiting_approval"; "planned"; "running"; "verifying"; "repairing"].

(** [plainRecordField] *)
Definition plainRecordField (value : jsval) (field : string) : jsval :=
  match value with JObj fields => jfield fields field | _ => JUndefined end.

(** [required] of one field. *)
Definition has_field (field : string) : schema := fun v => negb (is_undefined (plainRecordField v field)).

Definition operation_properties : schema :=
  strictObject
    (persistedRecordProperties "workflow_operation" ++
     [("workflow_operation_id", IdentifierSchema); ("attempt_id", IdentifierSchema); ("iteration_id", IdentifierSchema);
      ("state", enumerated OPERATION_STATES); ("updated_at", TimestampSchema)])
    [("resume_state", enumerated RESUMABLE_STATES); ("extensions", ExtensionsSchema)].
(** A blocked operation, and no other, has the state to resume in. *)
Definition WorkflowOperationSchema : schema := fun v =>
  operation_properties v &&
  if TLiteral "blocked" (plainRecordField v "state") then has_field "resume_state" v else negb (has_field "resume_state" v).

(** ** Runtime records *)

Definition RUN_OUTCOMES : list string := ["success"; "correct_block"; "clarification_required"; "handoff"; "partial"; "failed"].
Definition TERMINATION_REASONS : list string :=
  ["completion"; "gate_failure"; "policy_denial"; "budget_ceiling"; "repeat_detection"; "timeout"; "adapter_failure";
   "user_cancellation"; "manual_stop"; "process_interruption"].

Definition runRecordBase : list (string * schema) :=
  [("protocol_version", ProtocolVersionSchema); ("run_id", IdentifierSchema); ("task_id", IdentifierSchema);
   ("workflow_operation_id", IdentifierSchema); ("attempt_id", IdentifierSchema); ("sequence", TInteger 1);
   ("timestamp", TimestampSchema)].
Definition optional_extensions : list (string * schema) := [("extensions", ExtensionsSchema)].

Definition RunStartedSchema : schema :=
  strictObject (runRecordBase ++ [("record_kind", TLiteral "run_started"); ("context_bundle_id", IdentifierSchema)]) optional_extensions.
Definition RunProgressSchema : schema :=
  strictObject
    (runRecordBase ++ [("record_kind", TLiteral "run_progress"); ("step", TInteger 0);
       ("message", TString (fun s => (1 <=? String.length s)%nat && (String.length s <=? 2000)%nat))])
    (optional_extensions ++ [("evidence_id", IdentifierSchema)]).
Definition RunTerminatedSchema : schema :=
  strictObject
    (runRecordBase ++ [("record_kind", TLiteral "run_terminated"); ("outcome", enumerated RUN_OUTCOMES);
       ("termination_reason", enumerated TERMINATION_REASONS)]) optional_extensions.
Definition RunInterruptedSchema : schema :=
  strictObject
    (runRecordBase ++ [("record_kind", TLiteral "run_interrupted"); ("outcome", enumerated ["partial"; "failed"; "handoff"]);
       ("termination_reason", TLiteral "process_interruption"); ("partial_evidence_ids", TUniqueStrings identifier_ok)])
    optional_extensions.

Definition ContextBundleRecordSchema : schema :=
  strictObject
    (persistedRecordProperties "context_bundle" ++
     [("context_bundle_id", IdentifierSchema); ("task_id", IdentifierSchema);
      ("source_digests", minItems_1 (TUniqueStrings (re_match digest_regex))); ("digest", DigestSchema); ("stale", TBoolean)])
    optional_extensions.

Definition GitCommitSchema : schema :=
  TString (fun s => (7 <=? String.length s)%nat && (String.length s <=? 40)%nat && re_match (RPlus (RCls is_hex_lower)) s).
Definition DigestSetSchema : schema := minItems_1 (TUniqueStrings (re_match digest_regex)).
Definition StringSetSchema : schema := TUniqueStrings (fun s => negb (bool_decide (s = ""))).

Definition ExecutionAuthorizationRecordSchema : schema :=
  strictObject
    (persistedRecordProperties "execution_authorization" ++
     [("authorization_id", IdentifierSchema); ("iteration_id", IdentifierSchema); ("plan_digest", DigestSchema);
      ("task_digests", DigestSetSchema); ("impact_set_digest", DigestSchema); ("impact_coverage_digest", DigestSchema);
      ("context_bundle_digests", DigestSetSchema); ("grant_spec_digests", DigestSetSchema); ("policy_digest", DigestSchema);
      ("baseline_commit", GitCommitSchema); ("effective_risk", enumerated ["low"; "medium"; "high"; "critical"]);
      ("approval_digest", DigestSchema); ("digest", DigestSchema)])
    ([("adapter_profile_digest", DigestSchema); ("design_set_digest", DigestSchema)] ++ optional_extensions).

Definition GrantedToolSchema : schema :=
  strictObject [("name", TNonEmpty)] [("parameter_bounds", TRecord TUniqueScalars)].

Definition CapabilityGrantSpecSchema : schema :=
  strictObject
    [("grant_id", IdentifierSchema); ("task_id", IdentifierSchema); ("issued_by", TLiteral "harness");
     ("capabilities", StringSetSchema); ("read_paths", StringSetSchema); ("write_paths", StringSetSchema);
     ("state_fields", StringSetSchema); ("tools", TArray GrantedToolSchema); ("phase", TNonEmpty);
     ("budget", strictObject [("steps", TInteger 0); ("tokens", TInteger 0)] []);
     ("approval_digests", TUniqueStrings (re_match digest_regex)); ("effective_policy_digest", DigestSchema);
     ("plan_digest", DigestSchema); ("context_bundle_digest", DigestSchema); ("baseline_commit", GitCommitSchema);
     ("spec_digest", DigestSchema)]
    [("adapter_profile_digest", DigestSchema)].
Definition CapabilityGrantRecordSchema : schema :=
  strictObject
    (persistedRecordProperties "capability_grant" ++
     [("grant_record_id", IdentifierSchema); ("iteration_id", IdentifierSchema); ("spec", CapabilityGrantSpecSchema);
      ("authorization_digest", DigestSchema); ("issued_at", TimestampSchema); ("digest", DigestSchema)])
    optional_extensions.

Definition AssertionVerdictSchema : schema :=
  strictObject
    [("assertion_id", IdentifierSchema); ("passed", TBoolean); ("test_ids", minItems_1 (TUniqueStrings identifier_ok));
     ("evidence_ids", minItems_1 (TUniqueStrings identifier_ok))] [].
Definition TaskVerdictRecordSchema : schema :=
  strictObject
    (persistedRecordProperties "task_verdict" ++
     [("verdict_id", IdentifierSchema); ("iteration_id", IdentifierSchema); ("task_id", IdentifierSchema);
      ("run_ids", minItems_1 (TUniqueStrings identifier_ok)); ("verdict", enumerated ["passed"; "failed"; "blocked"]);
      ("assertion_verdicts", minItems_1 (TArray AssertionVerdictSchema)); ("gate_evidence_ids", TUniqueStrings identifier_ok);
      ("evaluation_evidence_ids", TUniqueStrings identifier_ok); ("created_at", TimestampSchema); ("digest", DigestSchema)])
    optional_extensions.

Definition CheckpointRecordSchema : schema :=
  strictObject
    (persistedRecordProperties "checkpoint" ++
     [("checkpoint_id", IdentifierSchema); ("workflow_operation_id", IdentifierSchema); ("attempt_id", IdentifierSchema);
      ("phase", TNonEmpty); ("state_digest", DigestSchema); ("timestamp", TimestampSchema)])
    optional_extensions.

Definition EvidenceRecordSchema : schema :=
  strictObject
    (persistedRecordProperties "evidence" ++
     [("evidence_id", IdentifierSchema); ("evidence_type", TNonEmpty); ("subject_id", IdentifierSchema);
      ("digest", DigestSchema); ("provisional", TBoolean); ("created_at", TimestampSchema)])
    optional_extensions.

Definition approval_request_properties : schema :=
  strictObject
    (persistedRecordProperties "approval_request" ++
     [("request_id", IdentifierSchema); ("workflow_operation_id", IdentifierSchema); ("object_id", IdentifierSchema);
      ("object_type", TNonEmpty); ("object_digest", DigestSchema); ("baseline_digest", DigestSchema);
      ("policy_digest", DigestSchema); ("preview_digest", DigestSchema); ("impact_path", TArray IdentifierSchema);
      ("risk", enumerated ["low"; "medium"; "high"; "critical"]); ("reason", TNonEmpty);
      ("allowed_decisions", minItems_1 (TUniqueStrings (fun s => mem s APPROVAL_DECISIONS)));
      ("created_at", TimestampSchema); ("resume_phase", TNonEmpty)])
    ([("requester_principal_id", IdentifierSchema); ("requester_principal_snapshot_digest", DigestSchema)] ++ optional_extensions).
(** The requester's principal and its snapshot come together. *)
Definition ApprovalRequestRecordSchema : schema := fun v =>
  approval_request_properties v &&
  bool_decide (has_field "requester_principal_id" v = has_field "requester_principal_snapshot_digest" v).

Definition ApprovalDecisionRecordSchema : schema :=
  strictObject
    (persistedRecordProperties "approval_decision" ++
     [("approval_id", IdentifierSchema); ("request_id", IdentifierSchema); ("actor", TNonEmpty);
      ("decision", enumerated APPROVAL_DECISIONS); ("object_digest", DigestSchema); ("decided_at", TimestampSchema)])
    optional_extensions.

Definition RUNTIME_SCHEMAS : list schema :=
  [RunStartedSchema; RunProgressSchema; RunTerminatedSchema; RunInterruptedSchema; ContextBundleRecordSchema;
   ExecutionAuthorizationRecordSchema; CapabilityGrantRecordSchema; TaskVerdictRecordSchema; CheckpointRecordSchema;
   EvidenceRecordSchema; ApprovalRequestRecordSchema; ApprovalDecisionRecordSchema].
Definition RuntimeSchema : schema := fun v => existsb (fun c : schema => c v) RUNTIME_SCHEMAS.

(** ** [validateSchema] *)

Definition SEMVER_CORE : re :=
  RCat NUMERIC_PART (RCat (RChr ".") (RCat NUMERIC_PART (RCat (RChr ".") NUMERIC_PART))).

Definition isProtocolCompatible (version : string) : bool :=
  re_match (RCat SEMVER_CORE VERSION_SUFFIX) version &&
  match split_on "." version with major :: _ => (digits_value major =? 1)%Z | [] => false end.

(** A payload that is authoritative: the event is written at protocol 1.4.0 and
    its payload is exactly the bound fields. *)
Definition validateBoundEvent (payload : schema) (value : jsval) : bool :=
  TLiteral PROTOCOL_1_4_VERSION (plainRecordField value "protocol_version") &&
  payload (plainRecordField value "payload").

Definition validateApprovalDecidedEvent : schema := validateBoundEvent ApprovalDecidedPayloadSchema.
Definition validateArtifactAvailableEvent : schema := validateBoundEvent ArtifactAvailablePayloadSchema.

Inductive SchemaKey : Type := edge | event | ledger_operation | workflow_operation | runtime.

Definition SCHEMA_REGISTRY (key : SchemaKey) : schema :=
  match key with
  | edge => EdgeSchema
  | event => EventSchema
  | ledger_operation => LedgerOperationSchema
  | workflow_operation => WorkflowOperationSchema
  | runtime => RuntimeSchema
  end.

Definition validateSchema (key : SchemaKey) (value : jsval) : bool :=
  SCHEMA_REGISTRY key value &&
  TString isProtocolCompatible (plainRecordField value "protocol_version") &&
  match key, plainRecordField value "event_type" with
  | event, JStr t =>
      if decide (t = "ApprovalDecided") then validateApprovalDecidedEvent value
      else if decide (t = "ArtifactAvailable") then validateArtifactAvailableEvent value
      else true
  | _, _ => true
  end.
End common.

(** ** Protocol versions *)

Definition parseProtocolVersion (version : string) : option (Z * Z * Z) :=
  if re_match SEMVER_CORE version then
    match split_on "." version with
    | [major; minor; patch] => Some (digits_value major, digits_value minor, digits_value patch)
    | _ => None
    end
  else None.

Inductive protocol_error : Type := protocol_upgrade_required.

Definition compareProtocolVersions (left right : string) : result protocol_error Z :=
  match parseProtocolVersion left, parseProtocolVersion right with
  | Some (a, b, c), Some (a', b', c') =>
      let diff x y := if (x =? y)%Z then 0%Z else if (x <? y)%Z then (-1)%Z else 1%Z in
      Ok (if (a =? a')%Z then if (b =? b')%Z then diff c c' else diff b b' else diff a a')
  | _, _ => Err protocol_upgrade_required
  end.

Definition assertProtocolReaderCanProject (readerVersion recordVersion : string) (authoritative : bool) : result protocol_error unit :=
  if negb authoritative then Ok ()
  else
    c ← compareProtocolVersions recordVersion readerVersion;
    reject_if (0 <? c)%Z protocol_upgrade_required.

(* ------------------------------------------------------------------ *)
(** ** Schemas do not see the order of fields *)

Definition stable (c : schema) : Prop := forall v, distinct_keys v -> c (canon v) = c v.

Lemma canon_keys (l : list (string * jsval)) :
  (js_sort key_cmp (map (fun e : string * jsval => (e.1, canon e.2)) l)).*1 ≡ₚ l.*1.
Proof. rewrite js_sort_Permutation. induction l as [|e l IH]; [done|]. cbn. by f_equiv. Qed.

Lemma jfield_canon l k : NoDup l.*1 ->
  jfield (js_sort key_cmp (map (fun e : string * jsval => (e.1, canon e.2)) l)) k = canon (jfield l k).
Proof.
  intros Hn. unfold jfield. destruct (omap_get l k) as [v|] eqn:E.
  - cbn [default]. erewrite elem_omap_get; [reflexivity|by rewrite canon_keys|]. rewrite elem_of_js_sort.
    apply omap_get_elem in E. apply list_elem_of_fmap. by exists (k, v).
  - assert (omap_get (js_sort key_cmp (map (fun e : string * jsval => (e.1, canon e.2)) l)) k = None) as ->; [|done].
    apply omap_get_None. rewrite canon_keys. by apply omap_get_None.
Qed.

Lemma plainRecordField_canon v k : distinct_keys v -> plainRecordField (canon v) k = canon (plainRecordField v k).
Proof. intros Hd. destruct v; try done. apply distinct_obj in Hd as [Hn _]. by apply jfield_canon. Qed.

Lemma distinct_field v k : distinct_keys v -> distinct_keys (plainRecordField v k).
Proof.
  intros Hd. destruct v as [| | | | | |l]; try done. apply distinct_obj in Hd as [Hn Hd]. cbn. unfold jfield.
  destruct (omap_get l k) as [v|] eqn:E; [|done]. apply omap_get_elem in E. rewrite Forall_forall in Hd. exact (Hd _ E).
Qed.

Lemma undefined_canon v : is_undefined (canon v) = is_undefined v.
Proof. by destruct v. Qed.

Lemma TString_stable p : stable (TString p).
Proof. intros v _. by destruct v. Qed.
Lemma TInteger_stable n : stable (TInteger n).
Proof. intros v _. by destruct v. Qed.
Lemma TObject_stable : stable TObject.
Proof. intros v _. by destruct v. Qed.
Lemma TUnit_stable : stable TUnit.
Proof. intros v _. by destruct v. Qed.

Lemma TUniqueStrings_stable p : stable (TUniqueStrings p).
Proof.
  intros v _. destruct v as [| | | | |l|]; try done. cbn. f_equal.
  - induction l as [|x l IH]; [done|]. cbn. rewrite IH. by destruct x.
  - do 2 f_equal. induction l as [|x l IH]; [done|]. cbn. destruct x; cbn; rewrite IH; done.
Qed.

Lemma extensions_stable : stable ExtensionsSchema.
Proof.
  intros v _. destruct v as [| | | | | |l]; try done. cbn. apply eq_true_iff_eq. rewrite !forallb_Forall, <- !Forall_forall.
  rewrite js_sort_Permutation, Forall_map. done.
Qed.

Lemma strictObject_stable required optional :
  Forall (fun p => stable p.2) required -> Forall (fun p => stable p.2) optional -> stable (strictObject required optional).
Proof.
  intros Hr Ho v Hd. destruct v as [| | | | | |l]; try done. cbn [canon strictObject].
  pose proof (fun k => distinct_field (JObj l) k Hd) as Hf. cbn [plainRecordField] in Hf.
  apply distinct_obj in Hd as [Hn Hd]. rewrite Forall_forall in Hr, Ho.
  f_equal; [f_equal|]; apply eq_true_iff_eq; rewrite !forallb_Forall.
  - split; intros H p Hp; specialize (H p Hp); rewrite jfield_canon, undefined_canon, (Hr p Hp) in *; done || apply Hf.
  - split; intros H p Hp; specialize (H p Hp); rewrite jfield_canon, undefined_canon, (Ho p Hp) in *; done || apply Hf.
  - rewrite <- !Forall_forall. rewrite js_sort_Permutation, Forall_map. done.
Qed.

#[export] Hint Resolve TString_stable TInteger_stable TObject_stable TUnit_stable TUniqueStrings_stable extensions_stable
  strictObject_stable : schema.
#[export] Hint Extern 2 (stable (TPattern _)) => apply TString_stable : schema.
#[export] Hint Extern 2 (stable (TLiteral _)) => apply TString_stable : schema.
#[export] Hint Extern 2 (stable (enumerated _)) => apply TString_stable : schema.
#[export] Hint Extern 1 (Forall _ (_ :: _)) => constructor : schema.
#[export] Hint Extern 1 (Forall _ []) => constructor : schema.

Lemma TBoolean_stable : stable TBoolean.
Proof. intros v _. by destruct v. Qed.

Lemma TArray_stable c : stable c -> stable (TArray c).
Proof.
  intros Hc v Hd. destruct v as [| | | | |l|]; try done. apply distinct_arr in Hd. cbn.
  induction Hd as [|x l Hx _ IH]; [done|]. cbn. by rewrite IH, (Hc x Hx).
Qed.

Lemma minItems_stable c : stable c -> stable (minItems_1 c).
Proof. intros Hc v Hd. pose proof (Hc v Hd) as Hv. by destruct v as [| | | | |[|x l]|]. Qed.

Lemma scalar_canon v w : scalar_eq (canon v) w = scalar_eq v w /\ scalar_eq w (canon v) = scalar_eq w v.
Proof. by destruct v, w. Qed.

Lemma TUniqueScalars_stable : stable TUniqueScalars.
Proof.
  intros v _. destruct v as [| | | | |l|]; try done. cbn. induction l as [|x l IH]; [done|]. cbn. rewrite IH. do 2 f_equal.
  - by destruct x.
  - f_equal. clear IH. induction l as [|y l IH]; [done|]. cbn. rewrite IH. f_equal.
    rewrite (proj1 (scalar_canon x _)). apply (scalar_canon y x).
Qed.

Lemma TRecord_stable c : stable c -> stable (TRecord c).
Proof.
  intros Hc v Hd. destruct v as [| | | | | |l]; try done. apply distinct_obj in Hd as [_ Hd]. cbn.
  apply eq_true_iff_eq. rewrite !forallb_Forall, <- !Forall_forall. rewrite js_sort_Permutation, Forall_map.
  rewrite !Forall_forall in *. cbn. split; intros H e He; specialize (H e He); specialize (Hd e He); cbn in *; by rewrite (Hc _ Hd) in *.
Qed.

Lemma has_field_stable k : stable (has_field k).
Proof. intros v Hd. unfold has_field. by rewrite plainRecordField_canon, undefined_canon. Qed.

Lemma field_stable c k : stable c -> stable (fun v => c (plainRecordField v k)).
Proof. intros Hc v Hd. cbn. rewrite plainRecordField_canon by done. apply Hc. by apply distinct_field. Qed.

#[export] Hint Resolve TBoolean_stable TArray_stable minItems_stable TUniqueScalars_stable TRecord_stable has_field_stable : schema.
#[export] Hint Extern 2 (stable TNonEmpty) => apply TString_stable : schema.
#[export] Hint Extern 2 (stable IdentifierSchema) => apply TString_stable : schema.
#[export] Hint Extern 2 (stable TimestampSchema) => apply TString_stable : schema.
#[export] Hint Extern 2 (stable DigestSchema) => apply TString_stable : schema.
#[export] Hint Extern 2 (stable GitCommitSchema) => apply TString_stable : schema.

(** A schema built of stable ones. *)
Ltac stable_schema :=
  repeat match goal with
  | |- stable (strictObject _ _) => apply strictObject_stable
  | |- Forall _ (_ ++ _) => apply Forall_app; split
  | |- Forall _ (_ :: _) => apply Forall_cons; split; cbn [snd]
  | |- Forall _ [] => apply Forall_nil_2
  | |- stable (TArray _) => apply TArray_stable
  | |- stable (minItems_1 _) => apply minItems_stable
  | |- stable (TRecord _) => apply TRecord_stable
  | |- stable _ => solve [eauto with schema]
  | |- Forall _ ?l => first [progress unfold l | let h := get_head l in progress unfold h]
  | |- stable ?c => first [progress unfold c | let h := get_head c in progress unfold h]
  end
with get_head t := match t with ?f _ => get_head f | _ => t end.

Lemma edge_stable `{DateTime} : stable EdgeSchema.
Proof. stable_schema. Qed.
Lemma event_stable `{DateTime} : stable EventSchema.
Proof. stable_schema. Qed.
Lemma ledger_operation_stable `{DateTime} : stable LedgerOperationSchema.
Proof. stable_schema. Qed.

Lemma workflow_operation_stable `{DateTime} : stable WorkflowOperationSchema.
Proof.
  intros v Hd. unfold WorkflowOperationSchema. assert (stable operation_properties) as Hp by stable_schema. rewrite (Hp v Hd).
  rewrite !has_field_stable by done. rewrite (field_stable (TLiteral "blocked") "state"); [done|apply TString_stable|done].
Qed.

Lemma approval_request_stable `{DateTime} : stable ApprovalRequestRecordSchema.
Proof.
  intros v Hd. unfold ApprovalRequestRecordSchema. assert (stable approval_request_properties) as Hp by stable_schema. rewrite (Hp v Hd).
  by rewrite !has_field_stable.
Qed.

Lemma runtime_stable `{DateTime} : stable RuntimeSchema.
Proof.
  assert (Forall stable RUNTIME_SCHEMAS) as Hs.
  { unfold RUNTIME_SCHEMAS. repeat (apply Forall_cons; split); try apply Forall_nil_2; try apply approval_request_stable; stable_schema. }
  intros v Hd. unfold RuntimeSchema. induction Hs as [|c l Hc _ IH]; [done|]. cbn. by rewrite IH, (Hc v Hd).
Qed.

Lemma registry_stable `{DateTime} key : stable (SCHEMA_REGISTRY key).
Proof.
  destruct key; [apply edge_stable|apply event_stable|apply ledger_operation_stable|apply workflow_operation_stable|apply runtime_stable].
Qed.

Lemma bound_stable `{DateTime} payload : stable payload -> stable (validateBoundEvent payload).
Proof.
  intros Hp v Hd. unfold validateBoundEvent. rewrite !plainRecordField_canon by done.
  rewrite (Hp (plainRecordField v "payload")) by by apply distinct_field. f_equal. by destruct (plainRecordField v "protocol_version").
Qed.

Lemma validateSchema_stable `{DateTime} key : stable (validateSchema key).
Proof.
  intros v Hd. unfold validateSchema. rewrite (registry_stable key v Hd), !plainRecordField_canon by done.
  assert (validateApprovalDecidedEvent (canon v) = validateApprovalDecidedEvent v) as Ha.
  { apply bound_stable; [|done]. unfold ApprovalDecidedPayloadSchema. eauto 10 with schema. }
  assert (validateArtifactAvailableEvent (canon v) = validateArtifactAvailableEvent v) as Hb.
  { apply bound_stable; [|done]. unfold ArtifactAvailablePayloadSchema. eauto 10 with schema. }
  rewrite Ha, Hb. f_equal; [f_equal; by destruct (plainRecordField v "protocol_version")|].
  destruct key; try done. by destruct (plainRecordField v "event_type").
Qed.

Lemma schema_record `{DateTime} key v : validateSchema key v = true -> exists fields, v = JObj fields.
Proof.
  unfold validateSchema. intros [[Hs _]%andb_true_iff _]%andb_true_iff. destruct v as [| | | | | |fields]; [by destruct key..|by exists fields].
Qed.

Lemma required_field required optional v key c : strictObject required optional v = true -> (key, c) ∈ required -> c (plainRecordField v key) = true.
Proof.
  destruct v as [| | | | | |fields]; try done. unfold strictObject. intros [[Hr _]%andb_true_iff _]%andb_true_iff Hin.
  rewrite forallb_Forall in Hr. specialize (Hr _ Hin). by apply andb_true_iff in Hr as [_ ?].
Qed.

Lemma TString_Some p v : TString p v = true -> exists s, v = JStr s /\ p s = true.
Proof. destruct v; try done. intros Hp. eauto. Qed.

Lemma RLit_prefix w r s : re_match (RCat (RLit w) r) s = true -> exists t, s = w +:+ t.
Proof.
  rewrite re_match_spec. intros (s1 & s2 & -> & Hw & _)%re_cat_inv. exists s2. f_equal. revert s1 Hw.
  induction w as [|a w IH]; intros s1 Hw; cbn [RLit] in Hw; [by inversion Hw|]. apply re_cat_inv in Hw as (u & t & -> & Ha & Ht).
  apply IH in Ht as ->. inversion Ha as [|c b Hc| | | | |]; subst. apply bool_decide_eq_true in Hc as ->. done.
Qed.
