(* ===== verification/Transaction.v ===== *)
(** * Ledger paths, manifests and the validation of a transaction

    [packages/core/src/ledger/layout.ts] and [transaction.ts]. A ledger-relative
    path becomes the list of its segments; the directory above [.harness] and
    the separator of the host do not occur. A record is a JSON object as in
    [Json]; the manifest of an operation is the list of its fields. *)

From stdpp Require Import gmap.
From S2P Require Import Prelude Regex Json Lease JsonText Schema.

(** ** Errors *)

Inductive ledger_error : Type :=
| ledger_path_error
| canonical_json_error (e : canonical_error)
| unsupported_atomicity
| validation_failed
| baseline_mismatch
| ledger_conflict
| sequence_error
| corruption
| protocol_too_new
| lock_unavailable
| io_error.
#[export] Instance ledger_error_eq_dec : EqDecision ledger_error.
Proof. solve_decision. Defined.

Abbreviation ledgering A := (result ledger_error A).

(** ** Paths *)

Abbreviation path := (list string).

(** The patterns of operation ids and of shard months. *)
Definition OPERATION_ID_PATTERN : re :=
  RCat (RCls is_lower) (RCat (RStar (RCls (fun a => is_lower a || is_digit a || bool_decide (a = "-"%char))))
    (RCat (RChr "_") (RPlus (RCls (fun a => is_alnum a || is_one_of "_-" a))))).
Definition SHARD_MONTH_PATTERN : re := RCat (RRep (RCls is_digit) 4) (RCat (RChr "-") (RRep (RCls is_digit) 2)).

Fixpoint has_dotdot (s : string) : bool :=
  match s with
  | String a s' => starts_with s ".." || has_dotdot s'
  | EmptyString => false
  end.

Definition assertLedgerOperationId (operationId : string) : ledgering unit :=
  reject_if (negb (re_match OPERATION_ID_PATTERN operationId) || negb (no_char "/" operationId) ||
             negb (no_char "\" operationId) || has_dotdot operationId) ledger_path_error.

Definition assertShardMonth (month : string) : ledgering unit :=
  reject_if (negb (re_match SHARD_MONTH_PATTERN month)) ledger_path_error.

(** The year and the month are the units 0-3 and 5-6 of the timestamp. *)
Definition shardMonthFor (timestamp : string) : ledgering string :=
  let month := str_take 7 timestamp in
  if re_match SHARD_MONTH_PATTERN month &&
     re_match (RCat (RChr "-") (RCat (RRep (RCls is_digit) 2) (RChr "T"))) (str_take 4 (str_drop 7 timestamp))
  then Ok month else Err ledger_path_error.

Definition edgeShardRelativePath (month operationId : string) : ledgering string :=
  _ ← assertShardMonth month;
  _ ← assertLedgerOperationId operationId;
  Ok ("ledger/edges/" +:+ month +:+ "/" +:+ operationId +:+ ".jsonl").

Definition eventShardRelativePath (month operationId : string) : ledgering string :=
  _ ← assertShardMonth month;
  _ ← assertLedgerOperationId operationId;
  Ok ("events/" +:+ month +:+ "/" +:+ operationId +:+ ".jsonl").

Definition operationManifestRelativePath (operationId : string) : ledgering string :=
  _ ← assertLedgerOperationId operationId;
  Ok ("ledger/operations/" +:+ operationId +:+ ".json").

Definition stagingRelativePath (operationId : string) : ledgering string :=
  _ ← assertLedgerOperationId operationId;
  Ok ("staging/" +:+ operationId).

(** An absolute path begins with a separator, whose first segment is empty. *)
Definition resolveHarnessPath (relativePath : string) : ledgering path :=
  let segments := split_on "/" relativePath in
  _ ← reject_if (negb (no_char (ascii_of_N 0) relativePath) || negb (no_char "\" relativePath) ||
                 existsb (fun segment => mem segment [""; "."; ".."]) segments) ledger_path_error;
  Ok segments.

(** ** Transactions *)

Record TransactionArtifact : Type := Artifact { ar_path : string; ar_content : string }.

Record TransactionInput : Type := {
  ti_ledger_operation_id : string;
  ti_workflow_operation_id : string;
  ti_attempt_id : string;
  ti_expected_baseline : string;
  ti_artifacts : list TransactionArtifact;
  ti_edges : list jsval;
  ti_events : list jsval;
  ti_required_reader_version : option string }.

Record ManifestDraft : Type := {
  md_ledger_operation_id : string;
  md_workflow_operation_id : string;
  md_attempt_id : string;
  md_baseline_commit : string;
  md_sequence : Z;
  md_artifact_digests : list string;
  md_edge_file : string;
  md_event_file : string;
  md_edge_file_digest : string;
  md_event_file_digest : string;
  md_required_reader_version : option string;
  md_committed_at : string }.

(** The fields of a record of kind [ledger_operation]. *)
Definition LedgerOperation : Type := list (string * jsval).

Section manifests.
Context `{Hash}.

Definition requiredReaderVersionField (version : option string) : list (string * jsval) :=
  match version with Some v => [("required_reader_version", JStr v)] | None => [] end.

Definition manifest_content (draft : ManifestDraft) : list (string * jsval) :=
  [("protocol_version", JStr PROTOCOL_VERSION); ("record_kind", JStr "ledger_operation");
   ("ledger_operation_id", JStr (md_ledger_operation_id draft));
   ("workflow_operation_id", JStr (md_workflow_operation_id draft));
   ("attempt_id", JStr (md_attempt_id draft)); ("baseline_commit", JStr (md_baseline_commit draft));
   ("sequence", JNum (NInt (md_sequence draft))); ("artifact_digests", strings (md_artifact_digests draft));
   ("edge_file", JStr (md_edge_file draft)); ("event_file", JStr (md_event_file draft));
   ("edge_file_digest", JStr (md_edge_file_digest draft)); ("event_file_digest", JStr (md_event_file_digest draft))] ++
  requiredReaderVersionField (md_required_reader_version draft).

Definition manifestDigest (draft : ManifestDraft) : result canonical_error string :=
  contentDigest (JObj (manifest_content draft)).

Definition buildManifest (draft : ManifestDraft) : result canonical_error LedgerOperation :=
  digest ← manifestDigest draft;
  Ok (manifest_content draft ++ [("committed_at", JStr (md_committed_at draft)); ("digest", JStr digest)]).

(** A canonicalization error is thrown. *)
Definition verifyManifestDigest (manifest : LedgerOperation) : result canonical_error bool :=
  d ← contentDigest (JObj (without_field "committed_at" (without_field "digest" manifest)));
  Ok (match jfield manifest "digest" with JStr digest => bool_decide (d = digest) | _ => false end).

(** Fields of a manifest the schema has checked. *)
Definition str_of (v : jsval) : string := match v with JStr s => s | _ => "" end.
Definition int_of (v : jsval) : Z := match v with JNum (NInt z) => z | _ => 0%Z end.
Definition op_id (m : LedgerOperation) : string := str_of (jfield m "ledger_operation_id").
Definition op_sequence (m : LedgerOperation) : Z := int_of (jfield m "sequence").
Definition op_digest (m : LedgerOperation) : string := str_of (jfield m "digest").
Definition op_edge_file (m : LedgerOperation) : string := str_of (jfield m "edge_file").
Definition op_event_file (m : LedgerOperation) : string := str_of (jfield m "event_file").
Definition opt_str (v : jsval) : option string := match v with JStr s => Some s | _ => None end.

(** ** The reader a transaction requires *)

Definition known_version (v : jsval) : option string :=
  match v with JStr version => if isKnownProtocol version then Some version else None | _ => None end.

Definition artifactProtocolVersion (content : string) : option string :=
  match JSON_parse content with
  | Some v => known_version (plainRecordField v "protocol_version")
  | None => None
  end.

Definition eventProtocolVersion (event : jsval) : option string := known_version (plainRecordField event "protocol_version").

(** [consider]; the versions are known, so the comparisons do not throw. *)
Definition consider (newest version : option string) : option string :=
  match version with
  | None => newest
  | Some v =>
      match compareProtocolVersions v PROTOCOL_1_2_VERSION with
      | Ok c =>
          if (c <? 0)%Z then newest
          else match newest with
               | None => Some v
               | Some n => match compareProtocolVersions v n with
                           | Ok c' => if (0 <? c')%Z then Some v else newest
                           | Err _ => newest
                           end
               end
      | Err _ => newest
      end
  end.

Definition transactionRequiredReaderVersion (input : TransactionInput) : option string :=
  foldl consider None (map eventProtocolVersion (ti_events input) ++
                       map (fun a => artifactProtocolVersion (ar_content a)) (ti_artifacts input)).
End manifests.

(** ** [validateTransaction] *)

Inductive ValidationIssue : Type :=
| reserved_prefix (index : nat)
| illegal_artifact_path (index : nat)
| duplicate_artifact_path (index : nat)
| invalid_edge (index : nat)
| invalid_event (index : nat)
| event_of_other_ledger_operation (index : nat)
| event_of_other_workflow_operation (index : nat)
| must_pin_reader (version : string)
| must_not_pin_reader.
#[export] Instance ValidationIssue_eq_dec : EqDecision ValidationIssue.
Proof. solve_decision. Defined.

Definition ARTIFACT_PATH_PATTERN : re :=
  RCat (RCls is_alnum) (RStar (RCls (fun a => is_alnum a || is_one_of "._/-" a))).
Definition RESERVED_ARTIFACT_PREFIXES : list string := ["ledger/"; "events/"; "staging/"; "locks/"; "cache/"].

(** [path.includes("//")]: an empty segment between two others. *)
Fixpoint has_double_slash (s : string) : bool :=
  match s with
  | String a s' => starts_with s "//" || has_double_slash s'
  | EmptyString => false
  end.

Definition when (b : bool) (issue : ValidationIssue) : list ValidationIssue := if b then [issue] else [].

Definition reserved_path (p : string) : bool := existsb (starts_with p) RESERVED_ARTIFACT_PREFIXES.
Definition illegal_path (p : string) : bool :=
  negb (re_match ARTIFACT_PATH_PATTERN p) || has_double_slash p || existsb (fun segment => mem segment ["."; ".."]) (split_on "/" p).

Definition artifact_issues (seen : list string) (index : nat) (p : string) : list ValidationIssue :=
  when (reserved_path p) (reserved_prefix index) ++ when (illegal_path p) (illegal_artifact_path index) ++
  when (mem p seen) (duplicate_artifact_path index).

Fixpoint artifacts_issues (seen : list string) (index : nat) (paths : list string) : list ValidationIssue :=
  match paths with
  | [] => []
  | p :: paths' => artifact_issues seen index p ++ artifacts_issues (p :: seen) (S index) paths'
  end.

Section validate.
Context `{DateTime}.

Definition edge_issues (index : nat) (e : jsval) : list ValidationIssue := when (negb (validateSchema edge e)) (invalid_edge index).

Definition event_issues (input : TransactionInput) (index : nat) (e : jsval) : list ValidationIssue :=
  let valid := validateSchema event e in
  when (negb valid) (invalid_event index) ++
  when (valid && negb (bool_decide (str_of (plainRecordField e "ledger_operation_id") = ti_ledger_operation_id input)))
    (event_of_other_ledger_operation index) ++
  when (valid && negb (bool_decide (str_of (plainRecordField e "workflow_operation_id") = ti_workflow_operation_id input)))
    (event_of_other_workflow_operation index).

Definition reader_issues (input : TransactionInput) : list ValidationIssue :=
  match transactionRequiredReaderVersion input with
  | Some version => when (negb (bool_decide (ti_required_reader_version input = Some version))) (must_pin_reader version)
  | None => when (negb (bool_decide (ti_required_reader_version input = None))) must_not_pin_reader
  end.

Definition validateTransaction (input : TransactionInput) : list ValidationIssue :=
  artifacts_issues [] 0 (map ar_path (ti_artifacts input)) ++
  concat (imap edge_issues (ti_edges input)) ++
  concat (imap (event_issues input) (ti_events input)) ++
  reader_issues input.
End validate.

(* ------------------------------------------------------------------ *)
(** ** A manifest and its canonical form *)

Lemma writeValue_perm fields fields' : NoDup fields.*1 -> fields ≡ₚ fields' -> writeValue (JObj fields) = writeValue (JObj fields').
Proof.
  intros Hn Hp. cbn [writeValue]. unfold write_entries.
  rewrite (key_sort_unique (map (fun e => (nfc e.1, writeValue e.2)) fields) (map (fun e => (nfc e.1, writeValue e.2)) fields')); [done| |].
  - by rewrite written_keys.
  - by apply Permutation_map.
Qed.

Lemma contentDigest_perm `{Hash} fields fields' : NoDup fields.*1 -> fields ≡ₚ fields' -> contentDigest (JObj fields) = contentDigest (JObj fields').
Proof. intros Hn Hp. unfold contentDigest, canonicalizeJson. by rewrite (writeValue_perm fields fields'). Qed.

Lemma without_field_perm key fields fields' : fields ≡ₚ fields' -> without_field key fields ≡ₚ without_field key fields'.
Proof. intros Hp. unfold without_field. by rewrite Hp. Qed.

Lemma without_field_NoDup key (fields : list (string * jsval)) : NoDup fields.*1 -> NoDup (without_field key fields).*1.
Proof.
  unfold without_field. induction fields as [|e l IH]; [done|]. rewrite fmap_cons, filter_cons. intros [Hn Hd]%NoDup_cons. case_decide; [|by apply IH].
  rewrite fmap_cons. constructor; [|by apply IH]. intros (f & Hf & Hin)%list_elem_of_fmap. apply Hn, list_elem_of_fmap. exists f.
  split; [done|]. by apply list_elem_of_filter in Hin as [_ ?].
Qed.

Lemma jfield_perm (fields fields' : list (string * jsval)) key : NoDup fields.*1 -> fields ≡ₚ fields' -> jfield fields key = jfield fields' key.
Proof.
  intros Hn Hp. unfold jfield. f_equal. destruct (omap_get fields key) as [v|] eqn:E.
  - apply omap_get_elem in E. symmetry. apply elem_omap_get; [by rewrite <- Hp|]. by rewrite <- Hp.
  - symmetry. apply omap_get_None. apply omap_get_None in E. by rewrite <- Hp.
Qed.

Section manifest_laws.
Context `{Hash} `{DateTime}.

Lemma content_without_digest draft :
  without_field "committed_at" (without_field "digest" (manifest_content draft)) = manifest_content draft.
Proof. unfold manifest_content. destruct (md_required_reader_version draft); reflexivity. Qed.

Lemma content_keys draft t d : NoDup (manifest_content draft ++ [("committed_at", t); ("digest", d)]).*1.
Proof.
  unfold manifest_content. destruct (md_required_reader_version draft) as [v|].
  - apply (proj1 (has_duplicates_NoDup _)). reflexivity.
  - apply (proj1 (has_duplicates_NoDup _)). reflexivity.
Qed.

Lemma buildManifest_Ok draft m : buildManifest draft = Ok m -> exists digest, manifestDigest draft = Ok digest /\
  m = manifest_content draft ++ [("committed_at", JStr (md_committed_at draft)); ("digest", JStr digest)].
Proof. unfold buildManifest. intros (digest & Hd & Hm)%bind_Ok. exists digest. split; [exact Hd|]. symmetry. exact (inj Ok _ _ Hm). Qed.

Lemma manifest_canon draft m : buildManifest draft = Ok m -> canon (JObj m) = JObj (js_sort key_cmp m) /\ json_literals (JObj m) = true.
Proof.
  intros (digest & _ & ->)%buildManifest_Ok. unfold manifest_content. split.
  - cbn [canon]. do 2 f_equal. destruct (md_required_reader_version draft);
      cbn [requiredReaderVersionField map app fst snd]; by rewrite canon_strings.
  - assert (json_literals (strings (md_artifact_digests draft)) = true) as Hs.
    { unfold strings. cbn. induction (md_artifact_digests draft); done. }
    destruct (md_required_reader_version draft); cbn [json_literals requiredReaderVersionField forallb app snd]; by rewrite Hs.
Qed.

(** The manifest as it is read back. *)
Definition read_back (m : LedgerOperation) : LedgerOperation := js_sort key_cmp m.

Lemma read_back_field draft m k : buildManifest draft = Ok m -> jfield (read_back m) k = jfield m k.
Proof.
  intros (digest & _ & ->)%buildManifest_Ok. symmetry. apply jfield_perm; [apply content_keys|].
  symmetry. apply js_sort_Permutation.
Qed.

Lemma read_back_digest draft m : buildManifest draft = Ok m -> verifyManifestDigest (read_back m) = Ok true.
Proof.
  intros Hb. unfold verifyManifestDigest. rewrite (read_back_field draft m) by done.
  apply buildManifest_Ok in Hb as (digest & Hd & ->).
  assert (contentDigest (JObj (without_field "committed_at" (without_field "digest"
    (read_back (manifest_content draft ++ [("committed_at", JStr (md_committed_at draft)); ("digest", JStr digest)]))))) = Ok digest) as ->.
  { rewrite <- Hd. unfold manifestDigest. apply contentDigest_perm.
    - do 2 apply without_field_NoDup. unfold read_back. rewrite js_sort_Permutation. apply content_keys.
    - unfold read_back. rewrite (without_field_perm _ _ _ (without_field_perm _ _ _ (js_sort_Permutation key_cmp _))).
      unfold without_field at 1 2. rewrite !filter_app. fold (without_field "digest" (manifest_content draft)).
      fold (without_field "committed_at" (without_field "digest" (manifest_content draft))). rewrite content_without_digest.
      cbn. by rewrite app_nil_r. }
  assert (jfield (manifest_content draft ++ [("committed_at", JStr (md_committed_at draft)); ("digest", JStr digest)]) "digest" = JStr digest) as ->.
  { unfold manifest_content. by destruct (md_required_reader_version draft). }
  cbn. f_equal. by apply bool_decide_true.
Qed.

Lemma content_entry_writes draft e : e ∈ manifest_content draft -> writes e.2.
Proof.
  intros He. unfold manifest_content in He. destruct (md_required_reader_version draft); cbn [requiredReaderVersionField app] in He;
    repeat (apply elem_of_cons in He as [->|He]; [first [apply writes_strings | by eexists]|]); by apply elem_of_nil in He.
Qed.

Lemma manifest_writes draft m : buildManifest draft = Ok m -> exists text, canonicalizeJson (JObj m) = Ok text.
Proof.
  intros (digest & _ & ->)%buildManifest_Ok. apply writes_object; [apply content_keys|].
  intros e [He|He]%elem_of_app; [by eapply content_entry_writes|].
  repeat (apply elem_of_cons in He as [->|He]; [by eexists|]). by apply elem_of_nil in He.
Qed.

Lemma manifest_builds draft : exists m, buildManifest draft = Ok m.
Proof.
  destruct (writes_object (manifest_content draft)) as [text Ht].
  - pose proof (content_keys draft JNull JNull) as Hn. rewrite fmap_app in Hn. by apply NoDup_app in Hn as (? & _).
  - intros e. apply content_entry_writes.
  - unfold buildManifest, manifestDigest, contentDigest, canonicalizeJson. rewrite Ht. cbn [mbind result_bind]. by eexists.
Qed.

(** What the schema asks of a draft. *)
Definition legal_draft (draft : ManifestDraft) : bool :=
  identifier_ok (md_ledger_operation_id draft) && identifier_ok (md_workflow_operation_id draft) && identifier_ok (md_attempt_id draft) &&
  baseline_ok (md_baseline_commit draft) && (1 <=? md_sequence draft)%Z &&
  forallb (re_match digest_regex) (md_artifact_digests draft) && negb (has_duplicates (md_artifact_digests draft)) &&
  re_match (SHARD_FILE "ledger/edges/") (md_edge_file draft) && re_match (SHARD_FILE "events/") (md_event_file draft) &&
  re_match digest_regex (md_edge_file_digest draft) && re_match digest_regex (md_event_file_digest draft) &&
  match md_required_reader_version draft with
  | Some v => mem v [PROTOCOL_1_2_VERSION; PROTOCOL_1_3_VERSION; PROTOCOL_1_4_VERSION]
  | None => true
  end && is_date_time (md_committed_at draft).

Lemma strings_schema p l : TUniqueStrings p (strings l) = forallb p l && negb (has_duplicates l).
Proof.
  unfold strings. cbn. f_equal.
  - induction l as [|s l IH]; [done|]. cbn. by rewrite IH.
  - do 2 f_equal. induction l as [|s l IH]; [done|]. cbn. by rewrite IH.
Qed.

Lemma manifest_valid draft m : (forall s, re_match digest_regex (sha256 s) = true) -> buildManifest draft = Ok m ->
  validateSchema ledger_operation (JObj m) = legal_draft draft.
Proof.
  intros Hh Hb. destruct (buildManifest_Ok _ _ Hb) as (digest & Hd & ->).
  assert (re_match digest_regex digest = true) as Hhex.
  { unfold manifestDigest, contentDigest in Hd. apply bind_Ok in Hd as (t & _ & [= <-]). apply Hh. }
  unfold validateSchema. cbn [SCHEMA_REGISTRY]. unfold LedgerOperationSchema, persistedRecordProperties, manifest_content.
  assert (ProtocolVersionSchema (JStr PROTOCOL_VERSION) = true) as Hp by (vm_compute; reflexivity).
  assert (isProtocolCompatible PROTOCOL_VERSION = true) as Hc by (vm_compute; reflexivity).
  destruct draft as [id wf att base seq digs ef vf ed vd rv at']. unfold legal_draft.
  cbn [md_ledger_operation_id md_workflow_operation_id md_attempt_id md_baseline_commit md_sequence md_artifact_digests md_edge_file md_event_file md_edge_file_digest md_event_file_digest md_required_reader_version md_committed_at].
  rewrite <- !andb_assoc, (andb_assoc (forallb _ digs)), <- strings_schema. clear Hb Hd.
  destruct rv as [v|]; lazy -[TUniqueStrings ProtocolVersionSchema isProtocolCompatible identifier_ok baseline_ok re_match strings Z.leb digest_regex SHARD_FILE andb negb orb is_date_time mem PROTOCOL_VERSION PROTOCOL_1_2_VERSION PROTOCOL_1_3_VERSION PROTOCOL_1_4_VERSION];
    change (match strings digs with JUndefined => true | _ => false end) with false;
    repeat match goal with |- context [mem (String ?a ?s) ?l] => change (mem (String a s) l) with true end;
    rewrite Hp, Hc, Hhex; cbn [andb negb orb]; rewrite ?andb_true_r; apply eq_true_iff_eq; rewrite !andb_true_iff; tauto.
Qed.
End manifest_laws.
