(* ===== verification/Store.v ===== *)
(** * The ledger on disk and its readers

    [packages/core/src/ledger/event-store.ts]. The disk is a map from paths
    below [.harness] to files and directories; the order in which a directory
    is listed is the platform's ([Readdir]). *)

From stdpp Require Import gmap.
From S2P Require Import Prelude Regex Json Lease JsonText Schema Transaction.

(** ** The disk *)

Inductive entry : Type :=
| File (content : string)
| Directory.
#[export] Instance entry_eq_dec : EqDecision entry.
Proof. solve_decision. Defined.

Abbreviation disk := (gmap path entry).

(** [readdirSync]: the names in a directory, in an order of the platform. *)
Class Readdir : Type := {
  readdir : disk -> path -> list string;
  readdir_NoDup : forall d p, NoDup (readdir d p);
  readdir_spec : forall d p name, name ∈ readdir d p <-> is_Some (d !! (p ++ [name])) }.

Definition readFile (d : disk) (p : path) : ledgering string :=
  match d !! p with Some (File content) => Ok content | _ => Err io_error end.

Definition existsSync (d : disk) (p : path) : bool := bool_decide (is_Some (d !! p)).

Definition OPERATIONS : path := ["ledger"; "operations"].

Definition ends_with (suffix s : string) : bool :=
  (String.length suffix <=? String.length s)%nat &&
  bool_decide (str_drop (String.length s - String.length suffix) s = suffix).

(** ** Committed operations *)

Record CommittedOperation : Type := Committed { manifest : LedgerOperation; manifestPath : path }.

Section reading.
Context `{Hash} `{DateTime} `{Readdir}.

Definition lift_canonical {A} (m : result canonical_error A) : ledgering A := map_err canonical_json_error m.
Definition lift_protocol {A} (m : result protocol_error A) : ledgering A := map_err (fun _ => protocol_too_new) m.

Definition parseManifest (fileName raw readerVersion : string) : ledgering LedgerOperation :=
  match JSON_parse raw with
  | None => Err corruption
  | Some parsed =>
      _ ← match plainRecordField parsed "required_reader_version" with
          | JStr required => lift_protocol (assertProtocolReaderCanProject readerVersion required true)
          | _ => Ok ()
          end;
      match validateSchema ledger_operation parsed, parsed with
      | true, JObj fields =>
          verified ← lift_canonical (verifyManifestDigest fields);
          _ ← reject_if (negb verified) corruption;
          _ ← reject_if (negb (bool_decide (fileName = op_id fields +:+ ".json"))) corruption;
          Ok fields
      | _, _ => Err corruption
      end
  end.

(** [basename(fileName) !== fileName]: the name has a separator. *)
Definition readCommittedOperation (d : disk) (readerVersion fileName : string) : ledgering CommittedOperation :=
  _ ← reject_if (negb (no_char "/" fileName) || negb (ends_with ".json" fileName)) corruption;
  p ← resolveHarnessPath ("ledger/operations/" +:+ fileName);
  raw ← readFile d p;
  m ← parseManifest fileName raw readerVersion;
  Ok (Committed m p).

Definition by_sequence (left right : CommittedOperation) : Z :=
  (op_sequence (manifest left) - op_sequence (manifest right))%Z.

Definition readCommittedOperations (d : disk) (readerVersion : string) : ledgering (list CommittedOperation) :=
  match d !! OPERATIONS with
  | None => Ok []
  | Some (File _) => Err io_error
  | Some Directory =>
      operations ← mapM (readCommittedOperation d readerVersion) (List.filter (ends_with ".json") (readdir d OPERATIONS));
      Ok (js_sort by_sequence operations)
  end.

(** ** The append-only order *)

Definition nextSequence (operations : list CommittedOperation) : Z :=
  (foldl (fun maximum operation => Z.max maximum (op_sequence (manifest operation))) 0 operations + 1)%Z.

Definition assertAppendOnly (operations : list CommittedOperation) (candidate_id : string) (candidate_sequence : Z) : ledgering unit :=
  _ ← reject_if (existsb (fun op => bool_decide (op_id (manifest op) = candidate_id)) operations) ledger_conflict;
  reject_if (negb (bool_decide (candidate_sequence = nextSequence operations))) sequence_error.

(** ** Merging two histories *)

Definition merge_step (state : gmap string CommittedOperation * list CommittedOperation) (incoming : CommittedOperation) :
    ledgering (gmap string CommittedOperation * list CommittedOperation) :=
  let (byId, merged) := state in
  match byId !! op_id (manifest incoming) with
  | Some existing =>
      _ ← reject_if (negb (bool_decide (op_digest (manifest existing) = op_digest (manifest incoming)))) ledger_conflict;
      Ok state
  | None => Ok (<[op_id (manifest incoming) := incoming]> byId, merged ++ [incoming])
  end.

Definition fork_step (idBySequence : gmap Z string) (operation : CommittedOperation) : ledgering (gmap Z string) :=
  let sequence := op_sequence (manifest operation) in
  let id := op_id (manifest operation) in
  _ ← reject_if (match idBySequence !! sequence with Some previous => negb (bool_decide (previous = id)) | None => false end) sequence_error;
  Ok (<[sequence := id]> idBySequence).

Definition index_by_id (operations : list CommittedOperation) : gmap string CommittedOperation :=
  foldl (fun m operation => <[op_id (manifest operation) := operation]> m) ∅ operations.

Definition mergeCommittedOperations (localOperations incomingOperations : list CommittedOperation) : ledgering (list CommittedOperation) :=
  state ← foldM merge_step (index_by_id localOperations, localOperations) incomingOperations;
  _ ← foldM fork_step ∅ state.2;
  Ok (js_sort by_sequence state.2).

Definition assertBaselineCompatible (operations : list CommittedOperation) (isKnownBaseline : string -> bool) : ledgering unit :=
  forM_ (fun operation => reject_if (negb (isKnownBaseline (str_of (jfield (manifest operation) "baseline_commit")))) baseline_mismatch)
    operations.

(** ** Shards *)

Definition serializeJsonl (records : list jsval) : ledgering string :=
  match records with
  | [] => Ok ""
  | _ => lines ← lift_canonical (mapM canonicalizeJson records); Ok (join line_feed lines +:+ line_feed)
  end.

(** The lines of a file, without the empty one after the last line feed. *)
Definition record_lines (content : string) : list string :=
  let lines := split_on (ascii_of_nat 10) content in
  match last lines with Some "" => removelast lines | _ => lines end.

(** An unknown event type may be skipped, once the rest of the record is
    validated under a known one. *)
Definition read_record (key : SchemaKey) (may_skip : bool) (line : string) : ledgering jsval :=
  match JSON_parse line with
  | None => Err corruption
  | Some parsed =>
      let unknown := match key, plainRecordField parsed "event_type" with
                     | event, JStr t => negb (bool_decide (trim t = "")) && negb (mem t EVENT_TYPES)
                     | _, _ => false
                     end in
      let checked := match parsed with
                     | JObj fields => if unknown && may_skip then JObj (omap_set fields "event_type" (JStr "OperationStarted")) else parsed
                     | _ => parsed
                     end in
      if validateSchema key checked then Ok parsed else Err corruption
  end.

Definition readShardRecords (d : disk) (relativePath : string) (key : SchemaKey) (expectedDigest : option string) (skip_unknown : bool) :
    ledgering (list jsval) :=
  p ← resolveHarnessPath relativePath;
  _ ← reject_if (negb (existsSync d p)) corruption;
  content ← readFile d p;
  _ ← reject_if (match expectedDigest with Some e => negb (bool_decide (sha256 content = e)) | None => false end) corruption;
  mapM (read_record key (skip_unknown && bool_decide (is_Some expectedDigest))) (record_lines content).

(** One event of a shard: it is bound to the operation and comes after the
    events before it. *)
Definition bind_event (m : LedgerOperation) (state : Z * list string) (e : jsval) : ledgering (Z * list string) :=
  let sequence := int_of (plainRecordField e "sequence") in
  let id := str_of (plainRecordField e "event_id") in
  _ ← reject_if (negb (bool_decide (str_of (plainRecordField e "ledger_operation_id") = op_id m)) ||
                 negb (bool_decide (str_of (plainRecordField e "workflow_operation_id") = str_of (jfield m "workflow_operation_id"))) ||
                 (sequence <=? state.1)%Z || mem id state.2) corruption;
  Ok (sequence, id :: state.2).

Definition known_event (e : jsval) : bool := mem (str_of (plainRecordField e "event_type")) EVENT_TYPES.

Definition readCommittedEventShard (d : disk) (operation : CommittedOperation) (skip_unknown : bool) : ledgering (list jsval) :=
  let m := manifest operation in
  events ← readShardRecords d (op_event_file m) event (opt_str (jfield m "event_file_digest")) skip_unknown;
  _ ← foldM (bind_event m) (0%Z, []) events;
  Ok (List.filter known_event events).

Record ReplayResult : Type := Replayed {
  rp_operations : list CommittedOperation;
  rp_edges : list jsval;
  rp_events : list jsval }.

Definition replay_operation (d : disk) (operation : CommittedOperation) : ledgering (list jsval * list jsval) :=
  let m := manifest operation in
  edges ← readShardRecords d (op_edge_file m) edge (opt_str (jfield m "edge_file_digest")) false;
  events ← readCommittedEventShard d operation false;
  Ok (edges, events).

Definition replayLedger (d : disk) (readerVersion : string) : ledgering ReplayResult :=
  operations ← readCommittedOperations d readerVersion;
  shards ← mapM (replay_operation d) operations;
  Ok (Replayed operations (concat (map fst shards)) (concat (map snd shards))).
End reading.

(* ------------------------------------------------------------------ *)
(** ** Laws of the readers *)

Section laws.
Context `{Hash} `{DateTime} `{Readdir}.

Lemma mapM_Permutation {E A B} (f : A -> result E B) l l' k : l ≡ₚ l' -> mapM f l = Ok k -> exists k', mapM f l' = Ok k' /\ k ≡ₚ k'.
Proof.
  intros Hp. revert k. induction Hp as [|x l l' Hp IH|x y l|l1 l2 l3 H12 IH12 H23 IH23]; intros k Hk.
  - by exists k.
  - rewrite mapM_cons in Hk. apply bind_Ok in Hk as (z & Hz & (k1 & Hk1 & [= <-])%bind_Ok).
    destruct (IH _ Hk1) as (k' & Hk' & Hpk). exists (z :: k'). rewrite mapM_cons, Hz. cbn. rewrite Hk'. split; [done|by f_equiv].
  - rewrite !mapM_cons in Hk. apply bind_Ok in Hk as (z & Hz & (k1 & Hk1 & [= <-])%bind_Ok).
    apply bind_Ok in Hk1 as (w & Hw & (k2 & Hk2 & [= <-])%bind_Ok). exists (w :: z :: k2).
    rewrite !mapM_cons, Hw. cbn. rewrite Hz. cbn. rewrite Hk2. cbn. split; [done|]. apply Permutation_swap.
  - destruct (IH12 _ Hk) as (k2 & Hk2 & Hp2). destruct (IH23 _ Hk2) as (k3 & Hk3 & Hp3). exists k3. split; [done|by etrans].
Qed.

Lemma mapM_ext {E A B} (f g : A -> result E B) l : (forall x, x ∈ l -> f x = g x) -> mapM f l = mapM g l.
Proof.
  induction l as [|x l IH]; intros Hfg; [done|]. rewrite !mapM_cons, (Hfg x) by left. rewrite IH; [done|].
  intros y Hy. apply Hfg. by right.
Qed.

Lemma by_sequence_total : cmp_total by_sequence.
Proof. intros x y. unfold by_sequence. lia. Qed.
Lemma by_sequence_trans : cmp_trans by_sequence.
Proof. intros x y z. unfold cmp_le, by_sequence. lia. Qed.

Definition sequences (ops : list CommittedOperation) : list Z := map (fun op => op_sequence (manifest op)) ops.

Lemma by_sequence_unique ops ops' : NoDup (sequences ops) -> ops ≡ₚ ops' -> js_sort by_sequence ops = js_sort by_sequence ops'.
Proof.
  intros Hn Hp. apply js_sort_unique; auto using by_sequence_total, by_sequence_trans.
  intros x y Hx Hy Hxy Hyx. eapply NoDup_keys_inj; [exact Hn|done|done|]. unfold by_sequence in *. cbn. lia.
Qed.

Lemma sequences_perm ops ops' : ops ≡ₚ ops' -> sequences ops ≡ₚ sequences ops'.
Proof. intros Hp. unfold sequences. by rewrite Hp. Qed.

Lemma nextSequence_above ops : Forall (fun op => (op_sequence (manifest op) < nextSequence ops)%Z) ops /\ (1 <= nextSequence ops)%Z.
Proof.
  unfold nextSequence.
  assert (forall l acc, (acc <= foldl (fun m op => Z.max m (op_sequence (manifest op))) acc l)%Z /\
            Forall (fun op => (op_sequence (manifest op) <= foldl (fun m op => Z.max m (op_sequence (manifest op))) acc l)%Z) l) as Hf.
  { induction l as [|x l IH]; intros acc; cbn; [split; [lia|constructor]|].
    destruct (IH (Z.max acc (op_sequence (manifest x)))) as [Hx Hl]. split; [lia|]. constructor; [lia|done]. }
  destruct (Hf ops 0%Z) as [Hz Ha]. split; [|lia]. eapply Forall_impl; [exact Ha|]. intros x Hx. cbn in *. lia.
Qed.

(** The names of the manifests. *)
Definition manifest_names (d : disk) : list string := List.filter (ends_with ".json") (readdir d OPERATIONS).

Lemma elem_of_List_filter {A} (p : A -> bool) l x : x ∈ List.filter p l <-> x ∈ l /\ p x = true.
Proof. rewrite !list_elem_of_In. apply filter_In. Qed.

Lemma manifest_names_spec d name : name ∈ manifest_names d <-> is_Some (d !! (OPERATIONS ++ [name])) /\ ends_with ".json" name = true.
Proof. unfold manifest_names. by rewrite elem_of_List_filter, readdir_spec. Qed.

Lemma manifest_names_NoDup d : NoDup (manifest_names d).
Proof.
  unfold manifest_names. pose proof (readdir_NoDup d OPERATIONS) as Hn. induction (readdir d OPERATIONS) as [|x l IH]; [done|].
  apply NoDup_cons in Hn as [Hx Hn]. cbn. destruct (ends_with _ x); [|by apply IH]. constructor; [|by apply IH].
  rewrite elem_of_List_filter. tauto.
Qed.

Lemma read_operations d r : d !! OPERATIONS = Some Directory ->
  readCommittedOperations d r = (l ← mapM (readCommittedOperation d r) (manifest_names d); Ok (js_sort by_sequence l)).
Proof. intros Hd. unfold readCommittedOperations. by rewrite Hd. Qed.

Lemma read_operation_local d d' r name : no_char "/" name = true -> d !! (OPERATIONS ++ [name]) = d' !! (OPERATIONS ++ [name]) ->
  readCommittedOperation d r name = readCommittedOperation d' r name.
Proof.
  intros Hn Hd. unfold readCommittedOperation. destruct (reject_if _ _); [|done]. cbn [mbind result_bind].
  unfold resolveHarnessPath. assert (split_on "/" ("ledger/operations/" +:+ name) = OPERATIONS ++ [name]) as ->.
  { change ("ledger/operations/" +:+ name) with ("ledger" +:+ String "/" ("operations" +:+ String "/" name)).
    rewrite !split_on_app by reflexivity. by rewrite split_on_no_char. }
  destruct (reject_if _ _); [|done]. cbn [mbind result_bind]. unfold readFile.
  unfold OPERATIONS in Hd |- *. cbn [app] in Hd |- *. by rewrite Hd.
Qed.

Lemma read_operation_name d r name op : readCommittedOperation d r name = Ok op -> no_char "/" name = true.
Proof. unfold readCommittedOperation. intros (Hr & _)%reject_bind_Ok. apply orb_false_iff in Hr as [Hr _]. by apply negb_false_iff. Qed.

(** The manifests of a disk are those of another, and maybe one more. *)
Lemma read_operations_frame d d' r ops : d !! OPERATIONS = Some Directory -> d' !! OPERATIONS = Some Directory ->
  readCommittedOperations d r = Ok ops -> NoDup (sequences ops) ->
  (forall name, ends_with ".json" name = true -> d' !! (OPERATIONS ++ [name]) = d !! (OPERATIONS ++ [name])) ->
  readCommittedOperations d' r = Ok ops.
Proof.
  intros Hd Hd' Ho Hn Hf. rewrite read_operations in Ho |- * by done. apply bind_Ok in Ho as (l & Hl & [= <-]).
  assert (manifest_names d ≡ₚ manifest_names d') as Hp.
  { apply NoDup_Permutation; [apply manifest_names_NoDup..|]. intros name. rewrite !manifest_names_spec.
    split; intros [Hs Hj]; (split; [|done]); [by rewrite Hf|by rewrite <- Hf]. }
  destruct (mapM_Permutation _ _ _ _ Hp Hl) as (l' & Hl' & Hpl).
  assert (mapM (readCommittedOperation d' r) (manifest_names d') = Ok l') as ->.
  { rewrite <- Hl'. apply mapM_ext. intros name Hin. rewrite <- Hp in Hin. assert (no_char "/" name = true) as Hc.
    { apply mapM_Ok in Hl. apply list_elem_of_lookup in Hin as [i Hi]. destruct (Forall2_lookup_l _ _ _ _ _ Hl Hi) as (op & _ & Hop).
      by eapply read_operation_name. }
    apply manifest_names_spec in Hin as [_ Hj]. apply read_operation_local; auto. }
  cbn. f_equal. symmetry. apply by_sequence_unique; [|done]. eapply NoDup_Permutation_proper; [|exact Hn].
  apply sequences_perm. symmetry. apply js_sort_Permutation.
Qed.

Lemma js_sort_snoc ops op : NoDup (sequences ops) -> StronglySorted (cmp_le by_sequence) ops ->
  Forall (fun o => (op_sequence (manifest o) < op_sequence (manifest op))%Z) ops ->
  js_sort by_sequence (op :: ops) = ops ++ [op].
Proof.
  intros Hn Hs Ha. rewrite (by_sequence_unique (op :: ops) (ops ++ [op])).
  - apply js_sort_id. apply StronglySorted_app_2; [done|by repeat constructor|]. intros x y Hx Hy. apply list_elem_of_singleton in Hy as ->.
    rewrite Forall_forall in Ha. specialize (Ha x Hx). unfold cmp_le, by_sequence. lia.
  - cbn. constructor; [|done]. intros Hin. apply list_elem_of_fmap in Hin as (x & Hx & Hin). rewrite Forall_forall in Ha. specialize (Ha x Hin).
    cbn in *. lia.
  - apply Permutation_cons_append.
Qed.

Lemma read_operations_insert d d' r ops name op : d !! OPERATIONS = Some Directory -> d' !! OPERATIONS = Some Directory ->
  readCommittedOperations d r = Ok ops -> NoDup (sequences ops) ->
  ends_with ".json" name = true -> d !! (OPERATIONS ++ [name]) = None -> is_Some (d' !! (OPERATIONS ++ [name])) ->
  (forall n, n <> name -> ends_with ".json" n = true -> d' !! (OPERATIONS ++ [n]) = d !! (OPERATIONS ++ [n])) ->
  readCommittedOperation d' r name = Ok op -> op_sequence (manifest op) = nextSequence ops ->
  readCommittedOperations d' r = Ok (ops ++ [op]).
Proof.
  intros Hd Hd' Ho Hn Hj Hnone Hsome Hf Hop Hseq. rewrite read_operations in Ho |- * by done. apply bind_Ok in Ho as (l & Hl & Hs).
  apply (inj Ok) in Hs. assert (name :: manifest_names d ≡ₚ manifest_names d') as Hp.
  { apply NoDup_Permutation; [|apply manifest_names_NoDup|].
    - constructor; [|apply manifest_names_NoDup]. rewrite manifest_names_spec, Hnone. by intros [[? ?] _].
    - intros n. rewrite elem_of_cons, !manifest_names_spec. destruct (decide (n = name)) as [->|Hne]; [tauto|].
      split; [intros [->|[Hi Hk]]; [done|]; split; [by rewrite Hf|done]|intros [Hi Hk]; right; split; [by rewrite <- Hf|done]]. }
  assert (mapM (readCommittedOperation d' r) (name :: manifest_names d) = Ok (op :: l)) as Hl1.
  { rewrite mapM_cons, Hop. cbn [mbind result_bind]. rewrite (mapM_ext _ (readCommittedOperation d r)); [by rewrite Hl|]. intros n Hin.
    assert (no_char "/" n = true) as Hc.
    { apply mapM_Ok in Hl. apply list_elem_of_lookup in Hin as [i Hi]. destruct (Forall2_lookup_l _ _ _ _ _ Hl Hi) as (o & _ & Ho).
      by eapply read_operation_name. }
    assert (n <> name) as Hne by (intros ->; apply manifest_names_spec in Hin as [[? ?] _]; congruence).
    apply manifest_names_spec in Hin as [_ Hjn]. apply read_operation_local; auto. }
  destruct (mapM_Permutation _ _ _ _ Hp Hl1) as (l' & -> & Hpl). cbn [mbind result_bind]. f_equal.
  assert (ops ≡ₚ l) as Hol by (rewrite <- Hs; apply js_sort_Permutation).
  rewrite <- (js_sort_snoc ops op Hn); [|rewrite <- Hs; apply js_sort_StronglySorted; auto using by_sequence_total, by_sequence_trans|].
  - symmetry. apply by_sequence_unique; [|by rewrite <- Hpl, Hol]. cbn. constructor; [|done].
    intros (x & Hx & Hin)%list_elem_of_fmap. destruct (nextSequence_above ops) as [Ha _]. rewrite Forall_forall in Ha. specialize (Ha x Hin). lia.
  - destruct (nextSequence_above ops) as [Ha _]. eapply Forall_impl; [exact Ha|]. intros x Hx. cbn in *. lia.
Qed.

(** ** Shards *)

Lemma resolve_ok relative p : resolveHarnessPath relative = Ok p -> p = split_on "/" relative.
Proof. unfold resolveHarnessPath. intros [_ [= <-]]%reject_bind_Ok. done. Qed.

Lemma read_shard_local d d' relative key expected skip :
  d !! split_on "/" relative = d' !! split_on "/" relative ->
  readShardRecords d relative key expected skip = readShardRecords d' relative key expected skip.
Proof.
  intros Hd. unfold readShardRecords. destruct (resolveHarnessPath relative) as [p|] eqn:E; [|done]. apply resolve_ok in E as ->.
  cbn [mbind result_bind]. unfold existsSync, readFile. by rewrite Hd.
Qed.

Lemma read_shard_file d relative key expected skip l :
  readShardRecords d relative key expected skip = Ok l -> exists c, d !! split_on "/" relative = Some (File c).
Proof.
  unfold readShardRecords. intros (p & E & Hr)%bind_Ok. apply resolve_ok in E as ->. apply reject_bind_Ok in Hr as [_ Hr].
  apply bind_Ok in Hr as (c & Hc & _). unfold readFile in Hc. destruct (d !! split_on "/" relative) as [[c'|]|]; try done. by exists c'.
Qed.

Lemma replay_operation_local d d' op :
  d !! split_on "/" (op_edge_file (manifest op)) = d' !! split_on "/" (op_edge_file (manifest op)) ->
  d !! split_on "/" (op_event_file (manifest op)) = d' !! split_on "/" (op_event_file (manifest op)) ->
  replay_operation d op = replay_operation d' op.
Proof.
  intros He Hv. unfold replay_operation, readCommittedEventShard. by rewrite (read_shard_local d d' _ _ _ _ He), (read_shard_local d d' _ _ _ _ Hv).
Qed.

Lemma replay_operation_files d op l : replay_operation d op = Ok l ->
  (exists c, d !! split_on "/" (op_edge_file (manifest op)) = Some (File c)) /\
  (exists c, d !! split_on "/" (op_event_file (manifest op)) = Some (File c)).
Proof.
  unfold replay_operation, readCommittedEventShard. intros (edges & He & Hr)%bind_Ok. apply bind_Ok in Hr as (events & Hv & _).
  apply bind_Ok in Hv as (l' & Hv & _). split; by eapply read_shard_file.
Qed.

Lemma split_on_lines lines : lines <> [] -> Forall (fun x => no_char (ascii_of_nat 10) x = true) lines ->
  split_on (ascii_of_nat 10) (join line_feed lines +:+ line_feed) = lines ++ [""].
Proof.
  intros Hne Hl. assert (join line_feed lines +:+ line_feed = join line_feed (lines ++ [""])) as ->.
  { clear Hl. induction lines as [|x [|y l] IH]; [done|done|]. cbn [app].
    rewrite (join_cons _ x (y :: l)), (join_cons _ x (y :: l ++ [""])) by done. rewrite <- !string_app_assoc. do 2 f_equal. by apply IH. }
  apply split_on_join; [by destruct lines|]. apply Forall_app. split; [done|by repeat constructor].
Qed.

Lemma record_lines_written lines : Forall (fun x => no_char (ascii_of_nat 10) x = true) lines -> lines <> [] ->
  record_lines (join line_feed lines +:+ line_feed) = lines.
Proof.
  intros Hl Hne. unfold record_lines. rewrite split_on_lines by done. rewrite last_snoc. by rewrite removelast_last.
Qed.

Lemma serialize_lines records content : Forall (fun v => json_literals v = true) records -> serializeJsonl records = Ok content ->
  mapM (fun line => match JSON_parse line with Some v => Ok v | None => Err corruption end) (record_lines content) = Ok (map canon records).
Proof.
  intros Hl Hs. destruct records as [|v records]; [injection Hs as <-; reflexivity|].
  unfold serializeJsonl in Hs. apply bind_Ok in Hs as (lines & Hm & [= <-]). apply map_err_Ok in Hm. apply mapM_Ok in Hm.
  assert (Forall (fun x => no_char (ascii_of_nat 10) x = true) lines) as Hn.
  { clear -Hm Hl. induction Hm as [|r t l k Hr Hm IH]; [constructor|]. apply Forall_cons in Hl as [Hv Hl]. constructor; [|by apply IH].
    by eapply text_no_line_feed. }
  rewrite record_lines_written; [|done|by destruct (Forall2_cons_inv_l _ _ _ _ Hm) as (? & ? & ? & ? & ->)].
  apply mapM_Ok. clear Hn. induction Hm as [|r t l k Hr Hm IH]; [constructor|]. apply Forall_cons in Hl as [Hv Hl].
  constructor; [|by apply IH]. by rewrite (parse_text r t).
Qed.

Lemma distinct_canon v : distinct_keys (canon v) -> distinct_keys v.
Proof.
  induction v as [| |b|n|t|l IH|l IH] using jsval_rect'; try done; cbn [canon].
  - rewrite !distinct_arr, Forall_map, !Forall_forall. rewrite Forall_forall in IH. auto.
  - rewrite !distinct_obj, canon_keys, js_sort_Permutation, Forall_map, !Forall_forall. rewrite Forall_forall in IH. intros [Hn Hd].
    split; [done|]. intros e He. apply IH; [done|]. exact (Hd e He).
Qed.

Lemma serialized_distinct records content : serializeJsonl records = Ok content -> Forall distinct_keys records.
Proof.
  intros Hs. destruct records as [|v records]; [constructor|]. unfold serializeJsonl in Hs. apply bind_Ok in Hs as (lines & Hm & _).
  apply map_err_Ok in Hm. apply mapM_Ok in Hm. clear -Hm. induction Hm as [|r t l k Hr Hm IH]; constructor; [|done].
  apply distinct_canon. by eapply writeValue_distinct.
Qed.

(** A shard that was written is read back. *)
Lemma shard_written d relative key records content : resolveHarnessPath relative = Ok (split_on "/" relative) ->
  d !! split_on "/" relative = Some (File content) -> serializeJsonl records = Ok content ->
  Forall (fun v => json_literals v = true) records -> Forall (fun v => validateSchema key v = true) records ->
  readShardRecords d relative key (Some (sha256 content)) false = Ok (map canon records).
Proof.
  intros Hp Hf Hs Hl Hv. unfold readShardRecords. rewrite Hp. cbn [mbind result_bind]. unfold existsSync, readFile. rewrite Hf.
  rewrite bool_decide_true by done. cbn [negb reject_if mbind result_bind]. rewrite bool_decide_true by done. cbn [negb reject_if mbind result_bind andb].
  pose proof (serialized_distinct _ _ Hs) as Hd. pose proof (serialize_lines _ _ Hl Hs) as Hm. apply mapM_Ok in Hm. apply mapM_Ok.
  assert (Forall (fun v => validateSchema key v = true) (map canon records)) as Hvc.
  { apply Forall_map. clear -Hv Hd. induction Hv as [|v l Hv Hl IH]; [constructor|]. apply Forall_cons in Hd as [Hd1 Hd2].
    constructor; [|by apply IH]. cbn. by rewrite validateSchema_stable. }
  clear -Hm Hvc. induction Hm as [|t v k l Ht Hm IH]; [constructor|]. apply Forall_cons in Hvc as [Hv1 Hv2]. constructor; [|by apply IH].
  unfold read_record. destruct (JSON_parse t) as [w|]; [|done]. injection Ht as ->.
  assert (match v with
          | JObj fields => if match key, plainRecordField v "event_type" with
                              | event, JStr t => negb (bool_decide (trim t = "")) && negb (mem t EVENT_TYPES)
                              | _, _ => false
                              end && false then JObj (omap_set fields "event_type" (JStr "OperationStarted")) else v
          | _ => v
          end = v) as Hc by (destruct v; try done; by rewrite andb_false_r).
  cbv zeta. by rewrite Hc, Hv1.
Qed.

(** ** Events in order *)

Definition event_sequence (e : jsval) : Z := int_of (plainRecordField e "sequence").
Definition event_id (e : jsval) : string := str_of (plainRecordField e "event_id").
Definition event_bound (m : LedgerOperation) (e : jsval) : Prop :=
  str_of (plainRecordField e "ledger_operation_id") = op_id m /\
  str_of (plainRecordField e "workflow_operation_id") = str_of (jfield m "workflow_operation_id").

Lemma bind_events m events : forall previous ids,
  Forall (event_bound m) events -> StronglySorted Z.lt (map event_sequence events) -> NoDup (map event_id events) ->
  Forall (fun e => (previous < event_sequence e)%Z /\ (event_id e ∉ ids)) events ->
  exists state, foldM (bind_event m) (previous, ids) events = Ok state.
Proof.
  induction events as [|e events IH]; intros previous ids Hb Hs Hn Hp; [by eexists|]. cbn [map] in *.
  apply Forall_cons in Hb as [[Hb1 Hb2] Hb], Hp as [[Hp1 Hp2] Hp]. apply StronglySorted_inv in Hs as [Hs Hlt]. apply NoDup_cons in Hn as [Hni Hn].
  assert (bind_event m (previous, ids) e = Ok (event_sequence e, event_id e :: ids)) as Hst.
  { unfold bind_event. fold (event_sequence e) (event_id e). cbn [fst snd]. rewrite Hb1, Hb2, !bool_decide_true by done.
    rewrite (proj2 (Z.leb_gt (event_sequence e) previous) Hp1), (proj2 (mem_false (event_id e) ids) Hp2). done. }
  change (exists state, (st ← bind_event m (previous, ids) e; foldM (bind_event m) st events) = Ok state).
  rewrite Hst. cbn [mbind result_bind]. apply IH; [done..|]. rewrite Forall_map in Hlt. rewrite Forall_forall in *. intros e' He'. split; [by apply Hlt|].
  rewrite not_elem_of_cons. split; [|by apply Hp]. intros Heq. apply Hni. rewrite <- Heq. by apply list_elem_of_fmap_2.
Qed.

Lemma str_canon v : str_of (canon v) = str_of v.
Proof. by destruct v. Qed.
Lemma int_canon v : int_of (canon v) = int_of v.
Proof. by destruct v. Qed.

Lemma canon_bound m e : distinct_keys e -> event_bound m e -> event_bound m (canon e).
Proof.
  intros Hd [H1' H2']. unfold event_bound. rewrite !plainRecordField_canon, !str_canon by done. done.
Qed.
Lemma canon_sequence e : distinct_keys e -> event_sequence (canon e) = event_sequence e.
Proof. intros Hd. unfold event_sequence. by rewrite plainRecordField_canon, int_canon. Qed.
Lemma canon_event_id e : distinct_keys e -> event_id (canon e) = event_id e.
Proof. intros Hd. unfold event_id. by rewrite plainRecordField_canon, str_canon. Qed.

Lemma valid_known e : validateSchema event e = true -> known_event e = true /\ (1 <= event_sequence e)%Z.
Proof.
  unfold validateSchema, SCHEMA_REGISTRY, EventSchema. intros [[Hs _]%andb_true_iff _]%andb_true_iff.
  destruct e as [| | | | | |fields]; try discriminate Hs. unfold strictObject in Hs. apply andb_true_iff in Hs as [[Hr _]%andb_true_iff _].
  rewrite forallb_Forall in Hr. split.
  - specialize (Hr ("event_type", enumerated EVENT_TYPES)). unfold known_event. cbn [plainRecordField fst snd] in *.
    destruct (andb_prop _ _ (Hr ltac:(set_solver))) as [_ He]. destruct (jfield fields "event_type"); try done.
  - specialize (Hr ("sequence", TInteger 1)). unfold event_sequence. cbn [plainRecordField fst snd] in *.
    destruct (andb_prop _ _ (Hr ltac:(set_solver))) as [_ He]. destruct (jfield fields "sequence") as [| | |[z| |]| | |]; try done.
    cbn in He. by apply Z.leb_le in He.
Qed.

(** The shard of an operation's events. *)
Lemma events_written d m p records content :
  resolveHarnessPath (op_event_file m) = Ok (split_on "/" (op_event_file m)) ->
  d !! split_on "/" (op_event_file m) = Some (File content) -> jfield m "event_file_digest" = JStr (sha256 content) ->
  serializeJsonl records = Ok content ->
  Forall (fun v => json_literals v = true) records -> Forall (fun v => validateSchema event v = true) records ->
  Forall (event_bound m) records -> StronglySorted Z.lt (map event_sequence records) -> NoDup (map event_id records) ->
  readCommittedEventShard d (Committed m p) false = Ok (map canon records).
Proof.
  intros Hp Hf Hd Hs Hl Hv Hb Ho Hn. unfold readCommittedEventShard. cbn [manifest]. rewrite Hd. cbn [opt_str].
  rewrite (shard_written d _ event records content) by done. cbn [mbind result_bind].
  pose proof (serialized_distinct _ _ Hs) as Hdk.
  assert (map event_sequence (map canon records) = map event_sequence records) as Hes.
  { rewrite map_map. clear -Hdk. induction Hdk as [|v l Hv Hl IH]; [done|]. cbn. by rewrite canon_sequence, IH. }
  assert (map event_id (map canon records) = map event_id records) as Hei.
  { rewrite map_map. clear -Hdk. induction Hdk as [|v l Hv Hl IH]; [done|]. cbn. by rewrite canon_event_id, IH. }
  assert (Forall (fun v => validateSchema event v = true) (map canon records)) as Hvc.
  { apply Forall_map. rewrite Forall_forall in *. intros v Hin. rewrite validateSchema_stable; auto. }
  destruct (bind_events m (map canon records) 0%Z []) as [state ->].
  - apply Forall_map. rewrite Forall_forall in *. intros v Hin. apply canon_bound; auto.
  - by rewrite Hes.
  - by rewrite Hei.
  - rewrite Forall_forall in *. intros v Hin. split; [|by apply not_elem_of_nil]. destruct (valid_known v (Hvc v Hin)) as [_ ?]. lia.
  - cbn [mbind result_bind]. f_equal. rewrite Forall_forall in Hvc. clear -Hvc. induction (map canon records) as [|v l IH]; [done|]. cbn.
    destruct (valid_known v (Hvc v ltac:(left))) as [-> _]. f_equal. apply IH. intros w Hw. apply Hvc. by right.
Qed.

(** ** Manifests *)

Lemma manifest_read draft m text readerVersion : (forall s, re_match digest_regex (sha256 s) = true) ->
  buildManifest draft = Ok m -> legal_draft draft = true -> canonicalizeJson (JObj m) = Ok text ->
  match md_required_reader_version draft with
  | Some v => assertProtocolReaderCanProject readerVersion v true = Ok ()
  | None => True
  end ->
  parseManifest (md_ledger_operation_id draft +:+ ".json") (text +:+ line_feed) readerVersion = Ok (read_back m).
Proof.
  intros Hh Hb Hl Ht Hv. destruct (manifest_canon draft m Hb) as [Hc Hj]. unfold parseManifest.
  rewrite (parse_written _ _ Hj Ht), Hc. fold (read_back m). cbn [plainRecordField].
  assert (jfield (read_back m) "required_reader_version" = match md_required_reader_version draft with Some v => JStr v | None => JUndefined end) as ->.
  { rewrite (read_back_field draft m) by done. apply buildManifest_Ok in Hb as (digest & _ & ->). unfold manifest_content.
    by destruct (md_required_reader_version draft). }
  assert (validateSchema ledger_operation (JObj (read_back m)) = true) as Hvalid.
  { unfold read_back. rewrite <- Hc, validateSchema_stable; [by rewrite (manifest_valid draft m)|]. apply distinct_canon. by eapply writeValue_distinct. }
  assert (op_id (read_back m) = md_ledger_operation_id draft) as Hid.
  { unfold op_id. rewrite (read_back_field draft m) by done. by apply buildManifest_Ok in Hb as (digest & _ & ->). }
  rewrite Hvalid, (read_back_digest draft m Hb), Hid. cbn [lift_canonical map_err mbind result_bind negb reject_if].
  rewrite bool_decide_true by done. destruct (md_required_reader_version draft) as [v|]; [by rewrite Hv|done].
Qed.

(** ** Committed operations are valid *)

Lemma parse_manifest_valid fileName raw r m : parseManifest fileName raw r = Ok m ->
  validateSchema ledger_operation (JObj m) = true /\ fileName = op_id m +:+ ".json".
Proof.
  unfold parseManifest. destruct (JSON_parse raw) as [v|]; [|done]. intros (_ & _ & Hm)%bind_Ok.
  destruct (validateSchema ledger_operation v) eqn:Ev; [|done]. destruct v as [| | | | | |fields]; try done.
  apply bind_Ok in Hm as (ok & _ & Hm). apply reject_bind_Ok in Hm as [_ Hm]. apply reject_bind_Ok in Hm as [Hn [= <-]].
  split; [done|]. by apply negb_false_iff, bool_decide_eq_true in Hn.
Qed.

Lemma read_operation_valid d r name op : readCommittedOperation d r name = Ok op ->
  validateSchema ledger_operation (JObj (manifest op)) = true /\ name = op_id (manifest op) +:+ ".json".
Proof.
  unfold readCommittedOperation. intros [_ Ho]%reject_bind_Ok. apply bind_Ok in Ho as (p & _ & Ho).
  apply bind_Ok in Ho as (raw & _ & Ho). apply bind_Ok in Ho as (m & Hm & [= <-]). by eapply parse_manifest_valid.
Qed.

Lemma operations_valid d r ops : d !! OPERATIONS = Some Directory -> readCommittedOperations d r = Ok ops ->
  (forall op, op ∈ ops -> validateSchema ledger_operation (JObj (manifest op)) = true) /\
  (forall id, is_Some (d !! (OPERATIONS ++ [id +:+ ".json"])) -> ends_with ".json" (id +:+ ".json") = true -> exists op, op ∈ ops /\ op_id (manifest op) = id).
Proof.
  intros Hd Ho. rewrite read_operations in Ho by done. apply bind_Ok in Ho as (l & Hl & Hs). apply (inj Ok) in Hs. split.
  - intros op Hin. rewrite <- Hs in Hin. rewrite elem_of_js_sort in Hin. apply (elem_of_mapM _ _ _ _ Hl) in Hin as (name & _ & Hop).
    by apply read_operation_valid in Hop as [? _].
  - intros id Hid He. assert (id +:+ ".json" ∈ manifest_names d) as Hin by by apply manifest_names_spec.
    apply mapM_Ok in Hl. apply list_elem_of_lookup in Hin as [i Hi]. destruct (Forall2_lookup_l _ _ _ _ _ Hl Hi) as (op & Hop & Hr).
    exists op. split; [rewrite <- Hs; rewrite elem_of_js_sort; by eapply list_elem_of_lookup_2|].
    apply read_operation_valid in Hr as [_ Hn]. symmetry. clear -Hn. revert Hn. generalize (op_id (manifest op)) as t.
    induction id as [|a id IH]; intros [|b t]; cbn; intros Hn; try done.
    + exfalso. apply (f_equal String.length) in Hn. cbn in Hn. rewrite length_append in Hn. cbn in Hn. lia.
    + exfalso. apply (f_equal String.length) in Hn. cbn in Hn. rewrite length_append in Hn. cbn in Hn. lia.
    + injection Hn as -> Hn. f_equal. by apply IH.
Qed.

Lemma shard_heads m : validateSchema ledger_operation (JObj m) = true ->
  (exists r, split_on "/" (op_edge_file m) = "ledger" :: "edges" :: r) /\ (exists r, split_on "/" (op_event_file m) = "events" :: r).
Proof.
  unfold validateSchema. intros [[Hs _]%andb_true_iff _]%andb_true_iff. cbn [SCHEMA_REGISTRY] in Hs. unfold LedgerOperationSchema in Hs. split.
  - pose proof (required_field _ _ _ "edge_file" (TPattern (SHARD_FILE "ledger/edges/")) Hs) as Hf. cbn [plainRecordField] in Hf.
    destruct (TString_Some _ _ (Hf ltac:(cbn; do 8 right; left))) as (s & Hj & Hp). unfold op_edge_file. rewrite Hj. cbn [str_of].
    apply RLit_prefix in Hp as [t ->]. exists (split_on "/" t).
    change ("ledger/edges/" +:+ t) with ("ledger" +:+ String "/" ("edges" +:+ String "/" t)). by rewrite !split_on_app.
  - pose proof (required_field _ _ _ "event_file" (TPattern (SHARD_FILE "events/")) Hs) as Hf. cbn [plainRecordField] in Hf.
    destruct (TString_Some _ _ (Hf ltac:(cbn; do 9 right; left))) as (s & Hj & Hp). unfold op_event_file. rewrite Hj. cbn [str_of].
    apply RLit_prefix in Hp as [t ->]. exists (split_on "/" t).
    change ("events/" +:+ t) with ("events" +:+ String "/" t). by rewrite split_on_app.
Qed.

Lemma ends_with_app t suffix : ends_with suffix (t +:+ suffix) = true.
Proof.
  unfold ends_with. rewrite length_append. apply andb_true_iff. split; [apply Nat.leb_le; lia|]. apply bool_decide_eq_true.
  replace (String.length t + String.length suffix - String.length suffix)%nat with (String.length t) by lia. apply str_drop_app.
Qed.

Fixpoint last_char (s : string) : option ascii :=
  match s with EmptyString => None | String a EmptyString => Some a | String _ s' => last_char s' end.

Lemma last_char_drop n s : n < String.length s -> last_char (str_drop n s) = last_char s.
Proof.
  revert s. induction n as [|n IH]; intros [|a s] Hn; cbn in Hn; try lia; [done|]. cbn [str_drop]. rewrite IH by lia.
  destruct s; [cbn in Hn; lia|done].
Qed.

Lemma last_char_app t s : s <> "" -> last_char (t +:+ s) = last_char s.
Proof.
  intros Hs. induction t as [|a t IH]; [done|]. change (String a t +:+ s) with (String a (t +:+ s)). rewrite <- IH. cbn.
  destruct (t +:+ s) eqn:E; [|done]. by destruct t, s.
Qed.

Lemma ends_with_last suffix s : suffix <> "" -> ends_with suffix s = true -> last_char s = last_char suffix.
Proof.
  intros Hs [Hl%Nat.leb_le Hd%bool_decide_eq_true]%andb_true_iff. rewrite <- Hd. symmetry. apply last_char_drop.
  destruct suffix; [done|]. cbn in *. lia.
Qed.

Lemma temporary_not_json s : ends_with ".json" (s +:+ ".tmp") = false.
Proof.
  destruct (ends_with ".json" (s +:+ ".tmp")) eqn:E; [|done]. apply ends_with_last in E; [|done]. by rewrite last_char_app in E.
Qed.
End laws.

(* ------------------------------------------------------------------ *)
(** ** Merging *)

Abbreviation id_of op := (op_id (manifest op)).
Abbreviation digest_of op := (op_digest (manifest op)).
Abbreviation sequence_of op := (op_sequence (manifest op)).

(** The index has the operations of the list, by their ids. *)
Definition indexed (byId : gmap string CommittedOperation) (l : list CommittedOperation) : Prop :=
  NoDup (map (fun op => id_of op) l) /\ forall id op, byId !! id = Some op <-> op ∈ l /\ id_of op = id.

Lemma indexed_snoc byId l op : indexed byId l -> byId !! id_of op = None -> indexed (<[id_of op := op]> byId) (l ++ [op]).
Proof.
  intros [Hn Hi] Hnone. split.
  - rewrite map_app, NoDup_app. split_and!; [done| |by apply NoDup_singleton]. intros id (x & -> & Hx)%list_elem_of_fmap Hin.
    apply list_elem_of_singleton in Hin. assert (byId !! id_of x = Some x) as Hs by by apply Hi. congruence.
  - intros id x. rewrite elem_of_app, list_elem_of_singleton. destruct (decide (id_of op = id)) as [<-|Hne].
    + rewrite lookup_insert_eq. split; [intros [= <-]; split; [by right|done]|]. intros [[Hx| ->] Hid]; [|done].
      assert (byId !! id_of op = Some x) as Hs by by apply Hi. congruence.
    + rewrite lookup_insert_ne, Hi by done. split; [intros [? ?]; split; [by left|done]|]. intros [[Hx| ->] Hid]; done.
Qed.

Lemma index_by_id_spec l : NoDup (map (fun op => id_of op) l) -> indexed (index_by_id l) l.
Proof.
  unfold index_by_id. induction l as [|op l IH] using rev_ind; intros Hn.
  - split; [constructor|]. intros id op. cbn [foldl]. rewrite lookup_empty. split; [done|]. intros [Hin _]. by apply elem_of_nil in Hin.
  - rewrite foldl_app. cbn [foldl]. rewrite map_app, NoDup_app in Hn. destruct Hn as (Hn & Hd & _). apply indexed_snoc; [by apply IH|].
    destruct (IH Hn) as [_ Hi]. destruct (_ !! id_of op) as [x|] eqn:E; [|done]. apply Hi in E as [Hin Hid]. exfalso.
    apply (Hd (id_of op)); [|left]. apply list_elem_of_fmap. by exists x.
Qed.

Lemma merge_step_Ok state op state' : indexed state.1 state.2 -> merge_step state op = Ok state' ->
  indexed state'.1 state'.2 /\ (exists new, state'.2 = state.2 ++ new /\ Forall (fun x => x = op) new) /\
  exists x, x ∈ state'.2 /\ id_of x = id_of op /\ digest_of x = digest_of op.
Proof.
  destruct state as [byId l]. intros Hi. unfold merge_step. destruct (byId !! id_of op) as [x|] eqn:E.
  - intros [Hr [= <-]]%reject_bind_Ok. split; [done|]. split; [exists []; by rewrite app_nil_r|].
    apply negb_false_iff, bool_decide_eq_true in Hr. apply Hi in E as [Hin Hid]. by exists x.
  - intros [= <-]. cbn. split; [by apply indexed_snoc|]. split; [exists [op]; by repeat constructor|]. exists op.
    split; [|done]. apply elem_of_app. right. left.
Qed.

Lemma merge_steps_Ok incoming : forall state state', indexed state.1 state.2 -> foldM merge_step state incoming = Ok state' ->
  indexed state'.1 state'.2 /\ (exists new, state'.2 = state.2 ++ new /\ Forall (fun x => x ∈ incoming) new) /\
  forall op, op ∈ incoming -> exists x, x ∈ state'.2 /\ id_of x = id_of op /\ digest_of x = digest_of op.
Proof.
  induction incoming as [|op incoming IH]; intros state state' Hi Hf.
  - injection Hf as <-. split_and!; [apply Hi..|exists []; by rewrite app_nil_r|]. intros x Hx. by apply elem_of_nil in Hx.
  - change (foldM merge_step state (op :: incoming)) with (s ← merge_step state op; foldM merge_step s incoming) in Hf.
    apply bind_Ok in Hf as (s & Hs & Hf). destruct (merge_step_Ok _ _ _ Hi Hs) as (Hi1 & (n1 & E1 & F1) & (x & Hx & Hxi & Hxd)).
    destruct (IH s state' Hi1 Hf) as (Hi2 & (n2 & E2 & F2) & Hall). split; [done|]. split.
    + exists (n1 ++ n2). split; [by rewrite E2, E1, app_assoc|]. apply Forall_app. split.
      * eapply Forall_impl; [exact F1|]. intros y ->. left.
      * eapply Forall_impl; [exact F2|]. intros y Hy. by right.
    + intros y [->|Hy]%elem_of_cons; [|by apply Hall]. exists x. split; [|done]. rewrite E2. apply elem_of_app. by left.
Qed.

Definition no_fork (l : list CommittedOperation) : Prop :=
  forall x y, x ∈ l -> y ∈ l -> sequence_of x = sequence_of y -> id_of x = id_of y.

Lemma fork_steps l : forall idBySequence, is_ok (foldM fork_step idBySequence l) = true <->
  (forall x id, x ∈ l -> idBySequence !! sequence_of x = Some id -> id = id_of x) /\ no_fork l.
Proof.
  induction l as [|op l IH]; intros m.
  - split; [|done]. intros _. split; [intros x id Hx|intros x y Hx]; by apply elem_of_nil in Hx.
  - change (foldM fork_step m (op :: l)) with (m' ← fork_step m op; foldM fork_step m' l).
    change (fork_step m op) with (_ ← reject_if (match m !! sequence_of op with Some p => negb (bool_decide (p = id_of op)) | None => false end)
      sequence_error; Ok (<[sequence_of op := id_of op]> m)).
    destruct (match m !! sequence_of op with Some p => negb (bool_decide (p = id_of op)) | None => false end) eqn:E;
      cbn [reject_if mbind result_bind is_ok].
    + split; [done|]. intros [Hm _]. destruct (m !! sequence_of op) as [p|] eqn:Ep; [|done].
      rewrite (Hm op p ltac:(left) Ep), bool_decide_true in E by done. done.
    + assert (forall p, m !! sequence_of op = Some p -> p = id_of op) as Hop.
      { intros p Hp. rewrite Hp in E. by apply negb_false_iff, bool_decide_eq_true in E. }
      rewrite IH. split.
      * intros [Hm Hf]. assert (forall x, x ∈ l -> sequence_of x = sequence_of op -> id_of op = id_of x) as Hxo.
        { intros x Hx He. apply Hm; [done|]. by rewrite He, lookup_insert_eq. }
        split.
        -- intros x id [->|Hx]%elem_of_cons Hid; [by apply Hop|]. destruct (decide (sequence_of op = sequence_of x)) as [He|He].
           ++ rewrite <- He in Hid. rewrite (Hop _ Hid). by apply Hxo.
           ++ apply Hm; [done|]. by rewrite lookup_insert_ne.
        -- intros x y [->|Hx]%elem_of_cons [->|Hy]%elem_of_cons He; [done|by apply Hxo|symmetry; by apply Hxo|by apply Hf].
      * intros [Hm Hf]. split; [|intros x y Hx Hy; apply Hf; by right]. intros x id Hx Hid.
        destruct (decide (sequence_of op = sequence_of x)) as [He|He].
        -- rewrite He, lookup_insert_eq in Hid. injection Hid as <-. apply Hf; [left|by right|done].
        -- rewrite lookup_insert_ne in Hid by done. apply (Hm x); [by right|done].
Qed.

(** No operation of the two histories disagrees with another of its id. *)
Definition agree_on_ids (l : list CommittedOperation) : Prop :=
  forall x y, x ∈ l -> y ∈ l -> id_of x = id_of y -> digest_of x = digest_of y.

Lemma merge_steps_agree incoming : forall state, indexed state.1 state.2 -> agree_on_ids (state.2 ++ incoming) ->
  exists state', foldM merge_step state incoming = Ok state'.
Proof.
  induction incoming as [|op incoming IH]; intros state Hi Ha; [by eexists|].
  change (foldM merge_step state (op :: incoming)) with (s ← merge_step state op; foldM merge_step s incoming).
  assert (exists s, merge_step state op = Ok s) as [s Hs].
  { destruct state as [byId l]. unfold merge_step. destruct (byId !! id_of op) as [x|] eqn:E; [|by eexists].
    apply Hi in E as [Hin Hid]. rewrite bool_decide_true; [by eexists|]. apply Ha; [apply elem_of_app; by left| |done].
    apply elem_of_app. right. left. }
  rewrite Hs. cbn [mbind result_bind]. destruct (merge_step_Ok _ _ _ Hi Hs) as (Hi1 & (new & E & F) & _). apply IH; [done|].
  intros x y Hx Hy. rewrite Forall_forall in F.
  assert (forall z, z ∈ s.2 ++ incoming -> z ∈ state.2 ++ op :: incoming) as Hsub.
  { intros z. rewrite E, !elem_of_app, elem_of_cons. intros [[?|Hz]|?]; [by left|right; left; by apply F|right; by right]. }
  apply Ha; by apply Hsub.
Qed.

Lemma foldM_is_ok {E A B} (f : B -> A -> result E B) b l : is_ok (foldM f b l) = true <-> exists r, foldM f b l = Ok r.
Proof. destruct (foldM f b l); split; try done; [by eexists|by intros []]. Qed.


Definition sample_committed (id digest : string) (sequence : Z) : CommittedOperation :=
  {| manifest := [("ledger_operation_id", JStr id); ("sequence", JNum (NInt sequence)); ("digest", JStr digest)];
     manifestPath := OPERATIONS ++ [id +:+ ".json"] |}.

