(* ===== verification/Repository.v ===== *)
(** * Committing a ledger operation

    [packages/core/src/ledger/repository.ts]: the commit of a transaction as a
    sequence of effects on the disk, each of which the process may not survive,
    with the recovery report and the discarding of staging. *)

From stdpp Require Import gmap.
From S2P Require Import Prelude Regex Json Lease JsonText Schema Transaction Store.

(** ** Effects on the disk

    A computation runs on a disk with the number of effects the process lives
    for; [None] is a process that is not killed. *)

Inductive outcome (A : Type) : Type :=
| Done (a : A)
| Threw (e : ledger_error)
| Killed.
Arguments Done {A} a.
Arguments Threw {A} e.
Arguments Killed {A}.

Definition fsM (A : Type) : Type := disk -> option nat -> outcome A * disk * option nat.

#[export] Instance fsM_ret : MRet fsM := fun A a d b => (Done a, d, b).
#[export] Instance fsM_bind : MBind fsM := fun A B f m d b =>
  match m d b with
  | (Done a, d', b') => f a d' b'
  | (Threw e, d', b') => (Threw e, d', b')
  | (Killed, d', b') => (Killed, d', b')
  end.

Definition throw {A} (e : ledger_error) : fsM A := fun d b => (Threw e, d, b).
Definition lift {A} (m : ledgering A) : fsM A := match m with Ok a => mret a | Err e => throw e end.
Definition reads {A} (f : disk -> ledgering A) : fsM A := fun d b => lift (f d) d b.
Definition get_disk : fsM disk := fun d b => (Done d, d, b).

(** One effect, and what is left of it when the process is killed in it. *)
Definition mutate (after killed : disk -> disk) : fsM unit := fun d b =>
  match b with
  | Some 0 => (Killed, killed d, b)
  | Some (S n) => (Done (), after d, Some n)
  | None => (Done (), after d, None)
  end.

Fixpoint for_each {A} (f : A -> fsM unit) (l : list A) : fsM unit :=
  match l with [] => mret () | x :: l' => _ ← f x; for_each f l' end.

(** What a killed process leaves: a torn file under the name it was writing, or
    none; some of the entries of a tree it was removing. *)
Class Crash : Type := {
  torn : string -> option string;
  survives : path -> bool }.

Fixpoint strip_path (dir p : path) : option path :=
  match dir, p with
  | [], _ => Some p
  | x :: dir', y :: p' => if decide (x = y) then strip_path dir' p' else None
  | _ :: _, [] => None
  end.
Definition under (dir p : path) : bool := bool_decide (is_Some (strip_path dir p)).

Definition dirname (p : path) : path := removelast p.
Definition is_directory (d : disk) (p : path) : bool := bool_decide (p = [] \/ d !! p = Some Directory).

Definition mkdir (p : path) : fsM unit := fun d b =>
  match d !! p with
  | Some Directory => (Done (), d, b)
  | Some (File _) => (Threw io_error, d, b)
  | None => mutate (<[p := Directory]>) id d b
  end.

(** [mkdirSync(.., { recursive: true })] *)
Fixpoint mkdir_below (base rest : path) : fsM unit :=
  match rest with
  | [] => mret ()
  | x :: rest' => _ ← mkdir (base ++ [x]); mkdir_below (base ++ [x]) rest'
  end.
Definition mkdirp (p : path) : fsM unit := mkdir_below [] p.

Section effects.
Context `{Crash}.

Definition writeFileFsync (p : path) (content : string) : fsM unit := fun d b =>
  if negb (is_directory d (dirname p)) || is_directory d p then (Threw io_error, d, b)
  else mutate (<[p := File content]>)
         (fun d => match torn content with Some t => <[p := File t]> d | None => d end) d b.

Definition renameSync (from to : path) : fsM unit := fun d b =>
  match d !! from with
  | Some (File content) =>
      if negb (is_directory d (dirname to)) || is_directory d to then (Threw io_error, d, b)
      else mutate (fun d => <[to := File content]> (delete from d)) id d b
  | _ => (Threw io_error, d, b)
  end.

Definition rmFile (p : path) : fsM unit := mutate (delete p) id.

(** [rmSync(.., { recursive: true, force: true })] *)
Definition rmTree (p : path) : fsM unit :=
  mutate (fun d => filter (fun e => under p e.1 = false) d)
         (fun d => filter (fun e => under p e.1 = false \/ survives e.1 = true) d).
End effects.

(** ** Contents *)

Fixpoint path_cmp (p q : path) : Z :=
  match p, q with
  | [], [] => 0
  | [], _ => -1
  | _, [] => 1
  | x :: p', y :: q' => let c := str_cmp x y in if (c =? 0)%Z then path_cmp p' q' else c
  end.

(** The files below a directory, relative to it: the names of every directory
    in order, a directory's files in its place. *)
Definition listFilesRecursive (d : disk) (dir : path) : list path :=
  js_sort path_cmp (omap (fun e => match e.2 with File _ => strip_path dir e.1 | Directory => None end) (map_to_list d)).

(** [path.join] *)
Definition join_path (base segments : path) : path :=
  foldl (fun p segment => if decide (segment = "" \/ segment = ".") then p
                          else if decide (segment = "..") then removelast p else p ++ [segment]) base segments.

(** ** The repository *)

(** [waiting] is what other writers do to the disk between the first look and
    the lock; [None] when the lock does not become available. *)
Record LedgerRepositoryOptions : Type := {
  readBaseline : string;
  now_context : string;
  now_commit : string;
  deviceOf : path -> Z;
  readerVersion : option string;
  waiting : option (disk -> disk) }.

Record InputDigests : Type := {
  artifactDigests : list string;
  edgeContent : string;
  eventContent : string;
  edgeFileDigest : string;
  eventFileDigest : string }.

Record CommitContext : Type := { operationId : string; stagingDir : path; edgeFile : string; eventFile : string }.

Inductive CommitResult : Type :=
| committed (m : LedgerOperation)
| already_committed (m : LedgerOperation).

Inductive StagingStatus : Type := staging_committed | staging_incomplete.
Record RecoveryReport : Type := {
  staging : list (string * StagingStatus);
  orphanShards : list string }.

Section repository.
Context `{Hash} `{DateTime} `{Readdir} `{Crash}.
Variable options : LedgerRepositoryOptions.

Definition reader : string := default PROTOCOL_1_4_VERSION (readerVersion options).

Definition computeInputDigests (input : TransactionInput) : ledgering InputDigests :=
  edges ← serializeJsonl (ti_edges input);
  events ← serializeJsonl (ti_events input);
  Ok {| artifactDigests := map (fun a => sha256 (ar_content a)) (ti_artifacts input);
        edgeContent := edges; eventContent := events;
        edgeFileDigest := sha256 edges; eventFileDigest := sha256 events |}.

Definition operations (d : disk) : ledgering (list CommittedOperation) := readCommittedOperations d reader.

Definition readManifest (operationId : string) (d : disk) : ledgering (option LedgerOperation) :=
  ops ← operations d;
  Ok (manifest <$> find_first (fun op => bool_decide (op_id (manifest op) = operationId)) ops).

(** The draft of an input, at a sequence and with shard files. *)
Definition draft_of (input : TransactionInput) (digests : InputDigests) (sequence : Z) (edge_file event_file committed_at : string) : ManifestDraft :=
  {| md_ledger_operation_id := ti_ledger_operation_id input; md_workflow_operation_id := ti_workflow_operation_id input;
     md_attempt_id := ti_attempt_id input; md_baseline_commit := ti_expected_baseline input; md_sequence := sequence;
     md_artifact_digests := artifactDigests digests; md_edge_file := edge_file; md_event_file := event_file;
     md_edge_file_digest := edgeFileDigest digests; md_event_file_digest := eventFileDigest digests;
     md_required_reader_version := ti_required_reader_version input; md_committed_at := committed_at |}.

Definition resolveRetry (existing : LedgerOperation) (input : TransactionInput) (digests : InputDigests) : ledgering CommitResult :=
  candidateDigest ← lift_canonical (manifestDigest (draft_of input digests (op_sequence existing) (op_edge_file existing)
    (op_event_file existing) (str_of (jfield existing "committed_at"))));
  _ ← reject_if (negb (bool_decide (candidateDigest = op_digest existing))) ledger_conflict;
  Ok (already_committed existing).

Definition newContext (id : string) : ledgering CommitContext :=
  month ← shardMonthFor (now_context options);
  staging_path ← stagingRelativePath id;
  staging_dir ← resolveHarnessPath staging_path;
  edges ← edgeShardRelativePath month id;
  events ← eventShardRelativePath month id;
  Ok {| operationId := id; stagingDir := staging_dir; edgeFile := edges; eventFile := events |}.

Definition ensureDirectories (artifactPaths : list string) : fsM unit :=
  _ ← for_each mkdirp [["staging"]; ["locks"]; OPERATIONS];
  for_each (fun p =>
    match removelast (split_on "/" p) with
    | [] => mret ()
    | parent => if bool_decide (join "/" parent = "") then mret ()
                else dir ← lift (resolveHarnessPath (join "/" parent)); mkdirp dir
    end) artifactPaths.

Definition acquireWriteLock : fsM unit := fun d b =>
  match waiting options with
  | Some others => (Done (), others d, b)
  | None => (Threw lock_unavailable, d, b)
  end.

Definition assertSameVolumeAtomicity (paths : list path) : ledgering unit :=
  reject_if (negb (length (dedup (map (deviceOf options) paths)) =? 1)%nat) unsupported_atomicity.

Definition proveAtomicity (context : CommitContext) : fsM unit :=
  edges ← lift (resolveHarnessPath (edgeFile context));
  events ← lift (resolveHarnessPath (eventFile context));
  let shardParents := [dirname edges; dirname events] in
  _ ← for_each mkdirp shardParents;
  _ ← mkdirp (stagingDir context);
  lift (assertSameVolumeAtomicity ([[]; stagingDir context; OPERATIONS] ++ shardParents)).

(** What is staged, in order. *)
Definition staged_files (input : TransactionInput) (digests : InputDigests) (context : CommitContext) : list (path * string) :=
  map (fun a => (join_path (stagingDir context) (split_on "/" (ar_path a)), ar_content a)) (ti_artifacts input) ++
  [(stagingDir context ++ ["edges.jsonl"], edgeContent digests); (stagingDir context ++ ["events.jsonl"], eventContent digests)].

Definition readBack (staged : path * string) : fsM unit :=
  content ← reads (fun d => readFile d staged.1);
  lift (reject_if (negb (bool_decide (sha256 content = sha256 staged.2))) corruption).

Definition writeStaging (input : TransactionInput) (digests : InputDigests) (context : CommitContext) : fsM (gmap path string) :=
  _ ← mkdirp (stagingDir context);
  let staged := staged_files input digests context in
  _ ← for_each (fun s => _ ← mkdirp (dirname s.1); writeFileFsync s.1 s.2) staged;
  _ ← for_each readBack staged;
  mret (foldl (fun m s => <[s.1 := sha256 s.2]> m) ∅ staged).

(** Where a staged file goes. *)
Definition target_of (context : CommitContext) (relative : path) : ledgering path :=
  let relativeName := join "/" relative in
  resolveHarnessPath
    (if bool_decide (relativeName = "edges.jsonl") then edgeFile context
     else if bool_decide (relativeName = "events.jsonl") then eventFile context
     else relativeName).

Definition publish_one (stagedDigests : gmap path string) (context : CommitContext) (relative : path) : fsM unit :=
  to ← lift (target_of context relative);
  let from := stagingDir context ++ relative in
  stagedBytes ← reads (fun d => readFile d from);
  _ ← lift (reject_if (match stagedDigests !! from with
                       | Some expectedDigest => negb (bool_decide (sha256 stagedBytes = expectedDigest))
                       | None => false
                       end) corruption);
  d ← get_disk;
  if existsSync d to then
    targetBytes ← reads (fun d => readFile d to);
    if bool_decide (sha256 stagedBytes = sha256 targetBytes) then rmFile from else throw ledger_conflict
  else renameSync from to.

Definition publishShards (stagedDigests : gmap path string) (context : CommitContext) : fsM unit :=
  d ← get_disk;
  let moves := listFilesRecursive d (stagingDir context) in
  _ ← for_each (fun relative => to ← lift (target_of context relative); mkdirp (dirname to)) moves;
  for_each (publish_one stagedDigests context) moves.

Definition publishManifest (m : LedgerOperation) : fsM unit :=
  relative ← lift (operationManifestRelativePath (op_id m));
  target ← lift (resolveHarnessPath relative);
  let temporary := dirname target ++ ["." +:+ op_id m +:+ ".tmp"] in
  text ← lift (lift_canonical (canonicalizeJson (JObj m)));
  _ ← writeFileFsync temporary (text +:+ line_feed);
  renameSync temporary target.

(** The body of [commit] once the lock is held. *)
Definition commit_locked (input : TransactionInput) (digests : InputDigests) : fsM CommitResult :=
  let id := ti_ledger_operation_id input in
  context ← lift (newContext id);
  existing ← reads (readManifest id);
  match existing with
  | Some m => lift (resolveRetry m input digests)
  | None =>
      _ ← proveAtomicity context;
      stagedDigests ← writeStaging input digests context;
      _ ← lift (reject_if (negb (bool_decide (validateTransaction input = []))) validation_failed);
      ops ← reads (fun d => readCommittedOperations d PROTOCOL_1_4_VERSION);
      let sequence := nextSequence ops in
      _ ← lift (assertAppendOnly ops id sequence);
      _ ← lift (reject_if (negb (bool_decide (readBaseline options = ti_expected_baseline input))) baseline_mismatch);
      _ ← publishShards stagedDigests context;
      m ← lift (lift_canonical (buildManifest (draft_of input digests sequence (edgeFile context) (eventFile context) (now_commit options))));
      _ ← publishManifest m;
      _ ← rmTree (stagingDir context);
      mret (committed m)
  end.

Definition commit (input : TransactionInput) : fsM CommitResult :=
  let id := ti_ledger_operation_id input in
  _ ← lift (assertLedgerOperationId id);
  digests ← lift (computeInputDigests input);
  existing ← reads (readManifest id);
  match existing with
  | Some m => lift (resolveRetry m input digests)
  | None =>
      _ ← ensureDirectories (map ar_path (ti_artifacts input));
      _ ← acquireWriteLock;
      commit_locked input digests
  end.

Definition replay (d : disk) : ledgering ReplayResult := replayLedger d reader.

(** ** Recovery *)

Definition safeEntries (d : disk) (p : path) : list string :=
  match d !! p with Some Directory => readdir d p | _ => [] end.

Definition recover (d : disk) : ledgering RecoveryReport :=
  report ← mapM (fun name =>
    relative ← operationManifestRelativePath name;
    p ← resolveHarnessPath relative;
    Ok (name, if existsSync d p then staging_committed else staging_incomplete)) (safeEntries d ["staging"]);
  ops ← operations d;
  let referenced := flat_map (fun op => [op_edge_file (manifest op); op_event_file (manifest op)]) ops in
  let shards := flat_map (fun root => flat_map (fun month => map (fun file => join "/" (root ++ [month; file]))
                  (safeEntries d (root ++ [month]))) (safeEntries d root)) [["ledger"; "edges"]; ["events"]] in
  Ok {| staging := report; orphanShards := List.filter (fun shard => negb (mem shard referenced)) shards |}.

Definition discardStaging (id : string) : fsM unit :=
  relative ← lift (operationManifestRelativePath id);
  p ← lift (resolveHarnessPath relative);
  d ← get_disk;
  if existsSync d p then throw ledger_conflict
  else
    staging_path ← lift (stagingRelativePath id);
    dir ← lift (resolveHarnessPath staging_path);
    rmTree dir.
End repository.
