(* ===== verification/Commit.v ===== *)
(** * What a commit leaves on the disk

    Crash safety of [Repository.commit]: a small logic for computations that
    may be killed in any effect, the invariant a commit keeps until its manifest
    is renamed into place, and what it means for the readers. *)

From stdpp Require Import gmap.
From S2P Require Import Prelude Regex Json Lease JsonText Schema Transaction Store Repository.

(** ** A logic with a crash condition

    From a disk of [P] a computation that is not killed ends in [Q]; a disk it
    is killed on is in [I], and one it throws on in [T]; and it does not throw
    when [R]. *)
Definition triple {A : Type} (R : Prop) (T I P : disk -> Prop) (m : fsM A) (Q : A -> disk -> Prop) : Prop :=
  forall d b, P d ->
  match m d b with
  | (Done a, d', b') => Q a d' /\ (b = None -> b' = None)
  | (Threw _, d', _) => T d' /\ (R -> False)
  | (Killed, d', _) => I d' /\ b <> None
  end.

Section logic.
Context {R : Prop} {T I : disk -> Prop}.

Lemma triple_ret {A : Type} (P : disk -> Prop) (a : A) : triple R T I P (mret a) (fun x d => x = a /\ P d).
Proof. by intros d b Hp. Qed.

Lemma triple_bind {A B : Type} (P : disk -> Prop) (m : fsM A) (f : A -> fsM B) Q Q' :
  triple R T I P m Q -> (forall a, triple R T I (Q a) (f a) Q') -> triple R T I P (m ≫= f) Q'.
Proof.
  intros Hm Hf d b Hp. specialize (Hm d b Hp). unfold mbind, fsM_bind. destruct (m d b) as [[[a|e|] d'] b']; [|done..].
  destruct Hm as [Hq Hb]. specialize (Hf a d' b' Hq). destruct (f a d' b') as [[[a'|e'|] d''] b'']; naive_solver.
Qed.

Lemma triple_conseq {A : Type} (I' P P' : disk -> Prop) (m : fsM A) (Q Q' : A -> disk -> Prop) :
  triple R T I P m Q -> (forall d, P' d -> P d) -> (forall a d, Q a d -> Q' a d) -> (forall d, I d -> I' d) -> triple R T I' P' m Q'.
Proof. intros Hm Hp Hq Hi d b Hd. specialize (Hm d b (Hp d Hd)). destruct (m d b) as [[[a|e|] d'] b']; naive_solver. Qed.

Lemma triple_pre {A : Type} (P P' : disk -> Prop) (m : fsM A) (Q : A -> disk -> Prop) :
  triple R T I P m Q -> (forall d, P' d -> P d) -> triple R T I P' m Q.
Proof. intros Hm Hp d b Hd. exact (Hm d b (Hp d Hd)). Qed.

(** What a step needs of the disk may be looked at first. *)
Lemma triple_look {A : Type} (P : disk -> Prop) (m : fsM A) Q : (forall d0, P d0 -> triple R T I (fun d => d = d0) m Q) -> triple R T I P m Q.
Proof. intros Hm d b Hd. by apply (Hm d Hd d b). Qed.

Lemma triple_lift {A : Type} (P : disk -> Prop) (m : ledgering A) :
  (forall d, P d -> T d) -> (R -> exists a, m = Ok a) -> triple R T I P (lift m) (fun a d => m = Ok a /\ P d).
Proof.
  intros Hi Hr d b Hd. destruct m as [a|e]; cbn; [done|]. split; [by apply Hi|]. intros HR. by destruct (Hr HR).
Qed.

Lemma triple_reads {A : Type} (P : disk -> Prop) (f : disk -> ledgering A) :
  (forall d, P d -> T d) -> (forall d, P d -> R -> exists a, f d = Ok a) -> triple R T I P (reads f) (fun a d => f d = Ok a /\ P d).
Proof.
  intros Hi Hr d b Hd. unfold reads. destruct (f d) as [a|e] eqn:E; cbn; [done|]. split; [by apply Hi|]. intros HR.
  destruct (Hr d Hd HR). congruence.
Qed.

Lemma lift_ok {A B : Type} (a : A) (f : A -> fsM B) : lift (Ok a) ≫= f = f a.
Proof. reflexivity. Qed.

Lemma triple_get (P : disk -> Prop) : triple R T I P get_disk (fun a d => a = d /\ P d).
Proof. by intros d b Hd. Qed.

Lemma triple_mutate (P : disk -> Prop) after killed Q :
  (forall d, P d -> Q () (after d)) -> (forall d, P d -> I (killed d)) -> triple R T I P (mutate after killed) Q.
Proof. intros Ha Hk d [[|n]|] Hd; cbn; naive_solver. Qed.

Lemma triple_throw {A : Type} (P : disk -> Prop) e Q : (forall d, P d -> T d /\ (R -> False)) -> triple R T I P (@throw A e) Q.
Proof. intros Hp d b Hd. cbn. by apply Hp. Qed.

(** A loop: [P done] holds when the elements of [done] are dealt with. *)
Lemma triple_for_each {A : Type} (P : list A -> disk -> Prop) (f : A -> fsM unit) l :
  (forall l1 x l2, l = l1 ++ x :: l2 -> triple R T I (P l1) (f x) (fun _ => P (l1 ++ [x]))) ->
  triple R T I (P []) (for_each f l) (fun _ => P l).
Proof.
  intros Hf. cut (forall l2 l1, l = l1 ++ l2 -> triple R T I (P l1) (for_each f l2) (fun _ => P l)).
  { intros Hc. by apply (Hc l []). }
  induction l2 as [|x l2 IH]; intros l1 Hl; cbn [for_each].
  - rewrite app_nil_r in Hl. rewrite <- Hl. eapply triple_conseq; [apply (triple_ret (P l))|done|by intros ? ? [_ ?]|done].
  - eapply triple_bind; [by apply (Hf l1 x l2)|]. intros []. apply IH. by rewrite <- app_assoc.
Qed.

Lemma triple_loop {A : Type} (P : disk -> Prop) (f : A -> fsM unit) l :
  (forall x, x ∈ l -> triple R T I P (f x) (fun _ => P)) -> triple R T I P (for_each f l) (fun _ => P).
Proof.
  intros Hf. apply (triple_for_each (fun _ => P)). intros l1 x l2 ->. apply Hf. set_solver.
Qed.
End logic.

(** ** Paths *)

Lemma strip_path_spec dir p r : strip_path dir p = Some r <-> p = dir ++ r.
Proof.
  revert p. induction dir as [|x dir IH]; intros p; cbn; [naive_solver|]. destruct p as [|y p]; [naive_solver|].
  case_decide as Hxy; [subst; rewrite IH; naive_solver|naive_solver].
Qed.

Lemma under_spec dir p : under dir p = true <-> dir `prefix_of` p.
Proof.
  unfold under. rewrite bool_decide_eq_true. split.
  - intros [r Hr]. apply strip_path_spec in Hr as ->. by exists r.
  - intros [r ->]. exists r. by apply strip_path_spec.
Qed.

(** [q] is a directory above [p]. *)
Definition above (q p : path) : Prop := exists x r, p = q ++ x :: r.

Lemma above_dirname q p : above q p -> q `prefix_of` dirname p.
Proof.
  intros (x & r & ->). unfold dirname. rewrite removelast_app by done. by eexists.
Qed.

Lemma dirname_above q p : p <> [] -> q `prefix_of` dirname p -> above q p.
Proof.
  intros Hp [r Hr]. destruct (exists_last Hp) as (p' & x & ->). unfold dirname in Hr. rewrite removelast_last in Hr. subst p'.
  destruct r as [|y r]; [exists x, []; by rewrite app_nil_r|]. exists y, (r ++ [x]). by rewrite <- app_assoc.
Qed.

Lemma listFilesRecursive_spec d dir r : r ∈ listFilesRecursive d dir <-> exists c, d !! (dir ++ r) = Some (File c).
Proof.
  unfold listFilesRecursive. rewrite elem_of_js_sort, list_elem_of_omap. split.
  - intros ([p [c|]] & Hin & Hr); [|done]. cbn in *. apply strip_path_spec in Hr as ->. exists c. by apply elem_of_map_to_list.
  - intros [c Hc]. exists (dir ++ r, File c). split; [by apply elem_of_map_to_list|]. by apply strip_path_spec.
Qed.

Lemma listFilesRecursive_NoDup d dir : NoDup (listFilesRecursive d dir).
Proof.
  unfold listFilesRecursive. rewrite js_sort_Permutation. pose proof (NoDup_fst_map_to_list d) as Hn.
  induction (map_to_list d) as [|[p e] l IH]; [constructor|]. cbn in Hn. apply NoDup_cons in Hn as [Hp Hn]. cbn.
  destruct e as [c|]; [|by apply IH]. destruct (strip_path dir p) as [r|] eqn:E; [|by apply IH]. constructor; [|by apply IH].
  rewrite list_elem_of_omap. intros ([q [c'|]] & Hin & Hr); [|done]. cbn in Hr. apply strip_path_spec in E as ->, Hr as ->.
  apply Hp, list_elem_of_fmap. by exists (dir ++ r, File c').
Qed.

(** ** Where a transaction puts its files *)

(** A file of the transaction: its place below the staging directory, the place
    it is published at, and its content. *)
Record Move : Type := { mv_rel : path; mv_to : path; mv_content : string }.

#[export] Instance Move_eq_dec : EqDecision Move.
Proof. solve_decision. Defined.

Definition staging_of (id : string) : path := ["staging"; id].
Definition temporary_of (id : string) : path := OPERATIONS ++ ["." +:+ id +:+ ".tmp"].
Definition manifest_of (id : string) : path := OPERATIONS ++ [id +:+ ".json"].
(** [WRITE_LOCK_RELATIVE_PATH] *)
Definition lock_path : path := ["locks"; "write.lock"].
Definition edge_path (month id : string) : path := ["ledger"; "edges"; month; id +:+ ".jsonl"].
Definition event_path (month id : string) : path := ["events"; month; id +:+ ".jsonl"].

Definition artifact_move (a : TransactionArtifact) : Move :=
  {| mv_rel := split_on "/" (ar_path a); mv_to := split_on "/" (ar_path a); mv_content := ar_content a |}.

Section commit.
Context `{Hash} `{DateTime} `{Readdir} `{Crash}.
Variable input : TransactionInput.
Variable digests : InputDigests.
Variable month : string.

Abbreviation id := (ti_ledger_operation_id input).
Abbreviation SD := (staging_of id).
Abbreviation tmp := (temporary_of id).
Abbreviation tgt := (manifest_of id).

Definition moves : list Move :=
  map artifact_move (ti_artifacts input) ++
  [{| mv_rel := ["edges.jsonl"]; mv_to := edge_path month id; mv_content := edgeContent digests |};
   {| mv_rel := ["events.jsonl"]; mv_to := event_path month id; mv_content := eventContent digests |}].

Definition staged (m : Move) : path := SD ++ mv_rel m.

(** Every path a commit of the transaction writes. *)
Definition written : list path := map staged moves ++ map mv_to moves ++ [tmp; tgt; lock_path].

Variable d0 : disk.
Variable R : Prop.

(** What may be new outside the staging directory: directories above what is
    written and published files, none of them in the directory of the manifests
    and none of the files staged. *)
Definition fresh_entry (d : disk) (p : path) : Prop :=
  d0 !! p = None /\ dirname p <> OPERATIONS /\
  ((d !! p = Some Directory /\ (R -> exists u, u ∈ written /\ above p u)) \/ p ∈ map mv_to moves /\ ~ above ["staging"] p).

(** A published file, in a directory. *)
Definition in_place (m : Move) (d : disk) : Prop :=
  d !! mv_to m = Some (File (mv_content m)) /\ is_directory d (dirname (mv_to m)) = true.

(** Only the staging directory and the temporary file differ from the first
    disk, and new entries. *)
Definition kept (d : disk) : Prop := forall p,
  SD `prefix_of` p \/ p = tmp \/ d !! p = d0 !! p \/ fresh_entry d p.

(** Nothing but files of the transaction is staged. *)
Definition clean (d : disk) : Prop := forall p c, d !! p = Some (File c) -> SD `prefix_of` p -> p ∈ map staged moves.

(** Nothing is in the way of the transaction. *)
Definition ready (d : disk) : Prop :=
  (forall m, m ∈ moves -> d !! mv_to m = None \/ d !! mv_to m = Some (File (mv_content m))) /\
  (forall u q c, u ∈ written -> q <> [] -> above q u -> d !! q <> Some (File c)) /\
  (forall u, u ∈ map staged moves ++ [tmp; tgt] -> d !! u <> Some Directory).

Definition invariant (d : disk) : Prop := kept d /\ clean d /\ (R -> ready d).

Hypothesis paths_resolve : Forall (fun a => resolveHarnessPath (ar_path a) = Ok (split_on "/" (ar_path a))) (ti_artifacts input).
Hypothesis no_clash : R -> forall u v, u ∈ written -> v ∈ written -> ~ above u v.
Hypothesis distinct_staged : R -> NoDup (map staged moves).
Hypothesis distinct_targets : R -> NoDup (map mv_to moves).

Lemma moves_edges : {| mv_rel := ["edges.jsonl"]; mv_to := edge_path month id; mv_content := edgeContent digests |} ∈ moves.
Proof. unfold moves. apply elem_of_app. right. left. Qed.
Lemma moves_events : {| mv_rel := ["events.jsonl"]; mv_to := event_path month id; mv_content := eventContent digests |} ∈ moves.
Proof. unfold moves. apply elem_of_app. right. right. left. Qed.

Lemma dirname_snoc (p : path) x : dirname (p ++ [x]) = p.
Proof. unfold dirname. apply removelast_last. Qed.

Lemma staging_not_operations p : SD `prefix_of` p -> p <> tmp /\ p <> tgt /\ dirname p <> OPERATIONS /\ p <> OPERATIONS.
Proof.
  intros [r ->]. split_and!; [discriminate|discriminate| |discriminate]. destruct (decide (r = [])) as [->|Hr]; [discriminate|].
  unfold dirname. rewrite removelast_app by done. discriminate.
Qed.

Lemma staged_under m : SD `prefix_of` staged m.
Proof. by eexists. Qed.

Lemma elem_staged m : m ∈ moves -> staged m ∈ written /\ mv_to m ∈ written.
Proof.
  intros Hm. unfold written. split; apply elem_of_app; [left|right; apply elem_of_app; left]; by apply list_elem_of_fmap_2.
Qed.

Lemma written_tmp : tmp ∈ written.
Proof. unfold written. rewrite !elem_of_app. right. right. left. Qed.
Lemma written_tgt : tgt ∈ written.
Proof. unfold written. rewrite !elem_of_app. right. right. right. left. Qed.

Lemma written_lock : lock_path ∈ written.
Proof. unfold written. rewrite !elem_of_app. right. right. right. right. left. Qed.

Lemma elem_written u : u ∈ map staged moves ++ [tmp; tgt] -> u ∈ written.
Proof.
  rewrite elem_of_app. intros [Hu|Hu]; [unfold written; rewrite !elem_of_app; by left|].
  apply elem_of_cons in Hu as [->|Hu]; [apply written_tmp|]. apply list_elem_of_singleton in Hu as ->. apply written_tgt.
Qed.

(** *** Directories *)

Definition dir_ok (q : path) : Prop := dirname q <> OPERATIONS /\ (R -> exists u, u ∈ written /\ above q u).

Lemma above_irrefl q : ~ above q q.
Proof. intros (x & r & Hq). apply (f_equal length) in Hq. rewrite length_app in Hq. cbn in Hq. lia. Qed.

Lemma mkdir_invariant d q : invariant d -> d !! q = None -> q <> [] -> dir_ok q -> invariant (<[q := Directory]> d).
Proof.
  intros (Hk & Hc & Hr) Hq Hne [Hdir Hab]. split_and!.
  - intros p. unfold fresh_entry. destruct (decide (p = q)) as [->|Hpq]; [|rewrite lookup_insert_ne by done; apply Hk].
    rewrite lookup_insert_eq. destruct (Hk q) as [?|[?|[He|(? & ? & _)]]]; [by left|by right; left| |]; right; right; right; split_and!; auto.
    by rewrite <- He.
  - intros p c Hp. destruct (decide (p = q)) as [->|Hpq]; [by rewrite lookup_insert_eq in Hp|]. rewrite lookup_insert_ne in Hp by done. eauto.
  - intros HR. destruct (Hr HR) as (H1' & H2' & H3'). destruct (Hab HR) as (u & Hu & Hqu).
    assert (forall v, v ∈ written -> v <> q) as Hnq by (intros v Hv ->; by apply (no_clash HR q u)).
    split_and!.
    + intros m Hm. rewrite lookup_insert_ne; [by apply H1'|]. symmetry. by apply Hnq, elem_staged.
    + intros v p c Hv Hp Hpv. destruct (decide (p = q)) as [->|?]; [by rewrite lookup_insert_eq|]. rewrite lookup_insert_ne by done. eauto.
    + intros v Hv. rewrite lookup_insert_ne; [by apply H3'|]. symmetry. by apply Hnq, elem_written.
Qed.

(** A fact about the disk that new directories do not change. *)
Definition grows (E : disk -> Prop) : Prop := forall d q, E d -> d !! q = None -> E (<[q := Directory]> d).

Lemma mkdir_triple (q : path) (E : disk -> Prop) : grows E -> q <> [] -> dir_ok q ->
  triple R invariant invariant (fun d => invariant d /\ E d) (mkdir q) (fun _ d => invariant d /\ E d /\ d !! q = Some Directory).
Proof.
  intros HE Hne Hq d b [Hi He]. unfold mkdir. destruct (d !! q) as [[c|]|] eqn:Ed; [|done|].
  - split; [done|]. intros HR. destruct Hi as (_ & _ & Hr). destruct (Hr HR) as (_ & H2' & _). destruct Hq as [_ Hq].
    destruct (Hq HR) as (u & Hu & Hab). by eapply H2'.
  - apply (triple_mutate (fun d' => d' = d)); [intros ? ->|intros ? ->; exact Hi|done].
    split; [by apply mkdir_invariant|]. split; [by apply HE|]. apply lookup_insert_eq.
Qed.

Lemma mkdirp_triple (p : path) (E : disk -> Prop) : grows E -> (forall q, q <> [] -> q `prefix_of` p -> dir_ok q) ->
  triple R invariant invariant (fun d => invariant d /\ E d) (mkdirp p) (fun _ d => invariant d /\ E d /\ is_directory d p = true).
Proof.
  intros HE Hp. unfold mkdirp.
  cut (forall rest base, p = base ++ rest -> triple R invariant invariant (fun d => invariant d /\ E d /\ is_directory d base = true) (mkdir_below base rest)
         (fun _ d => invariant d /\ E d /\ is_directory d p = true)).
  { intros Hc. eapply triple_conseq; [apply (Hc p []); done|intros d [? ?]; by split_and!|done|done]. }
  induction rest as [|x rest IH]; intros base Hb; cbn [mkdir_below].
  - rewrite app_nil_r in Hb. rewrite Hb. by intros d b Hd.
  - eapply triple_bind.
    + eapply triple_conseq; [apply (mkdir_triple (base ++ [x]) E HE)| | |].
      * by destruct base.
      * apply Hp; [by destruct base|]. exists rest. by rewrite <- app_assoc.
      * by intros d (? & ? & _).
      * intros a d Hd. exact Hd.
      * done.
    + intros []. eapply triple_conseq; [apply (IH (base ++ [x]))| |done|done].
      * by rewrite <- app_assoc.
      * intros d (? & ? & Hd). split_and!; [done..|]. unfold is_directory. apply bool_decide_eq_true. by right.
Qed.

(** *** Targets *)

(** A place of a published file: neither it nor a directory above it is in the
    directory of the manifests, and it is not staged. *)
Definition safe (p : path) : Prop := (forall q, q `prefix_of` p -> dirname q <> OPERATIONS) /\ ~ above ["staging"] p.

Lemma staged_below p : SD `prefix_of` p -> above ["staging"] p.
Proof. intros [r ->]. by exists id, r. Qed.

Lemma dirname_operations q : dirname q = OPERATIONS -> exists x, q = OPERATIONS ++ [x].
Proof.
  intros Hq. destruct (decide (q = [])) as [->|Hne]; [discriminate Hq|]. destruct (exists_last Hne) as (p & x & ->).
  rewrite dirname_snoc in Hq. exists x. by rewrite Hq.
Qed.

Lemma safe_cons x y r : ~ (x = "ledger" /\ y = "operations") -> x <> "staging" -> safe (x :: y :: r).
Proof.
  intros Hl Hs. split.
  - intros q [k Hk] Hq. apply dirname_operations in Hq as [z ->]. cbn in Hk. injection Hk as Hx Hy _. tauto.
  - intros (z & k & Hk). cbn in Hk. congruence.
Qed.

Lemma safe_single x : safe [x].
Proof.
  split; [|intros (z & k & Hk); discriminate Hk]. intros q [k Hk] Hq. apply dirname_operations in Hq as [z ->]. cbn in Hk. discriminate Hk.
Qed.

Lemma split_starts x y r s : split_on "/" s = x :: y :: r -> starts_with s (x +:+ "/") = true.
Proof.
  intros Hs. apply starts_with_spec. exists (join "/" (y :: r)). rewrite <- (join_split_on "/" s), Hs, join_cons by done.
  change (String "/" "") with "/". by rewrite string_app_assoc.
Qed.

Lemma artifacts_issues_nil paths : forall seen i, artifacts_issues seen i paths = [] ->
  Forall (fun p => reserved_path p = false /\ illegal_path p = false) paths /\ NoDup paths /\ Forall (fun p => p ∉ seen) paths.
Proof.
  induction paths as [|p paths IH]; intros seen i Hi; cbn in Hi; [split_and!; constructor|].
  apply app_eq_nil in Hi as [Hp Hi]. destruct (IH _ _ Hi) as (H1' & H2' & H3'). unfold artifact_issues, when in Hp.
  destruct (reserved_path p) eqn:E1; [done|]. destruct (illegal_path p) eqn:E2; [done|]. destruct (mem p seen) eqn:E3; [done|].
  apply mem_false in E3. split_and!.
  - by constructor.
  - constructor; [|done]. intros Hin. rewrite Forall_forall in H3'. apply (H3' p Hin). left.
  - constructor; [done|]. eapply Forall_impl; [exact H3'|]. set_solver.
Qed.

Lemma target_safe m : validateTransaction input = [] -> m ∈ moves -> safe (mv_to m).
Proof.
  unfold validateTransaction. intros [Ha _]%app_eq_nil Hm. apply artifacts_issues_nil in Ha as (Ha & _ & _).
  rewrite Forall_map, Forall_forall in Ha. unfold moves in Hm. apply elem_of_app in Hm as [Hm|Hm].
  - apply list_elem_of_fmap in Hm as (a & -> & Hin). destruct (Ha a Hin) as [Hr _]. cbn [artifact_move mv_to].
    destruct (split_on "/" (ar_path a)) as [|x [|y r]] eqn:E; [by apply split_on_nonnil in E|apply safe_single|].
    apply split_starts in E. unfold reserved_path in Hr. cbn [existsb RESERVED_ARTIFACT_PREFIXES] in Hr.
    apply orb_false_iff in Hr as [Hr1 Hr2]. apply orb_false_iff in Hr2 as [_ Hr2]. apply orb_false_iff in Hr2 as [Hr2 _].
    apply safe_cons; [intros [-> _]; change ("ledger" +:+ "/") with "ledger/" in E|intros ->; change ("staging" +:+ "/") with "staging/" in E];
      congruence.
  - apply elem_of_cons in Hm as [->|Hm]; cbn [mv_to].
    + apply safe_cons; [intros [_ Hx]; discriminate Hx|discriminate].
    + apply list_elem_of_singleton in Hm as ->. apply safe_cons; [intros [Hx _]; discriminate Hx|discriminate].
Qed.

Lemma target_unstaged m : validateTransaction input = [] -> m ∈ moves -> ~ SD `prefix_of` mv_to m.
Proof. intros HV Hm Hp. destruct (target_safe m HV Hm) as [_ Hn]. by apply Hn, staged_below. Qed.

Hypothesis valid : R -> validateTransaction input = [].

(** *** Files *)

Lemma insert_invariant d (p : path) (c : string) : invariant d -> p ∈ map staged moves \/ p = tmp -> invariant (<[p := File c]> d).
Proof.
  intros (Hk & Hc & Hr) Hp.
  assert (SD `prefix_of` p \/ p = tmp) as Hs.
  { destruct Hp as [Hp| ->]; [left|by right]. apply list_elem_of_fmap in Hp as (m & -> & _). apply staged_under. }
  assert (p ∈ written) as Hw by (destruct Hp as [Hp| ->]; [apply elem_written, elem_of_app; by left|apply written_tmp]).
  split_and!.
  - intros q. unfold fresh_entry. destruct (decide (q = p)) as [->|Hq]; [tauto|]. rewrite lookup_insert_ne by done. apply Hk.
  - intros q c' Hq Hu. destruct (decide (q = p)) as [->|Hqp]; [|rewrite lookup_insert_ne in Hq by done; by eapply Hc].
    destruct Hp as [Hp| ->]; [done|]. by apply staging_not_operations in Hu as [? _].
  - intros HR. destruct (Hr HR) as (H1' & H2' & H3'). split_and!.
    + intros m Hm. rewrite lookup_insert_ne; [by apply H1'|]. destruct (target_safe m (valid HR) Hm) as [Hops _]; pose proof (target_unstaged m (valid HR) Hm) as Hns.
      intros ->. destruct Hs as [Hs|Hs]; [by apply Hns|]. apply (Hops (mv_to m)); [done|]. by rewrite Hs.
    + intros u q c' Hu Hq Hqu. destruct (decide (q = p)) as [->|?]; [by apply (no_clash HR p u) in Hqu|].
      rewrite lookup_insert_ne by done. eauto.
    + intros u Hu. destruct (decide (u = p)) as [->|?]; [by rewrite lookup_insert_eq|]. rewrite lookup_insert_ne by done. by apply H3'.
Qed.

(** A fact about the disk that writing [p] does not change. *)
Lemma write_triple (p : path) (c : string) (E : disk -> Prop) : p ∈ map staged moves \/ p = tmp ->
  (forall d, E d -> E (<[p := File c]> d)) ->
  triple R invariant invariant (fun d => invariant d /\ E d /\ is_directory d (dirname p) = true) (writeFileFsync p c)
    (fun _ d => invariant d /\ E d /\ d !! p = Some (File c)).
Proof.
  intros Hp HE d b (Hi & He & Hd). unfold writeFileFsync. rewrite Hd. cbn [negb orb]. destruct (is_directory d p) eqn:E1.
  - split; [done|]. intros HR. destruct Hi as (_ & _ & Hr). destruct (Hr HR) as (_ & _ & H3'). unfold is_directory in E1.
    apply bool_decide_eq_true in E1 as [->|E1].
    + destruct Hp as [Hp|Hp]; [|discriminate Hp]. apply list_elem_of_fmap in Hp as (m & Hm & _). discriminate Hm.
    + apply (H3' p); [|done]. apply elem_of_app. destruct Hp as [Hp| ->]; [by left|right; left].
  - apply (triple_mutate (fun d' => d' = d)); [intros ? ->|intros ? ->|done].
    + split; [by apply insert_invariant|]. split; [by apply HE|apply lookup_insert_eq].
    + destruct (torn c); [by apply insert_invariant|done].
Qed.

(** *** Staging *)

Variable options : LedgerRepositoryOptions.
Variable cx : CommitContext.

(** The context a commit of the input runs in. *)
Record context_ok : Prop := {
  co_staging : stagingDir cx = SD;
  co_edge : resolveHarnessPath (edgeFile cx) = Ok (edge_path month id);
  co_event : resolveHarnessPath (eventFile cx) = Ok (event_path month id);
  co_manifest : operationManifestRelativePath id = Ok ("ledger/operations/" +:+ id +:+ ".json");
  co_plain : no_char "/" id = true;
  co_target : resolveHarnessPath ("ledger/operations/" +:+ id +:+ ".json") = Ok tgt }.
Hypothesis Hcx : context_ok.

Hypothesis one_volume : R -> forall p q, deviceOf options p = deviceOf options q.

Lemma dirs_above (u : path) : u ∈ written -> u <> [] -> (forall q, q `prefix_of` u -> dirname q <> OPERATIONS) ->
  forall q, q <> [] -> q `prefix_of` dirname u -> dir_ok q.
Proof.
  intros Hu Hne Hops q Hq Hp. apply dirname_above in Hp; [|done]. split; [|by intros _; exists u].
  apply Hops. destruct Hp as (x & r & ->). by eexists.
Qed.

Lemma head_not_operations x r q : x <> "ledger" -> q `prefix_of` x :: r -> dirname q <> OPERATIONS.
Proof. intros Hx [k Hk] Hq. apply dirname_operations in Hq as [z ->]. cbn in Hk. congruence. Qed.

Lemma staged_dirs m : m ∈ moves -> forall q, q <> [] -> q `prefix_of` dirname (staged m) -> dir_ok q.
Proof.
  intros Hm. apply dirs_above; [by apply elem_staged|done|]. intros q. unfold staged, staging_of. cbn [app].
  apply head_not_operations. discriminate.
Qed.

Lemma grows_true : grows (fun _ => True).
Proof. done. Qed.

Lemma mkdirs_triple (p : path) : (forall q, q <> [] -> q `prefix_of` p -> dir_ok q) ->
  triple R invariant invariant invariant (mkdirp p) (fun _ => invariant).
Proof.
  intros Hp. eapply triple_conseq; [by apply (mkdirp_triple p (fun _ => True) grows_true)|done| |done]. by intros _ d (? & _).
Qed.

Lemma staging_dirs q : q <> [] -> q `prefix_of` SD -> dir_ok q.
Proof.
  intros Hq Hp. apply (staged_dirs _ moves_edges); [done|]. exact Hp.
Qed.

Lemma volume_ok paths : R -> paths <> [] -> assertSameVolumeAtomicity options paths = Ok ().
Proof.
  intros HR Hne. unfold assertSameVolumeAtomicity. destruct paths as [|p l]; [done|].
  assert (forall l, dedup_from [deviceOf options p] (map (deviceOf options) l) = []) as Hd.
  { induction l0 as [|q l0 IH]; [done|]. cbn. rewrite (one_volume HR q p). rewrite decide_True by left. exact IH. }
  unfold dedup. cbn. by rewrite Hd.
Qed.

Lemma proveAtomicity_triple : triple R invariant invariant invariant (proveAtomicity options cx) (fun _ => invariant).
Proof.
  unfold proveAtomicity. destruct Hcx as [Hs He Hv _ _ _]. rewrite He, lift_ok, Hv, lift_ok, Hs. cbv zeta.
  pose proof (elem_staged _ moves_edges) as [_ We]. pose proof (elem_staged _ moves_events) as [_ Wv]. cbn [mv_to] in We, Wv.
  eapply triple_bind; [|intros []; eapply triple_bind; [|intros []]].
  - apply triple_loop. intros p Hp. apply mkdirs_triple. apply elem_of_cons in Hp as [->|Hp].
    + apply dirs_above; [exact We|discriminate|]. intros q [k Hk] Hq. apply dirname_operations in Hq as [z ->]. discriminate Hk.
    + apply list_elem_of_singleton in Hp as ->. apply dirs_above; [exact Wv|discriminate|]. intros q. by apply head_not_operations.
  - apply mkdirs_triple, staging_dirs.
  - eapply triple_conseq; [apply triple_lift; [done|]|done|by intros ? ? [_ ?]|done].
    intros HR. exists (). by apply volume_ok.
Qed.

Lemma join_path_proper base p segments : resolveHarnessPath p = Ok segments -> join_path base (split_on "/" p) = base ++ split_on "/" p.
Proof.
  unfold resolveHarnessPath. intros [Hr _]%reject_bind_Ok. apply orb_false_iff in Hr as [_ Hr]. revert Hr. generalize (split_on "/" p) as l.
  intros l. revert base. unfold join_path. induction l as [|x l IH]; intros base Hr; cbn in *; [by rewrite app_nil_r|].
  apply orb_false_iff in Hr as [Hx Hr]. apply mem_false in Hx. rewrite !not_elem_of_cons in Hx. destruct Hx as (? & ? & ? & _).
  rewrite decide_False by tauto. rewrite decide_False by done. rewrite IH by done. by rewrite <- app_assoc.
Qed.

Lemma staged_files_moves : staged_files input digests cx = map (fun m => (staged m, mv_content m)) moves.
Proof.
  unfold staged_files, moves. rewrite (co_staging Hcx), map_app, map_map. f_equal. revert paths_resolve.
  generalize (ti_artifacts input) as l. induction 1 as [|a l Ha Hl IH]; [done|]. cbn [map]. rewrite IH. f_equal. unfold staged, artifact_move. cbn [mv_rel mv_content].
  by rewrite (join_path_proper _ _ _ Ha).
Qed.

(** The staged digests, in the order they are recorded. *)
Definition recorded (l : list Move) : gmap path string := foldl (fun m s => <[staged s := sha256 (mv_content s)]> m) ∅ l.

Lemma recorded_lookup l m : NoDup (map staged l) -> m ∈ l -> recorded l !! staged m = Some (sha256 (mv_content m)).
Proof.
  unfold recorded. induction l as [|x l IH] using rev_ind; [intros _ Hm; by apply elem_of_nil in Hm|].
  rewrite map_app, NoDup_app, foldl_app. intros (Hl & Hd & _) Hm. cbn. apply elem_of_app in Hm as [Hm|Hm].
  - rewrite lookup_insert_ne; [by apply IH|]. intros Heq. apply (Hd (staged m)); [by apply list_elem_of_fmap_2|]. apply list_elem_of_singleton. symmetry. exact Heq.
  - apply list_elem_of_singleton in Hm as ->. apply lookup_insert_eq.
Qed.

(** The files of [l] are staged. *)
Definition has_staged (l : list Move) (d : disk) : Prop := R -> forall m, m ∈ l -> d !! staged m = Some (File (mv_content m)).

Lemma has_staged_grows l : grows (has_staged l).
Proof.
  intros d q Hs Hq HR m Hm. specialize (Hs HR m Hm). rewrite lookup_insert_ne; [done|]. intros ->. congruence.
Qed.

Lemma stage_one l1 x l2 : moves = l1 ++ x :: l2 ->
  triple R invariant invariant (fun d => invariant d /\ has_staged l1 d) (_ ← mkdirp (dirname (staged x)); writeFileFsync (staged x) (mv_content x))
    (fun _ d => invariant d /\ has_staged (l1 ++ [x]) d).
Proof.
  intros Hm. assert (x ∈ moves) as Hx by (rewrite Hm; set_solver).
  eapply triple_bind.
  - apply (mkdirp_triple _ (has_staged l1)); [apply has_staged_grows|by apply staged_dirs].
  - intros []. eapply triple_conseq; [apply (write_triple (staged x) (mv_content x) (has_staged l1))| | |done].
    + left. by apply list_elem_of_fmap_2.
    + intros d Hs HR m Hin. specialize (Hs HR m Hin). rewrite lookup_insert_ne; [done|]. intros Heq.
      pose proof (distinct_staged HR) as Hn. rewrite Hm, map_app in Hn. apply NoDup_app in Hn as (_ & Hd & _).
      apply (Hd (staged m)); [by apply list_elem_of_fmap_2|]. cbn [map]. apply elem_of_cons. left. symmetry. exact Heq.
    + done.
    + cbn. intros _ d (Hi & Hs & Hf). split; [done|]. intros HR m Hin. apply elem_of_app in Hin as [Hin|Hin]; [by apply Hs|].
      apply list_elem_of_singleton in Hin as ->. exact Hf.
Qed.

Lemma for_each_map {A B : Type} (g : A -> B) (f : B -> fsM unit) l : for_each f (map g l) = for_each (fun x => f (g x)) l.
Proof. induction l as [|x l IH]; [done|]. cbn. by rewrite IH. Qed.

Lemma writeStaging_triple : triple R invariant invariant invariant (writeStaging input digests cx)
  (fun stagedDigests d => stagedDigests = recorded moves /\ invariant d /\ has_staged moves d).
Proof.
  unfold writeStaging. rewrite (co_staging Hcx), staged_files_moves. cbv zeta. rewrite !for_each_map.
  eapply triple_bind; [apply mkdirs_triple, staging_dirs|]. intros []. cbn [fst snd].
  eapply triple_bind.
  - eapply triple_conseq; [apply (triple_for_each (fun l d => invariant d /\ has_staged l d)); apply stage_one| |done|done].
    intros d Hd. split; [done|]. intros _ m Hm. by apply elem_of_nil in Hm.
  - intros []. eapply triple_bind.
    + apply (triple_loop (fun d => invariant d /\ has_staged moves d)). intros m Hm. unfold readBack. cbn [fst snd].
      eapply triple_bind; [apply triple_reads; [by intros d [? _]|]|].
      * intros d [_ Hs] HR. exists (mv_content m). unfold readFile. by rewrite (Hs HR m Hm).
      * intros c. apply triple_look. intros d1 [Hc [Hi Hs]].
        eapply triple_conseq; [apply (triple_lift (fun d => d = d1))|done|intros _ d [_ ->]; by split|done]; [intros d ->; exact Hi|].
        intros HR. unfold readFile in Hc. rewrite (Hs HR m Hm) in Hc. injection Hc as <-. exists (). rewrite (bool_decide_true (sha256 (mv_content m) = sha256 (mv_content m))) by done. done.
    + intros []. rewrite foldl_fmap. intros d b Hd. done.
Qed.

(** *** Publishing *)

Lemma staged_inj m m' : R -> m ∈ moves -> m' ∈ moves -> mv_rel m = mv_rel m' -> m = m'.
Proof. intros HR Hm Hm' He. apply (NoDup_keys_inj staged moves (distinct_staged HR)); [done..|]. unfold staged. by rewrite He. Qed.

Lemma target_inj m m' : R -> m ∈ moves -> m' ∈ moves -> mv_to m = mv_to m' -> m = m'.
Proof. intros HR. by apply (NoDup_keys_inj mv_to moves (distinct_targets HR)). Qed.

Lemma rel_split m : m ∈ moves -> mv_rel m = split_on "/" (join "/" (mv_rel m)).
Proof.
  unfold moves. intros [Hm|Hm]%elem_of_app.
  - apply list_elem_of_fmap in Hm as (a & -> & _). cbn [artifact_move mv_rel].
    pose proof (join_split_on "/" (ar_path a)) as Hj. change (String "/" "") with "/" in Hj. by rewrite Hj.
  - apply elem_of_cons in Hm as [->|Hm]; [done|]. by apply list_elem_of_singleton in Hm as ->.
Qed.

Lemma target_of_moves m : m ∈ moves -> exists m', m' ∈ moves /\ target_of cx (mv_rel m) = Ok (mv_to m') /\ (R -> m' = m).
Proof.
  intros Hm. pose proof (rel_split m Hm) as Hr. unfold target_of. cbv zeta. case_bool_decide as He; [|case_bool_decide as Hv].
  - rewrite (co_edge Hcx). eexists. split; [exact moves_edges|]. split; [done|]. intros HR. apply staged_inj; [done|exact moves_edges|done|].
    rewrite Hr, He. done.
  - rewrite (co_event Hcx). eexists. split; [exact moves_events|]. split; [done|]. intros HR. apply staged_inj; [done|exact moves_events|done|].
    rewrite Hr, Hv. done.
  - exists m. split; [done|]. split; [|done]. unfold moves in Hm. apply elem_of_app in Hm as [Hm|Hm].
    + apply list_elem_of_fmap in Hm as (a & -> & Ha). cbn [artifact_move mv_rel mv_to] in *.
      pose proof (join_split_on "/" (ar_path a)) as Hj. change (String "/" "") with "/" in Hj. rewrite Hj.
      rewrite Forall_forall in paths_resolve. by apply paths_resolve.
    + apply elem_of_cons in Hm as [->|Hm]; [by destruct He|]. apply list_elem_of_singleton in Hm as ->. by destruct Hv.
Qed.

Lemma is_directory_insert d q p : is_directory d p = true -> d !! q = None -> is_directory (<[q := Directory]> d) p = true.
Proof.
  unfold is_directory. rewrite !bool_decide_eq_true. intros [->|Hp] Hq; [by left|]. right. rewrite lookup_insert_ne; [done|]. congruence.
Qed.

Lemma target_dirs m : validateTransaction input = [] -> m ∈ moves -> forall q, q <> [] -> q `prefix_of` dirname (mv_to m) -> dir_ok q.
Proof.
  intros HV Hm. destruct (target_safe m HV Hm) as [Hs _]; pose proof (target_unstaged m HV Hm) as Hn. apply dirs_above; [by apply elem_staged| |exact Hs].
  intros He. unfold moves in Hm. apply elem_of_app in Hm as [Hm|Hm].
  - apply list_elem_of_fmap in Hm as (a & -> & _). by apply split_on_nonnil in He.
  - apply elem_of_cons in Hm as [->|Hm]; [done|]. by apply list_elem_of_singleton in Hm as ->.
Qed.

(** What is published when the files of [l] are. *)
Definition published (l : list path) (d : disk) : Prop := R -> forall m, m ∈ moves ->
  (mv_rel m ∈ l -> d !! mv_to m = Some (File (mv_content m))) /\ ((mv_rel m ∉ l) -> d !! staged m = Some (File (mv_content m))) /\
  is_directory d (dirname (mv_to m)) = true.

Lemma delete_invariant d (p : path) : invariant d -> SD `prefix_of` p -> invariant (delete p d).
Proof.
  intros (Hk & Hc & Hr) Hp. split_and!.
  - intros q. unfold fresh_entry. destruct (decide (q = p)) as [->|Hq]; [by left|]. rewrite lookup_delete_ne by done. apply Hk.
  - intros q c Hq Hu. apply lookup_delete_Some in Hq as [_ Hq]. by eapply Hc.
  - intros HR. destruct (Hr HR) as (H1' & H2' & H3'). split_and!.
    + intros m Hm. destruct (decide (mv_to m = p)) as [->|Hne]; [left; apply lookup_delete_eq|]. rewrite lookup_delete_ne by done. by apply H1'.
    + intros u q c Hu Hne Hqu Hq. apply lookup_delete_Some in Hq as [_ Hq]. by eapply H2'.
    + intros u Hu Hq. apply lookup_delete_Some in Hq as [_ Hq]. by eapply H3'.
Qed.

Lemma publish_invariant d m : validateTransaction input = [] -> m ∈ moves -> invariant d -> d !! mv_to m = None ->
  forall c, (R -> c = mv_content m) -> invariant (<[mv_to m := File c]> d).
Proof.
  intros HV Hm (Hk & Hc & Hr) Hnone c Hcont. destruct (target_safe m HV Hm) as [Hs _]; pose proof (target_unstaged m HV Hm) as Hn.
  assert (dirname (mv_to m) <> OPERATIONS) as Hd by by apply Hs.
  split_and!.
  - intros q. unfold fresh_entry. destruct (decide (q = mv_to m)) as [->|Hq]; [|rewrite lookup_insert_ne by done; apply Hk]. right. right. right.
    split_and!; [|done|right; split; [by apply list_elem_of_fmap_2|by apply target_safe]]. destruct (Hk (mv_to m)) as [?|[Ht|[He|[He _]]]]; [done| |by rewrite <- He|done].
    by rewrite Ht in Hd.
  - intros q c' Hq Hu. destruct (decide (q = mv_to m)) as [->|Hqp]; [done|]. rewrite lookup_insert_ne in Hq by done. by eapply Hc.
  - intros HR. destruct (Hr HR) as (H1' & H2' & H3'). split_and!.
    + intros m' Hm'. destruct (decide (mv_to m' = mv_to m)) as [He|Hne]; [|rewrite lookup_insert_ne by done; by apply H1'].
      apply (target_inj m' m HR) in He as ->; [|done..]. right. by rewrite lookup_insert_eq, Hcont.
    + intros u q c' Hu Hq Hqu. destruct (decide (q = mv_to m)) as [->|?].
      * apply (no_clash HR (mv_to m) u) in Hqu; [done|by apply elem_staged|done].
      * rewrite lookup_insert_ne by done. by eapply H2'.
    + intros u Hu. destruct (decide (u = mv_to m)) as [->|?]; [by rewrite lookup_insert_eq|]. rewrite lookup_insert_ne by done. by apply H3'.
Qed.

(** Publishing one more file, by removing the staged copy or by the rename. *)
Lemma published_step l m d d' : validateTransaction input = [] -> m ∈ moves -> published l d -> (R -> mv_rel m ∉ l) ->
  (R -> d' !! mv_to m = Some (File (mv_content m))) ->
  (R -> forall p, p <> staged m -> p <> mv_to m -> d' !! p = d !! p) -> (R -> d !! mv_to m <> Some Directory) -> published (l ++ [mv_rel m]) d'.
Proof.
  intros HV Hm Hp Hl Ht Hsame Hdir HR m' Hm'. specialize (Hsame HR). destruct (Hp HR m' Hm') as (P1 & P2 & P3).
  assert (forall a b, a ∈ moves -> b ∈ moves -> mv_to a <> staged b) as Hts.
  { intros a b Ha Hb He. apply (target_unstaged a HV Ha). rewrite He. apply staged_under. }
  split_and!.
  - intros Hin. destruct (decide (m' = m)) as [->|Hne]; [by apply Ht|]. apply elem_of_app in Hin as [Hin|Hin].
    + rewrite Hsame; [by apply P1|by apply Hts|]. intros He. by apply Hne, target_inj.
    + apply list_elem_of_singleton in Hin. by apply staged_inj in Hin.
  - intros Hin. apply not_elem_of_app in Hin as [Hin1 Hin2]. rewrite Hsame; [by apply P2| |apply not_eq_sym; by apply Hts].
    intros He. apply Hin2, list_elem_of_singleton. unfold staged in He. by apply app_inv_head in He.
  - unfold is_directory in *. rewrite bool_decide_eq_true in *. destruct P3 as [?|P3]; [by left|]. right.
    rewrite Hsame; [done| |].
    + intros He. rewrite He in P3. destruct (Hp HR m Hm) as (_ & P2' & _). rewrite P2' in P3 by by apply Hl. done.
    + intros He. apply (Hdir HR). by rewrite <- He.
Qed.

Lemma target_nonempty m : m ∈ moves -> mv_to m <> [].
Proof.
  intros Hm E. unfold moves in Hm. apply elem_of_app in Hm as [Hm|Hm].
  - apply list_elem_of_fmap in Hm as (a & -> & _). by apply split_on_nonnil in E.
  - apply elem_of_cons in Hm as [->|Hm]; [done|]. by apply list_elem_of_singleton in Hm as ->.
Qed.

Lemma readFile_Ok d p c : readFile d p = Ok c <-> d !! p = Some (File c).
Proof. unfold readFile. destruct (d !! p) as [[?|]|]; naive_solver. Qed.

(** The two ways a file is published, from a disk [d1] where it is staged. *)
Section publish_one.
Variables (l : list path) (m m' : Move) (d1 : disk) (c : string).
Hypothesis HV : validateTransaction input = [].
Hypothesis Hm : m ∈ moves.
Hypothesis Hm' : m' ∈ moves.
Hypothesis HRm : R -> m' = m.
Hypothesis Hl : R -> mv_rel m ∉ l.
Hypothesis Hi : invariant d1.
Hypothesis Hp : published l d1.
Hypothesis Hf : d1 !! staged m = Some (File c).
Hypothesis Hcm : R -> c = mv_content m.

Lemma ready_target : R -> d1 !! mv_to m = None \/ d1 !! mv_to m = Some (File (mv_content m)).
Proof. intros HR. destruct Hi as (_ & _ & Hr). by apply (Hr HR). Qed.

Lemma publish_existing : existsSync d1 (mv_to m') = true ->
  triple R invariant invariant (fun d => d = d1)
    (targetBytes ← reads (fun d => readFile d (mv_to m'));
     if bool_decide (sha256 c = sha256 targetBytes) then rmFile (staged m) else throw ledger_conflict)
    (fun _ d => invariant d /\ published (l ++ [mv_rel m]) d).
Proof.
  intros Ex. apply bool_decide_eq_true in Ex as [e Ex].
  assert (R -> d1 !! mv_to m' = Some (File (mv_content m))) as Hfm.
  { intros HR. rewrite (HRm HR) in *. destruct (ready_target HR); congruence. }
  eapply triple_bind; [apply (triple_reads (fun d => d = d1)); [by intros d ->|]|].
  { intros d -> HR. exists (mv_content m). by apply readFile_Ok, Hfm. }
  intros c'. apply triple_look. intros d2 [Hc'%readFile_Ok ->]. case_bool_decide as Hsha.
  - unfold rmFile. apply triple_mutate; [intros d ->|by intros d ->]. split; [by apply delete_invariant; [|apply staged_under]|].
    apply (published_step l m d1); [done..| | |].
    + intros HR. rewrite <- (Hfm HR), (HRm HR). rewrite lookup_delete_ne; [done|]. intros He.
      apply (target_unstaged m HV Hm). rewrite <- He. apply staged_under.
    + intros _ p Hps _. by rewrite lookup_delete_ne.
    + intros HR. rewrite <- (HRm HR). congruence.
  - apply triple_throw. intros d ->. split; [done|]. intros HR. apply Hsha. rewrite (Hfm HR) in Hc'. rewrite (Hcm HR). congruence.
Qed.

Lemma publish_rename : existsSync d1 (mv_to m') = false ->
  triple R invariant invariant (fun d => d = d1) (renameSync (staged m) (mv_to m')) (fun _ d => invariant d /\ published (l ++ [mv_rel m]) d).
Proof.
  intros Ex. apply bool_decide_eq_false, eq_None_not_Some in Ex. intros d b ->. unfold renameSync. rewrite Hf. destruct (negb _ || _) eqn:Eb.
  - split; [done|]. intros HR. rewrite (HRm HR) in *. destruct (Hp HR m Hm) as (_ & _ & P3). rewrite P3 in Eb. cbn in Eb.
    unfold is_directory in Eb. apply bool_decide_eq_true in Eb as [E|E]; [by apply target_nonempty in E|congruence].
  - apply (triple_mutate (fun d => d = d1)); [intros ? ->|by intros ? ->|done]. split.
    + apply publish_invariant; [done|done|by apply delete_invariant; [|apply staged_under]| |by intros HR; rewrite (HRm HR); auto].
      apply lookup_delete_None. by right.
    + apply (published_step l m d1); [done..| | |].
      * intros HR. rewrite (HRm HR), lookup_insert_eq, Hcm by done. done.
      * intros HR p Hps Hpt. rewrite lookup_insert_ne by (rewrite (HRm HR); congruence). by rewrite lookup_delete_ne.
      * intros HR. rewrite <- (HRm HR). congruence.
Qed.
End publish_one.

Lemma publish_one_triple l m stagedDigests : validateTransaction input = [] -> m ∈ moves -> (R -> mv_rel m ∉ l) ->
  stagedDigests = recorded moves ->
  triple R invariant invariant (fun d => invariant d /\ published l d) (publish_one stagedDigests cx (mv_rel m))
    (fun _ d => invariant d /\ published (l ++ [mv_rel m]) d).
Proof.
  intros HV Hm Hl ->. destruct (target_of_moves m Hm) as (m' & Hm' & Hto & HRm). unfold publish_one. rewrite Hto, lift_ok, (co_staging Hcx).
  cbv zeta. change (SD ++ mv_rel m) with (staged m). apply triple_look. intros d1 [Hi Hp].
  assert (R -> d1 !! staged m = Some (File (mv_content m))) as Hst.
  { intros HR. destruct (Hp HR m Hm) as (_ & P2 & _). by apply P2, Hl. }
  eapply triple_bind; [apply (triple_reads (fun d => d = d1)); [by intros d ->|]|].
  { intros d -> HR. exists (mv_content m). by apply readFile_Ok, Hst. }
  intros c. apply triple_look. intros d2 [Hf%readFile_Ok ->].
  assert (R -> c = mv_content m) as Hcm by (intros HR; rewrite (Hst HR) in Hf; congruence).
  eapply triple_bind; [apply (triple_lift (fun d => d = d1)); [by intros d ->|]|].
  { intros HR. exists (). rewrite (recorded_lookup _ _ (distinct_staged HR) Hm), (Hcm HR).
    rewrite (bool_decide_true (sha256 (mv_content m) = sha256 (mv_content m))) by done. done. }
  intros []. eapply triple_bind; [eapply triple_conseq; [apply (triple_get (fun d => d = d1))|by intros d [_ ->]|done|done]|].
  cbv beta. intros d2. apply triple_look. intros d3 [-> ->]. destruct (existsSync d1 (mv_to m')) eqn:Ex.
  - by apply publish_existing.
  - by eapply publish_rename.
Qed.

Lemma published_start d moved : has_staged moves d -> (R -> forall m, m ∈ moves -> is_directory d (dirname (mv_to m)) = true) ->
  moved = [] -> published moved d.
Proof.
  intros Hs Hd -> HR m Hm. split_and!; [by intros ?%elem_of_nil|by intros _; apply Hs|by apply Hd].
Qed.

(** The directories of the targets of [l] exist. *)
Definition targets_dirs (l : list path) (d : disk) : Prop :=
  R -> forall m, m ∈ moves -> mv_rel m ∈ l -> is_directory d (dirname (mv_to m)) = true.

Lemma targets_dirs_grows l : grows (fun d => has_staged moves d /\ targets_dirs l d).
Proof.
  intros d q [Hs Hd] Hq. split; [by apply has_staged_grows|]. intros HR m Hm Hl. by apply is_directory_insert; [apply Hd|].
Qed.

Lemma publishShards_triple stagedDigests : validateTransaction input = [] -> stagedDigests = recorded moves ->
  triple R invariant invariant (fun d => invariant d /\ has_staged moves d) (publishShards stagedDigests cx)
    (fun _ d => invariant d /\ (R -> forall m, m ∈ moves -> in_place m d)).
Proof.
  intros HV Hrec. unfold publishShards. rewrite (co_staging Hcx). apply triple_look. intros d1 [Hi Hs].
  eapply triple_bind; [eapply triple_conseq; [apply (triple_get (fun d => d = d1))|by intros d ->|done|done]|].
  cbv beta. intros d2. apply triple_look. intros d3 [-> ->]. cbv zeta. set (L := listFilesRecursive d1 SD).
  assert (forall r, r ∈ L -> exists m, m ∈ moves /\ r = mv_rel m) as HL.
  { intros r Hr. apply listFilesRecursive_spec in Hr as [c Hc]. destruct Hi as (_ & Hcl & _).
    assert (SD ++ r ∈ map staged moves) as Hin by (eapply Hcl; [exact Hc|by eexists]).
    apply list_elem_of_fmap in Hin as (m & He & Hm). exists m. split; [done|]. unfold staged in He. by apply app_inv_head in He. }
  assert (R -> forall m, m ∈ moves -> mv_rel m ∈ L) as HR'.
  { intros HR m Hm. apply listFilesRecursive_spec. eexists. by apply (Hs HR). }
  pose proof (listFilesRecursive_NoDup d1 SD) as Hn. fold L in Hn.
  eapply triple_bind.
  - eapply triple_conseq;
      [apply (triple_for_each (fun l d => invariant d /\ has_staged moves d /\ targets_dirs l d) _ L)| |done|done].
    + intros l1 r l2 Hl. destruct (HL r) as (m & Hm & ->); [rewrite Hl; set_solver|].
      destruct (target_of_moves m Hm) as (m' & Hm' & Hto & HRm). rewrite Hto, lift_ok.
      eapply triple_conseq; [apply (mkdirp_triple _ _ (targets_dirs_grows l1)); by apply target_dirs|done| |done].
      cbv beta. intros _ d (Hi' & [Hs' Hd'] & Hdir). split_and!; [done..|]. intros HR m1 Hm1 Hin.
      apply elem_of_app in Hin as [Hin|Hin]; [by apply Hd'|]. apply list_elem_of_singleton in Hin.
      apply staged_inj in Hin as ->; [|done..]. by rewrite <- (HRm HR).
    + intros d ->. split_and!; [done..|]. intros HR m Hm Hin. by apply elem_of_nil in Hin.
  - intros []. eapply triple_conseq; [apply (triple_for_each (fun l d => invariant d /\ published l d) _ L)| | |done].
    + intros l1 r l2 Hl. destruct (HL r) as (m & Hm & ->); [rewrite Hl; set_solver|]. apply publish_one_triple; [done..| |done].
      intros _ Hin. rewrite Hl in Hn. apply NoDup_app in Hn as (_ & Hd & _). apply (Hd _ Hin). left.
    + cbv beta. intros d (Hi' & Hs' & Hd'). split; [done|]. apply published_start; [done..| |done]. intros HR m Hm. apply Hd'; auto.
    + cbv beta. intros _ d (Hi' & Hp). split; [done|]. intros HR m Hm. destruct (Hp HR m Hm) as (P1 & _ & P3). split; [apply P1; auto|done].
Qed.

(** ** What the readers see *)

Variable ops0 : list CommittedOperation.
Hypothesis operations_dir : d0 !! OPERATIONS = Some Directory.
Hypothesis reads_before : readCommittedOperations d0 PROTOCOL_1_4_VERSION = Ok ops0.
Hypothesis sequences_distinct : NoDup (sequences ops0).
Hypothesis sha_hex : forall s, re_match digest_regex (sha256 s) = true.
Hypothesis id_new : Forall (fun op => op_id (manifest op) <> id) ops0.

(** [kept], with the manifest and without the temporary file. *)
Definition extended (d : disk) : Prop := forall p,
  SD `prefix_of` p \/ p = tmp \/ p = tgt \/ d !! p = d0 !! p \/ fresh_entry d p.

Lemma kept_extended d : kept d -> extended d.
Proof. intros Hk p. specialize (Hk p). tauto. Qed.

Lemma extended_operations d : extended d -> d !! OPERATIONS = Some Directory.
Proof.
  intros He. destruct (He OPERATIONS) as [Hp|[Hp|[Hp|[->|[Hn _]]]]]; [|discriminate Hp|discriminate Hp|done|congruence].
  by apply staging_not_operations in Hp as (_ & _ & _ & ?).
Qed.

Lemma extended_manifest d name : extended d -> ends_with ".json" name = true -> name <> id +:+ ".json" ->
  d !! (OPERATIONS ++ [name]) = d0 !! (OPERATIONS ++ [name]).
Proof.
  intros He Hj Hn. destruct (He (OPERATIONS ++ [name])) as [Hp|[Hp|[Hp|[Hp|[_ Hp]]]]]; [| | |done|].
  - apply staging_not_operations in Hp as (_ & _ & Hd & _). by rewrite dirname_snoc in Hd.
  - apply app_inv_head in Hp. injection Hp as ->. pose proof (eq_trans (eq_sym Hj) (temporary_not_json ("." +:+ id))) as Hx. discriminate Hx.
  - apply app_inv_head in Hp. injection Hp as ->. done.
  - destruct Hp as [Hp _]. by rewrite dirname_snoc in Hp.
Qed.

Lemma target_absent : d0 !! tgt = None.
Proof.
  apply eq_None_not_Some. intros Hs. destruct (operations_valid d0 _ _ operations_dir reads_before) as [_ Hv].
  destruct (Hv id) as (op & Hin & Hop); [exact Hs|apply ends_with_app|]. rewrite Forall_forall in id_new. by apply (id_new op).
Qed.

Lemma kept_target d : kept d -> d !! tgt = None.
Proof.
  intros Hk. destruct (Hk tgt) as [Hp|[Hp|[->|[_ Hp]]]]; [| |apply target_absent|].
  - by apply staging_not_operations in Hp as (_ & ? & _).
  - apply app_inv_head in Hp. injection Hp as Hp. exfalso. pose proof (ends_with_app id ".json") as E. rewrite Hp in E.
    pose proof (eq_trans (eq_sym E) (temporary_not_json ("." +:+ id))) as Hx. discriminate Hx.
  - destruct Hp as [Hp _]. destruct Hp. apply dirname_snoc.
Qed.

(** Until the manifest is in place the readers see what they saw. *)
Lemma kept_reads d : kept d -> readCommittedOperations d PROTOCOL_1_4_VERSION = Ok ops0.
Proof.
  intros Hk. eapply read_operations_frame; [exact operations_dir|by apply extended_operations, kept_extended|exact reads_before|done|].
  intros name Hj. destruct (decide (name = id +:+ ".json")) as [->|Hn]; [|by apply extended_manifest; [apply kept_extended|..]].
  change (d !! tgt = d0 !! tgt). by rewrite target_absent, kept_target.
Qed.

Lemma extended_shard d p c r : extended d -> d0 !! p = Some (File c) -> p = "ledger" :: "edges" :: r \/ p = "events" :: r -> d !! p = d0 !! p.
Proof.
  intros He Hf Hp. destruct (He p) as [Hs|[Hs|[Hs|[Hs|[Hs _]]]]]; [| | |done|congruence].
  - destruct Hs as [k ->]. destruct Hp as [Hp|Hp]; discriminate Hp.
  - subst p. destruct Hp as [Hp|Hp]; discriminate Hp.
  - subst p. destruct Hp as [Hp|Hp]; discriminate Hp.
Qed.

Lemma extended_replay d op l : extended d -> op ∈ ops0 -> replay_operation d0 op = Ok l -> replay_operation d op = Ok l.
Proof.
  intros He Hop Hl. rewrite <- Hl. destruct (operations_valid d0 _ _ operations_dir reads_before) as [Hv _].
  destruct (shard_heads _ (Hv op Hop)) as [[r1 Hr1] [r2 Hr2]]. destruct (replay_operation_files _ _ _ Hl) as [[c1 Hc1] [c2 Hc2]].
  apply replay_operation_local; eapply extended_shard; eauto.
Qed.

Lemma extended_replays d ls : extended d -> mapM (replay_operation d0) ops0 = Ok ls -> mapM (replay_operation d) ops0 = Ok ls.
Proof.
  intros He Hl. apply mapM_Ok. apply mapM_Ok in Hl. apply Forall2_same_length_lookup_2.
  - by eapply Forall2_length.
  - intros i op l Hop Hi. destruct (Forall2_lookup_l _ _ _ _ _ Hl Hop) as (l' & Hl' & Hr). assert (l' = l) as -> by congruence.
    eapply extended_replay; [done| |done]. by eapply list_elem_of_lookup_2.
Qed.

Lemma kept_replay d rep : kept d -> replayLedger d0 PROTOCOL_1_4_VERSION = Ok rep -> replayLedger d PROTOCOL_1_4_VERSION = Ok rep.
Proof.
  unfold replayLedger. rewrite reads_before. intros Hk. rewrite (kept_reads d Hk). cbn [mbind result_bind].
  intros (ls & Hls & Hr)%bind_Ok. rewrite (extended_replays d ls); [exact Hr|by apply kept_extended|done].
Qed.

(** ** The commit *)

Definition the_draft : ManifestDraft :=
  draft_of input digests (nextSequence ops0) (edgeFile cx) (eventFile cx) (now_commit options).

Hypothesis legal : legal_draft the_draft = true.

(** The operation as the readers find it. *)
Definition new_operation (m : LedgerOperation) : CommittedOperation := Committed (read_back m) tgt.

Definition committed_disk (m : LedgerOperation) (d : disk) : Prop :=
  extended d /\ (exists text, canonicalizeJson (JObj m) = Ok text /\ d !! tgt = Some (File (text +:+ line_feed))) /\
  (R -> forall mv, mv ∈ moves -> in_place mv d) /\ clean d.

Lemma draft_field m k : buildManifest the_draft = Ok m ->
  jfield (read_back m) k = jfield (manifest_content the_draft ++ [("committed_at", JStr (now_commit options)); ("digest", jfield m "digest")]) k.
Proof.
  intros Hb. rewrite (read_back_field _ _ _ Hb). apply buildManifest_Ok in Hb as (digest & _ & ->).
  assert (jfield (manifest_content the_draft ++ [("committed_at", JStr (md_committed_at the_draft)); ("digest", JStr digest)]) "digest" = JStr digest) as ->; [|done].
  unfold manifest_content. by destruct (md_required_reader_version the_draft).
Qed.

Lemma reader_allows v : mem v [PROTOCOL_1_2_VERSION; PROTOCOL_1_3_VERSION; PROTOCOL_1_4_VERSION] = true ->
  assertProtocolReaderCanProject PROTOCOL_1_4_VERSION v true = Ok ().
Proof.
  rewrite mem_spec, !elem_of_cons. intros [->|[->|[->|Hv]]]; [vm_compute; reflexivity..|by apply elem_of_nil in Hv].
Qed.

Lemma committed_reads m d : buildManifest the_draft = Ok m -> committed_disk m d ->
  readCommittedOperations d PROTOCOL_1_4_VERSION = Ok (ops0 ++ [new_operation m]).
Proof.
  intros Hb (He & (text & Ht & Hf) & _).
  eapply (read_operations_insert d0 d _ _ (id +:+ ".json")); [exact operations_dir|by apply extended_operations|exact reads_before|done| | | | | |].
  - apply ends_with_app.
  - apply target_absent.
  - change (is_Some (d !! tgt)). by rewrite Hf.
  - intros n Hn Hj. by apply extended_manifest.
  - unfold readCommittedOperation. rewrite no_char_app, (co_plain Hcx), ends_with_app. cbn [negb orb reject_if andb mbind result_bind].
    change (no_char "/" ".json") with true. cbn [negb orb reject_if mbind result_bind]. rewrite (co_target Hcx). cbn [mbind result_bind].
    rewrite (proj2 (readFile_Ok _ _ _) Hf). cbn [mbind result_bind].
    change (id +:+ ".json") with (md_ledger_operation_id the_draft +:+ ".json").
    rewrite (manifest_read the_draft m text PROTOCOL_1_4_VERSION sha_hex Hb legal Ht); [done|].
    pose proof legal as Hl. unfold legal_draft in Hl. apply andb_true_iff in Hl as [Hl _]. apply andb_true_iff in Hl as [_ Hl].
    destruct (md_required_reader_version the_draft); [by apply reader_allows|done].
  - unfold op_sequence, new_operation. cbn [manifest]. by rewrite draft_field.
Qed.

Lemma move_not_manifest mv q : validateTransaction input = [] -> mv ∈ moves -> q `prefix_of` mv_to mv -> q <> tmp /\ q <> tgt.
Proof.
  intros HV Hm Hq. destruct (target_safe mv HV Hm) as [Hs _]. specialize (Hs _ Hq).
  split; intros He; apply Hs; rewrite He; apply dirname_snoc.
Qed.

Lemma dirname_prefix (p : path) : dirname p `prefix_of` p.
Proof.
  destruct (decide (p = [])) as [->|Hp]; [done|]. unfold dirname. exists [List.last p ""]. by apply app_removelast_last.
Qed.

(** A published file stays in place when nothing on its path changes. *)
Lemma in_place_frame mv d d' : (forall q, q `prefix_of` mv_to mv -> d' !! q = d !! q) -> in_place mv d -> in_place mv d'.
Proof.
  intros Hsame [Hf Hd]. split; [by rewrite Hsame|]. unfold is_directory in *. apply bool_decide_eq_true in Hd as [Hd|Hd]; apply bool_decide_eq_true.
  - by left.
  - right. rewrite Hsame; [done|apply dirname_prefix].
Qed.

Definition all_published (d : disk) : Prop := R -> forall mv, mv ∈ moves -> in_place mv d.

Lemma publishManifest_triple m : validateTransaction input = [] -> buildManifest the_draft = Ok m ->
  triple R invariant (fun d => invariant d \/ committed_disk m d) (fun d => invariant d /\ all_published d) (publishManifest m) (fun _ => committed_disk m).
Proof.
  intros HV Hb. assert (op_id m = id) as Hid.
  { unfold op_id. rewrite <- (read_back_field _ _ _ Hb). by rewrite draft_field. }
  unfold publishManifest. rewrite Hid, (co_manifest Hcx), lift_ok, (co_target Hcx), lift_ok.
  destruct (manifest_writes _ _ Hb) as [text Ht]. cbv zeta. rewrite Ht. cbn [lift_canonical map_err]. rewrite lift_ok.
  change (dirname tgt ++ ["." +:+ id +:+ ".tmp"]) with tmp.
  eapply triple_bind.
  - eapply triple_conseq; [apply (write_triple tmp (text +:+ line_feed) all_published)| | |by left].
    + by right.
    + intros d Hp HR mv Hmv. eapply in_place_frame; [|by apply Hp]. intros q Hq.
      destruct (move_not_manifest mv q HV Hmv Hq) as [Hne _]. by rewrite lookup_insert_ne.
    + intros d [Hi Hp]. split_and!; [done..|]. unfold is_directory. change (dirname tmp) with OPERATIONS. apply bool_decide_eq_true. right.
      apply extended_operations, kept_extended, Hi.
    + intros a d Hd. exact Hd.
  - intros [] d b (Hi & Hp & Hf). unfold renameSync. rewrite Hf. assert (d !! tgt = None) as Htn by apply kept_target, Hi.
    assert (is_directory d (dirname tgt) = true) as ->.
    { change (dirname tgt) with OPERATIONS. apply bool_decide_eq_true. right. apply extended_operations, kept_extended, Hi. }
    assert (is_directory d tgt = false) as ->.
    { apply bool_decide_eq_false. intros [?|?]; [done|congruence]. }
    apply (triple_mutate (fun d' => d' = d)); [intros ? ->|intros ? ->; by left|done]. split_and!.
    + intros p. destruct (decide (p = tgt)) as [->|Hpt]; [tauto|]. destruct (decide (p = tmp)) as [->|Hpm]; [tauto|].
      unfold fresh_entry. rewrite lookup_insert_ne, lookup_delete_ne by done. destruct Hi as [Hk _]. specialize (Hk p). unfold fresh_entry in Hk. tauto.
    + exists text. split; [exact Ht|]. apply lookup_insert_eq.
    + intros HR mv Hmv. eapply in_place_frame; [|by apply Hp]. intros q Hq.
      destruct (move_not_manifest mv q HV Hmv Hq). by rewrite lookup_insert_ne, lookup_delete_ne.
    + intros p c Hfile Hu. destruct (staging_not_operations p Hu) as (Hpm & Hpt & _). rewrite lookup_insert_ne, lookup_delete_ne in Hfile by done.
      by eapply Hi.
Qed.

Lemma committed_filter m d (P : path * entry -> Prop) `{!forall e, Decision (P e)} : validateTransaction input = [] ->
  (forall e, under SD e.1 = false -> P e) -> committed_disk m d -> committed_disk m (filter P d).
Proof.
  intros HV HP (He & (text & Ht & Hf) & Hp & Hcl).
  assert (forall p, ~ SD `prefix_of` p -> filter P d !! p = d !! p) as Hsame.
  { intros p Hn. destruct (d !! p) as [e|] eqn:E.
    - apply map_lookup_filter_Some. split; [done|]. apply HP. cbn. destruct (under SD p) eqn:Eu; [|done]. by apply under_spec in Eu.
    - apply map_lookup_filter_None. by left. }
  split_and!.
  - intros p. destruct (decide (SD `prefix_of` p)) as [Hu|Hu]; [by left|]. unfold fresh_entry. rewrite Hsame by done. apply He.
  - exists text. split; [done|]. rewrite Hsame; [done|]. intros Hu. by apply staging_not_operations in Hu as (_ & ? & _).
  - intros HR mv Hmv. eapply in_place_frame; [|by apply Hp]. intros q Hq. apply Hsame. intros Hu.
    apply (target_unstaged mv HV Hmv). by etrans.
  - intros p c [Hc _]%map_lookup_filter_Some. by eapply Hcl.
Qed.

Lemma rmTree_triple m : validateTransaction input = [] -> triple R invariant (committed_disk m) (committed_disk m) (rmTree SD) (fun _ => committed_disk m).
Proof.
  intros HV. unfold rmTree. apply triple_mutate; intros d Hd.
  - apply (committed_filter m d (fun e => under SD e.1 = false)); [done| |done]. done.
  - apply (committed_filter m d (fun e => under SD e.1 = false \/ survives e.1 = true)); [done| |done]. by left.
Qed.

Hypothesis Hcontext : newContext options id = Ok cx.
Hypothesis default_reader : readerVersion options = None.
Hypothesis baseline : R -> readBaseline options = ti_expected_baseline input.

Lemma readManifest_none d : kept d -> readManifest options id d = Ok None.
Proof.
  intros Hk. unfold readManifest, operations, reader. rewrite default_reader. cbn [default].
  rewrite kept_reads by done. cbn [mbind result_bind]. rewrite (proj2 (find_first_None _ _)); [done|].
  eapply Forall_impl; [exact id_new|]. intros op Hop. cbn in *. by apply bool_decide_eq_false.
Qed.

Lemma append_only : assertAppendOnly ops0 id (nextSequence ops0) = Ok ().
Proof.
  unfold assertAppendOnly. assert (existsb (fun op => bool_decide (op_id (manifest op) = id)) ops0 = false) as ->.
  { apply not_true_is_false. rewrite existsb_Exists. intros (op & Hin & He). apply bool_decide_eq_true in He.
    rewrite Forall_forall in id_new. by apply (id_new op). }
  cbn. by rewrite bool_decide_true.
Qed.

(** The disk of a commit that did not return: as before, or committed. *)
Definition interrupted (d : disk) : Prop := invariant d \/ exists m, buildManifest the_draft = Ok m /\ committed_disk m d.

Lemma commit_locked_triple :
  triple R invariant interrupted invariant (commit_locked options input digests)
    (fun r d => exists m, r = committed m /\ buildManifest the_draft = Ok m /\ committed_disk m d).
Proof.
  unfold commit_locked. cbv zeta. rewrite Hcontext, lift_ok.
  assert (forall A (m : fsM A) P Q, triple R invariant invariant P m Q -> triple R invariant interrupted P m Q) as Hw.
  { intros A m P Q Hm. eapply triple_conseq; [exact Hm|done|done|by left]. }
  eapply triple_bind; [apply Hw, (triple_reads invariant); [done|]|].
  { intros d Hi _. exists None. apply readManifest_none, Hi. }
  intros o. apply triple_look. intros d1 [Ho Hi]. rewrite readManifest_none in Ho by apply Hi. injection Ho as <-.
  apply (triple_pre invariant); [|by intros d ->]. clear d1 Hi.
  eapply triple_bind; [apply Hw, proveAtomicity_triple|]. intros [].
  eapply triple_bind; [apply Hw, writeStaging_triple|]. intros stagedDigests.
  eapply triple_bind; [apply Hw, (triple_lift (fun d => stagedDigests = recorded moves /\ invariant d /\ has_staged moves d))|].
  { by intros d (_ & ? & _). }
  { intros HR. exists (). by rewrite (bool_decide_true _ (valid HR)). }
  intros []. apply triple_look. intros d1 (HV & -> & Hi & Hs).
  assert (validateTransaction input = []) as HV' by (apply reject_if_Ok, negb_false_iff, bool_decide_eq_true in HV; exact HV).
  eapply triple_bind; [apply Hw, (triple_reads (fun d => d = d1)); [by intros d ->|]|].
  { intros d -> _. exists ops0. apply kept_reads, Hi. }
  intros ops. apply triple_look. intros d2 [Hops ->]. rewrite kept_reads in Hops by apply Hi. injection Hops as <-.
  rewrite append_only, lift_ok.
  eapply triple_bind; [apply Hw, (triple_lift (fun d => d = d1)); [by intros d ->|]|].
  { intros HR. exists (). by rewrite (bool_decide_true _ (baseline HR)). }
  intros []. eapply triple_bind.
  { apply Hw. eapply triple_conseq; [by apply (publishShards_triple (recorded moves))|by intros d [_ ->]|intros a d Hd; exact Hd|done]. }
  intros []. destruct (manifest_builds the_draft) as [m Hm]. unfold the_draft in Hm. rewrite Hm. cbn [lift_canonical map_err]. rewrite lift_ok.
  eapply triple_bind.
  { eapply triple_conseq; [by apply publishManifest_triple|by intros d ?|intros a d Hd; exact Hd|]. intros d [Hd|Hd]; [by left|]. right. by exists m. }
  intros []. rewrite (co_staging Hcx). eapply triple_bind.
  { eapply triple_conseq; [by apply rmTree_triple|done|intros a d Hd; exact Hd|]. intros d Hd. right. by exists m. }
  intros []. intros d b Hd. split; [|done]. by exists m.
Qed.

(** *** The whole commit *)

Lemma parent_resolves p : resolveHarnessPath p = Ok (split_on "/" p) -> removelast (split_on "/" p) <> [] ->
  resolveHarnessPath (join "/" (removelast (split_on "/" p))) = Ok (removelast (split_on "/" p)) /\ join "/" (removelast (split_on "/" p)) <> "".
Proof.
  unfold resolveHarnessPath. intros [Hr _]%reject_bind_Ok Hne. apply orb_false_iff in Hr as [Hc Hs]. apply orb_false_iff in Hc as [Hc1 Hc2].
  apply negb_false_iff in Hc1, Hc2. pose proof (split_on_all_no_char "/" p) as Hn. pose proof (join_split_on "/" p) as Hj.
  change (String "/" "") with "/" in Hj. destruct (exists_last (split_on_nonnil "/" p)) as (l & x & E). rewrite E in *.
  rewrite removelast_last in *. apply Forall_app in Hn as [Hn _].
  assert (split_on "/" (join "/" l) = l) as Hsj by by apply split_on_join.
  rewrite existsb_app in Hs. apply orb_false_iff in Hs as [Hs _]. rewrite Hsj, Hs.
  assert (exists t, p = join "/" l +:+ t) as [t Ht].
  { rewrite <- Hj. clear -Hne. induction l as [|y [|z l] IH]; [done|by eexists|]. destruct IH as [t Ht]; [done|]. exists t.
    change ((y :: z :: l) ++ [x]) with (y :: (z :: l) ++ [x]). rewrite !join_cons by done. rewrite Ht. by rewrite !string_app_assoc. }
  rewrite Ht in Hc1, Hc2. rewrite no_char_app in Hc1, Hc2. apply andb_true_iff in Hc1 as [-> _], Hc2 as [-> _].
  split; [done|]. intros He. rewrite He in Hsj. rewrite <- Hsj in Hs. done.
Qed.

Lemma prefix_dir_ok u p : u ∈ written -> u <> [] -> (forall q, q `prefix_of` u -> dirname q <> OPERATIONS \/ q = u) -> p `prefix_of` dirname u ->
  forall q, q <> [] -> q `prefix_of` p -> dir_ok q.
Proof.
  intros Hu Hne Hops Hp q Hq Hqp. assert (above q u) as Ha by (apply dirname_above; [done|by etrans]).
  split; [|by intros _; exists u]. destruct (Hops q) as [?| ->]; [|done|by apply above_irrefl in Ha].
  destruct Ha as (x & r & ->). by eexists.
Qed.

Lemma ensureDirectories_triple : validateTransaction input = [] ->
  triple R invariant invariant invariant (ensureDirectories (map ar_path (ti_artifacts input))) (fun _ => invariant).
Proof.
  intros HV. unfold ensureDirectories. eapply triple_bind.
  - apply triple_loop. intros p Hp. apply mkdirs_triple. repeat (apply elem_of_cons in Hp as [->|Hp]); [..|by apply elem_of_nil in Hp].
    + apply (prefix_dir_ok (SD ++ ["edges.jsonl"])); [apply (elem_staged _ moves_edges)|done| |by exists [id]].
      intros q Hq. left. revert Hq. apply head_not_operations. discriminate.
    + apply (prefix_dir_ok lock_path); [apply written_lock|done| |by exists []].
      intros q Hq. left. revert Hq. apply head_not_operations. discriminate.
    + apply (prefix_dir_ok tgt); [apply written_tgt|done| |by exists []].
      intros q [k Hk]. destruct k as [|z k]; [right; by rewrite app_nil_r in Hk|left].
      intros Hq. apply dirname_operations in Hq as [w ->]. cbn in Hk. discriminate Hk.
  - intros []. rewrite for_each_map. apply triple_loop. intros a Ha.
    pose proof paths_resolve as Hp. rewrite Forall_forall in Hp. specialize (Hp a Ha).
    destruct (removelast (split_on "/" (ar_path a))) as [|x r] eqn:E; [by intros d b Hd|].
    destruct (parent_resolves _ Hp) as [H1' H2']; [by rewrite E|]. rewrite E in H1', H2'.
    rewrite (bool_decide_false _ H2'), H1', lift_ok. apply mkdirs_triple.
    intros q Hq Hqp. apply (target_dirs (artifact_move a) HV); [|done|].
    + unfold moves. apply elem_of_app. left. by apply list_elem_of_fmap_2.
    + cbn [artifact_move mv_to]. unfold dirname. by rewrite E.
Qed.

Hypothesis digests_ok : computeInputDigests input = Ok digests.
Hypothesis uncontended : waiting options = Some Datatypes.id.
Hypothesis id_ok : assertLedgerOperationId id = Ok ().
Hypothesis starts_clean : clean d0.
Hypothesis starts_ready : R -> ready d0.

Lemma invariant_start : invariant d0.
Proof. split_and!; [|done|done]. intros p. right. right. by left. Qed.

Lemma commit_triple : validateTransaction input = [] ->
  triple R invariant interrupted (fun d => d = d0) (commit options input)
    (fun r d => exists m, r = committed m /\ buildManifest the_draft = Ok m /\ committed_disk m d).
Proof.
  intros HV. unfold commit. cbv zeta. rewrite id_ok, lift_ok, digests_ok, lift_ok.
  apply (triple_pre invariant); [|intros d ->; apply invariant_start].
  assert (forall A (m : fsM A) P Q, triple R invariant invariant P m Q -> triple R invariant interrupted P m Q) as Hw.
  { intros A m P Q Hm. eapply triple_conseq; [exact Hm|done|done|by left]. }
  eapply triple_bind; [apply Hw, (triple_reads invariant); [done|]|].
  { intros d Hi _. exists None. apply readManifest_none, Hi. }
  intros o. apply triple_look. intros d1 [Ho Hi]. rewrite readManifest_none in Ho by apply Hi. injection Ho as <-.
  apply (triple_pre invariant); [|by intros d ->].
  eapply triple_bind; [by apply Hw, ensureDirectories_triple|]. intros [].
  eapply (triple_bind _ _ _ (fun _ => invariant)); [|intros _; apply commit_locked_triple].
  unfold acquireWriteLock. rewrite uncontended. by intros d b Hd.
Qed.

(** *** What was committed is replayed *)

Lemma concat_imap_nil {A B : Type} (f : nat -> A -> list B) l : concat (imap f l) = [] -> forall x, x ∈ l -> exists i, f i x = [].
Proof.
  intros Hc x Hx. apply list_elem_of_lookup in Hx as [i Hi]. exists i. rewrite concat_nil_Forall in Hc. rewrite Forall_forall in Hc.
  apply Hc. apply list_elem_of_lookup. exists i. by rewrite list_lookup_imap, Hi.
Qed.

Lemma when_nil b issue : when b issue = [] <-> b = false.
Proof. by destruct b. Qed.

Lemma valid_records : validateTransaction input = [] ->
  Forall (fun e => validateSchema edge e = true) (ti_edges input) /\
  Forall (fun e => validateSchema event e = true /\ str_of (plainRecordField e "ledger_operation_id") = id /\
    str_of (plainRecordField e "workflow_operation_id") = ti_workflow_operation_id input) (ti_events input).
Proof.
  unfold validateTransaction. intros [_ [He [Hv _]%app_eq_nil]%app_eq_nil]%app_eq_nil. split; apply Forall_forall; intros e Hin.
  - destruct (concat_imap_nil _ _ He e Hin) as [i Hi]. unfold edge_issues in Hi. by apply when_nil, negb_false_iff in Hi.
  - destruct (concat_imap_nil _ _ Hv e Hin) as [i Hi]. unfold event_issues in Hi. cbv zeta in Hi.
    apply app_eq_nil in Hi as [Hi1 Hi]. apply app_eq_nil in Hi as [Hi2 Hi3]. rewrite when_nil in *.
    apply negb_false_iff in Hi1. rewrite Hi1 in *. cbn [andb] in *. apply negb_false_iff, bool_decide_eq_true in Hi2, Hi3. done.
Qed.

Lemma committed_replay m d rep0 : R -> buildManifest the_draft = Ok m -> committed_disk m d -> replayLedger d0 PROTOCOL_1_4_VERSION = Ok rep0 ->
  Forall (fun v => json_literals v = true) (ti_edges input) -> Forall (fun v => json_literals v = true) (ti_events input) ->
  StronglySorted Z.lt (map event_sequence (ti_events input)) -> NoDup (map event_id (ti_events input)) ->
  replayLedger d PROTOCOL_1_4_VERSION =
    Ok (Replayed (ops0 ++ [new_operation m]) (rp_edges rep0 ++ map canon (ti_edges input)) (rp_events rep0 ++ map canon (ti_events input))).
Proof.
  intros HR Hb Hd Hr Hle Hlv Hso Hni. destruct (valid_records (valid HR)) as [Hve Hvv].
  pose proof digests_ok as Hdig. unfold computeInputDigests in Hdig. apply bind_Ok in Hdig as (ec & Hec & Hdig).
  apply bind_Ok in Hdig as (vc & Hvc & Hdig). apply (inj Ok) in Hdig.
  assert (edgeContent digests = ec /\ eventContent digests = vc /\ edgeFileDigest digests = sha256 ec /\ eventFileDigest digests = sha256 vc)
    as (Ec & Vc & Ed & Vd) by (by rewrite <- Hdig).
  pose proof Hd as (He & Ht & Hp & _). destruct (Hp HR _ moves_edges) as [Hfe _]. destruct (Hp HR _ moves_events) as [Hfv _]. cbn [mv_to mv_content] in Hfe, Hfv.
  rewrite Ec in Hfe. rewrite Vc in Hfv.
  pose proof (resolve_ok _ _ (co_edge Hcx)) as Pe. pose proof (resolve_ok _ _ (co_event Hcx)) as Pv.
  assert (op_edge_file (read_back m) = edgeFile cx) as Fe by (unfold op_edge_file; by rewrite draft_field).
  assert (op_event_file (read_back m) = eventFile cx) as Fv by (unfold op_event_file; by rewrite draft_field).
  assert (replay_operation d (new_operation m) = Ok (map canon (ti_edges input), map canon (ti_events input))) as Hnew.
  { unfold replay_operation, new_operation. cbn [manifest]. rewrite Fe.
    assert (jfield (read_back m) "edge_file_digest" = JStr (sha256 ec)) as -> by (rewrite draft_field by done; cbn; by rewrite Ed).
    cbn [opt_str]. rewrite (shard_written d _ edge (ti_edges input) ec); [|by rewrite (co_edge Hcx), Pe|by rewrite <- Pe|by apply map_err_Ok in Hec || exact Hec|done|done].
    cbn [mbind result_bind]. rewrite (events_written d (read_back m) tgt (ti_events input) vc); [done| | | |exact Hvc|done| | |done|done].
    - by rewrite Fv, (co_event Hcx), Pv.
    - by rewrite Fv, <- Pv.
    - rewrite draft_field by done. cbn. by rewrite Vd.
    - eapply Forall_impl; [exact Hvv|]. by intros e (? & _).
    - eapply Forall_impl; [exact Hvv|]. intros e (_ & Hi & Hw). split; [by unfold op_id; rewrite draft_field|]. by rewrite draft_field. }
  unfold replayLedger in Hr |- *. rewrite (committed_reads m d Hb) by exact Hd. rewrite reads_before in Hr. cbn [mbind result_bind] in *.
  apply bind_Ok in Hr as (ls & Hls & Hr). apply (inj Ok) in Hr. rewrite <- Hr.
  assert (mapM (replay_operation d) (ops0 ++ [new_operation m]) = Ok (ls ++ [(map canon (ti_edges input), map canon (ti_events input))])) as ->.
  { apply mapM_Ok. apply Forall2_app; [by apply mapM_Ok, extended_replays|]. by repeat constructor. }
  cbn [mbind result_bind rp_edges rp_events]. rewrite !map_app, !concat_app. cbn. by rewrite !app_nil_r.
Qed.

(** *** A second commit of the same transaction *)

Lemma committed_retry m d options' b : buildManifest the_draft = Ok m -> committed_disk m d -> readerVersion options' = None ->
  commit options' input d b = (Done (already_committed (read_back m)), d, b).
Proof.
  intros Hb Hd Hr. unfold commit. cbv zeta. rewrite id_ok, lift_ok, digests_ok, lift_ok.
  assert (op_id (read_back m) = id) as Hid by (unfold op_id; by rewrite draft_field).
  assert (readManifest options' id d = Ok (Some (read_back m))) as Hrm.
  { unfold readManifest, operations, reader. rewrite Hr. cbn [default]. rewrite (committed_reads m d Hb Hd). cbn [mbind result_bind].
    rewrite find_first_snoc, (proj2 (find_first_None _ _)).
    - cbn [new_operation manifest]. by rewrite (bool_decide_true _ Hid).
    - eapply Forall_impl; [exact id_new|]. intros op Hop. cbn in *. by apply bool_decide_eq_false. }
  assert (resolveRetry (read_back m) input digests = Ok (already_committed (read_back m))) as Hrr.
  { destruct (buildManifest_Ok _ _ Hb) as (digest & Hdg & Hm).
    assert (op_digest (read_back m) = digest) as F4.
    { unfold op_digest. rewrite draft_field by done. rewrite Hm. unfold manifest_content. by destruct (md_required_reader_version the_draft). }
    assert (op_sequence (read_back m) = nextSequence ops0) as F1 by (unfold op_sequence; by rewrite draft_field).
    assert (op_edge_file (read_back m) = edgeFile cx) as F2 by (unfold op_edge_file; by rewrite draft_field).
    assert (op_event_file (read_back m) = eventFile cx) as F3 by (unfold op_event_file; by rewrite draft_field).
    assert (forall t, manifestDigest (draft_of input digests (nextSequence ops0) (edgeFile cx) (eventFile cx) t) = Ok digest) as Hall by done.
    unfold resolveRetry. rewrite F1, F2, F3, Hall, F4. cbn [lift_canonical map_err mbind result_bind].
    by rewrite (bool_decide_true (digest = digest)). }
  unfold mbind, fsM_bind, reads. rewrite Hrm. cbn [lift mret fsM_ret]. by rewrite Hrr.
Qed.
End commit.
