(* ===== verification/CrashSafety.v ===== *)
(** * Crash safety of the ledger

    The properties of [Repository.commit] and of the histories it writes, from
    the logic and the invariant of [Commit]. *)

From stdpp Require Import gmap.
From S2P Require Import Prelude Regex Json Lease JsonText Schema Transaction Store Repository Commit.

(** ** The context of a commit *)

Definition id_char (a : ascii) : bool := is_alnum a || is_one_of "_-" a.

Lemma id_chars id : assertLedgerOperationId id = Ok () -> str_forallb id_char id = true.
Proof.
  unfold assertLedgerOperationId. intros Hr%reject_if_Ok. repeat (apply orb_false_iff in Hr as [Hr _]). apply negb_false_iff in Hr.
  eapply re_all_forallb; [|exact Hr]. unfold OPERATION_ID_PATTERN, RPlus, RChr. cbn.
  split_and!; refine (all_ascii_impl _ _ _); vm_compute; reflexivity.
Qed.

Lemma month_chars month : re_match SHARD_MONTH_PATTERN month = true -> str_forallb id_char month = true.
Proof.
  intros Hr. eapply re_all_forallb; [|exact Hr]. unfold SHARD_MONTH_PATTERN, RChr. cbn.
  split_and!; try done; refine (all_ascii_impl _ _ _); vm_compute; reflexivity.
Qed.

Lemma plain_no_char c s : id_char c = false -> str_forallb id_char s = true -> no_char c s = true.
Proof.
  intros Hc. unfold no_char. apply str_forallb_impl. intros a Ha. apply negb_true_iff, bool_decide_eq_false. congruence.
Qed.

Lemma resolve_plain segments : segments <> [] ->
  Forall (fun x => no_char "/" x = true /\ no_char (ascii_of_N 0) x = true /\ no_char "\" x = true /\ mem x [""; "."; ".."] = false) segments ->
  resolveHarnessPath (join "/" segments) = Ok segments.
Proof.
  intros Hne Hs. unfold resolveHarnessPath.
  assert (split_on "/" (join "/" segments) = segments) as -> by (apply split_on_join; [done|]; eapply Forall_impl; [exact Hs|]; naive_solver).
  rewrite (no_char_join (ascii_of_N 0)), (no_char_join "\"); [|done|eapply Forall_impl; [exact Hs|]; naive_solver|done|eapply Forall_impl; [exact Hs|]; naive_solver].
  assert (existsb (fun segment => mem segment [""; "."; ".."]) segments = false) as ->; [|done].
  clear Hne. induction Hs as [|x l (_ & _ & _ & Hx) Hl IH]; [done|]. cbn [existsb]. by rewrite Hx.
Qed.

(** A name made of plain characters and an ending. *)
Lemma plain_name id ending : str_forallb id_char id = true -> id <> "" -> ending ∈ [""; ".json"; ".jsonl"] ->
  no_char "/" (id +:+ ending) = true /\ no_char (ascii_of_N 0) (id +:+ ending) = true /\ no_char "\" (id +:+ ending) = true /\
  mem (id +:+ ending) [""; "."; ".."] = false.
Proof.
  intros Hid Hne He. rewrite !no_char_app, !(plain_no_char _ id) by done.
  repeat (apply elem_of_cons in He as [->|He]); [..|by apply elem_of_nil in He].
  all: split_and!; try reflexivity; apply mem_false; rewrite !not_elem_of_cons; destruct id as [|a id]; [done|]; cbn in *;
    apply andb_true_iff in Hid as [Ha _]; split_and!; try (apply not_elem_of_nil); intros Heq; try discriminate Heq; injection Heq as -> _; discriminate Ha.
Qed.

Lemma id_nonempty id : assertLedgerOperationId id = Ok () -> id <> "".
Proof. intros Hr ->. vm_compute in Hr. discriminate Hr. Qed.

Lemma month_nonempty month : re_match SHARD_MONTH_PATTERN month = true -> month <> "".
Proof. intros Hr ->. vm_compute in Hr. discriminate Hr. Qed.

Lemma context_of options input cx : newContext options (ti_ledger_operation_id input) = Ok cx ->
  exists month, shardMonthFor (now_context options) = Ok month /\ re_match SHARD_MONTH_PATTERN month = true /\
    context_ok input month cx /\ assertLedgerOperationId (ti_ledger_operation_id input) = Ok () /\
    edgeFile cx = "ledger/edges/" +:+ month +:+ "/" +:+ ti_ledger_operation_id input +:+ ".jsonl" /\
    eventFile cx = "events/" +:+ month +:+ "/" +:+ ti_ledger_operation_id input +:+ ".jsonl".
Proof.
  unfold newContext. intros (month & Hm & Hc)%bind_Ok. apply bind_Ok in Hc as (sp & Hsp & Hc). apply bind_Ok in Hc as (sd & Hsd & Hc).
  apply bind_Ok in Hc as (ef & Hef & Hc). apply bind_Ok in Hc as (vf & Hvf & Hc). apply (inj Ok) in Hc as <-. exists month.
  unfold stagingRelativePath in Hsp. apply bind_Ok in Hsp as ([] & Hid & [= <-]).
  unfold edgeShardRelativePath in Hef. apply bind_Ok in Hef as ([] & Hmp & Hef). unfold assertShardMonth in Hmp.
  apply reject_if_Ok, negb_false_iff in Hmp. rewrite Hid in Hef. apply (inj Ok) in Hef as <-.
  unfold eventShardRelativePath, assertShardMonth in Hvf. rewrite Hmp, Hid in Hvf. apply (inj Ok) in Hvf as <-.
  set (id := ti_ledger_operation_id input) in *.
  pose proof (id_chars _ Hid) as Hic. pose proof (month_chars _ Hmp) as Hmc. pose proof (id_nonempty _ Hid) as Hin. pose proof (month_nonempty _ Hmp) as Hmn.
  split_and!; [done|done| |done|done|done]. split; cbn [stagingDir edgeFile eventFile].
  - apply resolve_ok in Hsd as ->. change (split_on "/" ("staging" +:+ String "/" id) = staging_of id).
    rewrite split_on_app, split_on_no_char; [done|by apply plain_no_char|done].
  - apply (resolve_plain (edge_path month id)); [done|]. unfold edge_path. repeat (apply Forall_cons; split); try apply Forall_nil_2; try done.
    + rewrite <- (string_app_nil_r month). apply plain_name; [done|done|left].
    + apply plain_name; [done|done|right; right; left].
  - apply (resolve_plain (event_path month id)); [done|]. unfold event_path. repeat (apply Forall_cons; split); try apply Forall_nil_2; try done.
    + rewrite <- (string_app_nil_r month). apply plain_name; [done|done|left].
    + apply plain_name; [done|done|right; right; left].
  - unfold operationManifestRelativePath. change (ti_ledger_operation_id input) with id. by rewrite Hid.
  - by apply plain_no_char.
  - apply (resolve_plain (manifest_of id)); [done|]. unfold manifest_of, OPERATIONS. cbn [app]. repeat (apply Forall_cons; split); try apply Forall_nil_2; try done.
    apply plain_name; [done|done|right; left].
Qed.

(** ** Inputs the manifest schema admits *)

(** What the schema of a manifest asks of an input. [commit] does not check it:
    see [unreadable_after_commit]. *)
Definition legal_input `{Hash} (input : TransactionInput) : bool :=
  forallb identifier_ok [ti_ledger_operation_id input; ti_workflow_operation_id input; ti_attempt_id input] &&
  baseline_ok (ti_expected_baseline input) &&
  negb (has_duplicates (map (fun a => sha256 (ar_content a)) (ti_artifacts input))) &&
  match ti_required_reader_version input with
  | Some v => mem v [PROTOCOL_1_2_VERSION; PROTOCOL_1_3_VERSION; PROTOCOL_1_4_VERSION]
  | None => true
  end.

Lemma re_lang_lit w : re_lang (RLit w) w.
Proof.
  induction w as [|a w IH]; cbn; [constructor|]. apply (lang_cat _ _ (String a "") w); [|done]. constructor. by apply bool_decide_eq_true.
Qed.

Lemma re_lang_star p s : str_forallb p s = true -> re_lang (RStar (RCls p)) s.
Proof.
  induction s as [|a s IH]; cbn; [constructor|]. intros [Ha Hs]%andb_true_iff.
  apply (lang_star_cons _ (String a "") s); [by constructor|by apply IH].
Qed.

Lemma shard_file_matches root month id : re_match SHARD_MONTH_PATTERN month = true -> str_forallb id_char id = true -> id <> "" ->
  re_match (SHARD_FILE root) (root +:+ month +:+ "/" +:+ id +:+ ".jsonl") = true.
Proof.
  intros Hm Hi Hne. apply re_match_spec in Hm. unfold SHARD_MONTH_PATTERN in Hm. apply re_cat_inv in Hm as (y & r & -> & Hy & Hr).
  apply re_cat_inv in Hr as (d & mo & -> & Hd & Hmo). apply re_match_spec. unfold SHARD_FILE.
  apply lang_cat; [apply re_lang_lit|]. rewrite <- string_app_assoc. apply lang_cat; [done|]. rewrite <- string_app_assoc. apply lang_cat; [done|].
  apply lang_cat; [done|]. apply lang_cat; [constructor; by apply bool_decide_eq_true|]. apply lang_cat; [|apply (re_lang_lit ".jsonl")].
  assert (str_forallb (fun a => negb (bool_decide (a = "/"%char))) id = true) as Hn by by apply (plain_no_char "/").
  destruct id as [|c id]; [done|]. cbn in Hn. apply andb_true_iff in Hn as [Hc Hn].
  apply (lang_cat _ _ (String c "") id); [by constructor|by apply re_lang_star].
Qed.

Section legal.
Context `{Hash} `{DateTime}.
Hypothesis sha_hex : forall s, re_match digest_regex (sha256 s) = true.

Lemma legal_of_input options input digests cx sequence : newContext options (ti_ledger_operation_id input) = Ok cx ->
  computeInputDigests input = Ok digests -> legal_input input = true -> is_date_time (now_commit options) = true -> (1 <= sequence)%Z ->
  legal_draft (draft_of input digests sequence (edgeFile cx) (eventFile cx) (now_commit options)) = true.
Proof.
  intros Hc Hd Hl Ht Hs. destruct (context_of options input cx Hc) as (month & _ & Hm & _ & Hid & -> & ->).
  pose proof (id_chars _ Hid) as Hic. pose proof (id_nonempty _ Hid) as Hin.
  unfold computeInputDigests in Hd. apply bind_Ok in Hd as (ec & _ & Hd). apply bind_Ok in Hd as (vc & _ & Hd). apply (inj Ok) in Hd as <-.
  unfold legal_input in Hl. cbn [forallb] in Hl. rewrite !andb_true_iff in Hl. destruct Hl as [[[(I1 & I2 & I3 & _) Hb] Hn] Hv].
  assert (forallb (re_match digest_regex) (map (fun a => sha256 (ar_content a)) (ti_artifacts input)) = true) as Ha.
  { apply forallb_Forall. intros x (a & -> & _)%list_elem_of_fmap. apply sha_hex. }
  unfold legal_draft, draft_of.
  cbn [md_ledger_operation_id md_workflow_operation_id md_attempt_id md_baseline_commit md_sequence md_artifact_digests md_edge_file md_event_file
    md_edge_file_digest md_event_file_digest md_required_reader_version md_committed_at artifactDigests edgeFileDigest eventFileDigest].
  rewrite I1, I2, I3, Hb, (proj2 (Z.leb_le _ _) Hs), Ha, Hn, (shard_file_matches "ledger/edges/" _ _ Hm Hic Hin),
    (shard_file_matches "events/" _ _ Hm Hic Hin), !sha_hex, Hv, Ht. done.
Qed.
End legal.

(** ** Any commit, killed or not *)

(** The readers of [d] see the operations [ops], no two at one place. *)
Definition ledger `{Hash} `{DateTime} `{Readdir} (d : disk) (ops : list CommittedOperation) : Prop :=
  d !! OPERATIONS = Some Directory /\ readCommittedOperations d PROTOCOL_1_4_VERSION = Ok ops /\ NoDup (sequences ops).

(** What is replayed from [d] is replayed from [d']. *)
Definition replay_kept `{Hash} `{DateTime} `{Readdir} (d d' : disk) : Prop :=
  forall rep, replayLedger d PROTOCOL_1_4_VERSION = Ok rep -> replayLedger d' PROTOCOL_1_4_VERSION = Ok rep.

(** The staged files of an input. *)
Definition staged_names (input : TransactionInput) : list path :=
  map (fun a => staging_of (ti_ledger_operation_id input) ++ split_on "/" (ar_path a)) (ti_artifacts input) ++
  [staging_of (ti_ledger_operation_id input) ++ ["edges.jsonl"]; staging_of (ti_ledger_operation_id input) ++ ["events.jsonl"]].

Definition staging_clean (input : TransactionInput) (d : disk) : Prop :=
  forall p c, d !! p = Some (File c) -> staging_of (ti_ledger_operation_id input) `prefix_of` p -> p ∈ staged_names input.

Definition paths_resolve (input : TransactionInput) : Prop :=
  Forall (fun a => resolveHarnessPath (ar_path a) = Ok (split_on "/" (ar_path a))) (ti_artifacts input).

Lemma staged_names_moves input digests month : map (staged input) (moves input digests month) = staged_names input.
Proof. unfold moves, staged_names. rewrite map_app, map_map. done. Qed.

(** The operation of [input] after [ops]. *)
Definition next_operation (input : TransactionInput) (ops : list CommittedOperation) (op : CommittedOperation) : Prop :=
  op_id (manifest op) = ti_ledger_operation_id input /\ op_sequence (manifest op) = nextSequence ops.

Section atomic.
Context `{Hash} `{DateTime} `{Readdir} `{Crash}.
Hypothesis sha_hex : forall s, re_match digest_regex (sha256 s) = true.

Lemma ledger_snoc d ops op : d !! OPERATIONS = Some Directory -> readCommittedOperations d PROTOCOL_1_4_VERSION = Ok (ops ++ [op]) ->
  NoDup (sequences ops) -> op_sequence (manifest op) = nextSequence ops -> ledger d (ops ++ [op]).
Proof.
  intros Hd Hr Hn Hs. split_and!; [done|done|]. unfold sequences. rewrite map_app, NoDup_app. split_and!; [done| |by apply NoDup_singleton].
  intros z Hz Hin. apply list_elem_of_singleton in Hin as ->. apply list_elem_of_fmap in Hz as (x & Hx & Hin).
  destruct (nextSequence_above ops) as [Ha _]. rewrite Forall_forall in Ha. specialize (Ha x Hin). cbn in *. lia.
Qed.

Lemma newest_operation options input digests cx ops m : buildManifest (the_draft input digests options cx ops) = Ok m ->
  next_operation input ops (new_operation input m).
Proof.
  intros Hb. unfold next_operation, new_operation, op_id, op_sequence. cbn [manifest].
  by rewrite !(draft_field _ _ _ _ _ _ _ Hb).
Qed.

(** The readers see what they saw. *)
Definition unchanged (d : disk) (ops : list CommittedOperation) (d' : disk) : Prop := ledger d' ops /\ replay_kept d d'.

(** They see one operation more. *)
Definition extended_by (input : TransactionInput) (ops : list CommittedOperation) (d' : disk) : Prop :=
  exists op, ledger d' (ops ++ [op]) /\ next_operation input ops op.

(** What one run does to the disk, under a new operation id. *)
Lemma commit_run options input digests d ops b cx : ledger d ops -> computeInputDigests input = Ok digests -> paths_resolve input ->
  legal_input input = true -> is_date_time (now_commit options) = true -> readerVersion options = None -> staging_clean input d ->
  Forall (fun op => op_id (manifest op) <> ti_ledger_operation_id input) ops -> newContext options (ti_ledger_operation_id input) = Ok cx ->
  exists month, context_ok input month cx /\ legal_draft (the_draft input digests options cx ops) = true /\
    match commit_locked options input digests d b with
    | (Done r, d', _) => exists m, r = committed m /\ buildManifest (the_draft input digests options cx ops) = Ok m /\
        committed_disk input digests month d False m d'
    | (Threw _, d', _) => invariant input digests month d False d'
    | (Killed, d', _) => interrupted input digests month d False options cx ops d'
    end.
Proof.
  intros (Hdir & Hr & Hn) Hdig Hp Hl Ht Hv Hc Hnew Hcx. destruct (context_of _ _ _ Hcx) as (month & _ & _ & Hco & _ & _ & _).
  exists month. split; [done|].
  assert (legal_draft (the_draft input digests options cx ops) = true) as Hlegal.
  { apply legal_of_input; [exact sha_hex|done..|]. apply nextSequence_above. }
  split; [done|].
  assert (invariant input digests month d False d) as Hi.
  { split_and!; [intros p; right; right; by left| |done]. intros p c Hf Hu. rewrite staged_names_moves. by eapply Hc. }
  pose proof (commit_locked_triple input digests month d False Hp ltac:(done) ltac:(done) ltac:(done) ltac:(done) options cx Hco ltac:(done) ops
    Hdir Hr Hn Hnew Hcx Hv ltac:(done) d b Hi) as Htr.
  destruct (commit_locked options input digests d b) as [[[r|e|] d'] b']; by apply Htr.
Qed.

(** A new operation id. *)
Lemma commit_new options input digests d ops b : ledger d ops -> computeInputDigests input = Ok digests -> paths_resolve input ->
  legal_input input = true -> is_date_time (now_commit options) = true -> readerVersion options = None -> staging_clean input d ->
  Forall (fun op => op_id (manifest op) <> ti_ledger_operation_id input) ops ->
  match commit_locked options input digests d b with
  | (Done r, d', _) => (exists m, r = committed m) /\ extended_by input ops d'
  | (Threw _, d', _) => unchanged d ops d'
  | (Killed, d', _) => unchanged d ops d' \/ extended_by input ops d'
  end.
Proof.
  intros Hd Hdig Hp Hl Ht Hv Hc Hnew. pose proof Hd as (Hdir & Hr & Hn).
  destruct (newContext options (ti_ledger_operation_id input)) as [cx|e] eqn:Hcx.
  2:{ unfold commit_locked. rewrite Hcx. cbn. by split; [|intros rep]. }
  destruct (commit_run options input digests d ops b cx) as (month & Hco & Hlegal & Hrun); [done..|].
  assert (forall d', kept input digests month d False d' -> unchanged d ops d') as Hkept.
  { intros d' Hk. split.
    - split_and!; [by eapply extended_operations, kept_extended|by eapply kept_reads|done].
    - intros rep. by eapply kept_replay. }
  assert (forall m d', buildManifest (the_draft input digests options cx ops) = Ok m ->
            committed_disk input digests month d False m d' -> extended_by input ops d') as Hext.
  { intros m d' Hb Hd'. exists (new_operation input m). pose proof (newest_operation _ _ _ _ _ _ Hb) as Hno. split; [|exact Hno].
    apply ledger_snoc; [|by eapply committed_reads|done|by apply Hno]. by eapply extended_operations, Hd'. }
  destruct (commit_locked options input digests d b) as [[[r|e|] d'] b'].
  - destruct Hrun as (m & -> & Hb & Hd'). split; [by exists m|by eapply Hext].
  - apply Hkept, Hrun.
  - destruct Hrun as [Hd'|(m & Hb & Hd')]; [left; by apply Hkept, Hd'|right; by eapply Hext].
Qed.

(** A known one. *)
Lemma commit_known options input digests d ops b : ledger d ops -> readerVersion options = None ->
  ~ Forall (fun op => op_id (manifest op) <> ti_ledger_operation_id input) ops ->
  exists o, commit_locked options input digests d b = (o, d, b) /\
    match o with
    | Done r => exists op, op ∈ ops /\ op_id (manifest op) = ti_ledger_operation_id input /\ r = already_committed (manifest op)
    | Threw _ => True
    | Killed => False
    end.
Proof.
  intros (_ & Hr & _) Hv Hk. unfold commit_locked. cbv zeta. unfold mbind, fsM_bind.
  destruct (newContext options (ti_ledger_operation_id input)) as [cx|e]; [|by exists (Threw e)]. cbn [lift mret fsM_ret].
  assert (exists op, find_first (fun op => bool_decide (op_id (manifest op) = ti_ledger_operation_id input)) ops = Some op) as [op Hop].
  { destruct (find_first _ ops) as [op|] eqn:E; [by exists op|]. destruct Hk. apply find_first_None in E.
    eapply Forall_impl; [exact E|]. intros x Hx. by apply bool_decide_eq_false in Hx. }
  unfold reads, readManifest, operations, reader. rewrite Hv. cbn [default]. rewrite Hr. cbn [mbind result_bind]. rewrite Hop.
  cbn [fmap option_fmap option_map lift mret fsM_ret]. destruct (resolveRetry (manifest op) input digests) as [r|e] eqn:E; [|by exists (Threw e)].
  exists (Done r). split; [done|]. unfold resolveRetry in E. apply bind_Ok in E as (c & _ & E). apply reject_bind_Ok in E as [_ [= <-]].
  apply find_first_Some in Hop as [Hin Ho]. apply bool_decide_eq_true in Ho. by exists op.
Qed.

(** C2. A commit, once it holds the lock on a ledger that can be read, leaves the
    ledger as it was or with its operation appended, wherever the process is
    killed and whatever a write that was interrupted left behind: a commit that
    returns [committed] has appended its operation, with the next sequence
    number; one that finds the operation in the ledger or throws has changed
    nothing the readers see; and one that is killed has done one of the two. For
    an input whose paths resolve and which the schema of a manifest admits
    (ids, baseline, reader version, artifacts of distinct content: commit does
    not check it, and what it then publishes cannot be read again,
    [unreadable_after_commit]), when nothing but its own files is staged under its
    id ([leftovers_published]), with a date-time clock, readers of the newest
    version and hexadecimal digests. *)
Theorem commit_atomic options input digests d ops b : ledger d ops -> computeInputDigests input = Ok digests -> paths_resolve input ->
  legal_input input = true -> is_date_time (now_commit options) = true -> readerVersion options = None -> staging_clean input d ->
  match commit_locked options input digests d b with
  | (Done (committed _), d', _) => extended_by input ops d'
  | (Done (already_committed m), d', _) => d' = d /\ exists op, op ∈ ops /\ manifest op = m /\ op_id m = ti_ledger_operation_id input
  | (Threw _, d', _) => unchanged d ops d'
  | (Killed, d', _) => unchanged d ops d' \/ extended_by input ops d'
  end.
Proof.
  intros Hd Hdig Hp Hl Ht Hv Hc.
  destruct (decide (Forall (fun op => op_id (manifest op) <> ti_ledger_operation_id input) ops)) as [Hn|Hk].
  - pose proof (commit_new options input digests d ops b Hd Hdig Hp Hl Ht Hv Hc Hn) as Hcn.
    destruct (commit_locked options input digests d b) as [[[r|e|] d'] b']; [|done..]. by destruct Hcn as [[m ->] ?].
  - destruct (commit_known options input digests d ops b Hd Hv Hk) as (o & -> & Ho). destruct o as [r|e|]; [| |done].
    + destruct Ho as (op & Hin & Hid & ->). split; [done|]. by exists op.
    + by split; [|intros rep].
Qed.

(** ** Histories *)

(** The transactions that are attempted. An operation id stands for one of them:
    a process that tries again does so with the same input. *)
Variable transactions : TransactionInput -> Prop.
Hypothesis one_input : forall input input', transactions input -> transactions input' ->
  ti_ledger_operation_id input = ti_ledger_operation_id input' -> input = input'.
Hypothesis legal : forall input, transactions input -> paths_resolve input /\ legal_input input = true.

(** One attempt of some process that holds the lock, run to its end or killed. *)
Inductive attempt : disk -> disk -> Prop :=
| attempt_commit options input digests d b o d' b' :
    transactions input -> computeInputDigests input = Ok digests -> is_date_time (now_commit options) = true -> readerVersion options = None ->
    commit_locked options input digests d b = (o, d', b') -> attempt d d'.

(** Nothing is staged that is not of a transaction. *)
Definition staging_ok (d : disk) : Prop := forall input, transactions input -> staging_clean input d.

Lemma extended_staging input digests month d d' : transactions input -> extended input digests month d False d' -> clean input digests month d' ->
  staging_ok d -> staging_ok d'.
Proof.
  intros Hi He Hc Hd input' Hi'. destruct (decide (ti_ledger_operation_id input' = ti_ledger_operation_id input)) as [Hid|Hne].
  - rewrite (one_input input' input Hi' Hi Hid). intros p c Hf Hu. rewrite <- (staged_names_moves input digests month). by eapply Hc.
  - intros p c Hf Hu. pose proof (staged_below input' p Hu) as Hb.
    destruct (He p) as [[r Hp]|[Hp|[Hp|[Hp|(_ & _ & [[Hdir _]|[_ Hn]])]]]]; [| | | |congruence|done].
    + destruct Hu as [r' Hu]. exfalso. apply Hne. rewrite Hp in Hu. unfold staging_of in Hu. cbn in Hu. by injection Hu.
    + destruct Hu as [r' Hu]. rewrite Hp in Hu. discriminate Hu.
    + destruct Hu as [r' Hu]. rewrite Hp in Hu. discriminate Hu.
    + rewrite Hp in Hf. by eapply Hd.
Qed.

Lemma attempt_ledger d d' ops : attempt d d' -> ledger d ops -> staging_ok d -> staging_ok d' /\
  (ledger d' ops \/ exists op, ledger d' (ops ++ [op]) /\ op_sequence (manifest op) = nextSequence ops).
Proof.
  intros Ha Hd Hs. destruct Ha as [options input digests d b o d' b' Hin H1' H4' H5' Hrun]. destruct (legal input Hin) as [H2' H3'].
  destruct (decide (Forall (fun op => op_id (manifest op) <> ti_ledger_operation_id input) ops)) as [Hn|Hk].
  - split.
    + destruct (newContext options (ti_ledger_operation_id input)) as [cx|e] eqn:Hcx.
      2:{ unfold commit_locked in Hrun. rewrite Hcx in Hrun. cbn in Hrun. by injection Hrun as _ <- _. }
      destruct (commit_run options input digests d ops b cx) as (month & _ & _ & Hr); [by try apply Hs..|]. rewrite Hrun in Hr.
      assert (extended input digests month d False d' /\ clean input digests month d') as [He Hc]; [|by eapply extended_staging].
      destruct o as [r|e|]; [destruct Hr as (m & _ & _ & He & _ & _ & Hc); done| |destruct Hr as [Hr|(m & _ & He & _ & _ & Hc)]; [|done]].
      all: split; [by eapply kept_extended, Hr|by apply Hr].
    + pose proof (commit_new options input digests d ops b Hd H1' H2' H3' H4' H5' (Hs input Hin) Hn) as Hc. rewrite Hrun in Hc.
      destruct o as [r|e|]; [destruct Hc as [_ (op & Hl & _ & Hq)]; right; by exists op|left; apply Hc|].
      destruct Hc as [Hc|(op & Hl & _ & Hq)]; [left; apply Hc|right; by exists op].
  - destruct (commit_known options input digests d ops b Hd H5' Hk) as (o' & Ho & _). rewrite Hrun in Ho. injection Ho as _ -> _.
    split; [done|by left].
Qed.

Lemma nextSequence_consecutive ops : sequences ops = seqZ 1 (Z.of_nat (length ops)) -> nextSequence ops = Z.of_nat (S (length ops)).
Proof.
  unfold nextSequence. intros Hs.
  assert (forall l acc, foldl (fun m op => Z.max m (op_sequence (manifest op))) acc l = foldl Z.max acc (sequences l)) as Hf.
  { induction l as [|x l IH]; intros acc; [done|]. cbn. by rewrite IH. }
  rewrite Hf, Hs. clear Hs Hf. generalize (length ops) as n. intros n.
  assert (foldl Z.max 0 (seqZ 1 (Z.of_nat n)) = Z.of_nat n)%Z as ->; [|lia]. induction n as [|n IH]; [done|].
  rewrite Nat2Z.inj_succ, <- Z.add_1_r, seqZ_app by lia. rewrite foldl_app, IH.
  change (seqZ (1 + Z.of_nat n) 1) with [(1 + Z.of_nat n)%Z]. cbn [foldl]. lia.
Qed.

End atomic.

(** ** Recovery by running the commit again *)

(** A transaction whose files do not get in each other's way and whose records
    can be replayed. *)
Record well_formed `{Hash} `{DateTime} (input : TransactionInput) (digests : InputDigests) (month : string) : Prop := {
  wf_digests : computeInputDigests input = Ok digests;
  wf_paths : paths_resolve input;
  wf_legal : legal_input input = true;
  wf_valid : validateTransaction input = [];
  wf_clash : forall u v, u ∈ written input digests month -> v ∈ written input digests month -> ~ above u v;
  wf_staged : NoDup (staged_names input);
  wf_targets : NoDup (map mv_to (moves input digests month));
  wf_edges : Forall (fun v => json_literals v = true) (ti_edges input);
  wf_events : Forall (fun v => json_literals v = true) (ti_events input);
  wf_order : StronglySorted Z.lt (map event_sequence (ti_events input));
  wf_ids : NoDup (map event_id (ti_events input)) }.

(** The settings of one run: the clock may differ within the month. *)
Record usable `{DateTime} (input : TransactionInput) (cx : CommitContext) (options : LedgerRepositoryOptions) : Prop := {
  us_context : newContext options (ti_ledger_operation_id input) = Ok cx;
  us_reader : readerVersion options = None;
  us_baseline : readBaseline options = ti_expected_baseline input;
  us_volume : forall p q, deviceOf options p = deviceOf options q;
  us_waiting : waiting options = Some Datatypes.id;
  us_clock : is_date_time (now_commit options) = true }.

Section recovery.
Context `{Hash} `{DateTime} `{Readdir} `{Crash}.
Hypothesis sha_hex : forall s, re_match digest_regex (sha256 s) = true.
Variables (input : TransactionInput) (digests : InputDigests) (cx : CommitContext) (month : string).
Variables (ops : list CommittedOperation) (rep : ReplayResult).
Hypothesis Hwf : well_formed input digests month.
Hypothesis Hmonth : context_ok input month cx.
Hypothesis Hnew : Forall (fun op => op_id (manifest op) <> ti_ledger_operation_id input) ops.

(** A disk from which the transaction can be committed. *)
Definition committable (d : disk) : Prop :=
  ledger d ops /\ staging_clean input d /\ ready input digests month d /\ replayLedger d PROTOCOL_1_4_VERSION = Ok rep.

(** A disk on which it is committed. *)
Definition settled (d : disk) : Prop := exists d0 options m, committable d0 /\ usable input cx options /\
  buildManifest (the_draft input digests options cx ops) = Ok m /\ committed_disk input digests month d0 True m d.

(** What is replayed once it is. *)
Definition replayed_with (op : CommittedOperation) (d : disk) : Prop :=
  replayLedger d PROTOCOL_1_4_VERSION =
    Ok (Replayed (ops ++ [op]) (rp_edges rep ++ map canon (ti_edges input)) (rp_events rep ++ map canon (ti_events input))).

Lemma usable_legal options : usable input cx options -> legal_draft (the_draft input digests options cx ops) = true.
Proof.
  intros Hu. apply legal_of_input; [exact sha_hex|apply Hu|apply Hwf|apply Hwf|apply Hu|apply nextSequence_above].
Qed.

Lemma input_id_ok options : usable input cx options -> assertLedgerOperationId (ti_ledger_operation_id input) = Ok ().
Proof. intros Hu. destruct (context_of _ _ _ (us_context _ _ _ Hu)) as (? & _ & _ & _ & Hid & _). exact Hid. Qed.

(** One run from a disk the transaction can be committed from, and what it is
    to that disk. *)
Lemma run_from options d b : usable input cx options -> committable d ->
  match commit options input d b with
  | (Done r, d', b') => exists m, r = committed m /\ buildManifest (the_draft input digests options cx ops) = Ok m /\
      committed_disk input digests month d True m d' /\ (b = None -> b' = None)
  | (Threw _, _, _) => False
  | (Killed, d', _) => b <> None /\
      (invariant input digests month d True d' \/
       exists m, buildManifest (the_draft input digests options cx ops) = Ok m /\ committed_disk input digests month d True m d')
  end.
Proof.
  intros Hu ((Hdir & Hr & Hn) & Hcl & Hre & Hrep). pose proof (usable_legal options Hu) as Hlegal. destruct Hwf as [F1 F2 F3 F4 F5 F6 F7 F8 F9 F10 F11].
  assert (clean input digests month d) as Hcl' by (intros p c Hf Hp; rewrite staged_names_moves; by eapply Hcl).
  rewrite <- (staged_names_moves input digests month) in F6.
  destruct (context_of _ _ _ (us_context _ _ _ Hu)) as (_ & _ & _ & _ & Hid & _).
  pose proof (commit_triple input digests month d True F2 (fun _ => F5) (fun _ => F6) (fun _ => F7) (fun _ => F4) options cx Hmonth
    (fun _ => us_volume _ _ _ Hu) ops Hdir Hr Hn Hnew (us_context _ _ _ Hu) (us_reader _ _ _ Hu) (fun _ => us_baseline _ _ _ Hu)
    F1 (us_waiting _ _ _ Hu) Hid Hcl' (fun _ => Hre) F4 d b eq_refl) as Ht.
  destruct (commit options input d b) as [[[r|e|] d'] b'].
  - destruct Ht as [(m & Hm & Hb & Hc) Hbn]. by exists m.
  - by destruct Ht as [_ []].
  - by destruct Ht as [Hi Hbn].
Qed.

(** What the readers see of a committed transaction. *)
Lemma committed_ledger options d m d' : usable input cx options -> committable d ->
  buildManifest (the_draft input digests options cx ops) = Ok m -> committed_disk input digests month d True m d' ->
  ledger d' (ops ++ [new_operation input m]).
Proof.
  intros Hu ((Hdir & Hr & Hn) & _) Hb Hc. pose proof (usable_legal options Hu) as Hlegal.
  apply ledger_snoc; [| |done|by eapply newest_operation].
  - destruct Hc as (He & _). by eapply extended_operations.
  - by eapply (committed_reads input digests month d True options cx Hmonth ops).
Qed.

(** A disk a killed commit left as it was for the readers. *)
Lemma kept_committable d d' : committable d -> invariant input digests month d True d' -> committable d'.
Proof.
  intros ((Hdir & Hr & Hn) & Hcl & Hre & Hrep) (Hk & Hc & Hrd). destruct Hwf as [_ _ F3 _ _ _ _ _ _ _ _]. split_and!.
  - split_and!; [by eapply extended_operations, kept_extended|by eapply kept_reads|done].
  - intros p c Hf Hp. rewrite <- (staged_names_moves input digests month). by eapply Hc.
  - by apply Hrd.
  - by eapply kept_replay.
Qed.

Lemma run_committable options d b : usable input cx options -> committable d ->
  match commit options input d b with
  | (Done r, d', b') => settled d' /\ (b = None -> b' = None)
  | (Threw _, _, _) => False
  | (Killed, d', _) => b <> None /\ (committable d' \/ settled d')
  end.
Proof.
  intros Hu Hd. pose proof (run_from options d b Hu Hd) as Ht. destruct (commit options input d b) as [[[r|e|] d'] b'].
  - destruct Ht as (m & _ & Hb & Hc & Hbn). split; [by exists d, options, m|done].
  - done.
  - destruct Ht as [Hbn [Hi|(m & Hb & Hc)]]; (split; [done|]); [left; by eapply kept_committable|right; by exists d, options, m].
Qed.

(** And from one on which it is committed. *)
Lemma run_settled options d b : usable input cx options -> settled d -> exists m, commit options input d b = (Done (already_committed m), d, b).
Proof.
  intros Hu (d0 & options0 & m & ((Hdir & Hr & Hn) & _) & Hu0 & Hb & Hc). exists (read_back m).
  eapply (committed_retry input digests month d0 True options0 cx Hmonth ops); try done; try apply Hwf; try apply Hu.
  - by apply usable_legal.
  - by apply (input_id_ok options).
Qed.

Lemma settled_replay d : settled d -> exists op, next_operation input ops op /\ replayed_with op d.
Proof.
  intros (d0 & options0 & m & ((Hdir & Hr & Hn) & _ & _ & Hrep) & Hu0 & Hb & Hc). exists (new_operation input m).
  split; [by eapply newest_operation|]. destruct Hwf as [F1 F2 F3 F4 F5 F6 F7 F8 F9 F10 F11].
  eapply (committed_replay input digests month d0 True); try done. by apply usable_legal.
Qed.

(** A run in which the process is killed. *)
Definition killed_run (d d' : disk) : Prop :=
  exists options n b', usable input cx options /\ commit options input d (Some n) = (Killed, d', b').

Lemma killed_runs d d' : rtc killed_run d d' -> committable d \/ settled d -> committable d' \/ settled d'.
Proof.
  induction 1 as [d|d d1 d' (options & n & b' & Hu & Hrun) _ IH]; intros Hd; [done|]. apply IH. destruct Hd as [Hd|Hd].
  - pose proof (run_committable options d (Some n) Hu Hd) as Hc. rewrite Hrun in Hc. apply Hc.
  - destruct (run_settled options d (Some n) Hu Hd) as [m Hm]. congruence.
Qed.

(** C1. A commit that is killed, however often and at whichever effect, is completed
    by running it again, when it can be committed at all: the next run that is
    not killed returns, and the readers then replay everything they did before,
    followed by the edges and the events of the transaction, once. What that
    takes. Of the transaction ([well_formed], [Hnew]): a new operation id, an
    input the schema of a manifest admits and [validateTransaction] accepts,
    paths that resolve and do not get in each other's way, records that can be
    written, events of increasing sequence and distinct ids. Of the first disk
    ([committable]): a ledger that can be replayed, nothing else staged under the
    id, and nothing in the way of the files. Of the runs ([usable]): one shard
    month, a date-time clock, the baseline the transaction expects, readers of the
    newest version, one volume, and no other writer while a run waits for the lock
    or between the runs. Digests are hexadecimal. [unreadable_after_commit], [unreplayable_after_commit],
    [leftovers_published] and [orphan_blocks_commit] are what happens without. *)
Theorem crash_recovery d d' options : committable d -> rtc killed_run d d' -> usable input cx options ->
  exists r d'', commit options input d' None = (Done r, d'', None) /\ exists op, next_operation input ops op /\ replayed_with op d''.
Proof.
  intros Hd Hr Hu. destruct (killed_runs d d' Hr (or_introl Hd)) as [Hd'|Hd'].
  - pose proof (run_committable options d' None Hu Hd') as Hc. destruct (commit options input d' None) as [[[r|e|] d''] b''].
    + destruct Hc as [Hs Hb]. exists r, d''. rewrite Hb by done. split; [done|]. by apply settled_replay.
    + done.
    + by destruct Hc as [? _].
  - destruct (run_settled options d' None Hu Hd') as [m Hm]. exists (already_committed m), d'. split; [done|]. by apply settled_replay.
Qed.
End recovery.

(* ------------------------------------------------------------------ *)
(** ** Witnesses *)

(** A listing of directories: the names of the entries of the map, in its order. *)
Definition names (d : disk) (p : path) : list string :=
  omap (fun e => match strip_path p e.1 with Some [name] => Some name | _ => None end) (map_to_list d).

Lemma names_NoDup d p : NoDup (names d p).
Proof.
  unfold names. pose proof (NoDup_fst_map_to_list d) as Hn.
  induction (map_to_list d) as [|[q e] l IH]; [constructor|]. cbn in Hn. apply NoDup_cons in Hn as [Hq Hn]. cbn.
  destruct (strip_path p q) as [[|name [|y r]]|] eqn:E; [by apply IH| |by apply IH..]. constructor; [|by apply IH].
  rewrite list_elem_of_omap. intros ([q' e'] & Hin & Hr). cbn in Hr. destruct (strip_path p q') as [[|name' [|y r]]|] eqn:E'; try done.
  injection Hr as ->. apply strip_path_spec in E as ->, E' as ->. apply Hq, list_elem_of_fmap. by exists (p ++ [name], e').
Qed.

Lemma names_spec d p name : name ∈ names d p <-> is_Some (d !! (p ++ [name])).
Proof.
  unfold names. rewrite list_elem_of_omap. split.
  - intros ([q e] & Hin & Hr). cbn in Hr. destruct (strip_path p q) as [[|name' [|y r]]|] eqn:E; try done. injection Hr as ->.
    apply strip_path_spec in E as ->. apply elem_of_map_to_list in Hin. by exists e.
  - intros [e He]. exists (p ++ [name], e). split; [by apply elem_of_map_to_list|]. cbn.
    assert (strip_path p (p ++ [name]) = Some [name]) as -> by by apply strip_path_spec. done.
Qed.

Definition map_listing : Readdir := {| readdir := names; readdir_NoDup := names_NoDup; readdir_spec := names_spec |}.

(** A write that is interrupted leaves an empty file, a removal every file. *)
Definition empty_files : Crash := {| torn := fun _ => Some ""; survives := fun _ => true |}.

(** A hash whose values have the form of a digest. *)
Definition hex_line (a : ascii) : string := Nat.iter 64 (String a) "".
Definition length_hash : Hash := {| sha256 := fun s =>
  hex_line (nth (String.length s mod 3) ["a"; "b"; "c"]%char "a"%char) |}.
Definition every_date : DateTime := {| is_date_time := fun _ => true |}.

Lemma length_hash_hex s : re_match digest_regex (@sha256 length_hash s) = true.
Proof.
  cbn [sha256 length_hash]. assert (String.length s mod 3 < 3) as Hlt by by apply Nat.mod_upper_bound.
  destruct (String.length s mod 3) as [|[|[|n]]]; [vm_compute; reflexivity..|lia].
Qed.

Definition sample_event (id : string) (sequence : Z) : jsval :=
  JObj [("protocol_version", JStr "1.1.0"); ("record_kind", JStr "event"); ("event_id", JStr id);
        ("event_type", JStr "PlanAccepted"); ("project_id", JStr "prj_1"); ("iteration_id", JStr "it_1");
        ("workflow_operation_id", JStr "op_w"); ("ledger_operation_id", JStr "lop_1"); ("sequence", JNum (NInt sequence));
        ("timestamp", JStr "2026-01-02T03:04:05.000Z"); ("payload", JObj [])].

Definition sample_transaction : TransactionInput :=
  {| ti_ledger_operation_id := "lop_1"; ti_workflow_operation_id := "op_w"; ti_attempt_id := "att_1"; ti_expected_baseline := "abcdef0";
     ti_artifacts := [{| ar_path := "runs/a.json"; ar_content := "1" |}]; ti_edges := [];
     ti_events := [sample_event "ev_1" 1; sample_event "ev_2" 2]; ti_required_reader_version := None |}.

Definition sample_options : LedgerRepositoryOptions :=
  {| readBaseline := "abcdef0"; now_context := "2026-01-02T03:04:05.000Z"; now_commit := "2026-01-02T03:04:06.000Z";
     deviceOf := fun _ => 1%Z; readerVersion := None; waiting := Some Datatypes.id |}.

Definition new_ledger : disk := {[ ["ledger"] := Directory; ["ledger"; "operations"] := Directory ]}.

#[local] Existing Instances map_listing empty_files length_hash every_date.

Definition sample_digests : InputDigests :=
  match computeInputDigests sample_transaction with Ok digests => digests | Err _ => Build_InputDigests [] "" "" "" "" end.
Definition sample_context : CommitContext :=
  match newContext sample_options "lop_1" with Ok context => context | Err _ => Build_CommitContext "" [] "" "" end.

Lemma sample_digests_ok : computeInputDigests sample_transaction = Ok sample_digests.
Proof. vm_compute. reflexivity. Qed.

Lemma new_ledger_files p c : new_ledger !! p <> Some (File c).
Proof.
  unfold new_ledger. intros Hp. apply lookup_insert_Some in Hp as [[_ ?]|[_ Hp]]; [done|]. by apply lookup_singleton_Some in Hp as [_ ?].
Qed.

Lemma new_ledger_ledger : ledger new_ledger [].
Proof. split; [vm_compute; reflexivity|]. split; [vm_compute; reflexivity|constructor]. Qed.

Lemma sample_paths : paths_resolve sample_transaction.
Proof. repeat constructor. Qed.

Lemma new_ledger_clean input : staging_clean input new_ledger.
Proof. intros p c Hp. by apply new_ledger_files in Hp. Qed.

Lemma no_clash_dec l : forallb (fun u => forallb (fun v => match strip_path u v with Some (_ :: _) => false | _ => true end) l) l = true ->
  forall u v : path, u ∈ l -> v ∈ l -> ~ above u v.
Proof.
  intros Hl u v Hu Hv (x & r & Hx). apply strip_path_spec in Hx. pose proof (proj1 (forallb_Forall _ _) Hl u Hu) as Hu'.
  pose proof (proj1 (forallb_Forall _ _) Hu' v Hv) as Hv'. cbn beta in Hv'. by rewrite Hx in Hv'.
Qed.

Lemma sample_well_formed : well_formed sample_transaction sample_digests "2026-01".
Proof.
  split.
  - exact sample_digests_ok.
  - exact sample_paths.
  - vm_compute. reflexivity.
  - vm_compute. reflexivity.
  - apply no_clash_dec. vm_compute. reflexivity.
  - apply (bool_decide_unpack _). vm_compute. exact I.
  - apply (bool_decide_unpack _). vm_compute. exact I.
  - constructor.
  - repeat constructor; vm_compute; reflexivity.
  - repeat constructor.
  - apply (bool_decide_unpack _). vm_compute. exact I.
Qed.

Lemma sample_usable : usable sample_transaction sample_context sample_options.
Proof. split; reflexivity. Qed.

Lemma sample_context_ok : context_ok sample_transaction "2026-01" sample_context.
Proof.
  destruct (context_of sample_options sample_transaction sample_context) as (month & Hm & _ & Hc & _); [vm_compute; reflexivity|].
  vm_compute in Hm. injection Hm as <-. exact Hc.
Qed.

Lemma new_ledger_ready : ready sample_transaction sample_digests "2026-01" new_ledger.
Proof.
  split; [|split].
  - assert (Forall (fun m => new_ledger !! mv_to m = None) (moves sample_transaction sample_digests "2026-01")) as Hm
      by (repeat constructor; vm_compute; reflexivity).
    rewrite Forall_forall in Hm. intros m Hin. left. by apply Hm.
  - intros u q c _ _ _. apply new_ledger_files.
  - match goal with |- forall u, u ∈ ?l -> _ => assert (forallb (fun u => negb (bool_decide (new_ledger !! u = Some Directory))) l = true) as Hl
      by (vm_compute; reflexivity) end.
    intros u Hu. pose proof (proj1 (forallb_Forall _ _) Hl u Hu) as Hu'. cbn beta in Hu'.
    by apply negb_true_iff, bool_decide_eq_false in Hu'.
Qed.

Lemma new_ledger_committable : committable sample_transaction sample_digests "2026-01" [] (Replayed [] [] []) new_ledger.
Proof.
  split; [exact new_ledger_ledger|]. split; [apply new_ledger_clean|]. split; [exact new_ledger_ready|]. vm_compute. reflexivity.
Qed.

(** What the disk is after [n] effects of the sample commit. *)
Definition killed_after (n : nat) : disk := (commit sample_options sample_transaction new_ledger (Some n)).1.2.

Lemma sample_killed n : (match (commit sample_options sample_transaction new_ledger (Some n)).1.1 with Killed => true | _ => false end) = true ->
  killed_run sample_transaction sample_context new_ledger (killed_after n).
Proof.
  intros Hk. unfold killed_after. destruct (commit sample_options sample_transaction new_ledger (Some n)) as [[o d'] b'] eqn:E.
  destruct o; try discriminate Hk. exists sample_options, n, b'. split; [exact sample_usable|exact E].
Qed.

Lemma commit_atomic_witness : match commit_locked sample_options sample_transaction sample_digests new_ledger (Some 15) with
  | (Done (committed _), d', _) => extended_by sample_transaction [] d'
  | (Done (already_committed m), d', _) => d' = new_ledger /\ exists op, op ∈ [] /\ manifest op = m /\ op_id m = ti_ledger_operation_id sample_transaction
  | (Threw _, d', _) => unchanged new_ledger [] d'
  | (Killed, d', _) => unchanged new_ledger [] d' \/ extended_by sample_transaction [] d'
  end.
Proof.
  apply commit_atomic; [exact length_hash_hex|exact new_ledger_ledger|exact sample_digests_ok|exact sample_paths|
    vm_compute; reflexivity|reflexivity|reflexivity|apply new_ledger_clean].
Defined.

(** The family of the sample alone: killed once, and attempted again. *)
Definition the_sample (input : TransactionInput) : Prop := input = sample_transaction.

Lemma sample_attempt d b : attempt the_sample d (commit_locked sample_options sample_transaction sample_digests d b).1.2.
Proof.
  destruct (commit_locked sample_options sample_transaction sample_digests d b) as [[o d'] b'] eqn:E.
  by apply (attempt_commit the_sample sample_options sample_transaction sample_digests d b o d' b').
Qed.

Definition killed_once : disk := (commit_locked sample_options sample_transaction sample_digests new_ledger (Some 15)).1.2.


Lemma crash_recovery_witness : exists r d'', commit sample_options sample_transaction (killed_after 15) None = (Done r, d'', None) /\
  exists op, next_operation sample_transaction [] op /\ replayed_with sample_transaction [] (Replayed [] [] []) op d''.
Proof.
  apply (crash_recovery length_hash_hex sample_transaction sample_digests sample_context "2026-01" [] (Replayed [] [] [])
    sample_well_formed sample_context_ok (List.Forall_nil _) new_ledger); [exact new_ledger_committable| |exact sample_usable].
  apply rtc_once, sample_killed. vm_compute. reflexivity.
Defined.

(** ** What the hypotheses exclude *)

Definition with_artifacts (artifacts : list TransactionArtifact) : TransactionInput :=
  {| ti_ledger_operation_id := "lop_1"; ti_workflow_operation_id := "op_w"; ti_attempt_id := "att_1"; ti_expected_baseline := "abcdef0";
     ti_artifacts := artifacts; ti_edges := []; ti_events := []; ti_required_reader_version := None |}.
Definition with_events (events : list jsval) : TransactionInput :=
  {| ti_ledger_operation_id := "lop_1"; ti_workflow_operation_id := "op_w"; ti_attempt_id := "att_1"; ti_expected_baseline := "abcdef0";
     ti_artifacts := []; ti_edges := []; ti_events := events; ti_required_reader_version := None |}.

(** How a run ends. *)
Definition ends_committed (run : outcome CommitResult * disk * option nat) : bool :=
  match run.1.1 with Done (committed _) => true | _ => false end.
Definition ends_invalid (run : outcome CommitResult * disk * option nat) : bool :=
  match run.1.1 with Threw validation_failed => true | _ => false end.

(** Two artifacts of one content are committed, and the ledger cannot be read
    from then on: the schema of the manifest wants distinct digests. *)
Example unreadable_after_commit :
  let run := commit sample_options (with_artifacts [{| ar_path := "a.json"; ar_content := "1" |}; {| ar_path := "b.json"; ar_content := "1" |}])
    new_ledger None in
  ends_committed run = true /\ is_ok (readCommittedOperations run.1.2 PROTOCOL_1_4_VERSION) = false.
Proof. vm_compute. split; reflexivity. Qed.

(** Events out of order are committed, and the ledger cannot be replayed from
    then on. *)
Example unreplayable_after_commit :
  let run := commit sample_options (with_events [sample_event "ev_1" 2; sample_event "ev_2" 1]) new_ledger None in
  ends_committed run = true /\ is_ok (readCommittedOperations run.1.2 PROTOCOL_1_4_VERSION) = true /\
  is_ok (replayLedger run.1.2 PROTOCOL_1_4_VERSION) = false.
Proof. vm_compute. split_and!; reflexivity. Qed.

(** An attempt that validation refused leaves its files in the staging
    directory, and the next attempt under that id publishes them, here among the
    manifests. *)
Example leftovers_published :
  let refused := commit sample_options (with_artifacts [{| ar_path := "ledger/operations/x.json"; ar_content := "1" |}]) new_ledger None in
  let run := commit sample_options (with_artifacts []) refused.1.2 None in
  ends_invalid refused = true /\ ends_committed run = true /\ run.1.2 !! ["ledger"; "operations"; "x.json"] = Some (File "1") /\
  is_ok (readCommittedOperations run.1.2 PROTOCOL_1_4_VERSION) = false.
Proof. vm_compute. split_and!; reflexivity. Qed.

(** A file published by an attempt that was then abandoned blocks every later
    transaction that writes other content there. *)
Example orphan_blocks_commit :
  let killed := commit sample_options (with_artifacts [{| ar_path := "a.json"; ar_content := "1" |}]) new_ledger (Some 13) in
  let run := commit sample_options {| ti_ledger_operation_id := "lop_2"; ti_workflow_operation_id := "op_w"; ti_attempt_id := "att_2";
    ti_expected_baseline := "abcdef0"; ti_artifacts := [{| ar_path := "a.json"; ar_content := "22" |}]; ti_edges := []; ti_events := [];
    ti_required_reader_version := None |} killed.1.2 None in
  readCommittedOperations killed.1.2 PROTOCOL_1_4_VERSION = Ok [] /\ killed.1.2 !! ["a.json"] = Some (File "1") /\
  run.1.1 = Threw ledger_conflict.
Proof. vm_compute. split_and!; reflexivity. Qed.
