(* ===== verification/Lock.v ===== *)
(** * The write lock of the ledger

    [packages/core/src/ledger/lock.ts]: a directory that a writer makes and
    removes, the record of its owner, and the reclaiming of a lock whose owner
    died. A writer is a state machine with one step per access to the disk; the
    steps of several writers, the passing of time and the death of processes
    interleave as a list of events. A recursive removal is one access. *)

From stdpp Require Import gmap.
From S2P Require Import Prelude Regex Json Budget Lease JsonText Schema.

(** ** The lock on disk *)

Record LockOwner : Type := { lo_pid : number; lo_hostname : string; lo_acquired_at : string }.

(** The directory: when it was last changed, and its file [owner.json]. *)
Record LockDirectory : Type := { mtimeMs : Z; owner_json : option string }.

Definition string_or_unknown (v : jsval) : string := match v with JStr s => s | _ => "unknown" end.

Definition readOwner (lockDir : option LockDirectory) : option LockOwner :=
  match lockDir ≫= owner_json with
  | None => None
  | Some text =>
      match JSON_parse text with
      | Some (JObj fields) =>
          match jfield fields "pid" with
          | JNum pid => Some {| lo_pid := pid; lo_hostname := string_or_unknown (jfield fields "hostname");
                                lo_acquired_at := string_or_unknown (jfield fields "acquired_at") |}
          | _ => None
          end
      | _ => None
      end
  end.

(** ** A writer *)

Record AcquireWriteLockOptions : Type := {
  timeoutMs : Z; initialBackoffMs : Z; maxBackoffMs : Z; staleAfterMs : Z; maxAttempts : Z }.

Inductive phase : Type :=
| trying       (** about to make the directory *)
| created      (** made it; about to write the owner *)
| checking     (** found it there; about to read its owner *)
| ageing       (** read no owner; about to look at its age *)
| removing     (** decided to reclaim it *)
| waiting      (** left it; about to sleep or to give up *)
| held         (** [acquireWriteLock] has returned *)
| releasing    (** removed the owner; about to remove the directory *)
| released
| unavailable (owner : option LockOwner)
| failed.

Record Writer : Type := {
  wr_pid : Z; wr_hostname : string; wr_phase : phase; attempts : Z; backoffMs : Z; startedAt : Z }.

Definition goto (p : phase) (w : Writer) : Writer :=
  {| wr_pid := wr_pid w; wr_hostname := wr_hostname w; wr_phase := p; attempts := attempts w; backoffMs := backoffMs w; startedAt := startedAt w |}.

Section lock.
Context `{Clock}.
Variable options : AcquireWriteLockOptions.

Definition owner_record (w : Writer) (now : Z) : jsval :=
  JObj [("pid", JNum (NInt (wr_pid w))); ("hostname", JStr (wr_hostname w)); ("acquired_at", JStr (to_iso now))].

(** No process has a number that is not an integer. *)
Definition isProcessAlive (living : Z -> bool) (pid : number) : bool :=
  match pid with NInt z => living z | _ => false end.

(** One access of a writer to the disk; [None] when it is done. *)
Definition writer_step (living : Z -> bool) (now : Z) (lockDir : option LockDirectory) (w : Writer) : option (option LockDirectory * Writer) :=
  match wr_phase w with
  | trying =>
      match lockDir with
      | None => Some (Some {| mtimeMs := now; owner_json := None |}, goto created w)
      | Some _ => Some (lockDir, {| wr_pid := wr_pid w; wr_hostname := wr_hostname w; wr_phase := checking;
                                    attempts := attempts w + 1; backoffMs := backoffMs w; startedAt := startedAt w |})
      end
  | created =>
      match lockDir, canonicalizeJson (owner_record w now) with
      | Some _, Ok text => Some (Some {| mtimeMs := now; owner_json := Some (text +:+ line_feed) |}, goto held w)
      | _, _ => Some (lockDir, goto failed w)
      end
  | checking =>
      match readOwner lockDir with
      | Some owner => Some (lockDir, goto (if isProcessAlive living (lo_pid owner) then waiting else removing) w)
      | None => Some (lockDir, goto ageing w)
      end
  | ageing =>
      match lockDir with
      | None => Some (lockDir, goto trying w)
      | Some dir => Some (lockDir, goto (if (staleAfterMs options <=? now - mtimeMs dir)%Z then removing else waiting) w)
      end
  | removing => Some (None, goto trying w)
  | waiting =>
      if (maxAttempts options <=? attempts w)%Z || (timeoutMs options <=? now - startedAt w)%Z
      then Some (lockDir, goto (unavailable (readOwner lockDir)) w)
      else Some (lockDir, {| wr_pid := wr_pid w; wr_hostname := wr_hostname w; wr_phase := trying; attempts := attempts w;
                             backoffMs := Z.min (backoffMs w * 2) (maxBackoffMs options); startedAt := startedAt w |})
  | held => Some (match lockDir with Some _ => Some {| mtimeMs := now; owner_json := None |} | None => None end, goto releasing w)
  | releasing => Some (None, goto released w)
  | released | unavailable _ | failed => None
  end.

(** ** Several writers *)

Record world : Type := { lock : option LockDirectory; clock : Z; living : Z -> bool; writers : list Writer }.

Inductive lock_event : Type :=
| Run (i : nat)
| Tick (ms : Z)
| Death (pid : Z).

Definition exec (W : world) (e : lock_event) : option world :=
  match e with
  | Run i =>
      match writers W !! i with
      | Some w =>
          if living W (wr_pid w) then
            r ← writer_step (living W) (clock W) (lock W) w;
            Some {| lock := r.1; clock := clock W; living := living W; writers := <[i := r.2]> (writers W) |}
          else None
      | None => None
      end
  | Tick ms => if (0 <=? ms)%Z then Some {| lock := lock W; clock := clock W + ms; living := living W; writers := writers W |} else None
  | Death pid => Some {| lock := lock W; clock := clock W; living := fun p => if decide (p = pid) then false else living W p; writers := writers W |}
  end.

(** A writer that has just been called. *)
Definition new_writer (pid : Z) (hostname : string) (now : Z) : Writer :=
  {| wr_pid := pid; wr_hostname := hostname; wr_phase := trying; attempts := 0; backoffMs := initialBackoffMs options; startedAt := now |}.

Fixpoint exec_all (W : world) (es : list lock_event) : option world :=
  match es with [] => Some W | e :: es' => W' ← exec W e; exec_all W' es' end.

(** ** Exclusion *)

Definition owning (w : Writer) : Prop := wr_phase w = created \/ wr_phase w = held \/ wr_phase w = releasing.
Definition reclaiming (w : Writer) : bool := match wr_phase w with ageing | removing => true | _ => false end.
(** A writer whose lock has no owner on record. *)
Definition unrecorded (w : Writer) : bool := match wr_phase w with created | releasing => true | _ => false end.

Definition lives (W : world) (i : nat) (w : Writer) : Prop := writers W !! i = Some w /\ living W (wr_pid w) = true.

(** An event that respects the timing the protocol relies on: no writer acts
    while another is between reading the owner of a lock and reclaiming it, and
    none takes [staleAfterMs] between the directory and its owner record. *)
Definition orderly (W : world) (e : lock_event) : Prop :=
  match e with
  | Run i => forall j w, lives W j w -> reclaiming w = true -> j = i
  | Tick ms => forall j w dir, lives W j w -> unrecorded w = true -> lock W = Some dir -> (clock W + ms - mtimeMs dir < staleAfterMs options)%Z
  | Death _ => True
  end.

Fixpoint orderly_run (W : world) (es : list lock_event) : Prop :=
  match es with
  | [] => True
  | e :: es' => orderly W e /\ match exec W e with Some W' => orderly_run W' es' | None => True end
  end.

(** What the phase of a living writer says of the directory. *)
Definition phase_ok (W : world) (w : Writer) : Prop :=
  match wr_phase w with
  | created | releasing => exists dir, lock W = Some dir /\ owner_json dir = None /\ (clock W - mtimeMs dir < staleAfterMs options)%Z
  | held => exists dir at_ text, lock W = Some dir /\ canonicalizeJson (owner_record w at_) = Ok text /\ owner_json dir = Some (text +:+ line_feed)
  | ageing => readOwner (lock W) = None
  | removing => forall dir, lock W = Some dir ->
      match readOwner (lock W) with
      | Some owner => isProcessAlive (living W) (lo_pid owner) = false
      | None => (staleAfterMs options <= clock W - mtimeMs dir)%Z
      end
  | _ => True
  end.

Record exclusive (W : world) : Prop := {
  ex_phases : forall i w, lives W i w -> phase_ok W w;
  ex_one : forall i j w u, lives W i w -> lives W j u -> owning w -> owning u -> i = j }.

Lemma readOwner_record w now text dir : canonicalizeJson (owner_record w now) = Ok text -> owner_json dir = Some (text +:+ line_feed) ->
  exists owner, readOwner (Some dir) = Some owner /\ lo_pid owner = NInt (wr_pid w).
Proof.
  intros Ht Hd. unfold readOwner. cbn. rewrite Hd, (parse_written (owner_record w now) text) by done. cbn. by eexists.
Qed.

Definition with_lock (W : world) (i : nat) (r : option LockDirectory * Writer) : world :=
  {| lock := r.1; clock := clock W; living := living W; writers := <[i := r.2]> (writers W) |}.

Lemma lives_with W i w lock' w' j u : lives W i w -> wr_pid w' = wr_pid w -> lives (with_lock W i (lock', w')) j u ->
  (j = i /\ u = w') \/ (j <> i /\ lives W j u).
Proof.
  intros [Hi Hl] Hp [Hj Hlj]. cbn in *. destruct (decide (j = i)) as [->|Hne].
  - left. rewrite list_lookup_insert_eq in Hj by by eapply lookup_lt_Some. by injection Hj as <-.
  - right. by rewrite list_lookup_insert_ne in Hj.
Qed.

(** The other living writers hold nothing. *)
Definition alone (W : world) (i : nat) : Prop := forall j u, j <> i -> lives W j u -> ~ owning u.

Lemma exclusive_with W i w lock' w' : exclusive W -> orderly W (Run i) -> lives W i w -> wr_pid w' = wr_pid w ->
  phase_ok (with_lock W i (lock', w')) w' -> lock' = lock W \/ alone W i -> (owning w' -> owning w \/ alone W i) ->
  exclusive (with_lock W i (lock', w')).
Proof.
  intros [Hph Hone] Hor Hi Hp Hok Hlock Hown. split.
  - intros j u Hj. destruct (lives_with _ _ _ _ _ _ _ Hi Hp Hj) as [[-> ->]|[Hne Hu]]; [done|]. pose proof (Hph j u Hu) as Hpu.
    destruct Hlock as [->|Ha]; [exact Hpu|]. pose proof (Ha j u Hne Hu) as Hno. unfold owning in Hno. unfold phase_ok in *.
    specialize (Hor j u Hu). unfold reclaiming in Hor. destruct (wr_phase u); try exact I; try (by destruct Hno; auto); by destruct Hne; apply Hor.
  - intros j k u v Hj Hk Ou Ov.
    destruct (lives_with _ _ _ _ _ _ _ Hi Hp Hj) as [[-> ->]|[Hne Hu]]; destruct (lives_with _ _ _ _ _ _ _ Hi Hp Hk) as [[-> ->]|[Hne' Hv]].
    + done.
    + destruct (Hown Ou) as [Ow|Ha]; [by eapply Hone|by destruct (Ha k v Hne' Hv)].
    + destruct (Hown Ov) as [Ow|Ha]; [by eapply Hone|by destruct (Ha j u Hne Hu)].
    + by eapply Hone.
Qed.

(** A living owner keeps the directory there. *)
Lemma owner_lock W j u : exclusive W -> lives W j u -> owning u -> exists dir, lock W = Some dir /\
  ((owner_json dir = None /\ (clock W - mtimeMs dir < staleAfterMs options)%Z) \/
   exists owner, readOwner (lock W) = Some owner /\ isProcessAlive (living W) (lo_pid owner) = true).
Proof.
  intros [Hph _] Hu Ho. pose proof (Hph j u Hu) as Hok. unfold phase_ok in Hok. destruct Ho as [Ho|[Ho|Ho]]; rewrite Ho in Hok.
  - destruct Hok as (dir & Hd & Hn & Ha). exists dir. split; [done|]. by left.
  - destruct Hok as (dir & at_ & text & Hd & Ht & Hj). exists dir. split; [done|]. right.
    destruct (readOwner_record u at_ text dir Ht Hj) as (owner & Hr & Hp). exists owner. rewrite Hd. split; [done|]. rewrite Hp. apply Hu.
  - destruct Hok as (dir & Hd & Hn & Ha). exists dir. split; [done|]. by left.
Qed.

Lemma alone_unlocked W i : exclusive W -> lock W = None -> alone W i.
Proof. intros He Hn j u _ Hu Ho. destruct (owner_lock W j u He Hu Ho) as (dir & Hd & _). congruence. Qed.

Lemma alone_owner W i w : exclusive W -> lives W i w -> owning w -> alone W i.
Proof. intros He Hi Ho j u Hne Hu Hou. apply Hne. by eapply (ex_one _ He). Qed.

Lemma alone_reclaiming W i w : exclusive W -> lives W i w -> wr_phase w = removing -> alone W i.
Proof.
  intros He Hi Hp j u _ Hu Ho. pose proof (ex_phases _ He i w Hi) as Hok. unfold phase_ok in Hok. rewrite Hp in Hok.
  destruct (owner_lock W j u He Hu Ho) as (dir & Hd & Hc). specialize (Hok dir Hd). destruct Hc as [[Hn Ha]|(owner & Hr & Ha)].
  - rewrite Hd in Hok. unfold readOwner in Hok. cbn in Hok. rewrite Hn in Hok. lia.
  - rewrite Hr in Hok. congruence.
Qed.

Hypothesis stale_positive : (0 < staleAfterMs options)%Z.

Lemma run_exclusive W i w lock' w' : exclusive W -> orderly W (Run i) -> lives W i w ->
  writer_step (living W) (clock W) (lock W) w = Some (lock', w') -> exclusive (with_lock W i (lock', w')).
Proof.
  intros He Hor Hi. pose proof (ex_phases _ He i w Hi) as Hok. unfold writer_step, phase_ok in *. unfold owning.
  assert (forall p, lock' = lock W -> w' = goto p w -> phase_ok (with_lock W i (lock W, goto p w)) (goto p w) ->
            (p = held \/ p = created \/ p = releasing -> owning w) -> exclusive (with_lock W i (lock', w'))) as Hsame.
  { intros p -> -> Hp Ho. eapply exclusive_with; [done..|by left|]. intros Hw. left. unfold owning in Hw. cbn in Hw. apply Ho. tauto. }
  destruct (wr_phase w) eqn:Hw.
  - destruct (lock W) as [dir|] eqn:Hl; intros [= <- <-].
    + eapply exclusive_with; [done..|by left|]. unfold owning. cbn. intros [|[|]]; discriminate.
    + pose proof (alone_unlocked W i He Hl) as Ha. eapply exclusive_with; [done..| |by right|by right]. cbn. eexists. split; [done|]. cbn. split; [done|lia].
  - assert (owning w) as Ho by by left. pose proof (alone_owner W i w He Hi Ho) as Ha. destruct Hok as (dir & Hd & Hn & Hm). rewrite Hd.
    destruct (canonicalizeJson (owner_record w (clock W))) as [text|e] eqn:Ht; intros [= <- <-].
    + eapply exclusive_with; [done..| |by right|by right]. cbn. eexists _, (clock W), text. split; [done|]. by split.
    + apply (Hsame failed); [by rewrite Hd|done|done|]. intros [|[|]]; discriminate.
  - destruct (readOwner (lock W)) as [owner|] eqn:Hr; intros [= <- <-].
    + destruct (isProcessAlive (living W) (lo_pid owner)) eqn:Hl; [apply (Hsame waiting)|apply (Hsame removing)]; try done;
        [intros [|[|]]; discriminate| |intros [|[|]]; discriminate]. cbn. intros dir Hd. by rewrite Hr.
    + apply (Hsame ageing); [done..|]. intros [|[|]]; discriminate.
  - destruct (lock W) as [dir|] eqn:Hl; [|intros [= <- <-]; apply (Hsame trying); [done..|]; intros [|[|]]; discriminate].
    destruct (staleAfterMs options <=? clock W - mtimeMs dir)%Z eqn:Hs; intros [= <- <-]; [apply (Hsame removing)|apply (Hsame waiting)]; try done;
      [|intros [|[|]]; discriminate..]. cbn. intros dir' [= <-]. rewrite Hok. by apply Z.leb_le.
  - intros [= <- <-]. pose proof (alone_reclaiming W i w He Hi Hw) as Ha. eapply exclusive_with; [done..|by right|by right].
  - destruct ((_ <=? _)%Z || _) eqn:Hs; intros [= <- <-].
    + apply (Hsame (unavailable (readOwner (lock W)))); [done..|]. intros [|[|]]; discriminate.
    + eapply exclusive_with; [done..|by left|]. unfold owning. cbn. intros [|[|]]; discriminate.
  - assert (owning w) as Ho by (right; by left). pose proof (alone_owner W i w He Hi Ho) as Ha. destruct Hok as (dir & at_ & text & Hd & _).
    rewrite Hd. intros [= <- <-]. eapply exclusive_with; [done..| |by right|by right]. cbn. eexists. split; [done|]. cbn. split; [done|lia].
  - assert (owning w) as Ho by (right; by right). pose proof (alone_owner W i w He Hi Ho) as Ha. intros [= <- <-].
    eapply exclusive_with; [done..|by right|by right].
  - discriminate.
  - discriminate.
  - discriminate.
Qed.

Lemma exec_exclusive W e W' : exclusive W -> orderly W e -> exec W e = Some W' -> exclusive W'.
Proof.
  intros He Hor. destruct e as [i|ms|pid]; cbn [exec].
  - destruct (writers W !! i) as [w|] eqn:Hi; [|done]. destruct (living W (wr_pid w)) eqn:Hl; [|done].
    destruct (writer_step _ _ _ _) as [[lock' w']|] eqn:Hs; [|done]. cbn. intros [= <-].
    by apply (run_exclusive W i w lock' w' He Hor (conj Hi Hl)).
  - destruct (0 <=? ms)%Z eqn:Hms; [|done]. apply Z.leb_le in Hms. intros [= <-]. destruct He as [Hph Hone]. split; [|exact Hone].
    intros i w Hi. pose proof (Hph i w Hi) as Hok. specialize (Hor i w). unfold phase_ok, unrecorded in *. cbn.
    destruct (wr_phase w); try done.
    + destruct Hok as (dir & Hd & Hn & Ha). exists dir. split_and!; [done..|]. by apply Hor.
    + intros dir Hd. specialize (Hok dir Hd). destruct (readOwner (lock W)); [done|]. lia.
    + destruct Hok as (dir & Hd & Hn & Ha). exists dir. split_and!; [done..|]. by apply Hor.
  - intros [= <-]. destruct He as [Hph Hone].
    assert (forall i w, lives {| lock := lock W; clock := clock W; living := fun p => if decide (p = pid) then false else living W p; writers := writers W |} i w ->
              lives W i w) as Hsub.
    { intros i w [Hi Hl]. split; [done|]. cbn in Hl. by case_decide. }
    split; [|intros i j w u Hi Hj; apply Hone; by apply Hsub].
    intros i w Hi. pose proof (Hph i w (Hsub i w Hi)) as Hok. unfold phase_ok in *. cbn. destruct (wr_phase w); try done.
    intros dir Hd. specialize (Hok dir Hd). destruct (readOwner (lock W)) as [owner|]; [|done].
    unfold isProcessAlive in *. destruct (lo_pid owner); [|done..]. by case_decide.
Qed.


(** ** Acquisition *)

(** The lock is free for a writer: not there, of a dead process, or without a
    readable owner for long enough. *)
Definition available (W : world) : Prop :=
  forall dir, lock W = Some dir ->
    match readOwner (lock W) with
    | Some owner => isProcessAlive (living W) (lo_pid owner) = false
    | None => (staleAfterMs options <= clock W - mtimeMs dir)%Z
    end.

Lemma owner_record_writes w now : exists text, canonicalizeJson (owner_record w now) = Ok text.
Proof. eexists. reflexivity. Qed.

Lemma exec_run W i w : lives W i w -> exec W (Run i) =
  match writer_step (living W) (clock W) (lock W) w with Some r => Some (with_lock W i r) | None => None end.
Proof. intros [Hi Hl]. cbn [exec]. by rewrite Hi, Hl; destruct (writer_step _ _ _ _). Qed.

Lemma lives_after W i w r : lives W i w -> wr_pid r.2 = wr_pid w -> lives (with_lock W i r) i r.2.
Proof.
  intros [Hi Hl] Hp. split; cbn; [|by rewrite Hp]. apply list_lookup_insert_eq. by eapply lookup_lt_Some.
Qed.

(** One step of writer [i], which leads to [r]. *)
Lemma run_step W i w r es : lives W i w -> writer_step (living W) (clock W) (lock W) w = Some r ->
  exec_all W (Run i :: es) = exec_all (with_lock W i r) es.
Proof. intros Hi Hs. cbn [exec_all]. by rewrite (exec_run W i w Hi), Hs. Qed.

Lemma takes_free W i w : lives W i w -> wr_phase w = trying -> lock W = None ->
  exists W' w', exec_all W (repeat (Run i) 2) = Some W' /\ lives W' i w' /\ wr_phase w' = held.
Proof.
  intros Hi Hp Hn. cbn [repeat]. set (r1 := (Some {| mtimeMs := clock W; owner_json := None |}, goto created w)).
  assert (writer_step (living W) (clock W) (lock W) w = Some r1) as H1 by (unfold writer_step; by rewrite Hp, Hn).
  rewrite (run_step _ _ _ _ _ Hi H1). assert (lives (with_lock W i r1) i (goto created w)) as Hi1 by by apply (lives_after W i w r1).
  destruct (owner_record_writes (goto created w) (clock W)) as [text Ht].
  set (r2 := (Some {| mtimeMs := clock W; owner_json := Some (text +:+ line_feed) |}, goto held (goto created w))).
  assert (writer_step (living (with_lock W i r1)) (clock (with_lock W i r1)) (lock (with_lock W i r1)) (goto created w) = Some r2) as H2
    by (cbn -[canonicalizeJson]; by rewrite Ht).
  rewrite (run_step _ _ _ _ _ Hi1 H2). eexists _, (goto held (goto created w)). split; [reflexivity|]. split; [|done].
  by apply (lives_after _ i (goto created w) r2).
Qed.

Lemma takes_available W i w : lives W i w -> wr_phase w = trying -> available W ->
  exists n W' w', n <= 6 /\ exec_all W (repeat (Run i) n) = Some W' /\ lives W' i w' /\ wr_phase w' = held.
Proof.
  intros Hi Hp Ha. destruct (lock W) as [dir|] eqn:Hl.
  2:{ destruct (takes_free W i w Hi Hp Hl) as (W' & w' & Hw). exists 2, W', w'. split; [lia|exact Hw]. }
  assert (exists w1, writer_step (living W) (clock W) (lock W) w = Some (lock W, w1) /\ wr_pid w1 = wr_pid w /\ wr_phase w1 = checking) as (w1 & S1 & P1 & F1).
  { unfold writer_step. rewrite Hp, Hl. by eexists. }
  assert (lives (with_lock W i (lock W, w1)) i w1) as L1 by by apply (lives_after W i w (lock W, w1)).
  specialize (Ha dir Hl). rewrite Hl in Ha.
  assert (forall W1 w2, lives W1 i w2 -> wr_phase w2 = removing -> exists W' w', exec_all W1 (repeat (Run i) 3) = Some W' /\ lives W' i w' /\ wr_phase w' = held) as Hrem.
  { intros W1 w2 L2 F2. change (repeat (Run i) 3) with (Run i :: repeat (Run i) 2).
    assert (writer_step (living W1) (clock W1) (lock W1) w2 = Some (None, goto trying w2)) as S2 by (unfold writer_step; by rewrite F2).
    rewrite (run_step _ _ _ _ _ L2 S2). apply (takes_free _ i (goto trying w2)); [|done|done]. by apply (lives_after W1 i w2 (None, goto trying w2)). }
  destruct (readOwner (Some dir)) as [owner|] eqn:Hr.
  - set (r2 := (lock W, goto removing w1)).
    assert (writer_step (living W) (clock W) (lock W) w1 = Some r2) as S2 by (unfold writer_step; by rewrite F1, Hl, Hr, Ha; unfold r2; rewrite Hl).
    assert (lives (with_lock (with_lock W i (lock W, w1)) i r2) i (goto removing w1)) as L2 by by apply (lives_after _ i w1 r2).
    destruct (Hrem _ _ L2 eq_refl) as (W' & w' & Hrun & Hw). exists 5, W', w'. split; [lia|]. split; [|done].
    change (repeat (Run i) 5) with (Run i :: Run i :: repeat (Run i) 3). rewrite (run_step _ _ _ _ _ Hi S1), (run_step (with_lock W i (lock W, w1)) _ _ _ _ L1 S2). exact Hrun.
  - set (r2 := (lock W, goto ageing w1)). set (r3 := (lock W, goto removing (goto ageing w1))).
    assert (writer_step (living W) (clock W) (lock W) w1 = Some r2) as S2 by (unfold writer_step; rewrite F1, Hl, Hr; unfold r2; by rewrite Hl).
    assert (lives (with_lock (with_lock W i (lock W, w1)) i r2) i (goto ageing w1)) as L2 by by apply (lives_after _ i w1 r2).
    assert (writer_step (living W) (clock W) (lock W) (goto ageing w1) = Some r3) as S3.
    { unfold writer_step. cbn [wr_phase goto]. unfold r3. rewrite Hl. by rewrite (proj2 (Z.leb_le _ _) Ha). }
    assert (lives (with_lock (with_lock (with_lock W i (lock W, w1)) i r2) i r3) i (goto removing (goto ageing w1))) as L3 by by apply (lives_after _ i (goto ageing w1) r3).
    destruct (Hrem _ _ L3 eq_refl) as (W' & w' & Hrun & Hw). exists 6, W', w'. split; [lia|]. split; [|done].
    change (repeat (Run i) 6) with (Run i :: Run i :: Run i :: repeat (Run i) 3).
    rewrite (run_step _ _ _ _ _ Hi S1), (run_step (with_lock W i (lock W, w1)) _ _ _ _ L1 S2), (run_step (with_lock (with_lock W i (lock W, w1)) i r2) _ _ _ _ L2 S3).
    exact Hrun.
Qed.

Lemma gives_up k : forall W i w owner, lives W i w -> wr_phase w = trying -> readOwner (lock W) = Some owner ->
  isProcessAlive (living W) (lo_pid owner) = true -> (maxAttempts options <= attempts w + Z.of_nat (S k))%Z ->
  exists n W' w', n <= 3 * S k /\ exec_all W (repeat (Run i) n) = Some W' /\ lives W' i w' /\ wr_phase w' = unavailable (Some owner).
Proof.
  induction k as [|k IH]; intros W i w owner Hi Hp Hr Ha Hk.
  all: assert (exists dir, lock W = Some dir) as [dir Hl] by (unfold readOwner in Hr; destruct (lock W); [by eexists|discriminate Hr]).
  all: assert (exists w1, writer_step (living W) (clock W) (lock W) w = Some (lock W, w1) /\ wr_pid w1 = wr_pid w /\ wr_phase w1 = checking /\
         attempts w1 = (attempts w + 1)%Z) as (w1 & S1 & P1 & F1 & A1) by (unfold writer_step; rewrite Hp, Hl; by eexists).
  all: assert (lives (with_lock W i (lock W, w1)) i w1) as L1 by by apply (lives_after W i w (lock W, w1)).
  all: set (r2 := (lock W, goto waiting w1)).
  all: assert (writer_step (living W) (clock W) (lock W) w1 = Some r2) as S2 by (unfold writer_step; by rewrite F1, Hr, Ha).
  all: assert (lives (with_lock (with_lock W i (lock W, w1)) i r2) i (goto waiting w1)) as L2 by by apply (lives_after _ i w1 r2).
  all: destruct ((maxAttempts options <=? attempts (goto waiting w1))%Z || (timeoutMs options <=? clock W - startedAt (goto waiting w1))%Z) eqn:Hend.
  2:{ exfalso. apply orb_false_iff in Hend as [Hend _]. apply Z.leb_gt in Hend. cbn in Hend. lia. }
  1,2: set (r3 := (lock W, goto (unavailable (Some owner)) (goto waiting w1)));
    assert (writer_step (living W) (clock W) (lock W) (goto waiting w1) = Some r3) as S3
      by (unfold writer_step; cbn [wr_phase goto]; cbn [wr_phase goto] in Hend; rewrite Hend, Hr; done);
    exists 3; eexists _, _; split; [lia|]; change (repeat (Run i) 3) with [Run i; Run i; Run i];
    rewrite (run_step _ _ _ _ _ Hi S1), (run_step (with_lock W i (lock W, w1)) _ _ _ _ L1 S2), (run_step (with_lock (with_lock W i (lock W, w1)) i r2) _ _ _ _ L2 S3);
    split; [reflexivity|]; split; [by apply (lives_after _ i (goto waiting w1) r3)|done].
  set (w3 := {| wr_pid := wr_pid w1; wr_hostname := wr_hostname w1; wr_phase := trying; attempts := attempts w1;
                backoffMs := Z.min (backoffMs w1 * 2) (maxBackoffMs options); startedAt := startedAt w1 |}).
  assert (writer_step (living W) (clock W) (lock W) (goto waiting w1) = Some (lock W, w3)) as S3
    by (unfold writer_step; cbn [wr_phase goto]; cbn [wr_phase goto] in Hend; by rewrite Hend).
  set (W3 := with_lock (with_lock (with_lock W i (lock W, w1)) i r2) i (lock W, w3)).
  assert (lives W3 i w3) as L3 by by apply (lives_after _ i (goto waiting w1) (lock W, w3)).
  destruct (IH W3 i w3 owner L3 eq_refl Hr Ha) as (n & W' & w' & Hn & Hrun & Hw); [cbn; lia|].
  exists (S (S (S n))), W', w'. split; [lia|]. split; [|exact Hw]. cbn [repeat].
  by rewrite (run_step _ _ _ _ _ Hi S1), (run_step (with_lock W i (lock W, w1)) _ _ _ _ L1 S2), (run_step (with_lock (with_lock W i (lock W, w1)) i r2) _ _ _ _ L2 S3).
Qed.

(** C6. A writer that is not disturbed ends its attempt. When the lock is free, or a
    dead process left it, or it has had no owner for long enough, the writer holds
    it after at most six accesses; when a living process owns it, the writer gives
    up with that owner after at most three accesses for each attempt it has. *)
Theorem acquisition_ends W i w : lives W i w -> wr_phase w = trying -> attempts w = 0%Z -> (1 <= maxAttempts options)%Z ->
  (available W -> exists n W' w', n <= 6 /\ exec_all W (repeat (Run i) n) = Some W' /\ lives W' i w' /\ wr_phase w' = held) /\
  (forall owner, readOwner (lock W) = Some owner -> isProcessAlive (living W) (lo_pid owner) = true ->
    exists n W' w', n <= 3 * Z.to_nat (maxAttempts options) /\ exec_all W (repeat (Run i) n) = Some W' /\ lives W' i w' /\
      wr_phase w' = unavailable (Some owner)).
Proof.
  intros Hi Hp Ha Hm. split; [by intros Hav; apply (takes_available W i w)|]. intros owner Hr Hl.
  destruct (gives_up (Nat.pred (Z.to_nat (maxAttempts options))) W i w owner Hi Hp Hr Hl ltac:(lia)) as (n & W' & w' & Hn & Hw).
  exists n, W', w'. split; [lia|exact Hw].
Qed.
End lock.

(* ------------------------------------------------------------------ *)
(** ** Witnesses *)

Definition sample_lock_options : AcquireWriteLockOptions :=
  {| timeoutMs := 5000; initialBackoffMs := 25; maxBackoffMs := 250; staleAfterMs := 30000; maxAttempts := 100 |}.

#[local] Existing Instance text_clock.

(** Two writers before a lock whose owner, process 9, is dead. *)
Definition dead_owner : world :=
  {| lock := Some {| mtimeMs := 0; owner_json := Some ("{" +:+ quote "pid" +:+ ":9}") |}; clock := 100000;
     living := fun p => bool_decide (p = 1 \/ p = 2)%Z;
     writers := [new_writer sample_lock_options 1 "h" 100000; new_writer sample_lock_options 2 "h" 100000] |}.

Definition reclaim_once : list lock_event := [Run 0; Run 1; Run 0; Run 0; Run 0; Run 0; Run 1; Tick 10; Run 1].

(** [orderly_run], decided without a look at which writers live. *)
Fixpoint ordered (W : world) (es : list lock_event) : bool :=
  match es with
  | [] => true
  | e :: es' =>
      match e with
      | Run i => forallb (fun j => negb (match writers W !! j with Some w => reclaiming w | None => false end) || bool_decide (j = i))
                   (seq 0 (length (writers W)))
      | Tick ms => forallb (fun w => negb (unrecorded w)) (writers W)
      | Death _ => true
      end && match exec sample_lock_options W e with Some W' => ordered W' es' | None => true end
  end.

Lemma ordered_orderly es : forall W, ordered W es = true -> orderly_run sample_lock_options W es.
Proof.
  induction es as [|e es IH]; intros W Ho; [done|]. apply andb_true_iff in Ho as [Ho Hos]. split.
  - destruct e as [i|ms|pid]; [| |done]; cbn [orderly].
    + intros j w [Hj _] Hr. assert (j ∈ seq 0 (length (writers W))) as Hin by (apply elem_of_seq; apply lookup_lt_Some in Hj; lia).
      pose proof (proj1 (forallb_Forall _ _) Ho j Hin) as Hb. cbn beta in Hb. rewrite Hj, Hr in Hb. by apply bool_decide_eq_true in Hb.
    + intros j w dir [Hj _] Hu. assert (w ∈ writers W) as Hin by by eapply list_elem_of_lookup_2.
      pose proof (proj1 (forallb_Forall _ _) Ho w Hin) as Hb. cbn beta in Hb. rewrite Hu in Hb. discriminate Hb.
  - destruct (exec sample_lock_options W e) as [W'|]; [by apply IH|done].
Qed.


Lemma acquisition_ends_witness : exists n W' w', n <= 6 /\ exec_all sample_lock_options dead_owner (repeat (Run 0) n) = Some W' /\
  lives W' 0 w' /\ wr_phase w' = held.
Proof.
  apply (acquisition_ends sample_lock_options dead_owner 0 (new_writer sample_lock_options 1 "h" 100000)); [by split|done|done|by vm_compute|].
  intros dir Hd. vm_compute in Hd. injection Hd as <-. vm_compute. reflexivity.
Defined.

(** Without that order the lock does not exclude: a writer that has read the
    dead owner removes the lock another writer has taken in the meantime. *)
Example reclaim_race :
  exists W', exec_all sample_lock_options dead_owner [Run 0; Run 1; Run 0; Run 1; Run 0; Run 0; Run 0; Run 1; Run 1; Run 1] = Some W' /\
    map wr_phase (writers W') = [held; held].
Proof. eexists. split; [vm_compute; reflexivity|reflexivity]. Qed.

(** A writer that is stopped between the directory and its owner record loses
    the lock to the next one, and takes it over when it goes on. *)
Example stalled_owner_race :
  exists W', exec_all sample_lock_options {| lock := None; clock := 0; living := living dead_owner; writers := writers dead_owner |}
      [Run 0; Tick 30000; Run 1; Run 1; Run 1; Run 1; Run 1; Run 1; Run 0] = Some W' /\
    map wr_phase (writers W') = [held; held].
Proof. eexists. split; [vm_compute; reflexivity|reflexivity]. Qed.
