(* ===== verification/Checkpoint.v ===== *)
(** * Checkpoints and committed artifacts

    [packages/runtime/src/workflow/checkpoint.ts]: an artifact counts only when
    a committed manifest of its workflow operation names the digest of its
    bytes. A checkpoint is a record and the working state it names by digest,
    in two artifacts of one commit. The writer token that
    [buildCheckpointArtifacts] asks for is one the engine mints for itself and
    is not modelled; messages are dropped. *)

From stdpp Require Import gmap.
From S2P Require Import Prelude Regex Json Lease JsonText Blockers WorkingState Schema Transaction Store.

(** ** Errors *)

Inductive CheckpointErrorKind : Type := checkpoint_not_found | checkpoint_corrupt.

(** What a method of the engine or a reader under it throws. A [LedgerError] is
    given by its kind, with the errors of the file system. *)
Inductive WorkflowErrorKind : Type :=
| operation_not_found | operation_corrupt | operation_terminal | working_state_missing | no_checkpoint
| run_not_found | run_already_terminated | baseline_drift | approval_invalid | context_bundle_invalid | ledger_failure.
Inductive engine_error : Type :=
| LedgerError (e : ledger_error)
| CanonicalJsonError (e : canonical_error)
| CheckpointError (kind : CheckpointErrorKind)
| WorkingStateError (kind : WorkingStateErrorKind)
| InvalidStateTransition
| WorkflowError (kind : WorkflowErrorKind).
#[export] Instance CheckpointErrorKind_eq_dec : EqDecision CheckpointErrorKind.
Proof. solve_decision. Defined.
#[export] Instance WorkingStateErrorKind_eq_dec : EqDecision WorkingStateErrorKind.
Proof. solve_decision. Defined.
#[export] Instance WorkflowErrorKind_eq_dec : EqDecision WorkflowErrorKind.
Proof. solve_decision. Defined.
#[export] Instance engine_error_eq_dec : EqDecision engine_error.
Proof. solve_decision. Defined.

Abbreviation engining A := (result engine_error A).
Definition of_ledger {A} (m : ledgering A) : engining A := map_err LedgerError m.
Definition of_canonical {A} (m : result canonical_error A) : engining A := map_err CanonicalJsonError m.
(** [try { .. } catch { return undefined; }] *)
Definition attempt {A} (m : engining A) : option A := match m with Ok a => Some a | Err _ => None end.

(** ** Artifacts the ledger vouches for *)

Definition strings_of (v : jsval) : list string :=
  match v with JArr l => omap (fun v => match v with JStr s => Some s | _ => None end) l | _ => [] end.
Definition op_workflow (m : LedgerOperation) : string := str_of (jfield m "workflow_operation_id").
Definition op_artifact_digests (m : LedgerOperation) : list string := strings_of (jfield m "artifact_digests").

Section artifacts.
Context `{Hash} `{DateTime} `{Readdir}.

Definition artifactDigestAllowlist (operations : list CommittedOperation) (workflowOperationId : string) : list string :=
  flat_map (fun op => if bool_decide (op_workflow (manifest op) = workflowOperationId) then op_artifact_digests (manifest op) else [])
    operations.

Definition readVerifiedArtifact (d : disk) (relativePath : string) (allowedDigests : list string) : engining string :=
  absolute ← of_ledger (resolveHarnessPath relativePath);
  _ ← reject_if (negb (existsSync d absolute)) (CheckpointError checkpoint_not_found);
  bytes ← of_ledger (readFile d absolute);
  _ ← reject_if (negb (mem (sha256 bytes) allowedDigests)) (CheckpointError checkpoint_corrupt);
  Ok bytes.

Definition readVerifiedJsonArtifact (d : disk) (relativePath : string) (allowedDigests : list string) : engining jsval :=
  bytes ← readVerifiedArtifact d relativePath allowedDigests;
  match JSON_parse bytes with Some v => Ok v | None => Err (CheckpointError checkpoint_corrupt) end.

(** [readdirSync]: a path that is not a directory is an error. *)
Definition listDirectory (d : disk) (p : path) : ledgering (list string) :=
  match d !! p with Some Directory => Ok (readdir d p) | _ => Err io_error end.

(** The names that end in [.json], in order. *)
Definition json_names (d : disk) (p : path) : ledgering (list string) :=
  names ← listDirectory d p; Ok (sort_strings (List.filter (ends_with ".json") names)).

Definition listArtifactFiles (d : disk) (relativeDirectory : string) : engining (list string) :=
  directory ← of_ledger (resolveHarnessPath relativeDirectory);
  if negb (existsSync d directory) then Ok []
  else
    names ← of_ledger (json_names d directory);
    Ok (map (fun name => str_replace_all "\" "/" (relativeDirectory +:+ "/" +:+ name)) names).

(** ** Checkpoint records *)

Definition checkpointArtifactPath (checkpointId : string) : string := "artifacts/checkpoints/" +:+ checkpointId +:+ ".json".
Definition workingStateArtifactPath (checkpointId : string) : string := "artifacts/working-state/" +:+ checkpointId +:+ ".json".

Record CheckpointSpec : Type := {
  cs_checkpoint_id : string;
  cs_workflow_operation_id : string;
  cs_attempt_id : string;
  cs_phase : string;
  cs_timestamp : string;
  cs_working_state : WorkingState }.

Definition checkpoint_record (spec : CheckpointSpec) (state_digest : string) : jsval :=
  JObj [("protocol_version", JStr PROTOCOL_VERSION); ("record_kind", JStr "checkpoint");
        ("checkpoint_id", JStr (cs_checkpoint_id spec)); ("workflow_operation_id", JStr (cs_workflow_operation_id spec));
        ("attempt_id", JStr (cs_attempt_id spec)); ("phase", JStr (cs_phase spec)); ("state_digest", JStr state_digest);
        ("timestamp", JStr (cs_timestamp spec))].

(** [`${canonicalizeJson(value)}\n`] *)
Definition document (value : jsval) : engining string :=
  text ← of_canonical (canonicalizeJson value); Ok (text +:+ line_feed).

Definition buildCheckpointArtifacts (spec : CheckpointSpec) : engining (jsval * list TransactionArtifact) :=
  _ ← map_err WorkingStateError (assertWorkingState (state_json (cs_working_state spec)));
  digest ← of_canonical (workingStateDigest (cs_working_state spec));
  let record := checkpoint_record spec digest in
  _ ← reject_if (negb (validateSchema runtime record)) (CheckpointError checkpoint_corrupt);
  record_text ← document record;
  state_text ← document (state_json (cs_working_state spec));
  Ok (record, [Artifact (checkpointArtifactPath (cs_checkpoint_id spec)) record_text;
               Artifact (workingStateArtifactPath (cs_checkpoint_id spec)) state_text]).

(** ** Reading them back *)

(** A working state from JSON that passed [assertWorkingState]. A field the
    record does not have is not kept. *)
Definition field_text (v : jsval) (key : string) : string := str_of (plainRecordField v key).
Definition field_int (v : jsval) (key : string) : Z := int_of (plainRecordField v key).
Definition field_opt (v : jsval) (key : string) : option string := opt_str (plainRecordField v key).
Definition field_list (v : jsval) (key : string) : list jsval := match plainRecordField v key with JArr l => l | _ => [] end.
Definition field_strings (v : jsval) (key : string) : list string := strings_of (plainRecordField v key).

Definition read_status (s : string) : ExternalActionStatus :=
  if decide (s = "pending") then pending else if decide (s = "completed") then completed else uncertain.
Definition read_intent (v : jsval) : ExternalActionIntent :=
  Intent (field_text v "intent_id") (field_text v "tool") (field_text v "request_digest") (field_text v "idempotency_key")
    (read_status (field_text v "status")).
Definition read_use (v : jsval) : BudgetUse :=
  Use (field_int v "used_steps") (field_int v "used_tokens") (field_int v "ceiling_steps") (field_int v "ceiling_tokens").
Definition read_digest_map (v : jsval) : option (list (string * string)) :=
  match v with JObj fields => Some (map (fun e => (e.1, str_of e.2)) fields) | _ => None end.

Definition read_state (v : jsval) : WorkingState :=
  State (field_text v "goal") (field_text v "baseline_commit") (field_text v "requirement_baseline_digest")
    (field_text v "policy_digest") (field_text v "phase") (field_opt v "task_id") (field_opt v "previous_checkpoint_id")
    (map (fun f => Fact (field_text f "fact") (field_text f "evidence_id")) (field_list v "confirmed_facts"))
    (map (fun h => Hypo (field_text h "hypothesis") (field_text h "evidence_id")) (field_list v "rejected_hypotheses"))
    (field_strings v "open_questions") (field_strings v "blockers") (field_opt v "next_action")
    (field_strings v "completed_task_ids") (field_strings v "pending_task_ids") (read_use (plainRecordField v "budget"))
    (field_strings v "capability_grants") (field_strings v "approval_digests") (field_opt v "context_bundle_digest")
    (read_digest_map (plainRecordField v "context_bundle_digests")) (field_strings v "input_digests")
    (map read_intent (field_list v "external_action_intents")).

(** A checkpoint record that is vouched for, of the operation and well formed. *)
Definition parseCheckpointRecord (d : disk) (relativePath : string) (allowedDigests : list string) (workflowOperationId : string) :
  option jsval :=
  candidate ← attempt (readVerifiedJsonArtifact d relativePath allowedDigests);
  if TLiteral "checkpoint" (plainRecordField candidate "record_kind") &&
     TLiteral workflowOperationId (plainRecordField candidate "workflow_operation_id") && validateSchema runtime candidate
  then Some candidate else None.

Record CommittedCheckpoint : Type := { cc_record : jsval; cc_workingState : WorkingState }.
Definition checkpoint_id (record : jsval) : string := field_text record "checkpoint_id".

(** The digest is computed outside the [try], so a document without a canonical
    form throws. *)
Definition loadWorkingState (d : disk) (record : jsval) (allowedDigests : list string) : engining (option WorkingState) :=
  match attempt (readVerifiedJsonArtifact d (workingStateArtifactPath (checkpoint_id record)) allowedDigests) with
  | None => Ok None
  | Some parsed =>
      digest ← of_canonical (contentDigest parsed);
      if negb (bool_decide (digest = field_text record "state_digest")) || negb (isWorkingState parsed) then Ok None
      else Ok (Some (read_state parsed))
  end.

(** Newest first. *)
Definition by_timestamp_descending (left right : jsval) : Z :=
  if bool_decide (field_text left "timestamp" = field_text right "timestamp")
  then if str_lt (checkpoint_id left) (checkpoint_id right) then 1 else -1
  else if str_lt (field_text left "timestamp") (field_text right "timestamp") then 1 else -1.

Fixpoint first_loaded (d : disk) (allowedDigests : list string) (candidates : list jsval) : engining (option CommittedCheckpoint) :=
  match candidates with
  | [] => Ok None
  | record :: candidates' =>
      state ← loadWorkingState d record allowedDigests;
      match state with
      | Some s => Ok (Some {| cc_record := record; cc_workingState := s |})
      | None => first_loaded d allowedDigests candidates'
      end
  end.

Definition latestValidCheckpoint (d : disk) (operations : list CommittedOperation) (workflowOperationId : string) :
  engining (option CommittedCheckpoint) :=
  let allowedDigests := artifactDigestAllowlist operations workflowOperationId in
  let directory := ["artifacts"; "checkpoints"] in
  if negb (existsSync d directory) then Ok None
  else
    names ← of_ledger (listDirectory d directory);
    first_loaded d allowedDigests (js_sort by_timestamp_descending
      (omap (fun name => parseCheckpointRecord d ("artifacts/checkpoints/" +:+ name) allowedDigests workflowOperationId)
        (List.filter (ends_with ".json") names))).

Definition loadCheckpointById (d : disk) (operations : list CommittedOperation) (workflowOperationId checkpointId : string) :
  engining (option CommittedCheckpoint) :=
  let allowedDigests := artifactDigestAllowlist operations workflowOperationId in
  match parseCheckpointRecord d (checkpointArtifactPath checkpointId) allowedDigests workflowOperationId with
  | None => Ok None
  | Some record =>
      state ← loadWorkingState d record allowedDigests;
      Ok (option_map (Build_CommittedCheckpoint record) state)
  end.

(** From the latest checkpoint back along [previous_checkpoint_id], stopping at
    one already seen; oldest first. The fuel is one more than the number of
    entries of the disk, which is enough ([checkpoint_chain_ends]): every
    checkpoint seen has a file of its own. *)
Fixpoint collect_checkpoints (fuel : nat) (d : disk) (operations : list CommittedOperation) (workflowOperationId : string)
    (seen : list string) (latest : option CommittedCheckpoint) : engining (list CommittedCheckpoint) :=
  match fuel, latest with
  | S fuel', Some c =>
      if mem (checkpoint_id (cc_record c)) seen then Ok []
      else
        match previous_checkpoint_id (cc_workingState c) with
        | None => Ok [c]
        | Some previousId =>
            previous ← loadCheckpointById d operations workflowOperationId previousId;
            older ← collect_checkpoints fuel' d operations workflowOperationId (checkpoint_id (cc_record c) :: seen) previous;
            Ok (older ++ [c])
        end
  | _, _ => Ok []
  end.
Definition listValidCheckpoints (d : disk) (operations : list CommittedOperation) (workflowOperationId : string) :
  engining (list CommittedCheckpoint) :=
  latest ← latestValidCheckpoint d operations workflowOperationId;
  collect_checkpoints (S (size d)) d operations workflowOperationId [] latest.
End artifacts.

(** ** The chain of checkpoints ends *)

Section chain.
Context `{Hash} `{DateTime} `{Readdir}.

(** The ids of the JSON files of a disk. *)
Definition file_ids (d : disk) : list string :=
  omap (fun e => match e.2 with File c => checkpoint_id <$> JSON_parse c | Directory => None end) (map_to_list d).

Lemma file_ids_length d : length (file_ids d) <= size d.
Proof. unfold file_ids. rewrite <- length_map_to_list. induction (map_to_list d) as [|e l IH]; cbn; [done|]. case_match; cbn; lia. Qed.

Lemma parsed_file d relativePath allowed w record : parseCheckpointRecord d relativePath allowed w = Some record ->
  checkpoint_id record ∈ file_ids d.
Proof.
  unfold parseCheckpointRecord, readVerifiedJsonArtifact, readVerifiedArtifact. intros Hp.
  destruct (of_ledger (resolveHarnessPath relativePath)) as [p|]; [|done]. cbn in Hp.
  destruct (existsSync d p); [|done]. cbn in Hp. unfold readFile in Hp. destruct (d !! p) as [[c|]|] eqn:Hc; [|done..]. cbn in Hp.
  destruct (mem (sha256 c) allowed); [|done]. cbn in Hp. destruct (JSON_parse c) as [v|] eqn:Hv; [|done]. cbn in Hp.
  case_match; [|done]. injection Hp as <-. apply list_elem_of_omap. exists (p, File c). cbn. rewrite Hv.
  split; [by apply elem_of_map_to_list|done].
Qed.

Lemma first_loaded_in d allowed candidates c : first_loaded d allowed candidates = Ok (Some c) -> cc_record c ∈ candidates.
Proof.
  induction candidates as [|r rs IH]; cbn; [done|]. intros Hf. apply bind_Ok in Hf as ([s|] & _ & Hf).
  - injection Hf as <-. by constructor.
  - right. by apply IH.
Qed.

Lemma latest_file d operations w c : latestValidCheckpoint d operations w = Ok (Some c) -> checkpoint_id (cc_record c) ∈ file_ids d.
Proof.
  unfold latestValidCheckpoint. case_match; [done|]. intros Hl. apply bind_Ok in Hl as (names & _ & Hl). apply first_loaded_in in Hl.
  rewrite js_sort_Permutation in Hl. apply list_elem_of_omap in Hl as (name & _ & Hp). by eapply parsed_file.
Qed.

Lemma by_id_file d operations w previousId c : loadCheckpointById d operations w previousId = Ok (Some c) ->
  checkpoint_id (cc_record c) ∈ file_ids d.
Proof.
  unfold loadCheckpointById. destruct (parseCheckpointRecord _ _ _ _) as [r|] eqn:Hp; [|done]. intros Hl.
  apply bind_Ok in Hl as ([s|] & _ & Hl); [|done]. injection Hl as <-. by eapply parsed_file.
Qed.

Lemma collect_enough d operations w fuel fuel' seen latest : NoDup seen -> seen ⊆ file_ids d ->
  (forall c, latest = Some c -> checkpoint_id (cc_record c) ∈ file_ids d) ->
  size d < fuel + length seen -> fuel <= fuel' ->
  collect_checkpoints fuel d operations w seen latest = collect_checkpoints fuel' d operations w seen latest.
Proof.
  revert fuel' seen latest. induction fuel as [|fuel IH]; intros fuel' seen latest Hn Hs Hl Hf Hle.
  { exfalso. pose proof (file_ids_length d). pose proof (submseteq_length _ _ (NoDup_submseteq _ _ Hn Hs)). lia. }
  destruct fuel' as [|fuel']; [lia|]. destruct latest as [c|]; [|done]. cbn.
  destruct (mem (checkpoint_id (cc_record c)) seen) eqn:Hm; [done|]. destruct (previous_checkpoint_id (cc_workingState c)) as [p|]; [|done].
  destruct (loadCheckpointById d operations w p) as [previous|e] eqn:Hp; [|done]. cbn. f_equal. apply IH; [| | |cbn; lia|lia].
  - constructor; [|done]. intros Hin. by apply mem_spec in Hin; rewrite Hin in Hm.
  - intros x [->|Hx]%elem_of_cons; [by apply Hl|by apply Hs].
  - intros c' ->. by eapply by_id_file.
Qed.

(** More fuel changes nothing: the walk from the latest checkpoint has ended. *)
Theorem checkpoint_chain_ends d operations w latest fuel : latestValidCheckpoint d operations w = Ok latest -> S (size d) <= fuel ->
  listValidCheckpoints d operations w = collect_checkpoints fuel d operations w [] latest.
Proof.
  intros Hl Hf. unfold listValidCheckpoints. rewrite Hl. cbn [mbind result_bind]. apply collect_enough; [constructor|set_solver| |cbn; lia|done].
  intros c ->. by eapply latest_file.
Qed.
End chain.
