(* ===== verification/Workflow.v ===== *)
(** * The workflow engine over the ledger

    [packages/runtime/src/workflow/operation.ts]: the methods of
    [WorkflowEngine] that read an operation and its runs from the ledger and
    commit their change to it in one transaction. The transitions they allow
    are those of [StateMachine]; the effects of a commit are those of
    [Repository]. *)

From stdpp Require Import gmap.
From S2P Require Import Prelude Regex Json StateMachine Lease JsonText Blockers WorkingState Schema Transaction Store Repository Checkpoint.

(** ** Methods of the engine

    A method runs on the disk, and returns or throws an error of the engine;
    the process may be killed in its commit. *)

Definition engM (A : Type) : Type := fsM (engining A).
#[export] Instance engM_ret : MRet engM := fun A a d b => (Done (Ok a), d, b).
#[export] Instance engM_bind : MBind engM := fun A B f m d b =>
  match m d b with
  | (Done (Ok a), d', b') => f a d' b'
  | (Done (Err e), d', b') => (Done (Err e), d', b')
  | (Threw e, d', b') => (Threw e, d', b')
  | (Killed, d', b') => (Killed, d', b')
  end.
Definition settle {A} (m : engining A) : engM A := fun d b => (Done m, d, b).
Definition looks {A} (f : disk -> engining A) : engM A := fun d b => (Done (f d), d, b).

Inductive WorkflowIdKind : Type := workflow_id | attempt_id | checkpoint_id_kind | run_id_kind | event_id_kind | ledger_id | edge_id.

(** The ids and the times one call of a method draws: the [n]-th id of a kind,
    the time of its records, and the baseline it expects. *)
Record WorkflowDependencies : Type := {
  newId : WorkflowIdKind -> nat -> string;
  now : string;
  expectedBaseline : string;
  ledgerRepository : LedgerRepositoryOptions }.

(** ** Records *)

Definition operation_state_text (s : OperationState) : string :=
  match s with
  | OpCreated => "created" | OpAwaitingInput => "awaiting_input" | OpAwaitingApproval => "awaiting_approval"
  | OpPlanned => "planned" | OpRunning => "running" | OpVerifying => "verifying" | OpRepairing => "repairing"
  | OpBlocked => "blocked" | OpCompleted => "completed" | OpAborted => "aborted"
  end.
Definition ALL_OPERATION_STATES : list OperationState := RESUMABLE_OPERATION_STATES ++ [OpBlocked; OpCompleted; OpAborted].
Definition read_operation_state (s : string) : option OperationState :=
  find_first (fun state => bool_decide (operation_state_text state = s)) ALL_OPERATION_STATES.

(** The state of a record the schema admits. *)
Definition state_of (record : jsval) : OperationState := default OpCreated (read_operation_state (field_text record "state")).
(** [StateMachine]'s view of a record. *)
Definition operation_of (record : jsval) : WorkflowOperation :=
  {| wo_state := state_of record;
     wo_resume_state := s ← field_opt record "resume_state"; read_operation_state s |}.

Definition block_reason_text (r : RecoverableBlockReason) : string :=
  match r with
  | missing_input => "missing_input" | awaiting_approval => "awaiting_approval" | stale_evidence => "stale_evidence"
  | uncertain_external_action => "uncertain_external_action" | repairable_gate_failure => "repairable_gate_failure"
  | StateMachine.budget_ceiling => "budget_ceiling" | transient_environment_failure => "transient_environment_failure"
  | git_drift => "git_drift"
  end.
Definition abort_reason_text (r : AbortReason) : string :=
  match r with
  | user_cancellation => "user_cancellation" | policy_violation => "policy_violation"
  | schema_validation_failure => "schema_validation_failure"
  end.

(** [String(sequence).padStart(4, "0")] *)
Definition padStart_4 (sequence : Z) : string :=
  let s := dec sequence in Nat.iter (4 - String.length s) (String "0") s.

Definition operations_directory (workflowOperationId : string) : string := "artifacts/workflow-operations/" +:+ workflowOperationId.
Definition operation_record_name (sequence : Z) (state : OperationState) : string :=
  padStart_4 sequence +:+ "-" +:+ operation_state_text state +:+ ".json".
Definition operationRecordArtifactPath (workflowOperationId : string) (sequence : Z) (state : OperationState) : string :=
  operations_directory workflowOperationId +:+ "/" +:+ operation_record_name sequence state.
Definition runRecordArtifactPath (runId : string) (sequence : Z) (recordKind : string) : string :=
  "artifacts/runs/" +:+ runId +:+ "/" +:+ padStart_4 sequence +:+ "-" +:+ recordKind +:+ ".json".

Definition WORKFLOW_EXTENSION_KEY : string := "harness.workflow".
Definition projectIdOf (record : jsval) : engining string :=
  match plainRecordField (plainRecordField (plainRecordField record "extensions") WORKFLOW_EXTENSION_KEY) "project_id" with
  | JStr projectId => Ok projectId
  | _ => Err (WorkflowError operation_corrupt)
  end.

Definition when_text (key : string) (v : option string) : list (string * jsval) :=
  match v with Some s => [(key, JStr s)] | None => [] end.

Record OperationRecordSpec : Type := {
  or_workflowOperationId : string;
  or_attemptId : string;
  or_iterationId : string;
  or_projectId : string;
  or_state : OperationState;
  or_resumeState : option OperationState;
  or_updatedAt : string;
  or_detail : option string }.

(** [spec.resumeState] counts only for a blocked operation, as in
    [StateMachine.buildOperationRecord]. *)
Definition operation_record (spec : OperationRecordSpec) : jsval :=
  JObj ([("protocol_version", JStr PROTOCOL_VERSION); ("record_kind", JStr "workflow_operation");
         ("workflow_operation_id", JStr (or_workflowOperationId spec)); ("attempt_id", JStr (or_attemptId spec));
         ("iteration_id", JStr (or_iterationId spec)); ("state", JStr (operation_state_text (or_state spec)))] ++
        when_text "resume_state" (if decide (or_state spec = OpBlocked) then operation_state_text <$> or_resumeState spec else None) ++
        [("updated_at", JStr (or_updatedAt spec));
         ("extensions", JObj [(WORKFLOW_EXTENSION_KEY,
            JObj ([("project_id", JStr (or_projectId spec))] ++ when_text "detail" (or_detail spec)))])]).

Record EventSpec : Type := {
  ev_eventId : string;
  ev_eventType : string;
  ev_projectId : string;
  ev_iterationId : string;
  ev_workflowOperationId : string;
  ev_ledgerOperationId : string;
  ev_sequence : Z;
  ev_timestamp : string;
  ev_payload : list (string * jsval);
  ev_protocolVersion : option string }.

Definition event_record (spec : EventSpec) : jsval :=
  JObj [("protocol_version", JStr (default PROTOCOL_VERSION (ev_protocolVersion spec))); ("record_kind", JStr "event");
        ("event_id", JStr (ev_eventId spec)); ("event_type", JStr (ev_eventType spec)); ("project_id", JStr (ev_projectId spec));
        ("iteration_id", JStr (ev_iterationId spec)); ("workflow_operation_id", JStr (ev_workflowOperationId spec));
        ("ledger_operation_id", JStr (ev_ledgerOperationId spec)); ("sequence", jint (ev_sequence spec));
        ("timestamp", JStr (ev_timestamp spec)); ("payload", JObj (ev_payload spec))].

Definition find_record {A} (e : engine_error) (o : option A) : engining A := match o with Some a => Ok a | None => Err e end.

Section records.
Context `{Hash} `{DateTime} `{Readdir}.

Definition validated (key : SchemaKey) (record : jsval) : engining jsval :=
  if validateSchema key record then Ok record else Err (WorkflowError operation_corrupt).

Definition buildOperationRecord (spec : OperationRecordSpec) : engining jsval := validated workflow_operation (operation_record spec).
Definition buildEvent (spec : EventSpec) : engining jsval := validated event (event_record spec).
Definition buildRunRecord (fields : list (string * jsval)) : engining jsval :=
  validated runtime (JObj (("protocol_version", JStr PROTOCOL_VERSION) :: fields)).

Record RunStartedSpec : Type := {
  rs_runId : string;
  rs_taskId : string;
  rs_workflowOperationId : string;
  rs_attemptId : string;
  rs_sequence : Z;
  rs_timestamp : string;
  rs_contextBundleId : string;
  rs_contextBundleDigest : option string;
  rs_grantRecordDigest : option string;
  rs_authorizationDigest : option string;
  rs_adapterProfileDigest : option string }.

Definition buildRunStartedRecord (spec : RunStartedSpec) : engining jsval :=
  buildRunRecord
    ([("record_kind", JStr "run_started"); ("run_id", JStr (rs_runId spec)); ("task_id", JStr (rs_taskId spec));
      ("workflow_operation_id", JStr (rs_workflowOperationId spec)); ("attempt_id", JStr (rs_attemptId spec));
      ("sequence", jint (rs_sequence spec)); ("timestamp", JStr (rs_timestamp spec));
      ("context_bundle_id", JStr (rs_contextBundleId spec))] ++
     match rs_contextBundleDigest spec, rs_grantRecordDigest spec, rs_authorizationDigest spec with
     | Some context, Some grant, Some authorization =>
         [("extensions", JObj [("harness.execution", JObj
            ([("context_bundle_digest", JStr context); ("grant_record_digest", JStr grant);
              ("authorization_digest", JStr authorization)] ++ when_text "adapter_profile_digest" (rs_adapterProfileDigest spec)))])]
     | _, _, _ => []
     end).

Definition buildRunInterruptedRecord (runId taskId workflowOperationId attemptId : string) (sequence : Z) (timestamp outcome : string)
    (partialEvidenceIds : list string) : engining jsval :=
  buildRunRecord
    [("record_kind", JStr "run_interrupted"); ("run_id", JStr runId); ("task_id", JStr taskId);
     ("workflow_operation_id", JStr workflowOperationId); ("attempt_id", JStr attemptId); ("sequence", jint sequence);
     ("timestamp", JStr timestamp); ("outcome", JStr outcome); ("termination_reason", JStr "process_interruption");
     ("partial_evidence_ids", strings partialEvidenceIds)].
End records.

(** ** Reading *)

Record RunStream : Type := { st_runId : string; st_records : list jsval }.

Definition streamTerminalRecord (stream : RunStream) : option jsval :=
  record ← last (st_records stream);
  if TLiteral "run_terminated" (plainRecordField record "record_kind") || TLiteral "run_interrupted" (plainRecordField record "record_kind")
  then Some record else None.

Section reading.
Context `{Hash} `{DateTime} `{Readdir}.
Variable deps : WorkflowDependencies.

Definition ledger_operations (d : disk) : engining (list CommittedOperation) := of_ledger (operations (ledgerRepository deps) d).

(** The records of a directory that are vouched for; one that cannot be read is
    an error, unlike one that is not vouched for. *)
Definition read_vouched (key : SchemaKey) (d : disk) (allowed : list string) (directory name : string) : engining (option jsval) :=
  p ← of_ledger (resolveHarnessPath (directory +:+ "/" +:+ name));
  bytes ← of_ledger (readFile d p);
  if negb (mem (sha256 bytes) allowed) then Ok None
  else
    parsed ← find_record (WorkflowError operation_corrupt) (JSON_parse bytes);
    record ← validated key parsed;
    Ok (Some record).
Definition read_records (key : SchemaKey) (d : disk) (allowed : list string) (directory : string) (names : list string) :
  engining (list jsval) :=
  records ← mapM (read_vouched key d allowed directory) names; Ok (omap id records).

Definition readOperationHistory (workflowOperationId : string) (d : disk) : engining (list jsval) :=
  ops ← ledger_operations d;
  directory ← of_ledger (resolveHarnessPath (operations_directory workflowOperationId));
  if negb (existsSync d directory) then Ok []
  else
    names ← of_ledger (json_names d directory);
    read_records workflow_operation d (artifactDigestAllowlist ops workflowOperationId) (operations_directory workflowOperationId) names.

Definition readCurrentOperation (workflowOperationId : string) (d : disk) : engining (option jsval) :=
  history ← readOperationHistory workflowOperationId d; Ok (last history).

Definition readRunStreams (workflowOperationId : string) (d : disk) : engining (list RunStream) :=
  ops ← ledger_operations d;
  let runsRoot := ["artifacts"; "runs"] in
  if negb (existsSync d runsRoot) then Ok []
  else
    runIds ← of_ledger (listDirectory d runsRoot);
    streams ← mapM (fun runId =>
      names ← of_ledger (json_names d (runsRoot ++ [runId]));
      records ← read_records runtime d (artifactDigestAllowlist ops workflowOperationId) ("artifacts/runs/" +:+ runId) names;
      let own := List.filter (fun record => TLiteral runId (plainRecordField record "run_id") &&
                   TLiteral workflowOperationId (plainRecordField record "workflow_operation_id")) records in
      Ok (if decide (own = []) then None else Some {| st_runId := runId; st_records := own |})) (sort_strings runIds);
    Ok (omap id streams).

Definition nextEventSequence (workflowOperationId : string) (d : disk) : engining Z :=
  replayed ← of_ledger (replay (ledgerRepository deps) d);
  Ok (foldl Z.max 0 (map event_sequence (List.filter (fun e => TLiteral workflowOperationId (plainRecordField e "workflow_operation_id"))
        (rp_events replayed))) + 1)%Z.

Definition getWorkingState (workflowOperationId : string) (d : disk) : engining (option WorkingState) :=
  ops ← ledger_operations d;
  latest ← latestValidCheckpoint d ops workflowOperationId;
  Ok (option_map cc_workingState latest).

Definition requireOperation (workflowOperationId : string) (d : disk) : engining jsval :=
  current ← readCurrentOperation workflowOperationId d; find_record (WorkflowError operation_not_found) current.

Definition requireWorkingState (workflowOperationId : string) (d : disk) : engining CommittedCheckpoint :=
  ops ← ledger_operations d;
  latest ← latestValidCheckpoint d ops workflowOperationId;
  find_record (WorkflowError working_state_missing) latest.
End reading.

(** ** Committing *)

(** What [commit] throws: every kind but the two that are not a [LedgerError]. *)
Definition commit_failure (e : ledger_error) : engine_error :=
  match e with
  | canonical_json_error c => CanonicalJsonError c
  | io_error => LedgerError io_error
  | _ => WorkflowError ledger_failure
  end.

Record StartOperationInput : Type := {
  so_projectId : string;
  so_iterationId : string;
  so_goal : string;
  so_baselineCommit : string;
  so_requirementBaselineDigest : string;
  so_policyDigest : string;
  so_phase : string;
  so_pendingTaskIds : list string;
  so_inputDigests : list string;
  so_capabilityGrants : list string;
  so_budgetCeiling : Z * Z }.

Record BlockOperationInput : Type := {
  bo_reason : RecoverableBlockReason;
  bo_detail : string;
  bo_proposal : WorkingStateProposal;
  bo_artifacts : list TransactionArtifact }.

Record AbortOperationInput : Type := { ao_reason : AbortReason; ao_detail : string }.

Inductive CheckpointBoundary : Type := authoritative_commit | approval | task | gate | external_action | snapshot.
Definition boundary_text (b : CheckpointBoundary) : string :=
  match b with
  | authoritative_commit => "authoritative_commit" | approval => "approval" | task => "task" | gate => "gate"
  | external_action => "external_action" | snapshot => "snapshot"
  end.

Record ExtraEvent : Type := { xe_eventType : string; xe_payload : list (string * jsval); xe_protocolVersion : option string }.
Record CommitCheckpointInput : Type := {
  ci_boundary : CheckpointBoundary;
  ci_proposal : WorkingStateProposal;
  ci_artifacts : list TransactionArtifact;
  ci_events : list ExtraEvent;
  ci_requiredReaderVersion : option string }.

Definition initial_state (input : StartOperationInput) : WorkingState :=
  State (so_goal input) (so_baselineCommit input) (so_requirementBaselineDigest input) (so_policyDigest input) (so_phase input)
    None None [] [] [] [] None [] (uniqueStrings (so_pendingTaskIds input))
    (Use 0 0 (so_budgetCeiling input).1 (so_budgetCeiling input).2) (uniqueStrings (so_capabilityGrants input)) [] None None
    (uniqueStrings (so_inputDigests input)) [].

(** [{ ...state, previous_checkpoint_id }] *)
Definition after_checkpoint (checkpointId : string) (s : WorkingState) : WorkingState :=
  State (goal s) (WorkingState.baseline_commit s) (requirement_baseline_digest s) (ws_policy_digest s) (ws_phase s) (ws_task_id s)
    (Some checkpointId) (confirmed_facts s) (rejected_hypotheses s) (open_questions s) (blockers s) (next_action s)
    (completed_task_ids s) (pending_task_ids s) (ws_budget s) (capability_grants s) (WorkingState.approval_digests s)
    (context_bundle_digest s) (context_bundle_digests s) (input_digests s) (external_action_intents s).

(** [{ ...proposal, add_blockers: [...(proposal?.add_blockers ?? []), detail] }] *)
Definition also_blocked (detail : string) (p : WorkingStateProposal) : WorkingStateProposal :=
  Proposal (p_phase p) (p_task_id p) (p_add_confirmed_facts p) (p_add_rejected_hypotheses p) (p_add_open_questions p)
    (Some (or_none (p_add_blockers p) ++ [detail])) (p_clear_blockers p) (p_reconcile_blockers p) (p_set_next_action p)
    (p_set_requirement_baseline_digest p) (p_complete_task_ids p) (p_add_pending_task_ids p) (p_budget_use p)
    (p_add_capability_grants p) (p_add_approval_digests p) (p_set_context_bundle_digest p) (p_set_context_bundle_digests p)
    (p_add_input_digests p) (p_upsert_external_action_intents p) (p_other_keys p).

Definition of_transition {A} (m : result transition_error A) : engining A := map_err (fun _ => InvalidStateTransition) m.

Section engine.
Context `{Hash} `{DateTime} `{Readdir} `{Crash}.
Variable deps : WorkflowDependencies.

Definition transaction (workflowOperationId attemptId : string) (artifacts : list TransactionArtifact) (events : list jsval)
    (requiredReaderVersion : option string) : TransactionInput :=
  {| ti_ledger_operation_id := newId deps ledger_id 0; ti_workflow_operation_id := workflowOperationId;
     ti_attempt_id := attemptId; ti_expected_baseline := expectedBaseline deps; ti_artifacts := artifacts; ti_edges := [];
     ti_events := events; ti_required_reader_version := requiredReaderVersion |}.

Definition commitWorkflowTransaction (input : TransactionInput) : engM CommitResult := fun d b =>
  match commit (ledgerRepository deps) input d b with
  | (Done r, d', b') => (Done (Ok r), d', b')
  | (Threw e, d', b') => (Done (Err (commit_failure e)), d', b')
  | (Killed, d', b') => (Killed, d', b')
  end.

Definition operationArtifact (record : jsval) (workflowOperationId : string) (sequence : Z) (state : OperationState) :
  engining TransactionArtifact :=
  content ← document record; Ok (Artifact (operationRecordArtifactPath workflowOperationId sequence state) content).

(** The record of the operation after a change of state. *)
Definition next_record (current : jsval) (workflowOperationId : string) (state : OperationState) (resumeState : option OperationState)
    (detail : option string) : engining jsval :=
  projectId ← projectIdOf current;
  buildOperationRecord {| or_workflowOperationId := workflowOperationId; or_attemptId := field_text current "attempt_id";
    or_iterationId := field_text current "iteration_id"; or_projectId := projectId; or_state := state;
    or_resumeState := resumeState; or_updatedAt := now deps; or_detail := detail |}.

(** The [n]-th event of the transaction. *)
Definition next_event (current : jsval) (workflowOperationId : string) (n : nat) (sequence : Z) (eventType : string)
    (payload : list (string * jsval)) (protocolVersion : option string) : engining jsval :=
  projectId ← projectIdOf current;
  buildEvent {| ev_eventId := newId deps event_id_kind n; ev_eventType := eventType; ev_projectId := projectId;
    ev_iterationId := field_text current "iteration_id"; ev_workflowOperationId := workflowOperationId;
    ev_ledgerOperationId := newId deps ledger_id 0; ev_sequence := sequence; ev_timestamp := now deps; ev_payload := payload;
    ev_protocolVersion := protocolVersion |}.

Definition checkpoint_of (workflowOperationId attemptId phase : string) (state : WorkingState) : engining (jsval * list TransactionArtifact) :=
  buildCheckpointArtifacts {| cs_checkpoint_id := newId deps checkpoint_id_kind 0; cs_workflow_operation_id := workflowOperationId;
    cs_attempt_id := attemptId; cs_phase := phase; cs_timestamp := now deps; cs_working_state := state |}.

(** The state after a proposal, chained to the checkpoint it builds on. *)
Definition proposed_state (base : CommittedCheckpoint) (proposal : WorkingStateProposal) : engining WorkingState :=
  state ← map_err WorkingStateError (applyWorkingStateProposal (cc_workingState base) proposal);
  Ok (after_checkpoint (checkpoint_id (cc_record base)) state).

(** A method reads and prepares its transaction, then commits it; it returns
    what it prepared. *)
Definition committing {A} (prepare : disk -> engining (A * TransactionInput)) : engM A :=
  prepared ← looks prepare;
  _ ← commitWorkflowTransaction prepared.2;
  mret prepared.1.

Definition prepare_start (input : StartOperationInput) : disk -> engining (jsval * TransactionInput) := fun _ =>
  let workflowOperationId := newId deps workflow_id 0 in
  let attemptId := newId deps attempt_id 0 in
  let event_spec n eventType payload :=
    {| ev_eventId := newId deps event_id_kind n; ev_eventType := eventType; ev_projectId := so_projectId input;
       ev_iterationId := so_iterationId input; ev_workflowOperationId := workflowOperationId;
       ev_ledgerOperationId := newId deps ledger_id 0; ev_sequence := Z.of_nat (S n); ev_timestamp := now deps;
       ev_payload := payload; ev_protocolVersion := None |} in
  operation ← buildOperationRecord {| or_workflowOperationId := workflowOperationId; or_attemptId := attemptId;
    or_iterationId := so_iterationId input; or_projectId := so_projectId input; or_state := OpCreated; or_resumeState := None;
    or_updatedAt := now deps; or_detail := None |};
  checkpoint ← checkpoint_of workflowOperationId attemptId (so_phase input) (initial_state input);
  started ← buildEvent (event_spec 0 "OperationStarted" [("goal", JStr (so_goal input)); ("phase", JStr (so_phase input))]);
  committed ← buildEvent (event_spec 1 "CheckpointCommitted"
    [("boundary", JStr "snapshot"); ("trigger", JStr "operation_start"); ("checkpoint_id", JStr (newId deps checkpoint_id_kind 0))]);
  artifact ← operationArtifact operation workflowOperationId 1 OpCreated;
  Ok (operation, transaction workflowOperationId attemptId (artifact :: checkpoint.2) [started; committed] None).

(** The operation record, without the ids the caller finds in the dependencies. *)
Definition startOperation (input : StartOperationInput) : engM jsval := committing (prepare_start input).

Definition prepare_advance (workflowOperationId : string) (to : OperationState) : disk -> engining (jsval * TransactionInput) := fun d =>
  current ← requireOperation deps workflowOperationId d;
  _ ← reject_if (bool_decide (to = OpBlocked) || bool_decide (to = OpAborted)) InvalidStateTransition;
  _ ← of_transition (assertOperationTransition (state_of current) to);
  history ← readOperationHistory deps workflowOperationId d;
  operation ← next_record current workflowOperationId to None None;
  events ← (if decide (to = OpCompleted)
            then
              sequence ← nextEventSequence deps workflowOperationId d;
              completed ← next_event current workflowOperationId 0 sequence "OperationCompleted" [("outcome", JStr "completed")] None;
              Ok [completed]
            else Ok []);
  artifact ← operationArtifact operation workflowOperationId (Z.of_nat (S (length history))) to;
  Ok (operation, transaction workflowOperationId (field_text current "attempt_id") [artifact] events None).

Definition advance (workflowOperationId : string) (to : OperationState) : engM jsval := committing (prepare_advance workflowOperationId to).

Definition prepare_block (workflowOperationId : string) (input : BlockOperationInput) : disk -> engining (jsval * TransactionInput) := fun d =>
  current ← requireOperation deps workflowOperationId d;
  target ← of_transition (blockTargetFor (state_of current) (bo_reason input));
  base ← requireWorkingState deps workflowOperationId d;
  workingState ← proposed_state base (also_blocked (bo_detail input) (bo_proposal input));
  history ← readOperationHistory deps workflowOperationId d;
  operation ← next_record current workflowOperationId target.1 (Some target.2) (Some (bo_detail input));
  checkpoint ← checkpoint_of workflowOperationId (field_text current "attempt_id") (ws_phase workingState) workingState;
  sequence ← nextEventSequence deps workflowOperationId d;
  committed ← next_event current workflowOperationId 0 sequence "CheckpointCommitted"
    [("boundary", JStr "snapshot"); ("trigger", JStr "blocked"); ("reason", JStr (block_reason_text (bo_reason input)));
     ("resume_state", JStr (operation_state_text target.2)); ("checkpoint_id", JStr (newId deps checkpoint_id_kind 0))] None;
  artifact ← operationArtifact operation workflowOperationId (Z.of_nat (S (length history))) target.1;
  Ok (operation, transaction workflowOperationId (field_text current "attempt_id") (artifact :: checkpoint.2 ++ bo_artifacts input)
    [committed] None).

Definition block (workflowOperationId : string) (input : BlockOperationInput) : engM jsval := committing (prepare_block workflowOperationId input).

Definition prepare_abort (workflowOperationId : string) (input : AbortOperationInput) : disk -> engining (jsval * TransactionInput) := fun d =>
  current ← requireOperation deps workflowOperationId d;
  target ← of_transition (abortTargetFor (state_of current) (ao_reason input));
  history ← readOperationHistory deps workflowOperationId d;
  operation ← next_record current workflowOperationId target None (Some (ao_detail input));
  sequence ← nextEventSequence deps workflowOperationId d;
  completed ← next_event current workflowOperationId 0 sequence "OperationCompleted"
    [("outcome", JStr "aborted"); ("reason", JStr (abort_reason_text (ao_reason input))); ("detail", JStr (ao_detail input))] None;
  artifact ← operationArtifact operation workflowOperationId (Z.of_nat (S (length history))) target;
  Ok (operation, transaction workflowOperationId (field_text current "attempt_id") [artifact] [completed] None).

Definition abort (workflowOperationId : string) (input : AbortOperationInput) : engM jsval := committing (prepare_abort workflowOperationId input).

(** The extra events follow [CheckpointCommitted], in order. *)
Fixpoint extra_events (current : jsval) (workflowOperationId : string) (n : nat) (firstSequence : Z) (extras : list ExtraEvent) :
  engining (list jsval) :=
  match extras with
  | [] => Ok []
  | extra :: extras' =>
      e ← next_event current workflowOperationId n (firstSequence + Z.of_nat n) (xe_eventType extra) (xe_payload extra) (xe_protocolVersion extra);
      es ← extra_events current workflowOperationId (S n) firstSequence extras';
      Ok (e :: es)
  end.

Definition prepare_checkpoint (workflowOperationId : string) (input : CommitCheckpointInput) : disk -> engining (jsval * TransactionInput) := fun d =>
  current ← requireOperation deps workflowOperationId d;
  _ ← (if isResumableOperationState (state_of current) then Ok tt
       else if isTerminalOperationState (state_of current) then Err (WorkflowError operation_terminal)
       else Err InvalidStateTransition);
  base ← requireWorkingState deps workflowOperationId d;
  workingState ← proposed_state base (ci_proposal input);
  checkpoint ← checkpoint_of workflowOperationId (field_text current "attempt_id") (ws_phase workingState) workingState;
  firstSequence ← nextEventSequence deps workflowOperationId d;
  committed ← next_event current workflowOperationId 0 firstSequence "CheckpointCommitted"
    [("boundary", JStr (boundary_text (ci_boundary input))); ("phase", JStr (ws_phase workingState));
     ("checkpoint_id", JStr (newId deps checkpoint_id_kind 0))] None;
  extras ← extra_events current workflowOperationId 1 firstSequence (ci_events input);
  Ok (checkpoint.1, transaction workflowOperationId (field_text current "attempt_id") (ci_artifacts input ++ checkpoint.2)
    (committed :: extras) (ci_requiredReaderVersion input)).

Definition commitCheckpoint (workflowOperationId : string) (input : CommitCheckpointInput) : engM jsval :=
  committing (prepare_checkpoint workflowOperationId input).

(** ** Runs *)

Record StartRunInput : Type := {
  sr_taskId : string;
  sr_contextBundleId : string;
  sr_contextBundleDigest : option string;
  sr_grantRecordDigest : option string;
  sr_authorizationDigest : option string;
  sr_adapterProfileDigest : option string }.

Definition prepare_run (workflowOperationId : string) (input : StartRunInput) : disk -> engining (jsval * TransactionInput) := fun d =>
  current ← requireOperation deps workflowOperationId d;
  _ ← reject_if (negb (bool_decide (state_of current = OpRunning)) && negb (bool_decide (state_of current = OpRepairing))) InvalidStateTransition;
  let runId := newId deps run_id_kind 0 in
  record ← buildRunStartedRecord {| rs_runId := runId; rs_taskId := sr_taskId input; rs_workflowOperationId := workflowOperationId;
    rs_attemptId := field_text current "attempt_id"; rs_sequence := 1; rs_timestamp := now deps;
    rs_contextBundleId := sr_contextBundleId input; rs_contextBundleDigest := sr_contextBundleDigest input;
    rs_grantRecordDigest := sr_grantRecordDigest input; rs_authorizationDigest := sr_authorizationDigest input;
    rs_adapterProfileDigest := sr_adapterProfileDigest input |};
  content ← document record;
  Ok (record, transaction workflowOperationId (field_text current "attempt_id")
    [Artifact (runRecordArtifactPath runId 1 "run_started") content] [] None).

Definition startRun (workflowOperationId : string) (input : StartRunInput) : engM jsval := committing (prepare_run workflowOperationId input).

(** One more than the sequences of a stream. *)
Definition next_run_sequence (records : list jsval) : Z := (foldl Z.max 0 (map (fun r => field_int r "sequence") records) + 1)%Z.

Definition prepare_termination (workflowOperationId runId outcome terminationReason : string) : disk -> engining (jsval * TransactionInput) := fun d =>
  _ ← requireOperation deps workflowOperationId d;
  streams ← readRunStreams deps workflowOperationId d;
  stream ← find_record (WorkflowError run_not_found) (find_first (fun s => bool_decide (st_runId s = runId)) streams);
  _ ← reject_if (bool_decide (is_Some (streamTerminalRecord stream))) (WorkflowError run_already_terminated);
  started ← find_record (WorkflowError operation_corrupt)
    (match st_records stream with
     | r :: _ => if TLiteral "run_started" (plainRecordField r "record_kind") then Some r else None
     | [] => None
     end);
  let sequence := next_run_sequence (st_records stream) in
  record ← buildRunRecord
    [("record_kind", JStr "run_terminated"); ("run_id", JStr runId); ("task_id", plainRecordField started "task_id");
     ("workflow_operation_id", JStr workflowOperationId); ("attempt_id", plainRecordField started "attempt_id");
     ("sequence", jint sequence); ("timestamp", JStr (now deps)); ("outcome", JStr outcome);
     ("termination_reason", JStr terminationReason)];
  content ← document record;
  Ok (record, transaction workflowOperationId (field_text started "attempt_id")
    [Artifact (runRecordArtifactPath runId sequence "run_terminated") content] [] None).

Definition terminateRun (workflowOperationId runId outcome terminationReason : string) : engM jsval :=
  committing (prepare_termination workflowOperationId runId outcome terminationReason).
End engine.
