(* ===== verification/Vouched.v ===== *)
(** * What a commit does to the artifacts the ledger vouches for

    The readers of [Checkpoint] and [Workflow] see, in a directory of artifacts,
    the files whose digests the committed manifests name. A commit adds the
    artifacts of its transaction to what they see, and nothing else; a commit
    that is killed before its manifest adds nothing. *)

From stdpp Require Import gmap.
From S2P Require Import Prelude Regex Json Lease JsonText Schema Transaction Store Repository Commit CrashSafety WorkingState Checkpoint.

(** ** Directories in the order of the names *)

Definition name_lt (e e' : string * string) : Prop := (str_cmp e.1 e'.1 < 0)%Z.

Lemma str_cmp_lt_trans x y z : (str_cmp x y < 0)%Z -> (str_cmp y z < 0)%Z -> (str_cmp x z < 0)%Z.
Proof.
  intros H1 H2. assert (str_cmp x z <= 0)%Z as Hle by (eapply str_cmp_trans; [apply Z.lt_le_incl, H1|lia]).
  destruct (decide (str_cmp x z = 0)%Z) as [E|]; [|lia]. apply str_cmp_eq in E as ->.
  pose proof (str_cmp_flip z y). lia.
Qed.

#[export] Instance name_lt_strict : StrictOrder name_lt.
Proof.
  split.
  - intros e He. unfold name_lt in He. rewrite (proj2 (str_cmp_eq e.1 e.1)) in He by done. lia.
  - intros e1 e2 e3. apply str_cmp_lt_trans.
Qed.

Lemma name_sorted_NoDup l : StronglySorted name_lt l -> NoDup l.
Proof.
  induction 1 as [|e l _ IH He]; [constructor|]. constructor; [|done]. intros Hin. rewrite Forall_forall in He.
  by apply (irreflexivity name_lt e), He.
Qed.

Lemma name_sorted_unique l l' : StronglySorted name_lt l -> StronglySorted name_lt l' -> (forall e, e ∈ l <-> e ∈ l') -> l = l'.
Proof.
  intros Hl Hl' He. apply (StronglySorted_unique_strong name_lt); [|done..|].
  - intros e1 e2 _ _ H1 H2. exfalso. apply (irreflexivity name_lt e1). by etrans.
  - by apply NoDup_Permutation; [by apply name_sorted_NoDup..|].
Qed.

(** The named values of distinct names, in order. *)
Lemma named_sorted {A} (f : string -> option A) names : NoDup names -> StronglySorted (cmp_le str_cmp) names ->
  StronglySorted (fun x y => (str_cmp x.1 y.1 < 0)%Z) (omap (fun n => (pair n) <$> f n) names).
Proof.
  induction names as [|n names IH]; intros Hn Hs; [constructor|]. apply NoDup_cons in Hn as [Hni Hn]. apply StronglySorted_inv in Hs as [Hs Hle].
  cbn. destruct (f n) as [a|]; cbn; [|by apply IH]. constructor; [by apply IH|]. rewrite Forall_forall in Hle. apply Forall_forall. intros [m b] Hm.
  apply list_elem_of_omap in Hm as (m' & Hm' & E). destruct (f m'); [|done]. cbn in E. injection E as -> ->. cbn.
  specialize (Hle m Hm'). unfold cmp_le in Hle. destruct (decide (str_cmp n m = 0)%Z) as [E|]; [|lia]. apply str_cmp_eq in E as ->. done.
Qed.

Lemma snoc_sorted l e : StronglySorted name_lt l -> Forall (fun e' => name_lt e' e) l -> StronglySorted name_lt (l ++ [e]).
Proof.
  induction 1 as [|x l _ IH Hx]; intros Hf; [by repeat constructor|]. apply Forall_cons in Hf as [Hxe Hf]. constructor; [by apply IH|].
  apply Forall_app. split; [done|]. by repeat constructor.
Qed.

(** ** What the ledger vouches for *)

Section vouched.
Context `{Hash} `{DateTime} `{Readdir} `{Crash}.

(** The files of a directory whose names end in [.json] and whose digests are
    allowed, with their names, in order. *)
Definition vouched (d : disk) (directory : path) (allowed : list string) : list (string * string) :=
  omap (fun name => pair name <$> match d !! (directory ++ [name]) with
                                  | Some (File content) => if mem (sha256 content) allowed then Some content else None
                                  | _ => None
                                  end) (sort_strings (List.filter (ends_with ".json") (readdir d directory))).

Definition json_name (name : string) : Prop := ends_with ".json" name = true.

Lemma elem_of_vouched d directory allowed name content : (name, content) ∈ vouched d directory allowed <->
  json_name name /\ d !! (directory ++ [name]) = Some (File content) /\ sha256 content ∈ allowed.
Proof.
  unfold vouched. rewrite list_elem_of_omap. split.
  - intros (n & Hn & E). apply elem_of_js_sort, elem_of_List_filter in Hn as [_ Hj].
    destruct (d !! (directory ++ [n])) as [[c|]|] eqn:Ed; [|done..]. destruct (mem (sha256 c) allowed) eqn:Em; [|done].
    cbn in E. injection E as <- <-. apply mem_spec in Em. by split_and!.
  - intros (Hj & Hd & Hm). exists name. split.
    + apply elem_of_js_sort, elem_of_List_filter. split; [|done]. apply readdir_spec. by rewrite Hd.
    + rewrite Hd. apply mem_spec in Hm. by rewrite Hm.
Qed.

Lemma NoDup_List_filter {A} (p : A -> bool) l : NoDup l -> NoDup (List.filter p l).
Proof.
  induction 1 as [|x l Hx _ IH]; [constructor|]. cbn. destruct (p x); [|done]. constructor; [|done]. by rewrite elem_of_List_filter; intros [? _].
Qed.

Lemma vouched_sorted d directory allowed : StronglySorted name_lt (vouched d directory allowed).
Proof.
  apply named_sorted; [|apply sort_strings_sorted]. unfold sort_strings. rewrite js_sort_Permutation. apply NoDup_List_filter, readdir_NoDup.
Qed.

Lemma vouched_is d directory allowed l : StronglySorted name_lt l ->
  (forall name content, (name, content) ∈ l <-> json_name name /\ d !! (directory ++ [name]) = Some (File content) /\ sha256 content ∈ allowed) ->
  vouched d directory allowed = l.
Proof.
  intros Hs Hl. apply name_sorted_unique; [apply vouched_sorted|done|]. intros [n c]. by rewrite elem_of_vouched, Hl.
Qed.

(** No entry of the directory is itself a directory with the name of a file. *)
Definition plain_directory (d : disk) (directory : path) : Prop :=
  forall name, json_name name -> d !! (directory ++ [name]) <> Some Directory.

(** A file that is not vouched for is not the copy of one of [contents]. *)
Definition no_twin (d : disk) (directory : path) (allowed contents : list string) : Prop :=
  forall name content, json_name name -> d !! (directory ++ [name]) = Some (File content) ->
    sha256 content ∈ map sha256 contents -> sha256 content ∈ allowed.

(** ** The operation of a commit *)

Lemma allowlist_snoc ops op workflowOperationId :
  artifactDigestAllowlist (ops ++ [op]) workflowOperationId =
  artifactDigestAllowlist ops workflowOperationId ++
  (if bool_decide (op_workflow (manifest op) = workflowOperationId) then op_artifact_digests (manifest op) else []).
Proof. unfold artifactDigestAllowlist. rewrite flat_map_app. cbn. by rewrite app_nil_r. Qed.

Lemma strings_of_strings l : strings_of (strings l) = l.
Proof. unfold strings_of, strings. induction l as [|s l IH]; [done|]. cbn. by rewrite IH. Qed.

Definition artifact_contents (input : TransactionInput) : list string := map ar_content (ti_artifacts input).

Lemma new_operation_facts input digests options cx ops m : computeInputDigests input = Ok digests ->
  buildManifest (the_draft input digests options cx ops) = Ok m ->
  op_workflow (manifest (new_operation input m)) = ti_workflow_operation_id input /\
  op_artifact_digests (manifest (new_operation input m)) = map sha256 (artifact_contents input).
Proof.
  intros Hd Hb. unfold op_workflow, op_artifact_digests, new_operation. cbn [manifest]. rewrite !(draft_field _ _ _ _ _ _ _ Hb). split; [done|].
  change (strings_of (strings (artifactDigests digests)) = map sha256 (artifact_contents input)). rewrite strings_of_strings.
  unfold computeInputDigests in Hd. apply bind_Ok in Hd as (? & _ & Hd). apply bind_Ok in Hd as (? & _ & [= <-]). cbn.
  unfold artifact_contents. by rewrite map_map.
Qed.

(** ** What the readers see after a commit *)

Section after.
Variables (input : TransactionInput) (digests : InputDigests) (month : string) (d : disk) (directory : path).
Hypothesis in_artifacts : exists r, directory = "artifacts" :: r.
(** No file of the transaction is below an entry of the directory. *)
Hypothesis nothing_below : forall name u, json_name name -> u ∈ written input digests month -> ~ above (directory ++ [name]) u.

Abbreviation entry_at name := (directory ++ [name]).

Definition placed (name content : string) : Prop :=
  exists a, a ∈ ti_artifacts input /\ split_on "/" (ar_path a) = entry_at name /\ ar_content a = content.

Lemma entry_artifact name : exists r, entry_at name = "artifacts" :: r.
Proof. destruct in_artifacts as [r ->]. by exists (r ++ [name]). Qed.

Lemma moved_entry name : entry_at name ∈ map mv_to (moves input digests month) <-> exists content, placed name content.
Proof.
  destruct (entry_artifact name) as [r Hr]. unfold moves. rewrite map_app, map_map, elem_of_app. split.
  - intros [Hin|Hin].
    + apply list_elem_of_fmap in Hin as (a & He & Ha). exists (ar_content a), a. by split_and!.
    + rewrite Hr in Hin. cbn in Hin. rewrite !elem_of_cons in Hin. destruct Hin as [Hin|[Hin|Hin]]; [done..|by apply elem_of_nil in Hin].
  - intros (c & a & Ha & He & _). left. apply list_elem_of_fmap. by exists a.
Qed.

Lemma placed_move name content : placed name content ->
  exists m, m ∈ moves input digests month /\ mv_to m = entry_at name /\ mv_content m = content.
Proof.
  intros (a & Ha & He & Hc). exists (artifact_move a). split_and!; [|done..]. unfold moves. apply elem_of_app. left. by apply list_elem_of_fmap_2.
Qed.

(** An entry of the directory is the one there was, or new. *)
Lemma extended_entry d' name : extended input digests month d True d' ->
  d' !! entry_at name = d !! entry_at name \/
  (d !! entry_at name = None /\ ((d' !! entry_at name = Some Directory /\ ~ json_name name) \/ exists content, placed name content)).
Proof.
  destruct (entry_artifact name) as [r Hr]. intros He.
  destruct (He (entry_at name)) as [Hp|[Hp|[Hp|[Hp|(Hn & _ & [[Hd Ha]|[Hm _]])]]]].
  - rewrite Hr in Hp. destruct Hp as [k Hp]. discriminate Hp.
  - rewrite Hr in Hp. discriminate Hp.
  - rewrite Hr in Hp. discriminate Hp.
  - by left.
  - right. split; [done|]. left. split; [done|]. intros Hj. destruct (Ha I) as (u & Hu & Hab). by apply (nothing_below name u).
  - right. split; [done|]. right. by apply moved_entry.
Qed.

Lemma entry_kept d' name e : extended input digests month d True d' -> d !! entry_at name = Some e -> d' !! entry_at name = Some e.
Proof. intros He Hd. destruct (extended_entry d' name He) as [->|[Hn _]]; [done|]. congruence. Qed.

(** A new file of the directory is an artifact of the transaction. *)
Lemma new_file d' name content :
  extended input digests month d True d' -> (forall c c', placed name c -> d' !! entry_at name = Some (File c') -> c' = c) ->
  d' !! entry_at name = Some (File content) -> d !! entry_at name = Some (File content) \/ placed name content.
Proof.
  intros He Hc Hf. destruct (extended_entry d' name He) as [E|(_ & [[Hd _]|[c Hp]])]; [left; congruence|congruence|].
  right. by rewrite (Hc c content Hp Hf).
Qed.

Lemma committed_content m d' name c c' : committed_disk input digests month d True m d' -> placed name c ->
  d' !! entry_at name = Some (File c') -> c' = c.
Proof.
  intros (_ & _ & Hp & _) Hpl Hf. destruct (placed_move name c Hpl) as (mv & Hm & Ht & Hc). destruct (Hp I mv Hm) as [Hin _].
  rewrite Ht, Hc in Hin. congruence.
Qed.

Lemma kept_content d' name c c' : invariant input digests month d True d' -> placed name c ->
  d' !! entry_at name = Some (File c') -> c' = c.
Proof.
  intros (_ & _ & Hr) Hpl Hf. destruct (placed_move name c Hpl) as (mv & Hm & Ht & Hc). destruct (Hr I) as (Hr1 & _).
  destruct (Hr1 mv Hm) as [Hin|Hin]; rewrite Ht in Hin; [|rewrite Hc in Hin]; congruence.
Qed.

Lemma plain_after d' : extended input digests month d True d' ->
  (forall name c, placed name c -> d' !! entry_at name <> Some Directory) -> plain_directory d directory -> plain_directory d' directory.
Proof.
  intros He Hpl Hd name Hj Hdir. destruct (extended_entry d' name He) as [E|(_ & [[_ Hn]|[c Hp]])].
  - apply (Hd name Hj). congruence.
  - done.
  - by apply (Hpl name c).
Qed.

(** After the commit: what there was, and the artifacts of the transaction. *)
Lemma vouched_committed m d' allowed : committed_disk input digests month d True m d' -> plain_directory d directory ->
  no_twin d directory allowed (artifact_contents input) ->
  plain_directory d' directory /\
  forall name content, (name, content) ∈ vouched d' directory (allowed ++ map sha256 (artifact_contents input)) <->
    (name, content) ∈ vouched d directory allowed \/ (json_name name /\ placed name content).
Proof.
  intros Hc Hd Ht. pose proof Hc as (He & _ & Hp & _). split.
  { apply plain_after; [done| |done]. intros name c Hpl Hdir. destruct (placed_move name c Hpl) as (mv & Hm & Hto & _).
    destruct (Hp I mv Hm) as [Hin _]. rewrite Hto in Hin. congruence. }
  intros name content. rewrite !elem_of_vouched. split.
  - intros (Hj & Hf & Ha). destruct (new_file d' name content He) as [Hf0|Hpl]; [by intros c c'; apply (committed_content m)|done| |by right].
    left. split_and!; [done..|]. apply elem_of_app in Ha as [Ha|Ha]; [done|]. by apply (Ht name content).
  - intros [(Hj & Hf & Ha)|(Hj & Hpl)].
    + split_and!; [done|by apply (entry_kept d')|]. apply elem_of_app. by left.
    + split_and!; [done| |].
      * destruct (placed_move name content Hpl) as (mv & Hm & Hto & <-). destruct (Hp I mv Hm) as [Hin _]. by rewrite Hto in Hin.
      * apply elem_of_app. right. destruct Hpl as (a & Hin & _ & <-). unfold artifact_contents. by apply list_elem_of_fmap_2, list_elem_of_fmap_2.
Qed.

(** Before the manifest is there: what there was. *)
Lemma vouched_kept d' allowed : invariant input digests month d True d' -> plain_directory d directory ->
  (forall name content, json_name name -> placed name content -> (sha256 content ∉ allowed)) ->
  plain_directory d' directory /\ vouched d' directory allowed = vouched d directory allowed.
Proof.
  intros Hi Hd Hn. pose proof Hi as (Hk & _ & Hr). pose proof (kept_extended _ _ _ _ _ _ Hk) as He. split.
  { apply plain_after; [done| |done]. intros name c Hpl Hdir. destruct (placed_move name c Hpl) as (mv & Hm & Hto & _).
    destruct (Hr I) as (Hr1 & _). destruct (Hr1 mv Hm) as [Hin|Hin]; rewrite Hto in Hin; congruence. }
  apply vouched_is; [apply vouched_sorted|]. intros name content. rewrite elem_of_vouched. split.
  - intros (Hj & Hf & Ha). split_and!; [done|by apply (entry_kept d')|done].
  - intros (Hj & Hf & Ha). split_and!; [done| |done].
    destruct (new_file d' name content He) as [Hf0|Hpl]; [by intros c c'; apply kept_content|done..|]. by apply Hn in Hpl.
Qed.
End after.
End vouched.
