(* ===== verification/WorkflowLedger.v ===== *)
(** * The workflow engine refines the state machine

    [WorkflowEngine] keeps an operation as numbered records below
    [artifacts/workflow-operations]. What [readOperationHistory] reads of them
    is, after every method that returns, the history before and the record that
    [StateMachine] asks for; a method that is killed has added the record or
    nothing. *)

From stdpp Require Import gmap.
From S2P Require Import Prelude Regex Json Locator StateMachine Lease JsonText Blockers WorkingState Schema Transaction Store Repository Commit CrashSafety Checkpoint Workflow Vouched.

(** ** The names of the records *)

(** Four digits, up to 9999, in the order of the numbers. *)
Definition pad_ok (n : Z) : bool :=
  str_forallb id_char (padStart_4 n) && (String.length (padStart_4 n) =? 4)%nat && str_lt (padStart_4 (n - 1)) (padStart_4 n).

Lemma pads_ok : forallb pad_ok (seqZ 1 9999) = true.
Proof. vm_compute. reflexivity. Qed.

Lemma pad_spec n : (1 <= n <= 9999)%Z ->
  str_forallb id_char (padStart_4 n) = true /\ String.length (padStart_4 n) = 4 /\ (str_cmp (padStart_4 (n - 1)) (padStart_4 n) < 0)%Z.
Proof.
  intros Hn. assert (pad_ok n = true) as Hp.
  { pose proof pads_ok as Hp. rewrite forallb_Forall, <- Forall_forall, Forall_forall in Hp. apply Hp, elem_of_seqZ. lia. }
  unfold pad_ok, str_lt in Hp. apply andb_true_iff in Hp as [[Hc Hl]%andb_true_iff Hs]. apply Nat.eqb_eq in Hl. by apply bool_decide_eq_true in Hs.
Qed.

Lemma pad_lt i j : (0 <= i < j)%Z -> (j <= 9999)%Z -> (str_cmp (padStart_4 i) (padStart_4 j) < 0)%Z.
Proof.
  intros Hi. replace j with (i + Z.of_nat (S (Z.to_nat (j - i - 1))))%Z by lia. generalize (Z.to_nat (j - i - 1)). intros k.
  induction k as [|k IH]; intros Hj.
  - destruct (pad_spec (i + 1)) as (_ & _ & Hs); [lia|]. by replace (i + 1 - 1)%Z with i in Hs by lia.
  - destruct (pad_spec (i + Z.of_nat (S (S k)))) as (_ & _ & Hs); [lia|]. eapply str_cmp_lt_trans; [apply IH; lia|].
    by replace (i + Z.of_nat (S (S k)) - 1)%Z with (i + Z.of_nat (S k))%Z in Hs by lia.
Qed.

(** Texts of one length decide before what follows them. *)
Lemma str_cmp_app a : forall b x y, String.length a = String.length b -> (str_cmp a b < 0)%Z -> (str_cmp (a +:+ x) (b +:+ y) < 0)%Z.
Proof.
  induction a as [|c a IH]; intros [|c' b] x y Hl Hc; try done. injection Hl as Hl. unfold str_cmp in *. cbn in *.
  destruct (Ascii.compare c c') eqn:E; [|done..]. apply (IH b x y Hl). exact Hc.
Qed.

Lemma record_name_lt i j s s' : (1 <= i < j)%Z -> (j <= 9999)%Z -> (str_cmp (operation_record_name i s) (operation_record_name j s') < 0)%Z.
Proof.
  intros Hi Hj. unfold operation_record_name. apply str_cmp_app; [|apply pad_lt; lia].
  destruct (pad_spec i) as (_ & -> & _); [lia|]. destruct (pad_spec j) as (_ & -> & _); [lia|done].
Qed.

Definition plain_segment (name : string) : Prop :=
  no_char "/" name = true /\ no_char (ascii_of_N 0) name = true /\ no_char "\" name = true /\ mem name [""; "."; ".."] = false.

Lemma record_name_plain n s : (1 <= n <= 9999)%Z -> plain_segment (operation_record_name n s).
Proof.
  intros Hn. destruct (pad_spec n Hn) as (Hp & Hl & _). unfold operation_record_name.
  assert (exists t, str_forallb id_char t = true /\ t <> "" /\ padStart_4 n +:+ "-" +:+ operation_state_text s +:+ ".json" = t +:+ ".json") as (t & Ht & Hne & ->).
  { exists (padStart_4 n +:+ "-" +:+ operation_state_text s). split_and!.
    - rewrite !str_forallb_app, Hp. by destruct s.
    - by destruct (padStart_4 n).
    - by rewrite !string_app_assoc. }
  apply plain_name; [done..|]. set_solver.
Qed.

Lemma record_name_json n s : json_name (operation_record_name n s).
Proof. unfold json_name, operation_record_name. rewrite !string_app_assoc. apply ends_with_app. Qed.

(** ** The directory of an operation *)

Definition operation_path (workflowOperationId : string) : path := ["artifacts"; "workflow-operations"; workflowOperationId].

Lemma identifier_plain s : identifier_ok s = true -> plain_segment s.
Proof.
  intros [[Hl _]%andb_true_iff Hr]%andb_true_iff. rewrite <- (string_app_nil_r s). apply plain_name; [| |set_solver].
  - eapply re_all_forallb; [|exact Hr]. unfold IDENTIFIER_REGEX, RPlus, RChr. cbn. split_and!; refine (all_ascii_impl _ _ _); vm_compute; reflexivity.
  - intros ->. done.
Qed.

Lemma operation_file workflowOperationId name : identifier_ok workflowOperationId = true -> plain_segment name ->
  resolveHarnessPath (operations_directory workflowOperationId +:+ "/" +:+ name) = Ok (operation_path workflowOperationId ++ [name]).
Proof.
  intros Hw Hn. apply identifier_plain in Hw.
  assert (operations_directory workflowOperationId +:+ "/" +:+ name = join "/" (operation_path workflowOperationId ++ [name])) as ->.
  { unfold operations_directory. rewrite <- !string_app_assoc. reflexivity. }
  apply resolve_plain; [done|]. cbn. repeat (apply Forall_cons; split); try apply Forall_nil_2; try done; by vm_compute.
Qed.

Lemma operation_directory workflowOperationId : identifier_ok workflowOperationId = true ->
  resolveHarnessPath (operations_directory workflowOperationId) = Ok (operation_path workflowOperationId).
Proof.
  intros Hw. apply identifier_plain in Hw.
  assert (operations_directory workflowOperationId = join "/" (operation_path workflowOperationId)) as -> by done.
  apply resolve_plain; [done|]. repeat (apply Forall_cons; split); try apply Forall_nil_2; try done; by vm_compute.
Qed.

(** ** The log of an operation *)

Section log.
Context `{Hash} `{DateTime} `{Readdir} `{Crash}.

(** The [n]-th record of an operation, in its file. *)
Definition logged (n : Z) (file : string * string) (record : jsval) : Prop :=
  file.1 = operation_record_name n (state_of record) /\ JSON_parse file.2 = Some record /\ validateSchema workflow_operation record = true.

Inductive log_from : Z -> list (string * string) -> list jsval -> Prop :=
| log_nil n : log_from n [] []
| log_cons n file record files history :
    logged n file record -> log_from (n + 1) files history -> log_from n (file :: files) (record :: history).

(** The files of the directory that are vouched for are the records of
    [history], numbered from one; none has a name the readers refuse. *)
Record log_files (d : disk) (ops : list CommittedOperation) (workflowOperationId : string) (history : list jsval) : Prop := {
  lf_plain : plain_directory d (operation_path workflowOperationId);
  lf_names : forall name, json_name name -> is_Some (d !! (operation_path workflowOperationId ++ [name])) -> plain_segment name;
  lf_files : log_from 1 (vouched d (operation_path workflowOperationId) (artifactDigestAllowlist ops workflowOperationId)) history }.

(** The disk holds the operation with the records of [history]. *)
Record operation_log (d : disk) (ops : list CommittedOperation) (workflowOperationId : string) (history : list jsval) : Prop := {
  ol_id : identifier_ok workflowOperationId = true;
  ol_ledger : ledger d ops;
  ol_directory : d !! operation_path workflowOperationId = Some Directory;
  ol_files : log_files d ops workflowOperationId history }.

Lemma log_snoc n files history file record : log_from n files history -> logged (n + Z.of_nat (length history)) file record ->
  log_from n (files ++ [file]) (history ++ [record]).
Proof.
  induction 1 as [n|n f r fs rs Hf _ IH]; intros Hl; cbn in *.
  - rewrite Z.add_0_r in Hl. constructor; [done|constructor].
  - constructor; [done|]. apply IH. by replace (n + 1 + Z.of_nat (length rs))%Z with (n + Z.of_nat (S (length rs)))%Z by lia.
Qed.

Lemma log_member n files history file : log_from n files history -> file ∈ files ->
  exists i record, (n <= i < n + Z.of_nat (length history))%Z /\ logged i file record.
Proof.
  induction 1 as [n|n f r fs rs Hf _ IH]; intros Hin; [by apply elem_of_nil in Hin|]. apply elem_of_cons in Hin as [->|Hin].
  - exists n, r. cbn. split; [lia|done].
  - destruct (IH Hin) as (i & r' & Hi & Hr). exists i, r'. cbn. split; [lia|done].
Qed.

(** *** Reading a log *)

Lemma read_names (d : disk) key allowed directory prefix names :
  (forall name, name ∈ names -> resolveHarnessPath (directory +:+ "/" +:+ name) = Ok (prefix ++ [name]) /\
    exists content, d !! (prefix ++ [name]) = Some (File content)) ->
  forall n history, key = workflow_operation ->
  log_from n (omap (fun name => pair name <$> match d !! (prefix ++ [name]) with
                                | Some (File content) => if mem (sha256 content) allowed then Some content else None
                                | _ => None
                                end) names) history ->
  read_records key d allowed directory names = Ok history.
Proof.
  intros Hnames n history -> Hlog. unfold read_records.
  cut (exists records, Forall2 (fun name o => read_vouched workflow_operation d allowed directory name = Ok o) names records /\
         omap id records = history).
  { intros (records & Hf & <-). apply mapM_Ok in Hf. by rewrite Hf. }
  revert n history Hlog. induction names as [|name names IH]; intros n history Hlog; cbn [omap list_omap] in Hlog.
  - inversion Hlog. exists []. by split.
  - destruct (Hnames name ltac:(left)) as (Hr & content & Hc). rewrite Hc in Hlog.
    assert (forall x, x ∈ names -> resolveHarnessPath (directory +:+ "/" +:+ x) = Ok (prefix ++ [x]) /\
      exists content, d !! (prefix ++ [x]) = Some (File content)) as Hrest by (intros x Hx; apply Hnames; by right).
    assert (forall o, (if negb (mem (sha256 content) allowed) then Ok None
              else parsed ← find_record (WorkflowError operation_corrupt) (JSON_parse content);
                   record ← validated workflow_operation parsed; Ok (Some record)) = Ok o ->
              read_vouched workflow_operation d allowed directory name = Ok o) as Hread.
    { intros o Ho. unfold read_vouched. rewrite Hr. cbn [of_ledger map_err mbind result_bind]. unfold readFile. by rewrite Hc. }
    destruct (mem (sha256 content) allowed); cbn [fmap option_fmap option_map negb] in *.
    + inversion Hlog as [|n' f r fs rs (_ & Hp & Hv) Hl]; subst. cbn [snd] in Hp. rewrite Hp in Hread.
      destruct (IH Hrest _ _ Hl) as (records & Hf & <-). exists (Some r :: records). split; [|done]. constructor; [|done]. apply Hread.
      unfold find_record. cbn [mbind result_bind]. unfold validated. by rewrite Hv.
    + destruct (IH Hrest _ _ Hlog) as (records & Hf & <-). exists (None :: records). split; [|done]. constructor; [|done]. by apply Hread.
Qed.

Lemma log_read deps d ops workflowOperationId history : operation_log d ops workflowOperationId history ->
  readerVersion (ledgerRepository deps) = None -> readOperationHistory deps workflowOperationId d = Ok history.
Proof.
  intros [Hid (_ & Hr & _) Hd [Hp Hn Hf]] Hv. unfold readOperationHistory, ledger_operations, operations, reader. rewrite Hv. cbn [default].
  rewrite Hr. cbn [of_ledger map_err mbind result_bind]. rewrite (operation_directory _ Hid). cbn [of_ledger map_err mbind result_bind].
  unfold existsSync. rewrite bool_decide_true by by rewrite Hd. cbn [negb]. unfold json_names, listDirectory. rewrite Hd. cbn [mbind result_bind of_ledger map_err].
  apply (read_names d workflow_operation _ _ (operation_path workflowOperationId) _) with (n := 1%Z); [|done|exact Hf].
  intros name Hin. apply elem_of_js_sort, elem_of_List_filter in Hin as [Hin Hj]. apply readdir_spec in Hin.
  split; [apply operation_file; [done|by apply Hn]|]. destruct (d !! (operation_path workflowOperationId ++ [name])) as [[c|]|] eqn:E.
  - by exists c.
  - by apply Hp in E.
  - by destruct Hin.
Qed.

(** *** Adding a record *)

(** The artifacts of a change: its record, and others that are elsewhere. *)
Record adds_record (input : TransactionInput) (workflowOperationId : string) (n : Z) (record : jsval) (content : string) : Prop := {
  ad_workflow : ti_workflow_operation_id input = workflowOperationId;
  ad_record : Artifact (operationRecordArtifactPath workflowOperationId n (state_of record)) content ∈ ti_artifacts input;
  ad_only : forall a, a ∈ ti_artifacts input -> operation_path workflowOperationId `prefix_of` split_on "/" (ar_path a) ->
    a = Artifact (operationRecordArtifactPath workflowOperationId n (state_of record)) content;
  ad_document : document record = Ok content;
  ad_literals : json_literals record = true;
  ad_distinct : distinct_keys record;
  ad_valid : validateSchema workflow_operation record = true }.

Lemma state_of_canon record : distinct_keys record -> operation_of (canon record) = operation_of record.
Proof.
  intros Hd. unfold operation_of, state_of, field_text, field_opt. rewrite !plainRecordField_canon by done. rewrite str_canon.
  f_equal. by destruct (plainRecordField record "resume_state").
Qed.

Lemma added_logged input workflowOperationId n record content : adds_record input workflowOperationId n record content ->
  logged n (operation_record_name n (state_of record), content) (canon record).
Proof.
  intros [_ _ _ Hdoc Hl Hd Hv]. split_and!; cbn [fst snd].
  - f_equal. exact (eq_sym (f_equal wo_state (state_of_canon record Hd))).
  - unfold document in Hdoc. apply bind_Ok in Hdoc as (text & Ht & [= <-]). apply parse_written; [done|].
    by apply map_err_Ok in Ht.
  - by rewrite validateSchema_stable.
Qed.

(** What a change needs of the disk and of the transaction it commits. *)
Record can_commit (deps : WorkflowDependencies) (d : disk) (ops : list CommittedOperation) (input : TransactionInput) : Prop := {
  ca_sha : forall s, re_match digest_regex (sha256 s) = true;
  ca_run : exists digests month cx rep, well_formed input digests month /\ context_ok input month cx /\
    committable input digests month ops rep d /\ usable input cx (ledgerRepository deps);
  ca_new : Forall (fun op => op_id (manifest op) <> ti_ledger_operation_id input) ops }.

Section change.
Variables (deps : WorkflowDependencies) (d : disk) (ops : list CommittedOperation) (workflowOperationId : string) (input : TransactionInput).
Variables (n : Z) (record : jsval) (content : string).
Hypothesis Hid : identifier_ok workflowOperationId = true.
Hypothesis Hadds : adds_record input workflowOperationId n record content.
Hypothesis Hn : (1 <= n <= 9999)%Z.

Abbreviation D := (operation_path workflowOperationId).
Abbreviation name := (operation_record_name n (state_of record)).

Lemma record_path : split_on "/" (operationRecordArtifactPath workflowOperationId n (state_of record)) = D ++ [name].
Proof.
  symmetry. apply resolve_ok. unfold operationRecordArtifactPath. apply operation_file; [done|]. by apply record_name_plain.
Qed.

Lemma placed_record name' c : placed input D name' c <-> name' = name /\ c = content.
Proof.
  split.
  - intros (a & Ha & Hp & Hc). pose proof (ad_only _ _ _ _ _ Hadds a Ha) as Ea.
    rewrite Hp in Ea. rewrite Ea in Hp, Hc by (by eexists). cbn [ar_path ar_content] in Hp, Hc.
    rewrite record_path in Hp. apply app_inv_head in Hp. injection Hp as ->. done.
  - intros [-> ->]. eexists. split; [apply Hadds|]. cbn [ar_path ar_content]. split; [apply record_path|done].
Qed.

Lemma none_below digests month name' u : u ∈ written input digests month -> ~ above (D ++ [name']) u.
Proof.
  intros Hu (x & r & Hr). rewrite <- app_assoc in Hr. subst u. unfold written in Hu. rewrite !elem_of_app in Hu. destruct Hu as [Hu|[Hu|Hu]].
  - apply list_elem_of_fmap in Hu as (m & Hm & _). discriminate Hm.
  - apply list_elem_of_fmap in Hu as (m & Hm & Hin). unfold moves in Hin. apply elem_of_app in Hin as [Hin|Hin].
    + apply list_elem_of_fmap in Hin as (a & -> & Hin). cbn [mv_to artifact_move] in Hm.
      pose proof (ad_only _ _ _ _ _ Hadds a Hin) as Ea. rewrite <- Hm in Ea. rewrite Ea in Hm by (by eexists). cbn [ar_path] in Hm.
      rewrite record_path in Hm. apply app_inv_head in Hm. discriminate Hm.
    + rewrite !elem_of_cons in Hin. destruct Hin as [->|[->|Hin]]; [discriminate Hm..|by apply elem_of_nil in Hin].
  - rewrite !elem_of_cons in Hu. destruct Hu as [Hu|[Hu|[Hu|Hu]]]; [discriminate Hu..|by apply elem_of_nil in Hu].
Qed.

Variable history : list jsval.
Hypothesis Hfiles : log_files d ops workflowOperationId history.
Hypothesis Hlength : n = Z.of_nat (S (length history)).
Variables (digests : InputDigests) (month : string).

Lemma names_after d' : extended input digests month d True d' ->
  forall name', json_name name' -> is_Some (d' !! (D ++ [name'])) -> plain_segment name'.
Proof.
  intros He name' Hj Hs. destruct (extended_entry input digests month d D ltac:(by eexists)
    ltac:(intros name'' u _ Hu; by eapply none_below) d' name' He) as [E|(_ & [[_ Hd]|[c Hp]])].
  - apply (lf_names _ _ _ _ Hfiles name' Hj). by rewrite <- E.
  - done.
  - apply placed_record in Hp as [-> _]. by apply record_name_plain.
Qed.

Lemma directory_kept d' : extended input digests month d True d' -> d !! D = Some Directory -> d' !! D = Some Directory.
Proof.
  intros He Hd. destruct (He D) as [Hp|[Hp|[Hp|[->|(Hnone & _)]]]]; [|discriminate Hp..|done|congruence]. destruct Hp as [k Hp]. discriminate Hp.
Qed.

Lemma directory_made m d' : committed_disk input digests month d True m d' -> d' !! D = Some Directory.
Proof.
  intros (_ & _ & Hp & _). destruct (placed_move input digests month D name content) as (mv & Hm & Hto & _); [by apply placed_record|].
  destruct (Hp I mv Hm) as [_ Hdir]. rewrite Hto in Hdir. unfold is_directory in Hdir. apply bool_decide_eq_true in Hdir as [Hdir|Hdir]; [|exact Hdir].
  discriminate Hdir.
Qed.

(** Committed, the change adds its record to the log. *)
Lemma log_committed m d' cx options : committed_disk input digests month d True m d' -> computeInputDigests input = Ok digests ->
  buildManifest (the_draft input digests options cx ops) = Ok m -> ledger d' (ops ++ [new_operation input m]) ->
  no_twin d D (artifactDigestAllowlist ops workflowOperationId) (artifact_contents input) ->
  operation_log d' (ops ++ [new_operation input m]) workflowOperationId (history ++ [canon record]).
Proof.
  intros Hc Hdig Hb Hl Ht. pose proof Hc as (He & _ & _).
  destruct (vouched_committed input digests month d D ltac:(by eexists) ltac:(intros name'' u _ Hu; by eapply none_below)
    m d' (artifactDigestAllowlist ops workflowOperationId) Hc (lf_plain _ _ _ _ Hfiles) Ht) as [Hplain Hin].
  constructor; [done|done|by eapply directory_made|]. constructor; [done|by apply names_after|].
  destruct (new_operation_facts input digests options cx ops m Hdig Hb) as [Hw Ha].
  rewrite allowlist_snoc, Hw, (bool_decide_true _ (ad_workflow _ _ _ _ _ Hadds)), Ha.
  assert (logged n (name, content) (canon record)) as Hnew by by eapply added_logged.
  erewrite (vouched_is d' D _ (vouched d D (artifactDigestAllowlist ops workflowOperationId) ++ [(name, content)])).
  - apply log_snoc; [apply Hfiles|]. by replace (1 + Z.of_nat (length history))%Z with n by lia.
  - apply snoc_sorted; [apply vouched_sorted|]. apply Forall_forall. intros file Hfile.
    destruct (log_member _ _ _ _ (lf_files _ _ _ _ Hfiles) Hfile) as (i & r & Hi & (Hname & _)). unfold name_lt. rewrite Hname.
    apply record_name_lt; lia.
  - intros name' c. rewrite <- elem_of_vouched, Hin, elem_of_app, list_elem_of_singleton. split.
    + intros [?|Heq]; [by left|]. injection Heq as -> ->. right. split; [apply record_name_json|by apply placed_record].
    + intros [?|[_ Hp]]; [by left|]. apply placed_record in Hp as [-> ->]. by right.
Qed.

(** Killed before its manifest, it adds nothing. *)
Lemma log_kept d' : invariant input digests month d True d' -> ledger d' ops -> d !! D = Some Directory ->
  (sha256 content ∉ artifactDigestAllowlist ops workflowOperationId) -> operation_log d' ops workflowOperationId history.
Proof.
  intros Hi Hl Hdir Hc. pose proof Hi as (Hk & _ & _). pose proof (kept_extended _ _ _ _ _ _ Hk) as He.
  destruct (vouched_kept input digests month d D ltac:(by eexists) ltac:(intros name'' u _ Hu; by eapply none_below)
    d' (artifactDigestAllowlist ops workflowOperationId) Hi (lf_plain _ _ _ _ Hfiles)) as [Hplain Hv].
  { intros name' c _ Hp. by apply placed_record in Hp as [_ ->]. }
  constructor; [done|done|by apply directory_kept|]. constructor; [done|by apply names_after|]. rewrite Hv. apply Hfiles.
Qed.
End change.

(** ** What the methods prepare *)

Lemma state_text_read s : read_operation_state (operation_state_text s) = Some s.
Proof. by destruct s. Qed.

Lemma operation_of_record spec : operation_of (operation_record spec) = StateMachine.buildOperationRecord (or_state spec) (or_resumeState spec).
Proof.
  unfold operation_of, StateMachine.buildOperationRecord. f_equal.
  - unfold state_of. change (field_text (operation_record spec) "state") with (operation_state_text (or_state spec)). by rewrite state_text_read.
  - destruct spec as [w a i p s r u t]. unfold operation_record. cbn [or_state or_resumeState]. destruct (decide (s = OpBlocked)); [|done].
    destruct r as [r|]; [|done]. apply state_text_read.
Qed.

Lemma record_literals spec : json_literals (operation_record spec) = true.
Proof. unfold operation_record. destruct (decide (or_state spec = OpBlocked)); destruct (or_resumeState spec), (or_detail spec); reflexivity. Qed.

Lemma validated_Ok key record record' : validated key record = Ok record' -> record' = record /\ validateSchema key record = true.
Proof. unfold validated. destruct (validateSchema key record) eqn:E; [|done]. by intros [= <-]. Qed.

Variable deps : WorkflowDependencies.

Lemma next_record_Ok current workflowOperationId state resumeState detail record :
  next_record deps current workflowOperationId state resumeState detail = Ok record ->
  operation_of record = StateMachine.buildOperationRecord state resumeState /\ json_literals record = true /\
  validateSchema workflow_operation record = true.
Proof.
  unfold next_record. intros (projectId & _ & [-> Hv]%validated_Ok)%bind_Ok. split_and!; [by rewrite operation_of_record|apply record_literals|done].
Qed.

Lemma document_distinct record content : document record = Ok content -> distinct_keys record.
Proof.
  unfold document. intros (text & Ht%map_err_Ok & _)%bind_Ok. apply distinct_canon. by eapply writeValue_distinct.
Qed.

(** An artifact outside the directory of the operation. *)
Definition elsewhere (workflowOperationId : string) (a : TransactionArtifact) : Prop :=
  ~ operation_path workflowOperationId `prefix_of` split_on "/" (ar_path a).

Lemma checkpoint_elsewhere workflowOperationId w attemptId phase state checkpoint :
  checkpoint_of deps w attemptId phase state = Ok checkpoint -> Forall (elsewhere workflowOperationId) checkpoint.2.
Proof.
  unfold checkpoint_of, buildCheckpointArtifacts. intros Hc. apply bind_Ok in Hc as (_ & _ & Hc). apply bind_Ok in Hc as (digest & _ & Hc).
  cbv zeta in Hc. apply bind_Ok in Hc as (_ & _ & Hc). apply bind_Ok in Hc as (c1 & _ & Hc). apply bind_Ok in Hc as (c2 & _ & [= <-]).
  cbn [snd]. unfold elsewhere, operation_path, checkpointArtifactPath, workingStateArtifactPath. cbn [cs_checkpoint_id].
  repeat (apply Forall_cons; split); try apply Forall_nil_2; cbn [ar_path]; intros [k Hk].
  - change ("artifacts/checkpoints/" +:+ newId deps checkpoint_id_kind 0 +:+ ".json") with
      ("artifacts" +:+ String "/" ("checkpoints" +:+ String "/" (newId deps checkpoint_id_kind 0 +:+ ".json"))) in Hk.
    rewrite !split_on_app in Hk by done. discriminate Hk.
  - change ("artifacts/working-state/" +:+ newId deps checkpoint_id_kind 0 +:+ ".json") with
      ("artifacts" +:+ String "/" ("working-state" +:+ String "/" (newId deps checkpoint_id_kind 0 +:+ ".json"))) in Hk.
    rewrite !split_on_app in Hk by done. discriminate Hk.
Qed.

(** A change of an operation: the record the machine asks for, numbered after
    the history, and other artifacts elsewhere. *)
Definition changes (d : disk) (workflowOperationId : string) (machine : WorkflowOperation -> result transition_error WorkflowOperation)
    (record : jsval) (input : TransactionInput) : Prop :=
  exists history current others events reader content,
    readOperationHistory deps workflowOperationId d = Ok history /\ last history = Some current /\
    machine (operation_of current) = Ok (operation_of record) /\ json_literals record = true /\
    validateSchema workflow_operation record = true /\ document record = Ok content /\
    input = transaction deps workflowOperationId (field_text current "attempt_id")
      (Artifact (operationRecordArtifactPath workflowOperationId (Z.of_nat (S (length history))) (state_of record)) content :: others) events reader /\
    Forall (elsewhere workflowOperationId) others.

Lemma changes_adds d workflowOperationId machine record input history : changes d workflowOperationId machine record input ->
  identifier_ok workflowOperationId = true -> readOperationHistory deps workflowOperationId d = Ok history ->
  exists content, adds_record input workflowOperationId (Z.of_nat (S (length history))) record content.
Proof.
  intros (history' & current & others & events & reader & content & Hh & _ & _ & Hl & Hv & Hdoc & -> & Ho) Hid Hh'. assert (history' = history) as -> by congruence.
  exists content. constructor; [done|left| |done|done|by eapply document_distinct|done]. cbn [transaction ti_artifacts].
  intros a [->|Ha]%elem_of_cons Hp; [done|]. rewrite Forall_forall in Ho. by apply Ho in Ha.
Qed.

Lemma requireOperation_Ok workflowOperationId d current : requireOperation deps workflowOperationId d = Ok current ->
  exists history, readOperationHistory deps workflowOperationId d = Ok history /\ last history = Some current.
Proof.
  unfold requireOperation, readCurrentOperation. intros (o & (history & Hh & [= <-])%bind_Ok & Hf)%bind_Ok. exists history.
  split; [done|]. unfold find_record in Hf. destruct (last history); congruence.
Qed.

Lemma operationArtifact_Ok record workflowOperationId sequence state artifact :
  operationArtifact record workflowOperationId sequence state = Ok artifact ->
  exists content, document record = Ok content /\ artifact = Artifact (operationRecordArtifactPath workflowOperationId sequence state) content.
Proof. unfold operationArtifact. intros (content & Hd & [= <-])%bind_Ok. by exists content. Qed.

Lemma built_state record state resumeState : operation_of record = StateMachine.buildOperationRecord state resumeState -> state_of record = state.
Proof. intros E. exact (f_equal wo_state E). Qed.

Lemma prepare_advance_changes workflowOperationId to d record input : prepare_advance deps workflowOperationId to d = Ok (record, input) ->
  changes d workflowOperationId (fun o => StateMachine.advance o to) record input.
Proof.
  unfold prepare_advance. intros (current & (history & Hh & Hc)%requireOperation_Ok & Hp)%bind_Ok. apply bind_Ok in Hp as (u & Hb%reject_if_Ok & Hp).
  apply bind_Ok in Hp as (u' & Ht%map_err_Ok & Hp). apply bind_Ok in Hp as (history' & Hh' & Hp). assert (history' = history) as -> by congruence.
  apply bind_Ok in Hp as (operation & (Ho & Hl & Hv)%next_record_Ok & Hp). apply bind_Ok in Hp as (events & _ & Hp).
  apply bind_Ok in Hp as (artifact & (content & Hdoc & ->)%operationArtifact_Ok & [= <- <-]).
  exists history, current, [], events, None, content. split_and!; try done.
  - unfold StateMachine.advance. rewrite Hb. unfold operation_of at 1. cbn [wo_state]. rewrite Ht. cbn [mbind result_bind]. by rewrite Ho.
  - by rewrite (built_state _ _ _ Ho).
Qed.

Lemma prepare_abort_changes workflowOperationId i d record input : prepare_abort deps workflowOperationId i d = Ok (record, input) ->
  changes d workflowOperationId (fun o => StateMachine.abort o (ao_reason i)) record input.
Proof.
  unfold prepare_abort. intros (current & (history & Hh & Hc)%requireOperation_Ok & Hp)%bind_Ok.
  apply bind_Ok in Hp as (target & Ht%map_err_Ok & Hp). apply bind_Ok in Hp as (history' & Hh' & Hp). assert (history' = history) as -> by congruence.
  apply bind_Ok in Hp as (operation & (Ho & Hl & Hv)%next_record_Ok & Hp). apply bind_Ok in Hp as (sequence & _ & Hp).
  apply bind_Ok in Hp as (completed & _ & Hp). apply bind_Ok in Hp as (artifact & (content & Hdoc & ->)%operationArtifact_Ok & [= <- <-]).
  exists history, current, [], [completed], None, content. split_and!; try done.
  - unfold StateMachine.abort. unfold operation_of at 1. cbn [wo_state]. rewrite Ht. cbn [mbind result_bind]. by rewrite Ho.
  - by rewrite (built_state _ _ _ Ho).
Qed.

Lemma prepare_block_changes workflowOperationId i d record input : prepare_block deps workflowOperationId i d = Ok (record, input) ->
  Forall (elsewhere workflowOperationId) (bo_artifacts i) ->
  changes d workflowOperationId (fun o => StateMachine.block o (bo_reason i)) record input.
Proof.
  unfold prepare_block. intros (current & (history & Hh & Hc)%requireOperation_Ok & Hp)%bind_Ok Hx.
  apply bind_Ok in Hp as (target & Ht%map_err_Ok & Hp). apply bind_Ok in Hp as (base & _ & Hp). apply bind_Ok in Hp as (state & _ & Hp).
  apply bind_Ok in Hp as (history' & Hh' & Hp). assert (history' = history) as -> by congruence.
  apply bind_Ok in Hp as (operation & (Ho & Hl & Hv)%next_record_Ok & Hp). apply bind_Ok in Hp as (checkpoint & Hck & Hp).
  apply bind_Ok in Hp as (sequence & _ & Hp). apply bind_Ok in Hp as (committed & _ & Hp).
  apply bind_Ok in Hp as (artifact & (content & Hdoc & ->)%operationArtifact_Ok & [= <- <-]).
  exists history, current, (checkpoint.2 ++ bo_artifacts i), [committed], None, content. split_and!; try done.
  - unfold StateMachine.block. unfold operation_of at 1. cbn [wo_state]. rewrite Ht. cbn [mbind result_bind]. by rewrite Ho.
  - by rewrite (built_state _ _ _ Ho).
  - apply Forall_app. split; [by eapply checkpoint_elsewhere|done].
Qed.

(** ** Running a change *)

(** The digest of its record is new, and no stray file is a copy of what it
    writes. *)
Definition unseen (d : disk) (ops : list CommittedOperation) (workflowOperationId : string) (input : TransactionInput) : Prop :=
  no_twin d (operation_path workflowOperationId) (artifactDigestAllowlist ops workflowOperationId) (artifact_contents input) /\
  Forall (fun a => operation_path workflowOperationId `prefix_of` split_on "/" (ar_path a) ->
                   sha256 (ar_content a) ∉ artifactDigestAllowlist ops workflowOperationId) (ti_artifacts input).

Lemma run_change d ops workflowOperationId input record content history b : operation_log d ops workflowOperationId history ->
  adds_record input workflowOperationId (Z.of_nat (S (length history))) record content -> (Z.of_nat (length history) < 9999)%Z ->
  can_commit deps d ops input -> unseen d ops workflowOperationId input ->
  match commit (ledgerRepository deps) input d b with
  | (Done _, d', b') => (exists op, operation_log d' (ops ++ [op]) workflowOperationId (history ++ [canon record])) /\ (b = None -> b' = None)
  | (Threw _, _, _) => False
  | (Killed, d', _) => b <> None /\ (operation_log d' ops workflowOperationId history \/
      exists op, operation_log d' (ops ++ [op]) workflowOperationId (history ++ [canon record]))
  end.
Proof.
  intros Hlog Hadds Hlen [Hsha (digests & month & cx & rep & Hwf & Hcx & Hcan & Hus) Hnew] [Htwin Hfresh].
  pose proof (ol_id _ _ _ _ Hlog) as Hid. assert (1 <= Z.of_nat (S (length history)) <= 9999)%Z as Hn by lia.
  assert (sha256 content ∉ artifactDigestAllowlist ops workflowOperationId) as Hc.
  { rewrite Forall_forall in Hfresh. specialize (Hfresh _ (ad_record _ _ _ _ _ Hadds)). cbn [ar_path ar_content] in Hfresh. apply Hfresh.
    rewrite record_path by done. by eexists. }
  assert (forall m d', buildManifest (the_draft input digests (ledgerRepository deps) cx ops) = Ok m ->
            committed_disk input digests month d True m d' -> operation_log d' (ops ++ [new_operation input m]) workflowOperationId (history ++ [canon record])) as Hext.
  { intros m d' Hb Hd'. eapply (log_committed d ops workflowOperationId input _ record content); try done; [apply Hlog|by apply Hwf|].
    by eapply (committed_ledger Hsha input digests cx month ops rep). }
  pose proof (run_from Hsha input digests cx month ops rep Hwf Hcx Hnew (ledgerRepository deps) d b Hus Hcan) as Hrun.
  destruct (commit (ledgerRepository deps) input d b) as [[[r|e|] d'] b'].
  - destruct Hrun as (m & _ & Hb & Hd' & Hbn). split; [|done]. exists (new_operation input m). by apply Hext.
  - done.
  - destruct Hrun as [Hbn [Hi|(m & Hb & Hd')]]; (split; [done|]); [left|right; exists (new_operation input m); by apply Hext].
    eapply (log_kept d ops workflowOperationId input _ record content); try done; [apply Hlog| |apply Hlog].
    eapply proj1, kept_committable; [exact Hwf|exact Hnew|exact Hcan|exact Hi].
Qed.

(** A method of the engine that changes an operation. *)
Inductive engine_call : Type :=
| call_advance (to : OperationState)
| call_block (input : BlockOperationInput)
| call_abort (input : AbortOperationInput).

Definition prepare_call (workflowOperationId : string) (c : engine_call) : disk -> engining (jsval * TransactionInput) :=
  match c with
  | call_advance to => prepare_advance deps workflowOperationId to
  | call_block input => prepare_block deps workflowOperationId input
  | call_abort input => prepare_abort deps workflowOperationId input
  end.
Definition run_call (workflowOperationId : string) (c : engine_call) : engM jsval :=
  match c with
  | call_advance to => advance deps workflowOperationId to
  | call_block input => block deps workflowOperationId input
  | call_abort input => abort deps workflowOperationId input
  end.
Definition machine_step (c : engine_call) (o : WorkflowOperation) : result transition_error WorkflowOperation :=
  match c with
  | call_advance to => StateMachine.advance o to
  | call_block input => StateMachine.block o (bo_reason input)
  | call_abort input => StateMachine.abort o (ao_reason input)
  end.
(** Diagnostic artifacts a caller adds to a block are not operation records. *)
Definition call_elsewhere (workflowOperationId : string) (c : engine_call) : Prop :=
  match c with call_block input => Forall (elsewhere workflowOperationId) (bo_artifacts input) | _ => True end.

Lemma machine_step_op_step c o o' : machine_step c o = Ok o' -> op_step o o'.
Proof. destruct c; cbn; eauto with harness. Qed.

Lemma prepare_call_changes workflowOperationId c d record input : prepare_call workflowOperationId c d = Ok (record, input) ->
  call_elsewhere workflowOperationId c -> changes d workflowOperationId (machine_step c) record input.
Proof.
  destruct c; cbn [prepare_call call_elsewhere machine_step]; intros Hp Hx.
  - by apply prepare_advance_changes.
  - by apply prepare_block_changes.
  - by apply prepare_abort_changes.
Qed.

Lemma run_call_committing workflowOperationId c : run_call workflowOperationId c = committing deps (prepare_call workflowOperationId c).
Proof. by destruct c. Qed.

Lemma committing_Ok {A} (prepare : disk -> engining (A * TransactionInput)) d b a input : prepare d = Ok (a, input) ->
  committing deps prepare d b =
  match commit (ledgerRepository deps) input d b with
  | (Done _, d', b') => (Done (Ok a), d', b')
  | (Threw e, d', b') => (Done (Err (commit_failure e)), d', b')
  | (Killed, d', b') => (Killed, d', b')
  end.
Proof.
  intros Hp. unfold committing, looks, mbind, engM_bind. rewrite Hp. cbn [snd fst]. unfold commitWorkflowTransaction.
  by destruct (commit (ledgerRepository deps) input d b) as [[[r|e|] d'] b'].
Qed.

Lemma committing_Err {A} (prepare : disk -> engining (A * TransactionInput)) d b e : prepare d = Err e ->
  committing deps prepare d b = (Done (Err e), d, b).
Proof. intros Hp. unfold committing, looks, mbind, engM_bind. by rewrite Hp. Qed.

(** What the machine refuses the engine refuses, before it touches the disk. *)
Lemma refused workflowOperationId c d ops history current e : operation_log d ops workflowOperationId history ->
  readerVersion (ledgerRepository deps) = None -> last history = Some current -> machine_step c (operation_of current) = Err e ->
  prepare_call workflowOperationId c d = Err InvalidStateTransition.
Proof.
  intros Hlog Hv Hl Hm. assert (requireOperation deps workflowOperationId d = Ok current) as Hr.
  { unfold requireOperation, readCurrentOperation. rewrite (log_read _ _ _ _ _ Hlog Hv). cbn. by rewrite Hl. }
  destruct c as [to|i|i]; cbn [prepare_call machine_step] in *.
  - unfold prepare_advance. rewrite Hr. cbn [mbind result_bind]. unfold StateMachine.advance in Hm.
    destruct (bool_decide (to = OpBlocked) || bool_decide (to = OpAborted)); [done|]. cbn [reject_if mbind result_bind].
    unfold operation_of in Hm. cbn [wo_state] in Hm. destruct (assertOperationTransition (state_of current) to) as [[]|]; [done|]. done.
  - unfold prepare_block. rewrite Hr. cbn [mbind result_bind]. unfold StateMachine.block, operation_of in Hm. cbn [wo_state] in Hm.
    by destruct (blockTargetFor (state_of current) (bo_reason i)) as [t|].
  - unfold prepare_abort. rewrite Hr. cbn [mbind result_bind]. unfold StateMachine.abort, operation_of in Hm. cbn [wo_state] in Hm.
    by destruct (abortTargetFor (state_of current) (ao_reason i)) as [t|].
Qed.


(** ** Starting an operation *)

Lemma record_identifier record : validateSchema workflow_operation record = true ->
  identifier_ok (field_text record "workflow_operation_id") = true.
Proof.
  unfold validateSchema. intros [[Hs _]%andb_true_iff _]%andb_true_iff. cbn [SCHEMA_REGISTRY] in Hs. unfold WorkflowOperationSchema in Hs.
  apply andb_true_iff in Hs as [Hs _]. unfold operation_properties, persistedRecordProperties in Hs.
  assert (IdentifierSchema (plainRecordField record "workflow_operation_id") = true) as Hi by (eapply required_field; [exact Hs|]; set_solver).
  apply TString_Some in Hi as (t & Ht & Hok). unfold field_text. by rewrite Ht.
Qed.

Lemma prepare_start_adds i d record input : prepare_start deps i d = Ok (record, input) ->
  operation_of record = StateMachine.startOperation /\ identifier_ok (newId deps workflow_id 0) = true /\
  exists content, adds_record input (newId deps workflow_id 0) 1 record content.
Proof.
  unfold prepare_start. cbv zeta. intros (operation & [-> Hv]%validated_Ok & Hp)%bind_Ok. apply bind_Ok in Hp as (checkpoint & Hc & Hp).
  apply bind_Ok in Hp as (started & _ & Hp). apply bind_Ok in Hp as (committed & _ & Hp).
  apply bind_Ok in Hp as (artifact & (content & Hdoc & ->)%operationArtifact_Ok & [= <- <-]).
  pose proof (record_identifier _ Hv) as Hi. split_and!; [by rewrite operation_of_record|exact Hi|]. exists content.
  pose proof (checkpoint_elsewhere (newId deps workflow_id 0) _ _ _ _ _ Hc) as He.
  constructor; [done|left| |done|apply record_literals|by eapply document_distinct|done]. cbn [transaction ti_artifacts].
  intros a [->|Ha]%elem_of_cons Hp; [done|]. rewrite Forall_forall in He. by apply He in Ha.
Qed.

End log.

(** ** Histories *)

Section histories.
Context `{Hash} `{DateTime} `{Readdir} `{Crash}.

(** One call on the operation, by some process, killed or not. *)
Inductive operation_step (workflowOperationId : string) (d d' : disk) : Prop :=
| step_call deps c ops history record input b o b' :
    operation_log d ops workflowOperationId history -> readerVersion (ledgerRepository deps) = None ->
    prepare_call deps workflowOperationId c d = Ok (record, input) -> call_elsewhere workflowOperationId c ->
    (Z.of_nat (length history) < 9999)%Z -> can_commit deps d ops input -> unseen d ops workflowOperationId input ->
    run_call deps workflowOperationId c d b = (o, d', b') -> operation_step workflowOperationId d d'.

(** Every record follows from the one before by a step of the machine. *)
Fixpoint legal_from (o : WorkflowOperation) (history : list jsval) : Prop :=
  match history with
  | [] => True
  | record :: history' => op_step o (operation_of record) /\ legal_from (operation_of record) history'
  end.

Lemma legal_snoc history : forall o record, legal_from o history ->
  op_step (default o (operation_of <$> last history)) (operation_of record) -> legal_from o (history ++ [record]).
Proof.
  induction history as [|r history IH]; intros o record Hl Hs; [done|]. destruct Hl as [Hr Hl]. split; [done|]. apply IH; [done|].
  rewrite last_cons in Hs. by destruct (last history).
Qed.

Lemma legal_reachable history : forall o, legal_from o history -> rtc op_step o (default o (operation_of <$> last history)).
Proof.
  induction history as [|r history IH]; intros o Hl; [apply rtc_refl|]. destruct Hl as [Hr Hl]. eapply rtc_l; [exact Hr|].
  specialize (IH _ Hl). rewrite last_cons. by destruct (last history).
Qed.

Lemma step_log workflowOperationId d d' ops history current : operation_step workflowOperationId d d' ->
  operation_log d ops workflowOperationId history -> last history = Some current ->
  exists ops', operation_log d' ops' workflowOperationId history \/
    exists record, op_step (operation_of current) (operation_of record) /\ operation_log d' ops' workflowOperationId (history ++ [record]).
Proof.
  intros [deps c ops0 history0 record input b o b' Hlog0 Hv Hp Hx Hlen Hcan Hun Hrun] Hlog Hlast.
  pose proof (log_read deps _ _ _ _ Hlog0 Hv) as Hr0. pose proof (log_read deps _ _ _ _ Hlog Hv) as Hr.
  assert (history0 = history) as -> by congruence.
  pose proof (prepare_call_changes _ _ _ _ _ _ Hp Hx) as Hch.
  destruct (changes_adds _ _ _ _ _ _ history Hch (ol_id _ _ _ _ Hlog0) Hr) as [content Hadds].
  assert (machine_step c (operation_of current) = Ok (operation_of record)) as Hm.
  { destruct Hch as (h & cur & ? & ? & ? & ? & Hh & Hl & Hm & _). congruence. }
  pose proof (run_change deps d ops0 workflowOperationId input record content history b Hlog0 Hadds Hlen Hcan Hun) as Hc.
  assert (op_step (operation_of current) (operation_of (canon record))) as Hs.
  { rewrite state_of_canon by apply Hadds. by eapply machine_step_op_step. }
  rewrite run_call_committing, (committing_Ok _ _ _ _ _ _ Hp) in Hrun.
  destruct (commit (ledgerRepository deps) input d b) as [[[r|e|] d''] b'']; [|done|]; injection Hrun as <- <- <-.
  - destruct Hc as [[op Hop] _]. exists (ops0 ++ [op]). right. by exists (canon record).
  - destruct Hc as [_ [Hop|[op Hop]]]; [exists ops0; by left|]. exists (ops0 ++ [op]). right. by exists (canon record).
Qed.

End histories.
