(* ===== verification/LedgerChecks.v ===== *)
(** * Deciding what the theorems on commits ask of a disk

    Boolean forms of the conditions [CrashSafety] and [WorkflowLedger] put on a
    transaction and on the disk it is committed to, for disks listed in the
    order of their map: the examples evaluate them. *)

From stdpp Require Import gmap.
From S2P Require Import Prelude Regex Json Locator StateMachine Lease JsonText Schema Transaction Store Repository Commit CrashSafety WorkingState Checkpoint Workflow Vouched WorkflowLedger.

#[local] Existing Instances map_listing empty_files toy_hash every_date.

(** ** Digests *)

Lemma hex_digit_lower n : (n < 16)%N -> is_hex_lower (hex_digit n) = true.
Proof.
  intros Hn. assert (forallb (fun k => is_hex_lower (hex_digit (N.of_nat k))) (seq 0 16) = true) as Ha by (vm_compute; reflexivity).
  rewrite forallb_forall in Ha. specialize (Ha (N.to_nat n)). rewrite N2Nat.id in Ha. apply Ha, in_seq. lia.
Qed.

Lemma hex_digits_lower k : forall n, re_match (RRep (RCls is_hex_lower) k) (hex_digits k n) = true.
Proof.
  induction k as [|k IH]; intros n; [done|]. rewrite re_match_spec. cbn [RRep hex_digits].
  change (String (hex_digit (n mod 16)) (hex_digits k (n / 16))) with (String (hex_digit (n mod 16)) "" +:+ hex_digits k (n / 16)).
  constructor; [|by apply re_match_spec]. constructor. apply hex_digit_lower. by apply N.mod_lt.
Qed.

Lemma toy_hash_hex s : re_match digest_regex (@sha256 toy_hash s) = true.
Proof. apply hex_digits_lower. Qed.

(** ** Transactions *)

Fixpoint increasing (l : list Z) : bool :=
  match l with x :: (y :: _) as l' => (x <? y)%Z && increasing l' | _ => true end.

Lemma increasing_sorted l : increasing l = true -> StronglySorted Z.lt l.
Proof.
  intros Hl. apply Sorted_StronglySorted; [exact Z.lt_trans|]. induction l as [|x [|y l] IH]; [constructor|by repeat constructor|].
  cbn in Hl. apply andb_true_iff in Hl as [Hxy Hl]. constructor; [by apply IH|]. constructor. lia.
Qed.

Definition well_formed_check (input : TransactionInput) (digests : InputDigests) (month : string) : bool :=
  forallb (fun a => bool_decide (resolveHarnessPath (ar_path a) = Ok (split_on "/" (ar_path a)))) (ti_artifacts input) &&
  legal_input input && bool_decide (validateTransaction input = []) &&
  forallb (fun u => forallb (fun v => match strip_path u v with Some (_ :: _) => false | _ => true end) (written input digests month))
    (written input digests month) &&
  bool_decide (NoDup (staged_names input)) && bool_decide (NoDup (map mv_to (moves input digests month))) &&
  forallb json_literals (ti_edges input) && forallb json_literals (ti_events input) &&
  increasing (map event_sequence (ti_events input)) && bool_decide (NoDup (map event_id (ti_events input))).

Lemma well_formed_checked input digests month : computeInputDigests input = Ok digests -> well_formed_check input digests month = true ->
  well_formed input digests month.
Proof.
  intros Hd Hc. unfold well_formed_check in Hc. rewrite !andb_true_iff in Hc.
  destruct Hc as (((((((((Hc & Hl) & Hv) & Hw) & Hs) & Ht) & He) & Hle) & Ho) & Hi). split; try done.
  - rewrite forallb_Forall in Hc. apply Forall_forall. intros a Ha. by apply (bool_decide_eq_true_1 _), Hc.
  - by eapply bool_decide_eq_true_1.
  - by apply no_clash_dec.
  - by eapply bool_decide_eq_true_1.
  - by eapply bool_decide_eq_true_1.
  - by apply forallb_Forall'.
  - by apply forallb_Forall'.
  - by apply increasing_sorted.
  - by eapply bool_decide_eq_true_1.
Qed.

(** ** Disks *)

Definition files_check (d : disk) (p : path -> string -> bool) : bool :=
  forallb (fun e => match e.2 with File c => p e.1 c | Directory => true end) (map_to_list d).

Lemma files_checked d p : files_check d p = true -> forall q c, d !! q = Some (File c) -> p q c = true.
Proof.
  unfold files_check. rewrite forallb_Forall. intros Hp q c Hq. apply elem_of_map_to_list in Hq. exact (Hp _ Hq).
Qed.

Definition ready_check (input : TransactionInput) (digests : InputDigests) (month : string) (d : disk) : bool :=
  forallb (fun m => bool_decide (d !! mv_to m = None)) (moves input digests month) &&
  files_check d (fun q _ => forallb (fun u => match strip_path q u with Some (_ :: _) => false | _ => true end) (written input digests month)) &&
  forallb (fun u => negb (bool_decide (d !! u = Some Directory)))
    (map (staged input) (moves input digests month) ++
     [temporary_of (ti_ledger_operation_id input); manifest_of (ti_ledger_operation_id input)]).

Lemma ready_checked input digests month d : ready_check input digests month d = true -> ready input digests month d.
Proof.
  intros Hc. unfold ready_check in Hc. apply andb_true_iff in Hc as [[Hm Hf]%andb_true_iff Hd]. split; [|split].
  - intros m Hin. left. rewrite forallb_Forall in Hm. by apply (bool_decide_eq_true_1 _), Hm.
  - intros u q c Hu _ (x & r & Hab) Hq. pose proof (files_checked _ _ Hf q c Hq) as Hu'. cbn beta in Hu'. rewrite forallb_Forall in Hu'.
    specialize (Hu' u Hu). apply strip_path_spec in Hab. cbn beta in Hu'. by rewrite Hab in Hu'.
  - intros u Hu. rewrite forallb_Forall in Hd. specialize (Hd u Hu). cbn beta in Hd. by apply negb_true_iff, bool_decide_eq_false in Hd.
Qed.

(** The operations the readers see. *)
Definition operations_of (d : disk) : list CommittedOperation :=
  match readCommittedOperations d PROTOCOL_1_4_VERSION with Ok ops => ops | Err _ => [] end.

Definition ledger_check (d : disk) : bool :=
  bool_decide (d !! OPERATIONS = Some Directory) &&
  (match readCommittedOperations d PROTOCOL_1_4_VERSION with Ok _ => true | Err _ => false end) &&
  bool_decide (NoDup (sequences (operations_of d))).

Lemma ledger_checked d : ledger_check d = true -> ledger d (operations_of d).
Proof.
  unfold ledger_check, operations_of. intros [[Hd Hr]%andb_true_iff Hn]%andb_true_iff. split_and!; [by eapply bool_decide_eq_true_1| |].
  - by destruct (readCommittedOperations d PROTOCOL_1_4_VERSION).
  - by eapply bool_decide_eq_true_1.
Qed.

Definition commit_check (options : LedgerRepositoryOptions) (d : disk) (input : TransactionInput) : bool :=
  match computeInputDigests input, newContext options (ti_ledger_operation_id input), shardMonthFor (now_context options),
        replayLedger d PROTOCOL_1_4_VERSION with
  | Ok digests, Ok cx, Ok month, Ok rep =>
      well_formed_check input digests month && ledger_check d &&
      files_check d (fun q _ => negb (under (staging_of (ti_ledger_operation_id input)) q) || bool_decide (q ∈ staged_names input)) &&
      ready_check input digests month d && bool_decide (readerVersion options = None) &&
      bool_decide (readBaseline options = ti_expected_baseline input) &&
      forallb (fun op => negb (bool_decide (op_id (manifest op) = ti_ledger_operation_id input))) (operations_of d)
  | _, _, _, _ => false
  end.

(** The volume and the lock are functions and are given apart. *)
Lemma commit_checked deps d input : (forall p q, deviceOf (ledgerRepository deps) p = deviceOf (ledgerRepository deps) q) ->
  waiting (ledgerRepository deps) = Some Datatypes.id -> commit_check (ledgerRepository deps) d input = true ->
  can_commit deps d (operations_of d) input.
Proof.
  intros Hvol Hwait Hc. unfold commit_check in Hc. destruct (computeInputDigests input) as [digests|] eqn:Hd; [|done].
  destruct (newContext _ _) as [cx|] eqn:Hcx; [|done]. destruct (shardMonthFor _) as [month|] eqn:Hm; [|done].
  destruct (replayLedger d _) as [rep|] eqn:Hrep; [|done]. rewrite !andb_true_iff in Hc. destruct Hc as ((((((Hw & Hl) & Hf) & Hready) & Hr) & Hb) & Hn).
  destruct (context_of _ _ _ Hcx) as (month' & Hm' & _ & Hco & _). assert (month' = month) as -> by congruence.
  constructor; [exact toy_hash_hex| |].
  - exists digests, month, cx, rep. split_and!; [by apply well_formed_checked|done| |].
    + split_and!; [by apply ledger_checked| |by apply ready_checked|done]. intros p c Hp Hu.
      pose proof (files_checked _ _ Hf p c Hp) as Hq. cbn beta in Hq. apply orb_true_iff in Hq as [Hq|Hq]; [|by eapply bool_decide_eq_true_1].
      apply negb_true_iff in Hq. apply under_spec in Hu. congruence.
    + split; try done; by eapply bool_decide_eq_true_1.
  - apply Forall_forall. intros op Hop. rewrite forallb_Forall in Hn. specialize (Hn op Hop). cbn beta in Hn.
    by apply negb_true_iff, bool_decide_eq_false in Hn.
Qed.

(** ** Logs *)

Fixpoint read_log (n : Z) (files : list (string * string)) : option (list jsval) :=
  match files with
  | [] => Some []
  | file :: files' =>
      match JSON_parse file.2 with
      | Some record =>
          if bool_decide (file.1 = operation_record_name n (state_of record)) && validateSchema workflow_operation record
          then option_map (cons record) (read_log (n + 1) files') else None
      | None => None
      end
  end.

Lemma read_log_from files : forall n history, read_log n files = Some history -> log_from n files history.
Proof.
  induction files as [|file files IH]; intros n history Hr; cbn in Hr; [injection Hr as <-; constructor|].
  destruct (JSON_parse file.2) as [record|] eqn:Hp; [|done]. destruct (bool_decide _ && _) eqn:E; [|done]. apply andb_true_iff in E as [Hn Hv].
  destruct (read_log (n + 1) files) as [rest|] eqn:Hrest; [|done]. injection Hr as <-. constructor; [|by apply IH].
  split_and!; [by eapply bool_decide_eq_true_1|done..].
Qed.

Definition plain_check (d : disk) (directory : path) : bool :=
  forallb (fun e => match strip_path directory e.1 with
                    | Some [name] => negb (ends_with ".json" name) ||
                        ((match e.2 with File _ => true | Directory => false end) && no_char "/" name && no_char (ascii_of_N 0) name &&
                         no_char "\" name && negb (mem name [""; "."; ".."]))
                    | _ => true
                    end) (map_to_list d).

Lemma plain_checked d directory name e : plain_check d directory = true -> json_name name -> d !! (directory ++ [name]) = Some e ->
  e <> Directory /\ plain_segment name.
Proof.
  unfold plain_check. rewrite forallb_Forall. intros Hc Hj He. apply elem_of_map_to_list in He. specialize (Hc _ He). cbn in Hc.
  rewrite (proj2 (strip_path_spec directory (directory ++ [name]) [name]) eq_refl) in Hc. unfold json_name in Hj. rewrite Hj in Hc. cbn [negb orb] in Hc.
  rewrite !andb_true_iff in Hc. destruct Hc as ((((Hf & H1) & H2) & H3) & H4). destruct e; [|done]. split; [done|].
  split_and!; try done. by apply negb_true_iff.
Qed.

Definition history_of (d : disk) (workflowOperationId : string) : list jsval :=
  default [] (read_log 1 (vouched d (operation_path workflowOperationId) (artifactDigestAllowlist (operations_of d) workflowOperationId))).

Definition log_check (d : disk) (workflowOperationId : string) : bool :=
  identifier_ok workflowOperationId && ledger_check d && bool_decide (d !! operation_path workflowOperationId = Some Directory) &&
  plain_check d (operation_path workflowOperationId) &&
  (match read_log 1 (vouched d (operation_path workflowOperationId) (artifactDigestAllowlist (operations_of d) workflowOperationId)) with
   | Some _ => true | None => false end).

Lemma log_checked d workflowOperationId : log_check d workflowOperationId = true ->
  operation_log d (operations_of d) workflowOperationId (history_of d workflowOperationId).
Proof.
  unfold log_check, history_of. intros Hc. rewrite !andb_true_iff in Hc. destruct Hc as ((((Hi & Hl) & Hd) & Hp) & Hr). constructor; [done|by apply ledger_checked|by eapply bool_decide_eq_true_1|].
  constructor.
  - intros name Hj Hdir. by eapply plain_checked in Hdir as [? _].
  - intros name Hj [e He]. by eapply plain_checked in He as [_ ?].
  - apply read_log_from. by destruct (read_log 1 _).
Qed.

Definition unseen_check (d : disk) (workflowOperationId : string) (input : TransactionInput) : bool :=
  let allowed := artifactDigestAllowlist (operations_of d) workflowOperationId in
  files_check d (fun q c => negb (under (operation_path workflowOperationId) q) || negb (mem (sha256 c) (map sha256 (artifact_contents input))) ||
                            mem (sha256 c) allowed) &&
  forallb (fun a => negb (mem (sha256 (ar_content a)) allowed)) (ti_artifacts input).

Lemma unseen_checked d workflowOperationId input : unseen_check d workflowOperationId input = true ->
  unseen d (operations_of d) workflowOperationId input.
Proof.
  unfold unseen_check. intros [Hf Ha]%andb_true_iff. split.
  - intros name c _ Hp Hin. pose proof (files_checked _ _ Hf _ _ Hp) as Hc. cbn beta in Hc. apply orb_true_iff in Hc as [Hc|Hc]; [|by apply mem_spec].
    apply orb_true_iff in Hc as [Hc|Hc]; apply negb_true_iff in Hc.
    + assert (under (operation_path workflowOperationId) (operation_path workflowOperationId ++ [name]) = true) as Hu by (apply under_spec; by eexists). congruence.
    + apply mem_false in Hc. by destruct Hc.
  - apply Forall_forall. intros a Hin _. rewrite forallb_Forall in Ha. specialize (Ha a Hin). cbn beta in Ha. by apply negb_true_iff, mem_false in Ha.
Qed.
