(* ===== verification/WorkflowRefinement.v ===== *)
(** * The engine refines the machine

    The theorems on [WorkflowEngine], each with a run of the executable model on
    a new ledger: what the ledger holds of an operation is a run of
    [StateMachine], as long as no two calls on it overlap. The last section
    shows what happens when they do. *)

From stdpp Require Import gmap.
From S2P Require Import Prelude Regex Json Locator StateMachine Lease JsonText Blockers WorkingState Schema Transaction Store Repository Commit CrashSafety Checkpoint Workflow Vouched WorkflowLedger LedgerChecks.

Section refinement.
Context `{Hash} `{DateTime} `{Readdir} `{Crash}.

(** The ledger holds one more operation, and the history of [workflowOperationId]
    one more record. *)
Definition recorded (d : disk) (ops : list CommittedOperation) (workflowOperationId : string) (history : list jsval) (record : jsval) : Prop :=
  exists op, operation_log d (ops ++ [op]) workflowOperationId (history ++ [canon record]).

Section calls.
Variable deps : WorkflowDependencies.

(** [startOperation], with ids no one has used, once it is prepared and nothing is
    in its way, opens the operation: its history is then the one record of a
    created operation. A process killed in it has opened it, or left no record. *)
Theorem start_opens_log i d ops record input b : ledger d ops -> prepare_start deps i d = Ok (record, input) ->
  (forall name, d !! (operation_path (newId deps workflow_id 0) ++ [name]) = None) -> readerVersion (ledgerRepository deps) = None ->
  can_commit deps d ops input ->
  operation_of record = StateMachine.startOperation /\
  match startOperation deps i d b with
  | (Done r, d', b') => r = Ok record /\ (b = None -> b' = None) /\
      readOperationHistory deps (newId deps workflow_id 0) d' = Ok [canon record] /\
      recorded d' ops (newId deps workflow_id 0) [] record
  | (Killed, d', _) => ledger d' ops \/ recorded d' ops (newId deps workflow_id 0) [] record
  | (Threw _, _, _) => False
  end.
Proof.
  intros Hl Hp Hnone Hv [Hsha (digests & month & cx & rep & Hwf & Hcx & Hcan & Hus) Hnew].
  destruct (prepare_start_adds deps _ _ _ _ Hp) as (Hs & Hid & content & Hadds). split; [done|]. unfold startOperation. rewrite (committing_Ok deps _ _ _ _ _ Hp).
  assert (log_files d ops (newId deps workflow_id 0) []) as Hfiles.
  { constructor.
    - intros name _. by rewrite Hnone.
    - intros name _ Hsome. rewrite Hnone in Hsome. by destruct Hsome.
    - rewrite (vouched_is _ _ _ []); [constructor|constructor|]. intros name c. rewrite Hnone. split; [by intros ?%elem_of_nil|by intros (_ & ? & _)]. }
  assert (no_twin d (operation_path (newId deps workflow_id 0)) (artifactDigestAllowlist ops (newId deps workflow_id 0)) (artifact_contents input)) as Ht.
  { intros name c _. by rewrite Hnone. }
  assert (forall m d', buildManifest (the_draft input digests (ledgerRepository deps) cx ops) = Ok m ->
            committed_disk input digests month d True m d' ->
            operation_log d' (ops ++ [new_operation input m]) (newId deps workflow_id 0) [canon record]) as Hext.
  { intros m d' Hb Hd'. eapply (log_committed d ops _ input 1 record content Hid Hadds ltac:(lia) []); try done; [by apply Hwf|].
    by eapply (committed_ledger Hsha input digests cx month ops rep). }
  pose proof (run_from Hsha input digests cx month ops rep Hwf Hcx Hnew (ledgerRepository deps) d b Hus Hcan) as Hrun.
  destruct (commit (ledgerRepository deps) input d b) as [[[r|e|] d'] b']; [|done|].
  - destruct Hrun as (m & _ & Hb & Hd' & Hbn). split_and!; [done|done|eapply log_read; [by apply Hext|done]|exists (new_operation input m); by apply Hext].
  - destruct Hrun as [_ [Hi|(m & Hb & Hd')]]; [left|right; exists (new_operation input m); by apply Hext].
    eapply proj1, kept_committable; [exact Hwf|exact Hnew|exact Hcan|exact Hi].
Qed.

(** C4. [advance], [block] and [abort] on the ledger do what the state machine
    says, one call on an operation after the other. A transition the machine
    refuses is refused with the disk untouched. One it allows, once its
    transaction is prepared, is committed: the history then read ends in a record
    with exactly the state and the resume state the machine asks for, and a
    process killed in it leaves the history as it was or with that record.
    Both parts take a ledger that holds the operation ([operation_log]) and readers
    of the newest version. What the second takes besides: fewer than 9999
    records, since their names sort by four digits; a call that gets as far as
    its commit ([prepare_call]); the conditions of [crash_recovery] on the transaction,
    the disk and the run ([can_commit]: a new ledger operation id, nothing staged
    under it or in the way of its files, records that can be replayed, the
    expected baseline, no other writer while it waits for the lock); artifacts
    given to [block] outside the directory of the operation ([call_elsewhere]);
    and a record whose bytes are new, in the manifests and as a stray file of
    the directory ([unseen]). [aborted_operation_advances] and
    [killed_advance_blocks] are what happens to a call that overlaps another,
    and after a kill that left its record in the way. *)
Theorem engine_refines_machine workflowOperationId c d ops history current b :
  operation_log d ops workflowOperationId history -> readerVersion (ledgerRepository deps) = None -> last history = Some current ->
  (forall e, machine_step c (operation_of current) = Err e ->
    run_call deps workflowOperationId c d b = (Done (Err InvalidStateTransition), d, b)) /\
  (forall next record input, machine_step c (operation_of current) = Ok next ->
    prepare_call deps workflowOperationId c d = Ok (record, input) -> call_elsewhere workflowOperationId c ->
    (Z.of_nat (length history) < 9999)%Z -> can_commit deps d ops input -> unseen d ops workflowOperationId input ->
    operation_of record = next /\
    match run_call deps workflowOperationId c d b with
    | (Done r, d', b') => r = Ok record /\ (b = None -> b' = None) /\
        readOperationHistory deps workflowOperationId d' = Ok (history ++ [canon record]) /\
        recorded d' ops workflowOperationId history record
    | (Killed, d', _) => operation_log d' ops workflowOperationId history \/ recorded d' ops workflowOperationId history record
    | (Threw _, _, _) => False
    end).
Proof.
  intros Hlog Hv Hl. rewrite run_call_committing. split.
  - intros e Hm. apply committing_Err. by eapply refused.
  - intros next record input Hm Hp Hx Hlen Hcan Hun. pose proof (prepare_call_changes deps _ _ _ _ _ Hp Hx) as Hch.
    assert (operation_of record = next) as Hnext.
    { destruct Hch as (h & cur & ? & ? & ? & ? & Hh & Hlast & Hmach & _). pose proof (log_read _ _ _ _ _ Hlog Hv). congruence. }
    split; [done|]. destruct (changes_adds deps _ _ _ _ _ history Hch (ol_id _ _ _ _ Hlog) (log_read _ _ _ _ _ Hlog Hv)) as [content Hadds].
    rewrite (committing_Ok deps _ _ _ _ _ Hp). pose proof (run_change deps d ops workflowOperationId input record content history b Hlog Hadds Hlen Hcan Hun) as Hrun.
    destruct (commit (ledgerRepository deps) input d b) as [[[r|x|] d'] b']; [|done|by destruct Hrun].
    destruct Hrun as [[op Hop] Hb]. split_and!; [done|done|by eapply log_read|by exists op].
Qed.
End calls.

(** However many calls change an operation, and however many of them are killed,
    the history read from the ledger is a run of the state machine from a
    created operation, and what was in it stays in it. *)
Theorem operation_history_legal workflowOperationId d d' ops record deps : rtc (operation_step workflowOperationId) d d' ->
  operation_log d ops workflowOperationId [record] -> operation_of record = StateMachine.startOperation ->
  readerVersion (ledgerRepository deps) = None ->
  exists history, readOperationHistory deps workflowOperationId d' = Ok (record :: history) /\
    legal_from StateMachine.startOperation history /\
    op_reachable (default StateMachine.startOperation (operation_of <$> last history)).
Proof.
  intros Hsteps Hlog Hstart Hv.
  assert (exists ops' history, operation_log d' ops' workflowOperationId (record :: history) /\ legal_from StateMachine.startOperation history) as
    (ops' & history & Hlog' & Hlegal).
  { assert (exists ops' history, operation_log d ops' workflowOperationId (record :: history) /\ legal_from StateMachine.startOperation history) as Hd
      by (by exists ops, []). clear Hlog ops. induction Hsteps as [d|d d1 d' Hstep _ IH]; [done|]. apply IH. clear IH.
    destruct Hd as (ops & history & Hlog & Hlegal).
    destruct (step_log workflowOperationId d d1 ops (record :: history) (default record (last history)) Hstep Hlog) as (ops' & [Hl|(r & Hs & Hl)]).
    - by destruct history as [|r history] using rev_ind; [|rewrite app_comm_cons, !last_snoc].
    - by exists ops', history.
    - exists ops', (history ++ [r]). split; [done|]. apply legal_snoc; [done|]. rewrite <- Hstart. by destruct (last history). }
  exists history. split_and!; [by eapply log_read|done|by apply legal_reachable].
Qed.
End refinement.

(* ------------------------------------------------------------------ *)
(** ** Examples *)

#[local] Existing Instances map_listing empty_files toy_hash every_date.

Definition sample_id (kind : WorkflowIdKind) : string :=
  match kind with
  | workflow_id => "wf_" | attempt_id => "att_" | checkpoint_id_kind => "cp_" | run_id_kind => "run_" | event_id_kind => "ev_"
  | ledger_id => "op_" | edge_id => "edge_"
  end.
Definition sample_time (day : string) : string := "2026-01-0" +:+ day +:+ "T00:00:00Z".

(** The dependencies of a call on a day, with what other processes do while it
    waits for the lock. *)
Definition deps_while (day : string) (others : disk -> disk) : WorkflowDependencies :=
  {| newId := fun kind n => sample_id kind +:+ day +:+ dec (Z.of_nat n); now := sample_time day; expectedBaseline := "abcdef0";
     ledgerRepository := {| readBaseline := "abcdef0"; now_context := sample_time day; now_commit := sample_time day;
                            deviceOf := fun _ => 0%Z; readerVersion := None; waiting := Some others |} |}.
Definition deps_on (day : string) : WorkflowDependencies := deps_while day Datatypes.id.

Definition sample_start : StartOperationInput :=
  {| so_projectId := "prj_1"; so_iterationId := "it_1"; so_goal := "goal"; so_baselineCommit := "abcdef0";
     so_requirementBaselineDigest := hex_line "a"; so_policyDigest := hex_line "b"; so_phase := "plan"; so_pendingTaskIds := [];
     so_inputDigests := []; so_capabilityGrants := []; so_budgetCeiling := (10, 10)%Z |}.

Definition disk_of {A} (run : outcome A * disk * option nat) : disk := run.1.2.
(** The operation [wf_10] on the ledger, and after its first advance. *)
Definition opened : disk := disk_of (startOperation (deps_on "1") sample_start new_ledger None).
Definition advanced : disk := disk_of (run_call (deps_on "2") "wf_10" (call_advance OpAwaitingInput) opened None).
Definition states_read (d : disk) : engining (list OperationState) :=
  history ← readOperationHistory (deps_on "9") "wf_10" d; Ok (map state_of history).

Definition prepared {A} (m : engining (A * TransactionInput)) (default : A * TransactionInput) : A * TransactionInput :=
  match m with Ok p => p | Err _ => default end.
Definition no_input : jsval * TransactionInput :=
  (JUndefined, {| ti_ledger_operation_id := ""; ti_workflow_operation_id := ""; ti_attempt_id := ""; ti_expected_baseline := "";
                  ti_artifacts := []; ti_edges := []; ti_events := []; ti_required_reader_version := None |}).
Definition started : jsval * TransactionInput := prepared (prepare_start (deps_on "1") sample_start new_ledger) no_input.
Definition next_advance : jsval * TransactionInput := prepared (prepare_advance (deps_on "2") "wf_10" OpAwaitingInput opened) no_input.

Lemma sample_no_record name : new_ledger !! (operation_path "wf_10" ++ [name]) = None.
Proof. unfold new_ledger. by rewrite lookup_insert_ne, lookup_singleton_ne. Qed.

Lemma started_can_commit : can_commit (deps_on "1") new_ledger [] started.2.
Proof. apply (commit_checked (deps_on "1") new_ledger); [done|done|vm_compute; reflexivity]. Qed.

Lemma opened_log : operation_log opened (operations_of opened) "wf_10" (history_of opened "wf_10").
Proof. apply log_checked. vm_compute. reflexivity. Qed.

Lemma advance_can_commit : can_commit (deps_on "2") opened (operations_of opened) next_advance.2.
Proof. apply commit_checked; [done|done|vm_compute; reflexivity]. Qed.

Lemma advance_unseen : unseen opened (operations_of opened) "wf_10" next_advance.2.
Proof. apply unseen_checked. vm_compute. reflexivity. Qed.

Lemma opened_last : last (history_of opened "wf_10") = Some (canon started.1).
Proof. vm_compute. reflexivity. Qed.

Lemma opened_short : (Z.of_nat (length (history_of opened "wf_10")) < 9999)%Z.
Proof. vm_compute. reflexivity. Qed.

Lemma opened_advances : machine_step (call_advance OpAwaitingInput) (operation_of (canon started.1)) =
  Ok {| wo_state := OpAwaitingInput; wo_resume_state := None |}.
Proof. vm_compute. reflexivity. Qed.

Lemma advance_prepared : prepare_call (deps_on "2") "wf_10" (call_advance OpAwaitingInput) opened = Ok (next_advance.1, next_advance.2).
Proof. vm_compute. reflexivity. Qed.

#[local] Opaque opened started next_advance history_of operations_of run_call prepare_call machine_step.

Lemma start_opens_log_witness : operation_of started.1 = StateMachine.startOperation /\
  match startOperation (deps_on "1") sample_start new_ledger None with
  | (Done r, d', b') => r = Ok started.1 /\ (@None nat = None -> b' = None) /\
      readOperationHistory (deps_on "1") "wf_10" d' = Ok [canon started.1] /\
      recorded d' [] "wf_10" [] started.1
  | (Killed, d', _) => ledger d' [] \/ recorded d' [] "wf_10" [] started.1
  | (Threw _, _, _) => False
  end.
Proof.
  apply (start_opens_log (deps_on "1") sample_start new_ledger [] started.1 started.2).
  - apply (ledger_checked new_ledger). vm_compute. reflexivity.
  - vm_compute. reflexivity.
  - exact sample_no_record.
  - reflexivity.
  - exact started_can_commit.
Defined.

Lemma engine_refines_machine_witness :
  match run_call (deps_on "2") "wf_10" (call_advance OpAwaitingInput) opened None with
  | (Done r, d', b') => r = Ok next_advance.1 /\ (@None nat = None -> b' = None) /\
      readOperationHistory (deps_on "2") "wf_10" d' = Ok (history_of opened "wf_10" ++ [canon next_advance.1]) /\
      recorded d' (operations_of opened) "wf_10" (history_of opened "wf_10") next_advance.1
  | (Killed, d', _) => operation_log d' (operations_of opened) "wf_10" (history_of opened "wf_10") \/
      recorded d' (operations_of opened) "wf_10" (history_of opened "wf_10") next_advance.1
  | (Threw _, _, _) => False
  end.
Proof.
  destruct (engine_refines_machine (deps_on "2") "wf_10" (call_advance OpAwaitingInput) opened (operations_of opened)
    (history_of opened "wf_10") (canon started.1) None opened_log eq_refl opened_last) as [_ Hallowed].
  destruct (Hallowed _ _ _ opened_advances advance_prepared I opened_short advance_can_commit advance_unseen) as [_ Hrun].
  exact Hrun.
Defined.

Lemma operation_history_legal_witness : exists history, readOperationHistory (deps_on "9") "wf_10" advanced = Ok (canon started.1 :: history) /\
  legal_from StateMachine.startOperation history /\
  op_reachable (default StateMachine.startOperation (operation_of <$> last history)).
Proof.
  assert (history_of opened "wf_10" = [canon started.1]) as Hh by (vm_compute; reflexivity).
  apply (operation_history_legal "wf_10" opened advanced (operations_of opened)).
  - apply rtc_once. destruct (run_call (deps_on "2") "wf_10" (call_advance OpAwaitingInput) opened None) as [[o d'] b'] eqn:Hrun.
    assert (advanced = d') as -> by (unfold advanced; by rewrite Hrun).
    eapply (step_call "wf_10" opened d' (deps_on "2") (call_advance OpAwaitingInput) _ _ next_advance.1 next_advance.2 None o b');
      [exact opened_log|reflexivity|vm_compute; reflexivity|exact I|rewrite Hh; vm_compute; reflexivity|exact advance_can_commit|exact advance_unseen|exact Hrun].
  - rewrite <- Hh. exact opened_log.
  - vm_compute. reflexivity.
  - reflexivity.
Defined.

(** ** Calls that overlap *)

Definition stop : AbortOperationInput := {| ao_reason := user_cancellation; ao_detail := "stop" |}.

(** An advance that read the operation before another process aborted it, and
    then got the lock. *)
Definition late_advance := advance (deps_while "3" (fun d => disk_of (abort (deps_on "2") "wf_10" stop d None))) "wf_10" OpPlanned opened None.

(** The methods read the operation before they have the lock, and the commit
    does not read it again: an advance that overlaps an abort is committed
    after it, under the same number, and the aborted operation is planned. *)
Theorem aborted_operation_advances :
  (exists record, late_advance.1.1 = Done (Ok record)) /\ states_read (disk_of late_advance) = Ok [OpCreated; OpAborted; OpPlanned] /\
  forall o o', wo_state o = OpAborted -> wo_state o' = OpPlanned -> ~ op_step o o'.
Proof.
  split_and!; [eexists; vm_compute; reflexivity|vm_compute; reflexivity|]. intros o o' Ho Ho' Hs.
  destruct Hs as [o to o' Hs|o r o' Hs|o r o' Hs|o o' Hs].
  - apply advance_Ok in Hs as (Hs & _). unfold canTransitionOperation, isTerminalOperationState in Hs. rewrite Ho in Hs. by rewrite orb_true_r in Hs.
  - apply block_Ok in Hs as (_ & ->). done.
  - apply abort_Ok in Hs as (_ & ->). done.
  - apply resume_Ok in Hs as (r & Hb & _). congruence.
Qed.

(** What an advance leaves that is killed when its record is in place and its
    manifest is not. *)
Definition half_advanced : disk := disk_of (advance (deps_on "2") "wf_10" OpAwaitingInput opened (Some 8)).

(** An operation whose advance was killed at that point cannot make that advance
    again: the record of the new attempt has another time, the name is taken
    and the commit refuses it. Giving the staging directory up does not help. *)
Theorem killed_advance_blocks :
  states_read half_advanced = Ok [OpCreated] /\
  (advance (deps_on "3") "wf_10" OpAwaitingInput half_advanced None).1.1 = Done (Err (WorkflowError ledger_failure)) /\
  (advance (deps_on "3") "wf_10" OpAwaitingInput (disk_of (discardStaging "op_20" half_advanced None)) None).1.1 =
    Done (Err (WorkflowError ledger_failure)).
Proof. split_and!; vm_compute; reflexivity. Qed.
