(* ===== verification/TddPatch.v ===== *)
(** * Test patches of the TDD cycle

    [packages/runtime/src/tdd/patch.ts]: the classification of a path by the path
    policy of a contract, the check of a test-authoring patch, the digest of a
    patch, and the attestation of a write set. *)

From S2P Require Import Prelude Regex Locator Json Task Policy Grant Tdd.

(** ** Paths *)

Inductive TddPathScope : Type := scope_test | scope_test_config | scope_production | scope_immutable.
#[export] Instance TddPathScope_eq_dec : EqDecision TddPathScope.
Proof. solve_decision. Defined.

(** [(?:^|\/)[^/]*\.(?:test|spec)\.[a-z0-9]+$], anywhere in the path. *)
Definition COLOCATED_TEST_PATTERN : re :=
  RCat (ROpt (RCat (RStar (RCls (fun _ => true))) (RChr "/")))
    (RCat (RStar (RCls (fun a => negb (bool_decide (a = "/"%char)))))
      (RCat (RChr ".") (RCat (RAlt (RLit "test") (RLit "spec"))
        (RCat (RChr ".") (RPlus (RCls (fun a => is_lower a || is_digit a))))))).

Definition scopePrefixes (scopes : list string) : list string := map without_glob scopes.

Definition within (scopes : list string) (path : string) : bool := isPathWithinScopes (scopePrefixes scopes) path.

Definition classifyPath (path : string) (policy : TddPathPolicy) : option TddPathScope :=
  normalized ← tryNormalizeRepoRelativePath path;
  if within (pp_immutable policy) normalized then Some scope_immutable
  else if within (pp_test_config policy) normalized then Some scope_test_config
  else if within (pp_test policy) normalized then Some scope_test
  else if re_match COLOCATED_TEST_PATTERN normalized then Some scope_test
  else if within (pp_production policy) normalized then Some scope_production
  else None.

(** ** The check of a patch *)

Inductive TddPatchIssueCode : Type := production_write | immutable_write | unclassified_path | path_escape.
#[export] Instance TddPatchIssueCode_eq_dec : EqDecision TddPatchIssueCode.
Proof. solve_decision. Defined.

Definition patch_code_text (c : TddPatchIssueCode) : string :=
  match c with
  | production_write => "production_write" | immutable_write => "immutable_write"
  | unclassified_path => "unclassified_path" | path_escape => "path_escape"
  end.

Record TddPatchIssue : Type := PatchIssue { pi_code : TddPatchIssueCode; pi_path : string }.
Record PatchFile : Type := MkFile { pf_path : string; pf_content : string }.
#[export] Instance PatchFile_eq_dec : EqDecision PatchFile.
Proof. solve_decision. Defined.

Definition file_issue (policy : TddPathPolicy) (file : PatchFile) : option TddPatchIssue :=
  match tryNormalizeRepoRelativePath (pf_path file) with
  | None => Some (PatchIssue path_escape (pf_path file))
  | Some _ =>
      match classifyPath (pf_path file) policy with
      | Some scope_immutable => Some (PatchIssue immutable_write (pf_path file))
      | Some scope_production => Some (PatchIssue production_write (pf_path file))
      | None => Some (PatchIssue unclassified_path (pf_path file))
      | Some _ => None
      end
  end.

Definition validateTestAuthoringPatch `{Collation} (files : list PatchFile) (policy : TddPathPolicy) : list TddPatchIssue :=
  js_sort (fun left right => localeCompare (patch_code_text (pi_code left)) (patch_code_text (pi_code right)))
    (omap (file_issue policy) files).

(** ** The digest of a patch *)

Section digest.
Context `{Hash}.

(** [{ path, content_digest }] *)
Record PatchEntry : Type := Entry { pe_path : string; pe_digest : string }.

Definition entry_json (e : PatchEntry) : jsval := JObj [("path", JStr (pe_path e)); ("content_digest", JStr (pe_digest e))].

Definition patch_entry (file : PatchFile) : result canonical_error PatchEntry :=
  d ← contentDigest (JStr (pf_content file));
  Ok (Entry (default (pf_path file) (tryNormalizeRepoRelativePath (pf_path file))) d).

Record CanonicalPatch : Type := Patch { cp_files : list PatchEntry; patch_digest : string }.

Definition by_path (left right : PatchEntry) : Z := str_cmp (pe_path left) (pe_path right).

Definition canonicalTestPatch (files : list PatchFile) : result canonical_error CanonicalPatch :=
  entries ← mapM patch_entry files;
  let normalized := js_sort by_path entries in
  d ← contentDigest (JArr (map entry_json normalized));
  Ok (Patch normalized d).
End digest.

(** ** Attestation *)

Definition attestWriteSet (observedPaths grantedWriteScopes : list string) : list string :=
  sort_strings (List.filter (fun path => negb (within grantedWriteScopes path)) observedPaths).

(* ------------------------------------------------------------------ *)
(** ** Laws *)

Example colocated : map (re_match COLOCATED_TEST_PATTERN) ["src/a.test.ts"; "a.spec.js"; "src/test.ts"; "src/.test.ts"; "a.test.ts/b"] =
  [true; true; false; true; false].
Proof. vm_compute. reflexivity. Qed.

Lemma attest_nil observed scopes : attestWriteSet observed scopes = [] <-> Forall (fun p => within scopes p = true) observed.
Proof.
  unfold attestWriteSet, sort_strings. split.
  - intros Hs. apply Forall_forall. intros p Hp. destruct (within scopes p) eqn:Hw; [done|].
    assert (p ∈ js_sort str_cmp (List.filter (fun path => negb (within scopes path)) observed)) as Hin.
    { apply elem_of_js_sort. apply list_elem_of_In, filter_In. split; [by apply list_elem_of_In|by rewrite Hw]. }
    rewrite Hs in Hin. by apply elem_of_nil in Hin.
  - intros Hf. assert (List.filter (fun path => negb (within scopes path)) observed = []) as ->; [|done].
    induction Hf as [|p l Hp _ IH]; [done|]. cbn. by rewrite Hp.
Qed.

(** A file the path policy lets a test author write. *)
Definition test_file (policy : TddPathPolicy) (file : PatchFile) : Prop :=
  classifyPath (pf_path file) policy = Some scope_test \/ classifyPath (pf_path file) policy = Some scope_test_config.

Lemma file_issue_None policy file : file_issue policy file = None <-> test_file policy file.
Proof.
  unfold file_issue, test_file. destruct (tryNormalizeRepoRelativePath (pf_path file)) as [n|] eqn:E.
  - destruct (classifyPath (pf_path file) policy) as [[]|]; naive_solver.
  - split; [done|]. unfold classifyPath. rewrite E. cbn. naive_solver.
Qed.

Lemma patch_valid `{Collation} files policy : validateTestAuthoringPatch files policy = [] <-> Forall (test_file policy) files.
Proof.
  unfold validateTestAuthoringPatch. split.
  - intros Hs. apply Forall_forall. intros f Hf. apply file_issue_None. destruct (file_issue policy f) as [i|] eqn:E; [|done].
    assert (i ∈ js_sort (fun l r => localeCompare (patch_code_text (pi_code l)) (patch_code_text (pi_code r))) (omap (file_issue policy) files)) as Hin.
    { apply elem_of_js_sort, list_elem_of_omap. by exists f. }
    rewrite Hs in Hin. by apply elem_of_nil in Hin.
  - intros Hf. assert (omap (file_issue policy) files = []) as ->; [|done].
    induction Hf as [|f l Hp _ IH]; [done|]. cbn. by rewrite (proj2 (file_issue_None _ _) Hp).
Qed.

(** The content of a patch: its files under canonical paths, in path order. *)
Definition normal_file (file : PatchFile) : string * string :=
  (default (pf_path file) (tryNormalizeRepoRelativePath (pf_path file)), pf_content file).
Definition patch_content (files : list PatchFile) : list (string * string) :=
  js_sort (fun l r => str_cmp l.1 r.1) (map normal_file files).

Section digest_laws.
Context `{Hash}.

Definition hashed (f : string * string) : PatchEntry := Entry f.1 (sha256 (quote (nfc f.2))).

Lemma patch_entries files : mapM patch_entry files = Ok (map hashed (map normal_file files)).
Proof.
  induction files as [|f files IH]; [done|]. rewrite mapM_cons, IH. done.
Qed.

Lemma canonical_patch files : exists d, canonicalTestPatch files = Ok (Patch (map hashed (patch_content files)) d) /\
  contentDigest (JArr (map entry_json (map hashed (patch_content files)))) = Ok d.
Proof.
  unfold canonicalTestPatch. rewrite patch_entries. cbn [mbind result_bind].
  rewrite (js_sort_map (fun l r : string * string => str_cmp l.1 r.1) by_path hashed) by done. fold (patch_content files).
  assert (forall l, exists s, writeValue (JArr (map entry_json l)) = Ok s) as Hw.
  { intros l. cbn. assert (exists ss, mapM writeValue (map entry_json l) = Ok ss) as [ss ->]; [|by eexists].
    induction l as [|e l [ss IH]]; [by eexists|]. cbn [map]. rewrite mapM_cons, IH. by eexists. }
  destruct (Hw (map hashed (patch_content files))) as [s Hs]. unfold contentDigest at 1, canonicalizeJson. rewrite Hs. cbn [mbind result_bind].
  eexists. split; [reflexivity|]. unfold contentDigest, canonicalizeJson. by rewrite Hs.
Qed.

Lemma entries_literals l : literals_ok (JArr (map entry_json l)) = true.
Proof. cbn. by induction l as [|e l IH]. Qed.

(** Equal digests are equal contents: the files a frozen patch names cannot
    change under its digest. *)
Lemma same_patch files files' p p' : canonicalTestPatch files = Ok p -> canonicalTestPatch files' = Ok p' ->
  patch_digest p = patch_digest p' -> patch_content files = patch_content files' \/ hash_collision.
Proof.
  destruct (canonical_patch files) as (d & -> & Hd), (canonical_patch files') as (d' & -> & Hd'). intros [= <-] [= <-]. cbn. intros <-.
  destruct (contentDigest_inj _ _ d (entries_literals _) (entries_literals _) Hd Hd') as [Hc|Hc];
    [|by right].
  cbn [canon] in Hc. injection Hc as Hc. revert Hc. generalize (patch_content files) as l, (patch_content files') as l'.
  induction l as [|[p c] l IH]; intros [|[p' c'] l'] Hc; try discriminate Hc; [by left|]. cbn in Hc. injection Hc as Hd1 Hp Hl.
  destruct (IH l' Hl) as [->|?]; [|by right]. subst p'. destruct (decide (quote (nfc c) = quote (nfc c'))) as [He|He].
  - left. unfold nfc in He. rewrite <- (string_app_nil_r (quote c)), <- (string_app_nil_r (quote c')) in He. apply quote_inj in He as [-> _]. done.
  - right. by exists (quote (nfc c)), (quote (nfc c')).
Qed.
End digest_laws.
