(* ===== verification/TddCycle.v ===== *)
(** * The TDD cycle

    [packages/runtime/src/tdd/controller.ts] and [verdict.ts]: the state machine
    of one attempt at a cycle, the evidence that moves it, the record that seals
    it, and the verdict on a task that the records give. The messages of issues
    are dropped; the reason of a block is kept, it is part of the record. *)

From S2P Require Import Prelude Regex Locator Json Task Policy Grant Secrets Tdd TddPatch.

(** ** Data *)

Inductive TddCycleState : Type :=
| Contract_ready | Baseline_guard | Test_authoring | Red_verification | Implementation | Green_verification | Refactor
| Cycle_completed | Blocked | Invalidated | Budget_exhausted | Cancelled.
#[export] Instance TddCycleState_eq_dec : EqDecision TddCycleState.
Proof. solve_decision. Defined.

Definition cycle_state_text (s : TddCycleState) : string :=
  match s with
  | Contract_ready => "contract_ready" | Baseline_guard => "baseline_guard" | Test_authoring => "test_authoring"
  | Red_verification => "red_verification" | Implementation => "implementation" | Green_verification => "green_verification"
  | Refactor => "refactor" | Cycle_completed => "cycle_completed" | Blocked => "blocked" | Invalidated => "invalidated"
  | Budget_exhausted => "budget_exhausted" | Cancelled => "cancelled"
  end.

Record TestRun : Type := Run_
  { run_selector_id : string;
    run_passed : bool;
    run_assertion_id : option string;
    run_failure_kind : option string;
    run_error_code : option string;
    run_symbols : option (list string);
    run_message : option string }.

Inductive no_result : Type := syntax_error | environment_error | timeout_ | oom | missing_result.
Inductive StructuredTestResult : Type :=
| structured (runs : list TestRun)
| unstructured (outcome : no_result).

Record FailureOracle : Type := Oracle
  { or_selector_ids : list string;
    or_allowed_failure_kinds : list string;
    or_assertion_ids : list string;
    or_expected_error_codes : option (list string);
    or_expected_symbols : option (list string);
    or_normalized_message_patterns : option (list string) }.

Inductive TddEvidenceType : Type :=
| framework_result | baseline_test_result | red_test_result | green_test_result | refactor_test_result.
#[export] Instance TddEvidenceType_eq_dec : EqDecision TddEvidenceType.
Proof. solve_decision. Defined.
Definition evidence_type_text (t : TddEvidenceType) : string :=
  match t with
  | framework_result => "framework_result" | baseline_test_result => "baseline_test_result" | red_test_result => "red_test_result"
  | green_test_result => "green_test_result" | refactor_test_result => "refactor_test_result"
  end.

Record OutputArtifact : Type := Output { out_locator : string; out_digest : string }.

Record TddEvidenceBinding : Type := Evidence
  { ev_type : TddEvidenceType;
    ev_task_id : string;
    ev_logical_cycle_id : string;
    ev_attempt_ordinal : Z;
    ev_contract_digest : string;
    ev_repository_baseline : string;
    ev_test_patch_digest : option string;
    ev_target_gate_binding_digest : string;
    ev_framework_profile_digest : string;
    ev_executor_environment_digest : string;
    ev_selector_ids : list string;
    ev_assertion_ids : list string;
    ev_failure_kind : option string;
    ev_grant_digest : string;
    ev_observed_write_set_digest : string;
    ev_output_artifact : OutputArtifact }.

(** A field that is present only when it is defined. *)
Definition when_some (key : string) (o : option string) : list (string * jsval) :=
  match o with Some s => [(key, JStr s)] | None => [] end.

Definition evidence_binding_json (e : TddEvidenceBinding) : jsval :=
  JObj ([("evidence_type", JStr (evidence_type_text (ev_type e))); ("task_id", JStr (ev_task_id e));
         ("logical_cycle_id", JStr (ev_logical_cycle_id e)); ("attempt_ordinal", JNum (NInt (ev_attempt_ordinal e)));
         ("contract_digest", JStr (ev_contract_digest e)); ("repository_baseline", JStr (ev_repository_baseline e))] ++
        when_some "test_patch_digest" (ev_test_patch_digest e) ++
        [("target_gate_binding_digest", JStr (ev_target_gate_binding_digest e));
         ("framework_profile_digest", JStr (ev_framework_profile_digest e));
         ("executor_environment_digest", JStr (ev_executor_environment_digest e));
         ("selector_ids", strings (ev_selector_ids e)); ("assertion_ids", strings (ev_assertion_ids e))] ++
        when_some "failure_kind" (ev_failure_kind e) ++
        [("grant_digest", JStr (ev_grant_digest e)); ("observed_write_set_digest", JStr (ev_observed_write_set_digest e));
         ("output_artifact", JObj [("locator", JStr (out_locator (ev_output_artifact e))); ("digest", JStr (out_digest (ev_output_artifact e)))])]).

Record TddCycleView : Type := View
  { state : TddCycleState;
    logical_cycle_id : string;
    attempt_ordinal : Z;
    view_task_id : string;
    view_assertion_ids : list string;
    contract_digest : string;
    repository_baseline : string;
    baseline_evidence : option TddEvidenceBinding;
    test_patch_digest : option string;
    red_evidence : option TddEvidenceBinding;
    green_evidence : option TddEvidenceBinding;
    refactor_evidence : option TddEvidenceBinding;
    implementation_revision : option string;
    block_reason : option string }.

Inductive TddEvidenceIssueCode : Type :=
| baseline_unhealthy | patch_drift | write_set_violation | binding_drift | unstructured_result | no_target_assertion | oracle_mismatch
| selector_missing | state_order.
#[export] Instance TddEvidenceIssueCode_eq_dec : EqDecision TddEvidenceIssueCode.
Proof. solve_decision. Defined.

Definition issue (b : bool) (code : TddEvidenceIssueCode) : list TddEvidenceIssueCode := if b then [code] else [].

Definition absent {A : Type} (o : option A) : bool := match o with Some _ => false | None => true end.

(** ** Moves *)

Record EvidenceInput : Type := EvInput
  { in_target_gate_binding_digest : string;
    in_framework_profile_digest : string;
    in_executor_environment_digest : string;
    in_grant_digest : string;
    in_observed_write_set_digest : string;
    in_output_artifact : OutputArtifact }.

Record VerificationInput : Type := Verification
  { vi_evidence : EvidenceInput;
    vi_test_patch_digest : string;
    vi_oracle : FailureOracle;
    vi_result : StructuredTestResult }.

(** What green and refactor evidence add. *)
Record WriteInput : Type := Writes
  { wi_production_write_set : list string;
    wi_write_scopes : list string;
    wi_implementation_revision : string }.

Definition binding (evidenceType : TddEvidenceType) (view : TddCycleView) (input : EvidenceInput) (patch : option string)
    (selectors : list string) (failure_kind : option string) : TddEvidenceBinding :=
  Evidence evidenceType (view_task_id view) (logical_cycle_id view) (attempt_ordinal view) (contract_digest view) (repository_baseline view) patch
    (in_target_gate_binding_digest input) (in_framework_profile_digest input) (in_executor_environment_digest input) selectors
    (view_assertion_ids view) failure_kind (in_grant_digest input) (in_observed_write_set_digest input) (in_output_artifact input).

Definition acceptBaselineEvidence (view : TddCycleView) (input : EvidenceInput) (gate_passed : bool) : TddCycleView * list TddEvidenceIssueCode :=
  if negb (bool_decide (state view = Baseline_guard)) then (view, [state_order])
  else
    let next s reason :=
      View s (logical_cycle_id view) (attempt_ordinal view) (view_task_id view) (view_assertion_ids view) (contract_digest view) (repository_baseline view)
        (Some (binding baseline_test_result view input None [] None)) (test_patch_digest view) (red_evidence view) (green_evidence view)
        (refactor_evidence view) (implementation_revision view) reason in
    if negb gate_passed then (next Blocked (Some "pre_existing_failure: baseline gate failed before any change"), [])
    else (next Test_authoring (block_reason view), []).

Definition freezeTestPatch `{Hash} `{Collation} (view : TddCycleView) (files : list PatchFile) (policy : TddPathPolicy) :
    result canonical_error (TddCycleView * string * list TddEvidenceIssueCode) :=
  if negb (bool_decide (state view = Test_authoring)) then Ok (view, "", [state_order])
  else
    let patchIssues := validateTestAuthoringPatch files policy in
    patch ← canonicalTestPatch files;
    if negb (bool_decide (length patchIssues = 0)) then Ok (view, patch_digest patch, map (fun _ => write_set_violation) patchIssues)
    else
      Ok (View Red_verification (logical_cycle_id view) (attempt_ordinal view) (view_task_id view) (view_assertion_ids view) (contract_digest view)
            (repository_baseline view) (baseline_evidence view) (Some (patch_digest patch)) (red_evidence view) (green_evidence view)
            (refactor_evidence view) (implementation_revision view) (block_reason view), patch_digest patch, []).

(** Sets and plain substrings. *)
Definition matchFailureOracle (failure : TestRun) (oracle : FailureOracle) : bool :=
  match run_failure_kind failure with
  | Some kind => mem kind (or_allowed_failure_kinds oracle)
  | None => false
  end &&
  match or_expected_error_codes oracle with
  | Some codes => match run_error_code failure with Some code => mem code codes | None => false end
  | None => true
  end &&
  match or_expected_symbols oracle with
  | Some expected => match run_symbols failure with Some symbols => forallb (fun s => mem s expected) symbols | None => false end
  | None => true
  end &&
  match or_normalized_message_patterns oracle with
  | Some patterns => match run_message failure with Some message => existsb (fun pattern => includes message pattern) patterns | None => false end
  | None => true
  end.

Definition bindingDigestChecks (view : TddCycleView) (input : VerificationInput) : list TddEvidenceIssueCode :=
  issue (negb (bool_decide (test_patch_digest view = Some (vi_test_patch_digest input)))) patch_drift ++
  match baseline_evidence view with
  | Some baseline =>
      issue (negb (bool_decide (in_target_gate_binding_digest (vi_evidence input) = ev_target_gate_binding_digest baseline))) binding_drift ++
      issue (negb (bool_decide (in_framework_profile_digest (vi_evidence input) = ev_framework_profile_digest baseline))) binding_drift ++
      issue (negb (bool_decide (in_executor_environment_digest (vi_evidence input) = ev_executor_environment_digest baseline))) binding_drift
  | None => []
  end.

(** A failure of an assertion of the cycle. *)
Definition target_hit (view : TddCycleView) (run : TestRun) : bool :=
  negb (run_passed run) && match run_assertion_id run with Some a => mem a (view_assertion_ids view) | None => false end.

Definition acceptRedEvidence (view : TddCycleView) (input : VerificationInput) : TddCycleView * list TddEvidenceIssueCode :=
  if negb (bool_decide (state view = Red_verification)) || absent (baseline_evidence view)
  then (view, [state_order])
  else
    let issues := bindingDigestChecks view input in
    match vi_result input with
    | unstructured _ => (view, issues ++ [unstructured_result])
    | structured runs =>
        let targetHits := List.filter (target_hit view) runs in
        let issues := issues ++ issue (bool_decide (length targetHits = 0)) no_target_assertion ++
          flat_map (fun run => issue (negb (matchFailureOracle run (vi_oracle input))) oracle_mismatch) targetHits in
        if negb (bool_decide (issues = [])) then (view, issues)
        else
          (View Implementation (logical_cycle_id view) (attempt_ordinal view) (view_task_id view) (view_assertion_ids view) (contract_digest view)
             (repository_baseline view) (baseline_evidence view) (test_patch_digest view)
             (Some (binding red_test_result view (vi_evidence input) (Some (vi_test_patch_digest input)) (map run_selector_id runs)
                      (head targetHits ≫= run_failure_kind)))
             (green_evidence view) (refactor_evidence view) (implementation_revision view) (block_reason view), [])
    end.

(** The selectors of two runs, in order. *)
Definition same_selectors (l k : list string) : bool := bool_decide (sort_strings l = sort_strings k).

Definition acceptGreenEvidence (view : TddCycleView) (input : VerificationInput) (writes : WriteInput) (refactor_planned : bool) :
    TddCycleView * list TddEvidenceIssueCode :=
  match red_evidence view with
  | None => (view, [state_order])
  | Some red =>
      if negb (bool_decide (state view = Implementation)) then (view, [state_order])
      else
        let issues := bindingDigestChecks view input ++
          issue (negb (bool_decide (attestWriteSet (wi_production_write_set writes) (wi_write_scopes writes) = []))) write_set_violation in
        match vi_result input with
        | unstructured _ => (view, issues ++ [unstructured_result])
        | structured runs =>
            let seen := map run_selector_id (List.filter run_passed runs) in
            let issues := issues ++
              flat_map (fun selector => issue (negb (mem selector seen)) selector_missing) (dedup (or_selector_ids (vi_oracle input))) ++
              issue (existsb (fun run => negb (run_passed run)) runs) oracle_mismatch ++
              issue (negb (same_selectors (ev_selector_ids red) (map run_selector_id runs))) binding_drift in
            if negb (bool_decide (issues = [])) then (view, issues)
            else
              (View (if refactor_planned then Refactor else Cycle_completed) (logical_cycle_id view) (attempt_ordinal view) (view_task_id view)
                 (view_assertion_ids view) (contract_digest view) (repository_baseline view) (baseline_evidence view) (test_patch_digest view)
                 (red_evidence view)
                 (Some (binding green_test_result view (vi_evidence input) (Some (vi_test_patch_digest input)) (map run_selector_id runs) None))
                 (refactor_evidence view) (Some (wi_implementation_revision writes)) (block_reason view), [])
        end
  end.

Definition acceptRefactorEvidence (view : TddCycleView) (input : VerificationInput) (writes : WriteInput) :
    TddCycleView * list TddEvidenceIssueCode :=
  match green_evidence view with
  | None => (view, [state_order])
  | Some green =>
      if negb (bool_decide (state view = Refactor)) then (view, [state_order])
      else
        let issues := bindingDigestChecks view input ++
          issue (negb (bool_decide (attestWriteSet (wi_production_write_set writes) (wi_write_scopes writes) = []))) write_set_violation in
        match vi_result input with
        | unstructured _ => (view, issues ++ [unstructured_result])
        | structured runs =>
            let issues := issues ++
              issue (negb (same_selectors (ev_selector_ids green) (map run_selector_id runs))) binding_drift ++
              issue (existsb (fun run => negb (run_passed run)) runs) oracle_mismatch in
            if negb (bool_decide (issues = [])) then (view, issues)
            else
              (View Cycle_completed (logical_cycle_id view) (attempt_ordinal view) (view_task_id view) (view_assertion_ids view) (contract_digest view)
                 (repository_baseline view) (baseline_evidence view) (test_patch_digest view) (red_evidence view) (green_evidence view)
                 (Some (binding refactor_test_result view (vi_evidence input) (Some (vi_test_patch_digest input)) (map run_selector_id runs) None))
                 (Some (wi_implementation_revision writes)) (block_reason view), [])
        end
  end.

Inductive TddCycleStatus : Type := completed | invalidated | blocked.
#[export] Instance TddCycleStatus_eq_dec : EqDecision TddCycleStatus.
Proof. solve_decision. Defined.
Definition status_text (s : TddCycleStatus) : string :=
  match s with completed => "completed" | invalidated => "invalidated" | blocked => "blocked" end.

(** Its [status] is never [completed]. *)
Definition terminateTddCycle (view : TddCycleView) (crashed : bool) (reason : string) : TddCycleView :=
  View (if crashed then Invalidated else Blocked) (logical_cycle_id view) (attempt_ordinal view) (view_task_id view) (view_assertion_ids view)
    (contract_digest view) (repository_baseline view) (baseline_evidence view) (test_patch_digest view) (red_evidence view) (green_evidence view)
    (refactor_evidence view) (implementation_revision view) (Some reason).

(** ** The record of an attempt *)

Record TddCycleRecord : Type := CycleRecord
  { cr_logical_cycle_id : string;
    cr_attempt_ordinal : Z;
    cr_task_id : string;
    cr_assertion_ids : list string;
    cr_contract_digest : string;
    cr_repository_baseline : string;
    cr_baseline_evidence_digest : option string;
    cr_test_patch_digest : option string;
    cr_target_gate_binding_digest : option string;
    cr_executor_environment_digest : option string;
    cr_red_evidence_digest : option string;
    cr_green_evidence_digest : option string;
    cr_refactor_evidence_digest : option string;
    cr_implementation_revision : option string;
    cr_status : TddCycleStatus;
    cr_reason : option string;
    cr_record_digest : string }.

(** Its fields apart from the digest. *)
Definition cycle_fields (r : TddCycleRecord) : list (string * jsval) :=
  [("protocol_version", JStr PROTOCOL_1_1_VERSION); ("record_kind", JStr "tdd_cycle"); ("logical_cycle_id", JStr (cr_logical_cycle_id r));
   ("attempt_ordinal", JNum (NInt (cr_attempt_ordinal r))); ("task_id", JStr (cr_task_id r)); ("assertion_ids", strings (cr_assertion_ids r));
   ("contract_digest", JStr (cr_contract_digest r)); ("repository_baseline", JStr (cr_repository_baseline r))] ++
  when_some "baseline_evidence_digest" (cr_baseline_evidence_digest r) ++ when_some "test_patch_digest" (cr_test_patch_digest r) ++
  when_some "target_gate_binding_digest" (cr_target_gate_binding_digest r) ++
  when_some "executor_environment_digest" (cr_executor_environment_digest r) ++ when_some "red_evidence_digest" (cr_red_evidence_digest r) ++
  when_some "green_evidence_digest" (cr_green_evidence_digest r) ++ when_some "refactor_evidence_digest" (cr_refactor_evidence_digest r) ++
  when_some "implementation_revision" (cr_implementation_revision r) ++ [("status", JStr (status_text (cr_status r)))] ++
  when_some "reason" (cr_reason r).

Section record.
Context `{Hash}.

Definition evidenceDigest (e : TddEvidenceBinding) : result canonical_error string := contentDigest (evidence_binding_json e).

Definition digest_when (e : option TddEvidenceBinding) : result canonical_error (option string) :=
  match e with Some e => Some <$> evidenceDigest e | None => Ok None end.

Definition status_of (view : TddCycleView) : TddCycleStatus :=
  if decide (state view = Cycle_completed) then completed else if decide (state view = Blocked) then blocked else invalidated.

Definition buildTddCycleRecord (view : TddCycleView) : result canonical_error TddCycleRecord :=
  let status := status_of view in
  baseline ← digest_when (baseline_evidence view);
  red ← digest_when (red_evidence view);
  green ← digest_when (green_evidence view);
  refactor ← digest_when (refactor_evidence view);
  let reason := if decide (status = completed) then None
    else Some (default ("cycle " +:+ status_text status +:+ " in state " +:+ cycle_state_text (state view)) (block_reason view)) in
  let base digest :=
    CycleRecord (logical_cycle_id view) (attempt_ordinal view) (view_task_id view) (view_assertion_ids view) (contract_digest view)
      (repository_baseline view) baseline (test_patch_digest view) (ev_target_gate_binding_digest <$> baseline_evidence view)
      (ev_executor_environment_digest <$> baseline_evidence view) red green refactor (implementation_revision view) status reason digest in
  digest ← recordDigestOf (cycle_fields (base ""));
  Ok (base digest).

(** The conditions of [TddCycleRecordSchema] that tie the fields to the status. *)
Definition complete_record (r : TddCycleRecord) : bool :=
  if decide (cr_status r = completed)
  then negb (absent (cr_baseline_evidence_digest r)) && negb (absent (cr_test_patch_digest r)) && negb (absent (cr_target_gate_binding_digest r)) &&
       negb (absent (cr_executor_environment_digest r)) && negb (absent (cr_red_evidence_digest r)) && negb (absent (cr_green_evidence_digest r)) &&
       negb (absent (cr_implementation_revision r))
  else negb (absent (cr_reason r)).

(** [createTddCycle] *)
Definition createTddCycle (task_id : string) (assertion_ids : list string) (contract baseline : string) (cycle : option string) (ordinal : option Z) :
    result canonical_error TddCycleView :=
  cycle ← match cycle with
          | Some c => Ok c
          | None => d ← contentDigest (JObj [("task", JStr task_id); ("contract", JStr contract)]); Ok ("cycle_" +:+ str_take 16 d)
          end;
  Ok (View Baseline_guard cycle (default 1%Z ordinal) task_id assertion_ids contract baseline None None None None None None None).
End record.

(** ** The verdict on a task *)

Inductive TddVerdictState : Type :=
| tdd_proven | framework_proven | controlled_not_applicable | not_enabled_by_profile | historical_without_tdd_proof | tdd_incomplete_or_invalid.
#[export] Instance TddVerdictState_eq_dec : EqDecision TddVerdictState.
Proof. solve_decision. Defined.

Definition verdict_state_text (s : TddVerdictState) : string :=
  match s with
  | tdd_proven => "tdd_proven" | framework_proven => "framework_proven" | controlled_not_applicable => "controlled_not_applicable"
  | not_enabled_by_profile => "not_enabled_by_profile" | historical_without_tdd_proof => "historical_without_tdd_proof"
  | tdd_incomplete_or_invalid => "tdd_incomplete_or_invalid"
  end.

Definition TDD_VERDICT_TO_GENERIC (s : TddVerdictState) : string :=
  match s with
  | tdd_proven | framework_proven => "proven"
  | controlled_not_applicable => "controlled_not_applicable"
  | not_enabled_by_profile => "not_enabled_by_profile"
  | historical_without_tdd_proof => "historical_without_proof"
  | tdd_incomplete_or_invalid => "invalid_or_incomplete"
  end.

Inductive TddContractMode : Type := required | not_applicable | framework_bootstrap.
#[export] Instance TddContractMode_eq_dec : EqDecision TddContractMode.
Proof. solve_decision. Defined.

Record TaskTddVerdictInput : Type := VerdictInput
  { tv_capability_enabled : bool;
    tv_historical : bool;
    tv_contract_mode : TddContractMode;
    tv_required_assertion_ids : list string;
    tv_cycles : list TddCycleRecord;
    tv_current_contract_digest : string;
    tv_gates_passed : bool;
    tv_evaluation_passed : option bool;
    tv_not_applicable_binding : option (string * string);
    tv_framework_evidence : option (bool * bool);
    tv_refactor_planned : bool }.

Record TaskTddVerdict : Type := TddVerdict { tt_verdict : TddVerdictState; tt_reason : string }.
Definition tt_generic_status (v : TaskTddVerdict) : string := TDD_VERDICT_TO_GENERIC (tt_verdict v).

Definition covering (cycles : list TddCycleRecord) (assertion : string) : list TddCycleRecord :=
  List.filter (fun cycle => bool_decide (cr_status cycle = completed) && mem assertion (cr_assertion_ids cycle)) cycles.

(** What is wrong with the proof of an assertion. *)
Definition assertion_gap (input : TaskTddVerdictInput) (assertion : string) : option string :=
  match covering (tv_cycles input) assertion with
  | [cycle] =>
      if negb (bool_decide (cr_contract_digest cycle = tv_current_contract_digest input))
      then Some ("cycle " +:+ cr_logical_cycle_id cycle +:+ " binds a drifted contract digest")
      else if tv_refactor_planned input && absent (cr_refactor_evidence_digest cycle)
      then Some ("cycle " +:+ cr_logical_cycle_id cycle +:+ " lacks accepted refactor evidence")
      else None
  | l => Some ("assertion " +:+ assertion +:+ " has " +:+ dec (Z.of_nat (length l)) +:+ " completed cycles, expected exactly 1")
  end.

(** [for (const x of l) if (gap(x)) return it;] *)
Fixpoint first_gap {A} (gap : A -> option string) (l : list A) : option string :=
  match l with
  | [] => None
  | x :: l' => match gap x with Some reason => Some reason | None => first_gap gap l' end
  end.

Definition computeTaskTddVerdict (input : TaskTddVerdictInput) : TaskTddVerdict :=
  if negb (tv_capability_enabled input) then TddVerdict not_enabled_by_profile "strict_tdd is not enabled by the capability plan"
  else if tv_historical input then
    TddVerdict historical_without_tdd_proof "protocol 1.0 completed task; history is never retro-proven"
  else
    match tv_contract_mode input with
    | not_applicable =>
        match tv_not_applicable_binding input with
        | Some (category, reason) =>
            if (0 <? String.length reason)%nat then TddVerdict controlled_not_applicable ("controlled exemption: " +:+ category)
            else TddVerdict tdd_incomplete_or_invalid "not_applicable without an accepted controlled binding"
        | None => TddVerdict tdd_incomplete_or_invalid "not_applicable without an accepted controlled binding"
        end
    | framework_bootstrap =>
        match tv_framework_evidence input with
        | Some (true, true) => TddVerdict framework_proven "test infrastructure mechanically proven"
        | _ => TddVerdict tdd_incomplete_or_invalid "framework bootstrap evidence missing or unproven"
        end
    | required =>
        match first_gap (assertion_gap input) (tv_required_assertion_ids input) with
        | Some reason => TddVerdict tdd_incomplete_or_invalid reason
        | None =>
            if negb (tv_gates_passed input) then TddVerdict tdd_incomplete_or_invalid "the full gate suite did not pass"
            else if bool_decide (tv_evaluation_passed input = Some false)
            then TddVerdict tdd_incomplete_or_invalid "independent evaluation did not pass"
            else TddVerdict tdd_proven "baseline/red/green chain, gates and evaluation all accepted"
        end
    end.

(* ------------------------------------------------------------------ *)
(** ** When evidence is accepted *)

Lemma issue_nil b c : issue b c = [] <-> b = false.
Proof. destruct b; split; done. Qed.

Lemma app_nil_iff {A : Type} (l k : list A) : l ++ k = [] <-> l = [] /\ k = [].
Proof. split; [apply app_eq_nil|by intros [-> ->]]. Qed.

Lemma flat_issue_nil {A : Type} (f : A -> bool) c l : flat_map (fun x => issue (f x) c) l = [] <-> forall x, x ∈ l -> f x = false.
Proof.
  induction l as [|x l IH]; cbn [flat_map].
  - split; [|done]. intros _ x Hx. by apply elem_of_nil in Hx.
  - rewrite app_nil_iff, issue_nil, IH. split; [intros [H1 H2] y [->|Hy]%elem_of_cons; auto|]. intros Hf. split; [apply Hf; left|].
    intros y Hy. apply Hf. by right.
Qed.

Lemma negb_decide_false (P : Prop) `{Decision P} : negb (bool_decide P) = false <-> P.
Proof. by rewrite negb_false_iff, bool_decide_eq_true. Qed.

(** The gate, the framework and the environment of an input are those of [ev]. *)
Definition same_binding (input : EvidenceInput) (ev : TddEvidenceBinding) : Prop :=
  in_target_gate_binding_digest input = ev_target_gate_binding_digest ev /\
  in_framework_profile_digest input = ev_framework_profile_digest ev /\
  in_executor_environment_digest input = ev_executor_environment_digest ev.

Definition undrifted (view : TddCycleView) (input : VerificationInput) : Prop :=
  test_patch_digest view = Some (vi_test_patch_digest input) /\
  forall b, baseline_evidence view = Some b -> same_binding (vi_evidence input) b.

Lemma binding_checks_nil view input : bindingDigestChecks view input = [] <-> undrifted view input.
Proof.
  unfold bindingDigestChecks, undrifted, same_binding. rewrite app_nil_iff, issue_nil, negb_decide_false.
  destruct (baseline_evidence view) as [b|]; [rewrite !app_nil_iff, !issue_nil, !negb_decide_false|]; naive_solver.
Qed.

Lemma filter_empty {A : Type} (p : A -> bool) l : bool_decide (length (List.filter p l) = 0) = false <-> exists x, x ∈ l /\ p x = true.
Proof.
  rewrite bool_decide_eq_false. split.
  - destruct (List.filter p l) as [|x k] eqn:E; [done|]. intros _. exists x. rewrite list_elem_of_In, <- filter_In, E. by left.
  - intros (x & Hx & Hp) Hl. apply nil_length_inv in Hl. assert (In x (List.filter p l)) as Hin by (apply filter_In; by rewrite <- list_elem_of_In).
    by rewrite Hl in Hin.
Qed.

(** What red evidence has to show: the frozen patch under the gate, framework
    and environment of the baseline, a failure of an assertion of the cycle, and
    each such failure as the oracle foretold. *)
Definition red_proves (view : TddCycleView) (input : VerificationInput) (runs : list TestRun) : Prop :=
  vi_result input = structured runs /\ undrifted view input /\
  (exists run, run ∈ runs /\ target_hit view run = true) /\
  forall run, run ∈ runs -> target_hit view run = true -> matchFailureOracle run (vi_oracle input) = true.

(** What green evidence has to show: the same patch and binding, no write outside
    the scopes, every selector of the oracle among the runs, all of them passed,
    and exactly the selectors of the red run. *)
Definition green_proves (view : TddCycleView) (input : VerificationInput) (writes : WriteInput) (selectors : list string) (runs : list TestRun) : Prop :=
  vi_result input = structured runs /\ undrifted view input /\
  (forall p, p ∈ wi_production_write_set writes -> within (wi_write_scopes writes) p = true) /\
  (forall s, s ∈ or_selector_ids (vi_oracle input) -> exists run, run ∈ runs /\ run_selector_id run = s) /\
  (forall run, run ∈ runs -> run_passed run = true) /\ selectors ≡ₚ map run_selector_id runs.

Definition refactor_proves (view : TddCycleView) (input : VerificationInput) (writes : WriteInput) (selectors : list string) (runs : list TestRun) : Prop :=
  vi_result input = structured runs /\ undrifted view input /\
  (forall p, p ∈ wi_production_write_set writes -> within (wi_write_scopes writes) p = true) /\
  (forall run, run ∈ runs -> run_passed run = true) /\ selectors ≡ₚ map run_selector_id runs.

Lemma same_selectors_spec l k : same_selectors l k = true <-> l ≡ₚ k.
Proof.
  unfold same_selectors. rewrite bool_decide_eq_true. split; [|by apply sort_strings_unique]. intros He.
  unfold sort_strings in He. rewrite <- (js_sort_Permutation str_cmp l), He. apply js_sort_Permutation.
Qed.

Lemma attest_writes writes : attestWriteSet (wi_production_write_set writes) (wi_write_scopes writes) = [] <->
  forall p, p ∈ wi_production_write_set writes -> within (wi_write_scopes writes) p = true.
Proof. rewrite attest_nil, Forall_forall. done. Qed.

Lemma all_passed runs : existsb (fun run => negb (run_passed run)) runs = false <-> forall run, run ∈ runs -> run_passed run = true.
Proof.
  rewrite <- not_true_iff_false, existsb_exists. split.
  - intros Hn run Hr. apply not_false_iff_true. intros Hf. apply Hn. exists run. rewrite <- list_elem_of_In. by rewrite Hf.
  - intros Ha (run & Hr & Hf). rewrite <- list_elem_of_In in Hr. by rewrite (Ha run Hr) in Hf.
Qed.

Lemma red_accepted view input : state view = Red_verification -> is_Some (baseline_evidence view) ->
  ((acceptRedEvidence view input).2 = [] <-> exists runs, red_proves view input runs) /\
  ((acceptRedEvidence view input).2 <> [] -> (acceptRedEvidence view input).1 = view) /\
  forall runs, red_proves view input runs -> exists kind, (acceptRedEvidence view input).1 =
    View Implementation (logical_cycle_id view) (attempt_ordinal view) (view_task_id view) (view_assertion_ids view) (contract_digest view)
      (repository_baseline view) (baseline_evidence view) (test_patch_digest view)
      (Some (binding red_test_result view (vi_evidence input) (test_patch_digest view) (map run_selector_id runs) kind))
      (green_evidence view) (refactor_evidence view) (implementation_revision view) (block_reason view).
Proof.
  intros Hs [b Hb]. unfold acceptRedEvidence, red_proves. rewrite Hs, Hb. cbn [negb bool_decide absent orb]. rewrite bool_decide_true by done.
  cbn [negb orb]. destruct (vi_result input) as [runs|o].
  - set (hits := List.filter (target_hit view) runs).
    set (issues := bindingDigestChecks view input ++ _). assert (issues = [] <-> exists runs', structured runs = structured runs' /\ undrifted view input /\
      (exists run, run ∈ runs' /\ target_hit view run = true) /\
      forall run, run ∈ runs' -> target_hit view run = true -> matchFailureOracle run (vi_oracle input) = true) as Hi.
    { unfold issues. rewrite !app_nil_iff, binding_checks_nil, issue_nil, flat_issue_nil. unfold hits. rewrite filter_empty.
      assert ((forall x, x ∈ List.filter (target_hit view) runs -> negb (matchFailureOracle x (vi_oracle input)) = false) <->
              forall run, run ∈ runs -> target_hit view run = true -> matchFailureOracle run (vi_oracle input) = true) as Hm.
      { setoid_rewrite negb_false_iff. setoid_rewrite list_elem_of_In. setoid_rewrite filter_In. naive_solver. }
      rewrite Hm. split; [intros (H1 & H2 & H3); exists runs; naive_solver|]. intros (runs' & [= <-] & H1 & H2 & H3). naive_solver. }
    case_bool_decide as Hn; cbn [negb fst snd].
    + split; [split; [intros _; by apply Hi|done]|]. split; [done|]. intros runs' ([= <-] & [Hp _] & _). rewrite Hp. by eexists.
    + split; [rewrite Hi; naive_solver|]. split; [done|]. intros runs' Hr. destruct Hn. apply Hi. by exists runs'.
  - cbn [fst snd]. split; [split; [by intros [_ ?]%app_nil_iff|by intros (runs & ? & _)]|]. split; [done|]. by intros runs (? & _).
Qed.

Lemma green_accepted view red input writes planned : state view = Implementation -> red_evidence view = Some red ->
  ((acceptGreenEvidence view input writes planned).2 = [] <-> exists runs, green_proves view input writes (ev_selector_ids red) runs) /\
  ((acceptGreenEvidence view input writes planned).2 <> [] -> (acceptGreenEvidence view input writes planned).1 = view) /\
  forall runs, green_proves view input writes (ev_selector_ids red) runs -> (acceptGreenEvidence view input writes planned).1 =
    View (if planned then Refactor else Cycle_completed) (logical_cycle_id view) (attempt_ordinal view) (view_task_id view) (view_assertion_ids view)
      (contract_digest view) (repository_baseline view) (baseline_evidence view) (test_patch_digest view) (red_evidence view)
      (Some (binding green_test_result view (vi_evidence input) (test_patch_digest view) (map run_selector_id runs) None))
      (refactor_evidence view) (Some (wi_implementation_revision writes)) (block_reason view).
Proof.
  intros Hs Hr. unfold acceptGreenEvidence, green_proves. rewrite Hr, Hs. rewrite bool_decide_true by done. cbn [negb].
  destruct (vi_result input) as [runs|o].
  - set (issues := (_ ++ _) ++ _). assert (issues = [] <-> exists runs', structured runs = structured runs' /\ undrifted view input /\
      (forall p, p ∈ wi_production_write_set writes -> within (wi_write_scopes writes) p = true) /\
      (forall s, s ∈ or_selector_ids (vi_oracle input) -> exists run, run ∈ runs' /\ run_selector_id run = s) /\
      (forall run, run ∈ runs' -> run_passed run = true) /\ ev_selector_ids red ≡ₚ map run_selector_id runs') as Hi.
    { unfold issues. rewrite !app_nil_iff, binding_checks_nil, !issue_nil, flat_issue_nil, negb_decide_false, attest_writes, all_passed, negb_false_iff, same_selectors_spec.
      assert ((forall run, run ∈ runs -> run_passed run = true) ->
        (forall x, x ∈ dedup (or_selector_ids (vi_oracle input)) -> negb (mem x (map run_selector_id (List.filter run_passed runs))) = false) <->
        forall s, s ∈ or_selector_ids (vi_oracle input) -> exists run, run ∈ runs /\ run_selector_id run = s) as Hm.
      { intros Ha. setoid_rewrite negb_false_iff. setoid_rewrite mem_spec. setoid_rewrite elem_of_dedup.
        assert (forall s, s ∈ map run_selector_id (List.filter run_passed runs) <-> exists run, run ∈ runs /\ run_selector_id run = s) as Hx.
        { intros s. rewrite list_elem_of_In, in_map_iff. setoid_rewrite filter_In. setoid_rewrite list_elem_of_In. split.
          - intros (run & <- & Hin & _). by exists run.
          - intros (run & Hin & <-). exists run. split; [done|]. split; [done|]. apply Ha. by apply list_elem_of_In. }
        by setoid_rewrite Hx. }
      split; [intros ([H1 H2] & H3 & H4 & H5); exists runs; split_and!; try done; by apply Hm|].
      intros (runs' & [= <-] & H1 & H2 & H3 & H4 & H5). split_and!; try done. by apply Hm. }
    case_bool_decide as Hn; cbn [negb fst snd].
    + split; [split; [intros _; by apply Hi|done]|]. split; [done|]. intros runs' ([= <-] & [Hp _] & _). by rewrite Hp.
    + split; [rewrite Hi; naive_solver|]. split; [done|]. intros runs' Hg. destruct Hn. apply Hi. by exists runs'.
  - cbn [fst snd]. split; [split; [by intros [_ ?]%app_nil_iff|by intros (runs & ? & _)]|]. split; [done|]. by intros runs (? & _).
Qed.

Lemma refactor_accepted view green input writes : state view = Refactor -> green_evidence view = Some green ->
  ((acceptRefactorEvidence view input writes).2 = [] <-> exists runs, refactor_proves view input writes (ev_selector_ids green) runs) /\
  ((acceptRefactorEvidence view input writes).2 <> [] -> (acceptRefactorEvidence view input writes).1 = view) /\
  forall runs, refactor_proves view input writes (ev_selector_ids green) runs -> (acceptRefactorEvidence view input writes).1 =
    View Cycle_completed (logical_cycle_id view) (attempt_ordinal view) (view_task_id view) (view_assertion_ids view)
      (contract_digest view) (repository_baseline view) (baseline_evidence view) (test_patch_digest view) (red_evidence view) (green_evidence view)
      (Some (binding refactor_test_result view (vi_evidence input) (test_patch_digest view) (map run_selector_id runs) None))
      (Some (wi_implementation_revision writes)) (block_reason view).
Proof.
  intros Hs Hr. unfold acceptRefactorEvidence, refactor_proves. rewrite Hr, Hs. rewrite bool_decide_true by done. cbn [negb].
  destruct (vi_result input) as [runs|o].
  - set (issues := (_ ++ _) ++ _). assert (issues = [] <-> exists runs', structured runs = structured runs' /\ undrifted view input /\
      (forall p, p ∈ wi_production_write_set writes -> within (wi_write_scopes writes) p = true) /\
      (forall run, run ∈ runs' -> run_passed run = true) /\ ev_selector_ids green ≡ₚ map run_selector_id runs') as Hi.
    { unfold issues. rewrite !app_nil_iff, binding_checks_nil, !issue_nil, negb_decide_false, attest_writes, all_passed, negb_false_iff, same_selectors_spec.
      split; [intros ([H1 H2] & H3 & H4); by exists runs|]. intros (runs' & [= <-] & H1 & H2 & H3 & H4). done. }
    case_bool_decide as Hn; cbn [negb fst snd].
    + split; [split; [intros _; by apply Hi|done]|]. split; [done|]. intros runs' ([= <-] & [Hp _] & _). by rewrite Hp.
    + split; [rewrite Hi; naive_solver|]. split; [done|]. intros runs' Hg. destruct Hn. apply Hi. by exists runs'.
  - cbn [fst snd]. split; [split; [by intros [_ ?]%app_nil_iff|by intros (runs & ? & _)]|]. split; [done|]. by intros runs (? & _).
Qed.

(* ------------------------------------------------------------------ *)
(** ** Cycles *)

(** Evidence of a type that is bound to the attempt of [view]. *)
Definition bound (view : TddCycleView) (t : TddEvidenceType) (e : TddEvidenceBinding) : Prop :=
  ev_type e = t /\ ev_task_id e = view_task_id view /\ ev_logical_cycle_id e = logical_cycle_id view /\
  ev_attempt_ordinal e = attempt_ordinal view /\ ev_contract_digest e = contract_digest view /\
  ev_repository_baseline e = repository_baseline view /\ ev_assertion_ids e = view_assertion_ids view.

(** Two pieces of evidence under one gate, framework and environment. *)
Definition same_environment (e e' : TddEvidenceBinding) : Prop :=
  ev_target_gate_binding_digest e' = ev_target_gate_binding_digest e /\ ev_framework_profile_digest e' = ev_framework_profile_digest e /\
  ev_executor_environment_digest e' = ev_executor_environment_digest e.

Inductive cycle_step `{Hash} `{Collation} : TddCycleView -> TddCycleView -> Prop :=
| step_baseline view input passed : cycle_step view (acceptBaselineEvidence view input passed).1
| step_freeze view files policy next d issues : freezeTestPatch view files policy = Ok (next, d, issues) -> cycle_step view next
| step_red view input : cycle_step view (acceptRedEvidence view input).1
| step_green view input writes planned : cycle_step view (acceptGreenEvidence view input writes planned).1
| step_refactor view input writes : cycle_step view (acceptRefactorEvidence view input writes).1
| step_terminate view crashed reason : cycle_step view (terminateTddCycle view crashed reason).

Definition state_ok (v : TddCycleView) : Prop :=
  match state v with
  | Baseline_guard => baseline_evidence v = None /\ test_patch_digest v = None /\ red_evidence v = None /\ green_evidence v = None /\ refactor_evidence v = None
  | Test_authoring => is_Some (baseline_evidence v) /\ test_patch_digest v = None /\ red_evidence v = None /\ green_evidence v = None /\ refactor_evidence v = None
  | Red_verification =>
      is_Some (baseline_evidence v) /\ is_Some (test_patch_digest v) /\ red_evidence v = None /\ green_evidence v = None /\ refactor_evidence v = None
  | Implementation => is_Some (red_evidence v) /\ green_evidence v = None /\ refactor_evidence v = None
  | Refactor => is_Some (green_evidence v) /\ refactor_evidence v = None
  | Cycle_completed => is_Some (green_evidence v)
  | Blocked | Invalidated => is_Some (block_reason v)
  | _ => False
  end.

Record cycle_ok (v : TddCycleView) : Prop := {
  ck_baseline : forall b, baseline_evidence v = Some b -> bound v baseline_test_result b;
  ck_red : forall r, red_evidence v = Some r -> bound v red_test_result r /\ is_Some (test_patch_digest v) /\ ev_test_patch_digest r = test_patch_digest v /\
    exists b, baseline_evidence v = Some b /\ same_environment b r;
  ck_green : forall g, green_evidence v = Some g -> bound v green_test_result g /\ is_Some (implementation_revision v) /\
    exists r, red_evidence v = Some r /\ ev_test_patch_digest g = ev_test_patch_digest r /\ same_environment r g /\ ev_selector_ids r ≡ₚ ev_selector_ids g;
  ck_refactor : forall f, refactor_evidence v = Some f -> bound v refactor_test_result f /\
    exists g, green_evidence v = Some g /\ ev_test_patch_digest f = ev_test_patch_digest g /\ same_environment g f /\ ev_selector_ids g ≡ₚ ev_selector_ids f;
  ck_state : state_ok v }.

Lemma binding_bound t view input patch selectors kind : bound view t (binding t view input patch selectors kind).
Proof. by split_and!. Qed.

Lemma binding_environment t view input patch selectors kind b : same_binding input b -> same_environment b (binding t view input patch selectors kind).
Proof. done. Qed.

Lemma same_environment_trans e1 e2 e3 : same_environment e1 e2 -> same_environment e1 e3 -> same_environment e2 e3.
Proof. unfold same_environment. intuition congruence. Qed.

Section cycles.
Context `{Hash} `{Collation}.

Lemma move_ok v v' : cycle_step v v' -> cycle_ok v -> cycle_ok v'.
Proof.
  intros Hs Hok. pose proof Hok as [B R G F S]. unfold state_ok in S. destruct Hs as [v input passed|v files policy next d issues Hf|v input|v input writes planned|v input writes|v crashed reason].
  - unfold acceptBaselineEvidence. case_bool_decide as Hst; [|done]. rewrite Hst in S. destruct S as (S1 & S2 & S3 & S4 & S5). cbn [negb].
    destruct passed; cbn [negb fst]; split; cbn; try congruence; intros; simplify_eq; unfold state_ok; cbn; split_and?; eauto; by split_and!.
  - unfold freezeTestPatch in Hf. case_bool_decide as Hst; cbn [negb] in Hf; [|by injection Hf as <- <- <-]. rewrite Hst in S. destruct S as (S1 & S2 & S3 & S4 & S5).
    apply bind_Ok in Hf as (patch & _ & Hf). case_bool_decide; cbn [negb] in Hf; injection Hf as <- <- <-; [|done].
    split; cbn; try congruence; [done|]. unfold state_ok. cbn. split_and?; eauto.
  - destruct (decide (state v = Red_verification)) as [Hst|Hst].
    2:{ unfold acceptRedEvidence. by rewrite bool_decide_false. }
    rewrite Hst in S. destruct S as ([b Hb] & S2 & S3 & S4 & S5). destruct (red_accepted v input Hst (ex_intro _ b Hb)) as (Hi & Hn & Hy).
    destruct (decide ((acceptRedEvidence v input).2 = [])) as [He|He]; [|by rewrite (Hn He)].
    apply Hi in He as [runs Hp]. destruct (Hy runs Hp) as [kind ->]. destruct Hp as (_ & [Hpd Hu] & _). split; cbn; try congruence.
    + done.
    + intros r [= <-]. split; [by split_and!|]. split; [done|]. split; [done|]. exists b. split; [done|]. by apply binding_environment, Hu.
    + unfold state_ok. cbn. split_and?; eauto.
  - destruct (red_evidence v) as [red|] eqn:Hr.
    2:{ unfold acceptGreenEvidence. by rewrite Hr. }
    destruct (decide (state v = Implementation)) as [Hst|Hst].
    2:{ unfold acceptGreenEvidence. by rewrite Hr, bool_decide_false. }
    rewrite Hst in S. destruct S as (S1 & S2 & S3). destruct (green_accepted v red input writes planned Hst Hr) as (Hi & Hn & Hy).
    destruct (decide ((acceptGreenEvidence v input writes planned).2 = [])) as [He|He].
    2:{ by rewrite (Hn He). }
    apply Hi in He as [runs Hp]. rewrite (Hy runs Hp). destruct Hp as (_ & [Hpd Hu] & _ & _ & _ & Hsel). destruct (R red eq_refl) as (R1 & R2 & R3 & b & Hb & Henv).
    split; cbn; try congruence.
    + done.
    + rewrite Hr. intros r [= <-]. eauto 10.
    + intros g [= <-]. split; [by split_and!|]. split; [done|]. exists red. split; [done|]. split; [done|]. split; [|done].
      eapply same_environment_trans; [exact Henv|]. by apply binding_environment, Hu.
    + unfold state_ok. cbn. destruct planned; eauto.
  - destruct (green_evidence v) as [green|] eqn:Hg.
    2:{ unfold acceptRefactorEvidence. by rewrite Hg. }
    destruct (decide (state v = Refactor)) as [Hst|Hst].
    2:{ unfold acceptRefactorEvidence. by rewrite Hg, bool_decide_false. }
    rewrite Hst in S. destruct (refactor_accepted v green input writes Hst Hg) as (Hi & Hn & Hy).
    destruct (decide ((acceptRefactorEvidence v input writes).2 = [])) as [He|He].
    2:{ by rewrite (Hn He). }
    apply Hi in He as [runs Hp]. rewrite (Hy runs Hp). destruct Hp as (_ & [Hpd Hu] & _ & _ & Hsel).
    destruct (G green eq_refl) as (G1 & G2 & red & Hr & G3 & G4 & G5). destruct (R red Hr) as (R1 & R2 & R3 & b & Hb & Henv).
    split; cbn; try congruence.
    + done.
    + done.
    + rewrite Hg. intros g [= <-]. split; [done|]. split; [done|]. eauto 10.
    + intros f [= <-]. split; [by split_and!|]. exists green. split; [done|]. split; [cbn; congruence|]. split; [|done].
      assert (same_environment b (binding refactor_test_result v (vi_evidence input) (test_patch_digest v) (map run_selector_id runs) None)) as Hbf
        by by apply binding_environment, Hu.
      unfold same_environment in *. intuition congruence.
    + unfold state_ok. cbn. split_and?; eauto.
  - unfold terminateTddCycle. split; cbn; try done. unfold state_ok. cbn. destruct crashed; eauto.
Qed.

(** What is accepted stays. *)
Definition keeps (v v' : TddCycleView) : Prop :=
  (forall e, baseline_evidence v = Some e -> baseline_evidence v' = Some e) /\
  (forall d, test_patch_digest v = Some d -> test_patch_digest v' = Some d) /\
  (forall e, red_evidence v = Some e -> red_evidence v' = Some e) /\
  (forall e, green_evidence v = Some e -> green_evidence v' = Some e) /\
  (forall e, refactor_evidence v = Some e -> refactor_evidence v' = Some e).

Lemma move_keeps v v' : cycle_step v v' -> cycle_ok v -> keeps v v'.
Proof.
  intros Hs Hok. pose proof (ck_state _ Hok) as S. unfold state_ok in S. unfold keeps.
  destruct Hs as [v input passed|v files policy next d issues Hf|v input|v input writes planned|v input writes|v crashed reason].
  - unfold acceptBaselineEvidence. case_bool_decide as Hst; [|done]. rewrite Hst in S. destruct S as (S1 & _). cbn [negb].
    destruct passed; cbn; rewrite S1; done.
  - unfold freezeTestPatch in Hf. case_bool_decide as Hst; cbn [negb] in Hf; [|by injection Hf as <- <- <-]. rewrite Hst in S. destruct S as (_ & S2 & _).
    apply bind_Ok in Hf as (patch & _ & Hf). case_bool_decide; cbn [negb] in Hf; injection Hf as <- <- <-; [|done]. cbn. by rewrite S2.
  - unfold acceptRedEvidence. destruct (_ || _) eqn:Hc; [done|]. apply orb_false_iff in Hc as [Hc _]. apply negb_decide_false in Hc. rewrite Hc in S.
    destruct S as (_ & _ & S3 & _). destruct (vi_result input); [|done]. destruct (negb _); [done|]. cbn. by rewrite S3.
  - unfold acceptGreenEvidence. destruct (red_evidence v) as [red|] eqn:Hr; [|cbn [fst]; by rewrite Hr]. case_bool_decide as Hst; cbn [negb fst]; [|cbn [fst]; by rewrite Hr]. rewrite Hst in S.
    destruct S as (_ & S2 & _). destruct (vi_result input); [|cbn [fst]; by rewrite Hr]. destruct (negb _); [cbn [fst]; by rewrite Hr|]. cbn. by rewrite S2.
  - unfold acceptRefactorEvidence. destruct (green_evidence v) as [green|] eqn:Hg; [|cbn [fst]; by rewrite Hg]. case_bool_decide as Hst; cbn [negb fst]; [|cbn [fst]; by rewrite Hg]. rewrite Hst in S.
    destruct S as (_ & S2). destruct (vi_result input); [|cbn [fst]; by rewrite Hg]. destruct (negb _); [cbn [fst]; by rewrite Hg|]. cbn. by rewrite S2.
  - done.
Qed.

Lemma steps_ok v v' : rtc cycle_step v v' -> cycle_ok v -> cycle_ok v' /\ keeps v v'.
Proof.
  induction 1 as [v|v v1 v' Hs _ IH]; intros Hok; [by split_and!|]. destruct (IH (move_ok _ _ Hs Hok)) as [Hok' Hk]. split; [done|].
  pose proof (move_keeps _ _ Hs Hok) as Hk1. unfold keeps in *. naive_solver.
Qed.

Lemma created_ok task assertions contract baseline cycle ordinal v : createTddCycle task assertions contract baseline cycle ordinal = Ok v -> cycle_ok v.
Proof. unfold createTddCycle. intros (c & _ & [= <-])%bind_Ok. by split. Qed.

Lemma record_fields v r : buildTddCycleRecord v = Ok r ->
  cr_status r = status_of v /\ digest_when (baseline_evidence v) = Ok (cr_baseline_evidence_digest r) /\
  digest_when (red_evidence v) = Ok (cr_red_evidence_digest r) /\ digest_when (green_evidence v) = Ok (cr_green_evidence_digest r) /\
  digest_when (refactor_evidence v) = Ok (cr_refactor_evidence_digest r) /\ cr_test_patch_digest r = test_patch_digest v /\
  cr_target_gate_binding_digest r = ev_target_gate_binding_digest <$> baseline_evidence v /\
  cr_executor_environment_digest r = ev_executor_environment_digest <$> baseline_evidence v /\
  cr_implementation_revision r = implementation_revision v /\ (cr_status r <> completed -> is_Some (cr_reason r)) /\
  cr_contract_digest r = contract_digest v /\ cr_assertion_ids r = view_assertion_ids v /\ cr_logical_cycle_id r = logical_cycle_id v /\
  cr_attempt_ordinal r = attempt_ordinal v.
Proof.
  unfold buildTddCycleRecord. cbv zeta. intros (b & Hb & Hr)%bind_Ok. apply bind_Ok in Hr as (rd & Hrd & Hr). apply bind_Ok in Hr as (g & Hg & Hr).
  apply bind_Ok in Hr as (f & Hf & Hr). apply bind_Ok in Hr as (d & _ & [= <-]). cbn. split_and!; try done.
  intros Hn. by rewrite decide_False.
Qed.

Lemma digest_when_Some e o : digest_when (Some e) = Ok o -> exists d, evidenceDigest e = Ok d /\ o = Some d.
Proof. unfold digest_when. destruct (evidenceDigest e) as [d|]; [|done]. cbn. intros [= <-]. by eexists. Qed.

Lemma completed_state v : status_of v = completed -> state v = Cycle_completed.
Proof. unfold status_of. repeat case_decide; done. Qed.

(** The evidence a cycle holds when it is completed. *)
Record proven_chain (v : TddCycleView) (b r g : TddEvidenceBinding) (patch : string) : Prop := {
  pc_evidence : baseline_evidence v = Some b /\ red_evidence v = Some r /\ green_evidence v = Some g /\ test_patch_digest v = Some patch;
  pc_bound : bound v baseline_test_result b /\ bound v red_test_result r /\ bound v green_test_result g;
  pc_patch : ev_test_patch_digest r = Some patch /\ ev_test_patch_digest g = Some patch;
  pc_environment : same_environment b r /\ same_environment b g;
  pc_selectors : ev_selector_ids r ≡ₚ ev_selector_ids g }.

Lemma completed_chain v : cycle_ok v -> state v = Cycle_completed -> exists b r g patch, proven_chain v b r g patch /\ is_Some (implementation_revision v).
Proof.
  intros [B R G F S] Hs. unfold state_ok in S. rewrite Hs in S. destruct S as [g Hg]. destruct (G g Hg) as (G1 & G2 & r & Hr & G3 & G4 & G5).
  destruct (R r Hr) as (R1 & [patch Hp] & R3 & b & Hb & R4). exists b, r, g, patch. split; [|done].
  split; [done| |by rewrite G3, R3| |done].
  - split; [by apply B|done].
  - split; [done|]. unfold same_environment in *. intuition congruence.
Qed.
End cycles.

Lemma sealed_chain `{Hash} v r : cycle_ok v -> buildTddCycleRecord v = Ok r -> cr_status r = completed ->
  exists b red green patch, proven_chain v b red green patch /\ cr_test_patch_digest r = Some patch /\
    (exists db dr dg, evidenceDigest b = Ok db /\ evidenceDigest red = Ok dr /\ evidenceDigest green = Ok dg /\
      cr_baseline_evidence_digest r = Some db /\ cr_red_evidence_digest r = Some dr /\ cr_green_evidence_digest r = Some dg) /\
    is_Some (cr_implementation_revision r).
Proof.
  intros Hok Hb. destruct (record_fields v r Hb) as (F1 & F2 & F3 & F4 & F5 & F6 & F7 & F8 & F9 & F10 & _).
  intros Hst. rewrite F1 in Hst. destruct (completed_chain v Hok (completed_state _ Hst)) as (b & red & g & patch & Hp & Hrev).
  exists b, red, g, patch. destruct (pc_evidence _ _ _ _ _ Hp) as (E1 & E2 & E3 & E4). rewrite E1 in F2. rewrite E2 in F3. rewrite E3 in F4.
  apply digest_when_Some in F2 as (db & D1 & ->), F3 as (dr & D2 & ->), F4 as (dg & D3 & ->). rewrite F6, F9. eauto 12.
Qed.

Lemma sealed_complete `{Hash} v r : cycle_ok v -> buildTddCycleRecord v = Ok r -> complete_record r = true.
Proof.
  intros Hok Hb. destruct (record_fields v r Hb) as (_ & _ & _ & _ & _ & _ & F7 & F8 & _ & F10 & _). unfold complete_record. case_decide as Hst.
  - destruct (sealed_chain v r Hok Hb Hst) as (b & red & g & patch & Hp & -> & (db & dr & dg & _ & _ & _ & -> & -> & ->) & [rev ->]).
    destruct (pc_evidence _ _ _ _ _ Hp) as (E1 & _). rewrite F7, F8, E1. done.
  - by destruct (F10 Hst) as [reason ->].
Qed.

(** An attempt stays with its contract and its number. *)
Lemma move_identity `{Hash} `{Collation} v v' : cycle_step v v' -> contract_digest v' = contract_digest v /\ attempt_ordinal v' = attempt_ordinal v.
Proof.
  intros [u input passed|u files policy next d issues Hf|u input|u input writes planned|u input writes|u crashed reason].
  - unfold acceptBaselineEvidence. destruct (negb _); [done|]. by destruct (negb _).
  - unfold freezeTestPatch in Hf. destruct (negb _); [by injection Hf as <- _ _|]. apply bind_Ok in Hf as (p & _ & Hf). destruct (negb _); by injection Hf as <- _ _.
  - unfold acceptRedEvidence. destruct (_ || _); [done|]. destruct (vi_result input); [|done]. by destruct (negb _).
  - unfold acceptGreenEvidence. destruct (red_evidence u); [|done]. destruct (negb _); [done|]. destruct (vi_result input); [|done]. by destruct (negb _).
  - unfold acceptRefactorEvidence. destruct (green_evidence u); [|done]. destruct (negb _); [done|]. destruct (vi_result input); [|done]. by destruct (negb _).
  - done.
Qed.

(** ** Evidence and its digest *)

Lemma evidence_type_inj t t' : evidence_type_text t = evidence_type_text t' -> t = t'.
Proof. by destruct t, t'. Qed.

Definition evidence_pairs (e : TddEvidenceBinding) : list (string * jsval) :=
  match evidence_binding_json e with JObj fields => fields | _ => [] end.

Lemma evidence_keys e : NoDup (evidence_pairs e).*1.
Proof. apply (bool_decide_unpack _). destruct e as [t a b c d f [p|] g h i j k [l|] m n o]; vm_compute; exact I. Qed.

Lemma evidence_field e e' k : canon (evidence_binding_json e) = canon (evidence_binding_json e') ->
  canon <$> omap_get (evidence_pairs e) k = canon <$> omap_get (evidence_pairs e') k.
Proof. intros Hc. apply canon_fields; [apply evidence_keys..|exact Hc]. Qed.

Lemma evidence_json_inj e e' : canon (evidence_binding_json e) = canon (evidence_binding_json e') -> e = e'.
Proof.
  intros Hc. pose proof (fun k => evidence_field e e' k Hc) as Hk. clear Hc.
  destruct e as [t a b c d f p g h i j k l m n [o1 o2]], e' as [t' a' b' c' d' f' p' g' h' i' j' k' l' m' n' [o1' o2']].
  pose proof (Hk "evidence_type") as K1. pose proof (Hk "task_id") as K2. pose proof (Hk "logical_cycle_id") as K3. pose proof (Hk "attempt_ordinal") as K4.
  pose proof (Hk "contract_digest") as K5. pose proof (Hk "repository_baseline") as K6. pose proof (Hk "test_patch_digest") as K7.
  pose proof (Hk "target_gate_binding_digest") as K8. pose proof (Hk "framework_profile_digest") as K9.
  pose proof (Hk "executor_environment_digest") as K10. pose proof (Hk "selector_ids") as K11. pose proof (Hk "assertion_ids") as K12.
  pose proof (Hk "failure_kind") as K13. pose proof (Hk "grant_digest") as K14. pose proof (Hk "observed_write_set_digest") as K15.
  pose proof (Hk "output_artifact") as K16. clear Hk.
  unfold evidence_pairs, evidence_binding_json in *. cbn [ev_type ev_task_id ev_logical_cycle_id ev_attempt_ordinal ev_contract_digest ev_repository_baseline
    ev_test_patch_digest ev_target_gate_binding_digest ev_framework_profile_digest ev_executor_environment_digest ev_selector_ids ev_assertion_ids
    ev_failure_kind ev_grant_digest ev_observed_write_set_digest ev_output_artifact out_locator out_digest] in *.
  destruct p as [p|], p' as [p'|], l as [l|], l' as [l'|];
    lazy -[strings evidence_type_text canon] in K1, K2, K3, K4, K5, K6, K7, K8, K9, K10, K11, K12, K13, K14, K15, K16;
    try discriminate K7; try discriminate K13; rewrite !canon_strings in K11, K12;
    apply (inj Some) in K1, K2, K3, K4, K5, K6, K8, K9, K10, K11, K12, K14, K15, K16; apply (inj strings) in K11, K12; cbn [canon] in *;
    injection K1 as K1; apply evidence_type_inj in K1; try (injection K7 as K7); try (injection K13 as K13); simplify_eq; try done.
Qed.

Lemma binding_literals e : literals_ok (evidence_binding_json e) = true.
Proof.
  assert (forall l, literals_ok (strings l) = true) as Hs by (intros l; unfold strings; cbn; by induction l as [|x l IH]).
  destruct e as [t a b c d f [p|] g h i j k [l|] m n o]; cbn; by rewrite !Hs.
Qed.

(** A digest stands for one piece of evidence. *)
Lemma evidence_digest_inj `{Hash} e e' d : evidenceDigest e = Ok d -> evidenceDigest e' = Ok d -> e = e' \/ hash_collision.
Proof.
  intros He He'. destruct (contentDigest_inj _ _ d (binding_literals e) (binding_literals e') He He') as [Hc|Hc]; [left|by right].
  by apply evidence_json_inj.
Qed.

(* ------------------------------------------------------------------ *)
(** ** Properties *)

(** C16. What seals a TDD cycle. Whatever evidence is offered in whatever order, a
    record with the status completed holds the digests of a baseline, a red and a
    green evidence of this very task, contract, attempt and assertions, the red and
    the green under the one frozen patch, under the gate, framework and environment
    of the baseline, and over the same selectors; every record has the fields its
    status requires; and what was accepted is never exchanged. *)
Theorem cycle_record_proves `{Hash} `{Collation} task assertions contract baseline cycle ordinal v0 v r :
  createTddCycle task assertions contract baseline cycle ordinal = Ok v0 -> rtc cycle_step v0 v -> buildTddCycleRecord v = Ok r ->
  complete_record r = true /\
  (cr_status r = completed -> exists b red green patch, proven_chain v b red green patch /\ cr_test_patch_digest r = Some patch /\
     exists db dr dg, evidenceDigest b = Ok db /\ evidenceDigest red = Ok dr /\ evidenceDigest green = Ok dg /\
       cr_baseline_evidence_digest r = Some db /\ cr_red_evidence_digest r = Some dr /\ cr_green_evidence_digest r = Some dg) /\
  (forall v', rtc cycle_step v v' -> keeps v v').
Proof.
  intros Hc Hs Hb. destruct (steps_ok _ _ Hs (created_ok _ _ _ _ _ _ _ Hc)) as [Hok _].
  split; [by eapply sealed_complete|split; [|intros v' Hs'; by apply (steps_ok _ _ Hs' Hok)]].
  intros Hst. destruct (sealed_chain v r Hok Hb Hst) as (b & red & g & patch & Hp & Ht & Hx & _). eauto 10.
Qed.

(** C18. Evidence is accepted exactly when it proves what its phase asks for, and a
    refused one changes nothing. Red: a structured result under the frozen patch and
    the binding of the baseline, with a failure of an assertion of the cycle and
    every such failure as the oracle foretold. Green: every selector of the oracle
    ran, every run passed, over the selectors of the red run, and no write outside
    the scopes. Refactor: as green, over the selectors of the green run. *)
Theorem evidence_exact view input :
  (state view = Red_verification -> is_Some (baseline_evidence view) ->
     ((acceptRedEvidence view input).2 = [] <-> exists runs, red_proves view input runs) /\
     ((acceptRedEvidence view input).2 <> [] -> (acceptRedEvidence view input).1 = view)) /\
  (forall red writes planned, state view = Implementation -> red_evidence view = Some red ->
     ((acceptGreenEvidence view input writes planned).2 = [] <-> exists runs, green_proves view input writes (ev_selector_ids red) runs) /\
     ((acceptGreenEvidence view input writes planned).2 <> [] -> (acceptGreenEvidence view input writes planned).1 = view)) /\
  (forall green writes, state view = Refactor -> green_evidence view = Some green ->
     ((acceptRefactorEvidence view input writes).2 = [] <-> exists runs, refactor_proves view input writes (ev_selector_ids green) runs) /\
     ((acceptRefactorEvidence view input writes).2 <> [] -> (acceptRefactorEvidence view input writes).1 = view)).
Proof.
  split_and!.
  - intros Hs Hb. destruct (red_accepted view input Hs Hb) as (H1 & H2 & _). by split.
  - intros red writes planned Hs Hr. destruct (green_accepted view red input writes planned Hs Hr) as (H1 & H2 & _). by split.
  - intros green writes Hs Hg. destruct (refactor_accepted view green input writes Hs Hg) as (H1 & H2 & _). by split.
Qed.

Lemma first_gap_None {A : Type} (gap : A -> option string) l : first_gap gap l = None <-> forall x, x ∈ l -> gap x = None.
Proof.
  induction l as [|x l IH]; cbn.
  - split; [|done]. intros _ x Hx. by apply elem_of_nil in Hx.
  - destruct (gap x) as [r|] eqn:E.
    + split; [done|]. intros Hf. specialize (Hf x ltac:(left)). congruence.
    + rewrite IH. split; [intros Hf y [->|Hy]%elem_of_cons; auto|]. intros Hf y Hy. apply Hf. by right.
Qed.

Lemma assertion_gap_None input a : assertion_gap input a = None <->
  exists cycle, covering (tv_cycles input) a = [cycle] /\ cr_contract_digest cycle = tv_current_contract_digest input /\
    (tv_refactor_planned input = true -> is_Some (cr_refactor_evidence_digest cycle)).
Proof.
  unfold assertion_gap. destruct (covering (tv_cycles input) a) as [|cycle [|c2 l]]; [split; [done|by intros (? & ? & _)]| |split; [done|by intros (? & ? & _)]].
  destruct (bool_decide_reflect (cr_contract_digest cycle = tv_current_contract_digest input)) as [Hc|Hc]; cbn [negb].
  - destruct (tv_refactor_planned input) eqn:Hp; cbn [andb]; [|split; [intros _; by exists cycle|done]].
    destruct (cr_refactor_evidence_digest cycle) as [d|] eqn:Hd; cbn [absent]; [split; [intros _; exists cycle; rewrite Hd; eauto|done]|].
    split; [done|]. intros (c & [= <-] & _ & Hr). rewrite Hd in Hr. by destruct (Hr eq_refl).
  - split; [done|]. by intros (c & [= <-] & ? & _).
Qed.

Lemma proven_verdict input : tt_verdict (computeTaskTddVerdict input) = tdd_proven <->
  tv_capability_enabled input = true /\ tv_historical input = false /\ tv_contract_mode input = required /\
  (forall a, a ∈ tv_required_assertion_ids input -> assertion_gap input a = None) /\ tv_gates_passed input = true /\
  tv_evaluation_passed input <> Some false.
Proof.
  unfold computeTaskTddVerdict. rewrite <- first_gap_None.
  destruct (tv_capability_enabled input); cbn [negb]; [|split; [done|by intros (? & _)]].
  destruct (tv_historical input); [split; [done|by intros (_ & ? & _)]|].
  destruct (tv_contract_mode input).
  - destruct (first_gap _ _); [split; [done|by intros (_ & _ & _ & ? & _)]|]. destruct (tv_gates_passed input); cbn [negb]; [|split; [done|naive_solver]].
    case_bool_decide; [split; [done|naive_solver]|]. split; [done|]. done.
  - destruct (tv_not_applicable_binding input) as [[c r]|]; [destruct (_ <? _)|]; (split; [done|by intros (_ & _ & ? & _)]).
  - destruct (tv_framework_evidence input) as [[[] []]|]; (split; [done|by intros (_ & _ & ? & _)]).
Qed.

(** A record that some run of the cycle machine has sealed. *)
Definition genuine `{Hash} `{Collation} (r : TddCycleRecord) (v : TddCycleView) : Prop :=
  buildTddCycleRecord v = Ok r /\
  exists task assertions contract baseline cycle ordinal v0, createTddCycle task assertions contract baseline cycle ordinal = Ok v0 /\ rtc cycle_step v0 v.

(** C17. What the verdict tdd_proven means. When the records are genuine, every required
    assertion has exactly one completed cycle, it is bound to the current contract,
    and behind it stand a baseline, a red and a green evidence that belong together;
    and the gates passed, and the evaluation did not fail. *)
Theorem proven_task `{Hash} `{Collation} input : (forall r, r ∈ tv_cycles input -> exists v, genuine r v) ->
  tt_verdict (computeTaskTddVerdict input) = tdd_proven ->
  tv_gates_passed input = true /\ tv_evaluation_passed input <> Some false /\
  forall a, a ∈ tv_required_assertion_ids input -> exists r v b red green patch,
    (forall r', r' ∈ tv_cycles input -> cr_status r' = completed -> a ∈ cr_assertion_ids r' -> r' = r) /\
    r ∈ tv_cycles input /\ genuine r v /\ proven_chain v b red green patch /\ a ∈ ev_assertion_ids green /\
    ev_contract_digest green = tv_current_contract_digest input /\ (tv_refactor_planned input = true -> is_Some (refactor_evidence v)).
Proof.
  intros Hg (_ & _ & _ & Ha & Hgates & Hev)%proven_verdict. split; [done|]. split; [done|]. intros a Hin.
  specialize (Ha a Hin). apply assertion_gap_None in Ha as (r & Hc & Hcd & Hrf).
  assert (forall r', r' ∈ covering (tv_cycles input) a <-> r' ∈ tv_cycles input /\ cr_status r' = completed /\ a ∈ cr_assertion_ids r') as Hcov.
  { intros r'. unfold covering. rewrite list_elem_of_In, filter_In, <- list_elem_of_In, andb_true_iff, bool_decide_eq_true, mem_spec. naive_solver. }
  assert (r ∈ covering (tv_cycles input) a) as Hr by (rewrite Hc; left). apply Hcov in Hr as (Hr & Hst & Har). destruct (Hg r Hr) as [v Hv].
  pose proof Hv as (Hb & task & assertions & contract & baseline & cycle & ordinal & v0 & Hcr & Hs).
  destruct (steps_ok _ _ Hs (created_ok _ _ _ _ _ _ _ Hcr)) as [Hok _].
  destruct (record_fields v r Hb) as (F1 & _ & _ & _ & F5 & _ & _ & _ & _ & _ & F11 & F12 & _). rewrite F1 in Hst.
  destruct (completed_chain v Hok (completed_state _ Hst)) as (b & red & green & patch & Hp & _).
  exists r, v, b, red, green, patch. destruct (pc_bound _ _ _ _ _ Hp) as (_ & _ & Hbg). destruct Hbg as (_ & _ & _ & _ & G5 & _ & G7).
  split; [|split; [done|split; [done|split; [done|]]]].
  - intros r' Hr' Hst' Ha'. assert (r' ∈ covering (tv_cycles input) a) as Hx by by apply Hcov. rewrite Hc in Hx. by apply list_elem_of_singleton in Hx.
  - rewrite G7, G5, <- F12, <- F11. split; [done|]. split; [done|]. intros Hpl. destruct (Hrf Hpl) as [d Hd].
    destruct (refactor_evidence v) as [f|]; [by eexists|]. cbn in F5. congruence.
Qed.

(* ------------------------------------------------------------------ *)
(** ** Witnesses *)

Definition sample_input : EvidenceInput := EvInput "gate" "framework" "env" "grant" "writes" (Output "out" "digest").
Definition sample_files : list PatchFile := [MkFile "tests/a.test.ts" "expect(1)"].
Definition sample_oracle : FailureOracle := Oracle ["t1"] ["assertion_failure"] ["as_1"] None None None.
Definition failing : StructuredTestResult := structured [Run_ "t1" false (Some "as_1") (Some "assertion_failure") None None None].
Definition passing : StructuredTestResult := structured [Run_ "t1" true None None None None None].
Definition sample_writes : WriteInput := Writes ["src/a.ts"] ["src/**"] "rev_1".

#[local] Instance identity_hash : Hash := {| sha256 := fun s => s |}.
#[local] Existing Instance by_code_units.

Definition view0 : TddCycleView :=
  View Baseline_guard "cycle_1" 1 "task_1" ["as_1"] "contract" "base" None None None None None None None.
Definition view1 : TddCycleView := Eval vm_compute in (acceptBaselineEvidence view0 sample_input true).1.
Definition frozen2 : result canonical_error (TddCycleView * string * list TddEvidenceIssueCode) := Eval vm_compute in freezeTestPatch view1 sample_files sample_path_policy.
Definition view2 : TddCycleView := Eval vm_compute in match frozen2 with Ok (v, _, _) => v | Err _ => view1 end.
Definition patch2 : string := Eval vm_compute in match frozen2 with Ok (_, d, _) => d | Err _ => "" end.
Definition view3 : TddCycleView := Eval vm_compute in (acceptRedEvidence view2 (Verification sample_input patch2 sample_oracle failing)).1.
Definition view4 : TddCycleView := Eval vm_compute in (acceptGreenEvidence view3 (Verification sample_input patch2 sample_oracle passing) sample_writes false).1.
Definition sample_record : TddCycleRecord := Eval vm_compute in
  match buildTddCycleRecord view4 with Ok r => r | Err _ => CycleRecord "" 0 "" [] "" "" None None None None None None None None blocked None "" end.

Lemma sample_steps : rtc cycle_step view0 view4.
Proof.
  eapply rtc_l; [apply (step_baseline view0 sample_input true)|]. change (acceptBaselineEvidence view0 sample_input true).1 with view1.
  eapply rtc_l; [apply (step_freeze view1 sample_files sample_path_policy view2 patch2 []); vm_compute; reflexivity|].
  eapply rtc_l; [apply (step_red view2 (Verification sample_input patch2 sample_oracle failing))|].
  eapply rtc_l; [apply (step_green _ (Verification sample_input patch2 sample_oracle passing) sample_writes false)|].
  apply reflexive_eq. vm_compute. reflexivity.
Qed.

Lemma sample_created : createTddCycle "task_1" ["as_1"] "contract" "base" (Some "cycle_1") None = Ok view0.
Proof. reflexivity. Qed.

Lemma sample_built : buildTddCycleRecord view4 = Ok sample_record.
Proof. vm_compute. reflexivity. Qed.

Lemma cycle_record_proves_witness : complete_record sample_record = true /\ cr_status sample_record = completed /\
  exists b red green patch, proven_chain view4 b red green patch.
Proof.
  destruct (cycle_record_proves _ _ _ _ _ _ _ _ _ sample_created sample_steps sample_built) as (H1 & H2 & _).
  split; [exact H1|]. split; [reflexivity|]. destruct (H2 eq_refl) as (b & red & green & patch & Hp & _). by exists b, red, green, patch.
Defined.

Lemma evidence_exact_witness : state view2 = Red_verification /\
  (acceptRedEvidence view2 (Verification sample_input patch2 sample_oracle failing)).2 = [] /\
  (acceptRedEvidence view2 (Verification sample_input patch2 sample_oracle passing)).1 = view2.
Proof.
  split; [reflexivity|]. split; [reflexivity|].
  apply (evidence_exact view2 (Verification sample_input patch2 sample_oracle passing)); [reflexivity|by eexists|]. vm_compute. discriminate.
Defined.

Definition sample_verdict : TaskTddVerdictInput :=
  VerdictInput true false required ["as_1"] [sample_record] "contract" true (Some true) None None false.

Lemma proven_task_witness : tt_verdict (computeTaskTddVerdict sample_verdict) = tdd_proven /\
  exists r v b red green patch, r ∈ tv_cycles sample_verdict /\ genuine r v /\ proven_chain v b red green patch.
Proof.
  split; [reflexivity|].
  assert (forall r, r ∈ tv_cycles sample_verdict -> exists v, genuine r v) as Hg.
  { intros r ->%list_elem_of_singleton. exists view4. split; [exact sample_built|].
    exists "task_1", ["as_1"], "contract", "base", (Some "cycle_1"), None, view0. split; [exact sample_created|exact sample_steps]. }
  destruct (proven_task sample_verdict Hg eq_refl) as (_ & _ & Ha).
  destruct (Ha "as_1" ltac:(left)) as (r & v & b & red & green & patch & _ & H1 & H2 & H3 & _). by exists r, v, b, red, green, patch.
Defined.

(** The verdict on a task without required assertions needs no cycle at all. *)
Example nothing_required_is_proven :
  tt_verdict (computeTaskTddVerdict (VerdictInput true false required [] [] "contract" true None None None true)) = tdd_proven.
Proof. reflexivity. Qed.
