(* ===== verification/TddWorkspace.v ===== *)
(** * Workspaces of the TDD phases

    [packages/runtime/src/tdd/workspace.ts]: the port of isolated workspaces, what
    a client may rely on, and the in-memory adapter. *)

From stdpp Require Import gmap.
From S2P Require Import Prelude Locator Json Task Policy Grant Tdd TddPatch.

(** ** The port

    An operation of a port takes the world to an answer or the message of an
    error, and to the world after it. *)

Definition port (W A : Type) : Type := W -> result string A * W.

Inductive TddWorkspacePurpose : Type :=
| ws_baseline | ws_test_authoring | ws_red_verification | ws_implementation | ws_refactor | ws_task_execution.
#[export] Instance TddWorkspacePurpose_eq_dec : EqDecision TddWorkspacePurpose.
Proof. solve_decision. Defined.

Definition purpose_text (p : TddWorkspacePurpose) : string :=
  match p with
  | ws_baseline => "baseline" | ws_test_authoring => "test_authoring" | ws_red_verification => "red_verification"
  | ws_implementation => "implementation" | ws_refactor => "refactor" | ws_task_execution => "task_execution"
  end.

Record WorkspaceHandle : Type := Handle
  { workspace_id : string; purpose : TddWorkspacePurpose; baseline_commit : string; files_digest : string }.

Class IsolatedWorkspacePort (W : Type) : Type := {
  create : string -> TddWorkspacePurpose -> port W WorkspaceHandle;
  applyFiles : WorkspaceHandle -> list PatchFile -> port W unit;
  diff : WorkspaceHandle -> port W (list PatchFile);
  reset : WorkspaceHandle -> port W unit;
  destroy : WorkspaceHandle -> port W unit }.

(** The texts of the errors thrown by the canonical writer and the grants. *)
Class ErrorTexts : Type := { canonical_text : canonical_error -> string; grant_text : tdd_error -> string }.

(** What a client relies on: which workspaces are there, that a [create] that
    returns adds the one it hands out and a [destroy] that returns takes its own
    away. Of operations that fail, only that none but [create] adds any. *)
Class WorkspaceLaws (W : Type) `{IsolatedWorkspacePort W} : Type := {
  live : W -> gset string;
  create_live : forall commit p w h w', create commit p w = (Ok h, w') -> live w' ⊆ {[workspace_id h]} ∪ live w;
  applyFiles_live : forall h files w, live (applyFiles h files w).2 ⊆ live w;
  diff_live : forall h w, live (diff h w).2 ⊆ live w;
  destroy_live : forall h w, match destroy h w with
    | (Ok _, w') => live w' ⊆ live w ∖ {[workspace_id h]}
    | (Err _, w') => live w' ⊆ live w
    end }.

(** A [create] that fails leaves no workspace. *)
Definition clean_create {W} `{WorkspaceLaws W} : Prop :=
  forall commit p w e w', create commit p w = (Err e, w') -> live w' ⊆ live w.

(** ** The in-memory adapter *)

Record MemoryWorkspaces : Type := Memory
  { counter : Z;
    workspaces : gmap string (list (string * string)) }.

Section in_memory.
Context `{Hash} `{Collation} `{ErrorTexts}.
Variables (baseline : list (string * string)) (baselineCommit : string).

Definition baselineDigest : result canonical_error string :=
  contentDigest (JArr (map (fun e => JArr [JStr e.1; JStr e.2])
    (js_sort (fun left right : string * string => localeCompare left.1 right.1) baseline))).

(** The handle is kept with the files, and nothing reads it. *)
Definition memory_create (commit : string) (p : TddWorkspacePurpose) : port MemoryWorkspaces WorkspaceHandle := fun s =>
  let count := (counter s + 1)%Z in
  let s := Memory count (workspaces s) in
  match baselineDigest, contentDigest (JStr (baselineCommit +:+ ":" +:+ purpose_text p +:+ ":" +:+ dec count)) with
  | Ok files, Ok d =>
      let handle := Handle ("workspace_" +:+ str_take 16 d) p commit files in
      (Ok handle, Memory count (<[workspace_id handle := baseline]> (workspaces s)))
  | Err e, _ | _, Err e => (Err (canonical_text e), s)
  end.

Definition with_workspace {A} (handle : WorkspaceHandle) (f : list (string * string) -> A * list (string * string)) :
    port MemoryWorkspaces A := fun s =>
  match workspaces s !! workspace_id handle with
  | None => (Err "unknown workspace", s)
  | Some files => (Ok (f files).1, Memory (counter s) (<[workspace_id handle := (f files).2]> (workspaces s)))
  end.

Definition set_file (files : list (string * string)) (file : PatchFile) : list (string * string) :=
  omap_set files (pf_path file) (pf_content file).

Definition memory_applyFiles (handle : WorkspaceHandle) (files : list PatchFile) : port MemoryWorkspaces unit :=
  with_workspace handle (fun present => ((), foldl set_file present files)).

Definition changed (files : list (string * string)) : list PatchFile :=
  omap (fun e => if decide (omap_get baseline e.1 = Some e.2) then None else Some (MkFile e.1 e.2)) files.

Definition memory_diff (handle : WorkspaceHandle) : port MemoryWorkspaces (list PatchFile) :=
  with_workspace handle (fun files =>
    (js_sort (fun left right => localeCompare (pf_path left) (pf_path right)) (changed files), files)).

Definition memory_reset (handle : WorkspaceHandle) : port MemoryWorkspaces unit :=
  with_workspace handle (fun _ => ((), baseline)).

Definition memory_destroy (handle : WorkspaceHandle) : port MemoryWorkspaces unit := fun s =>
  (Ok (), Memory (counter s) (delete (workspace_id handle) (workspaces s))).

Definition createInMemoryWorkspacePort : IsolatedWorkspacePort MemoryWorkspaces := {|
  create := memory_create;
  applyFiles := memory_applyFiles;
  diff := memory_diff;
  reset := memory_reset;
  destroy := memory_destroy |}.

(* ------------------------------------------------------------------ *)
(** ** Laws *)

Lemma with_workspace_live {A} handle (f : list (string * string) -> A * list (string * string)) s :
  dom (workspaces (with_workspace handle f s).2) ⊆ dom (workspaces s).
Proof.
  unfold with_workspace. destruct (workspaces s !! workspace_id handle) as [files|] eqn:E; cbn; [|done].
  rewrite dom_insert_lookup_L by (by rewrite E). done.
Qed.

Definition in_memory_laws : @WorkspaceLaws MemoryWorkspaces createInMemoryWorkspacePort.
Proof.
  refine (@Build_WorkspaceLaws _ createInMemoryWorkspacePort (fun s => dom (workspaces s)) _ _ _ _); cbn.
  - intros commit p w h w'. unfold memory_create.
    destruct baselineDigest as [files|e]; [|done]. destruct (contentDigest _) as [d|e]; [|done]. intros [= <- <-]. cbn. by rewrite dom_insert_L.
  - intros. apply with_workspace_live.
  - intros. apply with_workspace_live.
  - intros h w. cbn. by rewrite dom_delete_L.
Defined.

(** The last content a list of files gives to a path. *)
Fixpoint content_in (files : list PatchFile) (path : string) : option string :=
  match files with
  | [] => None
  | f :: files' => match content_in files' path with
                   | Some c => Some c
                   | None => if decide (pf_path f = path) then Some (pf_content f) else None
                   end
  end.

Lemma applied_get files : forall present path,
  omap_get (foldl set_file present files) path = match content_in files path with Some c => Some c | None => omap_get present path end.
Proof.
  induction files as [|f files IH]; intros present path; [done|]. cbn. rewrite IH. destruct (content_in files path); [done|].
  unfold set_file. rewrite omap_get_set. by case_decide.
Qed.

Lemma applied_keys files : forall present, NoDup present.*1 -> NoDup (foldl set_file present files).*1.
Proof. induction files as [|f files IH]; intros present Hn; [done|]. by apply IH, omap_set_NoDup. Qed.

Lemma elem_of_changed files f : NoDup files.*1 ->
  f ∈ changed files <-> omap_get files (pf_path f) = Some (pf_content f) /\ omap_get baseline (pf_path f) <> Some (pf_content f).
Proof.
  intros Hn. unfold changed. rewrite list_elem_of_omap. split.
  - intros ([p c] & Hin & Hf). cbn in Hf. case_decide as Hd; [done|]. injection Hf as <-. cbn. split; [by apply elem_omap_get|done].
  - intros [Hg Hb]. exists (pf_path f, pf_content f). split; [by apply omap_get_elem|]. cbn. rewrite decide_False by done. by destruct f.
Qed.

Lemma changed_NoDup files : NoDup files.*1 -> NoDup (map pf_path (changed files)).
Proof.
  induction files as [|[p c] files IH]; [constructor|]. cbn. intros [Hp Hn]%NoDup_cons. unfold changed. cbn. case_decide; [by apply IH|].
  cbn. apply NoDup_cons. split; [|by apply IH]. intros (f & Hfp & Hin)%list_elem_of_In%in_map_iff. apply list_elem_of_In in Hin.
  apply list_elem_of_omap in Hin as ([p' c'] & Hin & Hx). cbn in Hx. case_decide; [done|]. injection Hx as <-. cbn in Hfp. subst p'.
  apply Hp, list_elem_of_fmap. by exists (p, c').
Qed.

(** What a workspace answers as its changes are the files whose content is not
    the one of the baseline, each once. *)
Lemma memory_diff_exact handle s files : NoDup files.*1 -> workspaces s !! workspace_id handle = Some files ->
  exists l, memory_diff handle s = (Ok l, Memory (counter s) (workspaces s)) /\ NoDup (map pf_path l) /\
    forall f, f ∈ l <-> omap_get files (pf_path f) = Some (pf_content f) /\ omap_get baseline (pf_path f) <> Some (pf_content f).
Proof.
  intros Hn Hs. unfold memory_diff, with_workspace. rewrite Hs. cbn. rewrite insert_id by done. eexists. split; [reflexivity|]. split.
  - rewrite js_sort_Permutation. by apply changed_NoDup.
  - intros f. rewrite elem_of_js_sort. by apply elem_of_changed.
Qed.

Lemma content_in_Some l f : NoDup (map pf_path l) -> f ∈ l -> content_in l (pf_path f) = Some (pf_content f).
Proof.
  induction l as [|x l IH]; cbn; [by intros _ ?%elem_of_nil|]. intros [Hx Hn]%NoDup_cons [->|Hf]%elem_of_cons; [|by rewrite IH].
  assert (content_in l (pf_path x) = None) as ->; [|by rewrite decide_True].
  clear IH Hn. induction l as [|y l IH]; [done|]. cbn in *. rewrite IH by set_solver. rewrite decide_False; [done|]. set_solver.
Qed.

Lemma content_in_elem l path c : content_in l path = Some c -> MkFile path c ∈ l.
Proof.
  induction l as [|x l IH]; cbn; [done|]. destruct (content_in l path) as [c'|].
  - intros [= <-]. right. by apply IH.
  - case_decide as Hd; [|done]. intros [= <-]. rewrite <- Hd. destruct x. left.
Qed.

(** A workspace is reconstructed from the baseline and its changes: applied to a
    fresh workspace they are its changes again. *)
Lemma diff_reconstructs files l : NoDup baseline.*1 -> NoDup files.*1 -> (forall p, p ∈ baseline.*1 -> p ∈ files.*1) ->
  l ≡ₚ changed files -> NoDup (map pf_path l) -> changed (foldl set_file baseline l) ≡ₚ l.
Proof.
  intros Hb Hf Hsub Hl Hn. apply NoDup_Permutation.
  - eapply NoDup_fmap_1. by apply changed_NoDup, applied_keys.
  - by apply NoDup_fmap_1 in Hn.
  - intros f. rewrite (elem_of_changed _ f) by (by apply applied_keys). rewrite applied_get. split.
    + intros [Hg Hne]. destruct (content_in l (pf_path f)) as [c|] eqn:Hc; [|congruence]. injection Hg as ->.
      apply content_in_elem in Hc. by destruct f.
    + intros Hin. rewrite (content_in_Some l f) by done. split; [done|]. rewrite Hl in Hin. by apply elem_of_changed in Hin as [_ ?].
Qed.
End in_memory.
