(* ===== verification/TddRunner.v ===== *)
(** * Running a task under strict TDD

    [packages/runtime/src/tdd/execution-runner.ts]: the chain of baseline, test authoring, red, implementation,
    green and refactor over ports for the workspaces, the gate, the executor and
    the evidence store. The text of an error enters the reason of a record; the
    texts of the errors the runner's own helpers throw are a parameter. *)

From S2P Require Import Prelude Regex Locator Json Task Policy Grant Secrets Tdd TddPatch TddCycle TddWorkspace.

(** ** Contracts *)

Record TddPhaseBudget : Type := PhaseBudget { max_runs : Z; max_steps : option Z; max_tokens : option Z }.

Record AssertionCluster : Type := Cluster
  { cl_logical_cycle_id : string;
    cl_assertion_ids : list string;
    cl_target_gate_id : string;
    cl_target_test_selectors : list string;
    cl_failure_oracle : FailureOracle;
    cl_path_policy : TddPathPolicy;
    cl_framework_profile_digest : string;
    cl_refactor_planned : bool }.

Record TaskTddContract : Type := Contract
  { ct_task_id : string;
    ct_contract_mode : TddContractMode;
    ct_capability_plan_digest : string;
    ct_assertion_clusters : list AssertionCluster;
    ct_test_authoring : TddPhaseBudget;
    ct_implementation : TddPhaseBudget;
    ct_refactor : option TddPhaseBudget;
    ct_contract_digest : string }.

(** ** Ports *)

Inductive GatePhase : Type := gate_baseline | gate_red | gate_green | gate_refactor.
#[export] Instance GatePhase_eq_dec : EqDecision GatePhase.
Proof. solve_decision. Defined.

Record StrictTddGateObservation : Type := Observation
  { ob_result : StructuredTestResult;
    ob_target_gate_binding_digest : string;
    ob_framework_profile_digest : string;
    ob_executor_environment_digest : string;
    ob_output_artifact : OutputArtifact }.

(** The gate, the executor and the evidence store. *)
Class StrictTddPorts (W : Type) : Type := {
  run : GatePhase -> TaskSpecification -> TaskTddContract -> WorkspaceHandle -> string -> list string -> CapabilityGrant ->
        port W StrictTddGateObservation;
  authorTests : TaskSpecification -> TaskTddContract -> WorkspaceHandle -> CapabilityGrant -> port W (list PatchFile);
  implement : TaskSpecification -> TaskTddContract -> WorkspaceHandle -> CapabilityGrant -> string -> port W (list PatchFile * string);
  refactor_code : option (TaskSpecification -> TaskTddContract -> WorkspaceHandle -> CapabilityGrant -> string -> string ->
                          port W (list PatchFile * string));
  listCycles : string -> port W (list TddCycleRecord);
  listEvidence : string -> port W (list TddEvidenceBinding);
  appendEvidence : TddEvidenceBinding -> port W unit;
  appendCycle : TddCycleRecord -> port W unit;
  readBaseline : port W string }.

(** ** The in-memory evidence store *)

Record MemoryEvidence : Type := Stored { stored_evidence : list TddEvidenceBinding; stored_cycles : list TddCycleRecord }.

Definition memory_listCycles (cycle : string) : port MemoryEvidence (list TddCycleRecord) := fun s =>
  (Ok (List.filter (fun r => bool_decide (cr_logical_cycle_id r = cycle)) (stored_cycles s)), s).

Definition memory_listEvidence (cycle : string) : port MemoryEvidence (list TddEvidenceBinding) := fun s =>
  (Ok (List.filter (fun e => bool_decide (ev_logical_cycle_id e = cycle)) (stored_evidence s)), s).

Definition memory_appendEvidence `{Hash} `{ErrorTexts} (e : TddEvidenceBinding) : port MemoryEvidence unit := fun s =>
  match evidenceDigest e, mapM evidenceDigest (stored_evidence s) with
  | Ok digest, Ok digests => (Ok (), if mem digest digests then s else Stored (stored_evidence s ++ [e]) (stored_cycles s))
  | Err e, _ | _, Err e => (Err (canonical_text e), s)
  end.

Definition same_attempt (r r' : TddCycleRecord) : bool :=
  bool_decide (cr_logical_cycle_id r' = cr_logical_cycle_id r) && bool_decide (cr_attempt_ordinal r' = cr_attempt_ordinal r).

Definition memory_appendCycle (r : TddCycleRecord) : port MemoryEvidence unit := fun s =>
  if existsb (same_attempt r) (stored_cycles s)
  then (Err ("immutable TDD attempt already exists: " +:+ cr_logical_cycle_id r +:+ "/" +:+ dec (cr_attempt_ordinal r)), s)
  else (Ok (), Stored (stored_evidence s) (stored_cycles s ++ [r])).

(** ** The run of a task *)

Record CompletedOutcome : Type := Completed_
  { co_task_id : string;
    co_cycle : TddCycleRecord;
    co_evidence : list TddEvidenceBinding;
    co_grants : list CapabilityGrant;
    co_implementation_revision : option string;
    co_replayed : bool }.

Record BlockedOutcome : Type := Blocked_
  { bo_task_id : string;
    bo_cycle : TddCycleRecord;
    bo_evidence : list TddEvidenceBinding;
    bo_grants : list CapabilityGrant;
    bo_issues : list TddEvidenceIssueCode;
    bo_reason : string }.

Inductive StrictTddTaskOutcome : Type := run_completed (o : CompletedOutcome) | run_blocked (o : BlockedOutcome).

(** How the promise of [runTask] settles. *)
Inductive settlement : Type := Resolved (o : StrictTddTaskOutcome) | Rejected_ (message : string).

(** The variables of [runTask] and the world of the ports. *)
Record Vars (W : Type) : Type := Variables
  { world : W;
    current : TddCycleView;
    grants : list CapabilityGrant;
    handles : list WorkspaceHandle;
    accepted : list TddEvidenceBinding }.
Arguments Variables {W} _ _ _ _ _.
Arguments world {W} _.
Arguments current {W} _.
Arguments grants {W} _.
Arguments handles {W} _.
Arguments accepted {W} _.

(** Where a statement of the try block goes: to the next one, out with the
    outcome [return stop(..)] gives, to the catch clause with an error, or out
    with the error of a [stop] that failed, which the catch clause does not see
    since the block returns the promise of [stop] without awaiting it. *)
Inductive flow (A : Type) : Type :=
| Next (a : A)
| Leave (o : BlockedOutcome)
| Thrown (message : string)
| Failed_stop (message : string).
Arguments Next {A} a.
Arguments Leave {A} o.
Arguments Thrown {A} message.
Arguments Failed_stop {A} message.

Definition runM (W A : Type) : Type := Vars W -> flow A * Vars W.

#[export] Instance runM_ret W : MRet (runM W) := fun A a v => (Next a, v).
#[export] Instance runM_bind W : MBind (runM W) := fun A B f m v =>
  match m v with
  | (Next a, v') => f a v'
  | (Leave o, v') => (Leave o, v')
  | (Thrown e, v') => (Thrown e, v')
  | (Failed_stop e, v') => (Failed_stop e, v')
  end.

Definition set_world {W} (w : W) (v : Vars W) : Vars W := Variables w (current v) (grants v) (handles v) (accepted v).
Definition set_current {W} (view : TddCycleView) (v : Vars W) : Vars W := Variables (world v) view (grants v) (handles v) (accepted v).

Definition call {W A} (p : port W A) : runM W A := fun v =>
  match p (world v) with
  | (Ok a, w) => (Next a, set_world w v)
  | (Err e, w) => (Thrown e, set_world w v)
  end.
Definition attempt {W E A} (text : E -> string) (m : result E A) : runM W A := fun v =>
  match m with Ok a => (Next a, v) | Err e => (Thrown (text e), v) end.
Definition get {W A} (f : Vars W -> A) : runM W A := fun v => (Next (f v), v).
Definition modify {W} (f : Vars W -> Vars W) : runM W unit := fun v => (Next (), f v).

Definition budgetOf (phase : TddPhaseBudget) (fallback : GrantBudget) : GrantBudget :=
  Budget_ (NInt (default (max_runs phase) (max_steps phase))) (from_option NInt (Grant.tokens fallback) (max_tokens phase)).

Definition gatePassed (result : StructuredTestResult) : bool :=
  match result with structured runs => (0 <? length runs)%nat && forallb run_passed runs | unstructured _ => false end.

Section runner.
Context {W : Type} `{Hash} `{Collation} `{ErrorTexts} `{IsolatedWorkspacePort W} `{StrictTddPorts W}.
Variables (effectivePolicy : EffectivePolicy) (task : TaskSpecification) (contract : TaskTddContract) (cluster : AssertionCluster).

Definition evidenceInput (observation : StrictTddGateObservation) (grant : CapabilityGrant) (files : list PatchFile) :
    result canonical_error EvidenceInput :=
  entries ← mapM (fun file => d ← contentDigest (JStr (pf_content file)); Ok (Entry (pf_path file) d)) files;
  observed ← contentDigest (JArr (map entry_json entries));
  Ok (EvInput (ob_target_gate_binding_digest observation) (ob_framework_profile_digest observation)
        (ob_executor_environment_digest observation) (grant_digest grant) observed (ob_output_artifact observation)).

Definition fallback : GrantBudget := Budget_ (NInt (Task.steps (Task.budget task))) (NInt (Task.tokens (Task.budget task))).
Definition authorBudget : GrantBudget := budgetOf (ct_test_authoring contract) fallback.
Definition implementationBudget : GrantBudget := budgetOf (ct_implementation contract) fallback.

Definition phaseGrant (state : TddPhaseGrantState) (budget : GrantBudget) (proof_digest : option string) : runM W CapabilityGrant :=
  existing ← get grants;
  issued ← attempt grant_text
    (issueTddPhaseGrant (TddInput state (Task.id task) (cl_path_policy cluster) budget effectivePolicy [] proof_digest) existing);
  let '(grant, reused) := issued in
  _ ← (if (reused : bool) then mret () else modify (fun v => Variables (world v) (current v) (grants v ++ [grant]) (handles v) (accepted v)));
  mret grant.

Definition createWorkspace (purpose : TddWorkspacePurpose) : runM W WorkspaceHandle :=
  baseline ← get (fun v => repository_baseline (current v));
  handle ← call (create baseline purpose);
  _ ← modify (fun v => Variables (world v) (current v) (grants v) (handles v ++ [handle]) (accepted v));
  mret handle.

Definition effectivePhaseScopes (state : TddPhaseGrantState) (grant : CapabilityGrant) : option (list string) :=
  paths ← Task.write_paths task;
  Some (effectiveTddWriteScopes paths (Grant.write_paths grant) (tddPhaseWriteScopes state (cl_path_policy cluster)) (Grant.write_paths grant)).

Definition persistEvidence (value : TddEvidenceBinding) : runM W unit :=
  _ ← call (appendEvidence value);
  modify (fun v => Variables (world v) (current v) (grants v) (handles v) (accepted v ++ [value])).

(** [return stop(reason, issues, status)] *)
Definition stop {A} (reason : string) (issues : list TddEvidenceIssueCode) (crashed : bool) : runM W A := fun v =>
  let v := set_current (terminateTddCycle (current v) crashed reason) v in
  match buildTddCycleRecord (current v) with
  | Err e => (Failed_stop (canonical_text e), v)
  | Ok cycle =>
      match appendCycle cycle (world v) with
      | (Err e, w) => (Failed_stop e, set_world w v)
      | (Ok _, w) => (Leave (Blocked_ (Task.id task) cycle (accepted v) (grants v) issues reason), set_world w v)
      end
  end.

(** [if (condition) return stop(reason, issues);] *)
Definition stop_if (condition : bool) (reason : string) (issues : list TddEvidenceIssueCode) : runM W unit :=
  if condition then stop reason issues false else mret ().

Definition empty_scopes (scopes : option (list string)) : bool := bool_decide (scopes = Some []).

Definition emptyScopeStop (state : TddPhaseGrantState) (scopes : option (list string)) : runM W unit :=
  stop_if (empty_scopes scopes) ("empty effective write scope for " +:+ state_text state) [write_set_violation].

Definition run_gate (phase : GatePhase) (workspace : WorkspaceHandle) (grant : CapabilityGrant) : runM W StrictTddGateObservation :=
  call (run phase task contract workspace (cl_target_gate_id cluster) (cl_target_test_selectors cluster) grant).

Definition baseline_phase : runM W unit :=
  workspace ← createWorkspace ws_baseline;
  grant ← phaseGrant baseline_guard authorBudget None;
  observation ← run_gate gate_baseline workspace grant;
  _ ← stop_if (negb (bool_decide (ob_framework_profile_digest observation = cl_framework_profile_digest cluster)))
        "baseline framework profile drift" [binding_drift];
  changes ← call (diff workspace);
  _ ← stop_if (negb (bool_decide (changes = []))) "baseline workspace was modified" [write_set_violation];
  input ← attempt canonical_text (evidenceInput observation grant changes);
  view ← get current;
  let '(next, issues) := acceptBaselineEvidence view input (gatePassed (ob_result observation)) in
  _ ← modify (set_current next);
  _ ← match baseline_evidence next with Some e => persistEvidence e | None => mret () end;
  stop_if (negb (bool_decide (issues = [])) || bool_decide (state next = Blocked))
    (default "baseline evidence rejected" (block_reason next)) issues.

(** The frozen patch and its digest. *)
Definition author_phase : runM W (list PatchFile * string) :=
  workspace ← createWorkspace ws_test_authoring;
  grant ← phaseGrant test_authoring authorBudget None;
  let scopes := effectivePhaseScopes test_authoring grant in
  _ ← emptyScopeStop test_authoring scopes;
  files ← call (authorTests task contract workspace grant);
  _ ← match scopes with
      | Some scopes => stop_if (negb (bool_decide (attestWriteSet (map pf_path files) scopes = [])))
                         "test authoring wrote outside the effective write scope" [write_set_violation]
      | None => mret ()
      end;
  _ ← call (applyFiles workspace files);
  testPatch ← call (diff workspace);
  view ← get current;
  frozen ← attempt canonical_text (freezeTestPatch view testPatch (cl_path_policy cluster));
  let '(next, digest, issues) := frozen in
  _ ← stop_if (negb (bool_decide (issues = []))) "test-authoring patch violates the approved path policy" issues;
  _ ← modify (set_current next);
  mret (testPatch, digest).

(** [canonicalTestPatch(files).patch_digest !== digest] *)
Definition patch_differs (files : list PatchFile) (digest : string) : runM W bool :=
  patch ← attempt canonical_text (canonicalTestPatch files);
  mret (negb (bool_decide (patch_digest patch = digest))).

Definition digest_of_evidence (e : option TddEvidenceBinding) : runM W string :=
  match e with Some e => attempt canonical_text (evidenceDigest e) | None => attempt canonical_text (contentDigest JUndefined) end.

(** The digest of the accepted evidence. *)
Definition red_phase (testPatch : list PatchFile) (digest : string) : runM W string :=
  workspace ← createWorkspace ws_red_verification;
  _ ← call (applyFiles workspace testPatch);
  grant ← phaseGrant red_verification authorBudget None;
  observation ← run_gate gate_red workspace grant;
  changes ← call (diff workspace);
  drift ← patch_differs changes digest;
  _ ← stop_if drift "red workspace cannot be reconstructed from the frozen patch" [patch_drift];
  input ← attempt canonical_text (evidenceInput observation grant changes);
  view ← get current;
  let '(next, issues) := acceptRedEvidence view (Verification input digest (cl_failure_oracle cluster) (ob_result observation)) in
  _ ← stop_if (negb (bool_decide (issues = [])) || absent (red_evidence next)) "RedEvidence was not accepted" issues;
  _ ← modify (set_current next);
  _ ← match red_evidence next with Some e => persistEvidence e | None => mret () end;
  digest_of_evidence (red_evidence next).

(** What the implementer changed outside production code. *)
Definition preserved (files : list PatchFile) : list PatchFile :=
  List.filter (fun file => negb (bool_decide (classifyPath (pf_path file) (cl_path_policy cluster) = Some scope_production))) files.

Definition implementation_phase (testPatch : list PatchFile) (digest redDigest : string) : runM W (list PatchFile * string) :=
  workspace ← createWorkspace ws_implementation;
  _ ← call (applyFiles workspace testPatch);
  grant ← phaseGrant implementation implementationBudget (Some redDigest);
  let scopes := effectivePhaseScopes implementation grant in
  _ ← emptyScopeStop implementation scopes;
  result ← call (implement task contract workspace grant redDigest);
  let '(files, revision) := result in
  _ ← stop_if (negb (bool_decide (attestWriteSet (map pf_path files) (default (Grant.write_paths grant) scopes) = [])))
        "implementation wrote outside the effective write scope" [write_set_violation];
  _ ← call (applyFiles workspace files);
  changes ← call (diff workspace);
  drift ← patch_differs (preserved changes) digest;
  _ ← stop_if drift "implementation changed the accepted test patch" [patch_drift];
  observation ← run_gate gate_green workspace grant;
  input ← attempt canonical_text (evidenceInput observation grant changes);
  view ← get current;
  let '(next, issues) :=
    acceptGreenEvidence view (Verification input digest (cl_failure_oracle cluster) (ob_result observation))
      (Writes (map pf_path files) (Grant.write_paths grant) revision) (cl_refactor_planned cluster) in
  _ ← stop_if (negb (bool_decide (issues = [])) || absent (green_evidence next)) "GreenEvidence was not accepted" issues;
  _ ← modify (set_current next);
  _ ← match green_evidence next with Some e => persistEvidence e | None => mret () end;
  mret (files, revision).

Definition refactor_phase (testPatch : list PatchFile) (digest : string) (files : list PatchFile) (revision : string) : runM W unit :=
  match refactor_code, ct_refactor contract with
  | Some refactor_with, Some budget =>
      view ← get current;
      greenDigest ← digest_of_evidence (green_evidence view);
      workspace ← createWorkspace ws_refactor;
      _ ← call (applyFiles workspace (testPatch ++ files));
      grant ← phaseGrant refactor (budgetOf budget fallback) (Some greenDigest);
      let scopes := effectivePhaseScopes refactor grant in
      _ ← emptyScopeStop refactor scopes;
      result ← call (refactor_with task contract workspace grant greenDigest revision);
      let '(refactored, revision') := result in
      _ ← stop_if (negb (bool_decide (attestWriteSet (map pf_path refactored) (default (Grant.write_paths grant) scopes) = [])))
            "refactor wrote outside the effective write scope" [write_set_violation];
      _ ← call (applyFiles workspace refactored);
      changes ← call (diff workspace);
      observation ← run_gate gate_refactor workspace grant;
      input ← attempt canonical_text (evidenceInput observation grant changes);
      view ← get current;
      let '(next, issues) :=
        acceptRefactorEvidence view (Verification input digest (cl_failure_oracle cluster) (ob_result observation))
          (Writes (map pf_path refactored) (Grant.write_paths grant) revision') in
      _ ← stop_if (negb (bool_decide (issues = [])) || absent (refactor_evidence next)) "RefactorEvidence was not accepted" issues;
      _ ← modify (set_current next);
      match refactor_evidence next with Some e => persistEvidence e | None => mret () end
  | _, _ => stop "planned refactor has no executor or budget" [state_order] false
  end.

Definition seal : runM W CompletedOutcome :=
  view ← get current;
  cycle ← attempt canonical_text (buildTddCycleRecord view);
  _ ← call (appendCycle cycle);
  evidence ← get accepted;
  issued ← get grants;
  mret (Completed_ (Task.id task) cycle evidence issued (cr_implementation_revision cycle) false).

(** The try block. *)
Definition chain : runM W CompletedOutcome :=
  _ ← baseline_phase;
  frozen ← author_phase;
  let '(testPatch, digest) := frozen in
  redDigest ← red_phase testPatch digest;
  result ← implementation_phase testPatch digest redDigest;
  let '(files, revision) := result in
  _ ← (if cl_refactor_planned cluster then refactor_phase testPatch digest files revision else mret ());
  seal.

(** The catch clause. *)
Definition settle (m : flow CompletedOutcome * Vars W) : settlement * Vars W :=
  match m with
  | (Next o, v) => (Resolved (run_completed o), v)
  | (Leave o, v) => (Resolved (run_blocked o), v)
  | (Failed_stop e, v) => (Rejected_ e, v)
  | (Thrown e, v) =>
      match stop (A := CompletedOutcome) ("TDD attempt crashed: " +:+ e) [state_order] true v with
      | (Leave o, v') => (Resolved (run_blocked o), v')
      | (Next o, v') => (Resolved (run_completed o), v')
      | (Thrown e', v') | (Failed_stop e', v') => (Rejected_ e', v')
      end
  end.

(** The finally clause: errors of [destroy] are swallowed. *)
Definition destroy_all (hs : list WorkspaceHandle) (w : W) : W := foldl (fun w h => (destroy h w).2) w hs.
End runner.

Definition next_ordinal (previous : list TddCycleRecord) : Z := foldl Z.max 0%Z (map cr_attempt_ordinal previous) + 1.

Section run_task.
Context {W : Type} `{Hash} `{Collation} `{ErrorTexts} `{IsolatedWorkspacePort W} `{StrictTddPorts W}.
Variables (effectivePolicy : EffectivePolicy).

(** [runTask] up to its finally clause: how it settles, the workspaces it made
    and the world. Before the try block there are none. *)
Definition run_attempt (task : TaskSpecification) (contract : TaskTddContract) (capability_plan_digest : string) (w : W) :
    settlement * (list WorkspaceHandle * W) :=
  let none (s : settlement) (w : W) := (s, ([], w)) in
  match ct_contract_mode contract, ct_assertion_clusters contract with
  | required, [cluster] =>
      if negb (bool_decide (ct_task_id contract = Task.id task)) then none (Rejected_ "TDD contract task binding drift") w
      else if negb (bool_decide (ct_capability_plan_digest contract = capability_plan_digest))
      then none (Rejected_ "TDD contract CapabilityPlan binding drift") w
      else
        match listCycles (cl_logical_cycle_id cluster) w with
        | (Err e, w) => none (Rejected_ e) w
        | (Ok previous, w) =>
            match find_first (fun r => bool_decide (cr_status r = completed) && bool_decide (cr_contract_digest r = ct_contract_digest contract)) previous with
            | Some record =>
                match listEvidence (cl_logical_cycle_id cluster) w with
                | (Err e, w) => none (Rejected_ e) w
                | (Ok evidence, w) =>
                    none (Resolved (run_completed (Completed_ (Task.id task) record evidence [] (cr_implementation_revision record) true))) w
                end
            | None =>
                match readBaseline w with
                | (Err e, w) => none (Rejected_ e) w
                | (Ok baseline, w) =>
                    match createTddCycle (Task.id task) (cl_assertion_ids cluster) (ct_contract_digest contract) baseline
                            (Some (cl_logical_cycle_id cluster)) (Some (next_ordinal previous)) with
                    | Err e => none (Rejected_ (canonical_text e)) w
                    | Ok view =>
                        let '(s, v) := settle task (chain effectivePolicy task contract cluster (Variables w view [] [] [])) in
                        (s, (handles v, world v))
                    end
                end
            end
        end
  | _, _ => none (Rejected_ "StrictTddExecutionPort accepts required contracts with one cluster only") w
  end.

Definition runTask (task : TaskSpecification) (contract : TaskTddContract) (capability_plan_digest : string) (w : W) : settlement * W :=
  let '(s, (hs, w')) := run_attempt task contract capability_plan_digest w in (s, destroy_all hs w').
End run_task.

(* ------------------------------------------------------------------ *)
(** ** Runs that go on *)

Section next.
Context {W : Type}.

Lemma bind_next {A B} (m : runM W A) (f : A -> runM W B) v b v' :
  (m ≫= f) v = (Next b, v') <-> exists a v1, m v = (Next a, v1) /\ f a v1 = (Next b, v').
Proof. unfold mbind, runM_bind. destruct (m v) as [[a|o|e|e] v1]; naive_solver. Qed.

Lemma ret_next {A} (a b : A) (v v' : Vars W) : (mret a : runM W A) v = (Next b, v') <-> b = a /\ v' = v.
Proof. unfold mret, runM_ret. naive_solver. Qed.

Lemma call_next {A} (p : port W A) v a v' : call p v = (Next a, v') <-> exists w, p (world v) = (Ok a, w) /\ v' = set_world w v.
Proof. unfold call. destruct (p (world v)) as [[x|e] w]; naive_solver. Qed.

Lemma attempt_next {E A} (text : E -> string) (m : result E A) (v v' : Vars W) a : attempt text m v = (Next a, v') <-> m = Ok a /\ v' = v.
Proof. unfold attempt. destruct m; naive_solver. Qed.

Lemma get_next {A} (f : Vars W -> A) v a v' : get f v = (Next a, v') <-> a = f v /\ v' = v.
Proof. unfold get. naive_solver. Qed.

Lemma modify_next (f : Vars W -> Vars W) v x v' : modify f v = (Next x, v') <-> v' = f v.
Proof. unfold modify. destruct x. naive_solver. Qed.

Context `{Hash} `{Collation} `{ErrorTexts} `{IsolatedWorkspacePort W} `{StrictTddPorts W}.
Variables (effectivePolicy : EffectivePolicy) (task : TaskSpecification) (contract : TaskTddContract) (cluster : AssertionCluster).

Lemma stop_next {A} reason issues crashed (v : Vars W) (a : A) (v' : Vars W) : stop task reason issues crashed v <> (Next a, v').
Proof. unfold stop. destruct (buildTddCycleRecord _); [|done]. destruct (appendCycle _ _) as [[] ?]; done. Qed.

Lemma stop_if_next b reason issues (v : Vars W) x (v' : Vars W) : stop_if task b reason issues v = (Next x, v') <-> b = false /\ v' = v.
Proof.
  unfold stop_if. destruct b; [split; [by intros ?%stop_next|naive_solver]|]. rewrite ret_next. destruct x. naive_solver.
Qed.

Lemma create_next p (v : Vars W) h (v' : Vars W) : createWorkspace p v = (Next h, v') ->
  exists w, create (repository_baseline (current v)) p (world v) = (Ok h, w) /\
    v' = Variables w (current v) (grants v) (handles v ++ [h]) (accepted v).
Proof.
  unfold createWorkspace. rewrite bind_next. intros (b & v1 & Hb & Hx). apply get_next in Hb as [-> ->].
  apply bind_next in Hx as (h' & v1 & Hc & Hx). apply call_next in Hc as (w & Hc & ->). apply bind_next in Hx as ([] & v2 & Hm & Hx).
  apply modify_next in Hm as ->. apply ret_next in Hx as [-> ->]. by exists w.
Qed.

Lemma grant_next state budget proof (v : Vars W) g (v' : Vars W) : phaseGrant effectivePolicy task cluster state budget proof v = (Next g, v') ->
  (exists reused, issueTddPhaseGrant (TddInput state (Task.id task) (cl_path_policy cluster) budget effectivePolicy [] proof) (grants v) = Ok (g, reused)) /\
  exists gs, v' = Variables (world v) (current v) gs (handles v) (accepted v).
Proof.
  unfold phaseGrant. rewrite bind_next. intros (gs & v1 & Hg & Hx). apply get_next in Hg as [-> ->].
  apply bind_next in Hx as ([g' reused] & v1 & Hi & Hx). apply attempt_next in Hi as [Hi ->].
  apply bind_next in Hx as ([] & v2 & Hm & Hx). apply ret_next in Hx as [-> ->]. split; [by exists reused|].
  destruct reused; [apply ret_next in Hm as [_ ->]; by destruct v; eexists|apply modify_next in Hm as ->; by eexists].
Qed.

Lemma persist_next e (v : Vars W) x (v' : Vars W) : persistEvidence e v = (Next x, v') ->
  exists w, appendEvidence e (world v) = (Ok (), w) /\ v' = Variables w (current v) (grants v) (handles v) (accepted v ++ [e]).
Proof.
  unfold persistEvidence. rewrite bind_next. intros ([] & v1 & Hc & Hx). apply call_next in Hc as (w & Hc & ->). apply modify_next in Hx as ->. by exists w.
Qed.

Lemma differs_next files digest (v : Vars W) b (v' : Vars W) : patch_differs files digest v = (Next b, v') -> v' = v /\
  (b = false -> exists p, canonicalTestPatch files = Ok p /\ patch_digest p = digest).
Proof.
  unfold patch_differs. rewrite bind_next. intros (p & v1 & Hp & Hx). apply attempt_next in Hp as [Hp ->]. apply ret_next in Hx as [-> ->].
  split; [done|]. intros Hn%negb_decide_false. by exists p.
Qed.
End next.

(** Takes a run apart at its binds. *)
Ltac run_step H := let a := fresh "a" in let v := fresh "v" in let E := fresh "E" in
  apply bind_next in H as (a & v & E & H).

(* ------------------------------------------------------------------ *)
(** ** The phases *)

Section phases.
Context {W : Type} `{Hash} `{Collation} `{ErrorTexts} `{IsolatedWorkspacePort W} `{StrictTddPorts W}.
Variables (effectivePolicy : EffectivePolicy) (task : TaskSpecification) (contract : TaskTddContract) (cluster : AssertionCluster).

(** The answer of the gate for a workspace. *)
Definition gate_answers (phase : GatePhase) (h : WorkspaceHandle) (g : CapabilityGrant) (obs : StrictTddGateObservation) (w w' : W) : Prop :=
  run phase task contract h (cl_target_gate_id cluster) (cl_target_test_selectors cluster) g w = (Ok obs, w').

(** The healthy baseline: the gate ran under the framework of the contract in a
    workspace that was unchanged afterwards, and passed. *)
Definition baseline_fact (view next : TddCycleView) (b : TddEvidenceBinding) : Prop :=
  exists h g obs input w w1 w2, gate_answers gate_baseline h g obs w w1 /\ diff h w1 = (Ok [], w2) /\
    ob_framework_profile_digest obs = cl_framework_profile_digest cluster /\ gatePassed (ob_result obs) = true /\
    evidenceInput obs g [] = Ok input /\ acceptBaselineEvidence view input true = (next, []) /\ baseline_evidence next = Some b.

Lemma run_gate_next phase h g (v : Vars W) obs (v' : Vars W) : run_gate task contract cluster phase h g v = (Next obs, v') ->
  exists w, gate_answers phase h g obs (world v) w /\ v' = set_world w v.
Proof. unfold run_gate. by rewrite call_next. Qed.

Lemma baseline_next (v : Vars W) x (v' : Vars W) : state (current v) = Baseline_guard -> baseline_phase effectivePolicy task contract cluster v = (Next x, v') ->
  exists b, baseline_fact (current v) (current v') b /\ accepted v' = accepted v ++ [b].
Proof.
  intros Hs Hx. unfold baseline_phase in Hx. apply bind_next in Hx as (h & v1 & Hc & Hx). apply create_next in Hc as (w & _ & ->).
  apply bind_next in Hx as (g & v2 & Hg & Hx). apply grant_next in Hg as (_ & gs & ->). cbn [world current handles accepted] in Hx.
  apply bind_next in Hx as (obs & v3 & Hr & Hx). apply run_gate_next in Hr as (w1 & Hr & ->).
  apply bind_next in Hx as ([] & v4 & Hf & Hx). apply stop_if_next in Hf as [Hf%negb_decide_false ->].
  apply bind_next in Hx as (changes & v5 & Hd & Hx). apply call_next in Hd as (w2 & Hd & ->).
  apply bind_next in Hx as ([] & v6 & Hn & Hx). apply stop_if_next in Hn as [->%negb_decide_false ->].
  apply bind_next in Hx as (input & v7 & Hi & Hx). apply attempt_next in Hi as [Hi ->].
  apply bind_next in Hx as (view & v8 & Hv & Hx). apply get_next in Hv as [-> ->]. cbn [current set_world] in Hx.
  destruct (acceptBaselineEvidence (current v) input (gatePassed (ob_result obs))) as [next issues] eqn:Ha.
  apply bind_next in Hx as ([] & v9 & Hm & Hx). apply modify_next in Hm as ->.
  apply bind_next in Hx as ([] & v10 & Hp & Hx). apply stop_if_next in Hx as [Hst ->].
  apply orb_false_iff in Hst as [Hiss Hst]. apply negb_decide_false in Hiss as ->. apply bool_decide_eq_false in Hst.
  assert (gatePassed (ob_result obs) = true /\ exists b, baseline_evidence next = Some b) as [Hgp [b Hb]].
  { unfold acceptBaselineEvidence in Ha. rewrite bool_decide_true in Ha by done. cbn [negb] in Ha.
    destruct (gatePassed (ob_result obs)); cbn [negb] in Ha; injection Ha as <-; [by split; [|eexists]|done]. }
  rewrite Hb in Hp. apply persist_next in Hp as (w3 & _ & ->). cbn. exists b. split; [|done].
  exists h, g, obs, input. rewrite Hgp in Ha. eauto 10.
Qed.

(** The frozen patch: the changes of the workspace of the author, test files only. *)
Definition author_fact (view next : TddCycleView) (testPatch : list PatchFile) (digest : string) : Prop :=
  exists h w w1, diff h w = (Ok testPatch, w1) /\ Forall (test_file (cl_path_policy cluster)) testPatch /\
    freezeTestPatch view testPatch (cl_path_policy cluster) = Ok (next, digest, []).

Lemma freeze_next view files policy next digest : state view = Test_authoring -> freezeTestPatch view files policy = Ok (next, digest, []) ->
  Forall (test_file policy) files /\ state next = Red_verification /\ test_patch_digest next = Some digest /\
  exists p, canonicalTestPatch files = Ok p /\ patch_digest p = digest.
Proof.
  intros Hs. unfold freezeTestPatch. rewrite bool_decide_true by done. cbn [negb]. intros (p & Hp & Hx)%bind_Ok.
  case_bool_decide as Hl; cbn [negb] in Hx.
  - injection Hx as <- <-. split; [|by split_and!; [done..|exists p]]. apply patch_valid. by apply nil_length_inv.
  - injection Hx as _ _ Hm. apply map_eq_nil in Hm. by rewrite Hm in Hl.
Qed.

Lemma author_next (v : Vars W) testPatch digest (v' : Vars W) : state (current v) = Test_authoring ->
  author_phase effectivePolicy task contract cluster v = (Next (testPatch, digest), v') ->
  author_fact (current v) (current v') testPatch digest /\ accepted v' = accepted v.
Proof.
  intros Hs Hx. unfold author_phase in Hx. apply bind_next in Hx as (h & v1 & Hc & Hx). apply create_next in Hc as (w & _ & ->).
  apply bind_next in Hx as (g & v2 & Hg & Hx). apply grant_next in Hg as (_ & gs & ->). cbn [world current handles accepted] in Hx.
  apply bind_next in Hx as ([] & v3 & He & Hx). apply stop_if_next in He as [_ ->].
  apply bind_next in Hx as (files & v4 & Ha & Hx). apply call_next in Ha as (w1 & Ha & ->).
  apply bind_next in Hx as ([] & v5 & Hw & Hx).
  assert (v5 = set_world w1 (Variables w (current v) gs (handles v ++ [h]) (accepted v))) as ->.
  { destruct (effectivePhaseScopes task cluster test_authoring g); [by apply stop_if_next in Hw as [_ ->]|by apply ret_next in Hw as [_ ->]]. }
  apply bind_next in Hx as ([] & v6 & Hp & Hx). apply call_next in Hp as (w2 & Hp & ->).
  apply bind_next in Hx as (tp & v7 & Hd & Hx). apply call_next in Hd as (w3 & Hd & ->).
  apply bind_next in Hx as (view & v8 & Hv & Hx). apply get_next in Hv as [-> ->].
  apply bind_next in Hx as ([[next d] issues] & v9 & Hf & Hx). apply attempt_next in Hf as [Hf ->].
  apply bind_next in Hx as ([] & v10 & Hi & Hx). apply stop_if_next in Hi as [->%negb_decide_false ->].
  apply bind_next in Hx as ([] & v11 & Hm & Hx). apply modify_next in Hm as ->. apply ret_next in Hx as [[= -> ->] ->]. cbn in *.
  split; [|done]. destruct (freeze_next _ _ _ _ _ Hs Hf) as [Hall _]. by exists h, w2, w3.
Qed.

(** A workspace made from the baseline of a cycle and a patch. *)
Definition made_from (view : TddCycleView) (purpose : TddWorkspacePurpose) (testPatch : list PatchFile) (h : WorkspaceHandle) : Prop :=
  exists w w1 w2, create (repository_baseline view) purpose w = (Ok h, w1) /\ applyFiles h testPatch w1 = (Ok (), w2).

(** Equal contents under the canonical paths, whatever the order. *)
Definition same_content (files files' : list PatchFile) : Prop := patch_content files = patch_content files' \/ hash_collision.
Definition frozen_as (testPatch : list PatchFile) (digest : string) : Prop :=
  exists p, canonicalTestPatch testPatch = Ok p /\ patch_digest p = digest.

Lemma frozen_content files testPatch digest : frozen_as files digest -> frozen_as testPatch digest -> same_content files testPatch.
Proof. intros (p & Hp & <-) (p' & Hp' & He). by eapply same_patch. Qed.

(** The red run: the gate answered for a workspace made from the baseline and the
    frozen patch, whose changes were the frozen patch afterwards, and its answer
    proves the failure. *)
Definition red_fact (view next : TddCycleView) (testPatch : list PatchFile) (digest : string) (red : TddEvidenceBinding) : Prop :=
  exists h g obs changes input runs w w1 w2,
    made_from view ws_red_verification testPatch h /\ gate_answers gate_red h g obs w w1 /\ diff h w1 = (Ok changes, w2) /\ same_content changes testPatch /\
    evidenceInput obs g changes = Ok input /\ red_proves view (Verification input digest (cl_failure_oracle cluster) (ob_result obs)) runs /\
    acceptRedEvidence view (Verification input digest (cl_failure_oracle cluster) (ob_result obs)) = (next, []) /\ red_evidence next = Some red.

Lemma red_next (v : Vars W) testPatch digest redDigest (v' : Vars W) : state (current v) = Red_verification -> is_Some (baseline_evidence (current v)) -> frozen_as testPatch digest ->
  red_phase effectivePolicy task contract cluster testPatch digest v = (Next redDigest, v') ->
  exists red, red_fact (current v) (current v') testPatch digest red /\ evidenceDigest red = Ok redDigest /\
    accepted v' = accepted v ++ [red] /\ state (current v') = Implementation /\ exists w w', appendEvidence red w = (Ok (), w').
Proof.
  intros Hs Hbe Hfz Hx. unfold red_phase in Hx. apply bind_next in Hx as (h & v1 & Hc & Hx). apply create_next in Hc as (w & Hc & ->).
  apply bind_next in Hx as ([] & v2 & Hp & Hx). apply call_next in Hp as (w1 & Hp & ->).
  apply bind_next in Hx as (g & v3 & Hg & Hx). apply grant_next in Hg as (_ & gs & ->). cbn [world current handles accepted set_world] in Hx.
  apply bind_next in Hx as (obs & v4 & Hr & Hx). apply run_gate_next in Hr as (w2 & Hr & ->).
  apply bind_next in Hx as (changes & v5 & Hd & Hx). apply call_next in Hd as (w3 & Hd & ->).
  apply bind_next in Hx as (drift & v6 & Hdf & Hx). apply differs_next in Hdf as [-> Hdf].
  apply bind_next in Hx as ([] & v7 & Hi & Hx). apply stop_if_next in Hi as [-> ->]. pose proof (frozen_content _ _ _ (Hdf eq_refl) Hfz) as Hsame.
  apply bind_next in Hx as (input & v8 & Hi & Hx). apply attempt_next in Hi as [Hi ->].
  apply bind_next in Hx as (view & v9 & Hv & Hx). apply get_next in Hv as [-> ->]. cbn [current set_world] in Hx.
  destruct (acceptRedEvidence (current v) _) as [next issues] eqn:Ha.
  apply bind_next in Hx as ([] & v10 & Hst & Hx). apply stop_if_next in Hst as [Hst ->]. apply orb_false_iff in Hst as [->%negb_decide_false Habs].
  apply bind_next in Hx as ([] & v11 & Hm & Hx). apply modify_next in Hm as ->.
  apply bind_next in Hx as ([] & v12 & Hpe & Hx). destruct (red_evidence next) as [red|] eqn:Hred; [|done].
  apply persist_next in Hpe as (w4 & Hper & ->). cbn [digest_of_evidence] in Hx. apply attempt_next in Hx as [Hdg ->]. cbn.
  destruct (red_accepted (current v) (Verification input digest (cl_failure_oracle cluster) (ob_result obs)) Hs Hbe) as (Hacc & _ & Hy). rewrite Ha in Hacc. destruct (proj1 Hacc eq_refl) as [runs Hruns].
  destruct (Hy runs Hruns) as [kind Hk]. rewrite Ha in Hk. cbn in Hk.
  exists red. split; [|split; [done|split; [done|split; [by rewrite Hk|by eexists _, _]]]]. exists h, g, obs, changes, input, runs, w1, w2, w3.
  split; [by exists (world v), w, w1|]. eauto 10.
Qed.

(** The green run: the declared files lie within the write scopes, what the
    workspace changed outside production code was the frozen patch when the gate
    was asked, and its answer proves the success. *)
Definition green_fact (view next : TddCycleView) (testPatch : list PatchFile) (digest redDigest : string) (green : TddEvidenceBinding) : Prop :=
  exists h g files revision obs changes input runs red w w1 w2 w3 w4,
    made_from view ws_implementation testPatch h /\
    implement task contract h g redDigest w = (Ok (files, revision), w1) /\ applyFiles h files w1 = (Ok (), w2) /\
    diff h w2 = (Ok changes, w3) /\ same_content (preserved cluster changes) testPatch /\
    gate_answers gate_green h g obs w3 w4 /\ evidenceInput obs g changes = Ok input /\ red_evidence view = Some red /\
    (forall path, path ∈ map pf_path files ->
       within (default (Grant.write_paths g) (effectivePhaseScopes task cluster implementation g)) path = true) /\
    green_proves view (Verification input digest (cl_failure_oracle cluster) (ob_result obs)) (Writes (map pf_path files) (Grant.write_paths g) revision)
      (ev_selector_ids red) runs /\
    acceptGreenEvidence view (Verification input digest (cl_failure_oracle cluster) (ob_result obs))
      (Writes (map pf_path files) (Grant.write_paths g) revision) (cl_refactor_planned cluster) = (next, []) /\
    green_evidence next = Some green.

Lemma green_next (v : Vars W) testPatch digest redDigest files revision (v' : Vars W) :
  state (current v) = Implementation -> is_Some (red_evidence (current v)) -> frozen_as testPatch digest ->
  implementation_phase effectivePolicy task contract cluster testPatch digest redDigest v = (Next (files, revision), v') ->
  exists green, green_fact (current v) (current v') testPatch digest redDigest green /\ accepted v' = accepted v ++ [green] /\
    state (current v') = if cl_refactor_planned cluster then Refactor else Cycle_completed.
Proof.
  intros Hs [red Hre] Hfz Hx. unfold implementation_phase in Hx. apply bind_next in Hx as (h & v1 & Hc & Hx). apply create_next in Hc as (w & Hc & ->).
  apply bind_next in Hx as ([] & v2 & Hp & Hx). apply call_next in Hp as (w1 & Hp & ->).
  apply bind_next in Hx as (g & v3 & Hg & Hx). apply grant_next in Hg as (_ & gs & ->). cbn [world current handles accepted set_world] in Hx.
  apply bind_next in Hx as ([] & v4 & He & Hx). apply stop_if_next in He as [_ ->].
  apply bind_next in Hx as ([fs rev] & v5 & Hi & Hx). apply call_next in Hi as (w2 & Hi & ->).
  apply bind_next in Hx as ([] & v6 & Hw & Hx). apply stop_if_next in Hw as [Hw%negb_decide_false ->].
  apply bind_next in Hx as ([] & v7 & Hap & Hx). apply call_next in Hap as (w3 & Hap & ->).
  apply bind_next in Hx as (changes & v8 & Hd & Hx). apply call_next in Hd as (w4 & Hd & ->).
  apply bind_next in Hx as (drift & v9 & Hdf & Hx). apply differs_next in Hdf as [-> Hdf].
  apply bind_next in Hx as ([] & v10 & Hst & Hx). apply stop_if_next in Hst as [-> ->]. pose proof (frozen_content _ _ _ (Hdf eq_refl) Hfz) as Hsame.
  apply bind_next in Hx as (obs & v11 & Hr & Hx). apply run_gate_next in Hr as (w5 & Hr & ->).
  apply bind_next in Hx as (input & v12 & Hin & Hx). apply attempt_next in Hin as [Hin ->].
  apply bind_next in Hx as (view & v13 & Hv & Hx). apply get_next in Hv as [-> ->]. cbn [current set_world] in Hx.
  destruct (acceptGreenEvidence (current v) _ _ _) as [next issues] eqn:Ha.
  apply bind_next in Hx as ([] & v14 & Hst & Hx). apply stop_if_next in Hst as [Hst ->]. apply orb_false_iff in Hst as [->%negb_decide_false Habs].
  apply bind_next in Hx as ([] & v15 & Hm & Hx). apply modify_next in Hm as ->.
  apply bind_next in Hx as ([] & v16 & Hpe & Hx). destruct (green_evidence next) as [green|] eqn:Hgr; [|done].
  apply persist_next in Hpe as (w6 & _ & ->). apply ret_next in Hx as [[= -> ->] ->]. cbn in *.
  destruct (green_accepted (current v) red (Verification input digest (cl_failure_oracle cluster) (ob_result obs))
    (Writes (map pf_path fs) (Grant.write_paths g) rev) (cl_refactor_planned cluster) Hs Hre) as (Hacc & _ & Hy).
  rewrite Ha in Hacc. destruct (proj1 Hacc eq_refl) as [runs Hruns]. pose proof (Hy runs Hruns) as Hk. rewrite Ha in Hk. cbn in Hk.
  exists green. split; [|by rewrite Hk]. exists h, g, fs, rev, obs, changes, input, runs, red, w1, w2, w3, w4, w5.
  apply attest_nil in Hw. rewrite Forall_forall in Hw. split; [by exists (world v), w, w1|]. eauto 20.
Qed.

(** The run after the refactoring. *)
Definition refactor_fact (view next : TddCycleView) (digest : string) (refactored : TddEvidenceBinding) : Prop :=
  exists h g files revision obs changes input runs green w w1 w2,
    applyFiles h files w = (Ok (), w1) /\ diff h w1 = (Ok changes, w2) /\ (exists w3, gate_answers gate_refactor h g obs w2 w3) /\
    evidenceInput obs g changes = Ok input /\ green_evidence view = Some green /\
    refactor_proves view (Verification input digest (cl_failure_oracle cluster) (ob_result obs)) (Writes (map pf_path files) (Grant.write_paths g) revision)
      (ev_selector_ids green) runs /\
    acceptRefactorEvidence view (Verification input digest (cl_failure_oracle cluster) (ob_result obs))
      (Writes (map pf_path files) (Grant.write_paths g) revision) = (next, []) /\
    refactor_evidence next = Some refactored.

Lemma refactor_next (v : Vars W) testPatch digest files revision x (v' : Vars W) :
  state (current v) = Refactor -> is_Some (green_evidence (current v)) ->
  refactor_phase effectivePolicy task contract cluster testPatch digest files revision v = (Next x, v') ->
  exists refactored, refactor_fact (current v) (current v') digest refactored /\ accepted v' = accepted v ++ [refactored] /\
    state (current v') = Cycle_completed.
Proof.
  intros Hs [green Hge] Hx. unfold refactor_phase in Hx. destruct refactor_code as [refactor_with|]; [|by apply stop_next in Hx].
  destruct (ct_refactor contract) as [budget|]; [|by apply stop_next in Hx].
  apply bind_next in Hx as (view & v1 & Hv & Hx). apply get_next in Hv as [-> ->]. rewrite Hge in Hx. cbn [digest_of_evidence] in Hx.
  apply bind_next in Hx as (gd & v1 & Hgd & Hx). apply attempt_next in Hgd as [_ ->].
  apply bind_next in Hx as (h & v1 & Hc & Hx). apply create_next in Hc as (w & _ & ->).
  apply bind_next in Hx as ([] & v2 & Hp & Hx). apply call_next in Hp as (w1 & _ & ->).
  apply bind_next in Hx as (g & v3 & Hg & Hx). apply grant_next in Hg as (_ & gs & ->). cbn [world current handles accepted set_world] in Hx.
  apply bind_next in Hx as ([] & v4 & He & Hx). apply stop_if_next in He as [_ ->].
  apply bind_next in Hx as ([fs rev] & v5 & Hi & Hx). apply call_next in Hi as (w2 & Hi & ->).
  apply bind_next in Hx as ([] & v6 & Hw & Hx). apply stop_if_next in Hw as [_ ->].
  apply bind_next in Hx as ([] & v7 & Hap & Hx). apply call_next in Hap as (w3 & Hap & ->).
  apply bind_next in Hx as (changes & v8 & Hd & Hx). apply call_next in Hd as (w4 & Hd & ->).
  apply bind_next in Hx as (obs & v11 & Hr & Hx). apply run_gate_next in Hr as (w5 & Hr & ->).
  apply bind_next in Hx as (input & v12 & Hin & Hx). apply attempt_next in Hin as [Hin ->].
  apply bind_next in Hx as (view & v13 & Hv & Hx). apply get_next in Hv as [-> ->]. cbn [current set_world] in Hx.
  destruct (acceptRefactorEvidence (current v) _ _) as [next issues] eqn:Ha.
  apply bind_next in Hx as ([] & v14 & Hst & Hx). apply stop_if_next in Hst as [Hst ->]. apply orb_false_iff in Hst as [->%negb_decide_false Habs].
  apply bind_next in Hx as ([] & v15 & Hm & Hx). apply modify_next in Hm as ->.
  destruct (refactor_evidence next) as [rf|] eqn:Hrf; [|done]. apply persist_next in Hx as (w6 & _ & ->). cbn in *.
  destruct (refactor_accepted (current v) green (Verification input digest (cl_failure_oracle cluster) (ob_result obs))
    (Writes (map pf_path fs) (Grant.write_paths g) rev) Hs Hge) as (Hacc & _ & Hy).
  rewrite Ha in Hacc. destruct (proj1 Hacc eq_refl) as [runs Hruns]. pose proof (Hy runs Hruns) as Hk. rewrite Ha in Hk. cbn in Hk.
  exists rf. split; [|by rewrite Hk]. exists h, g, fs, rev, obs, changes, input, runs, green, w2, w3, w4. eauto 20.
Qed.

Lemma baseline_moves view next b : state view = Baseline_guard -> baseline_fact view next b -> cycle_step view next /\ state next = Test_authoring.
Proof.
  intros Hs (h & g & obs & input & w & w1 & w2 & _ & _ & _ & _ & _ & Ha & _). split.
  - pose proof (step_baseline view input true) as Hst. by rewrite Ha in Hst.
  - unfold acceptBaselineEvidence in Ha. rewrite bool_decide_true in Ha by done. by injection Ha as <-.
Qed.

Lemma author_moves view next testPatch digest : state view = Test_authoring -> cycle_ok view -> author_fact view next testPatch digest ->
  cycle_step view next /\ state next = Red_verification /\ is_Some (baseline_evidence next) /\ frozen_as testPatch digest.
Proof.
  intros Hs Hok (h & w & w' & _ & _ & Hfz). pose proof (step_freeze _ _ _ _ _ _ Hfz) as S.
  destruct (freeze_next _ _ _ _ _ Hs Hfz) as (_ & Hs2 & _ & Hdig). split; [done|]. split; [done|]. split; [|done].
  pose proof (ck_state _ (move_ok _ _ S Hok)) as Hst. unfold state_ok in Hst. rewrite Hs2 in Hst. apply Hst.
Qed.

Lemma seal_next (v : Vars W) o (v' : Vars W) : seal task v = (Next o, v') ->
  buildTddCycleRecord (current v) = Ok (co_cycle o) /\ co_evidence o = accepted v /\ co_replayed o = false /\ co_task_id o = Task.id task /\
  co_implementation_revision o = cr_implementation_revision (co_cycle o) /\
  exists w, appendCycle (co_cycle o) (world v) = (Ok (), w) /\ world v' = w.
Proof.
  unfold seal. intros Hx. apply bind_next in Hx as (view & v1 & Hv & Hx). apply get_next in Hv as [-> ->].
  apply bind_next in Hx as (cycle & v1 & Hb & Hx). apply attempt_next in Hb as [Hb ->].
  apply bind_next in Hx as ([] & v1 & Hc & Hx). apply call_next in Hc as (w & Hc & ->).
  apply bind_next in Hx as (ev & v1 & Hv & Hx). apply get_next in Hv as [-> ->].
  apply bind_next in Hx as (gs & v1 & Hv & Hx). apply get_next in Hv as [-> ->]. apply ret_next in Hx as [-> ->]. cbn. eauto 10.
Qed.

(** The facts behind a completed attempt, in the order they were established. *)
Definition attested (view0 : TddCycleView) (o : CompletedOutcome) : Prop :=
  exists view1 view2 view3 view4 view5 b red green testPatch digest redDigest rest,
    baseline_fact view0 view1 b /\ author_fact view1 view2 testPatch digest /\ red_fact view2 view3 testPatch digest red /\
    evidenceDigest red = Ok redDigest /\ green_fact view3 view4 testPatch digest redDigest green /\
    (if cl_refactor_planned cluster then exists refactored, refactor_fact view4 view5 digest refactored /\ rest = [refactored]
     else view5 = view4 /\ rest = []) /\
    co_evidence o = [b; red; green] ++ rest /\ state view5 = Cycle_completed /\ rtc cycle_step view0 view5 /\
    buildTddCycleRecord view5 = Ok (co_cycle o) /\ exists w w', appendCycle (co_cycle o) w = (Ok (), w').

Lemma chain_next (v : Vars W) o (v' : Vars W) : state (current v) = Baseline_guard -> cycle_ok (current v) -> accepted v = [] ->
  chain effectivePolicy task contract cluster v = (Next o, v') ->
  attested (current v) o /\ co_replayed o = false /\ co_task_id o = Task.id task /\
  co_implementation_revision o = cr_implementation_revision (co_cycle o).
Proof.
  intros Hs Hok Hacc Hx. unfold chain in Hx.
  apply bind_next in Hx as ([] & v1 & Hb & Hx). apply baseline_next in Hb as (b & Hb & Hacc1); [|done].
  destruct (baseline_moves _ _ _ Hs Hb) as [S1 Hs1].
  apply bind_next in Hx as ([testPatch digest] & v2 & Hf & Hx). apply author_next in Hf as [Hf Hacc2]; [|done].
  destruct (author_moves _ _ _ _ Hs1 (move_ok _ _ S1 Hok) Hf) as (S2 & Hs2 & Hbe & Hdig).
  apply bind_next in Hx as (rd & v3 & Hr & Hx). apply red_next in Hr as (red & Hr & Hrd & Hacc3 & Hs3 & _); [|done..].
  assert (cycle_step (current v2) (current v3) /\ is_Some (red_evidence (current v3))) as [S3 Hre].
  { destruct Hr as (h & g & obs & changes & input & runs & w & w1 & w3 & _ & _ & _ & _ & _ & _ & Ha & Hre).
    pose proof (step_red (current v2) (Verification input digest (cl_failure_oracle cluster) (ob_result obs))) as Hst. rewrite Ha in Hst. by split; [|eexists]. }
  apply bind_next in Hx as ([files rev] & v4 & Hg & Hx). apply green_next in Hg as (green & Hg & Hacc4 & Hs4); [|done..].
  assert (cycle_step (current v3) (current v4) /\ is_Some (green_evidence (current v4))) as [S4 Hge].
  { destruct Hg as (h & g & fs & revision & obs & changes & input & runs & red' & ? & ? & ? & ? & ? & _ & _ & _ & _ & _ & _ & _ & _ & _ & _ & Ha & Hge).
    pose proof (step_green (current v3) (Verification input digest (cl_failure_oracle cluster) (ob_result obs))
      (Writes (map pf_path fs) (Grant.write_paths g) revision) (cl_refactor_planned cluster)) as Hst. rewrite Ha in Hst. by split; [|eexists]. }
  apply bind_next in Hx as ([] & v5 & Hrf & Hx). apply seal_next in Hx as (Hbuild & Hev & Hrep & Htask & Hrev & w5 & Hap & _).
  split; [|done].
  assert (exists rest, (if cl_refactor_planned cluster then exists refactored, refactor_fact (current v4) (current v5) digest refactored /\ rest = [refactored]
     else current v5 = current v4 /\ rest = []) /\ accepted v5 = accepted v4 ++ rest /\ state (current v5) = Cycle_completed /\
     rtc cycle_step (current v4) (current v5)) as (rest & Hrest & Hacc5 & Hs5 & S5).
  { destruct (cl_refactor_planned cluster).
    - apply refactor_next in Hrf as (rf & Hrf & Ha & Hst); [|done..]. exists [rf]. split; [by exists rf|]. split; [done|]. split; [done|].
      apply rtc_once. destruct Hrf as (h & g & fs & revision & obs & changes & input & runs & gr & ? & ? & ? & _ & _ & _ & _ & _ & _ & Hac & _).
      pose proof (step_refactor (current v4) (Verification input digest (cl_failure_oracle cluster) (ob_result obs))
        (Writes (map pf_path fs) (Grant.write_paths g) revision)) as Hst'. by rewrite Hac in Hst'.
    - apply ret_next in Hrf as [_ ->]. exists []. by rewrite app_nil_r. }
  exists (current v1), (current v2), (current v3), (current v4), (current v5), b, red, green, testPatch, digest, rd, rest.
  split; [done|]. split; [done|]. split; [done|]. split; [done|]. split; [done|]. split; [done|].
  split; [by rewrite Hev, Hacc5, Hacc4, Hacc3, Hacc2, Hacc1, Hacc|]. split; [done|].
  split; [by eapply rtc_l; [exact S1|]; eapply rtc_l; [exact S2|]; eapply rtc_l; [exact S3|]; eapply rtc_l; [exact S4|]|].
  split; [done|]. by exists (world v5), w5.
Qed.
End phases.

(* ------------------------------------------------------------------ *)
(** ** What holds wherever a run ends *)

Definition preserves {W A} (J : W -> list WorkspaceHandle -> Prop) (m : runM W A) : Prop :=
  forall v, J (world v) (handles v) -> J (world (m v).2) (handles (m v).2).

Section preserves.
Context {W : Type} (J : W -> list WorkspaceHandle -> Prop).

Lemma preserves_bind_at {A B} (m : runM W A) (f : A -> runM W B) v :
  J (world (m v).2) (handles (m v).2) ->
  (forall a v1, m v = (Next a, v1) -> J (world v1) (handles v1) -> J (world (f a v1).2) (handles (f a v1).2)) ->
  J (world ((m ≫= f) v).2) (handles ((m ≫= f) v).2).
Proof. unfold mbind, runM_bind. destruct (m v) as [[a|o|e|e] v1]; cbn; auto. Qed.

Lemma preserves_bind {A B} (m : runM W A) (f : A -> runM W B) :
  preserves J m -> (forall a, preserves J (f a)) -> preserves J (m ≫= f).
Proof. intros Hm Hf v Hv. apply preserves_bind_at; [by apply Hm|]. intros a v1 _. apply Hf. Qed.

Lemma preserves_ret {A} (a : A) : preserves J (mret a).
Proof. by intros v. Qed.

Lemma preserves_get {A} (f : Vars W -> A) : preserves J (get f).
Proof. by intros v. Qed.

Lemma preserves_attempt {E A} (text : E -> string) (m : result E A) : preserves J (attempt text m).
Proof. intros v Hv. unfold attempt. by destruct m. Qed.

Lemma preserves_modify f : (forall v, world (f v) = world v /\ handles (f v) = handles v) -> preserves J (modify f).
Proof. intros Hf v Hv. unfold modify. cbn. by destruct (Hf v) as [-> ->]. Qed.

Lemma preserves_call {A} (p : port W A) : (forall w hs, J w hs -> J (p w).2 hs) -> preserves J (call p).
Proof. intros Hp v Hv. unfold call. pose proof (Hp _ _ Hv) as H. destruct (p (world v)) as [[a|e] w]; exact H. Qed.

Lemma preserves_if {A} (b : bool) (m m' : runM W A) : preserves J m -> preserves J m' -> preserves J (if b then m else m').
Proof. by destruct b. Qed.
End preserves.

Section unlocking.
Context {W : Type} `{Hash} `{Collation} `{ErrorTexts} `{IsolatedWorkspacePort W} `{StrictTddPorts W}.
Variables (effectivePolicy : EffectivePolicy) (task : TaskSpecification) (contract : TaskTddContract) (cluster : AssertionCluster).

(** The digest of red evidence that was accepted and stored. *)
Definition unlocked (d : string) : Prop :=
  exists view next testPatch digest red, red_fact task contract cluster view next testPatch digest red /\ evidenceDigest red = Ok d /\
    exists w w', appendEvidence red w = (Ok (), w').

(** A condition that everything but the work on production code keeps, and that
    work keeps when it is unlocked. *)
Record closed (J : W -> list WorkspaceHandle -> Prop) : Prop := {
  cd_create : forall commit p w hs, J w hs -> match create commit p w with (Ok h, w') => J w' (hs ++ [h]) | (Err _, w') => J w' hs end;
  cd_apply : forall h files w hs, J w hs -> J (applyFiles h files w).2 hs;
  cd_diff : forall h w hs, J w hs -> J (diff h w).2 hs;
  cd_run : forall phase h gate selectors g w hs, J w hs -> J (run phase task contract h gate selectors g w).2 hs;
  cd_author : forall h g w hs, J w hs -> J (authorTests task contract h g w).2 hs;
  cd_evidence : forall e w hs, J w hs -> J (appendEvidence e w).2 hs;
  cd_cycle : forall r w hs, J w hs -> J (appendCycle r w).2 hs;
  cd_implement : forall h g d w hs, unlocked d -> J w hs -> J (implement task contract h g d w).2 hs;
  cd_refactor : forall r h g d revision w hs, refactor_code = Some r -> (exists d', unlocked d') -> J w hs -> J (r task contract h g d revision w).2 hs }.

Context (J : W -> list WorkspaceHandle -> Prop) (Hclosed : closed J).

Lemma preserves_stop {A} reason issues crashed : preserves J (stop (A := A) task reason issues crashed).
Proof.
  intros v Hv. unfold stop. destruct (buildTddCycleRecord _) as [r|e]; [|done]. cbn [current set_current].
  pose proof (cd_cycle _ Hclosed r (world v) (handles v) Hv) as Hc. cbn. by destruct (appendCycle r (world v)) as [[a|e] w].
Qed.

Lemma preserves_stop_if b reason issues : preserves J (stop_if task b reason issues).
Proof. apply preserves_if; [apply preserves_stop|apply preserves_ret]. Qed.

Lemma preserves_create p : preserves J (createWorkspace p).
Proof.
  intros v Hv. unfold createWorkspace, mbind, runM_bind, get, call, modify, mret, runM_ret. cbn.
  pose proof (cd_create _ Hclosed (repository_baseline (current v)) p (world v) (handles v) Hv) as Hc.
  by destruct (create (repository_baseline (current v)) p (world v)) as [[h|e] w].
Qed.

Lemma preserves_grant state budget proof : preserves J (phaseGrant effectivePolicy task cluster state budget proof).
Proof.
  apply preserves_bind; [apply preserves_get|intros gs]. apply preserves_bind; [apply preserves_attempt|intros [g reused]].
  apply preserves_bind; [apply preserves_if; [apply preserves_ret|by apply preserves_modify]|intros []]. apply preserves_ret.
Qed.

Lemma preserves_persist e : preserves J (persistEvidence e).
Proof. apply preserves_bind; [apply preserves_call, cd_evidence, Hclosed|intros []]. by apply preserves_modify. Qed.

Lemma preserves_differs files digest : preserves J (patch_differs files digest).
Proof. apply preserves_bind; [apply preserves_attempt|intros p]. apply preserves_ret. Qed.

Lemma preserves_digest e : preserves J (digest_of_evidence e).
Proof. destruct e; apply preserves_attempt. Qed.

Lemma preserves_run phase h g : preserves J (run_gate task contract cluster phase h g).
Proof. apply preserves_call. intros w hs. apply cd_run, Hclosed. Qed.

Lemma preserves_apply h files : preserves J (call (applyFiles h files)).
Proof. apply preserves_call. intros w hs. apply cd_apply, Hclosed. Qed.

Lemma preserves_diff h : preserves J (call (diff h)).
Proof. apply preserves_call. intros w hs. apply cd_diff, Hclosed. Qed.
End unlocking.

Create HintDb preserves.
#[export] Hint Resolve preserves_ret preserves_get preserves_attempt preserves_stop preserves_stop_if preserves_create preserves_grant
  preserves_persist preserves_differs preserves_digest preserves_run preserves_apply preserves_diff : preserves.
#[export] Hint Extern 1 (preserves _ (modify _)) => (by apply preserves_modify) : preserves.

(** Goes through a run bind by bind and branch by branch. *)
Ltac preserve := repeat (intros; first
  [ solve [eauto with preserves]
  | progress cbv beta
  | lazymatch goal with
    | |- preserves _ (_ ≫= _) => apply preserves_bind
    | |- preserves _ (match ?x with _ => _ end) => destruct x
    | |- preserves _ (let '(_, _) := ?x in _) => destruct x
    end ]).

Section unlocked_runs.
Context {W : Type} `{Hash} `{Collation} `{ErrorTexts} `{IsolatedWorkspacePort W} `{StrictTddPorts W}.
Variables (effectivePolicy : EffectivePolicy) (task : TaskSpecification) (contract : TaskTddContract) (cluster : AssertionCluster).
Context (J : W -> list WorkspaceHandle -> Prop) (Hclosed : closed task contract cluster J).

Lemma preserves_baseline : preserves J (baseline_phase effectivePolicy task contract cluster).
Proof. unfold baseline_phase. preserve. Qed.

Lemma preserves_author : preserves J (author_phase effectivePolicy task contract cluster).
Proof. unfold author_phase, emptyScopeStop. preserve. apply preserves_call. intros w hs. by eapply cd_author. Qed.

Lemma preserves_red testPatch digest : preserves J (red_phase effectivePolicy task contract cluster testPatch digest).
Proof. unfold red_phase. preserve. Qed.

Lemma preserves_green testPatch digest d : unlocked task contract cluster d ->
  preserves J (implementation_phase effectivePolicy task contract cluster testPatch digest d).
Proof. intros Hd. unfold implementation_phase, emptyScopeStop. preserve. apply preserves_call. intros w hs. by eapply cd_implement. Qed.

Lemma preserves_refactor testPatch digest files revision d : unlocked task contract cluster d ->
  preserves J (refactor_phase effectivePolicy task contract cluster testPatch digest files revision).
Proof.
  intros Hd. unfold refactor_phase, emptyScopeStop. destruct refactor_code as [r|] eqn:Hr; [|eapply preserves_stop; done].
  destruct (ct_refactor contract); [|eapply preserves_stop; done]. preserve.
  apply preserves_call. intros w hs. eapply cd_refactor; [done..|by eexists].
Qed.

Lemma preserves_seal : preserves J (seal task).
Proof. unfold seal. preserve. apply preserves_call. intros w hs. by eapply cd_cycle. Qed.

Lemma preserves_chain (v : Vars W) : state (current v) = Baseline_guard -> cycle_ok (current v) -> J (world v) (handles v) ->
  J (world (chain effectivePolicy task contract cluster v).2) (handles (chain effectivePolicy task contract cluster v).2).
Proof.
  intros Hs Hok Hv. unfold chain. apply preserves_bind_at; [by apply preserves_baseline|]. intros [] v1 Hb Hv1.
  apply baseline_next in Hb as (b & Hb & _); [|done]. destruct (baseline_moves task contract cluster _ _ _ Hs Hb) as [S1 Hs1].
  apply preserves_bind_at; [by apply preserves_author|]. intros [testPatch digest] v2 Hf Hv2. apply author_next in Hf as [Hf _]; [|done].
  destruct (author_moves cluster _ _ _ _ Hs1 (move_ok _ _ S1 Hok) Hf) as (_ & Hs2 & Hbe & Hdig).
  apply preserves_bind_at; [by apply preserves_red|]. intros d v3 Hr Hv3. apply red_next in Hr as (red & Hr & Hrd & _ & _ & Hst); [|done..].
  assert (unlocked task contract cluster d) as Hd by (by exists (current v2), (current v3), testPatch, digest, red).
  apply preserves_bind; [by apply preserves_green|intros [files revision]|done].
  apply preserves_bind; [apply preserves_if; [by eapply preserves_refactor|apply preserves_ret]|intros []]. apply preserves_seal.
Qed.

(** A way a run ends, once the list of its workspaces is known. *)
Local Ltac ends := do 3 eexists; split; [reflexivity|assumption].

(** Up to the finally clause. *)
Lemma preserves_run_task plan (w : W) :
  ct_assertion_clusters contract = [cluster] ->
  J w [] ->
  (forall w, J w [] -> J (listCycles (cl_logical_cycle_id cluster) w).2 [] /\ J (listEvidence (cl_logical_cycle_id cluster) w).2 [] /\
     J (readBaseline w).2 []) ->
  exists s hs w', run_attempt effectivePolicy task contract plan w = (s, (hs, w')) /\ J w' hs.
Proof.
  intros Hcl Hw Hports. unfold run_attempt. rewrite Hcl. destruct (ct_contract_mode contract); [|ends..].
  case_bool_decide; cbn [negb]; [|ends]. case_bool_decide; cbn [negb]; [|ends].
  pose proof (proj1 (Hports w Hw)) as Hw1. destruct (listCycles (cl_logical_cycle_id cluster) w) as [[previous|e] w1]; [|ends]. cbn in Hw1.
  destruct (find_first _ previous) as [r|].
  - pose proof (proj1 (proj2 (Hports w1 Hw1))) as Hw2. destruct (listEvidence (cl_logical_cycle_id cluster) w1) as [[ev|e] w2]; ends.
  - pose proof (proj2 (proj2 (Hports w1 Hw1))) as Hw2. destruct (readBaseline w1) as [[baseline|e] w2]; [|ends]. cbn in Hw2.
    destruct (createTddCycle _ _ _ _ _ _) as [view|e] eqn:Hc; [|ends].
    pose proof (created_ok _ _ _ _ _ _ _ Hc) as Hok.
    assert (state view = Baseline_guard) as Hs. { unfold createTddCycle in Hc. apply bind_Ok in Hc as (? & _ & [= <-]). done. }
    pose proof (preserves_chain (Variables w2 view [] [] []) Hs Hok Hw2) as Hch.
    destruct (chain effectivePolicy task contract cluster _) as [f v]. cbn in Hch. unfold settle.
    destruct f as [o|o|e|e]; [ends..| |ends].
    pose proof (preserves_stop task contract cluster J Hclosed (A := CompletedOutcome) ("TDD attempt crashed: " +:+ e) [state_order] true v Hch) as Hst.
    destruct (stop _ _ _ _ v) as [[o|o|e'|e'] v']; ends.
Qed.
End unlocked_runs.

(** What a client of the other ports relies on: they make no workspaces. *)
Class TddPortLaws (W : Type) `{WorkspaceLaws W} `{StrictTddPorts W} : Type := {
  run_live : forall phase t c h gate selectors g w, live (run phase t c h gate selectors g w).2 ⊆ live w;
  author_live : forall t c h g w, live (authorTests t c h g w).2 ⊆ live w;
  implement_live : forall t c h g d w, live (implement t c h g d w).2 ⊆ live w;
  refactor_live : forall r t c h g d revision w, refactor_code = Some r -> live (r t c h g d revision w).2 ⊆ live w;
  cycles_live : forall cycle w, live (listCycles cycle w).2 ⊆ live w;
  evidence_live : forall cycle w, live (listEvidence cycle w).2 ⊆ live w;
  append_live : forall e w, live (appendEvidence e w).2 ⊆ live w;
  record_live : forall r w, live (appendCycle r w).2 ⊆ live w;
  baseline_live : forall w, live (readBaseline w).2 ⊆ live w }.

Definition ids (hs : list WorkspaceHandle) : gset string := list_to_set (map workspace_id hs).

(** The workspaces of [hs] whose destruction fails. *)
Fixpoint survivors `{IsolatedWorkspacePort W} (hs : list WorkspaceHandle) (w : W) : gset string :=
  match hs with
  | [] => ∅
  | h :: hs' => let (r, w') := destroy h w in (match r with Ok _ => ∅ | Err _ => {[workspace_id h]} end) ∪ survivors hs' w'
  end.

Lemma destroyed_live `{WorkspaceLaws W} hs : forall w, live (destroy_all hs w) ⊆ (live w ∖ ids hs) ∪ survivors hs w.
Proof.
  induction hs as [|h hs IH]; intros w; [unfold ids; set_solver|].
  cbn [destroy_all foldl survivors]. fold (destroy_all hs (destroy h w).2).
  pose proof (destroy_live h w) as Hd. unfold ids in *. cbn [map list_to_set].
  generalize dependent (list_to_set (map workspace_id hs) : gset string). intros I IH x.
  destruct (destroy h w) as [[r|e] w']; cbn [snd]; intros Hx; specialize (IH w' x Hx); destruct (decide (x = workspace_id h)); set_solver.
Qed.

Lemma held_closed `{Hash} `{Collation} `{ErrorTexts} {W} `{TddPortLaws W} task contract cluster (w0 : W) : clean_create (W := W) ->
  closed task contract cluster (fun w hs => live w ⊆ live w0 ∪ ids hs).
Proof.
  intros Hclean. split; intros.
  - pose proof (create_live commit p w) as Hc. pose proof (Hclean commit p w) as He.
    destruct (create commit p w) as [[h|e] w']; [specialize (Hc _ _ eq_refl)|specialize (He _ _ eq_refl); set_solver]. unfold ids in *. rewrite map_app, list_to_set_app. cbn. set_solver.
  - etrans; [apply applyFiles_live|done].
  - etrans; [apply diff_live|done].
  - etrans; [apply run_live|done].
  - etrans; [apply author_live|done].
  - etrans; [apply append_live|done].
  - etrans; [apply record_live|done].
  - etrans; [apply implement_live|done].
  - etrans; [by eapply refactor_live|done].
Qed.

(** ** Properties *)

(** C15. A run under strict TDD destroys the workspaces it made: whether it
    completes, is blocked in some phase, crashes or is rejected, a workspace that
    is there afterwards was there before, or is one of those the run made and
    its destruction failed (the failure is swallowed: the cleanup is best
    effort). For ports under which a [create] that fails leaves no workspace, a
    [destroy] that returns has removed its own, and nothing but [create] makes
    one. *)
Theorem workspaces_released `{Hash} `{Collation} `{ErrorTexts} {W} `{TddPortLaws W} policy task contract plan (w : W) : clean_create (W := W) ->
  let '(hs, w') := (run_attempt policy task contract plan w).2 in
  live (runTask policy task contract plan w).2 ⊆ live w ∪ survivors hs w'.
Proof.
  intros Hclean. unfold runTask.
  assert (exists s hs w', run_attempt policy task contract plan w = (s, (hs, w')) /\ live w' ⊆ live w ∪ ids hs) as (s & hs & w' & -> & Hw').
  { destruct (ct_assertion_clusters contract) as [|cluster [|c2 cs]] eqn:Hcl.
    1, 3: unfold run_attempt; rewrite Hcl; destruct (ct_contract_mode contract); eexists _, [], w; (split; [done|apply union_subseteq_l]).
    apply (preserves_run_task policy task contract cluster _ (held_closed task contract cluster w Hclean) plan w Hcl).
    - apply union_subseteq_l.
    - intros w1 Hw1. split_and!; (etrans; [|exact Hw1]); [apply cycles_live|apply evidence_live|apply baseline_live]. }
  cbn [snd]. pose proof (destroyed_live hs w') as Hd. generalize dependent (ids hs). intros I Hw' Hd. set_solver.
Qed.

(** C14. Production code is worked on only after accepted red evidence. A condition of
    the world that every port keeps, the implementer and the refactoring when they
    are called on stored red evidence whose run failed as the oracle foretold under
    the frozen patch, holds at the end of every run, however it ends. *)
Theorem production_unlocked_by_red `{Hash} `{Collation} `{ErrorTexts} {W} `{IsolatedWorkspacePort W} `{StrictTddPorts W}
    (P : W -> Prop) policy task contract cluster plan (w : W) :
  ct_assertion_clusters contract = [cluster] -> closed task contract cluster (fun w _ => P w) ->
  (forall w, P w -> P (listCycles (cl_logical_cycle_id cluster) w).2 /\ P (listEvidence (cl_logical_cycle_id cluster) w).2 /\ P (readBaseline w).2) ->
  (forall h w, P w -> P (destroy h w).2) -> P w -> P (runTask policy task contract plan w).2.
Proof.
  intros Hcl Hclosed Hports Hdestroy Hw.
  destruct (preserves_run_task policy task contract cluster _ Hclosed plan w Hcl Hw Hports) as (s & hs & w' & Hrun & Hw').
  unfold runTask. rewrite Hrun. cbn [snd]. clear Hrun. revert w' Hw'. induction hs as [|h hs IH]; intros w' Hw'; [done|]. cbn. by apply IH, Hdestroy.
Qed.

Lemma next_ordinal_fresh previous r : r ∈ previous -> (cr_attempt_ordinal r < next_ordinal previous)%Z.
Proof.
  unfold next_ordinal. assert (forall l a, (a <= foldl Z.max a l)%Z /\ forall x, x ∈ l -> (x <= foldl Z.max a l)%Z) as Hmax.
  { induction l as [|y l IH]; intros a; [split; [done|by intros x ?%elem_of_nil]|]. cbn. destruct (IH (Z.max a y)) as [H1 H2].
    split; [lia|]. intros x [->|Hx]%elem_of_cons; [lia|by apply H2]. }
  intros Hr. destruct (Hmax (map cr_attempt_ordinal previous) 0%Z) as [_ Hx].
  specialize (Hx (cr_attempt_ordinal r)). enough (cr_attempt_ordinal r ∈ map cr_attempt_ordinal previous) by (specialize (Hx ltac:(done)); lia).
  apply list_elem_of_fmap. by exists r.
Qed.

(** C13. What a completed task rests on. The record is completed and bound to the
    contract. Either it is one the store already held, or the attempt is new and
    each step was observed: the gate passed on the untouched baseline; the frozen
    patch holds test files only; the gate failed as the oracle foretold in a
    workspace whose changes were that patch; the implementer was called with the
    digest of that evidence, every file it declared lies within its scopes (what it
    writes without declaring it is not checked: [tampered_run_completes]), and the
    test patch was what it had been when the gate passed; and the evidence the outcome carries is that of these runs,
    in their order. *)
Theorem run_proven `{Hash} `{Collation} `{ErrorTexts} {W} `{IsolatedWorkspacePort W} `{StrictTddPorts W} policy task contract plan (w w' : W) o :
  runTask policy task contract plan w = (Resolved (run_completed o), w') ->
  exists cluster previous w1, ct_contract_mode contract = required /\ ct_assertion_clusters contract = [cluster] /\
    ct_task_id contract = Task.id task /\ ct_capability_plan_digest contract = plan /\
    listCycles (cl_logical_cycle_id cluster) w = (Ok previous, w1) /\
    cr_status (co_cycle o) = completed /\ cr_contract_digest (co_cycle o) = ct_contract_digest contract /\
    if co_replayed o then co_cycle o ∈ previous
    else complete_record (co_cycle o) = true /\ co_implementation_revision o = cr_implementation_revision (co_cycle o) /\
      (forall r, r ∈ previous -> (cr_attempt_ordinal r < cr_attempt_ordinal (co_cycle o))%Z) /\
      exists baseline w2, readBaseline w1 = (Ok baseline, w2) /\
        attested task contract cluster
          (View Baseline_guard (cl_logical_cycle_id cluster) (next_ordinal previous) (Task.id task) (cl_assertion_ids cluster)
             (ct_contract_digest contract) baseline None None None None None None None) o.
Proof.
  unfold runTask, run_attempt. destruct (ct_contract_mode contract) eqn:Hmode; [|done..]. destruct (ct_assertion_clusters contract) as [|cluster [|]] eqn:Hcl; [done| |done].
  case_bool_decide as Ht; cbn [negb]; [|done]. case_bool_decide as Hp; cbn [negb]; [|done].
  destruct (listCycles (cl_logical_cycle_id cluster) w) as [[previous|e] w1] eqn:Hl; [|done].
  destruct (find_first _ previous) as [r|] eqn:Hf.
  - destruct (listEvidence _ w1) as [[ev|e] w2]; [|done]. intros [= <- _]. exists cluster, previous, w1. cbn.
    apply find_first_Some in Hf as [Hin [Hst%bool_decide_eq_true Hd%bool_decide_eq_true]%andb_true_iff]. done.
  - destruct (readBaseline w1) as [[baseline|e] w2] eqn:Hb; [|done]. cbn [createTddCycle mbind result_bind default].
    set (view := View _ _ _ _ _ _ _ _ _ _ _ _ _ _).
    assert (cycle_ok view) as Hok by by eapply (created_ok (Task.id task) _ _ _ (Some _) (Some _)).
    destruct (chain policy task contract cluster _) as [f v] eqn:Hch. unfold settle. intros Hs.
    assert (f = Next o) as ->.
    { destruct f as [o'|o'|e|e]; [by injection Hs as <-|done| |done]. unfold stop in Hs. destruct (buildTddCycleRecord _); [|done].
      by destruct (appendCycle _ _) as [[] ?]. }
    apply chain_next in Hch as (Hat & Hrep & _ & Hrev); [|done..]. cbn [current] in Hat. rewrite Hrep.
    exists cluster, previous, w1. pose proof Hat as (view1 & view2 & view3 & view4 & view5 & b & red & green & tp & d & rd & rest & Hatt).
    destruct Hatt as (_ & _ & _ & _ & _ & _ & _ & Hst & Hsteps & Hbuild & _).
    destruct (record_fields view5 _ Hbuild) as (F1 & F2 & F3 & F4 & _ & F6 & F7 & F8 & F9 & _ & F11 & _ & _ & F14).
    assert (cr_status (co_cycle o) = completed) as Hcomp by (rewrite F1; unfold status_of; by rewrite decide_True).
    destruct (steps_ok _ _ Hsteps Hok) as [Hok5 _].
    assert (contract_digest view5 = contract_digest view /\ attempt_ordinal view5 = attempt_ordinal view) as [Hcd Hao].
    { clear -Hsteps. induction Hsteps as [|v1 v2 v3 Hstep _ [-> ->]]; [done|]. by apply move_identity. }
    split_and!; try done; [by rewrite F11, Hcd|by eapply sealed_complete| |by exists baseline, w2].
    intros r Hr. rewrite F14, Hao. by apply next_ordinal_fresh.
Qed.

(* ------------------------------------------------------------------ *)
(** ** A run over the in-memory adapters *)

(** The adapters, and a log of the digests the implementer was called with. *)
Record SampleWorld : Type := Sample { sp_workspaces : MemoryWorkspaces; sp_evidence : MemoryEvidence; sp_log : list string }.

Definition on_workspaces {A} (p : port MemoryWorkspaces A) : port SampleWorld A := fun w =>
  let '(a, s) := p (sp_workspaces w) in (a, Sample s (sp_evidence w) (sp_log w)).
Definition on_evidence {A} (p : port MemoryEvidence A) : port SampleWorld A := fun w =>
  let '(a, s) := p (sp_evidence w) in (a, Sample (sp_workspaces w) s (sp_log w)).
Definition answer {A} (a : A) : port SampleWorld A := fun w => (Ok a, w).

#[local] Instance sample_hash : Hash := {| sha256 := fun s => s |}.
#[local] Existing Instance by_code_units.
#[local] Instance sample_texts : ErrorTexts := {| canonical_text := fun _ => "canonical error"; grant_text := fun _ => "grant error" |}.
#[local] Instance sample_memory : IsolatedWorkspacePort MemoryWorkspaces := createInMemoryWorkspacePort [("src/a.ts", "export {}")] "".

#[local] Instance sample_workspaces : IsolatedWorkspacePort SampleWorld := {|
  create commit p := on_workspaces (create commit p);
  applyFiles h files := on_workspaces (applyFiles h files);
  diff h := on_workspaces (diff h);
  reset h := on_workspaces (reset h);
  destroy h := on_workspaces (destroy h) |}.

Definition sample_runs (phase : GatePhase) : list TestRun :=
  match phase with
  | gate_baseline => [Run_ "t0" true None None None None None]
  | gate_red => [Run_ "t1" false (Some "as_1") (Some "assertion_failure") None None None]
  | gate_green | gate_refactor => [Run_ "t1" true None None None None None]
  end.

#[local] Instance sample_ports : StrictTddPorts SampleWorld := {|
  run phase _ _ _ _ _ _ := answer (Observation (structured (sample_runs phase)) "gate" "framework" "env" (Output "out" "digest"));
  authorTests _ _ _ _ := answer [MkFile "tests/a.test.ts" "expect(1)"];
  implement _ _ _ _ d := fun w =>
    (Ok ([MkFile "src/a.ts" "export const a = 1"], "rev_1"), Sample (sp_workspaces w) (sp_evidence w) (sp_log w ++ [d]));
  refactor_code := None;
  listCycles cycle := on_evidence (memory_listCycles cycle);
  listEvidence cycle := on_evidence (memory_listEvidence cycle);
  appendEvidence e := on_evidence (memory_appendEvidence e);
  appendCycle r := on_evidence (memory_appendCycle r);
  readBaseline := answer "base" |}.

Lemma on_workspaces_log {A} (p : port MemoryWorkspaces A) w : sp_log (on_workspaces p w).2 = sp_log w.
Proof. unfold on_workspaces. by destruct (p (sp_workspaces w)). Qed.
Lemma on_evidence_log {A} (p : port MemoryEvidence A) w : sp_log (on_evidence p w).2 = sp_log w.
Proof. unfold on_evidence. by destruct (p (sp_evidence w)). Qed.
Lemma on_evidence_workspaces {A} (p : port MemoryEvidence A) w : sp_workspaces (on_evidence p w).2 = sp_workspaces w.
Proof. unfold on_evidence. by destruct (p (sp_evidence w)). Qed.

#[local] Instance memory_laws : WorkspaceLaws MemoryWorkspaces := in_memory_laws _ _.

#[local] Instance sample_laws : WorkspaceLaws SampleWorld.
Proof.
  refine {| live := fun w => live (sp_workspaces w) |}; cbn [create applyFiles diff destroy sample_workspaces].
  - intros commit p w h w'. pose proof (create_live commit p (sp_workspaces w)) as Hc. unfold on_workspaces.
    destruct (create commit p (sp_workspaces w)) as [r s]. intros [= -> <-]. by apply Hc.
  - intros h files w. pose proof (applyFiles_live h files (sp_workspaces w)) as Hc. unfold on_workspaces. by destruct (applyFiles h files (sp_workspaces w)).
  - intros h w. pose proof (diff_live h (sp_workspaces w)) as Hc. unfold on_workspaces. by destruct (diff h (sp_workspaces w)).
  - intros h w. pose proof (destroy_live h (sp_workspaces w)) as Hc. unfold on_workspaces. by destruct (destroy h (sp_workspaces w)) as [[] s].
Defined.

#[local] Instance sample_port_laws : TddPortLaws SampleWorld.
Proof. split; try done; intros; cbn [live sample_laws listCycles listEvidence appendEvidence appendCycle sample_ports]; by rewrite on_evidence_workspaces. Qed.

Definition sample_cluster : AssertionCluster :=
  Cluster "cycle_1" ["as_1"] "gate_1" ["t1"] (Oracle ["t1"] ["assertion_failure"] ["as_1"] None None None) sample_path_policy "framework" false.
Definition sample_contract : TaskTddContract :=
  Contract "task-1" required "plan" [sample_cluster] (PhaseBudget 1 None None) (PhaseBudget 1 (Some 5%Z) None) None "contract".
Definition sample_tdd_task : TaskSpecification :=
  Task "task-1" "objective" [] [] [] [] [] Task.low (TaskBudget 10 1000 None) (Some ["src"; "tests"]) None [] None [].
Definition empty_world : SampleWorld := Sample (Memory 0 ∅) (Stored [] []) [].
Definition sample_tdd_policy : EffectivePolicy := Effective [] [] "policy".

Definition sample_settled : settlement * SampleWorld := runTask sample_tdd_policy sample_tdd_task sample_contract "plan" empty_world.

Example sample_settles : match sample_settled with
  | (Resolved (run_completed o), w) => cr_status (co_cycle o) = completed /\ co_replayed o = false /\ sp_workspaces w = Memory 4 ∅ /\
      length (co_evidence o) = 3 /\ length (sp_log w) = 1
  | _ => False
  end.
Proof. vm_compute. done. Qed.

(** A second run of the task answers the first record. *)
Example sample_replays :
  match runTask sample_tdd_policy sample_tdd_task sample_contract "plan" sample_settled.2 with
  | (Resolved (run_completed o), w) => co_replayed o = true /\ w = sample_settled.2
  | _ => False
  end.
Proof. vm_compute. done. Qed.

Lemma memory_clean : clean_create (W := SampleWorld).
Proof.
  intros commit p w e w'. cbn [create sample_workspaces]. unfold on_workspaces. cbn [create sample_memory createInMemoryWorkspacePort].
  unfold memory_create. destruct (baselineDigest _) as [files|x]; [destruct (contentDigest _) as [d|x]|]; by intros [= _ <-].
Qed.

Lemma workspaces_released_witness :
  let '(hs, w') := (run_attempt sample_tdd_policy sample_tdd_task sample_contract "plan" empty_world).2 in
  length hs = 4 /\ live (runTask sample_tdd_policy sample_tdd_task sample_contract "plan" empty_world).2 ⊆ live empty_world ∪ survivors hs w'.
Proof.
  pose proof (workspaces_released sample_tdd_policy sample_tdd_task sample_contract "plan" empty_world memory_clean) as Hw.
  assert (length (run_attempt sample_tdd_policy sample_tdd_task sample_contract "plan" empty_world).2.1 = 4) as Hl by (vm_compute; reflexivity).
  destruct (run_attempt _ _ _ _ _) as [s [hs w']]. cbn [fst snd] in *. by split.
Defined.

Lemma sample_completed : exists o w',
  runTask sample_tdd_policy sample_tdd_task sample_contract "plan" empty_world = (Resolved (run_completed o), w') /\ co_replayed o = false.
Proof. eexists _, _. split; [vm_compute; reflexivity|reflexivity]. Qed.

Lemma run_proven_witness : exists o, complete_record (co_cycle o) = true /\
  exists view0, attested sample_tdd_task sample_contract sample_cluster view0 o.
Proof.
  destruct sample_completed as (o & w' & E & Hr). exists o.
  destruct (run_proven _ _ _ _ _ _ _ E) as (cluster & previous & w1 & _ & Hcl & _ & _ & _ & _ & _ & Hx). injection Hcl as <-.
  rewrite Hr in Hx. destruct Hx as (Hc & _ & _ & baseline & w2 & _ & Hat). split; [exact Hc|]. by eexists.
Defined.

Definition logged_unlocked (w : SampleWorld) : Prop := Forall (unlocked sample_tdd_task sample_contract sample_cluster) (sp_log w).

Lemma logged_same w w' : sp_log w' = sp_log w -> logged_unlocked w -> logged_unlocked w'.
Proof. unfold logged_unlocked. by intros ->. Qed.

Lemma logged_closed : closed sample_tdd_task sample_contract sample_cluster (fun w _ => logged_unlocked w).
Proof.
  split; cbv beta.
  - intros commit p w hs Hw. pose proof (on_workspaces_log (create commit p) w) as Hl. cbn [create sample_workspaces].
    destruct (on_workspaces (create commit p) w) as [[h|e] w']; by eapply logged_same.
  - intros h files w hs. apply logged_same, on_workspaces_log.
  - intros h w hs. apply logged_same, on_workspaces_log.
  - done.
  - done.
  - intros e w hs. apply logged_same, on_evidence_log.
  - intros r w hs. apply logged_same, on_evidence_log.
  - intros h g d w hs Hd Hw. unfold logged_unlocked. cbn [implement sample_ports snd sp_log]. apply Forall_app. split; [exact Hw|by constructor].
  - done.
Qed.

Lemma production_unlocked_by_red_witness : length (sp_log sample_settled.2) = 1 /\
  logged_unlocked (runTask sample_tdd_policy sample_tdd_task sample_contract "plan" empty_world).2.
Proof.
  split; [vm_compute; reflexivity|].
  apply (production_unlocked_by_red logged_unlocked sample_tdd_policy sample_tdd_task sample_contract sample_cluster "plan" empty_world);
    [reflexivity|apply logged_closed| | |constructor].
  - intros w Hw. split_and!; (eapply logged_same; [|exact Hw]); [apply on_evidence_log|apply on_evidence_log|reflexivity].
  - intros h w Hw. eapply logged_same; [apply on_workspaces_log|exact Hw].
Defined.

(** *** What the runner does not check *)

Definition present (h : WorkspaceHandle) (file : PatchFile) (w : SampleWorld) : bool :=
  match diff h w with (Ok files, _) => mem file files | (Err _, _) => false end.

(** An implementer that also writes an undeclared file, a refactoring that rewrites
    the test, and a gate that passes for nothing else. *)
Definition tampering_ports : StrictTddPorts SampleWorld := {|
  run phase _ _ h _ _ _ := fun w =>
    let passed := match phase with
      | gate_baseline => true | gate_red => false
      | gate_green => present h (MkFile "src/b.ts" "undeclared") w
      | gate_refactor => present h (MkFile "tests/a.test.ts" "expect(true)") w
      end in
    let runs := match phase with gate_red => sample_runs gate_red | _ => [Run_ "t1" passed None None None None None] end in
    (Ok (Observation (structured runs) "gate" "framework" "env" (Output "out" "digest")), w);
  authorTests := authorTests;
  implement _ _ h _ _ := fun w => (Ok ([MkFile "src/a.ts" "export const a = 1"], "rev_1"), (applyFiles h [MkFile "src/b.ts" "undeclared"] w).2);
  refactor_code := Some (fun _ _ h _ _ _ w => (Ok ([], "rev_2"), (applyFiles h [MkFile "tests/a.test.ts" "expect(true)"] w).2));
  listCycles := listCycles; listEvidence := listEvidence; appendEvidence := appendEvidence; appendCycle := appendCycle; readBaseline := readBaseline |}.

Definition planned_cluster : AssertionCluster :=
  Cluster "cycle_1" ["as_1"] "gate_1" ["t1"] (Oracle ["t1"] ["assertion_failure"] ["as_1"] None None None) sample_path_policy "framework" true.
Definition planned_contract : TaskTddContract :=
  Contract "task-1" required "plan" [planned_cluster] (PhaseBudget 1 None None) (PhaseBudget 1 None None) (Some (PhaseBudget 1 None None)) "contract".
Definition narrow_task : TaskSpecification :=
  Task "task-1" "objective" [] [] [] [] [] Task.low (TaskBudget 10 1000 None) (Some ["src/a.ts"; "tests"]) None [] None [].

(** The run completes, though the implementer wrote outside the write scope of
    the task, and the refactoring replaced the test. *)
Example tampered_run_completes :
  match runTask (H3 := tampering_ports) sample_tdd_policy narrow_task planned_contract "plan" empty_world with
  | (Resolved (run_completed o), _) => cr_status (co_cycle o) = completed /\ length (co_evidence o) = 4
  | _ => False
  end.
Proof. vm_compute. done. Qed.
